(* ===== verification/_CoqProject ===== *)
-Q . S2P
Prelude.v
Cas.v
OptiCon.v
Bytes.v
ConsumerProtocol.v
Ordered.v
Assignor.v
GroupDoc.v
ClassicGroup.v
ConsumerGroup.v
Reconcile.v
Converge.v
Migration.v
GroupHistory.v
Generations.v
Varint.v
Records.v
Batch.v
Segment.v
ProducerTail.v
PrefixIndex.v
Fenced.v
Refresh.v
Flush.v
Window.v
Replay.v
Protocol.v
Routing.v
Retention.v
Compaction.v
PerKey.v
TxnMeta.v
Transactions.v
Acl.v
MessageModel.v
Schemas.v
Serde.v
Encoder.v
Decoder.v
Grammar.v
EncoderSpec.v
DecoderSpec.v
Tagged.v
Mezzanine.v
Messages.v
