(* ===== verification/Prelude.v ===== *)
(** * Kodansu: a verification development

    Kodansu is a Kafka-compatible broker without local state: everything it
    knows is in an object store.  This library models what decides whether an
    acknowledged record can be lost, duplicated, misread or shown to the wrong
    reader: the wire protocol, the record, batch and segment formats, the index
    each process keeps of the segments, the flush that assigns offsets and the
    protocol by which any number of brokers append to one prefix, retention,
    the shared documents brokers contend on, transactions, access control, and
    the group coordinator of both rebalance protocols.

    ** The program's parts and the files that model them

    A request is a frame; its header and body are read by a decoder driven by
    metadata generated from the message descriptions.  A produce request
    carries record batches.  A batch is routed to a prefix (one bucket directory
    shared by many topics) and buffered in the prefix's window; a closed window
    is flushed as one segment object: the batches of each sub-stream (topic name
    or id, and partition) laid out as a region, then a footer with one entry per
    sub-stream, then a trailer.  Segments are named by consecutive sequence
    numbers and created with a create-only PUT, which is the only arbiter
    between brokers: a writer folds the footers it has not seen, derives each
    sub-stream's next offset and each producer's dedup state from them, and
    tries the next free name; losing the name means folding the winner and
    deriving again.  Readers plan their ranged reads from a fenced view of the
    same index.  Maintenance merges segments, and expires them behind durable
    floors.  Everything else that is shared (transactions, access rules, groups,
    watermarks) is a document in the store, changed by a conditional write that
    is repeated when it loses.

    Foundations.
    - [Prelude], [Bytes], [Ordered]: fallible code as [result] (Ok, Err or a
      Rust panic), machine integers, byte buffers and readers, the class [Wire]
      of a codec that reads back what it writes, maps and sets iterated in key
      order (class [KeyOrder]), strings, and the shared automation.
    - [Cas], [OptiCon]: conditional writes of one document.  [Cas] is the retry
      loop of the group coordinator ([consumer_transition]) and of the access
      rules over [dynostore/object.rs]; [OptiCon] is the cached handle of
      [tansu-storage/src/dynostore/opticon.rs], every operation of it, and any
      number of processes interleaving their object-store calls.

    Formats.
    - [Varint], [Records], [Batch]: [primitive/varint.rs], [record/codec.rs],
      [record/header.rs], [record.rs], [record/deflated.rs],
      [record/inflated.rs] and the attribute types of [lib.rs] in
      [tansu-sans-io/src]; [combine] of [tansu-storage/src/batch.rs].
    - [Segment]: the segment types of [tansu-storage/src/dynostore.rs], the codec
      [dynostore/codec.rs] and [capped_regions] of [dynostore/compaction.rs].
    - [ConsumerProtocol]: the subscription and assignment blobs of
      [tansu-sans-io/src/consumer].
    - [MessageModel], [Schemas]: the message model ([tansu-model/src/lib.rs]),
      the metadata and types [tansu-sans-io/build.rs] generates, and every
      message description as a value.
    - [Serde], [Encoder], [Decoder], [Tagged]: the serializer and deserializer
      ([ser.rs], [de.rs], [primitive/tagged]), as state machines over the
      metadata.
    - [Grammar], [EncoderSpec], [DecoderSpec]: the bytes of a message as a
      function of description, version and value, and the two machines against
      it.
    - [Mezzanine], [Messages]: the public and wire forms of a message, and whole
      request and response frames.

    The log.
    - [ProducerTail]: [ProducerTail], [retain_foldable_producers] and
      [producer_tail_folded] of [dynostore/codec.rs] and [dynostore/coalesce.rs].
    - [PrefixIndex], [Fenced], [Refresh]: the resident index and its mutators,
      the fenced view with the read plan of a fetch, and footer reads, sequence
      floor, tail probe and listing ([dynostore/index.rs],
      [dynostore/segments.rs], [dynostore/fetch.rs]).
    - [Flush], [Window], [Replay], [Protocol]: the leaseless flush, the windows
      and the queue in front of it ([dynostore/coalesce.rs]), the log against
      the writer's memory, and many writers and maintenance on one bucket.
    - [Routing], [Retention]: prefixes and retention thresholds
      ([dynostore/routing.rs], [dynostore/retention.rs]), then the expiry of a
      prefix, served-end certification, DeleteRecords and the watermark
      ([dynostore/retention.rs], [dynostore/watermarks.rs], [retire_segments] of
      [dynostore/segments.rs]).
    - [Compaction]: the merge of a prefix's oldest segments
      ([dynostore/compaction.rs], with [RunCoverage] and [decode_fenced_regions]
      of [dynostore/fetch.rs] and the memos of [dynostore/retention.rs]).
    - [PerKey]: the pass that cleans a compacted topic's prefix by key
      ([compact_prefix_per_key] of [dynostore/compaction.rs]).

    Documents.
    - [TxnMeta], [Transactions]: the closures on the transactions document and
      the operations made of them ([dynostore/txn.rs], [dynostore/storage.rs],
      [Meta] of [dynostore.rs], [service/txn/end.rs]).
    - [Acl]: rules, decision, document, authorizer and services
      ([tansu-storage/src/acl.rs], [authorizer.rs], [dynostore/principals.rs],
      [service/*_acls.rs]).
    - [Assignor], [GroupDoc], [ClassicGroup], [ConsumerGroup], [Reconcile],
      [Converge], [Migration], [GroupHistory], [Generations]: the coordinator of
      [tansu-broker/src/coordinator/group] and the group documents of
      [tansu-storage/src/group.rs] and [consumer_group.rs].

    ** How code becomes definitions

    A struct is a [Record], an enum an [Inductive], a method a function that
    takes and returns the state it mutates.  Machine integers are [Z]; where the
    source wraps, truncates, saturates or overflows, the definition says so
    ([wrap_s], [sat_i64], [in_i32] and the like), and a [typed] or [_ok]
    predicate carries the width of the fields of a value.  [BTreeMap] and
    [HashMap] are [gmap], with [sorted_keys], [entries_of] or [set_list] where
    order is observed.  Requests to the object store, and the clock, are
    function arguments or the fields of a record ([Attempt], [Env],
    [ExpiryEnv], [CompactEnv]): what they answer is arbitrary, so errors, conflicts and lost
    responses are all covered.  CRC-32C, the compression codecs, the regular
    expression engine and the case conversion of names are parameters.
    Concurrency is a step relation over a shared store, with theorems by rule
    induction over everything reachable.

    ** What is shown

    - Formats: every encoder is read back by its decoder, sizes announced are
      sizes written, decoders stay in bounds on hostile input, and where they
      panic or disagree is stated as a theorem ([batch_pipeline_roundtrip],
      [segment_roundtrip], [region_read_sound], [records_roundtrip],
      [malformed_record_panics] and their neighbours).
    - Messages: the encoder writes the grammar of a message
      ([request_refines_grammar]), the decoder reads whole frames back
      ([request_frame_roundtrip], [response_frame_roundtrip]) but for what
      [received] says is lost.
    - Index: the derived lookup is the walk it replaces
      ([index_lookup_is_walk]); the fenced view serves exactly the offsets that
      are cached, each once ([fenced_view_exact], [merge_hides_sources]); the
      tail and the read plan agree with it.  Along any history of a prefix, in
      which the store is at rest during each refresh, a refresh leaves no live
      segment unseen ([refresh_resolves]), and names are chosen from a fresh
      floor ([candidate_floor_is_fresh]).
    - Idempotence: classification is exact over a producer's stream
      ([dedup_classifies]) unless a batch straddles the wrap of the sequences,
      which stalls the producer ([straddling_batch_stalls]); pruned coordinates
      never matter ([retain_is_exact]), and the log rebuilds the writer's state
      ([log_fold_is_writer_state]).
    - Flush and protocol: an acknowledged offset is where the batch is, and every
      other batch is answered what its producer's tail says
      ([flush_acks_sound]); batches reach the flush in admission order
      ([windows_keep_admission_order]).  No name and no offset is used twice in
      any interleaving ([offsets_never_reused]) of which [careful] holds:
      watermark reads succeed, segments are deleted when their offsets are
      covered and no PUT for their name is in flight, and no watermark is
      dropped.  The code can violate each: a failed read is taken for 0
      ([failed_floor_read_reuses_offsets]), a failed watermark write does not
      stop an expiry ([unwritten_floor_reuses_offsets]), and a PUT may be in
      flight ([retired_candidate_is_reused]).
    - Retention: no topic's records are due before its own setting says
      ([thresholds_exact]); age takes the greatest head of every log and never
      opens a hole ([expiry_takes_a_head]); the next offset survives any
      expiry whose floors were written ([expiry_keeps_next_offset]); floors only
      rise ([floors_only_rise]).
    - Compaction: a run is only taken when it may be merged
      ([select_run_sound]), and a merge keeps every batch the view served, at
      its offset ([compaction_keeps_records]); overlaps are refused exactly when
      they are not copies ([first_divergence_exact]).  Cleaning by key keeps
      exactly the last record of every key ([per_key_keeps_latest]) and every
      offset ([per_key_keeps_offsets]).
    - Documents: updates, creates and removals through the cached handle are
      linearizable ([with_mut_linearizable]), and so are a group's requests: the
      log of their writes is a sequential history, and every answer has its
      point in it ([replicas_linearize]).
    - Transactions: producer epochs are unique ([producer_ids_unique]), zombies
      are fenced on every broker ([zombie_fenced]), a restart takes over below
      the last epoch ([restart_takes_over]), EndTxn resolves what nobody is in the way of
      ([end_txn_resolves]), readers are held where they should be
      ([read_committed_stage]); and an aborted transaction wedges a partition
      for the transactions that overlap it ([aborted_blocks_commit]).
    - Access control: deny by default with denials first
      ([decision_denies_by_default], [tenant_confined]), the document holds
      exactly the rules created and not deleted since
      ([rule_stays_until_deleted]), and decisions, a super user's apart, are as
      fresh as the TTL ([authorizer_decision_fresh]).
    - Groups: one owner per partition ([partition_has_one_owner]), moves only
      with consent or by conversion ([partition_moves_with_consent]), documents
      in order ([group_in_order]) and groups that settle ([group_settles]), all
      provided the classic assignments that were converted gave no partition
      twice ([fair]; the broker only warns); targets are exact
      ([assign_exact]), generations move in order and their answers agree until
      they may be pruned ([generation_in_order], [sync_answers_agree]).

    ** Bounds and fuel

    [decode_frame_loop] runs on the length of its input plus one, each turn
    consuming at least a frame's prefix; [split] on the length of its input
    plus one.  The varint loops run on the number of bytes their accumulators
    can hold.  [probe_loop], [relist], [flush_loop], [transition_loop] and
    [update_acls] run on the bounds the code itself has ([PROBE_WINDOW],
    [PREFIX_INDEX_MAX_RELISTS], [MAX_ATTEMPTS], 64 attempts, 16 attempts).  The
    message codec runs on the depth of the descriptions, at most 8.  The
    balancing loop of the uniform assignor runs on the sum of squared loads
    ([uniform_terminates]), the demotion loop of retention on the number of
    aged segments plus one ([expiry_takes_a_head]), the chunked deletes on the
    number of names, the selection of a run on the number of segments
    ([choose_fuel]), and a restarting producer on one rollback
    ([restart_takes_over]).  The retries of [with_mut] are unbounded in the
    code: the function runs on the answers it is given, and the step relation
    has no bound.

    ** What is not modelled

    Poisoned mutexes (but for the one [OptiCon] holds), metrics and logging.  In
    [Protocol] a writer's fold is one step and the compare-and-swap loops of the
    floor and watermark objects are their effect.  An object whose footer panics
    the decoder is treated by the tail probe like one whose footer is too long.
    The loops that repeat a compaction pass, the driver of fetch, the creation and deletion of topics,
    committed group offsets and their expiry, client quotas, the caches that
    only save requests, the startup probe and configuration, the request
    handlers that translate messages into storage calls, the service stack,
    authentication, the client and the command line are outside: they are
    input and output around the parts above, or call libraries that are not
    part of the repository. *)

From stdpp Require Export prelude gmap strings list sorting.
From Stdlib Require Export ZArith Lia.

#[global] Open Scope Z_scope.

(** ** Outcomes of fallible code

    A Rust function that returns [Result<A>] and may also panic (an
    out-of-range slice, [Bytes::split_to] past the end, [Buf::get_u8] on an
    empty buffer) is a function into [result A]. *)

Inductive error :=
  | TryGet                     (** bytes::TryGetError: the buffer is too short *)
  | Overflow                   (** Error::Overflow *)
  | Io                         (** std::io::Error: the reader ended early *)
  | TryFromInt                 (** TryFromIntError *)
  | Message (m : string)       (** Error::Message *)
  | Api (code : Z)             (** Error::Api(ErrorCode) *)
  | CorruptSegment (m : string)
  | DivergentBatch (index : nat)
  | OmittedNonNullableField (field : string) (api_version : option Z)
  | StringWithoutLength
  | MessageMaxSizeExceeded (length : Z)
  | UnexpectedType (m : string)
  | UnknownContainer
  | Utf8                       (** Utf8Error, FromUtf8Error *)
  | NotFound                   (** object_store::Error::NotFound *)
  | Transport.                 (** any other object_store::Error *)

Inductive panic :=
  | SliceOutOfRange
  | GetPastEnd
  | CapacityOverflow
  | ArithmeticOverflow
  | AssertionFailed
  | OutOfFuel.                 (** never reached: see the fuel lemmas *)

Inductive result (A : Type) :=
  | Ok (a : A)
  | Err (e : error)
  | Panic (p : panic).
Arguments Ok {A} a.
Arguments Err {A} e.
Arguments Panic {A} p.

#[export] Instance error_eq_dec : EqDecision error.
Proof. solve_decision. Defined.
#[export] Instance panic_eq_dec : EqDecision panic.
Proof. solve_decision. Defined.
#[export] Instance result_eq_dec {A} `{EqDecision A} : EqDecision (result A).
Proof. solve_decision. Defined.

Definition rbind {A B} (r : result A) (f : A -> result B) : result B :=
  match r with
  | Ok a => f a
  | Err e => Err e
  | Panic p => Panic p
  end.

Definition rmap {A B} (f : A -> B) (r : result A) : result B :=
  rbind r (fun a => Ok (f a)).

Definition is_ok {A} (r : result A) : bool :=
  match r with Ok _ => true | _ => false end.

Declare Scope kodansu_scope.
Delimit Scope kodansu_scope with kd.
Notation "'let!' x := m 'in' k" := (rbind m (fun x => k))
  (at level 200, x pattern, m at level 100, k at level 200,
   format "'[v' 'let!'  x  :=  m  'in' '/' k ']'") : kodansu_scope.
#[global] Open Scope kodansu_scope.

Lemma rbind_Ok {A B} (r : result A) (f : A -> result B) b :
  rbind r f = Ok b <-> exists a, r = Ok a /\ f a = Ok b.
Proof. destruct r; cbn; naive_solver. Qed.

Lemma rbind_assoc {A B C} (r : result A) (f : A -> result B) (g : B -> result C) :
  rbind (rbind r f) g = rbind r (fun a => rbind (f a) g).
Proof. by destruct r. Qed.

Lemma Ok_inj {A} (a b : A) : Ok a = Ok b -> a = b.
Proof. by intros [= ->]. Qed.

(** ** Tactics *)

(** Split every [rbind _ _ = Ok _] hypothesis. *)
Ltac inv_ok :=
  repeat match goal with
  | H : rbind _ _ = Ok _ |- _ =>
      let a := fresh "a" in let E := fresh "E" in
      apply rbind_Ok in H as (a & E & H)
  | H : Ok _ = Ok _ |- _ => apply Ok_inj in H
  | H : (_, _) = (_, _) |- _ => apply pair_eq in H as [? ?]
  | H : _ = ?x |- _ => is_var x; subst x
  | H : ?x = _ |- _ => is_var x; subst x
  | H : Err _ = Ok _ |- _ => discriminate H
  | H : Panic _ = Ok _ |- _ => discriminate H
  end.

(** Case analysis on the scrutinee of an [if]/[match], keeping the equation. *)
Ltac case_head :=
  match goal with
  | |- context [if ?b then _ else _] => destruct b eqn:?
  | |- context [match ?x with _ => _ end] => destruct x eqn:?
  end.

(** Turn boolean comparisons on [Z] and [nat] in the context into propositions. *)
Ltac bool_prop :=
  repeat match goal with
  | H : (_ && _) = true |- _ => apply andb_true_iff in H as [? ?]
  | H : (_ || _) = false |- _ => apply orb_false_iff in H as [? ?]
  | H : negb _ = true |- _ => apply negb_true_iff in H
  | H : negb _ = false |- _ => apply negb_false_iff in H
  | H : (_ =? _) = true |- _ => apply Z.eqb_eq in H
  | H : (_ =? _) = false |- _ => apply Z.eqb_neq in H
  | H : (_ <=? _) = true |- _ => apply Z.leb_le in H
  | H : (_ <=? _) = false |- _ => apply Z.leb_gt in H
  | H : (_ <? _) = true |- _ => apply Z.ltb_lt in H
  | H : (_ <? _) = false |- _ => apply Z.ltb_ge in H
  | H : bool_decide _ = true |- _ => apply bool_decide_eq_true in H
  | H : bool_decide _ = false |- _ => apply bool_decide_eq_false in H
  end.

(** ** Machine integers

    A [w]-bit Rust integer is a [Z] in the range of its type.  [wrap_u] and
    [wrap_s] are the two's-complement reductions that [as] casts, [wrapping_*]
    and shifts perform. *)

Definition wrap_u (bits : Z) (z : Z) : Z := z mod 2 ^ bits.
Definition wrap_s (bits : Z) (z : Z) : Z :=
  let m := z mod 2 ^ bits in
  if m <? 2 ^ (bits - 1) then m else m - 2 ^ bits.

Definition u_range (bits z : Z) : bool := (0 <=? z) && (z <? 2 ^ bits).
Definition s_range (bits z : Z) : bool := (- 2 ^ (bits - 1) <=? z) && (z <? 2 ^ (bits - 1)).

Abbreviation in_u8 := (u_range 8).
Abbreviation in_u16 := (u_range 16).
Abbreviation in_u32 := (u_range 32).
Abbreviation in_u64 := (u_range 64).
Abbreviation in_i8 := (s_range 8).
Abbreviation in_i16 := (s_range 16).
Abbreviation in_i32 := (s_range 32).
Abbreviation in_i64 := (s_range 64).

Definition i32_MAX : Z := 2 ^ 31 - 1.
Definition i64_MIN : Z := - 2 ^ 63.
Definition i64_MAX : Z := 2 ^ 63 - 1.

(** [i64::saturating_add], [saturating_sub], .. *)
Definition sat_i64 (z : Z) : Z := Z.max i64_MIN (Z.min z i64_MAX).

Lemma u_range_spec bits z : u_range bits z = true <-> 0 <= z < 2 ^ bits.
Proof. unfold u_range. rewrite andb_true_iff, Z.leb_le, Z.ltb_lt. done. Qed.

Lemma s_range_spec bits z :
  s_range bits z = true <-> - 2 ^ (bits - 1) <= z < 2 ^ (bits - 1).
Proof. unfold s_range. rewrite andb_true_iff, Z.leb_le, Z.ltb_lt. done. Qed.

Lemma pow2_pos n : 0 <= n -> 0 < 2 ^ n.
Proof. intros; apply Z.pow_pos_nonneg; lia. Qed.

Lemma pow2_half bits : 0 < bits -> 2 ^ bits = 2 * 2 ^ (bits - 1).
Proof.
  intros. replace bits with (Z.succ (bits - 1)) at 1 by lia.
  rewrite Z.pow_succ_r by lia. lia.
Qed.

Lemma wrap_u_range bits z : 0 <= bits -> u_range bits (wrap_u bits z) = true.
Proof. intros. apply u_range_spec. apply Z.mod_pos_bound, pow2_pos; lia. Qed.

Lemma wrap_u_small bits z : u_range bits z = true -> wrap_u bits z = z.
Proof. intros H%u_range_spec. by apply Z.mod_small. Qed.

Lemma wrap_s_small bits z : 0 < bits -> s_range bits z = true -> wrap_s bits z = z.
Proof.
  intros Hb H%s_range_spec. unfold wrap_s.
  pose proof (pow2_half bits Hb). pose proof (pow2_pos (bits - 1) ltac:(lia)).
  destruct (Z_le_gt_dec 0 z).
  - rewrite Z.mod_small by lia. destruct (Z.ltb_spec z (2 ^ (bits - 1))); lia.
  - replace (z mod 2 ^ bits) with (z + 2 ^ bits).
    + destruct (Z.ltb_spec (z + 2 ^ bits) (2 ^ (bits - 1))); lia.
    + symmetry. rewrite <- (Z.mod_small (z + 2 ^ bits) (2 ^ bits)) by lia.
      rewrite <- Z.add_mod_idemp_r, Z.mod_same by lia. f_equal. lia.
Qed.

Lemma wrap_i32 z : - 2 ^ 31 <= z < 2 ^ 31 -> wrap_s 32 z = z.
Proof. intros. apply wrap_s_small; [lia|]. by apply s_range_spec. Qed.

Lemma wrap_i64 z : - 2 ^ 63 <= z < 2 ^ 63 -> wrap_s 64 z = z.
Proof. intros. apply wrap_s_small; [lia|]. by apply s_range_spec. Qed.

Lemma wrap_s_range bits z : 0 < bits -> s_range bits (wrap_s bits z) = true.
Proof.
  intros Hb. apply s_range_spec. unfold wrap_s.
  pose proof (pow2_half bits Hb).
  pose proof (Z.mod_pos_bound z (2 ^ bits) (pow2_pos bits ltac:(lia))).
  destruct (Z.ltb_spec (z mod 2 ^ bits) (2 ^ (bits - 1))); lia.
Qed.

Lemma wrap_s_mod bits z : 0 < bits -> wrap_s bits (z mod 2 ^ bits) = wrap_s bits z.
Proof. intros. unfold wrap_s. by rewrite Z.mod_mod by (apply Z.pow_nonzero; lia). Qed.

Lemma mod_wrap_s bits z : 0 < bits -> wrap_s bits z mod 2 ^ bits = z mod 2 ^ bits.
Proof.
  intros. assert (2 ^ bits <> 0) by (apply Z.pow_nonzero; lia). unfold wrap_s.
  destruct (_ <? _); [by rewrite Z.mod_mod|].
  replace (z mod 2 ^ bits - 2 ^ bits) with (z mod 2 ^ bits + -1 * 2 ^ bits) by lia.
  by rewrite Z.mod_add, Z.mod_mod.
Qed.

(** ** Lists *)

Section lists.
Context {A : Type}.
Implicit Types (l : list A) (n : nat).

Lemma take_app_exact l k n : n = length l -> take n (l ++ k) = l.
Proof. intros ->. by rewrite take_app_length. Qed.

Lemma drop_app_exact l k n : n = length l -> drop n (l ++ k) = k.
Proof. intros ->. by rewrite drop_app_length. Qed.

(** Rust's [v[a..b]] on a slice, for [a <= b <= len]. *)
Definition slice (a b : nat) l : list A := take (b - a) (drop a l).

Lemma slice_app_mid l k r a b :
  a = length l -> b = (length l + length k)%nat -> slice a b (l ++ k ++ r) = k.
Proof.
  intros -> ->. unfold slice. rewrite drop_app_length.
  apply take_app_exact. lia.
Qed.

Lemma last_snoc_inv l x : last l = Some x -> exists l', l = l' ++ [x].
Proof.
  induction l as [|y l IH] using rev_ind; [done|].
  rewrite last_snoc. intros [= ->]. by exists l.
Qed.
End lists.

(** [fold_left] with [Z.max]. *)
Definition max_list (d : Z) (l : list Z) : Z := fold_left Z.max l d.

Lemma max_list_le d l x : x ∈ l -> x <= max_list d l.
Proof.
  unfold max_list. revert d. induction l as [|y l IH]; intros d; [by intros ?%not_elem_of_nil|].
  cbn. assert (Hge : forall d l, d <= fold_left Z.max l d).
  { clear. intros d l. revert d. induction l as [|y l IH]; intros d; cbn; [lia|].
    specialize (IH (Z.max d y)). lia. }
  intros [->|Hx]%elem_of_cons; [specialize (Hge (Z.max d y) l); lia|]. by apply IH.
Qed.

Lemma max_list_ge_init d l : d <= max_list d l.
Proof.
  unfold max_list. revert d. induction l as [|y l IH]; intros d; cbn; [lia|].
  specialize (IH (Z.max d y)). lia.
Qed.

Lemma max_list_in d l : max_list d l = d \/ max_list d l ∈ l.
Proof.
  unfold max_list. revert d. induction l as [|y l IH]; intros d; cbn; [by left|].
  destruct (IH (Z.max d y)) as [->|H].
  - destruct (Z.max_spec d y) as [[? ->]|[? ->]]; [right; by left|by left].
  - right. by right.
Qed.

(** [xs] with every element satisfying a lookup predicate. *)
Lemma elem_of_list_lookup_total {A} (l : list A) x :
  x ∈ l <-> exists i, l !! i = Some x.
Proof. apply list_elem_of_lookup. Qed.

(** ** Hint databases

    [wire] holds the rewriting rules of readers on what writers produced. *)
Create HintDb kodansu.
#[export] Hint Resolve wrap_u_range wrap_s_range pow2_pos max_list_ge_init : kodansu.
