(* ===== verification/Cas.v ===== *)
(** * Cas: a document several replicas write under its version

    The conditional [put] of [tansu-storage/src/dynostore/object.rs] and the
    retry loop every group request runs on top of it
    ([Controller::consumer_transition]): read the document, apply a pure
    function, write the result back under the version read, and start again
    when the write is refused.

    The object store's [put_opts] is modelled by its documented contract: a
    create succeeds on an absent key alone, an update on the version it names
    alone.  A version is an etag; that two bodies of a key do not share one is
    a hypothesis of the concurrent system below, and the only one. *)

From S2P Require Export Prelude.

(** What a key holds: the document and its version. *)
Abbreviation cell D V := (option (D * V)).

Inductive UpdateError (D V : Type) :=
  | Outdated (current : D) (version : V)
  | Vanished
  | StoreError (e : error).
Arguments Outdated {D V} current version.
Arguments Vanished {D V}.
Arguments StoreError {D V} e.

Section put.
Context {D V : Type} `{EqDecision V}.

(** [PutMode::Create] and [PutMode::Update]. *)
Definition accepted (c : cell D V) (update_version : option V) : bool :=
  match update_version, c with
  | None, None => true
  | Some v, Some (_, v') => bool_decide (v = v')
  | _, _ => false
  end.

(** [DynoStore::put]; [minted] is the version the store gives the body, [reread]
    what the read after a refusal finds, [fault] an error of the store itself. *)
Definition cas_put (c : cell D V) (value : D) (update_version : option V) (minted : V)
    (reread : cell D V) (fault : option error) : cell D V * (V + UpdateError D V) :=
  match fault with Some e => (c, inr (StoreError e)) | None =>
  if accepted c update_version then (Some (value, minted), inl minted)
  else (c, inr match reread with
               | Some (current, version) => Outdated current version
               | None => Vanished
               end)
  end.

Lemma cas_put_read c value minted reread :
  cas_put c value (snd <$> c) minted reread None = (Some (value, minted), inl minted).
Proof. unfold cas_put. destruct c as [[d v]|]; cbn; [by rewrite bool_decide_eq_true_2|done]. Qed.
End put.

(** ** The retry loop *)

Definition MAX_GENERATION_CAS_ATTEMPTS : nat := 64.
Definition CoordinatorLoadInProgress : error := Api 14.

Section loop.
Context {D V E R : Type} `{EqDecision V}.
(** The request as a function of the document: what to write if anything, and
    the answer; [E] is what an attempt sees besides (the clock, the liveness
    stamps, the resolved topics). *)
Context (step : option D -> E -> result (D * bool * R)) (bumped : D -> D).

(** What one attempt meets: the document at its read, at its write and at the
    read after a refused write. *)
Record Attempt := mkAttempt {
  seen : E;
  at_read : cell D V;
  at_write : cell D V;
  at_reread : cell D V;
  minted : V;
  fault : option error;
}.

(** [consumer_transition]: the answer, and the write that was made if one was. *)
Fixpoint transition_loop (conflicts : nat) (attempts : list Attempt) : result (R * option (D * V)) :=
  match attempts with
  | [] => Panic OutOfFuel
  | a :: attempts =>
      let! (next, changed, response) := step (fst <$> at_read a) (seen a) in
      if negb changed then Ok (response, None)
      else
        match (cas_put (at_write a) (bumped next) (snd <$> at_read a) (minted a) (at_reread a) (fault a)).2 with
        | inl version => Ok (response, Some (bumped next, version))
        | inr (Outdated _ _ | Vanished) =>
            if (MAX_GENERATION_CAS_ATTEMPTS <=? conflicts)%nat then Err CoordinatorLoadInProgress
            else transition_loop (S conflicts) attempts
        | inr (StoreError e) => Err e
        end
  end.

(** An attempt is lost when its write is refused. *)
Definition lost (a : Attempt) : Prop :=
  exists next response, step (fst <$> at_read a) (seen a) = Ok (next, true, response) /\
    fault a = None /\ accepted (at_write a) (snd <$> at_read a) = false.

(** The requests the loop carries do not answer as it does when it gives up, and
    do not panic; nor does the store. *)
Definition plain_step : Prop := forall held seen,
  match step held seen with Ok _ => True | Err e => e <> CoordinatorLoadInProgress | Panic _ => False end.
Definition plain_faults (attempts : list Attempt) : Prop :=
  Forall (fun a => fault a <> Some CoordinatorLoadInProgress) attempts.

Lemma transition_loop_step conflicts a attempts :
  plain_step -> fault a <> Some CoordinatorLoadInProgress ->
  (exists r, transition_loop conflicts (a :: attempts) = r /\ r <> Panic OutOfFuel /\
    r <> Err CoordinatorLoadInProgress) \/
  lost a /\ transition_loop conflicts (a :: attempts) =
    if (MAX_GENERATION_CAS_ATTEMPTS <=? conflicts)%nat then Err CoordinatorLoadInProgress
    else transition_loop (S conflicts) attempts.
Proof.
  intros Hs Hf. specialize (Hs (fst <$> at_read a) (seen a)). cbn [transition_loop].
  destruct (step (fst <$> at_read a) (seen a)) as [[[next changed] response]|e|p] eqn:Es; [|left|done].
  - cbn [rbind]. destruct changed; cbn [negb]; [|left; by eexists].
    unfold cas_put. destruct (fault a) as [e|] eqn:Ef; [left; eexists; split; [done|]; naive_solver|].
    destruct (accepted (at_write a) (snd <$> at_read a)) eqn:Ea; cbn [snd]; [left; by eexists|].
    right. split; [by exists next, response|]. by destruct (at_reread a) as [[d v]|].
  - eexists. split; [done|]. cbn. split; [done|]. congruence.
Qed.

(** The loop has answered by its sixty-fifth attempt, and gives up only when every
    one of them was lost. *)
Lemma transition_loop_answers conflicts attempts :
  plain_step -> plain_faults attempts -> (conflicts <= MAX_GENERATION_CAS_ATTEMPTS)%nat ->
  (MAX_GENERATION_CAS_ATTEMPTS < conflicts + length attempts)%nat ->
  transition_loop conflicts attempts <> Panic OutOfFuel /\
  (transition_loop conflicts attempts = Err CoordinatorLoadInProgress ->
   Forall lost (take (S MAX_GENERATION_CAS_ATTEMPTS - conflicts) attempts)).
Proof.
  intros Hs Hf. revert conflicts. induction Hf as [|a attempts Ha Hf IH]; intros conflicts Hle Hlen.
  { cbn in Hlen. lia. }
  destruct (transition_loop_step conflicts a attempts Hs Ha) as [(r & -> & H1 & H2)|[Hl ->]].
  { split; [done|]. intros Hg. by rewrite Hg in H2. }
  destruct (Nat.leb_spec MAX_GENERATION_CAS_ATTEMPTS conflicts) as [Hc|Hc].
  - split; [done|]. intros _. replace (S MAX_GENERATION_CAS_ATTEMPTS - conflicts)%nat with 1%nat by lia.
    cbn. by repeat constructor.
  - destruct (IH (S conflicts)) as [I1 I2]; [lia|cbn in Hlen; lia|]. split; [done|]. intros Hg.
    replace (S MAX_GENERATION_CAS_ATTEMPTS - conflicts)%nat
      with (S (S MAX_GENERATION_CAS_ATTEMPTS - S conflicts)) by lia.
    cbn [take]. constructor; [done|]. by apply I2.
Qed.
End loop.

(** ** Several replicas

    Any number of requests in flight over one key, each somewhere in its loop:
    about to read, or between its read and its write.  [log] records every write
    that reached the store with the request that made it, and [answered] every
    answer that was given; [history] records which body each version named, and
    [life] the bodies the key has held since it was last absent. *)

(** A write that reached the store: a request's, with what it answers, or the
    removal of the document. *)
Inductive Entry (E R : Type) :=
  | Wrote (e : E) (response : R)
  | Deleted.
Arguments Wrote {E R} e response.
Arguments Deleted {E R}.

(** The first [n] writes of a log kept newest first. *)
Definition oldest {A} (n : nat) (log : list A) : list A := drop (length log - n) log.
Arguments oldest : simpl never.

Lemma oldest_all {A} (log : list A) : oldest (length log) log = log.
Proof. unfold oldest. by rewrite Nat.sub_diag. Qed.

Lemma oldest_cons {A} n (x : A) log : (n <= length log)%nat -> oldest n (x :: log) = oldest n log.
Proof. intros H. unfold oldest. cbn [length]. by replace (S (length log) - n)%nat with (S (length log - n)) by lia. Qed.

(** A request between its arrival and its answer: what it asks, how long the log
    was when it came, the document it read with the length of the log then, and
    the writes it was refused. *)
Record Flight {D V E : Type} := mkFlight {
  asked : E;
  since : nat;
  reading : option (cell D V * nat);
  conflicts_met : nat;
}.
Arguments Flight : clear implicits.
Arguments mkFlight {D V E} asked since reading conflicts_met.

(** An answer: the request as it came and as the answering attempt saw it, the
    answer, whether a write carries it, and the length of the log at arrival, at
    the point the request takes effect and at the answer. *)
Record Answered {E R : Type} := mkAnswered {
  question : E;
  tried : E;
  outcome : result R;
  wrote : bool;
  arrived : nat;
  point : nat;
  left_at : nat;
}.
Arguments Answered : clear implicits.
Arguments mkAnswered {E R} question tried outcome wrote arrived point left_at.

Section replicas.
Context {D V E R : Type} `{EqDecision V}.
Context (step : option D -> E -> result (D * bool * R)) (bumped : D -> D).
(** Two attempts of one request. *)
Context (same : E -> E -> Prop).

(** One request after the other: the log of writes, newest first, and the
    document they leave. *)
Inductive sequential : list (Entry E R) -> option D -> Prop :=
  | sequential_none : sequential [] None
  | sequential_write log held e next response :
      sequential log held -> step held e = Ok (next, true, response) ->
      sequential (Wrote e response :: log) (Some (bumped next))
  | sequential_delete log held : sequential log held -> sequential (Deleted :: log) None.

(** The documents the key has held since it was last absent, newest first. *)
Inductive lifetime : list D -> Prop :=
  | lifetime_absent : lifetime []
  | lifetime_write l e next response :
      lifetime l -> step (head l) e = Ok (next, true, response) ->
      lifetime (bumped next :: l).

Record Replicas := mkReplicas {
  key : cell D V;
  in_flight : gmap nat (Flight D V E);
  history : list (V * D);
  life : list D;
  log : list (Entry E R);
  answered : list (Answered E R);
}.

(** [v] names [d] and nothing else. *)
Definition names (h : list (V * D)) (v : V) (d : D) : Prop := forall d', (v, d') ∈ h -> d' = d.

Definition set_flight (k : nat) (f : Flight D V E) (s : Replicas) : Replicas :=
  mkReplicas (key s) (<[k := f]> (in_flight s)) (history s) (life s) (log s) (answered s).

(** The request is done, and answered if an answer is given. *)
Definition lands (k : nat) (a : option (Answered E R)) (s : Replicas) : Replicas :=
  mkReplicas (key s) (delete k (in_flight s)) (history s) (life s) (log s) (option_list a ++ answered s).

Definition stores (d : D) (v : V) (x : Entry E R) (s : Replicas) : Replicas :=
  mkReplicas (Some (d, v)) (in_flight s) ((v, d) :: history s) (d :: life s) (x :: log s) (answered s).

Definition writes_so_far (s : Replicas) : nat := length (log s).

Inductive replicas_step : Replicas -> Replicas -> Prop :=
  | replica_asked s k e :
      in_flight s !! k = None ->
      replicas_step s (set_flight k (mkFlight e (writes_so_far s) None 0) s)
  | replica_reads s k e n c :
      in_flight s !! k = Some (mkFlight e n None c) ->
      replicas_step s (set_flight k (mkFlight e n (Some (key s, writes_so_far s)) c) s)
  (** The write is accepted; the answer may still be lost. *)
  | replica_writes s k e0 n held r c e next response v (told : bool) :
      in_flight s !! k = Some (mkFlight e0 n (Some (held, r)) c) -> same e0 e ->
      step (fst <$> held) e = Ok (next, true, response) ->
      accepted (key s) (snd <$> held) = true -> names (history s) v (bumped next) ->
      replicas_step s
        (lands k (if told then Some (mkAnswered e0 e (Ok response) true n (S (writes_so_far s)) (S (writes_so_far s)))
                  else None)
           (stores (bumped next) v (Wrote e response) s))
  (** The write is refused: once more, or no more. *)
  | replica_loses s k e0 n held r c e next response :
      in_flight s !! k = Some (mkFlight e0 n (Some (held, r)) c) -> same e0 e ->
      step (fst <$> held) e = Ok (next, true, response) ->
      accepted (key s) (snd <$> held) = false ->
      replicas_step s
        (if (MAX_GENERATION_CAS_ATTEMPTS <=? c)%nat
         then lands k (Some (mkAnswered e0 e (Err CoordinatorLoadInProgress) false n r (writes_so_far s))) s
         else set_flight k (mkFlight e0 n None (S c)) s)
  (** Nothing to write. *)
  | replica_keeps s k e0 n held r c e next response :
      in_flight s !! k = Some (mkFlight e0 n (Some (held, r)) c) -> same e0 e ->
      step (fst <$> held) e = Ok (next, false, response) ->
      replicas_step s (lands k (Some (mkAnswered e0 e (Ok response) false n r (writes_so_far s))) s)
  | replica_refuses s k e0 n held r c e error :
      in_flight s !! k = Some (mkFlight e0 n (Some (held, r)) c) -> same e0 e ->
      step (fst <$> held) e = Err error ->
      replicas_step s (lands k (Some (mkAnswered e0 e (Err error) false n r (writes_so_far s))) s)
  (** The replica, its client or the store fails. *)
  | replica_stops s k : replicas_step s (lands k None s)
  | replica_deletes s :
      replicas_step s (mkReplicas None (in_flight s) (history s) [] (Deleted :: log s) (answered s)).

Definition replicas_none : Replicas := mkReplicas None ∅ [] [] [] [].

Inductive replicas_reach : Replicas -> Prop :=
  | replicas_start : replicas_reach replicas_none
  | replicas_next s s' : replicas_reach s -> replicas_step s s' -> replicas_reach s'.

(** An answer is the one the request has at its point of a sequential history:
    its write is the [point]-th of the log, or the first [point] writes leave a
    document that it neither changes nor waits for; and the point is between the
    request's arrival and its answer. *)
Record served (log : list (Entry E R)) (a : Answered E R) : Prop := mkServed {
  served_within : (arrived a <= point a <= left_at a)%nat /\ (left_at a <= length log)%nat;
  served_same : same (question a) (tried a);
  served_answer :
    match outcome a with
    | Ok response =>
        if wrote a
        then (arrived a < point a)%nat /\
             oldest (point a) log = Wrote (tried a) response :: oldest (point a - 1) log
        else exists held next, sequential (oldest (point a) log) held /\ step held (tried a) = Ok (next, false, response)
    | Err error =>
        wrote a = false /\
        (error = CoordinatorLoadInProgress \/
         exists held, sequential (oldest (point a) log) held /\ step held (tried a) = Err error)
    | Panic _ => False
    end;
}.

(** What every replica holds was written, and a version names one body. *)
Record replicas_ok (s : Replicas) : Prop := mkReplicasOk {
  ok_sequential : sequential (log s) (fst <$> key s);
  ok_life : lifetime (life s);
  ok_head : head (life s) = fst <$> key s;
  ok_key d v : key s = Some (d, v) -> (v, d) ∈ history s;
  ok_flight k f held r d v : in_flight s !! k = Some f -> reading f = Some (held, r) -> held = Some (d, v) ->
    (v, d) ∈ history s;
  ok_names v d d' : (v, d) ∈ history s -> (v, d') ∈ history s -> d = d';
  ok_since k f : in_flight s !! k = Some f -> (since f <= length (log s))%nat;
  ok_reading k f held r : in_flight s !! k = Some f -> reading f = Some (held, r) ->
    (since f <= r <= length (log s))%nat /\ sequential (oldest r (log s)) (fst <$> held);
  ok_served : Forall (served (log s)) (answered s);
  ok_once : NoDup (point <$> filter (fun a => wrote a = true) (answered s));
}.

Lemma accepted_same s k f held r :
  replicas_ok s -> in_flight s !! k = Some f -> reading f = Some (held, r) ->
  accepted (key s) (snd <$> held) = true -> fst <$> held = fst <$> key s.
Proof.
  intros Hok Hk Hf Hacc. pose proof (ok_flight _ Hok k f held r) as H3. pose proof (ok_key _ Hok) as H2.
  destruct held as [[d v']|], (key s) as [[d' v'']|]; cbn in *; try done.
  apply bool_decide_eq_true in Hacc as ->. f_equal. eapply (ok_names _ Hok); [by eapply H3|by apply H2].
Qed.

(** The log only grows, and an answer stays what it was. *)
Lemma served_grows l x a : served l a -> served (x :: l) a.
Proof.
  intros [[W W'] Hs Ha]. assert (E1 : oldest (point a) (x :: l) = oldest (point a) l) by (apply oldest_cons; lia).
  assert (E2 : oldest (point a - 1) (x :: l) = oldest (point a - 1) l) by (apply oldest_cons; lia).
  split; [cbn; lia|done|]. by rewrite E1, E2.
Qed.

Lemma set_flight_ok s k f :
  replicas_ok s -> (since f <= length (log s))%nat ->
  (forall held r, reading f = Some (held, r) -> held = key s /\ r = length (log s)) ->
  replicas_ok (set_flight k f s).
Proof.
  intros Hok Hn Hr. pose proof Hok as [H1 L1 L2 H2 H3 H4 H5 H6 H7 H8]. split; cbn; try done.
  - intros k' f' held r d v [[_ <-]|[_ Hk]]%lookup_insert_Some Hf ->; [|by eapply H3].
    destruct (Hr _ _ Hf) as [Eh _]. by apply H2.
  - intros k' f' [[_ <-]|[_ Hk]]%lookup_insert_Some; [done|by eapply H5].
  - intros k' f' held r [[_ <-]|[_ Hk]]%lookup_insert_Some Hf; [|by eapply H6].
    destruct (Hr _ _ Hf) as [-> ->]. by rewrite oldest_all.
Qed.

Lemma lands_ok s k a :
  replicas_ok s ->
  (forall x, a = Some x -> served (log s) x /\
     (wrote x = true -> forall y, y ∈ answered s -> wrote y = true -> point y <> point x)) ->
  replicas_ok (lands k a s).
Proof.
  intros [H1 L1 L2 H2 H3 H4 H5 H6 H7 H8] Ha. split; cbn; try done.
  - intros k' f' held r d v [_ Hk]%lookup_delete_Some. by eapply H3.
  - intros k' f' [_ Hk]%lookup_delete_Some. by eapply H5.
  - intros k' f' held r [_ Hk]%lookup_delete_Some. by eapply H6.
  - apply Forall_app_2; [|done]. destruct a as [x|]; constructor; [|constructor]. by apply Ha.
  - destruct a as [x|]; [|done]. destruct (Ha x eq_refl) as [_ Hw].
    change (NoDup (point <$> filter (fun a => wrote a = true) (x :: answered s))). rewrite filter_cons. destruct (decide (wrote x = true)) as [Ht|Ht]; [|done].
    cbn. constructor; [|done]. intros (y & Ey & [Hy1 Hy2]%list_elem_of_filter)%list_elem_of_fmap.
    by eapply (Hw Ht y).
Qed.

Lemma stores_ok s e next response v :
  replicas_ok s -> step (fst <$> key s) e = Ok (next, true, response) -> names (history s) v (bumped next) ->
  replicas_ok (stores (bumped next) v (Wrote e response) s).
Proof.
  intros [H1 L1 L2 H2 H3 H4 H5 H6 H7 H8] Hst Hn. split; cbn; try done.
  - by eapply sequential_write.
  - rewrite <- L2 in Hst. by eapply lifetime_write.
  - intros d v' [= <- <-]. apply elem_of_cons. by left.
  - intros k f held r d v' Hk Hf Hh. apply elem_of_cons. right. by eapply H3.
  - intros v' d d' [Hd|Hd]%elem_of_cons [Hd'|Hd']%elem_of_cons; simplify_eq; try done.
    + symmetry. by apply Hn.
    + by apply Hn.
    + by eapply H4.
  - intros k f Hk. apply H5 in Hk. lia.
  - intros k f held r Hk Hf. destruct (H6 _ _ _ _ Hk Hf) as [Hle Hs]. split; [lia|].
    rewrite oldest_cons by lia. done.
  - eapply Forall_impl; [exact H7|]. intros a. apply served_grows.
Qed.

Lemma deletes_ok s :
  replicas_ok s -> replicas_ok (mkReplicas None (in_flight s) (history s) [] (Deleted :: log s) (answered s)).
Proof.
  intros [H1 L1 L2 H2 H3 H4 H5 H6 H7 H8]. split; cbn; try done.
  - by eapply sequential_delete.
  - constructor.
  - intros k f Hk. apply H5 in Hk. lia.
  - intros k f held r Hk Hf. destruct (H6 _ _ _ _ Hk Hf) as [Hle Hs]. split; [lia|].
    rewrite oldest_cons by lia. done.
  - eapply Forall_impl; [exact H7|]. intros a. apply served_grows.
Qed.

Lemma writes_ok s k e0 n held r c e next response v (told : bool) :
  replicas_ok s -> in_flight s !! k = Some (mkFlight e0 n (Some (held, r)) c) -> same e0 e ->
  step (fst <$> held) e = Ok (next, true, response) -> accepted (key s) (snd <$> held) = true ->
  names (history s) v (bumped next) ->
  replicas_ok (lands k (if told then Some (mkAnswered e0 e (Ok response) true n (S (writes_so_far s)) (S (writes_so_far s)))
                        else None)
                 (stores (bumped next) v (Wrote e response) s)).
Proof.
  intros Hok Hk He Hst Hacc Hn. rewrite (accepted_same _ _ _ _ _ Hok Hk eq_refl Hacc) in Hst.
  pose proof (stores_ok _ _ _ _ _ Hok Hst Hn) as Hs. apply lands_ok; [done|].
  pose proof (ok_since _ Hok _ _ Hk) as Hle. cbn in Hle. unfold writes_so_far.
  destruct told; intros x [= <-]. cbn. split.
  - split; cbn; [lia|done|]. split; [lia|]. rewrite Nat.sub_0_r.
    rewrite (oldest_cons (length (log s))), oldest_all by lia.
    unfold oldest. cbn. by rewrite Nat.sub_diag.
  - intros _ y Hy Hw Ey. pose proof (ok_served _ Hok) as Hall. rewrite Forall_forall in Hall.
    destruct (Hall y Hy) as [W _ _]. lia.
Qed.

Lemma replicas_step_ok s s' : replicas_ok s -> replicas_step s s' -> replicas_ok s'.
Proof.
  intros Hok Hstep.
  destruct Hstep as [s k e Hk|s k e n c Hk|s k e0 n held r c e next response v told Hk He Hst Hacc Hn
    |s k e0 n held r c e next response Hk He Hst Hacc|s k e0 n held r c e next response Hk He Hst
    |s k e0 n held r c e error Hk He Hst|s k|s].
  - by apply set_flight_ok.
  - pose proof (ok_since _ Hok _ _ Hk). apply set_flight_ok; [done|done|]. by intros held r [= <- <-].
  - by eapply writes_ok.
  - pose proof (ok_since _ Hok _ _ Hk) as Hle. destruct (ok_reading _ Hok _ _ held r Hk eq_refl) as [Hr _].
    cbn in Hle, Hr. destruct (_ <=? _)%nat.
    + apply lands_ok; [done|]. intros x [= <-]. split; [|done]. unfold writes_so_far.
      split; cbn; [lia|done|]. split; [done|by left].
    + by apply set_flight_ok.
  - destruct (ok_reading _ Hok _ _ held r Hk eq_refl) as [Hr Hs]. cbn in Hr.
    apply lands_ok; [done|]. intros x [= <-]. split; [|done]. unfold writes_so_far.
    split; cbn; [lia|done|]. by exists (fst <$> held), next.
  - destruct (ok_reading _ Hok _ _ held r Hk eq_refl) as [Hr Hs]. cbn in Hr.
    apply lands_ok; [done|]. intros x [= <-]. split; [|done]. unfold writes_so_far.
    split; cbn; [lia|done|]. split; [done|right]. by exists (fst <$> held).
  - by apply lands_ok.
  - by apply deletes_ok.
Qed.

Lemma replicas_reach_ok s : replicas_reach s -> replicas_ok s.
Proof.
  induction 1 as [|s s' _ IH Hs]; [|by eapply replicas_step_ok].
  split; cbn; try done; try constructor. by intros v d d' Hn%elem_of_nil.
Qed.

(** The documents a log leaves along the way. *)
Lemma sequential_inv (P : option D -> Prop) (Q : E -> Prop) :
  P None ->
  (forall held e next response, P held -> Q e -> step held e = Ok (next, true, response) -> P (Some (bumped next))) ->
  forall l held, sequential l held -> (forall e response, Wrote e response ∈ l -> Q e) -> P held.
Proof.
  intros H0 Hs l held. induction 1 as [|l held e next response _ IH Hst|l held _ IH]; intros HQ; [done| |done].
  eapply Hs; [|by eapply HQ; left|exact Hst]. apply IH. intros e' r' Hin. eapply HQ. by right.
Qed.

(** A request served start to end by replica [k] at version [v]. *)
Definition serve (s : Replicas) (k : nat) (e : E) (v : V) : Replicas :=
  match step (fst <$> key s) e, in_flight s !! k with
  | Ok (next, true, response), None =>
      if bool_decide (v ∈ map fst (history s)) then s
      else
        let asked := set_flight k (mkFlight e (writes_so_far s) None 0) s in
        let read := set_flight k (mkFlight e (writes_so_far s) (Some (key s, writes_so_far s)) 0) asked in
        lands k (Some (mkAnswered e e (Ok response) true (writes_so_far s) (S (writes_so_far s)) (S (writes_so_far s))))
          (stores (bumped next) v (Wrote e response) read)
  | _, _ => s
  end.

(** Whatever such steps keep, it keeps. *)
Lemma serve_ind (P : Replicas -> Prop) s k e v :
  (forall s s', P s -> replicas_step s s' -> life s' = life s \/ (exists d, life s' = d :: life s) -> P s') ->
  same e e -> P s -> P (serve s k e v).
Proof.
  intros HP He Hs. unfold serve. destruct (step (fst <$> key s) e) as [[[next [|]] ans]| |] eqn:Es; try done.
  destruct (in_flight s !! k) eqn:Ek; [done|]. case_bool_decide as Hv; [done|].
  set (s1 := set_flight k (mkFlight e (writes_so_far s) None 0) s).
  assert (H1 : P s1) by (apply (HP s); [done|by constructor|by left]).
  set (s2 := set_flight k (mkFlight e (writes_so_far s) (Some (key s, writes_so_far s)) 0) s1).
  assert (H2 : P s2).
  { apply (HP s1); [done| |by left]. apply (replica_reads s1 k e (writes_so_far s) 0). cbn. by rewrite lookup_insert_eq. }
  apply (HP s2); [done| |right; by eexists].
  notypeclasses refine (replica_writes s2 k e _ (key s) _ 0 e next ans v true _ _ _ _ _).
  - cbn. by rewrite lookup_insert_eq.
  - exact He.
  - exact Es.
  - unfold accepted. cbn. destruct (key s) as [[d v']|]; cbn; [by rewrite bool_decide_eq_true_2|done].
  - intros d' Hd. destruct Hv. apply list_elem_of_fmap. by exists (v, d').
Qed.

Lemma serve_reach s k e v : same e e -> replicas_reach s -> replicas_reach (serve s k e v).
Proof. intros He. apply serve_ind; [|done]. intros s1 s2 H Hs _. by eapply replicas_next. Qed.
End replicas.
