(* ===== verification/OptiCon.v ===== *)
(** * OptiCon: a cached document written under its version

    [tansu-storage/src/dynostore/opticon.rs].  An [OptiCon] is one JSON object
    of the store together with this process's copy of it and the version the
    copy was read at.  [with_mut] runs a closure on the copy, writes the result
    under the copy's version, and re-reads and runs the closure again when the
    write is refused; [with] refreshes the copy with a conditional GET and reads
    it.  The cluster's transactions, its access-control list, its quotas and
    each group's offsets are documents of this kind.

    The first section has each operation against arbitrary answers of the store.
    The second lets any number of processes run any number of calls at once,
    sharing the copy of their process: every await point of the source is a step,
    responses may be lost, a copy may be overwritten between two steps of a call,
    and a closure that panics poisons the lock of its process. *)

From S2P Require Export Cas.

(** ** One call at a time *)

Section operations.
Context {D V : Type}.
Context (initial : D).

(** What the store answers to a GET. *)
Inductive Answer :=
  | Found (data : D) (version : V)
  | Absent
  | NotModified
  | Unavailable (e : error).

(** [data_version] is the cell a call finds and leaves. *)
Definition opticon_get (a : Answer) (c : cell D V) : result unit * cell D V :=
  match a with
  | Found data version => (Ok tt, Some (data, version))
  | Absent => (Ok tt, None)
  | NotModified => (Err Transport, c)
  | Unavailable e => (Err e, c)
  end.

Definition refresh (a : Answer) (c : cell D V) : result unit * cell D V :=
  match a with
  | Found data version => (Ok tt, Some (data, version))
  | Absent => (Ok tt, None)
  | NotModified => (Ok tt, c)
  | Unavailable e => (Err e, c)
  end.

(** The [if_none_match] of a refresh. *)
Definition if_none_match (c : cell D V) : option V := snd <$> c.

Definition with_doc {B} (g : D -> result B) (a : Answer) (c : cell D V) : result B * cell D V :=
  let '(r, c) := refresh a c in
  (let! _ := r in g (from_option fst initial c), c).

Definition get_opt (a : Answer) (c : cell D V) : result (option D) * cell D V :=
  let '(r, c) := refresh a c in (let! _ := r in Ok (fst <$> c), c).

Definition cached (c : cell D V) : option D := fst <$> c.

(** What the store answers to a PUT or a DELETE. *)
Inductive PutAnswer :=
  | PutDone (version : V)
  | PutRefused
  | PutFailed (e : error).

(** [create]; [a] is the refresh after a refusal. *)
Definition create (data : D) (p : PutAnswer) (a : Answer) (c : cell D V) : result bool * cell D V :=
  match p with
  | PutDone version => (Ok true, Some (data, version))
  | PutRefused => let '(r, c) := refresh a c in (let! _ := r in Ok false, c)
  | PutFailed e => (Err e, c)
  end.

Definition remove (deleted : result unit) (c : cell D V) : result unit * cell D V :=
  match deleted with
  | Ok _ | Err NotFound => (Ok tt, None)
  | Err e => (Err e, c)
  | Panic p => (Panic p, c)
  end.

Section with_mut.
Context {R : Type}.
(** The closure: the document it leaves and its outcome.  It is written whatever
    the outcome, unless the closure panics. *)
Context (f : D -> D * result R).

(** The closure on the copy, and the [PutMode] of the write. *)
Definition with_mut_attempt (c : cell D V) : D * option V * result R :=
  let '(data, outcome) := f (from_option fst initial c) in (data, snd <$> c, outcome).

(** [with_mut] against what each PUT, and the GET after a refused one, answers. *)
Fixpoint with_mut (attempts : list (PutAnswer * Answer)) (c : cell D V) : result R * cell D V :=
  match attempts with
  | [] => (Panic OutOfFuel, c)
  | (p, a) :: attempts =>
      let '(data, _, outcome) := with_mut_attempt c in
      match outcome with
      | Panic reason => (Panic reason, c)
      | _ =>
          match p with
          | PutDone version => (outcome, Some (data, version))
          | PutRefused =>
              match opticon_get a c with
              | (Ok _, c) => with_mut attempts c
              | (Err e, c) => (Err e, c)
              | (Panic reason, c) => (Panic reason, c)
              end
          | PutFailed e => (Err e, c)
          end
      end
  end.

End with_mut.
End operations.

Arguments Answer D V : clear implicits.
Arguments PutAnswer V : clear implicits.

(** ** Any number of calls *)

Section concurrent.
Context {D V E K R : Type} `{EqDecision V}.
(** The closures of [with_mut], and the documents [create] is called with. *)
Context (initial : D) (f : E -> D -> D * result R) (body : K -> D).

(** A call between two of its await points, with the process it runs on. *)
Inductive Call :=
  | Running (r : nat) (e : E)
  | Putting (r : nat) (e : E) (data : D) (mode : option V) (outcome : result R)
  | Stored (r : nat) (e : E) (data : D) (version : V) (outcome : result R)
  | Refused (r : nat) (e : E)
  | Fetched (r : nat) (e : E) (a : Answer D V)
  | Asking (r : nat) (etag : option V)
  | Asked (r : nat) (a : Answer D V)
  | Landed (r : nat)
  | Creating (r : nat) (k : K)
  | Created (r : nat) (k : K) (version : V)
  | Exists (r : nat)
  | Rechecking (r : nat) (etag : option V)
  | Rechecked (r : nat) (a : Answer D V)
  | Removing (r : nat)
  | Gone (r : nat).

Inductive Reply :=
  | Done (outcome : result R)
  | Saw (data : option D)
  | Made (created : bool)
  | Cleared
  | Broke (e : error).

(** The writes that took effect, newest first. *)
Inductive Entry :=
  | Applied (c : nat) (e : E) (outcome : result R)
  | Placed (c : nat) (k : K)
  | Removed.

Record World := mkWorld {
  object : cell D V;
  copies : gmap nat (D * V);
  poisoned : gset nat;
  calls : gmap nat Call;
  started : gmap nat nat;        (** calls, with the number of writes before them *)
  replies : list (nat * Reply);
  bodies : list (V * D);
  log : list Entry;
}.

Definition with_call (w : World) (c : nat) (k : Call) : World :=
  mkWorld (object w) (copies w) (poisoned w) (<[c := k]> (calls w)) (started w) (replies w) (bodies w) (log w).
Definition with_reply (w : World) (c : nat) (r : Reply) : World :=
  mkWorld (object w) (copies w) (poisoned w) (delete c (calls w)) (started w) ((c, r) :: replies w)
    (bodies w) (log w).
Definition with_start (w : World) (c : nat) : World :=
  mkWorld (object w) (copies w) (poisoned w) (calls w) (<[c := length (log w)]> (started w)) (replies w)
    (bodies w) (log w).
Definition with_copy (w : World) (r : nat) (c : cell D V) : World :=
  mkWorld (object w) (partial_alter (fun _ => c) r (copies w)) (poisoned w) (calls w) (started w) (replies w)
    (bodies w) (log w).
Definition with_poison (w : World) (r : nat) : World :=
  mkWorld (object w) (copies w) ({[r]} ∪ poisoned w) (calls w) (started w) (replies w) (bodies w) (log w).
Definition with_object (w : World) (data : D) (v : V) (x : Entry) : World :=
  mkWorld (Some (data, v)) (copies w) (poisoned w) (calls w) (started w) (replies w)
    ((v, data) :: bodies w) (x :: log w).
Definition without_object (w : World) : World :=
  mkWorld None (copies w) (poisoned w) (calls w) (started w) (replies w) (bodies w) (Removed :: log w).

(** The store's answer to a GET, and to a conditional one. *)
Definition store_get (o : cell D V) : Answer D V :=
  match o with Some (d, v) => Found d v | None => Absent end.
Definition store_get_if (etag : option V) (o : cell D V) : Answer D V :=
  match o with
  | Some (d, v) => if bool_decide (etag = Some v) then NotModified else Found d v
  | None => Absent
  end.

Definition call_process (k : Call) : nat :=
  match k with
  | Running r _ | Putting r _ _ _ _ | Stored r _ _ _ _ | Refused r _ | Fetched r _ _
  | Asking r _ | Asked r _ | Landed r | Creating r _ | Created r _ _ | Exists r
  | Rechecking r _ | Rechecked r _ | Removing r | Gone r => r
  end.

(** A call that is about to take the lock. *)
Definition locks (k : Call) : bool :=
  match k with
  | Running _ _ | Stored _ _ _ _ _ | Fetched _ _ _ | Asked _ _ | Landed _
  | Created _ _ _ | Exists _ | Rechecked _ _ | Gone _ => true
  | _ => false
  end.

(** [with_mut], [with] and [get_opt]. *)
Inductive access_step : World -> World -> Prop :=
  | step_call w c r e :
      started w !! c = None -> access_step w (with_call (with_start w c) c (Running r e))
  | step_run w c r e data mode outcome :
      calls w !! c = Some (Running r e) -> r ∉ poisoned w ->
      with_mut_attempt initial (f e) (copies w !! r) = (data, mode, outcome) ->
      (forall p, outcome <> Panic p) ->
      access_step w (with_call w c (Putting r e data mode outcome))
  | step_panics w c r e data mode p :
      calls w !! c = Some (Running r e) -> r ∉ poisoned w ->
      with_mut_attempt initial (f e) (copies w !! r) = (data, mode, Panic p) ->
      access_step w (with_poison (with_reply w c (Done (Panic p))) r)
  | step_put w c r e data mode outcome v :
      calls w !! c = Some (Putting r e data mode outcome) -> accepted (object w) mode = true ->
      names (bodies w) v data ->
      access_step w (with_call (with_object w data v (Applied c e outcome)) c (Stored r e data v outcome))
  | step_put_lost w c r e data mode outcome v err :
      calls w !! c = Some (Putting r e data mode outcome) -> accepted (object w) mode = true ->
      names (bodies w) v data ->
      access_step w (with_reply (with_object w data v (Applied c e outcome)) c (Broke err))
  | step_refused w c r e data mode outcome :
      calls w !! c = Some (Putting r e data mode outcome) -> accepted (object w) mode = false ->
      access_step w (with_call w c (Refused r e))
  | step_ack w c r e data v outcome :
      calls w !! c = Some (Stored r e data v outcome) -> r ∉ poisoned w ->
      access_step w (with_reply (with_copy w r (Some (data, v))) c (Done outcome))
  | step_fetch w c r e :
      calls w !! c = Some (Refused r e) ->
      access_step w (with_call w c (Fetched r e (store_get (object w))))
  | step_land w c r e a :
      calls w !! c = Some (Fetched r e a) -> r ∉ poisoned w ->
      access_step w (with_call (with_copy w r (opticon_get a (copies w !! r)).2) c (Running r e))
  | step_look w c r :
      started w !! c = None -> r ∉ poisoned w ->
      access_step w (with_call (with_start w c) c (Asking r (if_none_match (copies w !! r))))
  | step_looked w c r etag :
      calls w !! c = Some (Asking r etag) ->
      access_step w (with_call w c (Asked r (store_get_if etag (object w))))
  | step_refreshed w c r a :
      calls w !! c = Some (Asked r a) -> r ∉ poisoned w ->
      access_step w (with_call (with_copy w r (refresh a (copies w !! r)).2) c (Landed r))
  | step_saw w c r :
      calls w !! c = Some (Landed r) -> r ∉ poisoned w ->
      access_step w (with_reply w c (Saw (fst <$> copies w !! r)))
  | step_broke w c k err :
      calls w !! c = Some k -> locks k = false \/ call_process k ∈ poisoned w ->
      access_step w (with_reply w c (Broke err)).

(** [create] and [remove]. *)
Inductive lifecycle_step : World -> World -> Prop :=
  | step_create w c r k :
      started w !! c = None -> lifecycle_step w (with_call (with_start w c) c (Creating r k))
  | step_place w c r k v :
      calls w !! c = Some (Creating r k) -> accepted (object w) None = true -> names (bodies w) v (body k) ->
      lifecycle_step w (with_call (with_object w (body k) v (Placed c k)) c (Created r k v))
  | step_place_lost w c r k v err :
      calls w !! c = Some (Creating r k) -> accepted (object w) None = true -> names (bodies w) v (body k) ->
      lifecycle_step w (with_reply (with_object w (body k) v (Placed c k)) c (Broke err))
  | step_exists w c r k :
      calls w !! c = Some (Creating r k) -> accepted (object w) None = false ->
      lifecycle_step w (with_call w c (Exists r))
  | step_made w c r k v :
      calls w !! c = Some (Created r k v) -> r ∉ poisoned w ->
      lifecycle_step w (with_reply (with_copy w r (Some (body k, v))) c (Made true))
  | step_recheck w c r :
      calls w !! c = Some (Exists r) -> r ∉ poisoned w ->
      lifecycle_step w (with_call w c (Rechecking r (if_none_match (copies w !! r))))
  | step_rechecked w c r etag :
      calls w !! c = Some (Rechecking r etag) ->
      lifecycle_step w (with_call w c (Rechecked r (store_get_if etag (object w))))
  | step_was_there w c r a :
      calls w !! c = Some (Rechecked r a) -> r ∉ poisoned w \/ a = NotModified ->
      lifecycle_step w (with_reply (with_copy w r (refresh a (copies w !! r)).2) c (Made false))
  | step_remove w c r :
      started w !! c = None -> lifecycle_step w (with_call (with_start w c) c (Removing r))
  | step_delete w c r :
      calls w !! c = Some (Removing r) ->
      lifecycle_step w (with_call (without_object w) c (Gone r))
  | step_delete_lost w c r err :
      calls w !! c = Some (Removing r) ->
      lifecycle_step w (with_reply (without_object w) c (Broke err))
  | step_cleared w c r :
      calls w !! c = Some (Gone r) -> r ∉ poisoned w ->
      lifecycle_step w (with_reply (with_copy w r None) c Cleared)
  (** The object is deleted by a path that does not go through the handle. *)
  | step_vanishes w : lifecycle_step w (without_object w).

Definition opticon_step (w w' : World) : Prop := access_step w w' \/ lifecycle_step w w'.

Definition world0 : World := mkWorld None ∅ ∅ ∅ ∅ [] [] [].

Inductive opticon_reach : World -> Prop :=
  | opticon_start : opticon_reach world0
  | opticon_next w w' : opticon_reach w -> opticon_step w w' -> opticon_reach w'.

(** ** The sequential reading of a log *)

Fixpoint replay (l : list Entry) : option D :=
  match l with
  | [] | Removed :: _ => None
  | Placed _ k :: _ => Some (body k)
  | Applied _ e _ :: l => Some (f e (default initial (replay l))).1
  end.

(** Each write answered what its closure answers on the document before it, and a
    create found none. *)
Fixpoint legal (l : list Entry) : Prop :=
  match l with
  | [] => True
  | Removed :: l => legal l
  | Placed _ _ :: l => replay l = None /\ legal l
  | Applied _ e outcome :: l => outcome = (f e (default initial (replay l))).2 /\ legal l
  end.

Definition entry_call (x : Entry) : option nat :=
  match x with Applied c _ _ | Placed c _ => Some c | Removed => None end.
Definition log_calls (l : list Entry) : list nat := omap entry_call l.

(** ** What every step keeps *)

(** After the call's start the log had a suffix of which [P] holds. *)
Definition met (w : World) (c : nat) (P : list Entry -> Prop) : Prop :=
  exists newer older n, log w = newer ++ older /\ started w !! c = Some n /\ (n <= length older)%nat /\ P older.

(** The document is there. *)
Definition there (l : list Entry) : Prop := exists d, replay l = Some d.

(** The last write removed it, after the call's start. *)
Definition removed_since (w : World) (c : nat) : Prop :=
  exists newer older n, log w = newer ++ Removed :: older /\ started w !! c = Some n /\ (n <= length older)%nat.

(** Where the write of a call stands. *)
Definition call_ok (w : World) (c : nat) (k : Call) : Prop :=
  match k with
  | Running _ _ | Refused _ _ => c ∉ log_calls (log w)
  | Putting _ e data mode outcome =>
      c ∉ log_calls (log w) /\ (forall p, outcome <> Panic p) /\
      exists held, (data, outcome) = f e (from_option fst initial held) /\ mode = snd <$> held /\
        forall d v, held = Some (d, v) -> (v, d) ∈ bodies w
  | Stored _ e data v outcome => Applied c e outcome ∈ log w /\ (v, data) ∈ bodies w /\ forall p, outcome <> Panic p
  | Fetched _ _ a => c ∉ log_calls (log w) /\ forall d v, a = Found d v -> (v, d) ∈ bodies w
  | Asked _ a => c ∉ log_calls (log w) /\ forall d v, a = Found d v -> (v, d) ∈ bodies w
  | Asking _ _ | Landed _ | Creating _ _ => c ∉ log_calls (log w)
  | Created _ k v => Placed c k ∈ log w /\ (v, body k) ∈ bodies w
  | Exists _ | Rechecking _ _ => c ∉ log_calls (log w) /\ met w c there
  | Rechecked _ a => c ∉ log_calls (log w) /\ met w c there /\ forall d v, a = Found d v -> (v, d) ∈ bodies w
  | Removing _ => c ∉ log_calls (log w)
  | Gone _ => c ∉ log_calls (log w) /\ removed_since w c
  end.

Definition reply_ok (w : World) (x : nat * Reply) : Prop :=
  match x.2 with
  | Done (Panic _) => x.1 ∉ log_calls (log w)
  | Done outcome => exists e, Applied x.1 e outcome ∈ log w
  | Saw data => x.1 ∉ log_calls (log w) /\ exists newer older, log w = newer ++ older /\ data = replay older
  | Made true => exists k, Placed x.1 k ∈ log w
  | Made false => x.1 ∉ log_calls (log w) /\ met w x.1 there
  | Cleared => x.1 ∉ log_calls (log w) /\ removed_since w x.1
  | Broke _ => True
  end.

Record world_ok (w : World) : Prop := mkWorldOk {
  wok_object : fst <$> object w = replay (log w);
  wok_legal : legal (log w);
  wok_once : NoDup (log_calls (log w));
  wok_key d v : object w = Some (d, v) -> (v, d) ∈ bodies w;
  wok_copy r d v : copies w !! r = Some (d, v) -> (v, d) ∈ bodies w;
  wok_names v d d' : (v, d) ∈ bodies w -> (v, d') ∈ bodies w -> d = d';
  wok_bodies v d : (v, d) ∈ bodies w -> exists newer older, log w = newer ++ older /\ replay older = Some d;
  wok_calls c k : calls w !! c = Some k -> call_ok w c k;
  wok_started c : c ∈ log_calls (log w) \/ is_Some (calls w !! c) \/ c ∈ (replies w).*1 ->
    is_Some (started w !! c);
  wok_replied c : c ∈ (replies w).*1 -> calls w !! c = None;
  wok_replies x : x ∈ replies w -> reply_ok w x;
  wok_before c n : started w !! c = Some n -> (n <= length (log w))%nat;
  wok_after newer c x older n :
    log w = newer ++ x :: older -> entry_call x = Some c -> started w !! c = Some n -> (n <= length older)%nat;
}.

Definition forget (w : World) (c : nat) : World :=
  mkWorld (object w) (copies w) (poisoned w) (delete c (calls w)) (started w) (replies w) (bodies w) (log w).

Lemma log_calls_entry l c x : x ∈ l -> entry_call x = Some c -> c ∈ log_calls l.
Proof. intros H E1. apply list_elem_of_omap. by exists x. Qed.

(** What a call and a reply are owed depends on the log, the bodies and the call's
    start alone. *)
Lemma call_ok_frame w w' c k :
  log w' = log w -> bodies w' = bodies w -> started w' !! c = started w !! c -> call_ok w c k -> call_ok w' c k.
Proof. intros H1 H2 H3. unfold call_ok, met, removed_since. by rewrite H1, H2, H3. Qed.

Lemma reply_ok_frame w w' x :
  log w' = log w -> started w' !! x.1 = started w !! x.1 -> reply_ok w x -> reply_ok w' x.
Proof. intros H1 H2. unfold reply_ok, met, removed_since. by rewrite H1, H2. Qed.

Lemma with_call_ok w c k :
  world_ok w -> is_Some (started w !! c) -> c ∉ (replies w).*1 -> call_ok w c k -> world_ok (with_call w c k).
Proof.
  intros [] Hs Hr Hk. split; cbn; try done.
  - intros c' k'. rewrite lookup_insert. case_decide as Hc; [|by apply wok_calls0].
    subst. by intros [= <-].
  - intros c' [Hc|[Hc|Hc]]; [by auto| |by auto]. rewrite lookup_insert in Hc. case_decide; subst; auto.
  - intros c' Hc. rewrite lookup_insert_ne by (intros ->; done). by apply wok_replied0.
Qed.

Lemma forget_ok w c : world_ok w -> world_ok (forget w c).
Proof.
  intros []. split; cbn; try done.
  - intros c' k' (_ & Hk)%lookup_delete_Some. by apply wok_calls0.
  - intros c' [Hc|[[k (_ & Hk)%lookup_delete_Some]|Hc]]; eauto.
  - intros c' Hc. rewrite lookup_delete. case_decide; [done|]. by apply wok_replied0.
Qed.

Lemma with_reply_ok w c r :
  world_ok w -> is_Some (started w !! c) -> reply_ok w (c, r) -> world_ok (with_reply w c r).
Proof.
  intros [] Hs Hr. split; cbn; try done.
  - intros c' k' (_ & Hk)%lookup_delete_Some. by apply wok_calls0.
  - intros c' [Hc|[[k (_ & Hk)%lookup_delete_Some]|Hc]]; [by auto|eauto|].
    apply elem_of_cons in Hc as [->|Hc]; auto.
  - intros c' Hc. rewrite lookup_delete. case_decide as Hn; [done|]. apply wok_replied0.
    apply elem_of_cons in Hc as [->|Hc]; done.
  - intros x [->|Hx]%elem_of_cons; [done|]. by apply wok_replies0.
Qed.

Lemma with_copy_ok w r c :
  world_ok w -> (forall d v, c = Some (d, v) -> (v, d) ∈ bodies w) -> world_ok (with_copy w r c).
Proof.
  intros [] Hc. split; cbn; try done.
  intros r' d v. destruct (decide (r = r')) as [<-|Hne].
  - rewrite lookup_partial_alter_eq. apply Hc.
  - rewrite lookup_partial_alter_ne by done. apply wok_copy0.
Qed.

Lemma with_poison_ok w r : world_ok w -> world_ok (with_poison w r).
Proof. intros []. by split. Qed.

Lemma with_start_ok w c : world_ok w -> started w !! c = None -> world_ok (with_start w c).
Proof.
  intros [] Hn. split; cbn; try done.
  - intros c' k Hk. apply (call_ok_frame w); [done|done| |by apply wok_calls0]. cbn.
    rewrite lookup_insert_ne; [done|]. intros ->. destruct (wok_started0 c') as [m Hm]; [by eauto|]. congruence.
  - intros c' Hc. destruct (decide (c = c')) as [<-|Hne]; [by rewrite lookup_insert_eq|].
    rewrite lookup_insert_ne by done. by apply wok_started0.
  - intros x Hx. apply (reply_ok_frame w); [done| |by apply wok_replies0]. cbn.
    rewrite lookup_insert_ne; [done|]. intros ->. destruct (wok_started0 x.1) as [m Hm]; [|congruence].
    do 2 right. apply list_elem_of_fmap. by exists x.
  - intros c' n. rewrite lookup_insert. case_decide as Hc; [intros [= <-]; lia|apply wok_before0].
  - intros newer c' x older n Hl Hx. rewrite lookup_insert. case_decide as Hc; [|by eapply wok_after0].
    subst c'. destruct (wok_started0 c) as [m Hm]; [|by rewrite Hn in Hm].
    left. rewrite Hl. apply (log_calls_entry _ c x); [set_solver|done].
Qed.

(** The call's closure ran on the document the write replaces. *)
Lemma accepted_replay w c r e data mode outcome :
  world_ok w -> calls w !! c = Some (Putting r e data mode outcome) -> accepted (object w) mode = true ->
  (data, outcome) = f e (default initial (replay (log w))).
Proof.
  intros Hok Hc Hacc. destruct (wok_calls _ Hok _ _ Hc) as (_ & _ & held & Hf & -> & Hin).
  rewrite <- (wok_object _ Hok), Hf.
  destruct held as [[d v]|], (object w) as [[d' v']|] eqn:Eo; cbn in *; try done.
  apply bool_decide_eq_true in Hacc as ->.
  by rewrite (wok_names _ Hok v' d d' (Hin _ _ eq_refl) (wok_key _ Hok _ _ Eo)).
Qed.

Lemma met_grows w w' x c P :
  log w' = x :: log w -> started w' = started w -> met w c P -> met w' c P.
Proof. intros Hl Hs (newer & older & n & H1 & H2). exists (x :: newer), older, n. rewrite Hl, Hs, H1. by split. Qed.

Lemma removed_grows w w' x c :
  log w' = x :: log w -> started w' = started w -> removed_since w c -> removed_since w' c.
Proof. intros Hl Hs (newer & older & n & H1 & H2). exists (x :: newer), older, n. rewrite Hl, Hs, H1. by split. Qed.

Lemma log_suffix_cons (x : Entry) (l : list Entry) (P : list Entry -> Prop) :
  (exists newer older, l = newer ++ older /\ P older) -> exists newer older, x :: l = newer ++ older /\ P older.
Proof. intros (newer & older & -> & H). by exists (x :: newer), older. Qed.

(** A write by another call changes nothing for a call or a reply. *)
Lemma call_ok_grows w w' x c k :
  log w' = x :: log w -> started w' = started w -> (forall b, b ∈ bodies w -> b ∈ bodies w') ->
  entry_call x <> Some c -> call_ok w c k -> call_ok w' c k.
Proof.
  intros Hl Hst Hb Hx.
  assert (Hn : c ∉ log_calls (log w) -> c ∉ log_calls (x :: log w)).
  { unfold log_calls. cbn. destruct (entry_call x); set_solver. }
  assert (Hm : forall P, met w c P -> met w' c P) by (intros P; by eapply met_grows).
  assert (Hr : removed_since w c -> removed_since w' c) by (by eapply removed_grows).
  destruct k; cbn [call_ok]; rewrite ?Hl; try (by auto).
  - intros (H1 & Hp & held & H2 & H3 & H4). split; [auto|]. split; [done|]. exists held. eauto.
  - intros (H1 & H2 & H3). split; [by right|auto].
  - intros (H1 & H2). split; [auto|]. eauto.
  - intros (H1 & H2). split; [auto|]. eauto.
  - intros (H1 & H2). split; [by right|auto].
  - intros (H1 & H2). split; [auto|]. by apply Hm.
  - intros (H1 & H2). split; [auto|]. by apply Hm.
  - intros (H1 & H2 & H3). split; [auto|]. split; [by apply Hm|eauto].
  - intros (H1 & H2). split; [auto|]. by apply Hr.
Qed.

Lemma reply_ok_grows w w' x y :
  log w' = x :: log w -> started w' = started w -> entry_call x <> Some y.1 -> reply_ok w y -> reply_ok w' y.
Proof.
  intros Hl Hst Hx. destruct y as [c [o|data|[|]| |e]]; cbn in *; [| | | | |done].
  - destruct o; rewrite Hl; unfold log_calls; cbn.
    + intros [e He]. exists e. by right.
    + intros [e' He]. exists e'. by right.
    + destruct (entry_call x); set_solver.
  - rewrite Hl. intros [Hn Hd]. split; [|by apply log_suffix_cons].
    unfold log_calls. cbn. destruct (entry_call x); set_solver.
  - rewrite Hl. intros [k Hk]. exists k. by right.
  - intros [Hn Hm]. split; [|by eapply met_grows]. rewrite Hl. unfold log_calls. cbn.
    destruct (entry_call x); set_solver.
  - intros [Hn Hm]. split; [|by eapply removed_grows]. rewrite Hl. unfold log_calls. cbn.
    destruct (entry_call x); set_solver.
Qed.

Lemma without_object_ok w : world_ok w -> world_ok (without_object w).
Proof.
  intros []. split; cbn; try done.
  - intros v d Hb. by eapply log_suffix_cons, wok_bodies0.
  - intros c k Hk. eapply (call_ok_grows w _ Removed); [done|done|done|done|]. by apply wok_calls0.
  - intros x Hx. eapply (reply_ok_grows w _ Removed); [done|done|done|]. by apply wok_replies0.
  - intros c n Hn. apply wok_before0 in Hn. lia.
  - intros [|x newer] c y older n Hl Hy; [by injection Hl as <- _|]. injection Hl as _ Hl. by eapply wok_after0.
Qed.

(** A write that is legal where it lands. *)
Lemma with_object_ok w c x data v n :
  world_ok w -> entry_call x = Some c -> calls w !! c = None -> c ∉ (replies w).*1 -> c ∉ log_calls (log w) ->
  started w !! c = Some n -> replay (x :: log w) = Some data -> (legal (log w) -> legal (x :: log w)) ->
  names (bodies w) v data -> world_ok (with_object w data v x).
Proof.
  intros [] Hx Hc Hr Hl Hs Hd Hlg Hn. split; cbn [object copies poisoned calls started replies bodies log with_object].
  - by rewrite Hd.
  - by apply Hlg.
  - unfold log_calls. cbn. rewrite Hx. by constructor.
  - intros d v' [= <- <-]. by left.
  - intros r d v' Hr'. right. by eapply wok_copy0.
  - intros v' d d' [Hd1|Hd1]%elem_of_cons [Hd'|Hd']%elem_of_cons; simplify_eq; try done.
    + symmetry. by apply Hn.
    + by apply Hn.
    + by eapply wok_names0.
  - intros v' d [[= -> ->]|Hb]%elem_of_cons; [|by eapply log_suffix_cons, wok_bodies0].
    by exists [], (x :: log w).
  - intros c' k Hk. eapply (call_ok_grows w _ x); [done|done|by right|congruence|].
    by apply wok_calls0.
  - intros c' [Hc'|Hc']; [|by auto]. unfold log_calls in Hc'. cbn in Hc'. rewrite Hx in Hc'.
    apply elem_of_cons in Hc' as [->|Hc']; [done|by auto].
  - done.
  - intros y Hy. eapply (reply_ok_grows w _ x); [done|done| |by apply wok_replies0].
    rewrite Hx. intros [= ->]. apply Hr, list_elem_of_fmap. by exists y.
  - intros c' n' Hn'. apply wok_before0 in Hn'. cbn. lia.
  - intros [|y newer] c' z older n' Hl' Hz Hs'; simplify_eq/=; [|by eapply wok_after0].
    by eapply wok_before0.
Qed.

Lemma call_started w c k :
  world_ok w -> calls w !! c = Some k -> is_Some (started w !! c) /\ c ∉ (replies w).*1.
Proof.
  intros Hok Hc. split; [apply (wok_started _ Hok); right; left; by exists k|].
  intros Hr. by rewrite (wok_replied _ Hok c Hr) in Hc.
Qed.

(** A call that has not started is nowhere. *)
Lemma fresh_call w c : world_ok w -> started w !! c = None -> c ∉ log_calls (log w).
Proof. intros Hok Hs Hc. destruct (wok_started _ Hok c) as [n Hn]; [by left|]. by rewrite Hn in Hs. Qed.

(** What a call that starts is about to do. *)
Definition starts (k : Call) : bool :=
  match k with Running _ _ | Asking _ _ | Creating _ _ | Removing _ => true | _ => false end.

Lemma started_call_ok w c k :
  world_ok w -> started w !! c = None -> starts k = true -> world_ok (with_call (with_start w c) c k).
Proof.
  intros Hok Hs Hk. pose proof (fresh_call w c Hok Hs) as Hf. apply with_call_ok; cbn.
  - by apply with_start_ok.
  - by rewrite lookup_insert_eq.
  - intros Hr. destruct (wok_started _ Hok c) as [n Hn]; [by auto|]. by rewrite Hn in Hs.
  - by destruct k.
Qed.

(** The write of call [c] reaches the store. *)
Lemma put_ok w c r e data mode outcome v :
  world_ok w -> calls w !! c = Some (Putting r e data mode outcome) -> accepted (object w) mode = true ->
  names (bodies w) v data -> world_ok (with_object (forget w c) data v (Applied c e outcome)).
Proof.
  intros Hok Hc Ha Hn. destruct (call_started _ _ _ Hok Hc) as [[n Hs] Hr].
  pose proof (accepted_replay _ _ _ _ _ _ _ Hok Hc Ha) as Hf.
  eapply (with_object_ok (forget w c) c); cbn; try done.
  - by apply forget_ok.
  - apply lookup_delete_eq.
  - apply (wok_calls _ Hok _ _ Hc).
  - by rewrite <- Hf.
  - by rewrite <- Hf.
Qed.

Lemma place_ok w c r k v :
  world_ok w -> calls w !! c = Some (Creating r k) -> accepted (object w) None = true ->
  names (bodies w) v (body k) -> world_ok (with_object (forget w c) (body k) v (Placed c k)).
Proof.
  intros Hok Hc Ha Hn. destruct (call_started _ _ _ Hok Hc) as [[n Hs] Hr].
  assert (Hnone : replay (log w) = None).
  { rewrite <- (wok_object _ Hok). by destruct (object w) as [[d v']|]. }
  eapply (with_object_ok (forget w c) c); cbn; try done.
  - by apply forget_ok.
  - apply lookup_delete_eq.
  - apply (wok_calls _ Hok _ _ Hc).
Qed.

(** A create is refused where the document is there. *)
Lemma exists_met w c :
  world_ok w -> is_Some (started w !! c) -> accepted (object w) None = false -> met w c there.
Proof.
  intros Hok [n Hs] Ha. exists [], (log w), n. split; [done|]. split; [done|].
  split; [by eapply wok_before|]. unfold there. rewrite <- (wok_object _ Hok).
  destruct (object w) as [[d v]|]; [by exists d|done].
Qed.

Lemma delete_ok w c : world_ok w -> is_Some (started w !! c) -> removed_since (without_object w) c.
Proof. intros Hok [n Hs]. exists [], (log w), n. split; [done|]. split; [done|]. by eapply wok_before. Qed.

Lemma store_get_found w d v :
  world_ok w -> store_get (object w) = Found d v -> (v, d) ∈ bodies w.
Proof.
  intros Hok. unfold store_get. destruct (object w) as [[d' v']|] eqn:Eo; [|done].
  intros [= -> ->]. by apply (wok_key _ Hok).
Qed.

Lemma store_get_if_found w etag d v :
  world_ok w -> store_get_if etag (object w) = Found d v -> (v, d) ∈ bodies w.
Proof.
  intros Hok. unfold store_get_if. destruct (object w) as [[d' v']|] eqn:Eo; [|done].
  case_bool_decide; [done|]. intros [= -> ->]. by apply (wok_key _ Hok).
Qed.

(** What a GET leaves in the copy is a body of the store. *)
Lemma refresh_copy w r a d v :
  world_ok w -> (forall d v, a = Found d v -> (v, d) ∈ bodies w) ->
  (refresh a (copies w !! r)).2 = Some (d, v) \/ (opticon_get a (copies w !! r)).2 = Some (d, v) ->
  (v, d) ∈ bodies w.
Proof.
  intros Hok Ha H. destruct a as [d' v'| | |]; cbn in H.
  - apply Ha. naive_solver.
  - naive_solver.
  - eapply (wok_copy _ Hok r). naive_solver.
  - eapply (wok_copy _ Hok r). naive_solver.
Qed.

Lemma access_step_ok w w' : world_ok w -> access_step w w' -> world_ok w'.
Proof.
  intros Hok Hstep.
  destruct Hstep as [w c r e Hs|w c r e data mode o Hc Hp Ha Ho|w c r e data mode p Hc Hp Ha
    |w c r e data mode o v Hc Ha Hn|w c r e data mode o v err Hc Ha Hn|w c r e data mode o Hc Ha
    |w c r e data v o Hc Hp|w c r e Hc|w c r e a Hc Hp|w c r Hs Hp|w c r etag Hc|w c r a Hc Hp
    |w c r Hc Hp|w c k err Hc Hk];
    try (destruct (call_started _ _ _ Hok Hc) as [Hs Hr]; pose proof (wok_calls _ Hok _ _ Hc) as Hk').
  - by apply started_call_ok.
  - apply with_call_ok; [done..|]. split; [done|]. split; [done|]. exists (copies w !! r).
    unfold with_mut_attempt in Ha. destruct (f e _) as [d' o'] eqn:Ef. simplify_eq.
    split; [done|]. split; [done|]. apply (wok_copy _ Hok).
  - by apply with_poison_ok, with_reply_ok.
  - unfold with_call. cbn. rewrite <- insert_delete_eq.
    apply (with_call_ok (with_object (forget w c) data v (Applied c e o))); [by eapply put_ok|done..|].
    split; [by left|]. split; [by left|]. apply Hk'.
  - unfold with_reply. cbn. rewrite <- delete_delete_eq.
    apply (with_reply_ok (with_object (forget w c) data v (Applied c e o))); [by eapply put_ok|done|done].
  - apply with_call_ok; [done..|]. apply Hk'.
  - destruct Hk' as (Hl & Hb & Ho). apply (with_reply_ok (with_copy w r (Some (data, v)))); [|done|].
    + apply with_copy_ok; [done|]. by intros d v' [= -> ->].
    + cbn. destruct o as [| |p]; [by eexists|by eexists|]. by destruct (Ho p).
  - apply with_call_ok; [done..|]. split; [done|]. intros d v. by apply store_get_found.
  - destruct Hk' as [Hl Hb]. apply (with_call_ok (with_copy w r _)); [|done..].
    apply with_copy_ok; [done|]. intros d v H. eapply refresh_copy; [done|done|]. by right.
  - by apply started_call_ok.
  - apply with_call_ok; [done..|]. split; [done|]. intros d v. by apply store_get_if_found.
  - destruct Hk' as [Hl Hb]. apply (with_call_ok (with_copy w r _)); [|done..].
    apply with_copy_ok; [done|]. intros d v H. eapply refresh_copy; [done|done|]. by left.
  - apply with_reply_ok; [done|done|]. cbn. split; [done|].
    destruct (copies w !! r) as [[d v]|] eqn:Ec; cbn.
    + destruct (wok_bodies _ Hok v d) as (newer & older & H1 & H2); [by eapply wok_copy|]. eauto.
    + exists (log w), []. by rewrite app_nil_r.
  - by apply with_reply_ok.
Qed.

Lemma lifecycle_step_ok w w' : world_ok w -> lifecycle_step w w' -> world_ok w'.
Proof.
  intros Hok Hstep.
  destruct Hstep as [w c r k Hs|w c r k v Hc Ha Hn|w c r k v err Hc Ha Hn|w c r k Hc Ha
    |w c r k v Hc Hp|w c r Hc Hp|w c r etag Hc|w c r a Hc Hp|w c r Hs|w c r Hc|w c r err Hc|w c r Hc Hp|w];
    try (destruct (call_started _ _ _ Hok Hc) as [Hs Hr]; pose proof (wok_calls _ Hok _ _ Hc) as Hk').
  - by apply started_call_ok.
  - unfold with_call. cbn. rewrite <- insert_delete_eq.
    apply (with_call_ok (with_object (forget w c) (body k) v (Placed c k))); [by eapply place_ok|done..|].
    split; by left.
  - unfold with_reply. cbn. rewrite <- delete_delete_eq.
    apply (with_reply_ok (with_object (forget w c) (body k) v (Placed c k))); [by eapply place_ok|done|done].
  - apply with_call_ok; [done..|]. split; [done|]. by apply exists_met.
  - destruct Hk' as [Hl Hb]. apply (with_reply_ok (with_copy w r (Some (body k, v)))); [|done|by exists k].
    apply with_copy_ok; [done|]. by intros d v' [= <- <-].
  - by apply with_call_ok.
  - destruct Hk' as [Hl Hm]. apply with_call_ok; [done..|]. split; [done|]. split; [done|].
    intros d v. by apply store_get_if_found.
  - destruct Hk' as (Hl & Hm & Hb). apply (with_reply_ok (with_copy w r _)); [|done|done].
    apply with_copy_ok; [done|]. intros d v H. eapply refresh_copy; [done|done|]. by left.
  - by apply started_call_ok.
  - apply (with_call_ok (without_object w)); [by apply without_object_ok|done..|].
    split; [done|]. by apply delete_ok.
  - by apply (with_reply_ok (without_object w)); [apply without_object_ok|..].
  - apply (with_reply_ok (with_copy w r None)); [by apply with_copy_ok|done|done].
  - by apply without_object_ok.
Qed.

Lemma opticon_step_ok w w' : world_ok w -> opticon_step w w' -> world_ok w'.
Proof. intros Hok [H|H]; [by eapply access_step_ok|by eapply lifecycle_step_ok]. Qed.

Lemma opticon_reach_ok w : opticon_reach w -> world_ok w.
Proof.
  induction 1 as [|w w' _ IH Hs]; [|by eapply opticon_step_ok].
  split; cbn; try done; try (by intros; set_solver).
  - constructor.
  - intros c [Hc|[[k Hc]|Hc]]; [by apply elem_of_nil in Hc|by rewrite lookup_empty in Hc|
      by apply elem_of_nil in Hc].
Qed.

(** ** The theorems *)

(** C6 However the calls of any number of processes interleave on a document, what
    the store holds is what a sequential history of their writes leaves, in
    which every closure of [with_mut] has run on the document before it and every
    create found none.  Every answer of [with_mut] is that of one write of the
    history, made between the call's start and its answer, unless its closure
    panicked, and then it wrote nothing; a [create] answers that it created the
    document if its own write did, and that it did not if it wrote nothing and
    the document was there at some point of the call; and a [remove] that
    answers removed it in between. *)
Theorem with_mut_linearizable w :
  opticon_reach w ->
  fst <$> object w = replay (log w) /\ legal (log w) /\ NoDup (log_calls (log w)) /\
  (forall c o, (c, Done o) ∈ replies w ->
     (exists p, o = Panic p /\ c ∉ log_calls (log w)) \/
     exists newer e older n, log w = newer ++ Applied c e o :: older /\
       started w !! c = Some n /\ (n <= length older)%nat) /\
  (forall c, (c, Made true) ∈ replies w ->
     exists newer k older n, log w = newer ++ Placed c k :: older /\
       started w !! c = Some n /\ (n <= length older)%nat) /\
  (forall c, (c, Made false) ∈ replies w -> (c ∉ log_calls (log w)) /\ met w c there) /\
  (forall c, (c, Cleared) ∈ replies w -> removed_since w c).
Proof.
  intros Hr. apply opticon_reach_ok in Hr as Hok.
  assert (Happ : forall c x, x ∈ log w -> entry_call x = Some c ->
    exists newer older n, log w = newer ++ x :: older /\ started w !! c = Some n /\ (n <= length older)%nat).
  { intros c x Hx Hc. destruct (list_elem_of_split _ _ Hx) as (newer & older & Hl).
    destruct (wok_started _ Hok c) as [n Hn]; [left; by eapply log_calls_entry|].
    exists newer, older, n. split; [done|]. split; [done|]. by eapply (wok_after _ Hok). }
  split_and!; try apply Hok.
  - intros c o Ho. pose proof (wok_replies _ Hok _ Ho) as Hx. cbn in Hx.
    assert (Hd : (exists e, Applied c e o ∈ log w) -> exists newer e older n,
      log w = newer ++ Applied c e o :: older /\ started w !! c = Some n /\ (n <= length older)%nat).
    { intros [e He]. destruct (Happ c _ He eq_refl) as (newer & older & n & H). by exists newer, e, older, n. }
    destruct o; [by right; apply Hd|by right; apply Hd|left; by eexists].
  - intros c Ho. destruct (wok_replies _ Hok _ Ho) as [k Hk]. cbn in Hk.
    destruct (Happ c _ Hk eq_refl) as (newer & older & n & H). by exists newer, k, older, n.
  - intros c Ho. exact (wok_replies _ Hok _ Ho).
  - intros c Ho. exact (proj2 (wok_replies _ Hok _ Ho)).
Qed.

(** A read answers with a document the store held. *)
Lemma with_reads_history w c data :
  opticon_reach w -> (c, Saw data) ∈ replies w ->
  exists newer older, log w = newer ++ older /\ data = replay older.
Proof. intros Hr%opticon_reach_ok Hc. by apply (wok_replies _ Hr _ Hc). Qed.

(** What the closures keep and the creates have, the document has. *)
Lemma replay_invariant (I : D -> Prop) l :
  I initial -> (forall k, I (body k)) -> (forall c e o, Applied c e o ∈ l -> forall d, I d -> I (f e d).1) ->
  forall d, replay l = Some d -> I d.
Proof.
  intros H0 Hk. induction l as [|[c e o|c k|] l IH]; intros Hf d; cbn; [done| |by intros [= <-]|done].
  intros [= <-]. eapply (Hf c e o); [by left|].
  destruct (replay l) as [d|] eqn:Er; cbn; [|done]. apply IH; [|done]. intros c' e' o' H'. apply (Hf c' e' o').
  by right.
Qed.

(** ** Schedules *)

Inductive Action :=
  | DoCall (c r : nat) (e : E) | DoRun (c : nat) | DoPut (c : nat) (v : V) | DoRefuse (c : nat)
  | DoAck (c : nat) | DoFetch (c : nat) | DoLand (c : nat)
  | DoLook (c r : nat) | DoAsk (c : nat) | DoRefresh (c : nat) | DoSee (c : nat)
  | DoCreate (c r : nat) (k : K) | DoPlace (c : nat) (v : V) | DoExist (c : nat) | DoMade (c : nat)
  | DoRecheck (c : nat) | DoRechecked (c : nat) | DoThere (c : nat)
  | DoRemove (c r : nat) | DoDelete (c : nat) | DoClear (c : nat).

Definition alive (w : World) (r : nat) (w' : World) : option World :=
  if decide (r ∈ poisoned w) then None else Some w'.

Definition perform (w : World) (a : Action) : option World :=
  match a with
  | DoCall c r e =>
      match started w !! c with
      | None => Some (with_call (with_start w c) c (Running r e))
      | Some _ => None
      end
  | DoRun c =>
      match calls w !! c with
      | Some (Running r e) =>
          alive w r
            match with_mut_attempt initial (f e) (copies w !! r) with
            | (_, _, Panic p) => with_poison (with_reply w c (Done (Panic p))) r
            | (data, mode, outcome) => with_call w c (Putting r e data mode outcome)
            end
      | _ => None
      end
  | DoPut c v =>
      match calls w !! c with
      | Some (Putting r e data mode outcome) =>
          if accepted (object w) mode && bool_decide (v ∉ (bodies w).*1)
          then Some (with_call (with_object w data v (Applied c e outcome)) c (Stored r e data v outcome))
          else None
      | _ => None
      end
  | DoRefuse c =>
      match calls w !! c with
      | Some (Putting r e data mode outcome) =>
          if accepted (object w) mode then None else Some (with_call w c (Refused r e))
      | _ => None
      end
  | DoAck c =>
      match calls w !! c with
      | Some (Stored r e data v outcome) =>
          alive w r (with_reply (with_copy w r (Some (data, v))) c (Done outcome))
      | _ => None
      end
  | DoFetch c =>
      match calls w !! c with
      | Some (Refused r e) => Some (with_call w c (Fetched r e (store_get (object w))))
      | _ => None
      end
  | DoLand c =>
      match calls w !! c with
      | Some (Fetched r e a) =>
          alive w r (with_call (with_copy w r (opticon_get a (copies w !! r)).2) c (Running r e))
      | _ => None
      end
  | DoLook c r =>
      match started w !! c with
      | None => alive w r (with_call (with_start w c) c (Asking r (if_none_match (copies w !! r))))
      | Some _ => None
      end
  | DoAsk c =>
      match calls w !! c with
      | Some (Asking r etag) => Some (with_call w c (Asked r (store_get_if etag (object w))))
      | _ => None
      end
  | DoRefresh c =>
      match calls w !! c with
      | Some (Asked r a) => alive w r (with_call (with_copy w r (refresh a (copies w !! r)).2) c (Landed r))
      | _ => None
      end
  | DoSee c =>
      match calls w !! c with
      | Some (Landed r) => alive w r (with_reply w c (Saw (fst <$> copies w !! r)))
      | _ => None
      end
  | DoCreate c r k =>
      match started w !! c with
      | None => Some (with_call (with_start w c) c (Creating r k))
      | Some _ => None
      end
  | DoPlace c v =>
      match calls w !! c with
      | Some (Creating r k) =>
          if accepted (object w) None && bool_decide (v ∉ (bodies w).*1)
          then Some (with_call (with_object w (body k) v (Placed c k)) c (Created r k v))
          else None
      | _ => None
      end
  | DoExist c =>
      match calls w !! c with
      | Some (Creating r k) => if accepted (object w) None then None else Some (with_call w c (Exists r))
      | _ => None
      end
  | DoMade c =>
      match calls w !! c with
      | Some (Created r k v) => alive w r (with_reply (with_copy w r (Some (body k, v))) c (Made true))
      | _ => None
      end
  | DoRecheck c =>
      match calls w !! c with
      | Some (Exists r) => alive w r (with_call w c (Rechecking r (if_none_match (copies w !! r))))
      | _ => None
      end
  | DoRechecked c =>
      match calls w !! c with
      | Some (Rechecking r etag) => Some (with_call w c (Rechecked r (store_get_if etag (object w))))
      | _ => None
      end
  | DoThere c =>
      match calls w !! c with
      | Some (Rechecked r a) =>
          alive w r (with_reply (with_copy w r (refresh a (copies w !! r)).2) c (Made false))
      | _ => None
      end
  | DoRemove c r =>
      match started w !! c with
      | None => Some (with_call (with_start w c) c (Removing r))
      | Some _ => None
      end
  | DoDelete c =>
      match calls w !! c with
      | Some (Removing r) => Some (with_call (without_object w) c (Gone r))
      | _ => None
      end
  | DoClear c =>
      match calls w !! c with
      | Some (Gone r) => alive w r (with_reply (with_copy w r None) c Cleared)
      | _ => None
      end
  end.

Lemma perform_sound w a w' : perform w a = Some w' -> opticon_step w w'.
Proof.
  intros H. destruct a; cbn -[accepted] in H; unfold alive in H;
    repeat (case_match; simplify_eq); try (left; by eauto using access_step); try (right; by eauto using lifecycle_step).
  all: try (right; eapply step_was_there; [done|by left]).
  all: match goal with H : _ && _ = true |- _ => apply andb_prop in H as [Ha Hv%bool_decide_eq_true] end.
  - left. eapply step_put; [done|done|]. intros d' Hd. destruct Hv. apply list_elem_of_fmap. by exists (v, d').
  - right. eapply step_place; [done|done|]. intros d' Hd. destruct Hv. apply list_elem_of_fmap. by exists (v, d').
Qed.

Definition run_schedule (l : list Action) : option World :=
  foldl (fun w a => w ≫= fun w => perform w a) (Some world0) l.

Lemma run_schedule_reach l w : run_schedule l = Some w -> opticon_reach w.
Proof.
  unfold run_schedule. revert w. induction l as [|a l IH] using rev_ind; intros w; cbn.
  { intros [= <-]. constructor. }
  rewrite foldl_app. cbn. destruct (foldl _ _ l) as [w0|]; [|done]. cbn. intros Hp.
  eapply opticon_next; [by apply IH|]. by apply perform_sound in Hp.
Qed.

(** The world a schedule that can be followed to its end leaves. *)
Lemma schedule_reach l :
  match run_schedule l with Some _ => true | None => false end = true ->
  opticon_reach (default world0 (run_schedule l)).
Proof. destruct (run_schedule l) as [w|] eqn:El; [|done]. intros _. by eapply run_schedule_reach. Qed.

End concurrent.

(** ** A counter two processes add to *)

Module Counter.
Definition add (e : Z) (d : Z) : Z * result Z := (d + e, Ok (d + e)).

(** Process 1 adds one.  Process 0 adds ten at once, is refused, and reads the
    document, but has not put what it read in its copy yet.  Process 1 adds one
    more.  Process 0 reads twice: between the second read's request and its
    answer, which says that the copy is current, the first call's answer lands. *)
Definition schedule : list (@Action Z Z Z) :=
  [DoCall 0 1 1; DoRun 0; DoCall 10 0 10; DoRun 10; DoPut 0 100; DoAck 0;
   DoRefuse 10; DoFetch 10;
   DoCall 1 1 1; DoRun 1; DoPut 1 101; DoAck 1;
   DoLook 2 0; DoAsk 2; DoRefresh 2; DoSee 2;
   DoLook 3 0; DoAsk 3; DoLand 10; DoRefresh 3; DoSee 3;
   DoRun 10; DoRefuse 10; DoFetch 10; DoLand 10; DoRun 10; DoPut 10 102; DoAck 10].

Abbreviation CounterWorld := (@World Z Z Z Z Z).

Definition final : CounterWorld := default world0 (run_schedule 0 add id schedule).

Lemma final_reach : opticon_reach 0 add id final.
Proof. apply schedule_reach. vm_compute. reflexivity. Qed.

Lemma final_replies :
  replies final = 
    [(10%nat, Done (Ok 12)); (3%nat, Saw (Some 1)); (2%nat, Saw (Some 2)); (1%nat, Done (Ok 2)); (0%nat, Done (Ok 1))].
Proof. vm_compute. reflexivity. Qed.

(** And then: process 1 finds that it cannot create the counter, process 0 removes
    it, and process 1 creates it at five. *)
Definition recreation : list (@Action Z Z Z) :=
  [DoCreate 20 1 7; DoExist 20; DoRecheck 20; DoRechecked 20; DoThere 20;
   DoRemove 21 0; DoDelete 21; DoClear 21; DoCreate 22 1 5; DoPlace 22 103; DoMade 22].

Definition recreated : CounterWorld := default world0 (run_schedule 0 add id (schedule ++ recreation)).

Lemma recreated_reach : opticon_reach 0 add id recreated.
Proof. apply schedule_reach. vm_compute. reflexivity. Qed.

Lemma recreated_replies :
  take 3 (replies recreated) = [(22%nat, Made true); (21%nat, Cleared); (20%nat, Made false)] /\
  (10%nat, Done (Ok 12)) ∈ replies recreated.
Proof. split; [vm_compute; reflexivity|]. vm_compute. do 3 right. left. Qed.
End Counter.

Lemma with_mut_linearizable_witness :
  take 3 (replies Counter.recreated) = [(22%nat, Made true); (21%nat, Cleared); (20%nat, Made false)] /\
  (exists newer k older n, log Counter.recreated = newer ++ Placed 22 k :: older /\
     started Counter.recreated !! 22%nat = Some n /\ (n <= length older)%nat) /\
  exists newer e older n, log Counter.recreated = newer ++ Applied 10 e (Ok 12) :: older /\
    started Counter.recreated !! 10%nat = Some n /\ (n <= length older)%nat.
Proof.
  destruct Counter.recreated_replies as [Ht Hin].
  destruct (with_mut_linearizable 0 Counter.add id Counter.recreated Counter.recreated_reach)
    as (_ & _ & _ & H & Hm & _).
  split; [exact Ht|]. split.
  - apply Hm. assert (Hx : (22%nat, Made true) ∈ take 3 (replies Counter.recreated)) by (rewrite Ht; left).
    exact (subseteq_take 3 _ _ Hx).
  - destruct (H 10%nat (Ok 12) Hin) as [(p & Hp & _)|H']; [discriminate Hp|exact H'].
Defined.

(** [with] can go back in time: of two reads a process makes one after the
    other, the second answers with a document that a completed write had replaced
    before either read began.  A refused [with_mut] of the same process holds an
    old GET answer until it next takes the lock, and a conditional GET answered
    NotModified trusts whatever the copy has become meanwhile. *)
Theorem with_read_goes_back :
  exists w : Counter.CounterWorld, opticon_reach 0 Counter.add id w /\
    (1%nat, Done (Ok 2)) ∈ replies w /\ (2%nat, Saw (Some 2)) ∈ replies w /\ (3%nat, Saw (Some 1)) ∈ replies w /\
    started w !! 3%nat = Some 2%nat /\
    forall newer older, log w = newer ++ older -> (2 <= length older)%nat ->
      replay 0 Counter.add id older <> Some 1.
Proof.
  exists Counter.final. split; [exact Counter.final_reach|].
  rewrite Counter.final_replies. split; [by do 3 right; left|]. split; [by do 2 right; left|]. split; [by right; left|].
  split; [vm_compute; reflexivity|].
  intros newer older Hl Hn.
  assert (Hlog : log Counter.final = [Applied 10 10 (Ok 12); Applied 1 1 (Ok 2); Applied 0 1 (Ok 1)])
    by (vm_compute; reflexivity).
  rewrite Hlog in Hl. destruct newer as [|x [|y newer]]; cbn [app] in Hl.
  - subst older. discriminate.
  - injection Hl as _ <-. discriminate.
  - injection Hl as _ _ Hl. apply (f_equal length) in Hl. rewrite length_app in Hl. cbn in Hl. lia.
Qed.
