(* ===== verification/Bytes.v ===== *)
(** * Bytes: buffers, big-endian integers, readers and the codec interface

    What the Rust sources use of [bytes::{Buf, BufMut, Bytes}], of
    [to_be_bytes]/[from_be_bytes] and of [str::from_utf8], and the class
    [Wire] by which one component promises to another that what it writes can
    be read back. *)

From Corelib Require Export Init.Byte.
From Stdlib Require Import Strings.Byte.
From S2P Require Export Prelude.

(** ** Bytes *)

Abbreviation bytes := (list byte).

#[export] Instance byte_eq_dec : EqDecision byte.
Proof. intros x y. destruct (Byte.byte_eq_dec x y); [by left|by right]. Defined.

(** [u8] as a number, and the truncating cast [as u8]. *)
Definition Z_of_byte (b : byte) : Z := Z.of_N (Byte.to_N b).
Definition byte_of_Z (z : Z) : byte :=
  match Byte.of_N (Z.to_N (z mod 256)) with
  | Some b => b
  | None => x00
  end.

#[export] Instance byte_countable : Countable byte.
Proof.
  apply (inj_countable' Z_of_byte byte_of_Z).
  intros b. by destruct b.
Defined.

Lemma byte_of_Z_of_byte b : byte_of_Z (Z_of_byte b) = b.
Proof. by destruct b. Qed.

Lemma Z_of_byte_range b : 0 <= Z_of_byte b < 256.
Proof. unfold Z_of_byte. pose proof (Byte.to_N_bounded b). lia. Qed.

Lemma Z_of_byte_of_Z z : Z_of_byte (byte_of_Z z) = z mod 256.
Proof.
  unfold Z_of_byte, byte_of_Z.
  pose proof (Z.mod_pos_bound z 256 ltac:(lia)) as Hm.
  destruct (Byte.of_N (Z.to_N (z mod 256))) as [b|] eqn:E.
  - apply Byte.to_of_N in E. rewrite E. lia.
  - apply Byte.of_N_None_iff in E. lia.
Qed.

Lemma Z_of_byte_inj b c : Z_of_byte b = Z_of_byte c -> b = c.
Proof. intros H. by rewrite <- (byte_of_Z_of_byte b), H, byte_of_Z_of_byte. Qed.

(** ** Big-endian integers *)

(** The [n] low bytes of [z], most significant first: [z.to_be_bytes()]. *)
Fixpoint to_be (n : nat) (z : Z) : bytes :=
  match n with
  | O => []
  | S m => to_be m (z / 256) ++ [byte_of_Z z]
  end.

(** The unsigned value of a big-endian byte string. *)
Definition of_be (bs : bytes) : Z :=
  fold_left (fun acc b => acc * 256 + Z_of_byte b) bs 0.

Lemma length_to_be n z : length (to_be n z) = n.
Proof. revert z. induction n; intros z; cbn; [done|]. rewrite length_app, IHn. cbn. lia. Qed.

Lemma of_be_snoc bs b : of_be (bs ++ [b]) = of_be bs * 256 + Z_of_byte b.
Proof. unfold of_be. by rewrite fold_left_app. Qed.

Lemma pow256_succ n : 256 ^ Z.of_nat (S n) = 256 * 256 ^ Z.of_nat n.
Proof. rewrite Nat2Z.inj_succ, Z.pow_succ_r by lia. done. Qed.

Lemma of_be_to_be n z : of_be (to_be n z) = z mod 256 ^ Z.of_nat n.
Proof.
  revert z. induction n as [|n IH]; intros z.
  - by rewrite Z.mod_1_r.
  - cbn [to_be]. rewrite of_be_snoc, IH, Z_of_byte_of_Z, pow256_succ.
    rewrite Z.rem_mul_r by (try apply Z.pow_nonzero; lia). lia.
Qed.

Lemma to_be_of_be bs : to_be (length bs) (of_be bs) = bs.
Proof.
  induction bs as [|b bs IH] using rev_ind; [done|].
  rewrite length_app, Nat.add_1_r. cbn [to_be]. rewrite of_be_snoc.
  pose proof (Z_of_byte_range b).
  f_equal.
  - rewrite Z.add_comm, Z.div_add, Z.div_small by lia. done.
  - f_equal. apply Z_of_byte_inj. rewrite Z_of_byte_of_Z.
    rewrite Z.add_comm, Z.mod_add by lia. apply Z.mod_small. lia.
Qed.

Lemma of_be_range bs : 0 <= of_be bs < 256 ^ Z.of_nat (length bs).
Proof.
  induction bs as [|b bs IH] using rev_ind; [cbn; lia|].
  rewrite length_app, Nat.add_1_r, of_be_snoc, pow256_succ.
  pose proof (Z_of_byte_range b). lia.
Qed.

Lemma pow256_bits n : 256 ^ Z.of_nat n = 2 ^ (8 * Z.of_nat n).
Proof. rewrite Z.pow_mul_r by lia. done. Qed.

(** ** Integer types of the wire *)

Inductive ity := U8 | U16 | U32 | U64 | U128 | I8 | I16 | I32 | I64.

Definition width (t : ity) : nat :=
  match t with
  | U8 | I8 => 1
  | U16 | I16 => 2
  | U32 | I32 => 4
  | U64 | I64 => 8
  | U128 => 16
  end.

Definition signed (t : ity) : bool :=
  match t with I8 | I16 | I32 | I64 => true | _ => false end.

Definition bits (t : ity) : Z := 8 * Z.of_nat (width t).

Definition in_ty (t : ity) (z : Z) : bool :=
  if signed t then s_range (bits t) z else u_range (bits t) z.

(** [z as t]. *)
Definition cast (t : ity) (z : Z) : Z :=
  if signed t then wrap_s (bits t) z else wrap_u (bits t) z.

Definition put_int (t : ity) (z : Z) : bytes := to_be (width t) z.
Definition int_of (t : ity) (bs : bytes) : Z := cast t (of_be bs).

Lemma bits_pos t : 0 < bits t.
Proof. by destruct t. Qed.

Lemma in_ty_cast t z : in_ty t (cast t z) = true.
Proof.
  unfold in_ty, cast. pose proof (bits_pos t).
  destruct (signed t); [apply wrap_s_range|apply wrap_u_range]; lia.
Qed.

Lemma cast_small t z : in_ty t z = true -> cast t z = z.
Proof.
  unfold in_ty, cast. pose proof (bits_pos t).
  destruct (signed t); [by apply wrap_s_small|apply wrap_u_small].
Qed.

Lemma int_of_put_int t z : int_of t (put_int t z) = cast t z.
Proof.
  unfold int_of, put_int. rewrite of_be_to_be, pow256_bits. fold (bits t).
  unfold cast. pose proof (bits_pos t).
  destruct (signed t); [by apply wrap_s_mod|].
  unfold wrap_u. apply Z.mod_mod, Z.pow_nonzero; lia.
Qed.

Lemma length_put_int t z : length (put_int t z) = width t.
Proof. apply length_to_be. Qed.

(** ** Readers

    A reader consumes a prefix of a cursor.  [take_n e n] is [split_at(n)]
    guarded by the length check that answers [e]. *)

Definition reader (A : Type) : Type := bytes -> result (A * bytes).

Definition ret {A} (a : A) : reader A := fun bs => Ok (a, bs).
Definition fail {A} (e : error) : reader A := fun _ => Err e.
Definition bind {A B} (m : reader A) (f : A -> reader B) : reader B :=
  fun bs => let! (a, rest) := m bs in f a rest.

Notation "'read!' x := m 'in' k" := (bind m (fun x => k))
  (at level 200, x pattern, m at level 100, k at level 200,
   format "'[v' 'read!'  x  :=  m  'in' '/' k ']'") : kodansu_scope.

Definition take_n (e : error) (n : nat) : reader bytes :=
  fun bs => if (length bs <? n)%nat then Err e else Ok (take n bs, drop n bs).

Definition get_int (e : error) (t : ity) : reader Z :=
  read! bs := take_n e (width t) in ret (int_of t bs).

(** [n] successive reads: [for _ in 0..n { items.push(read()?) }]. *)
Fixpoint read_n {A} (n : nat) (r : reader A) : reader (list A) :=
  match n with
  | O => ret []
  | S m => read! x := r in read! xs := read_n m r in ret (x :: xs)
  end.

Lemma take_n_app e n bs rest :
  n = length bs -> take_n e n (bs ++ rest) = Ok (bs, rest).
Proof.
  intros ->. unfold take_n. rewrite length_app.
  destruct (Nat.ltb_spec (length bs + length rest) (length bs)); [lia|].
  by rewrite take_app_length, drop_app_length.
Qed.

Lemma get_put_int e t z rest :
  get_int e t (put_int t z ++ rest) = Ok (cast t z, rest).
Proof.
  unfold get_int, bind. rewrite take_n_app by (symmetry; apply length_put_int).
  cbn. unfold ret. by rewrite int_of_put_int.
Qed.

Lemma take_n_short e n bs : (length bs < n)%nat -> take_n e n bs = Err e.
Proof. intros. unfold take_n. destruct (Nat.ltb_spec (length bs) n); [done|lia]. Qed.

Lemma get_int_short e t bs : (length bs < width t)%nat -> get_int e t bs = Err e.
Proof. intros. unfold get_int, bind. by rewrite take_n_short. Qed.

Lemma take_n_Ok e n bs a rest :
  take_n e n bs = Ok (a, rest) -> bs = a ++ rest /\ length a = n.
Proof.
  unfold take_n. destruct (Nat.ltb_spec (length bs) n); [done|].
  intros [= <- <-]. split; [by rewrite take_drop|].
  rewrite length_take. lia.
Qed.

Lemma get_int_Ok e t bs z rest :
  get_int e t bs = Ok (z, rest) ->
  bs = put_int t z ++ rest /\ in_ty t z = true.
Proof.
  unfold get_int, bind. intros H.
  destruct (take_n e (width t) bs) as [[a r]| |] eqn:E; cbn in H; try done.
  injection H as <- <-. apply take_n_Ok in E as [-> Hlen]. split; [|apply in_ty_cast].
  f_equal. unfold put_int, int_of. rewrite <- Hlen at 1.
  rewrite <- (to_be_of_be a) at 1. rewrite Hlen.
  assert (Hmod : forall n x y, x mod 256 ^ Z.of_nat n = y mod 256 ^ Z.of_nat n ->
            to_be n x = to_be n y).
  { clear. intros n x y Hxy.
    rewrite <- (to_be_of_be (to_be n x)), <- (to_be_of_be (to_be n y)).
    by rewrite !length_to_be, !of_be_to_be, Hxy. }
  apply Hmod. rewrite pow256_bits. fold (bits t). pose proof (bits_pos t).
  unfold cast. destruct (signed t); [by rewrite mod_wrap_s|].
  unfold wrap_u. rewrite Z.mod_mod; [done|]. apply Z.pow_nonzero; lia.
Qed.

(** Reading with a continuation: the shapes readers are composed from. *)

Lemma bind_Ok {A B} (m : reader A) (f : A -> reader B) bs a rest :
  m bs = Ok (a, rest) -> bind m f bs = f a rest.
Proof. unfold bind. by intros ->. Qed.

Lemma bind_get_put_int {B} e t z rest (f : Z -> reader B) :
  in_ty t z = true ->
  bind (get_int e t) f (put_int t z ++ rest) = f z rest.
Proof. intros H. rewrite (bind_Ok _ _ _ _ _ (get_put_int e t z rest)). by rewrite cast_small. Qed.

Lemma bind_take_n {B} e n bs rest (f : bytes -> reader B) :
  n = length bs ->
  bind (take_n e n) f (bs ++ rest) = f bs rest.
Proof. intros H. apply bind_Ok. by apply take_n_app. Qed.

Lemma bind_ret {A B} (a : A) (f : A -> reader B) : bind (ret a) f = f a.
Proof. done. Qed.

(** Inverting a read: the shapes a successful composite read came from. *)

Lemma bind_Ok_inv {A B} (m : reader A) (f : A -> reader B) bs r :
  bind m f bs = Ok r -> exists a rest, m bs = Ok (a, rest) /\ f a rest = Ok r.
Proof. unfold bind. intros H. apply rbind_Ok in H as ([a rest] & E & H). eauto. Qed.

Lemma bind_get_int_inv {B} e t (f : Z -> reader B) bs r :
  bind (get_int e t) f bs = Ok r ->
  exists z rest, bs = put_int t z ++ rest /\ in_ty t z = true /\ f z rest = Ok r.
Proof. intros (z & rest & [-> Hz]%get_int_Ok & H)%bind_Ok_inv. eauto. Qed.

(** [remaining()]: the bytes left. *)
Definition remaining : reader nat := fun bs => Ok (length bs, bs).

(** ** The codec interface

    [put] is a writer, [get] the paired reader and [wf] the values the format
    can represent; [get_put] is the round-trip law.  A component's codec is an
    instance, and a format that embeds it relies on the law alone. *)

Class Wire (A : Type) := {
  put : A -> bytes;
  get : reader A;
  wf : A -> Prop;
  get_put : forall a rest, wf a -> get (put a ++ rest) = Ok (a, rest);
}.
Arguments put {A Wire} a.
Arguments get {A Wire}.
Arguments wf {A Wire} a.

Definition put_list {A} `{Wire A} (l : list A) : bytes := flat_map put l.

Lemma read_n_put_list {A} `{Wire A} (l : list A) rest :
  Forall wf l -> read_n (length l) get (put_list l ++ rest) = Ok (l, rest).
Proof.
  induction 1 as [|x l Hx Hl IH]; [done|].
  cbn [length read_n]. change (put_list (x :: l)) with (put x ++ put_list l).
  rewrite <- app_assoc. erewrite bind_Ok by (by apply get_put).
  by erewrite bind_Ok by apply IH.
Qed.

(** [read_n] never succeeds with a list of another length. *)
Lemma read_n_length {A} n (r : reader A) bs xs rest :
  read_n n r bs = Ok (xs, rest) -> length xs = n.
Proof.
  revert bs xs rest. induction n as [|n IH]; intros bs xs rest; cbn.
  - unfold ret. by intros [= <- <-].
  - unfold bind, ret. intros H. apply rbind_Ok in H as ([a r1] & _ & H).
    apply rbind_Ok in H as ([ys r2] & Hys & H). injection H as <- <-.
    cbn. f_equal. eapply IH, Hys.
Qed.

Lemma read_n_Forall {A} (P : A -> Prop) n (r : reader A) bs xs rest :
  (forall bs a rest, r bs = Ok (a, rest) -> P a) -> read_n n r bs = Ok (xs, rest) -> Forall P xs.
Proof.
  intros HP. revert bs xs rest. induction n as [|n IH]; intros bs xs rest; cbn.
  - intros [= <- <-]. constructor.
  - intros (x & r1 & Hx & (ys & r2 & Hys & H)%bind_Ok_inv)%bind_Ok_inv. injection H as <- <-.
    constructor; [by eapply HP|by eapply IH].
Qed.

(** ** UTF-8

    [str::from_utf8]: well-formed byte sequences of the Unicode standard,
    table 3-7 (no surrogates, no overlong forms, nothing above U+10FFFF). *)

Definition in_range (lo hi : Z) (b : byte) : bool :=
  (lo <=? Z_of_byte b) && (Z_of_byte b <=? hi).

Fixpoint utf8_valid (bs : bytes) : bool :=
  let cont := in_range 128 191 in
  match bs with
  | [] => true
  | b :: t =>
      if in_range 0 127 b then utf8_valid t
      else if in_range 194 223 b then
        match t with
        | c1 :: t => cont c1 && utf8_valid t
        | _ => false
        end
      else if in_range 224 239 b then
        match t with
        | c1 :: c2 :: t =>
            (if Z_of_byte b =? 224 then in_range 160 191 c1
             else if Z_of_byte b =? 237 then in_range 128 159 c1
             else cont c1) && cont c2 && utf8_valid t
        | _ => false
        end
      else if in_range 240 244 b then
        match t with
        | c1 :: c2 :: c3 :: t =>
            (if Z_of_byte b =? 240 then in_range 144 191 c1
             else if Z_of_byte b =? 244 then in_range 128 143 c1
             else cont c1) && cont c2 && cont c3 && utf8_valid t
        | _ => false
        end
      else false
  end.

(** ASCII text as bytes, for concrete inputs. *)
Definition ascii_bytes (s : string) : bytes :=
  map (fun c => byte_of_Z (Z.of_nat (Ascii.nat_of_ascii c))) (String.list_ascii_of_string s).

(** ** Automation *)

#[export] Hint Rewrite length_put_int length_to_be @length_app @length_cons : wire.

(** Invert every integer read of a composite reader that succeeded. *)
Ltac inv_read :=
  repeat match goal with
  | H : bind (get_int _ _) _ _ = Ok _ |- _ =>
      let z := fresh "z" in let rest := fresh "rest" in let E := fresh "E" in
      let R := fresh "R" in
      apply bind_get_int_inv in H as (z & rest & E & R & H)
  end.

(** Normalise a written prefix and step a reader over the next integer. *)
Ltac read_int :=
  rewrite <- ?app_assoc;
  rewrite bind_get_put_int by (assumption || done || (unfold in_ty; cbn; done)).
