(* ===== verification/ConsumerProtocol.v ===== *)
(** * ConsumerProtocol: the consumer protocol's embedded encoding

    What a classic member's subscription and its assignment look like inside a
    [JoinGroup] or a [SyncGroup]: the layouts of [tansu-sans-io]'s
    [consumer/codec.rs], version by version, and the public types of
    [consumer.rs] they are converted from and to. *)

From S2P Require Export Bytes.

Lemma in_i32 z : 0 <= z < 2 ^ 31 -> in_ty I32 z = true.
Proof. intros Hz. change (s_range 32 z = true). unfold s_range. change (32 - 1) with 31. lia. Qed.

Lemma in_i16 z : 0 <= z < 2 ^ 15 -> in_ty I16 z = true.
Proof. intros Hz. change (s_range 16 z = true). unfold s_range. change (16 - 1) with 15. lia. Qed.

(** ** Codecs

    A writer that may refuse, the paired reader, and the values that survive. *)

Class Codec (A : Type) := {
  serialize : A -> result bytes;
  deserialize : reader A;
  good : A -> Prop;
  codec_law : forall a, good a ->
    exists bs, serialize a = Ok bs /\ forall rest, deserialize (bs ++ rest) = Ok (a, rest);
}.

Definition i32_serialize (z : Z) : result bytes := Ok (put_int I32 z).
Definition i32_deserialize : reader Z := get_int Io I32.

#[export, program] Instance i32_codec : Codec Z :=
  {| serialize := i32_serialize; deserialize := i32_deserialize; good z := in_ty I32 z = true |}.
Next Obligation.
  intros z Hz. eexists. split; [done|]. intros rest. unfold i32_deserialize.
  by rewrite get_put_int, cast_small.
Qed.

(** [String::from_utf8]. *)
Definition from_utf8 (bs : bytes) : reader bytes :=
  if utf8_valid bs then ret bs else fail (Message "from_utf8").

Definition sequence_limit : Z := 1024.
Definition string_limit : Z := 4096.

(** *** [Sequence] *)

Record Sequence (A : Type) := mkSequence { items : list A }.
Arguments mkSequence {A} items.
Arguments items {A} _.

Fixpoint serialize_all {A} `{Codec A} (l : list A) : result bytes :=
  match l with
  | [] => Ok []
  | x :: l => let! b := serialize x in let! bs := serialize_all l in Ok (b ++ bs)
  end.

Definition sequence_serialize {A} `{Codec A} (s : Sequence A) : result bytes :=
  let n := Z.of_nat (length (items s)) in
  if u_range 32 n
  then let! bs := serialize_all (items s) in Ok (put_int U32 n ++ bs)
  else Err (Message "out of range integral type conversion attempted").

Definition sequence_deserialize {A} `{Codec A} : reader (Sequence A) :=
  read! n := get_int Io I32 in
  if sequence_limit <? n then fail (Message "consumer maximum array length")
  else if n <? 0 then fail (Message "length")
  else read! l := read_n (Z.to_nat n) deserialize in ret (mkSequence l).

Lemma serialize_all_law {A} `{Codec A} (l : list A) :
  Forall good l ->
  exists bs, serialize_all l = Ok bs /\
    forall rest, read_n (length l) deserialize (bs ++ rest) = Ok (l, rest).
Proof.
  induction 1 as [|x l Hx _ (bs & E & IH)]; [by exists []|].
  destruct (codec_law x Hx) as (b & Eb & Hb). exists (b ++ bs). cbn. rewrite Eb. cbn. rewrite E.
  split; [done|]. intros rest. rewrite <- app_assoc.
  erewrite bind_Ok by apply Hb. by erewrite bind_Ok by apply IH.
Qed.

Lemma put_u32_i32 z : put_int U32 z = put_int I32 z.
Proof. done. Qed.

#[export, program] Instance sequence_codec {A} `{Codec A} : Codec (Sequence A) :=
  {| serialize := sequence_serialize; deserialize := sequence_deserialize;
     good s := Z.of_nat (length (items s)) <= sequence_limit /\ Forall good (items s) |}.
Next Obligation.
  intros A C [l] [Hn Hl]. cbn in Hn, Hl. destruct (serialize_all_law l Hl) as (bs & E & Hbs).
  unfold sequence_serialize, sequence_deserialize, sequence_limit in *. cbn [items].
  assert (Hu : u_range 32 (Z.of_nat (length l)) = true) by (unfold u_range; lia).
  rewrite Hu, E. cbn [rbind]. eexists. split; [done|]. intros rest. rewrite put_u32_i32, <- app_assoc.
  rewrite bind_get_put_int by (apply in_i32; lia).
  rewrite !(proj2 (Z.ltb_ge _ _)) by lia. rewrite Nat2Z.id. by erewrite bind_Ok by apply Hbs.
Qed.

(** *** [U16String] and [NullableU16String] *)

Record U16String := mkU16String { u16_string : bytes }.

Definition u16_string_serialize (s : U16String) : result bytes :=
  let n := Z.of_nat (length (u16_string s)) in
  if u_range 16 n then Ok (put_int U16 n ++ u16_string s)
  else Err (Message "out of range integral type conversion attempted").

Definition u16_string_deserialize : reader U16String :=
  read! n := get_int Io I16 in
  if string_limit <? n then fail (Message "maximum string size")
  else read! bs := take_n Io (Z.to_nat n) in read! s := from_utf8 bs in ret (mkU16String s).

(** A [String] of at most the length that is read back. *)
Definition short_string (s : bytes) : Prop :=
  Z.of_nat (length s) <= string_limit /\ utf8_valid s = true.

Lemma take_string s rest {B} (k : bytes -> reader B) :
  short_string s ->
  (read! bs := take_n Io (Z.to_nat (Z.of_nat (length s))) in read! s := from_utf8 bs in k s) (s ++ rest)
  = k s rest.
Proof.
  intros [_ Hu]. rewrite Nat2Z.id. rewrite bind_take_n by done. unfold from_utf8. by rewrite Hu.
Qed.

#[export, program] Instance u16_string_codec : Codec U16String :=
  {| serialize := u16_string_serialize; deserialize := u16_string_deserialize;
     good s := short_string (u16_string s) |}.
Next Obligation.
  intros [s] Hs. cbn in Hs. pose proof Hs as [Hn _]. unfold u16_string_serialize, u16_string_deserialize, string_limit in *.
  cbn [u16_string]. assert (Hu : u_range 16 (Z.of_nat (length s)) = true) by (unfold u_range; lia).
  rewrite Hu. eexists. split; [done|]. intros rest. rewrite <- app_assoc. change (put_int U16) with (put_int I16).
  rewrite bind_get_put_int by (apply in_i16; lia).
  rewrite (proj2 (Z.ltb_ge _ _)) by lia. by rewrite take_string.
Qed.

Record NullableU16String := mkNullable { nullable_string : option bytes }.

Definition nullable_serialize (s : NullableU16String) : result bytes :=
  match nullable_string s with
  | Some s =>
      let n := Z.of_nat (length s) in
      if u_range 16 n then Ok (put_int U16 n ++ s)
      else Err (Message "out of range integral type conversion attempted")
  | None => Ok (put_int I16 (-1))
  end.

Definition nullable_deserialize : reader NullableU16String :=
  read! n := get_int Io I16 in
  if n =? -1 then ret (mkNullable None)
  else if string_limit <? n then fail (Message "maximum string size")
  else read! bs := take_n Io (Z.to_nat n) in
       read! s := from_utf8 bs in ret (mkNullable (Some s)).

Definition nullable_good (s : NullableU16String) : Prop :=
  match nullable_string s with Some s => short_string s | None => True end.

#[export, program] Instance nullable_codec : Codec NullableU16String :=
  {| serialize := nullable_serialize; deserialize := nullable_deserialize;
     good := nullable_good |}.
Next Obligation.
  intros [[s|]] Hs; cbn in Hs; unfold nullable_serialize, nullable_deserialize, string_limit in *; cbn [nullable_string].
  - pose proof Hs as [Hn _]. unfold string_limit in Hn.
    assert (Hu : u_range 16 (Z.of_nat (length s)) = true) by (unfold u_range; lia).
    rewrite Hu. eexists. split; [done|]. intros rest. rewrite <- app_assoc. change (put_int U16) with (put_int I16).
    rewrite bind_get_put_int by (apply in_i16; lia).
    rewrite (proj2 (Z.eqb_neq _ _)), (proj2 (Z.ltb_ge _ _)) by lia. by rewrite take_string.
  - eexists. split; [done|]. intros rest. by rewrite bind_get_put_int.
Qed.

(** *** [Octets] *)

Record Octets := mkOctets { octets : option bytes }.

Definition octets_serialize (o : Octets) : result bytes :=
  match octets o with
  | Some bs =>
      let n := Z.of_nat (length bs) in
      if u_range 32 n then Ok (put_int U32 n ++ bs)
      else Err (Message "out of range integral type conversion attempted")
  | None => Ok (put_int I32 (-1))
  end.

Definition octets_deserialize : reader Octets :=
  read! n := get_int Io I32 in
  if n =? -1 then ret (mkOctets None)
  else read! bs := take_n Io (Z.to_nat n) in ret (mkOctets (Some bs)).

Definition octets_good (o : Octets) : Prop :=
  match octets o with Some bs => Z.of_nat (length bs) < 2 ^ 31 | None => True end.

#[export, program] Instance octets_codec : Codec Octets :=
  {| serialize := octets_serialize; deserialize := octets_deserialize;
     good := octets_good |}.
Next Obligation.
  intros [[s|]] Hs; cbn in Hs; unfold octets_serialize, octets_deserialize; cbn [octets].
  - assert (Hu : u_range 32 (Z.of_nat (length s)) = true) by (unfold u_range; lia).
    rewrite Hu. eexists. split; [done|]. intros rest. rewrite <- app_assoc, put_u32_i32.
    rewrite bind_get_put_int by (apply in_i32; lia).
    rewrite (proj2 (Z.eqb_neq _ _)) by lia. rewrite Nat2Z.id. by rewrite bind_take_n.
  - eexists. split; [done|]. intros rest. by rewrite bind_get_put_int.
Qed.

(** ** The layouts *)

Module Layout.
Record TopicPartition := mkTopicPartition { topic : U16String; partitions : Sequence Z }.

Inductive ConsumerProtocolSubscription :=
  | V0 (topics : Sequence U16String) (user_data : Octets)
  | V1 (topics : Sequence U16String) (user_data : Octets) (owned_partitions : Sequence TopicPartition)
  | V2 (topics : Sequence U16String) (user_data : Octets) (owned_partitions : Sequence TopicPartition)
       (generation_id : Z)
  | V3 (topics : Sequence U16String) (user_data : Octets) (owned_partitions : Sequence TopicPartition)
       (generation_id : Z) (rack_id : NullableU16String).

Record ConsumerProtocolAssignment := mkAssignment {
  assigned_partitions : Sequence TopicPartition;
  user_data : Octets;
}.

Record MemberAssignment := mkMemberAssignment {
  version : Z;
  assignment : ConsumerProtocolAssignment;
}.

(** [AsRef<i16>]. *)
Definition version_of (s : ConsumerProtocolSubscription) : Z :=
  match s with V0 _ _ => 0 | V1 _ _ _ => 1 | V2 _ _ _ _ => 2 | V3 _ _ _ _ _ => 3 end.
End Layout.

Definition topic_partition_serialize (t : Layout.TopicPartition) : result bytes :=
  let! a := serialize (Layout.topic t) in
  let! b := serialize (Layout.partitions t) in Ok (a ++ b).

Definition topic_partition_deserialize : reader Layout.TopicPartition :=
  read! topic := deserialize in
  read! partitions := deserialize in ret (Layout.mkTopicPartition topic partitions).

(** Write the fields a goal still has to write, and read them back. *)
Ltac codec_fields :=
  repeat match goal with
  | H : good ?x |- _ =>
      let bs := fresh "bs" in let E := fresh "E" in let R := fresh "R" in
      destruct (codec_law x H) as (bs & E & R); clear H; rewrite E; cbn [rbind]
  end;
  eexists; split; [reflexivity|]; intros rest; rewrite <- ?app_assoc;
  rewrite ?bind_get_put_int by done; cbn [Layout.version_of Z.eqb Pos.eqb];
  repeat match goal with R : forall rest, deserialize (?bs ++ rest) = _ |- context [bind _ _ (?bs ++ _)] =>
    erewrite bind_Ok by apply R end;
  reflexivity.

#[export, program] Instance topic_partition_codec : Codec Layout.TopicPartition :=
  {| serialize := topic_partition_serialize; deserialize := topic_partition_deserialize;
     good t := good (Layout.topic t) /\ good (Layout.partitions t) |}.
Next Obligation.
  intros [t p] [Ht Hp]. unfold topic_partition_serialize, topic_partition_deserialize.
  cbn [Layout.topic Layout.partitions] in *. codec_fields.
Qed.

(** [MemberMetadata]: the version, then what it carries. *)
Definition metadata_serialize (m : Layout.ConsumerProtocolSubscription) : result bytes :=
  let version := put_int I16 (Layout.version_of m) in
  match m with
  | Layout.V0 topics user_data =>
      let! a := serialize topics in let! b := serialize user_data in Ok (version ++ a ++ b)
  | Layout.V1 topics user_data owned =>
      let! a := serialize topics in let! b := serialize user_data in
      let! c := serialize owned in Ok (version ++ a ++ b ++ c)
  | Layout.V2 topics user_data owned generation =>
      let! a := serialize topics in let! b := serialize user_data in
      let! c := serialize owned in let! d := serialize generation in Ok (version ++ a ++ b ++ c ++ d)
  | Layout.V3 topics user_data owned generation rack =>
      let! a := serialize topics in let! b := serialize user_data in
      let! c := serialize owned in let! d := serialize generation in
      let! e := serialize rack in Ok (version ++ a ++ b ++ c ++ d ++ e)
  end.

Definition metadata_deserialize : reader Layout.ConsumerProtocolSubscription :=
  read! version := get_int Io I16 in
  if version =? 0 then
    read! topics := deserialize in read! user_data := deserialize in ret (Layout.V0 topics user_data)
  else if version =? 1 then
    read! topics := deserialize in read! user_data := deserialize in
    read! owned := deserialize in ret (Layout.V1 topics user_data owned)
  else if version =? 2 then
    read! topics := deserialize in read! user_data := deserialize in
    read! owned := deserialize in read! generation := deserialize in
    ret (Layout.V2 topics user_data owned generation)
  else if version =? 3 then
    read! topics := deserialize in read! user_data := deserialize in
    read! owned := deserialize in read! generation := deserialize in
    read! rack := deserialize in ret (Layout.V3 topics user_data owned generation rack)
  else fail (Message "unsupported").

Definition metadata_good (m : Layout.ConsumerProtocolSubscription) : Prop :=
  match m with
  | Layout.V0 topics user_data => good topics /\ good user_data
  | Layout.V1 topics user_data owned => good topics /\ good user_data /\ good owned
  | Layout.V2 topics user_data owned generation =>
      good topics /\ good user_data /\ good owned /\ good generation
  | Layout.V3 topics user_data owned generation rack =>
      good topics /\ good user_data /\ good owned /\ good generation /\ good rack
  end.

#[export, program] Instance metadata_codec : Codec Layout.ConsumerProtocolSubscription :=
  {| serialize := metadata_serialize; deserialize := metadata_deserialize; good := metadata_good |}.
Next Obligation.
  intros [t u|t u o|t u o g|t u o g r] H; unfold metadata_good in H;
    unfold metadata_serialize, metadata_deserialize;
    repeat match type of H with _ /\ _ => let H1 := fresh in destruct H as [H1 H] end; codec_fields.
Qed.

Definition assignment_serialize (m : Layout.MemberAssignment) : result bytes :=
  let! a := serialize (Layout.assigned_partitions (Layout.assignment m)) in
  let! b := serialize (Layout.user_data (Layout.assignment m)) in
  Ok (put_int I16 (Layout.version m) ++ a ++ b).

Definition assignment_deserialize : reader Layout.MemberAssignment :=
  read! version := get_int Io I16 in
  read! assigned := deserialize in
  read! user_data := deserialize in
  ret (Layout.mkMemberAssignment version (Layout.mkAssignment assigned user_data)).

#[export, program] Instance assignment_codec : Codec Layout.MemberAssignment :=
  {| serialize := assignment_serialize; deserialize := assignment_deserialize;
     good m := in_ty I16 (Layout.version m) = true /\
       good (Layout.assigned_partitions (Layout.assignment m)) /\
       good (Layout.user_data (Layout.assignment m)) |}.
Next Obligation.
  intros [v [a u]] (Hv & Ha & Hu). unfold assignment_serialize, assignment_deserialize.
  cbn [Layout.version Layout.assignment Layout.assigned_partitions Layout.user_data] in *. codec_fields.
Qed.

(** ** The public types *)

Definition CONSUMER : bytes := ascii_bytes "consumer".

Record TopicPartition := mkTopicPartition { topic : bytes; partitions : list Z }.

Module Subscription.
Record ConsumerProtocolSubscription := mk {
  topics : list bytes;
  user_data : option bytes;
  owned_partitions : option (list TopicPartition);
  generation_id : option Z;
  rack_id : option bytes;
}.
End Subscription.
Export Subscription (ConsumerProtocolSubscription).

Module Metadata.
Record MemberMetadata := mk { version : Z; subscription : ConsumerProtocolSubscription }.
End Metadata.
Export Metadata (MemberMetadata).

Module Assignment.
Record ConsumerProtocolAssignment := mk {
  assigned_partitions : list TopicPartition;
  user_data : option bytes;
}.
End Assignment.
Export Assignment (ConsumerProtocolAssignment).

Record MemberAssignment := mkMemberAssignment {
  assignment_version : Z;
  assignment : ConsumerProtocolAssignment;
}.

Definition to_topic_partition (t : TopicPartition) : Layout.TopicPartition :=
  Layout.mkTopicPartition (mkU16String (topic t)) (mkSequence (partitions t)).
Definition of_topic_partition (t : Layout.TopicPartition) : TopicPartition :=
  mkTopicPartition (u16_string (Layout.topic t)) (items (Layout.partitions t)).

(** [codec::MemberMetadata::try_from]. *)
Definition metadata_try_from (m : MemberMetadata) : result Layout.ConsumerProtocolSubscription :=
  let s := Metadata.subscription m in
  let topics := mkSequence (map mkU16String (Subscription.topics s)) in
  let user_data := mkOctets (Subscription.user_data s) in
  let owned := mkSequence (map to_topic_partition (default [] (Subscription.owned_partitions s))) in
  let generation := default (-1) (Subscription.generation_id s) in
  let rack := mkNullable (Subscription.rack_id s) in
  let version := Metadata.version m in
  if version =? 0 then Ok (Layout.V0 topics user_data)
  else if version =? 1 then Ok (Layout.V1 topics user_data owned)
  else if version =? 2 then Ok (Layout.V2 topics user_data owned generation)
  else if version =? 3 then Ok (Layout.V3 topics user_data owned generation rack)
  else Err (Message "InvalidConsumerProtocolSubscriptionVersion").

(** [From<ConsumerProtocolSubscription>]. *)
Definition subscription_from (s : Layout.ConsumerProtocolSubscription) : ConsumerProtocolSubscription :=
  let strings l := map u16_string (items l) in
  let owned l := Some (map of_topic_partition (items l)) in
  match s with
  | Layout.V0 topics user_data =>
      Subscription.mk (strings topics) (octets user_data) None None None
  | Layout.V1 topics user_data o =>
      Subscription.mk (strings topics) (octets user_data) (owned o) None None
  | Layout.V2 topics user_data o generation =>
      Subscription.mk (strings topics) (octets user_data) (owned o) (Some generation) None
  | Layout.V3 topics user_data o generation rack =>
      Subscription.mk (strings topics) (octets user_data) (owned o) (Some generation)
        (nullable_string rack)
  end.

Definition metadata_from (m : Layout.ConsumerProtocolSubscription) : MemberMetadata :=
  Metadata.mk (Layout.version_of m) (subscription_from m).

(** [Bytes::try_from(&MemberMetadata)] and [MemberMetadata::try_from(Bytes)]; what
    follows the encoding is not looked at. *)
Definition metadata_encode (m : MemberMetadata) : result bytes :=
  let! l := metadata_try_from m in metadata_serialize l.
Definition metadata_decode (bs : bytes) : result MemberMetadata :=
  let! (m, _) := metadata_deserialize bs in Ok (metadata_from m).

Definition assignment_into (m : MemberAssignment) : Layout.MemberAssignment :=
  Layout.mkMemberAssignment (assignment_version m)
    (Layout.mkAssignment
       (mkSequence (map to_topic_partition (Assignment.assigned_partitions (assignment m))))
       (mkOctets (Assignment.user_data (assignment m)))).
Definition assignment_from (m : Layout.MemberAssignment) : MemberAssignment :=
  mkMemberAssignment (Layout.version m)
    (Assignment.mk (map of_topic_partition (items (Layout.assigned_partitions (Layout.assignment m))))
       (octets (Layout.user_data (Layout.assignment m)))).

Definition assignment_encode (m : MemberAssignment) : result bytes :=
  assignment_serialize (assignment_into m).
Definition assignment_decode (bs : bytes) : result MemberAssignment :=
  let! (m, _) := assignment_deserialize bs in Ok (assignment_from m).

(** ** Round trips *)

(** What a decoder accepts: at most 1024 items in a list, 4096 bytes in a string. *)
Definition small_topic_partition (t : TopicPartition) : Prop :=
  short_string (topic t) /\ Z.of_nat (length (partitions t)) <= sequence_limit /\
  Forall (fun p => in_ty I32 p = true) (partitions t).

Definition small_partitions (l : list TopicPartition) : Prop :=
  Z.of_nat (length l) <= sequence_limit /\ Forall small_topic_partition l.

Record small_subscription (s : ConsumerProtocolSubscription) : Prop := mkSmall {
  small_topics : Z.of_nat (length (Subscription.topics s)) <= sequence_limit /\
    Forall short_string (Subscription.topics s);
  small_user_data bs : Subscription.user_data s = Some bs -> Z.of_nat (length bs) < 2 ^ 31;
  small_owned : small_partitions (default [] (Subscription.owned_partitions s));
  small_generation g : Subscription.generation_id s = Some g -> in_ty I32 g = true;
  small_rack r : Subscription.rack_id s = Some r -> short_string r;
}.

(** What a version carries of a subscription. *)
Definition carried (version : Z) (s : ConsumerProtocolSubscription) : ConsumerProtocolSubscription :=
  Subscription.mk (Subscription.topics s) (Subscription.user_data s)
    (if 1 <=? version then Some (default [] (Subscription.owned_partitions s)) else None)
    (if 2 <=? version then Some (default (-1) (Subscription.generation_id s)) else None)
    (if 3 <=? version then Subscription.rack_id s else None).

Lemma of_to_topic_partitions l : map of_topic_partition (map to_topic_partition l) = l.
Proof. rewrite map_map. rewrite <- (map_id l) at 2. apply map_ext. by intros [t p]. Qed.

Lemma strings_back l : map u16_string (map mkU16String l) = l.
Proof. by rewrite map_map, map_id. Qed.

Lemma good_partitions l : small_partitions l -> good (mkSequence (map to_topic_partition l)).
Proof.
  intros [Hn Hl]. split; cbn [items]; [by rewrite length_map|]. apply Forall_map.
  eapply Forall_impl; [exact Hl|]. intros [t p] (H1 & H2 & H3). by split; [|split].
Qed.

Lemma good_metadata version s :
  0 <= version <= 3 -> small_subscription s ->
  exists l, metadata_try_from (Metadata.mk version s) = Ok l /\ metadata_good l /\
    metadata_from l = Metadata.mk version (carried version s).
Proof.
  intros Hv [[Ht1 Ht2] Hu Ho Hg Hr].
  assert (G1 : good (mkSequence (map mkU16String (Subscription.topics s)))).
  { split; cbn [items]; [by rewrite length_map|]. by apply Forall_map. }
  assert (G2 : good (mkOctets (Subscription.user_data s))).
  { cbn. unfold octets_good. cbn. destruct (Subscription.user_data s); [by apply Hu|done]. }
  pose proof (good_partitions _ Ho) as G3.
  assert (G4 : good (default (-1) (Subscription.generation_id s))).
  { destruct (Subscription.generation_id s); [by apply Hg|done]. }
  assert (G5 : good (mkNullable (Subscription.rack_id s))).
  { cbn. unfold nullable_good. cbn. destruct (Subscription.rack_id s); [by apply Hr|done]. }
  unfold metadata_try_from, metadata_from, carried. cbn [Metadata.version Metadata.subscription].
  assert (version = 0 \/ version = 1 \/ version = 2 \/ version = 3) as [-> | [-> | [-> | ->]]] by lia;
    eexists; (split; [reflexivity|]); unfold metadata_good; (split; [tauto|]);
    cbn; rewrite ?strings_back, ?of_to_topic_partitions; done.
Qed.

(** A list of [n] items of the same size is written whatever [n]. *)
Lemma serialize_all_i32 (l : list Z) : exists bs, serialize_all l = Ok bs.
Proof. induction l as [|z l [bs IH]]; [by eexists|]. cbn. rewrite IH. by eexists. Qed.

Lemma bind_Err {A B} (m : reader A) (f : A -> reader B) bs e :
  m bs = Err e -> bind m f bs = Err e.
Proof. unfold bind. by intros ->. Qed.

Lemma long_sequence_refused {A} `{Codec A} n rest :
  1024 < n < 2 ^ 31 ->
  deserialize (A := Sequence A) (put_int I32 n ++ rest) = Err (Message "consumer maximum array length").
Proof.
  intros Hn. cbn [deserialize sequence_codec]. unfold sequence_deserialize, sequence_limit.
  rewrite bind_get_put_int by (apply in_i32; lia). by rewrite (proj2 (Z.ltb_lt _ _)) by lia.
Qed.

(** ** Properties *)

(** A subscription within the decoder's limits survives the trip through
    its bytes at every version from 0 to 3, whatever follows it, with what its
    version carries: no owned partitions before version 1, no generation before
    2, no rack before 3, and an absent list or generation as empty or -1. *)
Theorem subscription_roundtrip version s :
  0 <= version <= 3 -> small_subscription s ->
  exists bs, metadata_encode (Metadata.mk version s) = Ok bs /\
    forall rest, metadata_decode (bs ++ rest) = Ok (Metadata.mk version (carried version s)).
Proof.
  intros Hv Hs. destruct (good_metadata version s Hv Hs) as (l & El & Hl & Eb).
  destruct (@codec_law _ metadata_codec l Hl) as (bs & E & Hr). exists bs. unfold metadata_encode, metadata_decode.
  rewrite El. split; [exact E|]. intros rest. change metadata_deserialize with (deserialize (A := Layout.ConsumerProtocolSubscription)).
  rewrite Hr. cbn [rbind]. by rewrite Eb.
Qed.

(** An assignment within the decoder's limits survives the trip through
    its bytes, at any version. *)
Theorem assignment_roundtrip version assigned user_data :
  in_ty I16 version = true -> small_partitions assigned ->
  (forall bs, user_data = Some bs -> Z.of_nat (length bs) < 2 ^ 31) ->
  exists bs, assignment_encode (mkMemberAssignment version (Assignment.mk assigned user_data)) = Ok bs /\
    forall rest, assignment_decode (bs ++ rest)
      = Ok (mkMemberAssignment version (Assignment.mk assigned user_data)).
Proof.
  intros Hv Ha Hu. set (m := mkMemberAssignment version (Assignment.mk assigned user_data)).
  assert (Hg : good (assignment_into m)).
  { split; [done|]. split; [by apply good_partitions|]. destruct user_data as [bs|]; [by apply Hu|done]. }
  destruct (codec_law _ Hg) as (bs & E & Hr). exists bs. unfold assignment_encode, assignment_decode.
  split; [exact E|]. intros rest. change assignment_deserialize with (deserialize (A := Layout.MemberAssignment)).
  rewrite Hr. cbn [rbind]. unfold assignment_from, m. cbn. by rewrite of_to_topic_partitions.
Qed.

(** An assignment that gives a member more than 1024 partitions of a topic
    is written without complaint, and refused by the decoder. *)
Theorem long_assignment_refused version t ps user_data :
  in_ty I16 version = true -> short_string t -> 1024 < Z.of_nat (length ps) < 2 ^ 31 ->
  (forall bs, user_data = Some bs -> Z.of_nat (length bs) < 2 ^ 31) ->
  exists bs,
    assignment_encode (mkMemberAssignment version (Assignment.mk [mkTopicPartition t ps] user_data)) = Ok bs /\
    forall rest, assignment_decode (bs ++ rest) = Err (Message "consumer maximum array length").
Proof.
  intros Hv Ht Hn Hu.
  destruct (@codec_law _ u16_string_codec (mkU16String t) Ht) as (bt & Et & Rt).
  destruct (serialize_all_i32 ps) as [bp Ep].
  assert (Hd : good (mkOctets user_data)).
  { cbn. unfold octets_good. cbn. destruct user_data; [by apply Hu|done]. }
  destruct (codec_law _ Hd) as (bu & Eu & _).
  assert (Hps : u_range 32 (Z.of_nat (length ps)) = true) by (unfold u_range; lia).
  exists (put_int I16 version ++ put_int I32 1 ++ bt ++ put_int I32 (Z.of_nat (length ps)) ++ bp ++ bu).
  split.
  - unfold assignment_encode, assignment_serialize, assignment_into. cbn [Layout.version Layout.assignment
      Layout.assigned_partitions Layout.user_data assignment assignment_version Assignment.assigned_partitions
      Assignment.user_data].
    cbn [serialize sequence_codec]. unfold sequence_serialize at 1. cbn [items map length].
    cbn [serialize_all serialize topic_partition_codec]. unfold topic_partition_serialize, to_topic_partition.
    cbn [Layout.topic Layout.partitions topic partitions]. rewrite Et. cbn [rbind].
    cbn [serialize sequence_codec]. unfold sequence_serialize. cbn [items]. rewrite Hps, Ep. cbn [rbind].
    rewrite Eu, app_nil_r. change (u_range 32 (Z.of_nat 1)) with true. cbn [rbind].
    by rewrite !put_u32_i32, <- !app_assoc.
  - intros rest. rewrite <- !app_assoc.
    apply (long_sequence_refused (A := Z) _ (bp ++ bu ++ rest)) in Hn.
    assert (H1 : deserialize (A := Layout.TopicPartition)
      (bt ++ put_int I32 (Z.of_nat (length ps)) ++ bp ++ bu ++ rest) = Err (Message "consumer maximum array length")).
    { cbn [deserialize topic_partition_codec]. unfold topic_partition_deserialize.
      erewrite bind_Ok by apply Rt. by apply bind_Err. }
    unfold assignment_decode, assignment_deserialize. rewrite bind_get_put_int by done.
    erewrite bind_Err; [done|]. cbn [deserialize sequence_codec]. unfold sequence_deserialize.
    rewrite bind_get_put_int by done. cbn [Z.ltb Z.compare]. apply bind_Err, bind_Err, H1.
Qed.

Definition sample_subscription : ConsumerProtocolSubscription :=
  Subscription.mk [ascii_bytes "t"; ascii_bytes "u"] (Some []) 
    (Some [mkTopicPartition (ascii_bytes "t") [0; 2]]) (Some 7) (Some (ascii_bytes "r1")).

Lemma subscription_roundtrip_witness :
  exists bs, metadata_encode (Metadata.mk 1 sample_subscription) = Ok bs /\
    forall rest, metadata_decode (bs ++ rest)
      = Ok (Metadata.mk 1 (Subscription.mk [ascii_bytes "t"; ascii_bytes "u"] (Some [])
              (Some [mkTopicPartition (ascii_bytes "t") [0; 2]]) None None)).
Proof.
  apply (subscription_roundtrip 1 sample_subscription); [lia|].
  split.
  - split; [by vm_compute|]. repeat apply Forall_cons_2; try apply Forall_nil_2; split; by vm_compute.
  - by intros ? [= <-].
  - split; [by vm_compute|]. apply Forall_cons_2; [|apply Forall_nil_2]. split; [split; by vm_compute|].
    split; [by vm_compute|]. repeat apply Forall_cons_2; try apply Forall_nil_2; by vm_compute.
  - by intros ? [= <-].
  - intros ? [= <-]. split; by vm_compute.
Defined.

Lemma assignment_roundtrip_witness :
  exists bs, assignment_encode (mkMemberAssignment 3
      (Assignment.mk [mkTopicPartition (ascii_bytes "t") [0; 2]] None)) = Ok bs /\
    forall rest, assignment_decode (bs ++ rest)
      = Ok (mkMemberAssignment 3 (Assignment.mk [mkTopicPartition (ascii_bytes "t") [0; 2]] None)).
Proof.
  apply (assignment_roundtrip 3 [mkTopicPartition (ascii_bytes "t") [0; 2]] None); [done| |done].
  split; [by vm_compute|]. apply Forall_cons_2; [|apply Forall_nil_2]. split; [split; by vm_compute|].
  split; [by vm_compute|]. repeat apply Forall_cons_2; try apply Forall_nil_2; by vm_compute.
Defined.

Lemma long_assignment_refused_witness :
  exists bs, assignment_encode (mkMemberAssignment 3
      (Assignment.mk [mkTopicPartition (ascii_bytes "t") (map Z.of_nat (seq 0 1025))] None)) = Ok bs /\
    forall rest, assignment_decode (bs ++ rest) = Err (Message "consumer maximum array length").
Proof.
  apply (long_assignment_refused 3 (ascii_bytes "t") (map Z.of_nat (seq 0 1025)) None); [done| | |done].
  - split; by vm_compute.
  - split; by vm_compute.
Defined.
