(* ===== verification/Ordered.v ===== *)
(** * Ordered: iteration in key order

    [BTreeMap] and [BTreeSet] iterate in the order of their keys.  [KeyOrder]
    is what the code needs of a key type ([Ord]); [entries_of] and [set_list]
    list a finite map or set the way a loop over it would. *)

From S2P Require Export Bytes.

Class KeyOrder (K : Type) := {
  key_cmp : K -> K -> comparison;
  key_cmp_eq a b : key_cmp a b = Eq <-> a = b;
  key_cmp_sym a b : key_cmp b a = CompOpp (key_cmp a b);
  key_cmp_trans a b c : key_cmp a b = Lt -> key_cmp b c = Lt -> key_cmp a c = Lt;
}.

Definition key_le {K} `{KeyOrder K} (a b : K) : Prop := key_cmp a b <> Gt.
Definition key_lt {K} `{KeyOrder K} (a b : K) : Prop := key_cmp a b = Lt.

#[export] Instance key_le_dec {K} `{KeyOrder K} : RelDecision (@key_le K _).
Proof. intros a b. unfold key_le. apply _. Defined.

Section order.
Context {K : Type} `{KeyOrder K}.

Lemma key_le_lt_eq (a b : K) : key_le a b <-> key_lt a b \/ a = b.
Proof.
  unfold key_le, key_lt. rewrite <- key_cmp_eq. destruct (key_cmp a b); naive_solver.
Qed.

Lemma key_lt_irrefl (a : K) : ~ key_lt a a.
Proof. unfold key_lt. assert (key_cmp a a = Eq) as -> by (by apply key_cmp_eq). done. Qed.

#[export] Instance key_lt_trans : Transitive (@key_lt K _).
Proof. intros a b c. apply key_cmp_trans. Qed.

#[export] Instance key_le_trans : Transitive (@key_le K _).
Proof.
  intros a b c. rewrite !key_le_lt_eq. intros [H1| ->] [H2| ->]; auto. left. by etransitivity.
Qed.

#[export] Instance key_le_total : Total (@key_le K _).
Proof.
  intros a b. unfold key_le. rewrite (key_cmp_sym a b). destruct (key_cmp a b); cbn; auto.
Qed.

#[export] Instance key_le_antisymm : AntiSymm (=) (@key_le K _).
Proof.
  intros a b. rewrite !key_le_lt_eq. intros [H1|H1] [H2|H2]; auto.
  exfalso. apply (key_lt_irrefl a). by etransitivity.
Qed.
End order.

(** ** Instances *)

#[export, program] Instance Z_order : KeyOrder Z := { key_cmp := Z.compare }.
Next Obligation. intros. apply Z.compare_eq_iff. Qed.
Next Obligation. intros. by rewrite Z.compare_antisym. Qed.
Next Obligation. intros a b c. rewrite !Z.compare_lt_iff. lia. Qed.

(** [str] compares by bytes. *)
Fixpoint bytes_cmp (a b : bytes) : comparison :=
  match a, b with
  | [], [] => Eq
  | [], _ => Lt
  | _, [] => Gt
  | x :: a, y :: b =>
      match Z.compare (Z_of_byte x) (Z_of_byte y) with Eq => bytes_cmp a b | c => c end
  end.

Lemma bytes_cmp_eq a b : bytes_cmp a b = Eq <-> a = b.
Proof.
  revert b. induction a as [|x a IH]; intros [|y b]; cbn; try done.
  destruct (Z.compare_spec (Z_of_byte x) (Z_of_byte y)) as [E|E|E].
  - apply Z_of_byte_inj in E as ->. rewrite IH. split; [by intros ->|by intros [= ->]].
  - split; [done|]. intros [= -> _]. lia.
  - split; [done|]. intros [= -> _]. lia.
Qed.

Lemma bytes_cmp_sym a b : bytes_cmp b a = CompOpp (bytes_cmp a b).
Proof.
  revert b. induction a as [|x a IH]; intros [|y b]; cbn; try done.
  rewrite (Z.compare_antisym (Z_of_byte x)). destruct (Z.compare _ _); cbn; done || apply IH.
Qed.

Lemma bytes_cmp_trans a b c : bytes_cmp a b = Lt -> bytes_cmp b c = Lt -> bytes_cmp a c = Lt.
Proof.
  revert b c. induction a as [|x a IH]; intros [|y b] [|z c]; cbn; try done.
  destruct (Z.compare_spec (Z_of_byte x) (Z_of_byte y)), (Z.compare_spec (Z_of_byte y) (Z_of_byte z)),
    (Z.compare_spec (Z_of_byte x) (Z_of_byte z)); try done; try lia. apply IH.
Qed.

#[export, program] Instance bytes_order : KeyOrder bytes := { key_cmp := bytes_cmp }.
Next Obligation. exact bytes_cmp_eq. Qed.
Next Obligation. exact bytes_cmp_sym. Qed.
Next Obligation. exact bytes_cmp_trans. Qed.

(** Tuples compare lexicographically. *)
Definition pair_cmp {A B} `{KeyOrder A, KeyOrder B} (x y : A * B) : comparison :=
  match key_cmp x.1 y.1 with Eq => key_cmp x.2 y.2 | c => c end.

#[export, program] Instance pair_order {A B} `{KeyOrder A, KeyOrder B} : KeyOrder (A * B) :=
  { key_cmp := pair_cmp }.
Next Obligation.
  intros A B ?? [a b] [a' b']. unfold pair_cmp. cbn. destruct (key_cmp a a') eqn:E.
  - apply key_cmp_eq in E as ->. rewrite key_cmp_eq. naive_solver.
  - split; [done|]. intros [= -> _]. by apply key_lt_irrefl in E.
  - split; [done|]. intros [= -> _]. rewrite (proj2 (key_cmp_eq a' a') eq_refl) in E. done.
Qed.
Next Obligation.
  intros A B ?? [a b] [a' b']. unfold pair_cmp. cbn. rewrite (key_cmp_sym a a').
  destruct (key_cmp a a'); cbn; [apply key_cmp_sym|done|done].
Qed.
Next Obligation.
  intros A B ?? [a b] [a' b'] [a'' b'']. unfold pair_cmp. cbn.
  destruct (key_cmp a a') eqn:E1, (key_cmp a' a'') eqn:E2; try done.
  - apply key_cmp_eq in E1 as ->, E2 as ->. rewrite (proj2 (key_cmp_eq _ _) eq_refl). apply key_cmp_trans.
  - apply key_cmp_eq in E1 as ->. by rewrite E2.
  - apply key_cmp_eq in E2 as ->. by rewrite E1.
  - by rewrite (key_cmp_trans _ _ _ E1 E2).
Qed.

(** ** Iteration *)

Section iteration.
Context {K : Type} `{KeyOrder K, Countable K}.

Definition entry_le {V} (a b : K * V) : Prop := key_le a.1 b.1.

#[export] Instance entry_le_dec {V} : RelDecision (@entry_le V).
Proof. intros a b. unfold entry_le. apply _. Defined.
#[export] Instance entry_le_trans {V} : Transitive (@entry_le V).
Proof. intros a b c. apply key_le_trans. Qed.
#[export] Instance entry_le_total {V} : Total (@entry_le V).
Proof. intros a b. apply key_le_total. Qed.

Definition entries_of {V} (m : gmap K V) : list (K * V) := merge_sort entry_le (map_to_list m).

Definition set_list (s : gset K) : list K := merge_sort key_le (elements s).

Lemma entries_of_perm {V} (m : gmap K V) : entries_of m ≡ₚ map_to_list m.
Proof. apply merge_sort_Permutation. Qed.

Lemma elem_of_entries {V} (m : gmap K V) k v : (k, v) ∈ entries_of m <-> m !! k = Some v.
Proof. by rewrite entries_of_perm, elem_of_map_to_list. Qed.

Lemma entries_of_NoDup {V} (m : gmap K V) : NoDup (entries_of m).*1.
Proof. rewrite entries_of_perm. apply NoDup_fst_map_to_list. Qed.

Lemma entries_of_sorted {V} (m : gmap K V) : StronglySorted entry_le (entries_of m).
Proof. apply StronglySorted_merge_sort; apply _. Qed.

Lemma entries_of_keys {V} (m : gmap K V) k : k ∈ (entries_of m).*1 <-> k ∈ dom m.
Proof.
  rewrite entries_of_perm, elem_of_dom, list_elem_of_fmap. split.
  - intros ([k' v] & -> & Hk). apply elem_of_map_to_list in Hk. by exists v.
  - intros [v Hv]. exists (k, v). by rewrite elem_of_map_to_list.
Qed.

Lemma elem_of_set_list (s : gset K) k : k ∈ set_list s <-> k ∈ s.
Proof. unfold set_list. by rewrite merge_sort_Permutation, elem_of_elements. Qed.

Lemma set_list_NoDup (s : gset K) : NoDup (set_list s).
Proof. unfold set_list. rewrite merge_sort_Permutation. apply NoDup_elements. Qed.
End iteration.

(** ** Strings *)

(** [str::starts_with] *)
Fixpoint starts_with (name prefix : bytes) : bool :=
  match prefix, name with
  | [], _ => true
  | p :: prefix, n :: name => bool_decide (p = n) && starts_with name prefix
  | _ :: _, [] => false
  end.

Lemma starts_with_spec name prefix : starts_with name prefix = true <-> prefix `prefix_of` name.
Proof.
  revert name. induction prefix as [|p prefix IH]; intros [|n name]; cbn.
  - split; [intros _; apply prefix_nil|done].
  - split; [intros _; apply prefix_nil|done].
  - split; [done|]. intros [k Hk]. done.
  - rewrite andb_true_iff, bool_decide_eq_true, IH. split.
    + intros [-> H]. by apply prefix_cons.
    + intros H. split; [by eapply prefix_cons_inv_1|by eapply prefix_cons_inv_2].
Qed.
