(* ===== verification/Assignor.v ===== *)
(** * Assignor: the server-side assignors of consumer groups

    [tansu-broker/src/coordinator/group/assignor.rs]: [range] and [uniform], which
    decide the target assignment of every member of a KIP-848 group, and
    [flatten] and [grouped] of [tansu-storage/src/consumer_group.rs].

    A member id is its bytes, a topic id a number, a partition count or index an
    [i32] kept in [Z]; a load is a [usize]. *)

From S2P Require Export Ordered.

(** ** Partitions by topic *)

Abbreviation Partitions := (gmap Z (gset Z)).

Definition flatten (partitions : Partitions) : gset (Z * Z) :=
  list_to_set (flat_map (fun '(topic_id, ps) => map (pair topic_id) (elements ps))
                 (map_to_list partitions)).

(** [entry(topic_id).or_default().insert(partition)]. *)
Definition insert_partition (topic_id partition : Z) (g : Partitions) : Partitions :=
  <[topic_id := {[partition]} ∪ default ∅ (g !! topic_id)]> g.

Definition grouped (pairs : list (Z * Z)) : Partitions :=
  fold_left (fun g '(topic_id, partition) => insert_partition topic_id partition g) pairs ∅.

(** ** Members *)

Record MemberSpec := mkSpec {
  subscribed : gset Z;
  previous : Partitions;
}.

Abbreviation Members := (gmap bytes MemberSpec).
Abbreviation Topics := (gmap Z Z).

Definition UNIFORM : bytes := ascii_bytes "uniform".
Definition RANGE : bytes := ascii_bytes "range".

Definition is_supported (name : bytes) : bool := bool_decide (name = UNIFORM) || bool_decide (name = RANGE).

Definition subscribers (members : Members) (topic_id : Z) : list bytes :=
  map fst (filter (fun m => topic_id ∈ subscribed m.2) (entries_of members)).

(** Every member, with nothing. *)
Definition unassigned (members : Members) : gmap bytes Partitions := (fun _ => ∅) <$> members.

(** ** [range] *)

(** [for (index, member_id) in (0..).zip(subscribers)]. *)
Fixpoint range_topic (topic_id quota extra index next : Z) (subs : list bytes)
    (assigned : gmap bytes Partitions) : gmap bytes Partitions :=
  match subs with
  | [] => assigned
  | member_id :: subs =>
      let width := quota + (if index <? extra then 1 else 0) in
      let assigned :=
        if 0 <? width then
          match assigned !! member_id with
          | Some member =>
              <[member_id := <[topic_id := default ∅ (member !! topic_id)
                                           ∪ list_to_set (seqZ next width)]> member]> assigned
          | None => assigned
          end
        else assigned in
      range_topic topic_id quota extra (index + 1) (next + width) subs assigned
  end.

Definition range_step (members : Members) (assigned : gmap bytes Partitions) (topic : Z * Z)
    : gmap bytes Partitions :=
  let '(topic_id, partitions) := topic in
  let subs := subscribers members topic_id in
  let count := Z.of_nat (length subs) in
  if negb (in_i32 count) then assigned
  else if count =? 0 then assigned
  else range_topic topic_id (Z.quot partitions count) (Z.rem partitions count) 0 0 subs assigned.

Definition range (members : Members) (topics : Topics) : gmap bytes Partitions :=
  fold_left (range_step members) (entries_of topics) (unassigned members).

(** ** [uniform] *)

Abbreviation Owner := (gmap (Z * Z) bytes).
Abbreviation Load := (gmap bytes Z).

(** [owner.entry(..).or_insert_with(..)]. *)
Definition or_insert (owner : Owner) (key : Z * Z) (member_id : bytes) : Owner :=
  match owner !! key with Some _ => owner | None => <[key := member_id]> owner end.

(** What one member keeps of its previous target. *)
Definition keep_member (topics : Topics) (owner : Owner) (member : bytes * MemberSpec) : Owner :=
  let '(member_id, spec) := member in
  fold_left (fun owner '(topic_id, partitions) =>
    match topics !! topic_id with
    | None => owner
    | Some count =>
        if bool_decide (topic_id ∉ subscribed spec) then owner
        else fold_left (fun owner partition => or_insert owner (topic_id, partition) member_id)
               (filter (fun partition => partition < count) (set_list partitions)) owner
    end) (entries_of (previous spec)) owner.

Definition keep_previous (members : Members) (topics : Topics) : Owner :=
  fold_left (keep_member topics) (entries_of members) ∅.

Definition load_of (load : Load) (member_id : bytes) : Z := default 0 (load !! member_id).

(** [*load.entry(member_id).or_default() += d]. *)
Definition add_load (load : Load) (member_id : bytes) (d : Z) : Load :=
  <[member_id := load_of load member_id + d]> load.

Definition count_owner (load : Load) (member_id : bytes) : Load :=
  match load !! member_id with Some count => <[member_id := count + 1]> load | None => load end.

Definition initial_load (members : Members) (owner : Owner) : Load :=
  fold_left count_owner (map snd (entries_of owner)) ((fun _ => 0) <$> members).

(** [Iterator::min_by_key]: the first of the least. *)
Fixpoint min_by_key {A} (key : A -> Z * bytes) (best : A) (l : list A) : A :=
  match l with
  | [] => best
  | x :: l => min_by_key key (match key_cmp (key best) (key x) with Gt => x | _ => best end) l
  end.

Definition least_loaded (members : Members) (load : Load) (topic_id : Z) : option bytes :=
  match subscribers members topic_id with
  | [] => None
  | m :: ms => Some (min_by_key (fun m => (load_of load m, m)) m ms)
  end.

Definition fill_partition (members : Members) (topic_id : Z) (s : Owner * Load) (partition : Z)
    : Owner * Load :=
  let '(owner, load) := s in
  match owner !! (topic_id, partition) with
  | Some _ => (owner, load)
  | None =>
      match least_loaded members load topic_id with
      | Some member_id =>
          (<[(topic_id, partition) := member_id]> owner, add_load load member_id 1)
      | None => (owner, load)
      end
  end.

Definition fill (members : Members) (topics : Topics) (s : Owner * Load) : Owner * Load :=
  fold_left (fun s '(topic_id, count) =>
    fold_left (fill_partition members topic_id) (seqZ 0 count) s) (entries_of topics) s.

Record Move := mkMove { gap : Z; moved : Z * Z; from : bytes; to : bytes }.

Definition improve (members : Members) (load : Load) (best : option Move)
    (owned : (Z * Z) * bytes) : option Move :=
  let '(partition, from) := owned in
  match least_loaded members load partition.1 with
  | None => best
  | Some to =>
      let gap_ := Z.max 0 (load_of load from - load_of load to) in
      if (2 <=? gap_) && match best with None => true | Some held => gap held <? gap_ end
      then Some (mkMove gap_ partition from to) else best
  end.

Definition improving_move (members : Members) (owner : Owner) (load : Load) : option Move :=
  fold_left (improve members load) (entries_of owner) None.

Definition apply_move (s : Owner * Load) (m : Move) : Owner * Load :=
  let '(owner, load) := s in
  (<[moved m := to m]> owner, add_load (add_load load (from m) (-1)) (to m) 1).

(** [while let Some(..) = improving_move(..)], for at most [fuel] moves. *)
Fixpoint balance (fuel : nat) (members : Members) (s : Owner * Load) : Owner * Load :=
  match fuel with
  | O => s
  | S fuel =>
      match improving_move members s.1 s.2 with
      | None => s
      | Some m => balance fuel members (apply_move s m)
      end
  end.

(** The sum of the squared loads, which every move lowers. *)
Definition energy (load : Load) : Z := foldr (fun p e => p.2 * p.2 + e) 0 (map_to_list load).

Definition collect (members : Members) (owner : Owner) : gmap bytes Partitions :=
  fold_left (fun assigned '((topic_id, partition), member_id) =>
      <[member_id := insert_partition topic_id partition (default ∅ (assigned !! member_id))]> assigned)
    (entries_of owner) (unassigned members).

(** The owners before the balancing loop. *)
Definition filled (members : Members) (topics : Topics) : Owner * Load :=
  let owner := keep_previous members topics in
  fill members topics (owner, initial_load members owner).

(** The loop is given as many moves as it can make ([uniform_balanced]). *)
Definition balanced_owner (members : Members) (topics : Topics) : Owner :=
  let s := filled members topics in (balance (Z.to_nat (energy s.2)) members s).1.

Definition uniform (members : Members) (topics : Topics) : gmap bytes Partitions :=
  collect members (balanced_owner members topics).

Definition assign (assignor : bytes) (members : Members) (topics : Topics)
    : gmap bytes Partitions :=
  if bool_decide (assignor = RANGE) then range members topics else uniform members topics.

(** ** Partition sets *)

Lemma elem_of_flatten (g : Partitions) t p :
  (t, p) ∈ flatten g <-> exists ps, g !! t = Some ps /\ p ∈ ps.
Proof.
  unfold flatten. rewrite elem_of_list_to_set, list_elem_of_In, in_flat_map. split.
  - intros ([t' ps] & Hin & H). apply list_elem_of_In in Hin, H.
    apply list_elem_of_fmap in H as (p' & [= -> ->] & Hp). apply elem_of_map_to_list in Hin.
    exists ps. set_solver.
  - intros (ps & Hl & Hp). exists (t, ps).
    rewrite <- !list_elem_of_In, elem_of_map_to_list, list_elem_of_fmap. set_solver.
Qed.

Lemma flatten_lookup (g : Partitions) t p : (t, p) ∈ flatten g <-> p ∈ default ∅ (g !! t).
Proof.
  rewrite elem_of_flatten. destruct (g !! t) as [ps|]; cbn; [naive_solver|set_solver].
Qed.

Lemma flatten_empty : flatten ∅ = ∅.
Proof. done. Qed.

Lemma flatten_insert_partition t p (g : Partitions) :
  flatten (insert_partition t p g) = {[(t, p)]} ∪ flatten g.
Proof.
  apply set_eq. intros [t' p']. rewrite elem_of_union, elem_of_singleton, !flatten_lookup.
  unfold insert_partition. destruct (decide (t' = t)) as [->|Hne].
  - rewrite lookup_insert_eq. cbn. rewrite elem_of_union, elem_of_singleton. naive_solver.
  - rewrite lookup_insert_ne by done. naive_solver.
Qed.

Lemma flatten_grouped l : flatten (grouped l) = list_to_set l.
Proof.
  unfold grouped. induction l as [|[t p] l IH] using rev_ind; [done|].
  rewrite fold_left_app. cbn. rewrite flatten_insert_partition, IH, list_to_set_app_L. set_solver.
Qed.

(** No topic is listed with an empty set: what [grouped] builds. *)
Definition no_empty (g : Partitions) : Prop := forall t ps, g !! t = Some ps -> ps <> ∅.

Lemma no_empty_insert t p g : no_empty g -> no_empty (insert_partition t p g).
Proof.
  intros Hg t' ps. unfold insert_partition. destruct (decide (t' = t)) as [->|Hne].
  - rewrite lookup_insert_eq. intros [= <-]. set_solver.
  - rewrite lookup_insert_ne by done. apply Hg.
Qed.

Lemma grouped_no_empty l : no_empty (grouped l).
Proof.
  unfold grouped. induction l as [|[t p] l IH] using rev_ind; [intros t ps; cbn; by rewrite lookup_empty|].
  rewrite fold_left_app. by apply no_empty_insert.
Qed.

Lemma flatten_inj g g' : no_empty g -> no_empty g' -> flatten g = flatten g' -> g = g'.
Proof.
  intros Hg Hg' E. apply map_eq. intros t.
  assert (Ht : default ∅ (g !! t) = default ∅ (g' !! t)).
  { apply set_eq. intros p. by rewrite <- !flatten_lookup, E. }
  destruct (g !! t) as [ps|] eqn:E1, (g' !! t) as [ps'|] eqn:E2; cbn in Ht; subst; try done.
  - by apply Hg in E1.
  - by apply Hg' in E2.
Qed.

(** [grouped] and [flatten] are inverse. *)
Lemma grouped_flatten g : no_empty g -> grouped (elements (flatten g)) = g.
Proof.
  intros Hg. apply flatten_inj; [apply grouped_no_empty|done|].
  rewrite flatten_grouped. apply set_eq. intros x. by rewrite elem_of_list_to_set, elem_of_elements.
Qed.

(** ** What is assigned to whom *)

Definition assigned_to (a : gmap bytes Partitions) (member_id : bytes) (x : Z * Z) : Prop :=
  x ∈ flatten (default ∅ (a !! member_id)).

(** A member of the group that subscribes to the topic. *)
Definition subscribes (members : Members) (member_id : bytes) (topic_id : Z) : Prop :=
  exists spec, members !! member_id = Some spec /\ topic_id ∈ subscribed spec.

Lemma elem_of_subscribers members t m : m ∈ subscribers members t <-> subscribes members m t.
Proof.
  unfold subscribers, subscribes. rewrite list_elem_of_fmap. split.
  - intros ([m' spec] & -> & [Hs Hm]%list_elem_of_filter). apply elem_of_entries in Hm. by exists spec.
  - intros (spec & Hm & Hs). exists (m, spec). by rewrite list_elem_of_filter, elem_of_entries.
Qed.

Lemma subscribers_NoDup members t : NoDup (subscribers members t).
Proof.
  unfold subscribers. eapply (sublist_NoDup _ (entries_of members).*1); [apply entries_of_NoDup|].
  apply fmap_sublist, sublist_filter.
Qed.

Lemma unassigned_none members m x : ~ assigned_to (unassigned members) m x.
Proof.
  unfold assigned_to, unassigned. rewrite lookup_fmap. destruct x.
  destruct (members !! m); cbn; by rewrite flatten_lookup, lookup_empty.
Qed.

Lemma dom_unassigned members : dom (unassigned members) = dom members.
Proof. apply dom_fmap_L. Qed.

(** ** Ranges *)

(** Where the range of the [j]th subscriber starts. *)
Definition start (quota extra j : Z) : Z := j * quota + Z.min j extra.

Lemma start_succ quota extra j :
  0 <= j -> start quota extra (j + 1) = start quota extra j + (quota + if j <? extra then 1 else 0).
Proof. intros. unfold start. destruct (Z.ltb_spec j extra); lia. Qed.

Lemma start_mono quota extra i j :
  0 <= quota -> i <= j -> start quota extra i <= start quota extra j.
Proof. unfold start. nia. Qed.

Lemma start_covers quota extra n p :
  0 <= quota -> 0 <= extra -> 0 <= p < start quota extra (Z.of_nat n) ->
  exists j, (j < n)%nat /\ start quota extra (Z.of_nat j) <= p < start quota extra (Z.of_nat j + 1).
Proof.
  intros Hq He. induction n as [|n IH]; intros Hp; [unfold start in Hp; lia|].
  destruct (decide (p < start quota extra (Z.of_nat n))) as [Hlt|Hge].
  - destruct IH as (j & Hj & H); [lia|]. exists j. split; [lia|done].
  - exists n. replace (Z.of_nat n + 1) with (Z.of_nat (S n)) by lia. split; lia.
Qed.

Lemma range_topic_spec t quota extra subs :
  0 <= quota -> 0 <= extra -> NoDup subs ->
  forall index a, 0 <= index -> Forall (fun m => m ∈ dom a) subs ->
  let a' := range_topic t quota extra index (start quota extra index) subs a in
  dom a' = dom a /\
  forall m t' p, assigned_to a' m (t', p) <->
    assigned_to a m (t', p) \/
    (t' = t /\ exists j, subs !! j = Some m /\
       start quota extra (index + Z.of_nat j) <= p < start quota extra (index + Z.of_nat j + 1)).
Proof.
  intros Hq He. induction 1 as [|m0 subs Hnot Hnd IH]; intros index a Hi Hdom; cbn zeta.
  { split; [done|]. intros. cbn. naive_solver. }
  cbn [range_topic]. apply Forall_cons in Hdom as [Hm0 Hdom].
  set (width := quota + if index <? extra then 1 else 0).
  assert (Hs : start quota extra index + width = start quota extra (index + 1)).
  { unfold width. by rewrite start_succ. }
  rewrite Hs. apply elem_of_dom in Hm0 as [P HP]. rewrite HP.
  set (a1 := if 0 <? width then _ else a).
  assert (Hd1 : dom a1 = dom a).
  { unfold a1. destruct (0 <? width); [|done]. rewrite dom_insert_L.
    apply elem_of_dom_2 in HP. set_solver. }
  assert (Ha1 : forall m t' p, assigned_to a1 m (t', p) <-> assigned_to a m (t', p) \/
      (t' = t /\ m = m0 /\ start quota extra index <= p < start quota extra (index + 1))).
  { intros m t' p. unfold a1, assigned_to. rewrite !flatten_lookup. destruct (Z.ltb_spec 0 width) as [Hw|Hw].
    - destruct (decide (m = m0)) as [->|Hne]; [|rewrite lookup_insert_ne by done; naive_solver].
      rewrite lookup_insert_eq, HP. cbn. destruct (decide (t' = t)) as [->|Hne].
      + rewrite lookup_insert_eq. cbn. rewrite elem_of_union, elem_of_list_to_set, elem_of_seqZ.
        rewrite <- Hs. naive_solver.
      + rewrite lookup_insert_ne by done. naive_solver.
    - rewrite <- Hs. split; [by left|]. intros [H|(_ & _ & ?)]; [done|lia]. }
  destruct (IH (index + 1) a1) as [Hd Hspec]; [lia|by rewrite Hd1|].
  split; [by rewrite Hd|]. intros m t' p. rewrite Hspec, Ha1. split.
  - intros [[H|(-> & -> & H)]|(-> & j & Hj & H)]; [by left|right|right]; (split; [done|]).
    + exists 0%nat. cbn. by rewrite !Z.add_0_r.
    + exists (S j). split; [done|]. by replace (index + Z.of_nat (S j)) with (index + 1 + Z.of_nat j) by lia.
  - intros [H|(-> & [|j] & Hj & H)]; [by left; left| |].
    + left. right. injection Hj as ->. cbn in H. by rewrite !Z.add_0_r in H.
    + right. split; [done|]. exists j. split; [done|].
      by replace (index + Z.of_nat (S j)) with (index + 1 + Z.of_nat j) in H by lia.
Qed.

(** What an assignment promises the group: every partition of a subscribed topic
    goes to exactly one member, a subscriber, and every member has an answer. *)
Record sound (members : Members) (topics : Topics) (a : gmap bytes Partitions) : Prop := mkSound {
  sound_dom : dom a = dom members;
  sound_entitled m t p : assigned_to a m (t, p) ->
    subscribes members m t /\ exists count, topics !! t = Some count /\ 0 <= p < count;
  sound_once m m' x : assigned_to a m x -> assigned_to a m' x -> m = m';
}.

Record exact (members : Members) (topics : Topics) (a : gmap bytes Partitions) : Prop := mkExact {
  exact_sound : sound members topics a;
  exact_total m t p count : topics !! t = Some count -> 0 <= p < count -> subscribes members m t ->
    exists m', assigned_to a m' (t, p);
}.

(** The share of the [j]th subscriber of a topic, which has none when an [i32]
    cannot count the subscribers. *)
Definition share (members : Members) (t count : Z) (j : nat) (p : Z) : Prop :=
  let n := Z.of_nat (length (subscribers members t)) in
  in_i32 n = true /\
  start (count / n) (count mod n) (Z.of_nat j) <= p < start (count / n) (count mod n) (Z.of_nat j + 1).

Lemma range_step_spec members t count a :
  0 <= count -> dom a = dom members ->
  let a' := range_step members a (t, count) in
  dom a' = dom members /\
  forall m t' p, assigned_to a' m (t', p) <->
    assigned_to a m (t', p) \/
    (t' = t /\ exists j, subscribers members t !! j = Some m /\ share members t count j p).
Proof.
  intros Hc Hdom. cbn zeta. unfold range_step, share. set (subs := subscribers members t) in *.
  set (n := Z.of_nat (length subs)) in *.
  destruct (in_i32 n) eqn:Hn; cbn [negb]; [|naive_solver].
  destruct (Z.eqb_spec n 0) as [Hz|Hnz].
  { split; [done|]. intros m t' p. split; [by left|]. intros [H|(_ & j & Hj & _)]; [done|].
    apply lookup_lt_Some in Hj. lia. }
  rewrite Z.quot_div_nonneg, Z.rem_mod_nonneg by lia.
  assert (start (count / n) (count mod n) 0 = 0) as <-.
  { unfold start. pose proof (Z.mod_pos_bound count n). lia. }
  pose proof (Z.mod_pos_bound count n ltac:(lia)). pose proof (Z.div_pos count n Hc ltac:(lia)).
  destruct (range_topic_spec t (count / n) (count mod n) subs) with (index := 0) (a := a)
    as [Hd Hspec]; [lia|lia|apply subscribers_NoDup|lia| |].
  { apply Forall_forall. intros m Hm. apply elem_of_subscribers in Hm as (spec & Hm & _).
    rewrite Hdom. by eapply elem_of_dom_2. }
  assert (Hz : start (count / n) (count mod n) 0 = 0) by (unfold start; lia). rewrite !Hz in *.
  split; [by rewrite Hd|]. intros m t' p. rewrite Hspec. naive_solver.
Qed.

Lemma range_fold members l a :
  Forall (fun x => 0 <= x.2) l -> dom a = dom members ->
  let a' := fold_left (range_step members) l a in
  dom a' = dom members /\
  forall m t p, assigned_to a' m (t, p) <->
    assigned_to a m (t, p) \/
    exists count j, (t, count) ∈ l /\ subscribers members t !! j = Some m /\ share members t count j p.
Proof.
  intros Hl. revert a. induction Hl as [|[t0 c0] l Hc Hl IH]; intros a Hdom; cbn zeta.
  { split; [done|]. intros. cbn. split; [by left|]. intros [H|(?&?&?%not_elem_of_nil&_)]; done. }
  cbn [fold_left]. destruct (range_step_spec members t0 c0 a) as [Hd1 H1]; [done..|].
  destruct (IH _ Hd1) as [Hd2 H2]. split; [done|]. intros m t p. rewrite H2, H1.
  setoid_rewrite elem_of_cons. split.
  - intros [[H|(-> & j & Hj & H)]|(count & j & Hin & Hj & H)]; [by left|right|right]; eauto 8.
  - intros [Hx|(count & j & [E|Hin] & Hj & Hs)]; [by left; left|injection E as -> ->|]; eauto 8.
Qed.

Lemma share_total members t count p :
  0 <= p < count -> (0 < length (subscribers members t))%nat ->
  in_i32 (Z.of_nat (length (subscribers members t))) = true ->
  exists j m, subscribers members t !! j = Some m /\ share members t count j p.
Proof.
  intros Hp Hn Hi. unfold share. set (subs := subscribers members t) in *.
  pose proof (Z.mod_pos_bound count (Z.of_nat (length subs)) ltac:(lia)).
  destruct (start_covers (count / Z.of_nat (length subs)) (count mod Z.of_nat (length subs))
              (length subs) p) as (j & Hj & H').
  - apply Z.div_pos; lia.
  - lia.
  - unfold start. rewrite Z.min_r by lia. pose proof (Z.div_mod count (Z.of_nat (length subs))). lia.
  - destruct (lookup_lt_is_Some_2 subs j Hj) as [m Hm]. by exists j, m.
Qed.

Lemma share_bounds members t count j p :
  0 <= count -> (j < length (subscribers members t))%nat -> share members t count j p -> 0 <= p < count.
Proof.
  unfold share. intros Hc Hj. intros [_ Hs]. revert Hs. set (n := Z.of_nat (length (subscribers members t))).
  pose proof (Z.mod_pos_bound count n ltac:(lia)). pose proof (Z.div_pos count n Hc ltac:(lia)).
  pose proof (start_mono (count / n) (count mod n) (Z.of_nat j + 1) n ltac:(lia) ltac:(lia)) as Hm.
  pose proof (Z.div_mod count n ltac:(lia)). unfold start in *. nia.
Qed.

Lemma share_unique members t count i j p :
  0 <= count -> (i < length (subscribers members t))%nat -> (j < length (subscribers members t))%nat ->
  share members t count i p -> share members t count j p -> i = j.
Proof.
  unfold share. intros Hc Hi Hj. set (n := Z.of_nat (length (subscribers members t))).
  pose proof (Z.div_pos count n Hc ltac:(lia)) as Hq. intros [_ H1] [_ H2].
  pose proof (start_mono (count / n) (count mod n) (Z.of_nat i + 1) (Z.of_nat j) Hq).
  pose proof (start_mono (count / n) (count mod n) (Z.of_nat j + 1) (Z.of_nat i) Hq).
  lia.
Qed.

Lemma range_spec members topics :
  (forall t count, topics !! t = Some count -> 0 <= count) ->
  dom (range members topics) = dom members /\
  forall m t p, assigned_to (range members topics) m (t, p) <->
    exists count j, topics !! t = Some count /\ subscribers members t !! j = Some m /\
      share members t count j p.
Proof.
  intros Hc. unfold range.
  destruct (range_fold members (entries_of topics) (unassigned members)) as [Hd H];
    [|apply dom_unassigned|].
  { apply Forall_forall. intros [t c] Ht. apply elem_of_entries in Ht. by eapply Hc. }
  split; [done|]. intros m t p. rewrite H. setoid_rewrite elem_of_entries.
  pose proof (unassigned_none members m (t, p)). naive_solver.
Qed.

Lemma range_sound members topics :
  (forall t count, topics !! t = Some count -> 0 <= count) -> sound members topics (range members topics).
Proof.
  intros Hc. destruct (range_spec members topics Hc) as [Hd Hspec]. constructor.
  - done.
  - intros m t p (count & j & Ht & Hj & Hs)%Hspec. split.
    + apply elem_of_subscribers. by eapply list_elem_of_lookup_2.
    + exists count. split; [done|]. eapply share_bounds; [by eapply Hc| |done]. by eapply lookup_lt_Some.
  - intros m m' [t p] (count & j & Ht & Hj & Hs)%Hspec (count' & j' & Ht' & Hj' & Hs')%Hspec.
    rewrite Ht in Ht'. injection Ht' as <-. assert (j = j') as ->; [|congruence].
    eapply share_unique; eauto using lookup_lt_Some.
Qed.

Lemma range_exact members topics :
  (forall t count, topics !! t = Some count -> 0 <= count) -> Z.of_nat (size members) < 2 ^ 31 ->
  exact members topics (range members topics).
Proof.
  intros Hc Hsize. split; [by apply range_sound|]. destruct (range_spec members topics Hc) as [_ Hspec].
  intros m t p count Ht Hp Hm. apply elem_of_subscribers, list_elem_of_lookup in Hm as [i Hi].
  assert (Hlen : (length (subscribers members t) <= size members)%nat).
  { unfold subscribers. rewrite length_map. etransitivity; [apply length_filter|].
    by rewrite entries_of_perm, length_map_to_list. }
  destruct (share_total members t count p) as (j & m' & Hj & Hs); [done| | |].
  { apply lookup_lt_Some in Hi. lia. }
  { apply s_range_spec. lia. }
  exists m'. apply Hspec. by exists count, j.
Qed.

(** ** Owners *)

(** Going from [o] to [o'], every claim of [C] was honoured or came too late, and
    nothing else changed. *)
Record claimed (o o' : Owner) (C : Z * Z -> bytes -> Prop) : Prop := mkClaimed {
  claimed_keeps k m : o !! k = Some m -> o' !! k = Some m;
  claimed_only k m : o' !! k = Some m -> o !! k = Some m \/ C k m;
  claimed_all k m : C k m -> is_Some (o' !! k);
}.

Lemma claimed_fold {A} (f : Owner -> A -> Owner) (C : A -> Z * Z -> bytes -> Prop) l o :
  (forall o x, x ∈ l -> claimed o (f o x) (C x)) ->
  claimed o (fold_left f l o) (fun k m => exists x, x ∈ l /\ C x k m).
Proof.
  revert o. induction l as [|x l IH]; intros o Hf; cbn [fold_left].
  { split; [done|by left|]. intros k m (x & ?%not_elem_of_nil & _). done. }
  destruct (Hf o x ltac:(by left)) as [H1 H2 H3].
  destruct (IH (f o x)) as [G1 G2 G3]; [intros; apply Hf; by right|]. split.
  - auto.
  - intros k m [H|(y & Hy & Hc)]%G2.
    + apply H2 in H as [H|H]; [by left|right; exists x; split; [by left|done]].
    + right. exists y. split; [by right|done].
  - intros k m (y & [->|Hy]%elem_of_cons & Hc); [|apply (G3 k m); by exists y].
    apply H3 in Hc as [m' Hm']. exists m'. auto.
Qed.

Lemma claimed_or_insert o k m : claimed o (or_insert o k m) (fun k' m' => k' = k /\ m' = m).
Proof.
  unfold or_insert. destruct (o !! k) as [m0|] eqn:E; split.
  - done.
  - by left.
  - intros k' m' [-> ->]. by exists m0.
  - intros k' m' H. rewrite lookup_insert_ne; [done|]. congruence.
  - intros k' m'. destruct (decide (k' = k)) as [->|Hne].
    + rewrite lookup_insert_eq. intros [= ->]. by right.
    + rewrite lookup_insert_ne by done. by left.
  - intros k' m' [-> ->]. rewrite lookup_insert_eq. by exists m.
Qed.

(** What a member may keep. *)
Definition keepable (members : Members) (topics : Topics) (k : Z * Z) (m : bytes) : Prop :=
  exists spec count, members !! m = Some spec /\ topics !! k.1 = Some count /\
    k.1 ∈ subscribed spec /\ k.2 < count /\ k ∈ flatten (previous spec).

Lemma claimed_impl o o' (C C' : Z * Z -> bytes -> Prop) :
  (forall k m, C k m <-> C' k m) -> claimed o o' C -> claimed o o' C'.
Proof.
  intros Hc [H1 H2 H3]. split; [done| |].
  - intros k m H. rewrite <- Hc. auto.
  - intros k m H. rewrite <- Hc in H. eauto.
Qed.

Lemma keep_member_claims topics o m spec :
  claimed o (keep_member topics o (m, spec)) (fun k m' => m' = m /\
    exists count, topics !! k.1 = Some count /\ k.1 ∈ subscribed spec /\ k.2 < count /\
      k ∈ flatten (previous spec)).
Proof.
  unfold keep_member. eapply claimed_impl; [|eapply (claimed_fold _ (fun x k m' => m' = m /\ k.1 = x.1 /\
    exists count, topics !! x.1 = Some count /\ x.1 ∈ subscribed spec /\ k.2 < count /\ k.2 ∈ x.2))].
  - intros [t p] m'. cbn. setoid_rewrite elem_of_flatten. split.
    + intros ([t' ps] & Hx & -> & Et & count & ?). cbn in *. subst t'.
      apply elem_of_entries in Hx. naive_solver.
    + intros (-> & count & Ht & Hs & Hp & ps & Hps & Hin). exists (t, ps). rewrite elem_of_entries. naive_solver.
  - intros o' [t ps] _. cbn. destruct (topics !! t) as [count|] eqn:Et.
    2: { split; [done|by left|]. naive_solver. }
    destruct (bool_decide _) eqn:Es; bool_prop.
    { split; [done|by left|]. naive_solver. }
    eapply claimed_impl; [|eapply (claimed_fold _ (fun p k m' => k = (t, p) /\ m' = m))].
    + intros [t' p'] m'. cbn. setoid_rewrite list_elem_of_filter. setoid_rewrite elem_of_set_list.
      apply dec_stable in Es. naive_solver.
    + intros o'' p _. apply claimed_or_insert.
Qed.

Lemma keep_previous_claims members topics :
  claimed ∅ (keep_previous members topics) (keepable members topics).
Proof.
  unfold keep_previous. eapply claimed_impl; [|eapply (claimed_fold _ (fun x k m => m = x.1 /\
    exists count, topics !! k.1 = Some count /\ k.1 ∈ subscribed x.2 /\ k.2 < count /\
      k ∈ flatten (previous x.2)))].
  - intros k m. unfold keepable. split.
    + intros ([m' spec] & Hx%elem_of_entries & -> & count & ?). exists spec, count. naive_solver.
    + intros (spec & count & Hm & ?). exists (m, spec). rewrite elem_of_entries. naive_solver.
  - intros o [m spec] _. apply keep_member_claims.
Qed.

(** Every owner is entitled to what it owns. *)
Definition owners_ok (members : Members) (topics : Topics) (o : Owner) : Prop :=
  forall t p m, o !! (t, p) = Some m ->
    subscribes members m t /\ exists count, topics !! t = Some count /\ 0 <= p < count.

Definition previous_ok (members : Members) : Prop :=
  forall m spec t p, members !! m = Some spec -> (t, p) ∈ flatten (previous spec) -> 0 <= p.

Lemma keep_previous_ok members topics :
  previous_ok members -> owners_ok members topics (keep_previous members topics).
Proof.
  intros Hp t p m [H|(spec & count & Hm & Ht & Hs & Hlt & Hin)]%(claimed_only _ _ _ (keep_previous_claims _ _)).
  - by rewrite lookup_empty in H.
  - cbn in *. split; [by exists spec|]. exists count. split; [done|]. split; [by eapply Hp|done].
Qed.

(** ** Loads *)

Definition owned (o : Owner) (m : bytes) : nat :=
  length (filter (fun kv => kv.2 = m) (map_to_list o)).

Definition loads_ok (members : Members) (o : Owner) (load : Load) : Prop :=
  dom load = dom members /\ forall m n, load !! m = Some n -> n = Z.of_nat (owned o m).

Definition bit (a b : bytes) : nat := if decide (a = b) then 1 else 0.

Lemma owned_insert o k a m : o !! k = None -> owned (<[k := a]> o) m = (bit a m + owned o m)%nat.
Proof.
  intros Hk. unfold owned, bit. rewrite map_to_list_insert, filter_cons by done. cbn.
  by destruct (decide (a = m)).
Qed.

Lemma owned_delete o k a m : o !! k = Some a -> owned o m = (bit a m + owned (delete k o) m)%nat.
Proof.
  intros Hk. rewrite <- (insert_delete_id o k a Hk) at 1. rewrite owned_insert; [done|].
  apply lookup_delete_eq.
Qed.

Lemma owned_move o k a b m :
  o !! k = Some a -> (owned (<[k := b]> o) m + bit a m = owned o m + bit b m)%nat.
Proof.
  intros Hk. rewrite (owned_delete o k a m Hk). rewrite <- insert_delete_eq.
  rewrite owned_insert by apply lookup_delete_eq. lia.
Qed.

Lemma owned_empty m : owned ∅ m = 0%nat.
Proof. done. Qed.

Lemma initial_load_ok members o : loads_ok members o (initial_load members o).
Proof.
  unfold initial_load, loads_ok, owned.
  assert (Hgen : forall l load, dom load = dom members ->
    dom (fold_left count_owner l load) = dom members /\
    forall m n', fold_left count_owner l load !! m = Some n' ->
      exists n, load !! m = Some n /\ n' = n + Z.of_nat (length (filter (fun x => x = m) l))).
  { clear o. induction l as [|x l IH]; intros load Hd.
    { split; [done|]. intros m n' H. exists n'. cbn. split; [done|lia]. }
    cbn [fold_left]. assert (Hd1 : dom (count_owner load x) = dom members).
    { unfold count_owner. destruct (load !! x) eqn:E; [|done]. rewrite dom_insert_L.
      apply elem_of_dom_2 in E. set_solver. }
    destruct (IH _ Hd1) as [Hd2 Hv]. split; [done|]. intros m n' (n & Hn & ->)%Hv.
    unfold count_owner in Hn. rewrite filter_cons. destruct (decide (x = m)) as [->|Hne].
    - destruct (load !! m) as [c|] eqn:E; [|by rewrite E in Hn]. rewrite lookup_insert_eq in Hn.
      injection Hn as <-. exists c. split; [done|]. cbn. lia.
    - exists n. split; [|done]. destruct (load !! x) eqn:E; [|done]. by rewrite lookup_insert_ne in Hn. }
  destruct (Hgen (map snd (entries_of o)) ((fun _ => 0) <$> members)) as [Hd H]; [apply dom_fmap_L|].
  split; [done|]. intros m n (n0 & Hn0 & ->)%H. rewrite lookup_fmap in Hn0.
  destruct (members !! m); [|done]. injection Hn0 as <-. rewrite Z.add_0_l. f_equal.
  rewrite entries_of_perm. clear. induction (map_to_list o) as [|[k x] l IH]; [done|].
  cbn [map]. rewrite !filter_cons. cbn [snd]. destruct (decide (x = m)); cbn [length]; auto.
Qed.

(** ** The least loaded subscriber *)

Lemma min_by_key_spec {A} (key : A -> Z * bytes) l best :
  let m := min_by_key key best l in
  (m = best \/ m ∈ l) /\ (key m).1 <= (key best).1 /\ forall x, x ∈ l -> (key m).1 <= (key x).1.
Proof.
  revert best. induction l as [|x l IH]; intros best; cbn zeta.
  { cbn. split; [by left|]. split; [lia|]. intros x ?%not_elem_of_nil. done. }
  cbn [min_by_key]. set (best' := match key_cmp _ _ with Gt => x | _ => best end).
  assert (Hb : (best' = best \/ best' = x) /\ (key best').1 <= (key best).1 /\ (key best').1 <= (key x).1).
  { unfold best'. change (key_cmp (key best) (key x)) with
      (match Z.compare (key best).1 (key x).1 with Eq => bytes_cmp (key best).2 (key x).2 | c => c end).
    destruct (Z.compare_spec (key best).1 (key x).1); [|split; [by left|lia]|split; [by right|lia]].
    destruct (bytes_cmp _ _); (split; [|lia]); auto. }
  destruct (IH best') as (Hin & Hle & Hall). destruct Hb as (Hb1 & Hb2 & Hb3). split; [|split].
  - destruct Hin as [->|Hin]; [destruct Hb1 as [->| ->]; [by left|right; by left]|right; by right].
  - lia.
  - intros y [->|Hy]%elem_of_cons; [lia|auto].
Qed.

Lemma least_loaded_spec members load t :
  match least_loaded members load t with
  | Some m => subscribes members m t /\
              forall m', subscribes members m' t -> load_of load m <= load_of load m'
  | None => forall m, ~ subscribes members m t
  end.
Proof.
  unfold least_loaded. pose proof (elem_of_subscribers members t) as Hsub.
  destruct (subscribers members t) as [|m ms].
  { intros m Hm%Hsub. by apply not_elem_of_nil in Hm. }
  destruct (min_by_key_spec (fun m => (load_of load m, m)) ms m) as (Hin & Hle & Hall). cbn in *. split.
  - apply Hsub. destruct Hin as [-> |Hin]; [by left|by right].
  - intros m' Hm'%Hsub. apply elem_of_cons in Hm' as [->|Hm']; auto.
Qed.

(** ** Filling *)

Definition state_ok (members : Members) (topics : Topics) (s : Owner * Load) : Prop :=
  owners_ok members topics s.1 /\ loads_ok members s.1 s.2.

Lemma loads_ok_of members o load m : loads_ok members o load -> is_Some (members !! m) ->
  load_of load m = Z.of_nat (owned o m).
Proof.
  intros [Hd H] Hm. unfold load_of. apply elem_of_dom in Hm. rewrite <- Hd in Hm.
  apply elem_of_dom in Hm as [n Hn]. rewrite Hn. by apply H.
Qed.

Lemma loads_ok_insert members o load k m :
  loads_ok members o load -> o !! k = None -> is_Some (members !! m) ->
  loads_ok members (<[k := m]> o) (add_load load m 1).
Proof.
  intros Hl Hk Hm. pose proof (loads_ok_of _ _ _ _ Hl Hm) as Hload. destruct Hl as [Hd H].
  apply elem_of_dom in Hm. split; unfold add_load.
  - rewrite dom_insert_L. set_solver.
  - intros m' n. rewrite owned_insert by done. unfold bit. destruct (decide (m = m')) as [->|Hne].
    + rewrite lookup_insert_eq. intros [= <-]. lia.
    + rewrite lookup_insert_ne by done. intros ->%H. lia.
Qed.

Lemma fill_partition_ok members topics t count p s :
  state_ok members topics s -> topics !! t = Some count -> 0 <= p < count ->
  let s' := fill_partition members t s p in
  state_ok members topics s' /\ s.1 ⊆ s'.1 /\
  ((exists m, subscribes members m t) -> is_Some (s'.1 !! (t, p))).
Proof.
  destruct s as [o load]. intros [Ho Hl] Ht Hp. cbn in *.
  destruct (o !! (t, p)) as [m|] eqn:E; [split_and!; [done|done|by exists m]|].
  pose proof (least_loaded_spec members load t) as Hs.
  destruct (least_loaded members load t) as [m|]; cbn.
  2: { split_and!; [done|done|]. intros [m Hm]. by apply Hs in Hm. }
  destruct Hs as [Hs _]. split_and!.
  - split; cbn.
    + intros t' p' m'. destruct (decide ((t', p') = (t, p))) as [[= -> ->]|Hne].
      * rewrite lookup_insert_eq. intros [= <-]. split; [done|]. by exists count.
      * rewrite lookup_insert_ne by done. apply Ho.
    + apply loads_ok_insert; [done|done|]. destruct Hs as (spec & Hm & _). by exists spec.
  - by apply insert_subseteq.
  - intros _. rewrite lookup_insert_eq. by exists m.
Qed.

Lemma fill_topic_ok members topics t count l s :
  state_ok members topics s -> topics !! t = Some count -> Forall (fun p => 0 <= p < count) l ->
  let s' := fold_left (fill_partition members t) l s in
  state_ok members topics s' /\ s.1 ⊆ s'.1 /\
  ((exists m, subscribes members m t) -> forall p, p ∈ l -> is_Some (s'.1 !! (t, p))).
Proof.
  intros Hs Ht Hl. revert s Hs. induction Hl as [|p l Hp Hl IH]; intros s Hs; cbn zeta; cbn [fold_left].
  { split_and!; [done|done|]. intros _ p ?%not_elem_of_nil. done. }
  destruct (fill_partition_ok members topics t count p s) as (H1 & H2 & H3); [done..|].
  destruct (IH _ H1) as (G1 & G2 & G3). split_and!; [done|by etransitivity|].
  intros Hm p' [->|Hp']%elem_of_cons; [|by apply G3].
  destruct (H3 Hm) as [m' Hm']. exists m'. by eapply lookup_weaken.
Qed.

Lemma fill_ok members topics s :
  state_ok members topics s ->
  let s' := fill members topics s in
  state_ok members topics s' /\ s.1 ⊆ s'.1 /\
  forall m t p count, topics !! t = Some count -> 0 <= p < count -> subscribes members m t ->
    is_Some (s'.1 !! (t, p)).
Proof.
  intros Hs. cbn zeta. unfold fill.
  assert (Hgen : forall l s, state_ok members topics s -> (forall x, x ∈ l -> topics !! x.1 = Some x.2) ->
    let s' := fold_left (fun s '(t, count) => fold_left (fill_partition members t) (seqZ 0 count) s) l s in
    state_ok members topics s' /\ s.1 ⊆ s'.1 /\
    forall t count p, (t, count) ∈ l -> 0 <= p < count -> (exists m, subscribes members m t) ->
      is_Some (s'.1 !! (t, p))).
  { clear s Hs. induction l as [|[t c] l IH]; intros s Hs Hl; cbn zeta; cbn [fold_left].
    { split_and!; [done|done|]. intros t c p ?%not_elem_of_nil. done. }
    destruct (fill_topic_ok members topics t c (seqZ 0 c) s) as (H1 & H2 & H3);
      [done|apply (Hl (t, c)); by left|apply Forall_forall; intros p Hp%elem_of_seqZ; lia|].
    destruct (IH _ H1) as (G1 & G2 & G3); [intros; apply Hl; by right|].
    split_and!; [done|by etransitivity|]. intros t' c' p [[= -> ->]|Hin]%elem_of_cons Hp Hm; [|by eapply G3].
    destruct (H3 Hm p) as [m' Hm']; [apply elem_of_seqZ; lia|]. exists m'. by eapply lookup_weaken. }
  destruct (Hgen (entries_of topics) s Hs) as (H1 & H2 & H3).
  { intros [t c] Hx. by apply elem_of_entries in Hx. }
  split_and!; [done..|]. intros m t p count Ht Hp Hm. eapply H3; [by apply elem_of_entries|done|by exists m].
Qed.

Lemma filled_ok members topics :
  previous_ok members -> state_ok members topics (filled members topics) /\
  forall m t p count, topics !! t = Some count -> 0 <= p < count -> subscribes members m t ->
    is_Some ((filled members topics).1 !! (t, p)).
Proof.
  intros Hp. unfold filled.
  destruct (fill_ok members topics (keep_previous members topics,
    initial_load members (keep_previous members topics))) as (H1 & _ & H3); [|by split].
  split; [by apply keep_previous_ok|apply initial_load_ok].
Qed.

(** ** Balancing *)

Definition move_ok (members : Members) (o : Owner) (load : Load) (m : Move) : Prop :=
  o !! moved m = Some (from m) /\ least_loaded members load (moved m).1 = Some (to m) /\
  gap m = load_of load (from m) - load_of load (to m) /\ 2 <= gap m.

Lemma improving_move_spec members o load :
  match improving_move members o load with
  | Some m => move_ok members o load m
  | None => forall t p a b, o !! (t, p) = Some a -> subscribes members b t ->
              load_of load a <= load_of load b + 1
  end.
Proof.
  unfold improving_move.
  assert (Hgen : forall l best, (forall x, x ∈ l -> o !! x.1 = Some x.2) ->
    match best with Some m => move_ok members o load m | None => True end ->
    match fold_left (improve members load) l best with
    | Some m => move_ok members o load m
    | None => best = None /\ forall x to, x ∈ l -> least_loaded members load x.1.1 = Some to ->
                load_of load x.2 <= load_of load to + 1
    end).
  { induction l as [|[k a] l IH]; intros best Hl Hbest; cbn [fold_left].
    { destruct best; [done|]. split; [done|]. intros x to ?%not_elem_of_nil. done. }
    pose proof (Hl (k, a) ltac:(by left)) as Hk. cbn in Hk.
    assert (Hl' : forall x, x ∈ l -> o !! x.1 = Some x.2) by (intros; apply Hl; by right).
    set (best' := improve members load best (k, a)).
    assert (Hb' : match best' with
      | Some m => move_ok members o load m
      | None => best = None /\ forall to, least_loaded members load k.1 = Some to ->
                  load_of load a <= load_of load to + 1 end).
    { unfold best', improve. destruct (least_loaded members load k.1) as [to|] eqn:Et.
      2: { destruct best; [done|]. split; [done|]. intros ? [=]. }
      destruct (Z.leb_spec 2 (Z.max 0 (load_of load a - load_of load to))) as [Hg|Hg]; cbn [andb].
      - assert (Hnew : move_ok members o load
          (mkMove (Z.max 0 (load_of load a - load_of load to)) k a to)).
        { unfold move_ok. cbn. split_and!; [done|done|lia|lia]. }
        destruct best as [held|]; [by destruct (gap held <? _)|done].
      - destruct best; [done|]. split; [done|]. intros to' [= <-]. lia. }
    specialize (IH best' Hl'). destruct best' as [m|].
    - specialize (IH Hb'). destruct (fold_left _ l _); [done|]. by destruct IH.
    - specialize (IH I). destruct (fold_left _ l _); [done|]. destruct IH as [_ IH], Hb' as [-> Hb'].
      split; [done|]. intros x to [->|Hx]%elem_of_cons Ht; [by apply Hb'|by eapply IH]. }
  assert (Hent : forall x, x ∈ entries_of o -> o !! x.1 = Some x.2).
  { intros [k a] Hx. by apply elem_of_entries in Hx. }
  specialize (Hgen (entries_of o) None Hent I).
  destruct (fold_left _ _ _) as [m|]; [done|]. destruct Hgen as [_ Hgen].
  intros t p a b Ho Hb. pose proof (least_loaded_spec members load t) as Hs.
  destruct (least_loaded members load t) as [to|] eqn:Et; [|by apply Hs in Hb].
  destruct Hs as [_ Hs]. specialize (Hs b Hb).
  specialize (Hgen ((t, p), a) to ltac:(by apply elem_of_entries) Et). cbn in Hgen. lia.
Qed.

Lemma energy_insert load m x y :
  load !! m = Some x -> energy (<[m := y]> load) = energy load - x * x + y * y.
Proof.
  intros Hm. unfold energy.
  assert (Hperm : forall l l', l ≡ₚ l' -> foldr (fun (p : bytes * Z) e => p.2 * p.2 + e) 0 l
                             = foldr (fun p e => p.2 * p.2 + e) 0 l').
  { induction 1; cbn; lia. }
  rewrite <- insert_delete_eq, (Hperm _ _ (map_to_list_insert _ _ y (lookup_delete_eq _ _))).
  rewrite <- (insert_delete_id load m x Hm) at 2.
  rewrite (Hperm _ _ (map_to_list_insert _ _ x (lookup_delete_eq _ _))). cbn. lia.
Qed.

Lemma energy_nonneg load : 0 <= energy load.
Proof.
  unfold energy. induction (map_to_list load) as [|p l IH]; cbn; [lia|].
  pose proof (Z.square_nonneg p.2). lia.
Qed.

Lemma load_of_add load m d m' :
  load_of (add_load load m d) m' = load_of load m' + (if decide (m = m') then d else 0).
Proof.
  unfold add_load, load_of at 1. destruct (decide (m = m')) as [->|Hne].
  - by rewrite lookup_insert_eq.
  - rewrite lookup_insert_ne by done. unfold load_of. lia.
Qed.

Lemma energy_add load m d : is_Some (load !! m) ->
  energy (add_load load m d) = energy load + 2 * d * load_of load m + d * d.
Proof.
  intros [x Hx]. unfold add_load, load_of. rewrite Hx. cbn. rewrite (energy_insert _ _ x) by done. lia.
Qed.

Lemma apply_move_ok members topics o load m :
  state_ok members topics (o, load) -> move_ok members o load m ->
  let s' := apply_move (o, load) m in
  state_ok members topics s' /\ energy s'.2 < energy load /\
  (forall k, is_Some (o !! k) -> is_Some (s'.1 !! k)).
Proof.
  intros [Ho Hl] (Hk & Hto & Hgap & H2). destruct m as [g [t p] a b]. cbn [moved from to gap fst snd] in *.
  destruct (Ho t p a Hk) as ((sa & Ha & _) & count & Ht & Hp).
  pose proof (least_loaded_spec members load t) as Hs. rewrite Hto in Hs. destruct Hs as [Hs _].
  assert (Hb : is_Some (members !! b)) by (destruct Hs as (sb & Hb & _); by exists sb).
  assert (Hda : is_Some (load !! a)).
  { apply elem_of_dom. rewrite (proj1 Hl). by eapply elem_of_dom_2. }
  assert (Hdb : is_Some (load !! b)) by (apply elem_of_dom; rewrite (proj1 Hl); by apply elem_of_dom).
  assert (Hne : a <> b) by (intros ->; lia).
  cbn [apply_move moved from to fst snd]. split_and!.
  - split; cbn.
    + intros t' p' m'. destruct (decide ((t', p') = (t, p))) as [[= -> ->]|Hne'].
      * rewrite lookup_insert_eq. intros [= <-]. split; [done|by exists count].
      * rewrite lookup_insert_ne by done. apply Ho.
    + destruct Hl as [Hd Hv]. split.
      * unfold add_load. rewrite !dom_insert_L. apply elem_of_dom in Hda, Hdb. set_solver.
      * intros m' n Hn. assert (Hm' : load_of (add_load (add_load load a (-1)) b 1) m' = n)
          by (unfold load_of; by rewrite Hn).
        rewrite !load_of_add in Hm'. pose proof (owned_move o (t, p) a b m' Hk) as Hmove. unfold bit in Hmove.
        assert (Hin : is_Some (members !! m')).
        { apply elem_of_dom. rewrite <- Hd. apply elem_of_dom_2 in Hn.
          unfold add_load in Hn. rewrite !dom_insert_L in Hn. apply elem_of_dom in Hda, Hdb. set_solver. }
        rewrite (loads_ok_of members o load m') in Hm' by done.
        destruct (decide (a = m')), (decide (b = m')); subst; lia.
  - rewrite !energy_add, load_of_add; [|done|].
    + rewrite decide_False by done. lia.
    + unfold add_load. by rewrite lookup_insert_ne.
  - intros k Hk'. destruct (decide (k = (t, p))) as [->|Hk2].
    + rewrite lookup_insert_eq. by exists b.
    + by rewrite lookup_insert_ne.
Qed.

(** The loop ends: with the energy as fuel no move is left to make. *)
Lemma balance_ok members topics fuel s :
  state_ok members topics s -> energy s.2 <= Z.of_nat fuel ->
  let s' := balance fuel members s in
  state_ok members topics s' /\ improving_move members s'.1 s'.2 = None /\
  (forall k, is_Some (s.1 !! k) -> is_Some (s'.1 !! k)).
Proof.
  revert s. induction fuel as [|fuel IH]; intros [o load] Hs He; cbn zeta; cbn [balance fst snd] in *;
    pose proof (improving_move_spec members o load) as Hm;
    destruct (improving_move members o load) as [m|] eqn:E; try done;
    destruct (apply_move_ok members topics o load m Hs Hm) as (H1 & H2 & H3);
    pose proof (energy_nonneg (apply_move (o, load) m).2).
  - lia.
  - destruct (IH _ H1) as (G1 & G2 & G3); [lia|]. split_and!; [done..|]. auto.
Qed.

(** ** Collecting *)

Lemma collect_spec members topics o :
  owners_ok members topics o ->
  dom (collect members o) = dom members /\
  forall m t p, assigned_to (collect members o) m (t, p) <-> o !! (t, p) = Some m.
Proof.
  intros Ho. unfold collect.
  set (f := fun (a : gmap bytes Partitions) '((t, p), m) =>
    <[m := insert_partition t p (default ∅ (a !! m))]> a).
  assert (Hgen : forall l a, (forall x, x ∈ l -> x.2 ∈ dom members) -> dom a = dom members ->
    dom (fold_left f l a) = dom members /\
    forall m x, assigned_to (fold_left f l a) m x <-> assigned_to a m x \/ (x, m) ∈ l).
  { induction l as [|[[t p] m0] l IH]; intros a Hl Hd; cbn [fold_left].
    { split; [done|]. intros m x. rewrite elem_of_nil. naive_solver. }
    pose proof (Hl ((t, p), m0) ltac:(by left)) as Hm0. cbn in Hm0.
    destruct (IH (f a ((t, p), m0))) as [G1 G2]; [intros; apply Hl; by right| |].
    { cbn. rewrite dom_insert_L. set_solver. }
    split; [done|]. intros m x. rewrite G2, elem_of_cons. cbn. unfold assigned_to.
    destruct (decide (m = m0)) as [->|Hne].
    - rewrite lookup_insert_eq. cbn. rewrite flatten_insert_partition. set_solver.
    - rewrite lookup_insert_ne by done. naive_solver. }
  destruct (Hgen (entries_of o) (unassigned members)) as [G1 G2].
  { intros [[t p] m] Hx%elem_of_entries. destruct (Ho t p m Hx) as [(spec & Hm & _) _].
    by eapply elem_of_dom_2. }
  { apply dom_unassigned. }
  split; [done|]. intros m t p. rewrite G2, elem_of_entries.
  pose proof (unassigned_none members m (t, p)). naive_solver.
Qed.

Lemma balanced_owner_ok members topics :
  previous_ok members ->
  let o := balanced_owner members topics in
  owners_ok members topics o /\
  (forall m t p count, topics !! t = Some count -> 0 <= p < count -> subscribes members m t ->
     is_Some (o !! (t, p))) /\
  forall t p a b, o !! (t, p) = Some a -> subscribes members b t -> (owned o a <= owned o b + 1)%nat.
Proof.
  intros Hp. cbn zeta. unfold balanced_owner. destruct (filled_ok members topics Hp) as [Hs Hall].
  set (s := filled members topics) in *.
  destruct (balance_ok members topics (Z.to_nat (energy s.2)) s Hs) as ([Ho Hl] & Hn & Hk).
  { pose proof (energy_nonneg s.2). lia. }
  set (s' := balance _ _ _) in *. split_and!.
  - done.
  - intros m t p count Ht Hpc Hm. eapply Hk, Hall; eauto.
  - intros t p a b Ha Hb. pose proof (improving_move_spec members s'.1 s'.2) as Hi. rewrite Hn in Hi.
    specialize (Hi t p a b Ha Hb). destruct (Ho t p a Ha) as [(sa & Hma & _) _], Hb as (sb & Hmb & _).
    rewrite (loads_ok_of members s'.1 s'.2 a Hl (ex_intro _ sa Hma)) in Hi.
    rewrite (loads_ok_of members s'.1 s'.2 b Hl (ex_intro _ sb Hmb)) in Hi. lia.
Qed.

Lemma uniform_exact members topics :
  previous_ok members -> exact members topics (uniform members topics).
Proof.
  intros Hp. destruct (balanced_owner_ok members topics Hp) as (Ho & Hall & _). unfold uniform.
  destruct (collect_spec members topics _ Ho) as [Hd H]. constructor; [constructor|].
  - done.
  - intros m t p Hx%H. by apply Ho.
  - intros m m' [t p] Hx%H Hy%H. congruence.
  - intros m t p count Ht Hpc Hm. destruct (Hall m t p count Ht Hpc Hm) as [m' Hm'].
    exists m'. by apply H.
Qed.

(** The partitions assigned to a member, counted. *)
Definition load_in (a : gmap bytes Partitions) (m : bytes) : nat :=
  size (flatten (default ∅ (a !! m))).

Lemma load_in_owned members topics o m :
  owners_ok members topics o -> load_in (collect members o) m = owned o m.
Proof.
  intros Ho. destruct (collect_spec members topics o Ho) as [_ H]. unfold load_in, owned.
  set (l := filter (fun kv => kv.2 = m) (map_to_list o)).
  assert (Hnd : NoDup l.*1).
  { eapply (sublist_NoDup _ (map_to_list o).*1); [apply NoDup_fst_map_to_list|].
    apply fmap_sublist, sublist_filter. }
  rewrite <- (length_fmap fst). rewrite <- (size_list_to_set (C := gset (Z * Z)) _ Hnd).
  f_equal. apply set_eq. intros [t p]. rewrite elem_of_list_to_set, list_elem_of_fmap.
  change ((t, p) ∈ flatten _) with (assigned_to (collect members o) m (t, p)). rewrite H. unfold l. split.
  - intros Hl. exists ((t, p), m). by rewrite list_elem_of_filter, elem_of_map_to_list.
  - intros ([k m'] & -> & [Hm Hk]%list_elem_of_filter). cbn in *. subst m'.
    by apply elem_of_map_to_list in Hk.
Qed.

(** ** Stickiness *)

(** The group as it is once its members hold the targets [a]. *)
Definition settled_specs (members : Members) (a : gmap bytes Partitions) : Members :=
  map_imap (fun m spec => Some (mkSpec (subscribed spec) (default ∅ (a !! m)))) members.

Lemma lookup_settled members a m :
  settled_specs members a !! m
  = (fun spec => mkSpec (subscribed spec) (default ∅ (a !! m))) <$> members !! m.
Proof. unfold settled_specs. rewrite map_lookup_imap. by destruct (members !! m). Qed.

Lemma subscribes_settled members a m t :
  subscribes (settled_specs members a) m t <-> subscribes members m t.
Proof.
  unfold subscribes. rewrite lookup_settled. destruct (members !! m) as [spec|]; cbn; naive_solver.
Qed.

Section settled.
Context (members : Members) (topics : Topics) (o : Owner).
Context (Hok : owners_ok members topics o).
Let a := collect members o.
Let members' := settled_specs members a.

Lemma keep_settled : keep_previous members' topics = o.
Proof using Hok.
  destruct (keep_previous_claims members' topics) as [_ Honly Hall].
  destruct (collect_spec members topics o Hok) as [_ Ha].
  assert (Hkeep : forall k m, keepable members' topics k m <-> o !! k = Some m).
  { intros [t p] m. unfold keepable, members'. rewrite lookup_settled. split.
    - intros (spec & count & Hm & _ & _ & _ & Hin). destruct (members !! m); [|done].
      injection Hm as <-. cbn in Hin. by apply Ha.
    - intros Ho. destruct (Hok t p m Ho) as [(spec & Hm & Hs) (count & Ht & Hp)]. rewrite Hm.
      eexists _, count. split_and!; [done|done|done|cbn; lia|]. by apply Ha. }
  apply map_eq. intros k. destruct (o !! k) as [m|] eqn:E.
  - destruct (Hall k m (proj2 (Hkeep k m) E)) as [m' Hm']. rewrite Hm'.
    apply Honly in Hm' as [Hm'|Hm']; [by rewrite lookup_empty in Hm'|]. apply Hkeep in Hm'. congruence.
  - destruct (keep_previous members' topics !! k) as [m'|] eqn:E'; [|done].
    apply Honly in E' as [E'|E']; [by rewrite lookup_empty in E'|]. apply Hkeep in E'. congruence.
Qed.

Context (Htotal : forall m t p count, topics !! t = Some count -> 0 <= p < count ->
  subscribes members m t -> is_Some (o !! (t, p))).

Lemma fill_settled load : fill members' topics (o, load) = (o, load).
Proof using Htotal.
  unfold fill.
  assert (Hgen : forall l, (forall x, x ∈ l -> topics !! x.1 = Some x.2) ->
    fold_left (fun s '(t, count) => fold_left (fill_partition members' t) (seqZ 0 count) s) l (o, load)
    = (o, load)).
  2: { apply Hgen. intros [t c] Hx. by apply elem_of_entries in Hx. }
  induction l as [|[t c] l IH]; intros Hl; [done|]. cbn [fold_left].
  assert (Htopic : forall ps, Forall (fun p => 0 <= p < c) ps ->
    fold_left (fill_partition members' t) ps (o, load) = (o, load)).
  { induction 1 as [|p ps Hp Hps IHp]; [done|]. cbn [fold_left]. rewrite <- IHp at 2. f_equal.
    unfold fill_partition. destruct (o !! (t, p)) eqn:E; [done|].
    pose proof (least_loaded_spec members' load t) as Hs.
    destruct (least_loaded members' load t) as [m|]; [|done]. destruct Hs as [Hs _].
    apply subscribes_settled in Hs. apply (Htotal m t p c) in Hs as [? Hs]; [congruence| |done].
    apply (Hl (t, c)). by left. }
  rewrite Htopic; [apply IH; intros; apply Hl; by right|].
  apply Forall_forall. intros p Hp%elem_of_seqZ. lia.
Qed.

Context (Hbalanced : forall t p m m', o !! (t, p) = Some m -> subscribes members m' t ->
  (owned o m <= owned o m' + 1)%nat).

Lemma no_move_settled : improving_move members' o (initial_load members' o) = None.
Proof using Hok Hbalanced.
  pose proof (improving_move_spec members' o (initial_load members' o)) as Hi.
  destruct (improving_move _ _ _) as [[g [t p] m m']|]; [|done].
  destruct Hi as (Hk & Hto & Hgap & H2). cbn [moved from to gap fst] in *.
  pose proof (least_loaded_spec members' (initial_load members' o) t) as Hs. rewrite Hto in Hs.
  destruct Hs as [Hs _]. destruct (Hok t p m Hk) as [Hm _].
  apply (subscribes_settled _ a) in Hm. pose proof (proj1 (subscribes_settled _ _ _ _) Hs) as Hs'.
  specialize (Hbalanced t p m m' Hk Hs'). destruct Hm as (sm & Hm & _), Hs as (sm' & Hm' & _).
  pose proof (initial_load_ok members' o) as Hl.
  rewrite (loads_ok_of _ _ _ m Hl (ex_intro _ sm Hm)),
    (loads_ok_of _ _ _ m' Hl (ex_intro _ sm' Hm')) in Hgap. lia.
Qed.

Lemma uniform_settled : uniform members' topics = a.
Proof using Hok Htotal Hbalanced.
  unfold uniform, balanced_owner, filled. rewrite keep_settled, fill_settled.
  assert (Hb : forall fuel, balance fuel members' (o, initial_load members' o)
                            = (o, initial_load members' o)).
  { intros [|fuel]; cbn; [done|]. by rewrite no_move_settled. }
  rewrite Hb. cbn [fst]. unfold a, collect. f_equal. unfold unassigned. apply map_eq. intros m.
  rewrite !lookup_fmap. unfold members'. rewrite lookup_settled. by destruct (members !! m).
Qed.
End settled.

Lemma assign_sound assignor members topics :
  (forall t count, topics !! t = Some count -> 0 <= count) -> previous_ok members ->
  sound members topics (assign assignor members topics).
Proof.
  intros Hc Hp. unfold assign.
  case_bool_decide; [by apply range_sound|by apply exact_sound, uniform_exact].
Qed.

(** ** Properties *)

(** C27 The target of a consumer group is an exact partition.  Whatever assignor
    the group runs, every partition of a topic somebody subscribes to is the
    target of exactly one member, a subscriber; nothing that does not exist is
    assigned; and every member has an answer. *)
Theorem assign_exact (assignor : bytes) (members : Members) (topics : Topics) :
  (forall t count, topics !! t = Some count -> 0 <= count) ->
  Z.of_nat (size members) < 2 ^ 31 -> previous_ok members ->
  exact members topics (assign assignor members topics).
Proof.
  intros Hc Hsize Hp. unfold assign. case_bool_decide; [by apply range_exact|by apply uniform_exact].
Qed.

(** The balancing loop of [uniform] ends, and ends balanced: every move it
    makes strictly lowers the sum of the squared loads, after at most that many
    moves none is left, and then a member holds at most one partition more than
    any other subscriber of a topic it holds a partition of. *)
Theorem uniform_terminates (members : Members) (topics : Topics) :
  previous_ok members ->
  let s := filled members topics in
  let s' := balance (Z.to_nat (energy s.2)) members s in
  improving_move members s'.1 s'.2 = None /\
  (forall o load m, state_ok members topics (o, load) -> improving_move members o load = Some m ->
     energy (apply_move (o, load) m).2 < energy load) /\
  forall m m' t p, assigned_to (uniform members topics) m (t, p) -> subscribes members m' t ->
    (load_in (uniform members topics) m <= load_in (uniform members topics) m' + 1)%nat.
Proof.
  intros Hp. cbn zeta. destruct (filled_ok members topics Hp) as [Hs _]. split_and!.
  - eapply balance_ok; [done|]. pose proof (energy_nonneg (filled members topics).2). lia.
  - intros o load m Hok Hm. pose proof (improving_move_spec members o load) as Hi. rewrite Hm in Hi.
    by apply (apply_move_ok members topics).
  - intros m m' t p Ha Hm'. destruct (balanced_owner_ok members topics Hp) as (Ho & _ & Hb).
    unfold uniform in *. rewrite !(load_in_owned members topics) by done.
    eapply Hb; [|done]. by apply (collect_spec members topics _ Ho).
Qed.

(** [uniform] is sticky: computed again for the same members and topics once
    the members hold their targets, the target moves no partition. *)
Theorem uniform_sticky (members : Members) (topics : Topics) :
  previous_ok members ->
  let a := uniform members topics in
  uniform (settled_specs members a) topics = a.
Proof.
  intros Hp. destruct (balanced_owner_ok members topics Hp) as (Ho & Ht & Hb).
  by apply uniform_settled.
Qed.

(** ** A group of three *)

Definition sample_members : Members :=
  {[ ascii_bytes "a" := mkSpec {[1; 2]} {[1 := {[0; 1; 2; 3]}]};
     ascii_bytes "b" := mkSpec {[1; 2]} ∅;
     ascii_bytes "c" := mkSpec {[2]} ∅ ]}.
Definition sample_topics : Topics := {[1 := 4; 2 := 3]}.

Lemma previous_ok_forall members :
  map_Forall (fun _ spec => map_Forall (fun _ ps => set_Forall (fun p => 0 <= p) ps) (previous spec))
    members -> previous_ok members.
Proof.
  intros H m spec t p Hm (ps & Hps & Hp)%elem_of_flatten. exact (H m spec Hm t ps Hps p Hp).
Qed.

Lemma sample_previous : previous_ok sample_members.
Proof. apply previous_ok_forall. refine (bool_decide_unpack _ _). by vm_compute. Qed.

Lemma sample_counts t count : sample_topics !! t = Some count -> 0 <= count.
Proof.
  revert t count. change (map_Forall (fun _ count => 0 <= count) sample_topics).
  refine (bool_decide_unpack _ _). by vm_compute.
Qed.

Lemma assign_exact_witness :
  exact sample_members sample_topics (assign RANGE sample_members sample_topics) /\
  assign RANGE sample_members sample_topics !! ascii_bytes "a" = Some {[1 := {[0; 1]}; 2 := {[0]}]}.
Proof.
  split; [|by vm_compute].
  apply assign_exact; [apply sample_counts|by vm_compute|apply sample_previous].
Defined.

Lemma uniform_terminates_witness :
  assigned_to (uniform sample_members sample_topics) (ascii_bytes "a") (1, 3) /\
  (load_in (uniform sample_members sample_topics) (ascii_bytes "a")
   <= load_in (uniform sample_members sample_topics) (ascii_bytes "b") + 1)%nat.
Proof.
  assert (H : assigned_to (uniform sample_members sample_topics) (ascii_bytes "a") (1, 3)).
  { unfold assigned_to. refine (bool_decide_unpack _ _). by vm_compute. }
  split; [exact H|].
  apply (proj2 (proj2 (uniform_terminates sample_members sample_topics sample_previous))) with (t := 1) (p := 3).
  - exact H.
  - exists (mkSpec {[1; 2]} ∅). split; [by vm_compute|set_solver].
Defined.

Lemma uniform_sticky_witness :
  uniform (settled_specs sample_members (uniform sample_members sample_topics)) sample_topics
  = uniform sample_members sample_topics.
Proof. apply (uniform_sticky sample_members sample_topics sample_previous). Defined.
