(* ===== verification/GroupDoc.v ===== *)
(** * GroupDoc: the objects of a classic group

    [tansu-storage/src/group.rs]: the generation document every replica
    contends on, a document per member, and the assignment of a generation.
    Fields this binary does not know are carried along unchanged by the code
    and left out here. *)

From S2P Require Export Ordered.

Definition sat_i32 (z : Z) : Z := Z.max (- 2 ^ 31) (Z.min z i32_MAX).

Definition UnknownMemberId : error := Api 25.

Inductive ConsumerGroupState :=
  | Unknown | PreparingRebalance | CompletingRebalance | StableGroup
  | Dead | Empty | Assigning | Reconciling.

Module MemberDoc.
Record t := mk {
  seq : Z;
  last_contact_ms : Z;
  session_timeout_ms : Z;
  rebalance_timeout_ms : option Z;
  group_instance_id : option bytes;
  protocol_name : option bytes;
  (** [join_response.metadata]; the rest of it repeats the ids above. *)
  metadata : bytes;
}.

Definition bumped (d : t) : t :=
  mk (wrap_u 64 (seq d + 1)) (last_contact_ms d) (session_timeout_ms d) (rebalance_timeout_ms d)
    (group_instance_id d) (protocol_name d) (metadata d).

Definition lapses_after_ms (d : t) : Z :=
  sat_i64 (session_timeout_ms d + Z.quot (session_timeout_ms d) 2).

Definition is_expired (d : t) (now_ms : Z) : bool :=
  lapses_after_ms d <? sat_i64 (now_ms - last_contact_ms d).
End MemberDoc.
Abbreviation MemberDoc := MemberDoc.t.

Record MemberRef := mkMemberRef { ref_instance_id : option bytes }.

Module Generation.
Record t := mk {
  seq : Z;
  generation_id : Z;
  protocol_type : option bytes;
  protocol_name : option bytes;
  leader : option bytes;
  members : gmap bytes MemberRef;
  members_changed_at_ms : Z;
  state_since_ms : Z;
  swept_at_ms : Z;
  session_timeout_ms : Z;
  rebalance_timeout_ms : option Z;
  skip_assignment : option bool;
  inception_ms : Z;
  consumer_since_ms : option Z;
}.

Definition is_converted (g : t) : bool := bool_decide (is_Some (consumer_since_ms g)).

Definition state (g : t) (assignment_present : bool) : ConsumerGroupState :=
  if bool_decide (members g = ∅) then Empty
  else if bool_decide (leader g = None) then Assigning
  else if assignment_present then StableGroup
  else CompletingRebalance.
End Generation.
Abbreviation GenerationDoc := Generation.t.

Module AssignmentDoc.
Record t := mk {
  generation_id : Z;
  leader : bytes;
  protocol_type : bytes;
  protocol_name : bytes;
  assignments : gmap bytes bytes;
  assigned_at_ms : Z;
}.
End AssignmentDoc.
Abbreviation AssignmentDoc := AssignmentDoc.t.
