(* ===== verification/ClassicGroup.v ===== *)
(** * ClassicGroup: the classic group coordinator

    [tansu-broker/src/coordinator/group/administrator.rs]: what a [JoinGroup],
    [SyncGroup], [Heartbeat] or [LeaveGroup] does to a group's objects
    ([GroupDoc]), and when a long poll is answered.  A request reads the
    objects, computes its writes from what it read, and makes them under the
    versions it read them at; this file has the computations, and
    [Generations] what any interleaving of them keeps.

    Bodies carry the fields the code sets from the group; the constants of a
    response are left out.  Durations are milliseconds. *)

From S2P Require Export GroupDoc ConsumerProtocol.

Definition PAUSE_MS : Z := 3000.
Definition JOIN_QUIESCENCE : Z := 3000.
Definition ADMISSION_DEFER : Z := 2000.
Definition DEFAULT_SESSION_TIMEOUT_MS : Z := 45000.
Definition REBALANCE_STALL_FLOOR : Z := 120000.
Definition CONSUMER_PROTOCOL_HEADER_LEN : nat := 2.

(** Error codes of answers. *)
Definition NO_ERROR : Z := 0.
Definition ILLEGAL_GENERATION : Z := 22.
Definition INCONSISTENT_GROUP_PROTOCOL : Z := 23.
Definition UNKNOWN_MEMBER_ID : Z := 25.
Definition REBALANCE_IN_PROGRESS : Z := 27.
Definition INVALID_REQUEST : Z := 42.
Definition MEMBER_ID_REQUIRED : Z := 79.

(** ** Verdicts *)

(** [cas_conflict_backoff] before its jitter, and the most it can be with it. *)
Definition backoff_base (attempt : Z) : Z := Z.min (5 * Z.shiftl 1 (Z.min attempt 7)) 500.
Definition backoff_most (attempt : Z) : Z := backoff_base attempt + backoff_base attempt / 2.

Definition session_timeout_or_default (session_timeout_ms : Z) : Z :=
  if 0 <? session_timeout_ms then session_timeout_ms else DEFAULT_SESSION_TIMEOUT_MS.

Definition admission_freshness_ms (session_timeout_ms : Z) : Z :=
  Z.quot (session_timeout_or_default session_timeout_ms) 4.

Inductive Admission := Defer | BatchAll.

Definition admission (pending : gset bytes) (member_id : bytes) (deferred_for : Z) : Admission :=
  match set_list pending with
  | admitter :: _ =>
      match bytes_cmp admitter member_id with
      | Lt => if deferred_for <? ADMISSION_DEFER then Defer else BatchAll
      | _ => BatchAll
      end
  | [] => BatchAll
  end.

(** [Vec::sort] on topic names. *)
Definition sort_names (l : list bytes) : list bytes := merge_sort key_le l.

Definition same_subscription_topics (a b : bytes) : bool :=
  match metadata_decode a, metadata_decode b with
  | Ok a, Ok b =>
      bool_decide (sort_names (Subscription.topics (Metadata.subscription a))
                   = sort_names (Subscription.topics (Metadata.subscription b)))
  | _, _ => false
  end.

Definition liveness_renewal_due (member : option MemberDoc) (now_ms session_timeout_ms : Z) : bool :=
  match member with
  | None => true
  | Some m => Z.quot (session_timeout_or_default session_timeout_ms) 2
              <=? sat_i64 (now_ms - MemberDoc.last_contact_ms m)
  end.

Definition stall_after (rebalance_timeout_ms : option Z) : Z :=
  match rebalance_timeout_ms with
  | Some ms => if 0 <? ms then Z.max ms REBALANCE_STALL_FLOOR else REBALANCE_STALL_FLOOR
  | None => REBALANCE_STALL_FLOOR
  end.

(** ** The group as read *)

Module View.
Record GroupView (V : Type) := mk {
  generation : GenerationDoc;
  version : option V;
  assignment : option AssignmentDoc;
}.
Arguments mk {V} _ _ _.
Arguments generation {V} _.
Arguments version {V} _.
Arguments assignment {V} _.
End View.
Export View (GroupView).

Definition generation_default : GenerationDoc :=
  Generation.mk 0 0 None None None ∅ 0 0 0 0 None None 0 None.

Definition generation_bumped (g : GenerationDoc) : GenerationDoc :=
  Generation.mk (wrap_u 64 (Generation.seq g + 1)) (Generation.generation_id g) (Generation.protocol_type g)
    (Generation.protocol_name g) (Generation.leader g) (Generation.members g)
    (Generation.members_changed_at_ms g) (Generation.state_since_ms g) (Generation.swept_at_ms g)
    (Generation.session_timeout_ms g) (Generation.rebalance_timeout_ms g) (Generation.skip_assignment g)
    (Generation.inception_ms g) (Generation.consumer_since_ms g).

Definition set_members (ms : gmap bytes MemberRef) (g : GenerationDoc) : GenerationDoc :=
  Generation.mk (Generation.seq g) (Generation.generation_id g) (Generation.protocol_type g)
    (Generation.protocol_name g) (Generation.leader g) ms
    (Generation.members_changed_at_ms g) (Generation.state_since_ms g) (Generation.swept_at_ms g)
    (Generation.session_timeout_ms g) (Generation.rebalance_timeout_ms g) (Generation.skip_assignment g)
    (Generation.inception_ms g) (Generation.consumer_since_ms g).

Definition set_leader (l : option bytes) (g : GenerationDoc) : GenerationDoc :=
  Generation.mk (Generation.seq g) (Generation.generation_id g) (Generation.protocol_type g)
    (Generation.protocol_name g) l (Generation.members g)
    (Generation.members_changed_at_ms g) (Generation.state_since_ms g) (Generation.swept_at_ms g)
    (Generation.session_timeout_ms g) (Generation.rebalance_timeout_ms g) (Generation.skip_assignment g)
    (Generation.inception_ms g) (Generation.consumer_since_ms g).

Definition set_state_since_ms (now_ms : Z) (g : GenerationDoc) : GenerationDoc :=
  Generation.mk (Generation.seq g) (Generation.generation_id g) (Generation.protocol_type g)
    (Generation.protocol_name g) (Generation.leader g) (Generation.members g)
    (Generation.members_changed_at_ms g) now_ms (Generation.swept_at_ms g)
    (Generation.session_timeout_ms g) (Generation.rebalance_timeout_ms g) (Generation.skip_assignment g)
    (Generation.inception_ms g) (Generation.consumer_since_ms g).

Definition set_swept_at_ms (now_ms : Z) (g : GenerationDoc) : GenerationDoc :=
  Generation.mk (Generation.seq g) (Generation.generation_id g) (Generation.protocol_type g)
    (Generation.protocol_name g) (Generation.leader g) (Generation.members g)
    (Generation.members_changed_at_ms g) (Generation.state_since_ms g) now_ms
    (Generation.session_timeout_ms g) (Generation.rebalance_timeout_ms g) (Generation.skip_assignment g)
    (Generation.inception_ms g) (Generation.consumer_since_ms g).

Definition set_consumer_since_ms (since : option Z) (g : GenerationDoc) : GenerationDoc :=
  Generation.mk (Generation.seq g) (Generation.generation_id g) (Generation.protocol_type g)
    (Generation.protocol_name g) (Generation.leader g) (Generation.members g)
    (Generation.members_changed_at_ms g) (Generation.state_since_ms g) (Generation.swept_at_ms g)
    (Generation.session_timeout_ms g) (Generation.rebalance_timeout_ms g) (Generation.skip_assignment g)
    (Generation.inception_ms g) since.

(** [GroupView::rebalanced]. *)
Definition rebalanced (g : GenerationDoc) (now_ms : Z) : GenerationDoc :=
  Generation.mk (Generation.seq g) (sat_i32 (Generation.generation_id g + 1)) (Generation.protocol_type g)
    (Generation.protocol_name g) (Generation.leader g) (Generation.members g)
    now_ms now_ms (Generation.swept_at_ms g)
    (Generation.session_timeout_ms g) (Generation.rebalance_timeout_ms g) (Generation.skip_assignment g)
    (Generation.inception_ms g) (Generation.consumer_since_ms g).

Section views.
Context {V : Type}.
Implicit Types v : GroupView V.

Definition view_exists v : bool := bool_decide (is_Some (View.version v)).
Definition view_generation_id v : Z := Generation.generation_id (View.generation v).
Definition view_leader v : option bytes := Generation.leader (View.generation v).
Definition view_session_timeout_ms v : Z :=
  session_timeout_or_default (Generation.session_timeout_ms (View.generation v)).

Definition assignments v : option (gmap bytes bytes) :=
  match View.assignment v with
  | Some a => if AssignmentDoc.generation_id a =? view_generation_id v
              then Some (AssignmentDoc.assignments a) else None
  | None => None
  end.

Definition view_state v : ConsumerGroupState :=
  Generation.state (View.generation v) (bool_decide (is_Some (assignments v))).

Definition is_forming v : bool :=
  bool_decide (view_leader v = None) || bool_decide (assignments v = None).

(** [Controller::read_view]: the generation, then its assignment when it can have one. *)
Definition read_view (generation : option (GenerationDoc * V)) (assignment_of : Z -> option AssignmentDoc)
    : GroupView V :=
  match generation with
  | None => View.mk generation_default None None
  | Some (g, version) =>
      View.mk g (Some version)
        (if bool_decide (is_Some (Generation.leader g)) && (0 <=? Generation.generation_id g)
         then assignment_of (Generation.generation_id g) else None)
  end.
End views.

(** ** Answers *)

Record JoinBody := mkJoinBody {
  join_error_code : Z;
  join_generation_id : Z;
  join_body_leader : bytes;
  join_body_member_id : bytes;
  join_body_members : list (bytes * bytes);
}.

Record SyncBody := mkSyncBody { sync_error_code : Z; sync_assignment : bytes }.

Section answers.
Context {V : Type}.
Implicit Types v : GroupView V.

Definition is_leader v (b : JoinBody) : bool := bool_decide (view_leader v = Some (join_body_member_id b)).
Definition join_is_assigned v (b : JoinBody) : bool :=
  (join_error_code b =? NO_ERROR)
  && match assignments v with
     | Some a => bool_decide (is_Some (a !! join_body_member_id b)) | None => false end.
Definition sync_is_assigned (b : SyncBody) : bool :=
  (sync_error_code b =? NO_ERROR) && negb (bool_decide (sync_assignment b = [])).
Definition is_member_id_required (b : JoinBody) : bool := join_error_code b =? MEMBER_ID_REQUIRED.

Definition sync_error (error_code : Z) : SyncBody := mkSyncBody error_code [].
Definition join_error v (error_code : Z) (member_id : bytes) : JoinBody :=
  mkJoinBody error_code (if view_exists v then view_generation_id v else -1) [] member_id [].

Inductive LongPoll := Wait (pause_ms : Z) | Respond (error_code : option Z).

Definition join_long_poll v (b : JoinBody) (elapsed_ms : Z) (forming membership_quiescent : bool)
    (join_window_ms : Z) : LongPoll :=
  if is_member_id_required b then Respond None
  else if is_leader v b && forming && negb membership_quiescent && (elapsed_ms <? join_window_ms)
  then Wait 1000
  else if is_leader v b then Respond None
  else if join_is_assigned v b then Respond None
  else if membership_quiescent && forming then Respond None
  else if elapsed_ms <? view_session_timeout_ms v / 2 then Wait 1000
  else Respond None.

Definition sync_long_poll v (b : SyncBody) (group_instance_id : option bytes) (elapsed_ms generation_id : Z)
    : LongPoll :=
  let session_timeout_ms := view_session_timeout_ms v in
  let awaiting_leader :=
    (generation_id =? view_generation_id v) && bool_decide (assignments v = None) in
  if sync_is_assigned b then Respond None
  else if awaiting_leader && (elapsed_ms <? session_timeout_ms / 2) then Wait 1000
  else if is_forming v then Respond None
  else if bool_decide (is_Some group_instance_id) && (elapsed_ms <? PAUSE_MS)
  then Wait (PAUSE_MS - elapsed_ms)
  else if elapsed_ms <? session_timeout_ms * 8 / 10 then Wait 1000
  else Respond (Some REBALANCE_IN_PROGRESS).
End answers.

(** ** [JoinGroup] *)

Module JoinReq.
Record t := mk {
  client_id : option bytes;
  session_timeout_ms : Z;
  rebalance_timeout_ms : option Z;
  member_id : bytes;
  group_instance_id : option bytes;
  protocol_type : bytes;
  protocols : list (bytes * bytes);
}.
End JoinReq.
Abbreviation JoinReq := JoinReq.t.

(** What an iteration reads besides the group. *)
Module Seen.
Record t := mk {
  held : option MemberDoc;             (** the member's own document *)
  stamps : option (gmap bytes Z);      (** the listing of stamps, [None] when it failed *)
  docs : gmap bytes MemberDoc;         (** the documents a batch admission reads *)
  elapsed_ms : Z;                      (** since the call started polling *)
  stopping : bool;                     (** the replica is stopping *)
  minted : bytes;                      (** the id kept for a new static member *)
  uuid : bytes;
  now_ms : Z;
}.
End Seen.
Abbreviation Seen := Seen.t.

(** The protocol of the group, or the member's first. *)
Definition join_protocol (g : GenerationDoc) (protocols : list (bytes * bytes)) : Z + bytes * bytes :=
  match protocols with
  | [] => inl INVALID_REQUEST
  | first :: _ =>
      match Generation.protocol_name g with
      | Some name =>
          match find (fun p => bool_decide (p.1 = name)) protocols with
          | Some p => inr p
          | None => inl INCONSISTENT_GROUP_PROTOCOL
          end
      | None => inr first
      end
  end.

Definition instance_holder (ms : gmap bytes MemberRef) (instance : bytes) : option bytes :=
  fst <$> head (filter (fun x => ref_instance_id x.2 = Some instance) (entries_of ms)).

Definition join_member_id (g : GenerationDoc) (r : JoinReq) (minted : bytes) : bytes :=
  match JoinReq.group_instance_id r with
  | None => JoinReq.member_id r
  | Some instance =>
      if negb (bool_decide (JoinReq.member_id r = [])) then JoinReq.member_id r
      else default minted (instance_holder (Generation.members g) instance)
  end.

(** Whether the join changes the composition of the group. *)
Definition membership_changed (g : GenerationDoc) (member_id metadata : bytes) (held : option MemberDoc) : bool :=
  match Generation.members g !! member_id with
  | None => true
  | Some _ =>
      match held with
      | None => true
      | Some m =>
          negb (bool_decide (MemberDoc.metadata m = metadata))
          && negb (same_subscription_topics (MemberDoc.metadata m) metadata)
      end
  end.

(** The first member to join settles the protocol and the timeouts. *)
Definition settle_protocol (exists_ : bool) (g : GenerationDoc) (r : JoinReq) (protocol_name : bytes) (now_ms : Z)
    : GenerationDoc * bool :=
  let '(g, write) :=
    match Generation.protocol_name g with
    | Some _ => (g, negb exists_)
    | None =>
        (Generation.mk (Generation.seq g) (Generation.generation_id g) (Some (JoinReq.protocol_type r))
           (Some protocol_name) (Generation.leader g) (Generation.members g)
           (Generation.members_changed_at_ms g) (Generation.state_since_ms g) (Generation.swept_at_ms g)
           (JoinReq.session_timeout_ms r) (JoinReq.rebalance_timeout_ms r) (Generation.skip_assignment g)
           (Generation.inception_ms g) (Generation.consumer_since_ms g), true)
    end in
  if exists_ then (g, write)
  else (Generation.mk (Generation.seq g) (-1) (Generation.protocol_type g) (Generation.protocol_name g)
          (Generation.leader g) (Generation.members g) (Generation.members_changed_at_ms g) now_ms now_ms
          (Generation.session_timeout_ms g) (Generation.rebalance_timeout_ms g) (Some false)
          now_ms (Generation.consumer_since_ms g), write).

(** A leader that is no longer a member is cleared. *)
Definition heal_leader (g : GenerationDoc) : GenerationDoc :=
  match Generation.leader g with
  | Some l => if bool_decide (is_Some (Generation.members g !! l)) then g else set_leader None g
  | None => g
  end.

(** The generation a join leaves, before any batch, and whether it is written. *)
Definition join_next (exists_ : bool) (g : GenerationDoc) (r : JoinReq) (protocol : bytes * bytes)
    (member_id : bytes) (held : option MemberDoc) (now_ms : Z) : GenerationDoc * bool :=
  let '(next, write) := settle_protocol exists_ g r protocol.1 now_ms in
  let '(next, write) :=
    if membership_changed g member_id protocol.2 held
    then (rebalanced (set_members (<[member_id := mkMemberRef (JoinReq.group_instance_id r)]>
                        (Generation.members next)) next) now_ms, true)
    else (next, write) in
  let next := heal_leader next in
  match Generation.leader next with
  | None => (set_state_since_ms now_ms (set_leader (Some member_id) next), true)
  | Some _ => (next, write)
  end.

(** The member's document, and whether it is written. *)
Definition join_member_doc (next : GenerationDoc) (r : JoinReq) (protocol : bytes * bytes)
    (held : option MemberDoc) (now_ms : Z) : option MemberDoc :=
  let member := MemberDoc.mk (from_option MemberDoc.seq 0 held) now_ms (Generation.session_timeout_ms next)
                  (Generation.rebalance_timeout_ms next) (JoinReq.group_instance_id r) (Some protocol.1)
                  protocol.2 in
  let member_changed :=
    match held with
    | None => true
    | Some h =>
        negb (bool_decide (MemberDoc.group_instance_id h = JoinReq.group_instance_id r))
        || negb (bool_decide (MemberDoc.metadata h = protocol.2))
        || negb (bool_decide (MemberDoc.protocol_name h = Some protocol.1))
    end in
  if member_changed || liveness_renewal_due held now_ms (Generation.session_timeout_ms next)
  then Some (MemberDoc.bumped member) else None.

Definition pending_admissions (g : GenerationDoc) (stamps : option (gmap bytes Z)) (member_id : bytes)
    (now_ms : Z) : gset bytes :=
  match stamps with
  | None => ∅
  | Some stamps =>
      dom (filter (fun x => x.1 <> member_id /\ Generation.members g !! x.1 = None /\
             sat_i64 (now_ms - x.2) <= admission_freshness_ms (Generation.session_timeout_ms g)) stamps)
  end.

Definition member_ref (protocol_name : option bytes) (doc : MemberDoc) : option MemberRef :=
  match MemberDoc.protocol_name doc, protocol_name with
  | Some joined_under, Some protocol_name =>
      if bool_decide (joined_under = protocol_name) then Some (mkMemberRef (MemberDoc.group_instance_id doc))
      else None
  | _, _ => Some (mkMemberRef (MemberDoc.group_instance_id doc))
  end.

Definition member_refs (protocol_name : option bytes) (pending : gset bytes) (docs : gmap bytes MemberDoc)
    : gmap bytes MemberRef :=
  omap (member_ref protocol_name) (filter (fun x => x.1 ∈ pending) docs).

(** What an iteration of [join] sets out to do. *)
Inductive JoinPlan :=
  | PlanAnswer (b : JoinBody)
  | PlanDefer (member_id : bytes) (member : option MemberDoc)
  | PlanWrite (member_id : bytes) (member : option MemberDoc) (next : GenerationDoc) (write : bool).

Definition join_plan {V} (v : GroupView V) (r : JoinReq) (s : Seen) : JoinPlan :=
  let g := View.generation v in
  match join_protocol g (JoinReq.protocols r) with
  | inl error_code => PlanAnswer (join_error v error_code [])
  | inr protocol =>
      if bool_decide (JoinReq.member_id r = []) && bool_decide (JoinReq.group_instance_id r = None)
      then PlanAnswer (mkJoinBody MEMBER_ID_REQUIRED (-1) []
             (match JoinReq.client_id r with
              | Some client_id => client_id ++ ascii_bytes "-" ++ Seen.uuid s
              | None => Seen.uuid s end) [])
      else
        let member_id := join_member_id g r (Seen.minted s) in
        let '(next, write) :=
          join_next (view_exists v) g r protocol member_id (Seen.held s) (Seen.now_ms s) in
        let member := join_member_doc next r protocol (Seen.held s) (Seen.now_ms s) in
        if write && bool_decide (Generation.members g !! member_id = None) then
          let pending := pending_admissions g (Seen.stamps s) member_id (Seen.now_ms s) in
          match admission pending member_id (Seen.elapsed_ms s) with
          | Defer => if Seen.stopping s then PlanWrite member_id member next write
                     else PlanDefer member_id member
          | BatchAll =>
              PlanWrite member_id member
                (set_members (member_refs (Generation.protocol_name next) pending (Seen.docs s)
                              ∪ Generation.members next) next) write
          end
        else PlanWrite member_id member next write
  end.

(** The member list of the leader's answer, when it can be built whole. *)
Definition join_members (g : GenerationDoc) (docs : gmap bytes MemberDoc) : option (list (bytes * bytes)) :=
  let consumer_protocol := bool_decide (Generation.protocol_type g = Some CONSUMER) in
  mapM (fun x =>
    match docs !! x.1 with
    | None => None
    | Some doc =>
        if consumer_protocol && (length (MemberDoc.metadata doc) <? CONSUMER_PROTOCOL_HEADER_LEN)%nat
        then None else Some (x.1, MemberDoc.metadata doc)
    end) (entries_of (Generation.members g)).

(** What is made of an iteration: the writes it asked for, and how they went. *)
Inductive JoinOutcome := Again | JoinAnswered (b : JoinBody).

(** The group after the write of [next], or as it was when nothing was written. *)
Definition joined_view {V} (v : GroupView V) (next : GenerationDoc) (write : bool) (version : V) : GroupView V :=
  if write
  then View.mk (generation_bumped next) (Some version)
         (if Generation.generation_id next =? view_generation_id v then View.assignment v else None)
  else v.

(** The answer of an iteration whose writes went through; [waits] says whether a
    pause is waited out rather than cut short by a stop. *)
Definition join_answer {V} (v : GroupView V) (r : JoinReq) (member_id : bytes) (elapsed_ms now_ms : Z)
    (waits : bool) (docs : gmap bytes MemberDoc) : JoinOutcome :=
  let g := View.generation v in
  let body := mkJoinBody NO_ERROR (view_generation_id v) (default [] (view_leader v)) member_id [] in
  let quiescent := JOIN_QUIESCENCE <=? Z.max 0 (sat_i64 (now_ms - Generation.members_changed_at_ms g)) in
  let window := Z.max 0 (default (view_session_timeout_ms v)
                  (match Generation.rebalance_timeout_ms g with
                   | Some ms => Some ms | None => JoinReq.rebalance_timeout_ms r end)) in
  match join_long_poll v body elapsed_ms (is_forming v) quiescent window, waits with
  | Wait _, true => Again
  | _, _ =>
      if bool_decide (view_leader v = Some member_id) then
        match join_members g docs with
        | Some members => JoinAnswered (mkJoinBody NO_ERROR (view_generation_id v)
                            (default [] (view_leader v)) member_id members)
        | None => JoinAnswered (join_error v REBALANCE_IN_PROGRESS member_id)
        end
      else JoinAnswered body
  end.

(** ** [SyncGroup] *)

(** One iteration of [sync], up to the write the leader makes. *)
Inductive SyncPlan := SyncAnswer (b : SyncBody) | SyncAssign (a : AssignmentDoc).

Definition sync_plan {V} (v : GroupView V) (generation_id : Z) (member_id : bytes)
    (requested : option (list (bytes * bytes))) (now_ms : Z) : SyncPlan :=
  let g := View.generation v in
  if negb (view_exists v) || bool_decide (Generation.members g !! member_id = None)
  then SyncAnswer (sync_error UNKNOWN_MEMBER_ID)
  else if view_generation_id v <? generation_id then SyncAnswer (sync_error ILLEGAL_GENERATION)
  else if generation_id <? view_generation_id v then SyncAnswer (sync_error REBALANCE_IN_PROGRESS)
  else
    match assignments v with
    | Some a =>
        match a !! member_id with
        | None => SyncAnswer (sync_error REBALANCE_IN_PROGRESS)
        | Some assignment => SyncAnswer (mkSyncBody NO_ERROR assignment)
        end
    | None =>
        if negb (bool_decide (view_leader v = Some member_id))
        then SyncAnswer (sync_error REBALANCE_IN_PROGRESS)
        else
          let requested : gmap bytes bytes :=
            fold_left (fun acc x => <[x.1 := x.2]> acc) (default [] requested) ∅ in
          if bool_decide (requested !! member_id = None)
          then SyncAnswer (sync_error REBALANCE_IN_PROGRESS)
          else SyncAssign (AssignmentDoc.mk (view_generation_id v) member_id
                 (default CONSUMER (Generation.protocol_type g)) (default [] (Generation.protocol_name g))
                 requested now_ms)
    end.

(** After the create, or after finding what is stored: the group is read again. *)
Definition sync_assigned {V} (v after : GroupView V) (member_id : bytes) (stored : AssignmentDoc) : SyncBody :=
  if negb (view_generation_id after =? view_generation_id v) then sync_error REBALANCE_IN_PROGRESS
  else mkSyncBody NO_ERROR (default [] (AssignmentDoc.assignments stored !! member_id)).

(** ** [Heartbeat] and [LeaveGroup] *)

Definition heartbeat_verdict {V} (v : GroupView V) (generation_id : Z) (member_id : bytes) : Z :=
  if negb (view_exists v) || bool_decide (Generation.members (View.generation v) !! member_id = None)
  then UNKNOWN_MEMBER_ID
  else if view_generation_id v <? generation_id then ILLEGAL_GENERATION
  else if generation_id <? view_generation_id v then REBALANCE_IN_PROGRESS
  else NO_ERROR.

(** One departing identity: by its id, or by the instance it claims. *)
Definition leaver (ms : gmap bytes MemberRef) (who : bytes * option bytes) : option bytes :=
  if bool_decide (is_Some (ms !! who.1)) then Some who.1 else who.2 ≫= instance_holder ms.

Fixpoint leave_all (ms : gmap bytes MemberRef) (departing : list (bytes * option bytes))
    : gmap bytes MemberRef * list bytes * list Z :=
  match departing with
  | [] => (ms, [], [])
  | who :: departing =>
      let named := leaver ms who in
      let ms := match named with Some id => delete id ms | None => ms end in
      let '(ms, left_, codes) := leave_all ms departing in
      (ms, match named with Some id => id :: left_ | None => left_ end,
       (if bool_decide (is_Some named) then NO_ERROR else UNKNOWN_MEMBER_ID) :: codes)
  end.

(** The generation a leave writes, and its per-member codes. *)
Definition leave_plan (g : GenerationDoc) (departing : list (bytes * option bytes)) (now_ms : Z)
    : option GenerationDoc * list Z :=
  let '(ms, left_, codes) := leave_all (Generation.members g) departing in
  (match left_ with
   | [] => None
   | _ => Some (heal_leader (rebalanced (set_members ms g) now_ms))
   end, codes).

(** ** The sweep *)

Definition sweep_due {V} (v : GroupView V) (now_ms : Z) : bool :=
  view_exists v && negb (bool_decide (Generation.members (View.generation v) = ∅))
  && negb (Generation.is_converted (View.generation v))
  && (Z.quot (view_session_timeout_ms v) 2
      <=? sat_i64 (now_ms - Generation.swept_at_ms (View.generation v))).

(** The claim, written before a member document is read. *)
Definition sweep_claim (g : GenerationDoc) (now_ms : Z) : GenerationDoc := set_swept_at_ms now_ms g.

Definition expired_members (g : GenerationDoc) (docs : gmap bytes MemberDoc) (now_ms : Z) : gset bytes :=
  dom (filter (fun x => from_option (fun doc => MemberDoc.is_expired doc now_ms) true (docs !! x.1) = true)
         (Generation.members g)).

Definition sweep_evict (g : GenerationDoc) (expired : gset bytes) (now_ms : Z) : GenerationDoc :=
  set_leader None (rebalanced (set_members (filter (fun x => x.1 ∉ expired) (Generation.members g)) g) now_ms).

(** ** Conversion and its reversal *)

Definition mark_converted (g : GenerationDoc) (now_ms : Z) : GenerationDoc :=
  set_consumer_since_ms (Some now_ms) g.

Definition take_back (g : GenerationDoc) (now_ms : Z) : GenerationDoc :=
  rebalanced (set_leader None (set_members ∅ (set_consumer_since_ms None g))) now_ms.

(** ** Commits *)

(** [stale_commit_verdict]. *)
Definition stale_commit_verdict (current claimed : Z) (assigned : bool) : option Z :=
  if negb (s_range 32 (current - 1) && (current - 1 =? claimed)) then Some ILLEGAL_GENERATION
  else if assigned then Some REBALANCE_IN_PROGRESS else None.

(** The fence of [offset_commit] for a member the classic generation names. *)
Definition commit_verdict (g : GenerationDoc) (claimed : Z) (assigned : bool) : option Z :=
  if Generation.generation_id g =? claimed then None
  else stale_commit_verdict (Generation.generation_id g) claimed assigned.

(** ** Which protocol serves a request *)

Inductive Route := Classic | Consumer | Reread.

(** A member of a generation or of a consumer group, by its id or its instance. *)
Definition known (ms : gmap bytes (option bytes)) (who : bytes * option bytes) : bool :=
  bool_decide (is_Some (ms !! who.1))
  || match who.2 with
     | Some instance => existsb (fun x => bool_decide (x.2 = Some instance)) (map_to_list ms)
     | None => false
     end.

(** [consumer_members] are the instance ids of the consumer group's members, and
    [live_consumer] whether one of them is alive. *)
Definition classic_route {V} (v : GroupView V) (named : list (bytes * option bytes)) (joining : bool)
    (live_consumer : bool) (consumer_members : option (gmap bytes (option bytes))) : Route :=
  let g := View.generation v in
  if Generation.is_converted g then if joining && negb live_consumer then Reread else Consumer
  else if joining then
    if bool_decide (Generation.members g = ∅) && live_consumer then Consumer else Classic
  else if existsb (known (ref_instance_id <$> Generation.members g)) named then Classic
  else match consumer_members with
       | None => Classic
       | Some ms => if existsb (known ms) named then Consumer else Classic
       end.

(** [join] asks once, and only of a group the consumer protocol may hold. *)
Definition join_route {V} (v : GroupView V) (consumer_checked live_consumer : bool) : Route :=
  let g := View.generation v in
  if negb consumer_checked && (Generation.is_converted g || bool_decide (Generation.members g = ∅))
  then classic_route v [] true live_consumer None
  else Classic.

Definition is_live_classic_generation (g : GenerationDoc) (docs : gmap bytes MemberDoc) (now_ms : Z) : bool :=
  negb (Generation.is_converted g)
  && existsb (fun id => negb (from_option (fun doc => MemberDoc.is_expired doc now_ms) false (docs !! id)))
       (entries_of (Generation.members g)).*1.

(** The refusals of [convert] that need the generation alone. *)
Definition convert_refused (disabled : bool) (max_size : option nat) (g : GenerationDoc) : bool :=
  disabled || negb (bool_decide (Generation.protocol_type g = Some CONSUMER))
  || match max_size with Some n => (n <? size (Generation.members g))%nat | None => false end.

(** [consumer_join_admission] and [convert], up to the write that marks the group;
    [convertible] is whether the consumer group can be built. *)
Definition convert_plan {V} (v : GroupView V) (live_consumer : bool) (docs : gmap bytes MemberDoc)
    (disabled : bool) (max_size : option nat) (convertible : bool) (now_ms : Z) : option GenerationDoc :=
  let g := View.generation v in
  if live_consumer || Generation.is_converted g || negb (is_live_classic_generation g docs now_ms)
     || convert_refused disabled max_size g || negb convertible
  then None else Some (mark_converted g now_ms).
