(* ===== verification/ConsumerGroup.v ===== *)
(** * ConsumerGroup: the KIP-848 heartbeat state machine

    [tansu-broker/src/coordinator/group/consumer.rs] ([apply] and everything it
    calls) over the group document of [tansu-storage/src/consumer_group.rs].
    The coordinator reads the document, applies one request and writes the
    result under its etag, so the history of a group is a sequence of [apply]s.

    A [u128] id minted with [Uuid::new_v4] is an argument.  The regular
    expression engine is a parameter: [compile] answers a pattern's whole-name
    match, or nothing when the pattern is not accepted.  Fields of the document
    this binary does not know are carried along unchanged by the code and left
    out here. *)

From S2P Require Export Assignor GroupDoc.

Definition InvalidRequest : error := Api 42.
Definition GroupMaxSizeReached : error := Api 81.
Definition FencedMemberEpoch : error := Api 110.
Definition UnreleasedInstanceId : error := Api 111.
Definition UnsupportedAssignor : error := Api 112.
Definition InvalidRegularExpression : error := Api 128.

(** ** The document *)

Inductive MemberState := Stable | UnrevokedPartitions | UnreleasedPartitions.

Module Topic.
Record SubscribedTopic := mk { name : bytes; partitions : Z }.
End Topic.
Export Topic (SubscribedTopic).

Module Classic.
Record ClassicMember := mk {
  session_timeout_ms : Z;
  protocol_name : bytes;
  protocols : list bytes;
  metadata : bytes;
}.
End Classic.
Export Classic (ClassicMember).

Module Member.
Record ConsumerMember := mk {
  member_epoch : Z;
  previous_member_epoch : Z;
  state : MemberState;
  instance_id : option bytes;
  rack_id : option bytes;
  client_id : bytes;
  client_host : bytes;
  subscribed_topic_names : list bytes;
  subscribed_topic_regex : option bytes;
  server_assignor : option bytes;
  rebalance_timeout_ms : Z;
  session_timeout_ms : Z;
  last_contact_ms : Z;
  revocation_deadline_ms : option Z;
  assigned : Partitions;
  pending_revocation : Partitions;
  target : Partitions;
  classic : option ClassicMember;
}.

Definition default : ConsumerMember :=
  mk 0 0 Stable None None [] [] [] None None 0 0 0 None ∅ ∅ ∅ None.

Definition set_member_epoch (v : Z) (m : ConsumerMember) : ConsumerMember :=
  mk v (previous_member_epoch m) (state m) (instance_id m) (rack_id m) (client_id m)
    (client_host m) (subscribed_topic_names m) (subscribed_topic_regex m) (server_assignor m)
    (rebalance_timeout_ms m) (session_timeout_ms m) (last_contact_ms m) (revocation_deadline_ms m)
    (assigned m) (pending_revocation m) (target m) (classic m).
Definition set_previous_member_epoch (v : Z) (m : ConsumerMember) : ConsumerMember :=
  mk (member_epoch m) v (state m) (instance_id m) (rack_id m) (client_id m) (client_host m)
    (subscribed_topic_names m) (subscribed_topic_regex m) (server_assignor m)
    (rebalance_timeout_ms m) (session_timeout_ms m) (last_contact_ms m) (revocation_deadline_ms m)
    (assigned m) (pending_revocation m) (target m) (classic m).
Definition set_state (v : MemberState) (m : ConsumerMember) : ConsumerMember :=
  mk (member_epoch m) (previous_member_epoch m) v (instance_id m) (rack_id m) (client_id m)
    (client_host m) (subscribed_topic_names m) (subscribed_topic_regex m) (server_assignor m)
    (rebalance_timeout_ms m) (session_timeout_ms m) (last_contact_ms m) (revocation_deadline_ms m)
    (assigned m) (pending_revocation m) (target m) (classic m).
Definition set_instance_id (v : option bytes) (m : ConsumerMember) : ConsumerMember :=
  mk (member_epoch m) (previous_member_epoch m) (state m) v (rack_id m) (client_id m)
    (client_host m) (subscribed_topic_names m) (subscribed_topic_regex m) (server_assignor m)
    (rebalance_timeout_ms m) (session_timeout_ms m) (last_contact_ms m) (revocation_deadline_ms m)
    (assigned m) (pending_revocation m) (target m) (classic m).
Definition set_rack_id (v : option bytes) (m : ConsumerMember) : ConsumerMember :=
  mk (member_epoch m) (previous_member_epoch m) (state m) (instance_id m) v (client_id m)
    (client_host m) (subscribed_topic_names m) (subscribed_topic_regex m) (server_assignor m)
    (rebalance_timeout_ms m) (session_timeout_ms m) (last_contact_ms m) (revocation_deadline_ms m)
    (assigned m) (pending_revocation m) (target m) (classic m).
Definition set_client_id (v : bytes) (m : ConsumerMember) : ConsumerMember :=
  mk (member_epoch m) (previous_member_epoch m) (state m) (instance_id m) (rack_id m) v
    (client_host m) (subscribed_topic_names m) (subscribed_topic_regex m) (server_assignor m)
    (rebalance_timeout_ms m) (session_timeout_ms m) (last_contact_ms m) (revocation_deadline_ms m)
    (assigned m) (pending_revocation m) (target m) (classic m).
Definition set_client_host (v : bytes) (m : ConsumerMember) : ConsumerMember :=
  mk (member_epoch m) (previous_member_epoch m) (state m) (instance_id m) (rack_id m)
    (client_id m) v (subscribed_topic_names m) (subscribed_topic_regex m) (server_assignor m)
    (rebalance_timeout_ms m) (session_timeout_ms m) (last_contact_ms m) (revocation_deadline_ms m)
    (assigned m) (pending_revocation m) (target m) (classic m).
Definition set_subscribed_topic_names (v : list bytes) (m : ConsumerMember) : ConsumerMember :=
  mk (member_epoch m) (previous_member_epoch m) (state m) (instance_id m) (rack_id m)
    (client_id m) (client_host m) v (subscribed_topic_regex m) (server_assignor m)
    (rebalance_timeout_ms m) (session_timeout_ms m) (last_contact_ms m) (revocation_deadline_ms m)
    (assigned m) (pending_revocation m) (target m) (classic m).
Definition set_subscribed_topic_regex (v : option bytes) (m : ConsumerMember) : ConsumerMember :=
  mk (member_epoch m) (previous_member_epoch m) (state m) (instance_id m) (rack_id m)
    (client_id m) (client_host m) (subscribed_topic_names m) v (server_assignor m)
    (rebalance_timeout_ms m) (session_timeout_ms m) (last_contact_ms m) (revocation_deadline_ms m)
    (assigned m) (pending_revocation m) (target m) (classic m).
Definition set_server_assignor (v : option bytes) (m : ConsumerMember) : ConsumerMember :=
  mk (member_epoch m) (previous_member_epoch m) (state m) (instance_id m) (rack_id m)
    (client_id m) (client_host m) (subscribed_topic_names m) (subscribed_topic_regex m) v
    (rebalance_timeout_ms m) (session_timeout_ms m) (last_contact_ms m) (revocation_deadline_ms m)
    (assigned m) (pending_revocation m) (target m) (classic m).
Definition set_rebalance_timeout_ms (v : Z) (m : ConsumerMember) : ConsumerMember :=
  mk (member_epoch m) (previous_member_epoch m) (state m) (instance_id m) (rack_id m)
    (client_id m) (client_host m) (subscribed_topic_names m) (subscribed_topic_regex m)
    (server_assignor m) v (session_timeout_ms m) (last_contact_ms m) (revocation_deadline_ms m)
    (assigned m) (pending_revocation m) (target m) (classic m).
Definition set_session_timeout_ms (v : Z) (m : ConsumerMember) : ConsumerMember :=
  mk (member_epoch m) (previous_member_epoch m) (state m) (instance_id m) (rack_id m)
    (client_id m) (client_host m) (subscribed_topic_names m) (subscribed_topic_regex m)
    (server_assignor m) (rebalance_timeout_ms m) v (last_contact_ms m) (revocation_deadline_ms m)
    (assigned m) (pending_revocation m) (target m) (classic m).
Definition set_last_contact_ms (v : Z) (m : ConsumerMember) : ConsumerMember :=
  mk (member_epoch m) (previous_member_epoch m) (state m) (instance_id m) (rack_id m)
    (client_id m) (client_host m) (subscribed_topic_names m) (subscribed_topic_regex m)
    (server_assignor m) (rebalance_timeout_ms m) (session_timeout_ms m) v
    (revocation_deadline_ms m) (assigned m) (pending_revocation m) (target m) (classic m).
Definition set_revocation_deadline_ms (v : option Z) (m : ConsumerMember) : ConsumerMember :=
  mk (member_epoch m) (previous_member_epoch m) (state m) (instance_id m) (rack_id m)
    (client_id m) (client_host m) (subscribed_topic_names m) (subscribed_topic_regex m)
    (server_assignor m) (rebalance_timeout_ms m) (session_timeout_ms m) (last_contact_ms m) v
    (assigned m) (pending_revocation m) (target m) (classic m).
Definition set_assigned (v : Partitions) (m : ConsumerMember) : ConsumerMember :=
  mk (member_epoch m) (previous_member_epoch m) (state m) (instance_id m) (rack_id m)
    (client_id m) (client_host m) (subscribed_topic_names m) (subscribed_topic_regex m)
    (server_assignor m) (rebalance_timeout_ms m) (session_timeout_ms m) (last_contact_ms m)
    (revocation_deadline_ms m) v (pending_revocation m) (target m) (classic m).
Definition set_pending_revocation (v : Partitions) (m : ConsumerMember) : ConsumerMember :=
  mk (member_epoch m) (previous_member_epoch m) (state m) (instance_id m) (rack_id m)
    (client_id m) (client_host m) (subscribed_topic_names m) (subscribed_topic_regex m)
    (server_assignor m) (rebalance_timeout_ms m) (session_timeout_ms m) (last_contact_ms m)
    (revocation_deadline_ms m) (assigned m) v (target m) (classic m).
Definition set_target (v : Partitions) (m : ConsumerMember) : ConsumerMember :=
  mk (member_epoch m) (previous_member_epoch m) (state m) (instance_id m) (rack_id m)
    (client_id m) (client_host m) (subscribed_topic_names m) (subscribed_topic_regex m)
    (server_assignor m) (rebalance_timeout_ms m) (session_timeout_ms m) (last_contact_ms m)
    (revocation_deadline_ms m) (assigned m) (pending_revocation m) v (classic m).
Definition set_classic (v : option ClassicMember) (m : ConsumerMember) : ConsumerMember :=
  mk (member_epoch m) (previous_member_epoch m) (state m) (instance_id m) (rack_id m)
    (client_id m) (client_host m) (subscribed_topic_names m) (subscribed_topic_regex m)
    (server_assignor m) (rebalance_timeout_ms m) (session_timeout_ms m) (last_contact_ms m)
    (revocation_deadline_ms m) (assigned m) (pending_revocation m) (target m) v.
End Member.
Export Member (ConsumerMember).


Module Doc.
Record ConsumerGroupDoc := mk {
  seq : Z;
  group_epoch : Z;
  assignment_epoch : Z;
  assignor : option bytes;
  members : gmap bytes ConsumerMember;
  topics : gmap Z SubscribedTopic;
  classic_generation : option Z;
  created_ms : Z;
}.

Definition default : ConsumerGroupDoc := mk 0 0 0 None ∅ ∅ None 0.
Definition set_members (v : gmap bytes ConsumerMember) (d : ConsumerGroupDoc) : ConsumerGroupDoc :=
  mk (seq d) (group_epoch d) (assignment_epoch d) (assignor d) v (topics d) (classic_generation d)
    (created_ms d).
Definition set_topics (v : gmap Z SubscribedTopic) (d : ConsumerGroupDoc) : ConsumerGroupDoc :=
  mk (seq d) (group_epoch d) (assignment_epoch d) (assignor d) (members d) v (classic_generation d)
    (created_ms d).
Definition set_target (epoch : Z) (a : option bytes) (d : ConsumerGroupDoc) : ConsumerGroupDoc :=
  mk (seq d) epoch epoch a (members d) (topics d) (classic_generation d) (created_ms d).
End Doc.
Export Doc (ConsumerGroupDoc).

#[export] Instance member_state_eq_dec : EqDecision MemberState.
Proof. solve_decision. Defined.
#[export] Instance subscribed_topic_eq_dec : EqDecision SubscribedTopic.
Proof. solve_decision. Defined.
#[export] Instance classic_member_eq_dec : EqDecision ClassicMember.
Proof. solve_decision. Defined.
#[export] Instance consumer_member_eq_dec : EqDecision ConsumerMember.
Proof. solve_decision. Defined.
#[export] Instance group_doc_eq_dec : EqDecision ConsumerGroupDoc.
Proof. solve_decision. Defined.

Definition LEAVING_STATIC_MEMBER_EPOCH : Z := -2.
Definition DEFAULT_REBALANCE_TIMEOUT_MS : Z := 300000.

(** [group.members.get_mut(id)] followed by an update. *)
Definition alter_member (f : ConsumerMember -> ConsumerMember) (id : bytes) (d : ConsumerGroupDoc)
    : ConsumerGroupDoc := Doc.set_members (alter f id (Doc.members d)) d.

Definition lapses_after_ms (m : ConsumerMember) : Z :=
  sat_i64 (Member.session_timeout_ms m + Z.quot (Member.session_timeout_ms m) 2).

Definition is_expired (m : ConsumerMember) (now_ms : Z) : bool :=
  lapses_after_ms m <? sat_i64 (now_ms - Member.last_contact_ms m).

Definition is_revocation_overdue (m : ConsumerMember) (now_ms : Z) : bool :=
  bool_decide (Member.state m = UnrevokedPartitions)
  && match Member.revocation_deadline_ms m with Some deadline => deadline <? now_ms | None => false end.

Definition is_leaving_static (m : ConsumerMember) : bool :=
  Member.member_epoch m =? LEAVING_STATIC_MEMBER_EPOCH.

(** ** What describes a group *)

Abbreviation ContactStamps := (gmap bytes (gset Z)).

(** The newest of a set of stamps. *)
Definition latest (stamps : gset Z) : option Z := last (set_list stamps).

Definition with_contacts (d : ConsumerGroupDoc) (stamps : ContactStamps) : ConsumerGroupDoc :=
  Doc.set_members (map_imap (fun id m =>
    Some (match stamps !! id ≫= latest with
          | Some l => Member.set_last_contact_ms (Z.max (Member.last_contact_ms m) l) m
          | None => m
          end)) (Doc.members d)) d.

Definition live_members (d : ConsumerGroupDoc) (now_ms : Z) : list (bytes * ConsumerMember) :=
  filter (fun x => is_expired x.2 now_ms = false) (entries_of (Doc.members d)).

Definition group_state (d : ConsumerGroupDoc) (now_ms : Z) : ConsumerGroupState :=
  match live_members d now_ms with
  | [] => Empty
  | live =>
      if Doc.assignment_epoch d <? Doc.group_epoch d then Assigning
      else if existsb (fun x =>
             bool_decide (Member.state x.2 <> Stable)
             || (negb (Member.member_epoch x.2 =? Doc.assignment_epoch d)
                 && negb (is_leaving_static x.2))) live
      then Reconciling else StableGroup
  end.

(** ** Requests *)

Module Request.
Record HeartbeatRequest := mk {
  member_id : bytes;
  member_epoch : Z;
  instance_id : option bytes;
  rack_id : option bytes;
  rebalance_timeout_ms : Z;
  subscribed_topic_names : option (list bytes);
  subscribed_topic_regex : option bytes;
  server_assignor : option bytes;
  topic_partitions : option (list (Z * option (list Z)));
}.
End Request.
Export Request (HeartbeatRequest).

Record Client := mkClient { client_id : bytes; client_host : bytes }.

Record Liveness := mkLiveness { contacts : gmap bytes Z; listed : bool }.

Record ConsumerGroupConfig := mkConfig {
  config_session_timeout_ms : Z;
  heartbeat_interval_ms : Z;
  max_size : option nat;
}.

(** [BTreeMap<String, (Uuid, i32)>]. *)
Abbreviation Resolved := (gmap bytes (Z * Z)).

Definition last_contact_of (l : Liveness) (member_id : bytes) (m : ConsumerMember) : Z :=
  match contacts l !! member_id with
  | Some contact => Z.max (Member.last_contact_ms m) contact
  | None => Member.last_contact_ms m
  end.

Definition lapsed (l : Liveness) (member_id : bytes) (m : ConsumerMember) (now_ms : Z) : bool :=
  lapses_after_ms m <? sat_i64 (now_ms - last_contact_of l member_id m).

(** [requested_regex]: [None] when the request does not say, [Some None] when it
    drops its pattern. *)
Definition requested_regex (r : HeartbeatRequest) : option (option bytes) :=
  match Request.subscribed_topic_regex r with
  | None => None
  | Some regex => Some (if bool_decide (regex = []) then None else Some regex)
  end.

Definition owned_from_request (r : HeartbeatRequest) : option Partitions :=
  (fun topics => grouped (flat_map (fun '(topic_id, ps) => map (pair topic_id) (default [] ps)) topics))
  <$> Request.topic_partitions r.

(** ** Operations *)

Definition dropped (l : Liveness) (now_ms : Z) (member_id : bytes) (m : ConsumerMember) : bool :=
  is_revocation_overdue m now_ms || (listed l && lapsed l member_id m now_ms).

Definition sweep (d : ConsumerGroupDoc) (l : Liveness) (now_ms : Z) : ConsumerGroupDoc * bool :=
  let kept := filter (fun x => dropped l now_ms x.1 x.2 = false) (Doc.members d) in
  (Doc.set_members kept d, negb (size kept =? size (Doc.members d))%nat).

(** [Iterator::max_by]: the last of the greatest. *)
Fixpoint max_by {A} (cmp : A -> A -> comparison) (best : A) (l : list A) : A :=
  match l with
  | [] => best
  | x :: l => max_by cmp (match cmp best x with Gt => best | _ => x end) l
  end.

Definition preferred_assignor (d : ConsumerGroupDoc) : bytes :=
  let votes := fold_left (fun (votes : gmap bytes Z) x =>
      match Member.server_assignor x.2 with
      | Some a => <[a := default 0 (votes !! a) + 1]> votes
      | None => votes
      end) (entries_of (Doc.members d)) ∅ in
  match entries_of votes with
  | [] => UNIFORM
  | v :: vs =>
      (max_by (fun a b => match Z.compare a.2 b.2 with Eq => key_cmp b.1 a.1 | c => c end) v vs).1
  end.

Definition owned_by_others (d : ConsumerGroupDoc) (member_id : bytes) : gset (Z * Z) :=
  ⋃ map (fun x => flatten (Member.assigned x.2) ∪ flatten (Member.pending_revocation x.2))
      (filter (fun x => x.1 <> member_id) (map_to_list (Doc.members d))).

(** Whether the member still owns any of [revoking]; one that does not say does. *)
Definition still_owns (owned : option Partitions) (revoking : Partitions) : bool :=
  match owned with
  | None => true
  | Some owned => negb (bool_decide (flatten owned ## flatten revoking))
  end.

Definition next_assignment (m : ConsumerMember) (target_epoch : Z) (taken : gset (Z * Z))
    (owned : option Partitions) (now_ms : Z) : ConsumerMember :=
  let current := flatten (Member.assigned m) in
  let target := flatten (Member.target m) in
  let kept := current ∩ target in
  let revoking := grouped (set_list (current ∖ target)) in
  if negb (bool_decide (revoking = ∅)) && still_owns owned revoking then
    let m := if bool_decide (Member.state m = UnrevokedPartitions) then m
             else Member.set_revocation_deadline_ms
                    (Some (sat_i64 (now_ms + Member.rebalance_timeout_ms m))) m in
    let m := Member.set_state UnrevokedPartitions m in
    let m := Member.set_assigned (grouped (set_list kept)) m in
    Member.set_pending_revocation revoking m
  else
    let wanted := target ∖ current in
    let free := wanted ∖ taken in
    let unreleased := wanted ∩ taken in
    let m := if Member.member_epoch m =? target_epoch then m
             else Member.set_member_epoch target_epoch
                    (Member.set_previous_member_epoch (Member.member_epoch m) m) in
    let m := Member.set_state (if bool_decide (unreleased = ∅) then Stable else UnreleasedPartitions) m in
    let m := Member.set_assigned (grouped (set_list kept ++ set_list free)) m in
    let m := Member.set_pending_revocation ∅ m in
    Member.set_revocation_deadline_ms None m.

Definition moves (m : ConsumerMember) (target_epoch : Z) (owned : option Partitions) : bool :=
  match Member.state m with
  | Stable => negb (Member.member_epoch m =? target_epoch)
  | UnrevokedPartitions => negb (still_owns owned (Member.pending_revocation m))
  | UnreleasedPartitions => true
  end.

Definition reconcile (d : ConsumerGroupDoc) (member_id : bytes) (owned : option Partitions)
    (now_ms : Z) : ConsumerGroupDoc :=
  let taken := owned_by_others d member_id in
  let target_epoch := Doc.assignment_epoch d in
  match Doc.members d !! member_id with
  | None => d
  | Some m =>
      if moves m target_epoch owned
      then Doc.set_members
             (<[member_id := next_assignment m target_epoch taken owned now_ms]> (Doc.members d)) d
      else d
  end.

Definition refresh_topics (d : ConsumerGroupDoc) (resolved : Resolved) : ConsumerGroupDoc * bool :=
  let topics := fold_left (fun (topics : gmap Z SubscribedTopic) '(name, (topic_id, partitions)) =>
      <[topic_id := Topic.mk name partitions]> topics) (entries_of resolved) ∅ in
  if bool_decide (topics = Doc.topics d) then (d, false) else (Doc.set_topics topics d, true).

Module Response.
Record HeartbeatResponse := mk {
  member_id : bytes;
  member_epoch : Z;
  interval_ms : Z;
  assignment : option Partitions;
}.
End Response.
Export Response (HeartbeatResponse).

Record Transition (R : Type) := mkTransition {
  group : ConsumerGroupDoc;
  changed : bool;
  renew : bool;
  sender : bytes;
  response : R;
}.
Arguments mkTransition {R} _ _ _ _ _.
Arguments group {R} _.
Arguments changed {R} _.
Arguments renew {R} _.
Arguments sender {R} _.
Arguments response {R} _.

Section heartbeat.
Context (compile : bytes -> option (bytes -> bool)).

(** The names of the subscribed topics. *)
Definition by_name (d : ConsumerGroupDoc) : gmap bytes Z :=
  fold_left (fun (names : gmap bytes Z) '(topic_id, topic) => <[Topic.name topic := topic_id]> names)
    (entries_of (Doc.topics d)) ∅.

Definition member_spec (names : gmap bytes Z) (m : ConsumerMember) : MemberSpec :=
  let pattern := Member.subscribed_topic_regex m ≫= compile in
  mkSpec
    (list_to_set (omap (fun name => names !! name) (Member.subscribed_topic_names m))
     ∪ match pattern with
       | Some is_match => list_to_set (map snd (filter (fun x => is_match x.1 = true) (entries_of names)))
       | None => ∅
       end)
    (Member.target m).

Definition retarget (d : ConsumerGroupDoc) : ConsumerGroupDoc :=
  let epoch := sat_i32 (Doc.group_epoch d + 1) in
  let specs := member_spec (by_name d) <$> Doc.members d in
  let topics := Topic.partitions <$> Doc.topics d in
  let assignor := preferred_assignor d in
  let targets := assign assignor specs topics in
  let members := map_imap (fun id m => Some (Member.set_target (default ∅ (targets !! id)) m))
                   (Doc.members d) in
  Doc.set_target epoch (Some assignor) (Doc.set_members members d).

Definition new_member (r : HeartbeatRequest) (c : Client) (config : ConsumerGroupConfig)
    : ConsumerMember :=
  Member.mk 0 (-1) Stable (Request.instance_id r) None (client_id c) (client_host c) [] None None
    DEFAULT_REBALANCE_TIMEOUT_MS (config_session_timeout_ms config) 0 None ∅ ∅ ∅ None.

(** The other member that holds an instance id. *)
Definition holder_of (d : ConsumerGroupDoc) (instance_id member_id : bytes)
    : option (bytes * ConsumerMember) :=
  head (filter (fun x => x.1 <> member_id /\ Member.instance_id x.2 = Some instance_id)
          (entries_of (Doc.members d))).

Definition replace_static (m : ConsumerMember) (c : Client) : ConsumerMember :=
  Member.set_client_host (client_host c) (Member.set_client_id (client_id c)
    (Member.set_revocation_deadline_ms None (Member.set_pending_revocation ∅
      (Member.set_classic None (Member.set_state Stable
        (Member.set_previous_member_epoch 0 (Member.set_member_epoch 0 m))))))).

Definition rejoin (m : ConsumerMember) : ConsumerMember :=
  Member.set_revocation_deadline_ms None (Member.set_pending_revocation ∅
    (Member.set_assigned ∅ (Member.set_classic None (Member.set_state Stable
      (Member.set_previous_member_epoch 0 (Member.set_member_epoch 0 m)))))).

Definition join (d : ConsumerGroupDoc) (r : HeartbeatRequest) (c : Client)
    (config : ConsumerGroupConfig) (fresh_id : bytes) : result (ConsumerGroupDoc * bytes * bool) :=
  let member_id := if bool_decide (Request.member_id r = []) then fresh_id else Request.member_id r in
  match Request.instance_id r ≫= fun instance_id => holder_of d instance_id member_id with
  | Some (previous_id, previous) =>
      if negb (is_leaving_static previous) then Err UnreleasedInstanceId
      else Ok (Doc.set_members (<[member_id := replace_static previous c]>
                 (delete previous_id (Doc.members d))) d, member_id, false)
  | None =>
      match Doc.members d !! member_id with
      | Some m => Ok (Doc.set_members (<[member_id := rejoin m]> (Doc.members d)) d, member_id, false)
      | None =>
          if bool_decide (Request.subscribed_topic_names r = None)
             && bool_decide (mjoin (requested_regex r) = None)
          then Err InvalidRequest
          else if match max_size config with
                  | Some n => (n <=? size (Doc.members d))%nat | None => false end
          then Err GroupMaxSizeReached
          else Ok (Doc.set_members (<[member_id := new_member r c config]> (Doc.members d)) d,
                   member_id, true)
      end
  end.

Definition validate_epoch (d : ConsumerGroupDoc) (r : HeartbeatRequest) (owned : option Partitions)
    : result unit :=
  match Doc.members d !! Request.member_id r with
  | None => Err UnknownMemberId
  | Some m =>
      if Member.member_epoch m <? Request.member_epoch r then Err FencedMemberEpoch
      else if Request.member_epoch r <? Member.member_epoch m then
        let lost_response :=
          (Request.member_epoch r =? Member.previous_member_epoch m)
          && match owned with
             | Some owned => bool_decide (flatten owned ⊆ flatten (Member.assigned m))
             | None => false
             end in
        if lost_response then Ok tt else Err FencedMemberEpoch
      else Ok tt
  end.

(** The subscription a request carries: the member, and whether it moved. *)
Definition update_names (r : HeartbeatRequest) (m : ConsumerMember) : ConsumerMember * bool :=
  match Request.subscribed_topic_names r with
  | Some names =>
      let names := set_list (list_to_set names) in
      if bool_decide (names = Member.subscribed_topic_names m) then (m, false)
      else (Member.set_subscribed_topic_names names m, true)
  | None => (m, false)
  end.

Definition update_regex (r : HeartbeatRequest) (m : ConsumerMember) : result (ConsumerMember * bool) :=
  match requested_regex r with
  | Some regex =>
      if match regex with Some regex => bool_decide (compile regex = None) | None => false end
      then Err InvalidRegularExpression
      else if bool_decide (Member.subscribed_topic_regex m = regex) then Ok (m, false)
      else Ok (Member.set_subscribed_topic_regex regex m, true)
  | None => Ok (m, false)
  end.

Definition update_assignor (r : HeartbeatRequest) (m : ConsumerMember)
    : result (ConsumerMember * bool) :=
  match Request.server_assignor r with
  | Some a =>
      if negb (is_supported a) then Err UnsupportedAssignor
      else if bool_decide (Member.server_assignor m = Some a) then Ok (m, false)
      else Ok (Member.set_server_assignor (Some a) m, true)
  | None => Ok (m, false)
  end.

Definition update_member (m : ConsumerMember) (r : HeartbeatRequest) (c : Client)
    (config : ConsumerGroupConfig) : result (ConsumerMember * bool) :=
  let m := Member.set_session_timeout_ms (config_session_timeout_ms config) m in
  let m := if bool_decide (client_host c = []) then m else Member.set_client_host (client_host c) m in
  let m := match Request.rack_id r with Some rack => Member.set_rack_id (Some rack) m | None => m end in
  let m := if 0 <? Request.rebalance_timeout_ms r
           then Member.set_rebalance_timeout_ms (Request.rebalance_timeout_ms r) m else m in
  let '(m, renamed) := update_names r m in
  let! (m, repatterned) := update_regex r m in
  let! (m, reassigned) := update_assignor r m in
  Ok (m, renamed || repatterned || reassigned).

Definition leave (d : ConsumerGroupDoc) (r : HeartbeatRequest) (now_ms : Z)
    : result (ConsumerGroupDoc * bool) :=
  match Doc.members d !! Request.member_id r with
  | None => Err UnknownMemberId
  | Some m =>
      if (Request.member_epoch r =? LEAVING_STATIC_MEMBER_EPOCH)
         && bool_decide (is_Some (Member.instance_id m))
      then Ok (Doc.set_members (<[Request.member_id r :=
                 Member.set_last_contact_ms now_ms
                   (Member.set_member_epoch LEAVING_STATIC_MEMBER_EPOCH m)]> (Doc.members d)) d, false)
      else Ok (Doc.set_members (delete (Request.member_id r) (Doc.members d)) d, true)
  end.

(** ** [apply] *)

(** A member leaving. *)
Definition apply_leave (before d : ConsumerGroupDoc) (swept : bool) (r : HeartbeatRequest) (now_ms : Z)
    : result (Transition HeartbeatResponse) :=
  let! (d, departed) := leave d r now_ms in
  let d := if swept || departed then retarget d else d in
  Ok (mkTransition d (negb (bool_decide (d = before))) false []
        (Response.mk (Request.member_id r) (Request.member_epoch r) 0 None)).

(** From the member that sent the heartbeat to the answer. *)
Definition apply_member (before d : ConsumerGroupDoc) (rebalance : bool) (member_id : bytes)
    (r : HeartbeatRequest) (c : Client) (resolved : option Resolved) (l : Liveness)
    (config : ConsumerGroupConfig) (now_ms : Z) : result (Transition HeartbeatResponse) :=
  let owned := owned_from_request r in
  let previous_assigned := Member.assigned <$> Doc.members before !! member_id in
  let! (d, updated) :=
    match Doc.members d !! member_id with
    | Some m =>
        let! (m, updated) := update_member m r c config in
        Ok (Doc.set_members (<[member_id := m]> (Doc.members d)) d, updated)
    | None => Ok (d, false)
    end in
  let '(d, refreshed) :=
    match resolved with Some resolved => refresh_topics d resolved | None => (d, false) end in
  let d := if rebalance || updated || refreshed then retarget d else d in
  let d := reconcile d member_id owned now_ms in
  match Doc.members d !! member_id with
  | None => Err UnknownMemberId
  | Some m =>
      let renewal_due :=
        Z.quot (Member.session_timeout_ms m) 2 <=? sat_i64 (now_ms - last_contact_of l member_id m) in
      let send_assignment :=
        negb (Request.member_epoch r =? Member.member_epoch m)
        || negb (bool_decide (previous_assigned = Some (Member.assigned m)))
        || match owned with
           | Some owned => negb (bool_decide (owned = Member.assigned m)) | None => false end in
      let answer := Response.mk member_id (Member.member_epoch m) (heartbeat_interval_ms config)
                      (if send_assignment then Some (Member.assigned m) else None) in
      let changed := negb (bool_decide (d = before)) in
      let d := if changed then alter_member (Member.set_last_contact_ms now_ms) member_id d else d in
      Ok (mkTransition d changed (renewal_due && negb changed) member_id answer)
  end.

Definition apply (held : option ConsumerGroupDoc) (r : HeartbeatRequest) (c : Client)
    (resolved : option Resolved) (l : Liveness) (config : ConsumerGroupConfig) (now_ms : Z)
    (fresh_id : bytes) : result (Transition HeartbeatResponse) :=
  let before := match held with
                | Some d => d
                | None => Doc.mk 0 0 0 None ∅ ∅ None now_ms
                end in
  let '(d, swept) := sweep before l now_ms in
  if (Request.member_epoch r =? -1) || (Request.member_epoch r =? LEAVING_STATIC_MEMBER_EPOCH)
  then apply_leave before d swept r now_ms
  else if Request.member_epoch r =? 0 then
    let! (d, member_id, joined) := join d r c config fresh_id in
    apply_member before d (swept || joined) member_id r c resolved l config now_ms
  else
    let! _ := validate_epoch d r (owned_from_request r) in
    apply_member before d swept (Request.member_id r) r c resolved l config now_ms.
End heartbeat.
