(* ===== verification/Converge.v ===== *)
(** * Converge: a consumer group left alone settles

    Heartbeats of members that report what they own and change nothing else.
    Three rounds of them, in any order and whatever the state the group was in,
    leave every member stable at the assignment epoch with exactly its target. *)

From S2P Require Export Reconcile.

(** The heartbeat of a member with nothing to say but what it owns. *)
Definition beat (i : bytes) (m : ConsumerMember) : HeartbeatRequest :=
  Request.mk i (Member.member_epoch m) None None (-1) None None None
    (Some (map (fun x => (x.1, Some (set_list x.2))) (entries_of (Member.assigned m)))).

(** One heartbeat: who sends it, when, and the contacts the broker has seen. *)
Record Beat := mkBeat { who : bytes; at_ms : Z; view : Liveness }.

(** The document a transition leaves in the store. *)
Definition written {R} (t : Transition R) : ConsumerGroupDoc :=
  if changed t then bumped (group t) else group t.

Section rounds.
Context (compile : bytes -> option (bytes -> bool)) (config : ConsumerGroupConfig) (c : Client).

Fixpoint beats (d : ConsumerGroupDoc) (schedule : list Beat) : result ConsumerGroupDoc :=
  match schedule with
  | [] => Ok d
  | b :: schedule =>
      match Doc.members d !! who b with
      | None => Err UnknownMemberId
      | Some m =>
          let! t := apply compile (Some d) (beat (who b) m) c None (view b) config (at_ms b) [] in
          beats (written t) schedule
      end
  end.

Lemma beats_app d s1 s2 :
  beats d (s1 ++ s2) = let! d' := beats d s1 in beats d' s2.
Proof.
  revert d. induction s1 as [|b s1 IH]; intros d; [done|]. cbn [app beats].
  destruct (Doc.members d !! who b) as [m|]; [|done].
  destruct (apply compile (Some d) _ c None _ config _ _) as [t|e|]; cbn [rbind]; [apply IH|done..].
Qed.

Lemma beat_owned i m :
  exists o, owned_from_request (beat i m) = Some o /\ flatten o = flatten (Member.assigned m).
Proof.
  eexists. split; [done|]. rewrite flatten_grouped. apply set_eq. intros [t p].
  rewrite elem_of_list_to_set, elem_of_flatten, list_elem_of_In, in_flat_map. split.
  - intros ([t' ps] & Hin & Hp). apply in_map_iff in Hin as ([t'' ps'] & [= <- <-] & Hin). cbn in Hp.
    apply in_map_iff in Hp as (p' & [= <- <-] & Hp). apply list_elem_of_In, elem_of_set_list in Hp.
    apply list_elem_of_In, elem_of_entries in Hin. eauto.
  - intros (ps & Hm & Hp). exists (t, Some (set_list ps)). split.
    + apply in_map_iff. exists (t, ps). split; [done|]. by apply list_elem_of_In, elem_of_entries.
    + cbn. apply in_map_iff. exists p. split; [done|]. by apply list_elem_of_In, elem_of_set_list.
Qed.

(** ** A calm group *)

(** No member is late, at any time from [first] to [last]: sessions are at least
    [session] long, and rebalance timeouts at least as long as the interval. *)
Context (first last session : Z).

Definition view_ok (d : ConsumerGroupDoc) (l : Liveness) : Prop :=
  listed l = true -> forall i, i ∈ dom (Doc.members d) ->
    exists contact, contacts l !! i = Some contact /\ last - contact <= session.

Record timely : Prop := mkTimely {
  timely_clock : last <= i64_MAX;
  timely_session : 0 <= session <= i64_MAX;
  timely_config : session <= config_session_timeout_ms config;
}.

Record awake (m : ConsumerMember) : Prop := mkAwake {
  awake_epoch : 1 <= Member.member_epoch m;
  awake_deadline deadline : Member.state m = UnrevokedPartitions ->
    Member.revocation_deadline_ms m = Some deadline -> last <= deadline;
  awake_rebalance : last - first <= Member.rebalance_timeout_ms m;
  awake_session : session <= Member.session_timeout_ms m;
}.

Record calm (d : ConsumerGroupDoc) : Prop := mkCalm {
  calm_safe : safe (Doc.members d);
  calm_orderly : orderly d;
  calm_epoch : Doc.group_epoch d < i32_MAX;
  calm_awake i m : Doc.members d !! i = Some m -> awake m;
}.

Lemma calm_positive d i m : calm d -> Doc.members d !! i = Some m -> 1 <= Doc.group_epoch d.
Proof.
  intros Hc Hm. pose proof (tidy_member _ (orderly_tidy _ (calm_orderly _ Hc)) i m Hm).
  pose proof (awake_epoch _ (calm_awake _ Hc i m Hm)). lia.
Qed.

Context (Htime : timely).

Lemma awake_kept d l now i m :
  calm d -> view_ok d l -> first <= now <= last -> Doc.members d !! i = Some m -> dropped l now i m = false.
Proof.
  intros Hc Hv Hnow Hm. destruct (calm_awake _ Hc i m Hm) as [_ Hd _ Hs], Htime as [Ht1 Ht2 Ht3].
  unfold dropped. apply orb_false_iff. split.
  - unfold is_revocation_overdue. case_bool_decide; [|done]. cbn.
    destruct (Member.revocation_deadline_ms m) as [x|]; [|done]. pose proof (Hd x ltac:(done) eq_refl). lia.
  - destruct (listed l) eqn:El; [|done]. cbn.
    destruct (Hv El i) as (contact & E & Hgap); [by apply elem_of_dom|].
    unfold lapsed, last_contact_of, lapses_after_ms, sat_i64. rewrite E. apply Z.ltb_ge.
    pose proof (Z.quot_pos (Member.session_timeout_ms m) 2). unfold i64_MAX, i64_MIN in *. lia.
Qed.

Lemma calm_sweep d l now :
  calm d -> view_ok d l -> first <= now <= last -> sweep d l now = (d, false).
Proof.
  intros Hc Hv Hnow. unfold sweep.
  assert (filter (fun x => dropped l now x.1 x.2 = false) (Doc.members d) = Doc.members d) as ->.
  { apply map_filter_id. intros i m Hm. by eapply awake_kept. }
  rewrite Nat.eqb_refl. by destruct d.
Qed.

(** What the heartbeat's fields alone change of a member. *)
Definition greeted (m : ConsumerMember) : ConsumerMember :=
  let m := Member.set_session_timeout_ms (config_session_timeout_ms config) m in
  if bool_decide (client_host c = []) then m else Member.set_client_host (client_host c) m.

Lemma update_beat i m : update_member compile m (beat i m) c config = Ok (greeted m, false).
Proof. done. Qed.

Lemma greeted_core m : same_core m (greeted m).
Proof. unfold greeted. by case_bool_decide. Qed.

(** The member a heartbeat leaves. *)
Definition advanced (d : ConsumerGroupDoc) (i : bytes) (m : ConsumerMember) (now : Z) : ConsumerMember :=
  let owned := owned_from_request (beat i m) in
  if moves m (Doc.assignment_epoch d) owned
  then next_assignment (greeted m) (Doc.assignment_epoch d) (owned_by_others d i) owned now
  else greeted m.

Lemma owned_by_others_insert d i m :
  owned_by_others (Doc.set_members (<[i := m]> (Doc.members d)) d) i = owned_by_others d i.
Proof.
  apply set_eq. intros x. rewrite !elem_of_owned_by_others. cbn.
  split; intros (j & mj & Hne & Hj & Hx); exists j, mj; (split; [done|]); (split; [|done]);
    [rewrite lookup_insert_ne in Hj by done|rewrite lookup_insert_ne by done]; done.
Qed.

Lemma reconcile_beat d i m now :
  reconcile (Doc.set_members (<[i := greeted m]> (Doc.members d)) d) i
    (owned_from_request (beat i m)) now
  = Doc.set_members (<[i := advanced d i m now]> (Doc.members d)) d.
Proof.
  unfold reconcile, advanced. rewrite owned_by_others_insert. cbn [Doc.members Doc.set_members Doc.assignment_epoch].
  rewrite lookup_insert_eq. destruct (greeted_core m) as ((_ & Ep & Es) & _ & Ee & _).
  assert (moves (greeted m) (Doc.assignment_epoch d) (owned_from_request (beat i m))
          = moves m (Doc.assignment_epoch d) (owned_from_request (beat i m))) as ->.
  { unfold moves. by rewrite Es, Ee, Ep. }
  destruct (moves m _ _); cbn; by rewrite ?insert_insert_eq.
Qed.

Lemma apply_beat d l now i m :
  calm d -> view_ok d l -> first <= now <= last -> Doc.members d !! i = Some m ->
  exists t, apply compile (Some d) (beat i m) c None l config now [] = Ok t /\
    let d' := Doc.set_members (<[i := advanced d i m now]> (Doc.members d)) d in
    (group t = d' \/ group t = alter_member (Member.set_last_contact_ms now) i d').
Proof.
  intros Hc Hv Hnow Hm. pose proof (awake_epoch _ (calm_awake _ Hc i m Hm)) as He.
  unfold apply. rewrite (calm_sweep d l now) by done. cbn [Request.member_epoch beat].
  unfold LEAVING_STATIC_MEMBER_EPOCH. rewrite !(proj2 (Z.eqb_neq _ _)) by lia. cbn [orb].
  unfold validate_epoch. cbn [Request.member_id beat Request.member_epoch]. rewrite Hm, Z.ltb_irrefl. cbn [rbind].
  unfold apply_member. rewrite Hm, update_beat. cbn [rbind orb]. rewrite reconcile_beat.
  cbn [Doc.members Doc.set_members]. rewrite lookup_insert_eq. eexists. split; [done|]. cbn zeta. cbn [group].
  destruct (negb _); auto.
Qed.

Lemma next_assignment_timeouts m e taken owned now :
  let m' := next_assignment m e taken owned now in
  Member.rebalance_timeout_ms m' = Member.rebalance_timeout_ms m /\
  Member.session_timeout_ms m' = Member.session_timeout_ms m.
Proof.
  cbn zeta. unfold next_assignment. destruct (_ && _); [by case_bool_decide|]. by destruct (_ =? _).
Qed.

Lemma advanced_timeouts d i m now :
  Member.rebalance_timeout_ms (advanced d i m now) = Member.rebalance_timeout_ms m /\
  Member.session_timeout_ms (advanced d i m now) = config_session_timeout_ms config.
Proof.
  assert (Hg : Member.rebalance_timeout_ms (greeted m) = Member.rebalance_timeout_ms m /\
    Member.session_timeout_ms (greeted m) = config_session_timeout_ms config).
  { unfold greeted. by case_bool_decide. }
  unfold advanced. destruct (moves _ _ _); [|done].
  edestruct (next_assignment_timeouts (greeted m)) as [-> ->]. done.
Qed.

(** The three ways a heartbeat leaves a member: as it was, asked to revoke, or
    moved on. *)
Inductive outcome (d : ConsumerGroupDoc) (i : bytes) (m m' : ConsumerMember) (now : Z) : Prop :=
  | outcome_same :
      Member.state m = Stable -> Member.member_epoch m = Doc.assignment_epoch d ->
      Member.assigned m' = Member.assigned m -> Member.pending_revocation m' = Member.pending_revocation m ->
      Member.state m' = Stable -> Member.member_epoch m' = Member.member_epoch m -> outcome d i m m' now
  | outcome_revoke :
      ~ flatten (Member.assigned m) ⊆ flatten (Member.target m) ->
      flatten (Member.assigned m') = flatten (Member.assigned m) ∩ flatten (Member.target m) ->
      Member.member_epoch m' = Member.member_epoch m ->
      Member.revocation_deadline_ms m'
      = (if bool_decide (Member.state m = UnrevokedPartitions) then Member.revocation_deadline_ms m
         else Some (sat_i64 (now + Member.rebalance_timeout_ms m))) -> outcome d i m m' now
  | outcome_advance :
      flatten (Member.assigned m) ⊆ flatten (Member.target m) ->
      let wanted := flatten (Member.target m) ∖ flatten (Member.assigned m) in
      Member.state m'
      = (if bool_decide (wanted ∩ owned_by_others d i = ∅) then Stable else UnreleasedPartitions) ->
      flatten (Member.assigned m') = flatten (Member.assigned m) ∪ (wanted ∖ owned_by_others d i) ->
      Member.pending_revocation m' = ∅ -> Member.member_epoch m' = Doc.assignment_epoch d ->
      outcome d i m m' now.

Lemma beat_moves d i m :
  calm d -> Doc.members d !! i = Some m ->
  moves m (Doc.assignment_epoch d) (owned_from_request (beat i m)) = false ->
  Member.state m = Stable /\ Member.member_epoch m = Doc.assignment_epoch d.
Proof.
  intros Hc Hm. destruct (beat_owned i m) as (o & -> & Eo). unfold moves, still_owns.
  destruct (Member.state m); [|rewrite Eo, negb_involutive, bool_decide_eq_false|done].
  - rewrite negb_false_iff, Z.eqb_eq. done.
  - intros []. by eapply safe_apart, Hm; apply Hc.
Qed.

Lemma beat_revokes i m :
  revokes (greeted m) (owned_from_request (beat i m))
  = negb (bool_decide (flatten (Member.assigned m) ⊆ flatten (Member.target m))).
Proof.
  destruct (beat_owned i m) as (o & -> & Eo). unfold revokes, still_owns. rewrite flatten_set_list, Eo.
  destruct (greeted_core m) as ((-> & _) & -> & _).
  set (cur := flatten (Member.assigned m)). set (tgt := flatten (Member.target m)).
  destruct (decide (cur ⊆ tgt)) as [Hs|Hs].
  - rewrite (bool_decide_eq_true_2 (cur ⊆ tgt)) by done.
    rewrite (bool_decide_eq_true_2 (cur ∖ tgt = ∅)) by set_solver. done.
  - rewrite (bool_decide_eq_false_2 (cur ⊆ tgt)) by done.
    assert (Hne : cur ∖ tgt <> ∅).
    { intros E. apply Hs. intros x Hx. destruct (decide (x ∈ tgt)) as [|Hn]; [done|].
      assert (x ∈ cur ∖ tgt) as Hin by (by apply elem_of_difference). rewrite E in Hin. set_solver +Hin. }
    rewrite (bool_decide_eq_false_2 (cur ∖ tgt = ∅)) by done.
    rewrite bool_decide_eq_false_2; [done|]. intros Hd. apply Hne. set_solver +Hd.
Qed.

Lemma advanced_outcome d i m now :
  calm d -> Doc.members d !! i = Some m ->
  Member.target (advanced d i m now) = Member.target m /\ outcome d i m (advanced d i m now) now.
Proof.
  intros Hc Hm. unfold advanced. destruct (greeted_core m) as ((Ea & Ep & Es) & Et & Ee & Ed).
  destruct (moves m _ _) eqn:Em.
  - set (o := owned_from_request (beat i m)).
    pose proof (next_assignment_spec (greeted m) (Doc.assignment_epoch d) (owned_by_others d i) o now) as [Ht H].
    split; [by rewrite Ht|]. unfold o in H at 1. rewrite beat_revokes, Ea, Et, Ee, Es, Ed in H.
    fold o in H. destruct (decide (flatten (Member.assigned m) ⊆ flatten (Member.target m))) as [Hs|Hs].
    + rewrite bool_decide_eq_true_2 in H by done. destruct H as (H1 & H2 & H3 & H4 & _).
      apply outcome_advance; try done. rewrite H2. f_equal. set_solver +Hs.
    + rewrite bool_decide_eq_false_2 in H by done. destruct H as (H1 & H2 & H3 & H4 & H5).
      apply outcome_revoke; try done. rewrite H5. unfold greeted. by destruct (bool_decide (client_host c = [])).
  - apply beat_moves in Em as [E1 E2]; [|done..]. split; [done|]. apply outcome_same; try done; congruence.
Qed.

Lemma outcome_awake d i m m' now :
  calm d -> Doc.members d !! i = Some m -> first <= now <= last -> outcome d i m m' now ->
  Member.rebalance_timeout_ms m' = Member.rebalance_timeout_ms m ->
  Member.session_timeout_ms m' = config_session_timeout_ms config -> awake m'.
Proof.
  intros Hc Hm Hnow Ho Er Es. destruct (calm_awake _ Hc i m Hm) as [H1 H2 H3 H4].
  pose proof (calm_positive _ _ _ Hc Hm) as He.
  destruct (tidy_epoch _ (orderly_tidy _ (calm_orderly _ Hc))) as [Ea _]. destruct Htime as [T1 T2 T3].
  split; [..|by rewrite Er|by rewrite Es].
  - destruct Ho as [| |]; lia.
  - intros x Hs Hx. destruct Ho as [_ _ _ _ E _|_ _ _ E|_ wanted E _ _ _].
    + congruence.
    + rewrite E in Hx. case_bool_decide as Hb; [by eapply H2|]. injection Hx as <-.
      unfold sat_i64, i64_MAX, i64_MIN in *. lia.
    + rewrite E in Hs. by case_bool_decide.
Qed.

(** [d'] has the members, targets and epoch of [d]. *)
Definition same_targets (d d' : ConsumerGroupDoc) : Prop :=
  dom (Doc.members d') = dom (Doc.members d) /\ Doc.assignment_epoch d' = Doc.assignment_epoch d /\
  forall i m, Doc.members d !! i = Some m ->
    exists m', Doc.members d' !! i = Some m' /\ Member.target m' = Member.target m.

Lemma same_targets_trans d1 d2 d3 : same_targets d1 d2 -> same_targets d2 d3 -> same_targets d1 d3.
Proof.
  intros (D1 & E1 & T1) (D2 & E2 & T2). split_and!; [congruence..|].
  intros i m (m2 & Hm2 & <-)%T1. by apply T2.
Qed.

(** The store after a heartbeat: the sender's member, and nothing else. *)
Lemma written_beat d l now i m :
  calm d -> view_ok d l -> first <= now <= last -> Doc.members d !! i = Some m ->
  exists t m', apply compile (Some d) (beat i m) c None l config now [] = Ok t /\
    safe (Doc.members (written t)) /\ orderly (written t) /\
    Doc.members (written t) = <[i := m']> (Doc.members d) /\
    Doc.assignment_epoch (written t) = Doc.assignment_epoch d /\
    Doc.group_epoch (written t) = Doc.group_epoch d /\
    (m' = advanced d i m now \/ m' = Member.set_last_contact_ms now (advanced d i m now)).
Proof.
  intros Hc Hv Hnow Hm. destruct (apply_beat d l now i m) as (t & Ht & Hg); [done..|].
  assert (Hs : safe (Doc.members (group t))) by (eapply (apply_safe compile (Some d)); [apply Hc|exact Ht]).
  assert (Ho : orderly (group t)).
  { eapply (apply_orderly compile (Some d)); [split; apply Hc| |exact Ht]. done. }
  assert (Hw : follows (group t) (written t) /\ Doc.members (written t) = Doc.members (group t)).
  { unfold written. destruct (changed t); (split; [|done]); [|apply follows_refl].
    split_and!; try done. intros j mj Hj. by exists mj. }
  destruct Hw as [Hf Ew]. pose proof (follows_orderly _ _ Hf Ho) as How. destruct Hf as (_ & Eg & Ea & _).
  exists t. rewrite Ew, Eg, Ea. cbn zeta in Hg. destruct Hg as [E|E].
  - exists (advanced d i m now). split_and!; try done; [by rewrite E..|by left].
  - exists (Member.set_last_contact_ms now (advanced d i m now)).
    split_and!; try done; [|by rewrite E..|by right]. rewrite E. cbn. by rewrite alter_insert_eq.
Qed.

Lemma beat_step d b m :
  calm d -> view_ok d (view b) -> first <= at_ms b <= last -> Doc.members d !! who b = Some m ->
  exists t, apply compile (Some d) (beat (who b) m) c None (view b) config (at_ms b) [] = Ok t /\
    calm (written t) /\ same_targets d (written t) /\
    (forall j, j <> who b -> Doc.members (written t) !! j = Doc.members d !! j) /\
    exists m', Doc.members (written t) !! who b = Some m' /\ Member.target m' = Member.target m /\
      outcome d (who b) m m' (at_ms b).
Proof.
  intros Hc Hv Hnow Hm. set (i := who b) in *. set (now := at_ms b) in *.
  destruct (written_beat d (view b) now i m) as (t & m2 & Ht & Hs & Ho & Ew & Ea & Eg & Hm2); [done..|].
  exists t. split; [done|]. destruct (advanced_outcome d i m now Hc Hm) as [Et Hout].
  destruct (advanced_timeouts d i m now) as [Er Es]. set (m1 := advanced d i m now) in *.
  assert (Hout2 : outcome d i m m2 now) by (destruct Hm2 as [->| ->]; [done|destruct Hout; by econstructor]).
  assert (Et2 : Member.target m2 = Member.target m) by (by destruct Hm2 as [->| ->]).
  assert (Haw : awake m2) by (eapply outcome_awake; [exact Hc|exact Hm|exact Hnow|exact Hout2|..];
    by destruct Hm2 as [->| ->]).
  split_and!.
  - split; [done|done|by rewrite Eg; apply Hc|].
    rewrite Ew. intros j mj [[<- <-]|[Hne Hj]]%lookup_insert_Some; [done|]. by eapply calm_awake.
  - split_and!; [|done|].
    + rewrite Ew. apply dom_insert_lookup_L. by exists m.
    + intros j mj Hj. rewrite Ew. destruct (decide (i = j)) as [<-|Hne].
      * rewrite lookup_insert_eq. exists m2. split; [done|]. congruence.
      * rewrite lookup_insert_ne by done. by exists mj.
  - intros j Hne. rewrite Ew. by rewrite lookup_insert_ne.
  - exists m2. by rewrite Ew, lookup_insert_eq.
Qed.

(** ** Rounds *)

Definition all_members (P : ConsumerMember -> Prop) (d : ConsumerGroupDoc) : Prop :=
  forall i m, Doc.members d !! i = Some m -> P m.

Definition beat_ok (d : ConsumerGroupDoc) (b : Beat) : Prop :=
  who b ∈ dom (Doc.members d) /\ first <= at_ms b <= last /\ view_ok d (view b).

Lemma beat_ok_dom d d' b :
  dom (Doc.members d') = dom (Doc.members d) -> beat_ok d b -> beat_ok d' b.
Proof. unfold beat_ok, view_ok. by intros ->. Qed.

(** A round takes every member that sends a heartbeat from [Pre] to [Post]. *)
Section phase.
Context (Pre Post : Z -> ConsumerMember -> Prop).
Context (Hweak : forall e m, Post e m -> Pre e m).
Context (Hstep : forall d i m m' now, calm d -> all_members (Pre (Doc.assignment_epoch d)) d ->
  Doc.members d !! i = Some m -> outcome d i m m' now -> Member.target m' = Member.target m ->
  Post (Doc.assignment_epoch d) m').

Lemma phase_round schedule d e (told : list bytes) :
  calm d -> Doc.assignment_epoch d = e -> all_members (Pre e) d -> Forall (beat_ok d) schedule ->
  (forall i m, i ∈ told -> Doc.members d !! i = Some m -> Post e m) ->
  exists d', beats d schedule = Ok d' /\ calm d' /\ same_targets d d' /\ all_members (Pre e) d' /\
    forall i m, i ∈ told ++ map who schedule -> Doc.members d' !! i = Some m -> Post e m.
Proof.
  revert d told. induction schedule as [|b schedule IH]; intros d told Hc He Hpre Hok Htold.
  { exists d. cbn. rewrite app_nil_r. split_and!; try done. split_and!; try done. intros i m Hm. by exists m. }
  apply Forall_cons in Hok as [(Hdom & Hnow & Hv) Hok]. apply elem_of_dom in Hdom as [m Hm].
  cbn [beats]. rewrite Hm. destruct (beat_step d b m) as (t & -> & Hc' & Hsame & Hoth & m' & Hm' & Et & Hout); [done..|].
  cbn [rbind]. assert (Hp : Post e m') by (rewrite <- He; eapply Hstep; [..|exact Hout|done]; try done; by rewrite He).
  destruct (IH (written t) (told ++ [who b])) as (d' & Hd' & Hcd' & Hsd' & Hpd' & Hpost).
  - done.
  - destruct Hsame as (_ & -> & _). done.
  - intros j mj Hj. destruct (decide (j = who b)) as [->|Hne]; [simplify_eq; by apply Hweak|].
    rewrite Hoth in Hj by done. by eapply Hpre.
  - eapply Forall_impl; [exact Hok|]. intros b'. apply beat_ok_dom. apply Hsame.
  - intros j mj Hj Hmj. destruct (decide (j = who b)) as [->|Hne]; [by simplify_eq|].
    rewrite Hoth in Hmj by done. apply elem_of_app in Hj as [Hj|Hj]; [by eapply Htold|set_solver +Hj Hne].
  - exists d'. split; [done|]. split; [done|]. split; [by eapply same_targets_trans|]. split; [done|].
    intros j mj Hj. apply Hpost. by rewrite <- app_assoc.
Qed.
End phase.

Definition trimmed (_ : Z) (m : ConsumerMember) : Prop :=
  flatten (Member.assigned m) ⊆ flatten (Member.target m).

Definition released (e : Z) (m : ConsumerMember) : Prop :=
  trimmed e m /\ Member.pending_revocation m = ∅ /\ Member.member_epoch m = e.

Definition at_rest (e : Z) (m : ConsumerMember) : Prop :=
  Member.state m = Stable /\ Member.member_epoch m = e /\ Member.pending_revocation m = ∅ /\
  flatten (Member.assigned m) = flatten (Member.target m).

Lemma outcome_trimmed d i m m' now :
  calm d -> Doc.members d !! i = Some m -> outcome d i m m' now -> Member.target m' = Member.target m ->
  trimmed (Doc.assignment_epoch d) m'.
Proof.
  intros Hc Hm Ho Et. unfold trimmed. rewrite Et. destruct Ho as [Hs He Ea _ _ _|_ Ea _ _|Hs wanted _ Ea _ _].
  - rewrite Ea. by rewrite (orderly_stable _ (calm_orderly _ Hc) i m Hm (calm_positive _ _ _ Hc Hm) Hs He).
  - rewrite Ea. set_solver +.
  - rewrite Ea. unfold wanted. set_solver +Hs.
Qed.

Lemma outcome_released d i m m' now :
  calm d -> all_members (trimmed (Doc.assignment_epoch d)) d ->
  Doc.members d !! i = Some m -> outcome d i m m' now -> Member.target m' = Member.target m ->
  released (Doc.assignment_epoch d) m'.
Proof.
  intros Hc Hall Hm Ho Et. split; [by eapply outcome_trimmed|].
  destruct Ho as [Hs He _ Ep _ Ee|Hn _ _ _|_ wanted _ _ Ep Ee].
  - rewrite Ep, Ee. split; [|done]. eapply (safe_pending _ (calm_safe _ Hc)); [done|congruence].
  - destruct Hn. by eapply Hall.
  - done.
Qed.

Lemma outcome_at_rest d i m m' now :
  calm d -> all_members (released (Doc.assignment_epoch d)) d ->
  Doc.members d !! i = Some m -> outcome d i m m' now -> Member.target m' = Member.target m ->
  at_rest (Doc.assignment_epoch d) m'.
Proof.
  intros Hc Hall Hm Ho Et. pose proof (Hall i m Hm) as (Htr & Hp & _). unfold at_rest. rewrite Et.
  destruct Ho as [Hs He Ea Ep Es Ee|Hn _ _ _|Hs wanted Es Ea Ep Ee].
  - rewrite Ea, Ep, Ee, Es. split_and!; try done. by eapply orderly_stable; [apply Hc|..|]; [|eapply calm_positive|..].
  - by destruct Hn.
  - assert (Hw : wanted ∩ owned_by_others d i = ∅).
    { apply elem_of_equiv_empty_L. intros x [Hx Ho]%elem_of_intersection.
      apply elem_of_owned_by_others in Ho as (j & mj & Hne & Hj & Hown).
      destruct (Hall j mj Hj) as (Htj & Hpj & _). unfold own in Hown. rewrite Hpj, flatten_empty, union_empty_r_L in Hown.
      pose proof (tidy_targets _ (orderly_tidy _ (calm_orderly _ Hc)) i j m mj Hm Hj ltac:(done)) as Hd.
      apply elem_of_disjoint in Hd. apply (Hd x); [by apply elem_of_difference in Hx as [? _]|by apply Htj]. }
    rewrite bool_decide_eq_true_2 in Es by done. split_and!; try done. rewrite Ea. apply set_eq. intros x.
    destruct (decide (x ∈ flatten (Member.assigned m))) as [Hx|Hx]; [set_solver +Hx Hs|].
    assert (x ∈ wanted -> x ∉ owned_by_others d i) by set_solver +Hw. unfold wanted in *. set_solver.
Qed.

Definition round_ok (d : ConsumerGroupDoc) (round : list Beat) : Prop :=
  Forall (beat_ok d) round /\ forall i, i ∈ dom (Doc.members d) -> i ∈ map who round.

Lemma round_ok_dom d d' r :
  dom (Doc.members d') = dom (Doc.members d) -> round_ok d r -> round_ok d' r.
Proof.
  intros E [H1 H2]. split; [|by rewrite E]. eapply Forall_impl; [exact H1|]. intros b. by apply beat_ok_dom.
Qed.

(** A whole round. *)
Lemma full_round (Pre Post : Z -> ConsumerMember -> Prop) d round :
  (forall e m, Post e m -> Pre e m) ->
  (forall d i m m' now, calm d -> all_members (Pre (Doc.assignment_epoch d)) d ->
    Doc.members d !! i = Some m -> outcome d i m m' now -> Member.target m' = Member.target m ->
    Post (Doc.assignment_epoch d) m') ->
  calm d -> all_members (Pre (Doc.assignment_epoch d)) d -> round_ok d round ->
  exists d', beats d round = Ok d' /\ calm d' /\ same_targets d d' /\
    all_members (Post (Doc.assignment_epoch d')) d'.
Proof.
  intros Hw Hs Hc Hpre [Hok Hall].
  destruct (phase_round Pre Post Hw Hs round d (Doc.assignment_epoch d) []) as (d' & H1 & H2 & H3 & _ & H4);
    try done. { by intros i m Hi%elem_of_nil. }
  exists d'. split_and!; try done. intros i m Hm. destruct H3 as (Ed & Ee & _). rewrite Ee.
  eapply H4; [|exact Hm]. apply Hall. rewrite <- Ed. by apply elem_of_dom.
Qed.

Lemma three_rounds d r1 r2 r3 :
  calm d -> round_ok d r1 -> round_ok d r2 -> round_ok d r3 ->
  exists d', beats d (r1 ++ r2 ++ r3) = Ok d' /\ calm d' /\ same_targets d d' /\
    all_members (at_rest (Doc.assignment_epoch d')) d'.
Proof.
  intros Hc H1 H2 H3.
  destruct (full_round (fun _ _ => True) trimmed d r1) as (d1 & E1 & C1 & S1 & A1); try done.
  { intros. by eapply outcome_trimmed. }
  destruct (full_round trimmed released d1 r2) as (d2 & E2 & C2 & S2 & A2); try done.
  { by intros e m [? _]. } { intros. by eapply outcome_released. } { eapply round_ok_dom, H2. apply S1. }
  pose proof (same_targets_trans _ _ _ S1 S2) as S12.
  destruct (full_round released at_rest d2 r3) as (d3 & E3 & C3 & S3 & A3); try done.
  { intros e m (? & ? & ? & E). split_and!; try done. unfold trimmed. by rewrite E. }
  { intros. by eapply outcome_at_rest. } { eapply round_ok_dom, H3. apply S12. }
  exists d3. split_and!; [|done|by eapply same_targets_trans|done].
  rewrite !beats_app, E1. cbn [rbind]. rewrite beats_app, E2. cbn [rbind]. done.
Qed.
End rounds.
