(* ===== verification/Migration.v ===== *)
(** * Migration: classic members of a consumer group

    [tansu-broker/src/coordinator/group/migration.rs]: the consumer group a
    classic group is converted to, and the classic [JoinGroup], [SyncGroup],
    [Heartbeat] and [LeaveGroup] it serves.  A minted [Uuid::new_v4] is an
    argument, as in [ConsumerGroup]. *)

From S2P Require Export Reconcile ConsumerProtocol.

Definition IllegalGeneration : error := Api 22.
Definition InconsistentGroupProtocol : error := Api 23.
Definition RebalanceInProgress : Z := 27.
Definition GroupIdNotFound : error := Api 69.
Definition MemberIdRequired : Z := 79.
Definition FencedInstanceId : error := Api 82.
Definition UnknownServerError : error := Api (-1).

Definition ASSIGNMENT_VERSION : Z := 3.

Record JoinGroupRequestProtocol := mkProtocol { proto_name : bytes; proto_metadata : bytes }.

Record ClassicJoin := mkClassicJoin {
  join_member_id : bytes;
  join_instance_id : option bytes;
  join_session_timeout_ms : Z;
  join_rebalance_timeout_ms : option Z;
  join_protocol_type : bytes;
  join_protocols : list JoinGroupRequestProtocol;
}.

(** The responses; every other field is a constant of the code. *)
Inductive Body :=
  | JoinGroupResponse (error_code generation_id : Z) (protocol_name member_id : bytes)
  | SyncGroupResponse (protocol_name assignment : bytes)
  | HeartbeatBody (error_code : Z)
  | LeaveGroupResponse (members : list (bytes * option bytes * Z)).

Definition subscribed_topics (metadata : bytes) : list bytes :=
  match metadata_decode metadata with
  | Ok m => Subscription.topics (Metadata.subscription m)
  | _ => []
  end.

Definition by_id (partitions : list TopicPartition) (names : gmap bytes Z) : Partitions :=
  grouped (flat_map (fun t =>
    match names !! topic t with
    | Some topic_id => map (pair topic_id) (ConsumerProtocol.partitions t)
    | None => []
    end) partitions).

Definition names_of (d : ConsumerGroupDoc) : gmap bytes Z :=
  fold_left (fun (names : gmap bytes Z) '(topic_id, t) => <[Topic.name t := topic_id]> names)
    (entries_of (Doc.topics d)) ∅.

Definition sorted (topics : list bytes) : list bytes := set_list (list_to_set topics).

(** ** Conversion *)

(** The member a classic member becomes. *)
Definition converted_member (g : GenerationDoc) (r : MemberRef) (doc : MemberDoc)
    (subscription : ConsumerProtocolSubscription) (protocol_name : bytes) (assigned : Partitions)
    : ConsumerMember :=
  Member.mk (Generation.generation_id g) (Generation.generation_id g) Stable (ref_instance_id r)
    (Subscription.rack_id subscription) [] [] (sorted (Subscription.topics subscription)) None None
    (default (MemberDoc.session_timeout_ms doc) (MemberDoc.rebalance_timeout_ms doc))
    (MemberDoc.session_timeout_ms doc) (MemberDoc.last_contact_ms doc) None assigned ∅ assigned
    (Some (Classic.mk (MemberDoc.session_timeout_ms doc) protocol_name [protocol_name]
             (MemberDoc.metadata doc))).

(** What the generation's assignment gives a member. *)
Definition classic_assigned (names : gmap bytes Z) (assignment : option AssignmentDoc)
    (member_id : bytes) : result Partitions :=
  match assignment ≫= fun a => AssignmentDoc.assignments a !! member_id with
  | None | Some [] => Ok ∅
  | Some assigned =>
      match assignment_decode assigned with
      | Ok decoded =>
          match Assignment.user_data (ConsumerProtocol.assignment decoded) with
          | Some (_ :: _) => Err GroupIdNotFound
          | _ => Ok (by_id (Assignment.assigned_partitions (ConsumerProtocol.assignment decoded)) names)
          end
      | _ => Err GroupIdNotFound
      end
  end.

Definition convert_member (g : GenerationDoc) (members : gmap bytes MemberDoc)
    (assignment : option AssignmentDoc) (names : gmap bytes Z) (now_ms : Z)
    (acc : result (gmap bytes ConsumerMember)) (entry : bytes * MemberRef)
    : result (gmap bytes ConsumerMember) :=
  let! converted := acc in
  let '(member_id, member_ref) := entry in
  match members !! member_id with
  | None => Ok converted
  | Some doc =>
      if MemberDoc.is_expired doc now_ms then Ok converted
      else
        let! m := match metadata_decode (MemberDoc.metadata doc) with
                  | Ok m => Ok m | _ => Err GroupIdNotFound end in
        let! assigned := classic_assigned names assignment member_id in
        Ok (<[member_id := converted_member g member_ref doc (Metadata.subscription m)
                (default [] (Generation.protocol_name g)) assigned]> converted)
  end.

Definition resolved_topics (resolved : Resolved) : gmap Z SubscribedTopic :=
  fold_left (fun (topics : gmap Z SubscribedTopic) '(name, (topic_id, partitions)) =>
    <[topic_id := Topic.mk name partitions]> topics) (entries_of resolved) ∅.

Definition from_classic (g : GenerationDoc) (members : gmap bytes MemberDoc)
    (assignment : option AssignmentDoc) (resolved : Resolved) (held : option ConsumerGroupDoc)
    (now_ms : Z) : result ConsumerGroupDoc :=
  let epoch := Z.max (Generation.generation_id g) (from_option Doc.group_epoch 0 held) in
  let d := Doc.mk (from_option Doc.seq 0 held) epoch epoch None ∅ (resolved_topics resolved)
             (Some (Generation.generation_id g)) (from_option Doc.created_ms now_ms held) in
  let assignment := assignment ≫= fun a =>
    if AssignmentDoc.generation_id a =? Generation.generation_id g then Some a else None in
  let! converted := fold_left (convert_member g members assignment (names_of d) now_ms)
                      (entries_of (Generation.members g)) (Ok ∅) in
  Ok (Doc.set_members converted d).

(** ** Classic requests *)

(** The member that holds an instance id. *)
Definition find_instance (d : ConsumerGroupDoc) (instance_id : bytes) : option (bytes * ConsumerMember) :=
  head (filter (fun x => Member.instance_id x.2 = Some instance_id) (entries_of (Doc.members d))).

Definition named (d : ConsumerGroupDoc) (member_id : bytes) (instance_id : option bytes)
    : result (bytes * ConsumerMember) :=
  match instance_id with
  | Some instance_id =>
      match find_instance d instance_id with
      | None => Err UnknownMemberId
      | Some (id, m) => if bool_decide (id = member_id) then Ok (id, m) else Err FencedInstanceId
      end
  | None =>
      match Doc.members d !! member_id with
      | Some m => Ok (member_id, m)
      | None => Err UnknownMemberId
      end
  end.

Definition agreed_protocol (d : ConsumerGroupDoc) (member_id : bytes)
    (protocols : list JoinGroupRequestProtocol) : option JoinGroupRequestProtocol :=
  find (fun p => forallb (fun x =>
      match Member.classic x.2 with
      | Some c => bool_decide (proto_name p ∈ Classic.protocols c)
      | None => true
      end) (filter (fun x => x.1 <> member_id) (entries_of (Doc.members d)))) protocols.

Definition waiting_on_unreleased (d : ConsumerGroupDoc) (member_id : bytes) (m : ConsumerMember) : bool :=
  negb (bool_decide ((flatten (Member.target m) ∖ flatten (Member.assigned m))
                     ## owned_by_others d member_id)).

Definition settled {R} (before d : ConsumerGroupDoc) (member_id : bytes) (l : Liveness) (now_ms : Z)
    (response : R) : Transition R :=
  let changed := negb (bool_decide (d = before)) in
  match Doc.members d !! member_id with
  | Some m =>
      if changed
      then mkTransition (alter_member (Member.set_last_contact_ms now_ms) member_id d) true false
             member_id response
      else mkTransition d false
             (Z.quot (Member.session_timeout_ms m) 2 <=? sat_i64 (now_ms - last_contact_of l member_id m))
             member_id response
  | None => mkTransition d changed false member_id response
  end.

(** The id a classic member joins under, or the id it is asked to come back with. *)
Definition joining_id (d : ConsumerGroupDoc) (r : ClassicJoin) (c : Client) (fresh_id : bytes)
    : result (bytes + bytes) :=
  match fst <$> (join_instance_id r ≫= find_instance d) with
  | Some held_id =>
      if bool_decide (join_member_id r = []) || bool_decide (join_member_id r = held_id)
      then Ok (inl held_id) else Err FencedInstanceId
  | None =>
      if negb (bool_decide (join_member_id r = [])) then Ok (inl (join_member_id r))
      else if bool_decide (is_Some (join_instance_id r)) then Ok (inl fresh_id)
      else Ok (inr (if bool_decide (client_id c = []) then fresh_id
                    else client_id c ++ ascii_bytes "-" ++ fresh_id))
  end.

(** What a classic join writes to its member, and whether it moved the subscription. *)
Definition joined_member (m : ConsumerMember) (r : ClassicJoin) (c : Client)
    (protocol : JoinGroupRequestProtocol) (subscription : ConsumerProtocolSubscription)
    : ConsumerMember * bool :=
  let topics := sorted (Subscription.topics subscription) in
  let renamed := negb (bool_decide (Member.subscribed_topic_names m = topics)) in
  let m := Member.set_subscribed_topic_names topics m in
  let chose := bool_decide (is_Some (Member.server_assignor m)) in
  let m := Member.set_server_assignor None m in
  let m := Member.set_instance_id (join_instance_id r) m in
  let m := Member.set_rack_id (Subscription.rack_id subscription) m in
  let m := Member.set_rebalance_timeout_ms
             (default (join_session_timeout_ms r) (join_rebalance_timeout_ms r)) m in
  let m := Member.set_session_timeout_ms (join_session_timeout_ms r) m in
  let m := Member.set_client_id (client_id c) m in
  let m := if bool_decide (client_host c = []) then m else Member.set_client_host (client_host c) m in
  (Member.set_classic (Some (Classic.mk (join_session_timeout_ms r) (proto_name protocol)
      (map proto_name (join_protocols r)) (proto_metadata protocol))) m, renamed || chose).

Definition encoded_assignment (d : ConsumerGroupDoc) (m : ConsumerMember) : result bytes :=
  let version :=
    match Member.classic m with
    | Some c => match metadata_decode (Classic.metadata c) with
                | Ok metadata => Metadata.version metadata | _ => 0 end
    | None => 0
    end in
  let version := Z.max 0 (Z.min version ASSIGNMENT_VERSION) in
  let assigned := omap (fun '(topic_id, ps) =>
      (fun t => mkTopicPartition (Topic.name t) (set_list ps)) <$> Doc.topics d !! topic_id)
    (entries_of (Member.assigned m)) in
  match assignment_encode (mkMemberAssignment version (Assignment.mk assigned None)) with
  | Ok bs => Ok bs
  | _ => Err UnknownServerError
  end.

Definition validated (d : ConsumerGroupDoc) (member_id : bytes) (instance_id : option bytes)
    (generation_id : Z) : result ConsumerMember :=
  let! (_, m) := named d member_id instance_id in
  if bool_decide (Member.classic m = None) then Err UnknownMemberId
  else if negb (Member.member_epoch m =? generation_id) then Err IllegalGeneration
  else Ok m.

Section requests.
Context (compile : bytes -> option (bytes -> bool)).

(** [join]; the member that comes in without an id is sent back with one. *)
Definition classic_join (held : option ConsumerGroupDoc) (r : ClassicJoin) (c : Client)
    (resolved : option Resolved) (l : Liveness) (config : ConsumerGroupConfig) (now_ms : Z)
    (fresh_id : bytes) : result (Transition Body) :=
  let before := match held with Some d => d | None => Doc.mk 0 0 0 None ∅ ∅ None now_ms end in
  if negb (bool_decide (join_protocol_type r = CONSUMER)) then Err InconsistentGroupProtocol else
  let '(d, rebalance) := sweep before l now_ms in
  let! id := joining_id d r c fresh_id in
  match id with
  | inr minted =>
      Ok (mkTransition before false false [] (JoinGroupResponse MemberIdRequired (-1) [] minted))
  | inl member_id =>
      match agreed_protocol d member_id (join_protocols r) with
      | None => Err InconsistentGroupProtocol
      | Some protocol =>
          let! m := match metadata_decode (proto_metadata protocol) with
                    | Ok m => Ok m | _ => Err InconsistentGroupProtocol end in
          let subscription := Metadata.subscription m in
          let! (d, rebalance) :=
            match Doc.members d !! member_id with
            | Some _ => Ok (d, rebalance)
            | None =>
                if match max_size config with
                   | Some n => (n <=? size (Doc.members d))%nat | None => false end
                then Err GroupMaxSizeReached
                else Ok (Doc.set_members (<[member_id :=
                           Member.set_previous_member_epoch (-1) Member.default]> (Doc.members d)) d, true)
            end in
          let '(d, refreshed) :=
            match resolved with Some resolved => refresh_topics d resolved | None => (d, false) end in
          let '(d, moved) :=
            match Doc.members d !! member_id with
            | Some m =>
                let '(m, moved) := joined_member m r c protocol subscription in
                (Doc.set_members (<[member_id := m]> (Doc.members d)) d, moved)
            | None => (d, false)
            end in
          let d := if rebalance || refreshed || moved then retarget compile d else d in
          let owned := (fun owned => by_id owned (names_of d)) <$> Subscription.owned_partitions subscription in
          let d := reconcile d member_id owned now_ms in
          match Doc.members d !! member_id with
          | None => Err UnknownMemberId
          | Some m =>
              Ok (settled before d member_id l now_ms
                    (JoinGroupResponse 0 (Member.member_epoch m) (proto_name protocol) member_id))
          end
      end
  end.

Definition classic_sync (held : option ConsumerGroupDoc) (member_id : bytes) (instance_id : option bytes)
    (generation_id : Z) (protocol : option bytes * option bytes) (l : Liveness) (now_ms : Z)
    : result (Transition Body) :=
  match held with
  | None => Err UnknownMemberId
  | Some before =>
      let '(d, swept) := sweep before l now_ms in
      let d := if swept then retarget compile d else d in
      let! m := validated d member_id instance_id generation_id in
      match Member.classic m with
      | None => Err UnknownMemberId
      | Some classic =>
          if from_option (fun t => negb (bool_decide (t = CONSUMER))) false protocol.1
             || from_option (fun n => negb (bool_decide (n = Classic.protocol_name classic))) false protocol.2
          then Err InconsistentGroupProtocol
          else if (Member.member_epoch m <? Doc.group_epoch d)
                  && negb (bool_decide (Member.state m = UnrevokedPartitions))
          then Err (Api RebalanceInProgress)
          else
            let! assignment := encoded_assignment d m in
            Ok (settled before d member_id l now_ms
                  (SyncGroupResponse (Classic.protocol_name classic) assignment))
      end
  end.

Definition classic_heartbeat (held : option ConsumerGroupDoc) (member_id : bytes)
    (instance_id : option bytes) (generation_id : Z) (resolved : option Resolved) (l : Liveness)
    (now_ms : Z) : result (Transition Body) :=
  match held with
  | None => Err UnknownMemberId
  | Some before =>
      let '(d, swept) := sweep before l now_ms in
      let '(d, refreshed) :=
        match resolved with Some resolved => refresh_topics d resolved | None => (d, false) end in
      let d := if swept || refreshed then retarget compile d else d in
      let! m := validated d member_id instance_id generation_id in
      let rejoin :=
        (Member.member_epoch m <? Doc.group_epoch d)
        || bool_decide (Member.state m = UnrevokedPartitions)
        || (bool_decide (Member.state m = UnreleasedPartitions)
            && negb (waiting_on_unreleased d member_id m)) in
      Ok (settled before d member_id l now_ms (HeartbeatBody (if rejoin then RebalanceInProgress else 0)))
  end.

(** One departing identity: the group, whether it changed, and its answer. *)
Definition depart (d : ConsumerGroupDoc) (who : bytes * option bytes) : ConsumerGroupDoc * bool * Z :=
  let '(member_id, instance_id) := who in
  let found :=
    match instance_id with
    | Some instance_id =>
        match find_instance d instance_id with
        | None => inr 25
        | Some (id, _) =>
            if bool_decide (member_id = []) || bool_decide (member_id = id) then inl id else inr 82
        end
    | None => if bool_decide (is_Some (Doc.members d !! member_id)) then inl member_id else inr 25
    end in
  match found with
  | inl id => (Doc.set_members (delete id (Doc.members d)) d, true, 0)
  | inr error_code => (d, false, error_code)
  end.

Fixpoint depart_all (d : ConsumerGroupDoc) (departing : list (bytes * option bytes))
    : ConsumerGroupDoc * bool * list (bytes * option bytes * Z) :=
  match departing with
  | [] => (d, false, [])
  | who :: departing =>
      let '(d, gone, code) := depart d who in
      let '(d, more, codes) := depart_all d departing in
      (d, gone || more, (who, code) :: codes)
  end.

Definition classic_leave (held : option ConsumerGroupDoc) (departing : list (bytes * option bytes))
    (l : Liveness) (now_ms : Z) : result (Transition Body) :=
  match held with
  | None => Err UnknownMemberId
  | Some before =>
      let '(d, swept) := sweep before l now_ms in
      let '(d, gone, responses) := depart_all d departing in
      let d := if swept || gone then retarget compile d else d in
      Ok (mkTransition d (negb (bool_decide (d = before))) false [] (LeaveGroupResponse responses))
  end.
End requests.

(** ** What classic requests keep *)

Lemma settled_keeps {R} before d i l now (r : R) :
  keeps (Doc.members d) (Doc.members (group (settled before d i l now r))).
Proof.
  unfold settled. destruct (Doc.members d !! i); [|done]. destruct (negb _); [|done]. apply touch_keeps.
Qed.

Lemma settled_follows {R} before d i l now (r : R) : follows d (group (settled before d i l now r)).
Proof.
  unfold settled. destruct (Doc.members d !! i); [|apply follows_refl].
  destruct (negb _); [apply touch_follows|apply follows_refl].
Qed.

Lemma joined_member_core m r c protocol s : same_core m (joined_member m r c protocol s).1.
Proof. unfold joined_member. by destruct (bool_decide (client_host c = [])). Qed.

Lemma depart_subset d who : Doc.members (depart d who).1.1 ⊆ Doc.members d.
Proof.
  destruct who as [member_id instance_id]. unfold depart.
  match goal with |- context [match ?x with inl _ => _ | inr _ => _ end] => destruct x end; [|done].
  apply delete_subseteq.
Qed.

Lemma depart_follows d who : follows d (depart d who).1.1.
Proof.
  destruct who as [member_id instance_id]. unfold depart.
  match goal with |- context [match ?x with inl _ => _ | inr _ => _ end] => destruct x end;
    [|apply follows_refl]. apply follows_subset, delete_subseteq.
Qed.

Lemma follows_trans d1 d2 d3 : follows d1 d2 -> follows d2 d3 -> follows d1 d3.
Proof.
  intros (T1 & G1 & A1 & M1) (T2 & G2 & A2 & M2). split_and!; [congruence..|].
  intros i m (m2 & Hm2 & E2)%M2. apply M1 in Hm2 as (m1 & Hm1 & E1). exists m1. split; [done|].
  unfold alike in *. naive_solver congruence.
Qed.

Lemma depart_all_keeps d departing :
  keeps (Doc.members d) (Doc.members (depart_all d departing).1.1) /\
  follows d (depart_all d departing).1.1.
Proof.
  revert d. induction departing as [|who departing IH]; intros d; [split; [done|apply follows_refl]|]. cbn.
  pose proof (depart_subset d who) as H1. pose proof (depart_follows d who) as H1'.
  destruct (depart d who) as [[d1 g1] code].
  cbn in H1, H1'. destruct (IH d1) as [H2 H2']. destruct (depart_all d1 departing) as [[d2 g2] codes]. cbn in *.
  split; [|by eapply follows_trans]. etransitivity; [by apply keeps_subset|done].
Qed.

Section preservation.
Context (compile : bytes -> option (bytes -> bool)).

Lemma classic_sync_keeps d i inst gen protocol l now t :
  classic_sync compile (Some d) i inst gen protocol l now = Ok t ->
  keeps (Doc.members d) (Doc.members (group t)).
Proof.
  unfold classic_sync. pose proof (sweep_keeps d l now) as K. destruct (sweep d l now) as [d1 swept]. cbn in K.
  set (d2 := if swept then _ else _). assert (K2 : keeps (Doc.members d) (Doc.members d2)).
  { unfold d2. destruct swept; [|done]. etransitivity; [exact K|apply retarget_keeps]. }
  intros H. apply rbind_Ok in H as (m & _ & H). destruct (Member.classic m); [|done].
  destruct (_ || _); [done|]. destruct (_ && _); [done|]. apply rbind_Ok in H as (bs & _ & H).
  apply Ok_inj in H as <-. etransitivity; [exact K2|apply settled_keeps].
Qed.

Lemma classic_heartbeat_keeps d i inst gen resolved l now t :
  classic_heartbeat compile (Some d) i inst gen resolved l now = Ok t ->
  keeps (Doc.members d) (Doc.members (group t)).
Proof.
  unfold classic_heartbeat. pose proof (sweep_keeps d l now) as K. destruct (sweep d l now) as [d1 swept]. cbn in K.
  match goal with |- (let '(_, _) := ?X in _) = _ -> _ =>
    assert (E1 : Doc.members X.1 = Doc.members d1)
      by (destruct resolved; [apply refresh_topics_members|done]); destruct X as [d2 refreshed] end.
  cbn in E1. rewrite <- E1 in K. set (d3 := if _ || _ then _ else _).
  assert (K3 : keeps (Doc.members d) (Doc.members d3)).
  { unfold d3. destruct (_ || _); [|done]. etransitivity; [exact K|apply retarget_keeps]. }
  intros H. apply rbind_Ok in H as (m & _ & H). apply Ok_inj in H as <-.
  etransitivity; [exact K3|apply settled_keeps].
Qed.

Lemma classic_leave_keeps d departing l now t :
  classic_leave compile (Some d) departing l now = Ok t ->
  keeps (Doc.members d) (Doc.members (group t)).
Proof.
  unfold classic_leave. pose proof (sweep_keeps d l now) as K. destruct (sweep d l now) as [d1 swept]. cbn in K.
  destruct (depart_all_keeps d1 departing) as [K2 _]. destruct (depart_all d1 departing) as [[d2 gone] codes]. cbn in K2.
  intros H. apply Ok_inj in H as <-. cbn [group].
  assert (K3 : keeps (Doc.members d) (Doc.members d2)) by (by etransitivity).
  destruct (_ || _); [|done]. etransitivity; [exact K3|apply retarget_keeps].
Qed.

Lemma reconcile_topics d i owned now : Doc.topics (reconcile d i owned now) = Doc.topics d.
Proof. unfold reconcile. destruct (Doc.members d !! i); [|done]. by destruct (moves _ _ _). Qed.

Lemma settled_topics {R} before d i l now (r : R) :
  Doc.topics (group (settled before d i l now r)) = Doc.topics d.
Proof. unfold settled. destruct (Doc.members d !! i); [|done]. by destruct (negb _). Qed.

(** The member a classic join starts with when the group does not know it. *)
Definition blank_member : ConsumerMember := Member.set_previous_member_epoch (-1) Member.default.

(** [d'] is [d], with a blank member when [i] is not one of its members. *)
Definition seated (d d' : ConsumerGroupDoc) (i : bytes) (fresh : bool) : Prop :=
  if fresh then Doc.members d !! i = None /\
    d' = Doc.set_members (<[i := blank_member]> (Doc.members d)) d
  else d' = d.

(** [d'] is [d] with fields that own nothing updated. *)
Record prepared (resolved : option Resolved) (d d' : ConsumerGroupDoc) : Prop := mkPrepared {
  prepared_keeps : keeps (Doc.members d) (Doc.members d');
  prepared_tidy : resolved_opt_ok resolved -> tidy d -> tidy d';
  prepared_orderly : resolved_opt_ok resolved -> orderly d -> orderly d';
  prepared_epoch : Doc.group_epoch d' = Doc.group_epoch d;
}.

Lemma prepared_trans resolved d1 d2 d3 :
  prepared resolved d1 d2 -> prepared resolved d2 d3 -> prepared resolved d1 d3.
Proof.
  intros [K1 T1 O1 E1] [K2 T2 O2 E2]. split; [by etransitivity|auto|auto|congruence].
Qed.

Lemma follows_prepared resolved d d' :
  keeps (Doc.members d) (Doc.members d') -> follows d d' -> prepared resolved d d'.
Proof.
  intros K F. split; [done|intros _; by eapply follows_tidy|intros _; by eapply follows_orderly|].
  by destruct F as (_ & -> & _).
Qed.

Lemma refresh_prepared resolved d :
  prepared resolved d
    (match resolved with Some resolved => refresh_topics d resolved | None => (d, false) end).1.
Proof.
  destruct resolved as [rs|]; [|by split]. split.
  - by rewrite refresh_topics_members.
  - intros Hr. by apply refresh_topics_counts.
  - intros Hr. by apply refresh_topics_orderly.
  - unfold refresh_topics. by case_bool_decide.
Qed.

Lemma update_prepared resolved d i m m' :
  Doc.members d !! i = Some m -> same_core m m' ->
  prepared resolved d (Doc.set_members (<[i := m']> (Doc.members d)) d).
Proof.
  intros Hm Hc. apply follows_prepared.
  - eapply keeps_insert; [done|]. apply Hc.
  - eapply follows_insert; [done|]. by apply same_core_alike.
Qed.

(** What a classic join did, when it did not send the member back for an id. *)
Inductive joined (before : ConsumerGroupDoc) (r : ClassicJoin) (resolved : option Resolved) (l : Liveness)
    (now : Z) (t : Transition Body) : Prop :=
  | joined_intro i d1 d2 fresh reb protocol md :
      seated (sweep before l now).1 d1 i fresh -> prepared resolved d1 d2 ->
      (fresh = true -> reb = true) ->
      let d3 := if reb then retarget compile d2 else d2 in
      protocol ∈ join_protocols r -> metadata_decode (proto_metadata protocol) = Ok md ->
      let owned := (fun owned => by_id owned (names_of d3)) <$>
                     Subscription.owned_partitions (Metadata.subscription md) in
      sender t = i -> (exists epoch, response t = JoinGroupResponse 0 epoch (proto_name protocol) i) ->
      keeps (Doc.members (reconcile d3 i owned now)) (Doc.members (group t)) ->
      follows (reconcile d3 i owned now) (group t) -> joined before r resolved l now t.

Definition or_new (held : option ConsumerGroupDoc) (now : Z) : ConsumerGroupDoc :=
  match held with Some d => d | None => Doc.mk 0 0 0 None ∅ ∅ None now end.

Lemma classic_join_cases held r c resolved l config now fresh_id t :
  classic_join compile held r c resolved l config now fresh_id = Ok t ->
  group t = or_new held now \/ joined (or_new held now) r resolved l now t.
Proof.
  unfold classic_join. fold (or_new held now). set (before := or_new held now). intros H.
  destruct (negb _); [done|]. destruct (sweep before l now) as [d rebalance] eqn:Es.
  apply rbind_Ok in H as (id & _ & H). destruct id as [i|minted]; [|left; by apply Ok_inj in H as <-].
  right. destruct (agreed_protocol d i (join_protocols r)) as [protocol|] eqn:Ep; [|done].
  apply rbind_Ok in H as (md & Emd & H). apply rbind_Ok in H as ([d1 reb1] & Ead & H).
  assert (exists fresh, seated d d1 i fresh /\ (fresh = true -> reb1 = true)) as (fresh & Had & Hreb).
  { destruct (Doc.members d !! i) as [m|] eqn:Em.
    - apply Ok_inj, pair_eq in Ead as [<- <-]. by exists false.
    - destruct (match max_size config with Some _ => _ | None => _ end); [done|].
      apply Ok_inj, pair_eq in Ead as [<- <-]. by exists true. }
  pose proof (refresh_prepared resolved d1) as P1.
  destruct (match resolved with Some resolved => _ | None => _ end) as [d2 refreshed]. cbn in P1.
  match type of H with (let '(_, _) := ?X in _) = _ => assert (P2 : prepared resolved d2 X.1) end.
  { destruct (Doc.members d2 !! i) as [m|] eqn:Em; [|by split].
    pose proof (joined_member_core m r c protocol (Metadata.subscription md)) as Hc.
    destruct (joined_member m r c protocol (Metadata.subscription md)) as [m' moved]. by eapply update_prepared. }
  match type of H with (let '(_, _) := ?X in _) = _ => destruct X as [d3 moved] end. cbn in P2.
  match type of H with match Doc.members (reconcile ?D _ _ _) !! _ with _ => _ end = _ => set (d4 := D) in * end.
  match type of H with match Doc.members (reconcile _ _ ?O _) !! _ with _ => _ end = _ => set (owned := O) in * end.
  destruct (Doc.members (reconcile d4 i owned now) !! i) as [m|] eqn:Em; [|done]. apply Ok_inj in H as <-.
  apply (joined_intro before r resolved l now _ i d1 d3 fresh (reb1 || refreshed || moved) protocol md).
  - by rewrite Es.
  - by eapply prepared_trans.
  - intros Hf. by rewrite Hreb.
  - unfold agreed_protocol in Ep. apply find_some in Ep as [Ep _]. by apply list_elem_of_In.
  - by destruct (metadata_decode (proto_metadata protocol)); simplify_eq/=.
  - unfold settled. rewrite Em. by destruct (negb _).
  - exists (Member.member_epoch m). unfold settled. rewrite Em. by destruct (negb _).
  - apply settled_keeps.
  - apply settled_follows.
Qed.

Lemma safe_empty : safe ∅.
Proof. split; intros *; by rewrite lookup_empty. Qed.

Lemma seated_safe d d' i fresh : seated d d' i fresh -> safe (Doc.members d) -> safe (Doc.members d').
Proof.
  destruct fresh; [|by intros ->]. intros [_ ->] Hs. cbn. apply safe_insert; [by apply safe_delete|..].
  - intros j m' _ _. unfold own. cbn. rewrite flatten_empty. set_solver +.
  - done.
  - cbn. rewrite flatten_empty. set_solver +.
Qed.

Lemma seated_others d d' i fresh j m :
  seated d d' i fresh -> j <> i \/ own m <> ∅ -> Doc.members d' !! j = Some m -> Doc.members d !! j = Some m.
Proof.
  destruct fresh; [|by intros ->]. intros [_ ->] Hne. cbn. rewrite lookup_insert_Some.
  intros [[<- <-]|[_ Hj]]; [|done]. destruct Hne as [?|Hne]; [done|]. destruct Hne.
  unfold own. cbn. by rewrite flatten_empty, union_idemp_L.
Qed.

Lemma retarget_if_keeps d (b : bool) :
  keeps (Doc.members d) (Doc.members (if b then retarget compile d else d)).
Proof. destruct b; [apply retarget_keeps|done]. Qed.

Lemma classic_join_safe held r c resolved l config now fresh_id t :
  safe (held_members held) -> classic_join compile held r c resolved l config now fresh_id = Ok t ->
  safe (Doc.members (group t)).
Proof.
  intros Hs H%classic_join_cases. assert (Hb : safe (Doc.members (or_new held now))) by (by destruct held).
  destruct H as [->|[i d1 d2 fresh reb protocol md H1 H2 _ d3 _ _ owned _ _ K _]]; [done|].
  eapply safe_keeps; [exact K|]. apply reconcile_safe. eapply safe_keeps; [apply retarget_if_keeps|].
  eapply safe_keeps; [apply H2|]. eapply seated_safe; [exact H1|]. eapply safe_keeps, Hb. apply sweep_keeps.
Qed.

Lemma sweep_gone d l now i m :
  Doc.members d !! i = Some m -> Doc.members (sweep d l now).1 !! i = None -> dropped l now i m = true.
Proof.
  intros Hm. cbn. rewrite map_lookup_filter, Hm. cbn. case_guard as Hg; [done|].
  intros _. by apply not_false_is_true in Hg.
Qed.

(** A classic join takes from its own member alone, and only what the member says
    it does not own, unless the member had lapsed. *)
Lemma classic_join_consent d r c resolved l config now fresh_id t j m m' x :
  safe (Doc.members d) -> classic_join compile (Some d) r c resolved l config now fresh_id = Ok t ->
  Doc.members d !! j = Some m -> Doc.members (group t) !! j = Some m' -> x ∈ own m -> x ∉ own m' ->
  (exists code epoch name, response t = JoinGroupResponse code epoch name j) /\ (dropped l now j m = true \/ exists protocol md owned,
    protocol ∈ join_protocols r /\ metadata_decode (proto_metadata protocol) = Ok md /\
    Subscription.owned_partitions (Metadata.subscription md) = Some owned /\
    x ∉ flatten (by_id owned (names_of (group t)))).
Proof.
  intros Hs H%classic_join_cases Hm Hm' Hx Hnx. cbn in H.
  destruct H as [E|[i d1 d2 fresh reb protocol md H1 H2 Hr d3 Hp Hmd owned Hi Hans K F]].
  { destruct Hnx. rewrite E in Hm'. by simplify_eq. }
  set (d0 := (sweep d l now).1) in *. assert (K0 : keeps (Doc.members d) (Doc.members d0)) by apply sweep_keeps.
  destruct (K j m' Hm') as (m4 & Hm4 & E4). rewrite (same_hold_own _ _ E4) in Hnx.
  assert (Hs1 : safe (Doc.members d1)) by (eapply seated_safe; [exact H1|by eapply safe_keeps]).
  assert (K3 : keeps (Doc.members d1) (Doc.members d3)).
  { etransitivity; [apply H2|apply retarget_if_keeps]. }
  assert (Hback : forall n, Doc.members d3 !! j = Some n -> x ∈ own n \/ fresh = true /\ j = i).
  { intros n Hn. apply K3 in Hn as (n1 & Hn1 & E1). rewrite (same_hold_own _ _ E1).
    destruct (decide (fresh = true /\ j = i)) as [Hf|Hf]; [by right|left].
    assert (Hn0 : Doc.members d0 !! j = Some n1).
    { destruct fresh; [|by rewrite <- H1]. eapply seated_others; [exact H1| |exact Hn1]. left. naive_solver. }
    by eapply (keeps_own _ _ _ _ _ _ K0). }
  destruct (decide (j = i)) as [->|Hne].
  - split; [destruct Hans as [epoch ->]; eauto|]. assert (is_Some (Doc.members d3 !! i)) as [m3 Hm3].
    { unfold reconcile in Hm4. destruct (Doc.members d3 !! i) eqn:E; [done|]. by rewrite E in Hm4. }
    destruct (Hback m3 Hm3) as [Hx3|[Hf _]].
    + destruct (reconcile_consent d3 i owned now m3 m4 x) as (o & Eo & Ho); try done.
      { by eapply safe_keeps. }
      unfold owned in Eo. destruct (Subscription.owned_partitions (Metadata.subscription md)) as [ol|] eqn:Eol; [|done].
      injection Eo as <-. right. exists protocol, md, ol. split_and!; try done.
      destruct F as (Et & _). unfold names_of in *. rewrite Et, reconcile_topics. done.
    + subst fresh. destruct H1 as [Hnone _]. left. by eapply sweep_gone.
  - destruct Hnx. rewrite reconcile_others in Hm4 by done. destruct (Hback m4 Hm4) as [?|[_ ?]]; done.
Qed.

Definition room (held : option ConsumerGroupDoc) : Prop :=
  match held with Some d => orderly d /\ Doc.group_epoch d < i32_MAX | None => True end.

Lemma or_new_orderly held now :
  room held -> orderly (or_new held now) /\ Doc.group_epoch (or_new held now) < i32_MAX.
Proof. destruct held as [d|]; [done|]. intros _. split; [|done]. by split; [split|..]. Qed.

Lemma sweep_orderly d l now :
  orderly d -> orderly (sweep d l now).1 /\ Doc.group_epoch (sweep d l now).1 = Doc.group_epoch d.
Proof. intros Hd. split; [|done]. eapply follows_orderly; [apply sweep_follows|done]. Qed.

Lemma retarget_if_orderly d (b : bool) :
  tidy d -> (b = false -> orderly d) -> Doc.group_epoch d < i32_MAX ->
  orderly (if b then retarget compile d else d).
Proof. intros Ht Ho Hg. destruct b; [by apply retarget_orderly|by apply Ho]. Qed.

Lemma classic_join_orderly held r c resolved l config now fresh_id t :
  room held -> resolved_opt_ok resolved ->
  classic_join compile held r c resolved l config now fresh_id = Ok t -> orderly (group t).
Proof.
  intros Hr Hres H%classic_join_cases. apply (or_new_orderly held now) in Hr as [Hb Hmax].
  destruct H as [->|[i d1 d2 fresh reb protocol md H1 H2 Hreb d3 _ _ owned _ _ _ F]]; [done|].
  eapply follows_orderly; [exact F|]. apply reconcile_orderly.
  destruct (sweep_orderly (or_new held now) l now Hb) as [H0 E0].
  assert (HT : tidy d1 /\ (fresh = false -> orderly d1) /\ Doc.group_epoch d1 = Doc.group_epoch (or_new held now)).
  { destruct fresh.
    - destruct H1 as [_ ->]. split; [|split; [done|by rewrite <- E0]].
      edestruct (orderly_insert (sweep (or_new held now) l now).1 (Doc.members (sweep (or_new held now) l now).1)
        i blank_member) as [HA _]; cbn; [apply H0|done|by left|lia|done].
    - rewrite H1. split; [apply H0|]. by split. }
  destruct HT as (HT & HO & HE). apply retarget_if_orderly.
  - by apply H2; [|].
  - intros ->. apply H2; [done|]. apply HO. destruct fresh; [|done]. by specialize (Hreb eq_refl).
  - rewrite (prepared_epoch _ _ _ H2). lia.
Qed.

Lemma classic_sync_orderly held i inst gen protocol l now t :
  room held -> classic_sync compile held i inst gen protocol l now = Ok t -> orderly (group t).
Proof.
  unfold classic_sync. destruct held as [d|]; [|done]. intros [Hd Hmax].
  destruct (sweep_orderly d l now Hd) as [H1 E1]. destruct (sweep d l now) as [d1 swept]. cbn in H1, E1.
  intros H. apply rbind_Ok in H as (m & _ & H). destruct (Member.classic m); [|done].
  destruct (_ || _); [done|]. destruct (_ && _); [done|]. apply rbind_Ok in H as (bs & _ & H).
  apply Ok_inj in H as <-. eapply follows_orderly; [apply settled_follows|].
  apply retarget_if_orderly; [apply H1|done|lia].
Qed.

Lemma classic_heartbeat_orderly held i inst gen resolved l now t :
  room held -> resolved_opt_ok resolved ->
  classic_heartbeat compile held i inst gen resolved l now = Ok t -> orderly (group t).
Proof.
  unfold classic_heartbeat. destruct held as [d|]; [|done]. intros [Hd Hmax] Hres.
  destruct (sweep_orderly d l now Hd) as [H1 E1]. destruct (sweep d l now) as [d1 swept]. cbn in H1, E1.
  pose proof (refresh_prepared resolved d1) as P.
  destruct (match resolved with Some resolved => _ | None => _ end) as [d2 refreshed]. cbn in P.
  intros H. apply rbind_Ok in H as (m & _ & H). apply Ok_inj in H as <-.
  eapply follows_orderly; [apply settled_follows|]. pose proof (prepared_orderly _ _ _ P Hres H1) as H2.
  apply retarget_if_orderly; [apply H2|done|]. rewrite (prepared_epoch _ _ _ P). lia.
Qed.

Lemma classic_leave_orderly held departing l now t :
  room held -> classic_leave compile held departing l now = Ok t -> orderly (group t).
Proof.
  unfold classic_leave. destruct held as [d|]; [|done]. intros [Hd Hmax].
  destruct (sweep_orderly d l now Hd) as [H1 E1]. destruct (sweep d l now) as [d1 swept]. cbn in H1, E1.
  destruct (depart_all_keeps d1 departing) as [_ F]. destruct (depart_all d1 departing) as [[d2 gone] codes].
  cbn in F. intros H. apply Ok_inj in H as <-. cbn [group].
  pose proof (follows_orderly _ _ F H1) as H2. apply retarget_if_orderly; [apply H2|done|].
  destruct F as (_ & -> & _). lia.
Qed.
End preservation.

(** ** Conversion *)

(** The members of a converted group: at the generation, stable, with nothing to
    give up, and with what the generation's assignment gave them, which is their
    target too. *)
Definition carried_over (g : GenerationDoc) (assignment : option AssignmentDoc) (names : gmap bytes Z)
    (i : bytes) (m : ConsumerMember) : Prop :=
  Member.member_epoch m = Generation.generation_id g /\ Member.state m = Stable /\
  Member.pending_revocation m = ∅ /\ Member.target m = Member.assigned m /\
  classic_assigned names assignment i = Ok (Member.assigned m).

(** The assignment, if it is the generation's. *)
Definition of_generation (g : GenerationDoc) (assignment : option AssignmentDoc) : option AssignmentDoc :=
  assignment ≫= fun a =>
    if AssignmentDoc.generation_id a =? Generation.generation_id g then Some a else None.

Lemma convert_members g members assignment names now l acc converted :
  fold_left (convert_member g members assignment names now) l acc = Ok converted ->
  (forall c, acc = Ok c -> forall i m, c !! i = Some m -> carried_over g assignment names i m) ->
  forall i m, converted !! i = Some m -> carried_over g assignment names i m.
Proof.
  revert acc. induction l as [|[j r] l IH]; intros acc; cbn [fold_left]; [naive_solver|].
  intros H Hacc. eapply IH; [exact H|]. intros c' E i m. unfold convert_member in E.
  apply rbind_Ok in E as (c & -> & E). specialize (Hacc c eq_refl).
  destruct (members !! j) as [doc|]; [|apply Ok_inj in E as <-; apply Hacc].
  destruct (MemberDoc.is_expired doc now); [apply Ok_inj in E as <-; apply Hacc|].
  apply rbind_Ok in E as (md & _ & E). apply rbind_Ok in E as (assigned & Ha & E). apply Ok_inj in E as <-.
  intros [[<- <-]|[_ Hi]]%lookup_insert_Some; [by split_and!|by eapply Hacc].
Qed.

Lemma from_classic_members g members assignment resolved held now d :
  from_classic g members assignment resolved held now = Ok d ->
  (forall i m, Doc.members d !! i = Some m -> carried_over g (of_generation g assignment) (names_of d) i m) /\
  Doc.group_epoch d = Z.max (Generation.generation_id g) (from_option Doc.group_epoch 0 held) /\
  Doc.assignment_epoch d = Doc.group_epoch d /\ Doc.topics d = resolved_topics resolved /\
  Doc.classic_generation d = Some (Generation.generation_id g).
Proof.
  unfold from_classic. intros H. apply rbind_Ok in H as (converted & E & H). apply Ok_inj in H as <-. cbn.
  split; [|done]. eapply convert_members; [exact E|]. intros c [= <-] i m. by rewrite lookup_empty.
Qed.

(** What the classic leader gave a member, by the topic's name. *)
Definition leader_gave (a : AssignmentDoc) (i name : bytes) (p : Z) : Prop :=
  exists bs decoded tp, AssignmentDoc.assignments a !! i = Some bs /\ assignment_decode bs = Ok decoded /\
    tp ∈ Assignment.assigned_partitions (ConsumerProtocol.assignment decoded) /\
    topic tp = name /\ p ∈ ConsumerProtocol.partitions tp.

(** It gave no partition to two members. *)
Definition even_handed (a : AssignmentDoc) : Prop :=
  forall i j name p, leader_gave a i name p -> leader_gave a j name p -> i = j.

(** And none with a negative index. *)
Definition indexed (a : AssignmentDoc) : Prop := forall i name p, leader_gave a i name p -> 0 <= p.

(** A topic id has one name. *)
Lemma names_of_name d name t : names_of d !! name = Some t -> Topic.name <$> Doc.topics d !! t = Some name.
Proof.
  unfold names_of.
  assert (Hl : forall x, x ∈ entries_of (Doc.topics d) -> Doc.topics d !! x.1 = Some x.2).
  { intros [t' topic] Hx%elem_of_entries. exact Hx. }
  revert Hl. generalize (entries_of (Doc.topics d)). intros l.
  induction l as [|[t' topic] l IH] using rev_ind; intros Hl; [done|].
  rewrite fold_left_app. cbn. intros [[<- <-]|[_ H]]%lookup_insert_Some.
  - pose proof (Hl (t', topic)) as H. cbn in H. rewrite H; [done|]. apply elem_of_app. right. by left.
  - apply IH; [|done]. intros x Hx. apply Hl, elem_of_app. by left.
Qed.

Lemma by_id_gave (l : list TopicPartition) names t p :
  (t, p) ∈ flatten (by_id l names) ->
  exists tp, tp ∈ l /\ names !! topic tp = Some t /\ p ∈ ConsumerProtocol.partitions tp.
Proof.
  unfold by_id. rewrite flatten_grouped. intros Hx%elem_of_list_to_set.
  apply list_elem_of_In, in_flat_map in Hx as (tp & Htp & Hx). apply list_elem_of_In in Htp. exists tp.
  destruct (names !! topic tp) as [t'|] eqn:E; [|done].
  apply in_map_iff in Hx as (p' & [= -> ->] & Hp). apply list_elem_of_In in Hp. done.
Qed.

Lemma classic_assigned_gave names assignment i ps t p :
  classic_assigned names assignment i = Ok ps -> (t, p) ∈ flatten ps ->
  exists a name, assignment = Some a /\ leader_gave a i name p /\ names !! name = Some t.
Proof.
  unfold classic_assigned. destruct assignment as [a|]; cbn.
  2: { intros H%Ok_inj. subst ps. by rewrite flatten_empty. }
  destruct (AssignmentDoc.assignments a !! i) as [bs|] eqn:Ea.
  2: { intros H%Ok_inj. subst ps. by rewrite flatten_empty. }
  destruct bs as [|b bs]; [intros H%Ok_inj; subst ps; by rewrite flatten_empty|].
  destruct (assignment_decode (b :: bs)) as [decoded| |] eqn:Ed; [|done..].
  assert (Hgoal : forall ps, Ok ps = Ok (by_id (Assignment.assigned_partitions
    (ConsumerProtocol.assignment decoded)) names) -> (t, p) ∈ flatten ps ->
    exists a0 name, Some a = Some a0 /\ leader_gave a0 i name p /\ names !! name = Some t).
  { intros ps' H%Ok_inj. subst ps'. intros (tp & H1 & H2 & H3)%by_id_gave.
    exists a, (topic tp). split; [done|]. split; [|done]. exists (b :: bs), decoded, tp. by split_and!. }
  destruct (Assignment.user_data _) as [[|]|]; intros H Hx; [|done|]; by eapply Hgoal.
Qed.

(** A conversion of an even-handed assignment is one: nobody owns what another does. *)
Lemma from_classic_dealt g members assignment resolved held now d i j m m' x :
  from_classic g members assignment resolved held now = Ok d ->
  (forall a, assignment = Some a -> even_handed a) ->
  Doc.members d !! i = Some m -> Doc.members d !! j = Some m' ->
  x ∈ flatten (Member.assigned m) -> x ∈ flatten (Member.assigned m') -> i = j.
Proof.
  intros (Hc & _)%from_classic_members He Hi Hj. destruct x as [t p].
  destruct (Hc i m Hi) as (_ & _ & _ & _ & H1), (Hc j m' Hj) as (_ & _ & _ & _ & H2).
  intros (a & name & Ea & Ha & Hn)%(classic_assigned_gave _ _ _ _ _ _ H1).
  intros (a' & name' & Ea' & Ha' & Hn')%(classic_assigned_gave _ _ _ _ _ _ H2). simplify_eq.
  apply names_of_name in Hn. apply names_of_name in Hn'. assert (name' = name) as -> by congruence.
  assert (assignment = Some a) as Has.
  { unfold of_generation in Ea. destruct assignment as [b|]; cbn in Ea; [|done]. by destruct (_ =? _); simplify_eq. }
  by eapply (He a Has).
Qed.

Lemma from_classic_indexed g members assignment resolved held now d i m t p :
  from_classic g members assignment resolved held now = Ok d ->
  (forall a, assignment = Some a -> indexed a) ->
  Doc.members d !! i = Some m -> (t, p) ∈ flatten (Member.assigned m) -> 0 <= p.
Proof.
  intros (Hc & _)%from_classic_members He Hi. destruct (Hc i m Hi) as (_ & _ & _ & _ & H1).
  intros (a & name & Ea & Ha & Hn)%(classic_assigned_gave _ _ _ _ _ _ H1).
  eapply (He a); [|exact Ha]. unfold of_generation in Ea.
  destruct assignment as [b|]; cbn in Ea; [|done]. by destruct (_ =? _); simplify_eq.
Qed.

Lemma from_classic_safe g members assignment resolved held now d :
  from_classic g members assignment resolved held now = Ok d ->
  (forall a, assignment = Some a -> even_handed a) -> safe (Doc.members d).
Proof.
  intros H He. pose proof (from_classic_members _ _ _ _ _ _ _ H) as (Hc & _). split.
  - intros i j m m' Hi Hj Hne. unfold own. destruct (Hc i m Hi) as (_ & _ & -> & _), (Hc j m' Hj) as (_ & _ & -> & _).
    rewrite flatten_empty, !union_empty_r_L. apply elem_of_disjoint. intros x Hx Hx'.
    by eapply Hne, (from_classic_dealt _ _ _ _ _ _ _ i j).
  - intros i m Hi _. by destruct (Hc i m Hi) as (_ & _ & -> & _).
  - intros i m Hi. destruct (Hc i m Hi) as (_ & _ & -> & _). rewrite flatten_empty. set_solver +.
Qed.

Lemma resolved_topics_counts resolved t topic :
  resolved_ok resolved -> resolved_topics resolved !! t = Some topic -> 0 <= Topic.partitions topic.
Proof.
  intros Hr H. assert (Hd : tidy (Doc.mk 0 0 0 None ∅ ∅ None 0)) by (by split).
  apply (refresh_topics_counts _ resolved Hr) in Hd as [_ _ Hc _ _]. apply (Hc t). cbn in Hc |- *.
  unfold refresh_topics. cbn [Doc.topics]. fold (resolved_topics resolved). case_bool_decide as E; [|done].
  cbn. by rewrite <- E.
Qed.

Lemma from_classic_orderly g members assignment resolved held now d :
  from_classic g members assignment resolved held now = Ok d ->
  (forall a, assignment = Some a -> even_handed a /\ indexed a) -> resolved_ok resolved ->
  0 <= from_option Doc.group_epoch 0 held -> orderly d.
Proof.
  intros H He Hres Hge. pose proof (from_classic_members _ _ _ _ _ _ _ H) as (Hc & Eg & Ea & Et & _). split; [split|..].
  - intros i j m m' Hi Hj Hne. destruct (Hc i m Hi) as (_ & _ & _ & -> & _), (Hc j m' Hj) as (_ & _ & _ & -> & _).
    apply elem_of_disjoint. intros x Hx Hx'. eapply Hne, (from_classic_dealt _ _ _ _ _ _ _ i j); try done. naive_solver.
  - intros i m t p Hi. destruct (Hc i m Hi) as (_ & _ & _ & -> & _). eapply from_classic_indexed; try done. naive_solver.
  - intros t topic. rewrite Et. by apply resolved_topics_counts.
  - lia.
  - intros i m Hi. destruct (Hc i m Hi) as (-> & _). lia.
  - intros i m Hi _ _ _. by destruct (Hc i m Hi) as (_ & _ & _ & -> & _).
Qed.
