(* ===== verification/GroupHistory.v ===== *)
(** * GroupHistory: every request of every replica against a group's document

    A consumer group's document is written by heartbeats ([ConsumerGroup]), by
    the classic requests it serves and by its conversion ([Migration]), from
    any number of replicas at once ([Cas]).  This file puts them together:
    [Controller::consumer_transition] and its callers in
    [tansu-broker/src/coordinator/group/administrator.rs], and what holds of
    every document they can write. *)

From S2P Require Export Migration Converge Cas.

(** ** Requests *)

Inductive GroupRequest :=
  | ConsumerHeartbeat (r : HeartbeatRequest)
  | JoinRequest (r : ClassicJoin)
  | SyncRequest (member_id : bytes) (instance_id : option bytes) (generation_id : Z)
      (protocol : option bytes * option bytes)
  | BeatRequest (member_id : bytes) (instance_id : option bytes) (generation_id : Z)
  | LeaveRequest (departing : list (bytes * option bytes))
  | ConvertRequest (g : GenerationDoc) (members : gmap bytes MemberDoc)
      (assignment : option AssignmentDoc) (topics : Resolved).

Inductive Answer :=
  | HeartbeatAnswer (r : HeartbeatResponse)
  | ClassicAnswer (b : Body)
  | ConvertedAnswer.

(** A request and what the broker brings to it. *)
Record Call := mkCall {
  request : GroupRequest;
  client : Client;
  resolved : option Resolved;
  liveness : Liveness;
  config : ConsumerGroupConfig;
  now_ms : Z;
  fresh_id : bytes;
}.

Section requests.
Context (compile : bytes -> option (bytes -> bool)).

Definition classic_answer (r : result (Transition Body)) : result (ConsumerGroupDoc * bool * Answer) :=
  let! t := r in Ok (group t, changed t, ClassicAnswer (response t)).

(** The closure of [Controller::consumer_heartbeat]. *)
Definition heartbeat_step (held : option ConsumerGroupDoc) (r : HeartbeatRequest) (e : Call)
    : result (ConsumerGroupDoc * bool * Answer) :=
  if bool_decide (held = None) && negb (Request.member_epoch r =? 0) then Err UnknownMemberId
  else
    let! t := ConsumerGroup.apply compile held r (client e) (resolved e) (liveness e) (config e) (now_ms e) (fresh_id e) in
    Ok (group t, changed t, HeartbeatAnswer (response t)).

(** The body of [Controller::complete_conversion]'s loop. *)
Definition convert_step (held : option ConsumerGroupDoc) (g : GenerationDoc) (members : gmap bytes MemberDoc)
    (assignment : option AssignmentDoc) (topics : Resolved) (now_ms : Z)
    : result (ConsumerGroupDoc * bool * Answer) :=
  match held with
  | Some d =>
      if bool_decide (Doc.classic_generation d = Some (Generation.generation_id g))
      then Ok (d, false, ConvertedAnswer)
      else let! d' := from_classic g members assignment topics held now_ms in
           Ok (d', true, ConvertedAnswer)
  | None => let! d' := from_classic g members assignment topics None now_ms in
            Ok (d', true, ConvertedAnswer)
  end.

(** Every request that reads and writes a group's document: besides those two, the
    closures of [classic_join_to_consumer], [classic_sync_to_consumer],
    [classic_heartbeat_to_consumer] and [classic_leave_to_consumer]. *)
Definition group_step (held : option ConsumerGroupDoc) (e : Call)
    : result (ConsumerGroupDoc * bool * Answer) :=
  match request e with
  | ConsumerHeartbeat r => heartbeat_step held r e
  | JoinRequest r =>
      classic_answer (classic_join compile held r (client e) (resolved e) (liveness e) (config e)
                        (now_ms e) (fresh_id e))
  | SyncRequest member_id instance_id generation_id protocol =>
      classic_answer (classic_sync compile held member_id instance_id generation_id protocol
                        (liveness e) (now_ms e))
  | BeatRequest member_id instance_id generation_id =>
      classic_answer (classic_heartbeat compile held member_id instance_id generation_id
                        (resolved e) (liveness e) (now_ms e))
  | LeaveRequest departing =>
      classic_answer (classic_leave compile held departing (liveness e) (now_ms e))
  | ConvertRequest g members assignment topics => convert_step held g members assignment topics (now_ms e)
  end.

(** ** What the theorems ask of the requests *)

(** The classic leader of a converted generation gave no partition to two members;
    the broker warns when one does, and converts what it gave. *)
Definition fair (e : Call) : Prop :=
  match request e with
  | ConvertRequest _ _ (Some a) _ => even_handed a
  | _ => True
  end.

(** Topics have no negative partition counts, and a converted generation is an [i32]
    and its leader gave no negative partition. *)
Definition in_range (e : Call) : Prop :=
  resolved_opt_ok (resolved e) /\
  match request e with
  | ConvertRequest g _ assignment topics =>
      resolved_ok topics /\ Generation.generation_id g <= i32_MAX /\ (forall a, assignment = Some a -> indexed a)
  | _ => True
  end.

(** ** What every request keeps *)

Lemma classic_answer_Ok r d ch ans :
  classic_answer r = Ok (d, ch, ans) -> exists t, r = Ok t /\ d = group t /\ ch = changed t /\ ans = ClassicAnswer (response t).
Proof. unfold classic_answer. intros (t & -> & H)%rbind_Ok. apply Ok_inj in H as [= <- <- <-]. by exists t. Qed.

Lemma group_step_safe held e d ch ans :
  fair e -> safe (held_members held) -> group_step held e = Ok (d, ch, ans) -> safe (Doc.members d).
Proof.
  unfold group_step, heartbeat_step, convert_step, fair.
  intros Hf Hs. destruct (request e) as [r|r|i inst gen p|i inst gen|dep|g ms a topics].
  - destruct (_ && _); [done|]. intros (t & Ht & H)%rbind_Ok. apply Ok_inj in H as [= <- _ _]. by eapply apply_safe.
  - intros (t & Ht & -> & _)%classic_answer_Ok. by eapply classic_join_safe.
  - intros (t & Ht & -> & _)%classic_answer_Ok. destruct held as [d0|]; [|done].
    eapply safe_keeps, Hs. by eapply classic_sync_keeps.
  - intros (t & Ht & -> & _)%classic_answer_Ok. destruct held as [d0|]; [|done].
    eapply safe_keeps, Hs. by eapply classic_heartbeat_keeps.
  - intros (t & Ht & -> & _)%classic_answer_Ok. destruct held as [d0|]; [|done].
    eapply safe_keeps, Hs. by eapply classic_leave_keeps.
  - destruct held as [d0|]; [case_bool_decide as Hg; [by intros [= <- _ _]|]|];
      intros (d' & Hd & H)%rbind_Ok; apply Ok_inj in H as [= <- _ _];
      (eapply from_classic_safe; [exact Hd|by intros ? ->]).
Qed.

(** Epochs only grow. *)
Definition epoch_grows (d d' : ConsumerGroupDoc) : Prop :=
  Doc.group_epoch d <= i32_MAX -> Doc.group_epoch d <= Doc.group_epoch d' <= i32_MAX.

Lemma same_epoch_grows d d' : Doc.group_epoch d' = Doc.group_epoch d -> epoch_grows d d'.
Proof. unfold epoch_grows. lia. Qed.

#[local] Instance epoch_grows_trans : Transitive epoch_grows.
Proof. intros a b c H1 H2 H. apply H1 in H. destruct H as [H3 H4]. apply H2 in H4. lia. Qed.

Lemma retarget_if_epoch d (b : bool) : epoch_grows d (if b then retarget compile d else d).
Proof.
  destruct b; [|by apply same_epoch_grows]. unfold epoch_grows. cbn. unfold sat_i32, i32_MAX. lia.
Qed.

Lemma reconcile_epoch d i owned now : Doc.group_epoch (reconcile d i owned now) = Doc.group_epoch d.
Proof. unfold reconcile. destruct (Doc.members d !! i); [|done]. by destruct (moves _ _ _). Qed.

Lemma settled_epoch {R} before d i l now (r : R) :
  Doc.group_epoch (group (settled before d i l now r)) = Doc.group_epoch d.
Proof. unfold settled. destruct (Doc.members d !! i); [|done]. by destruct (negb _). Qed.

Lemma apply_member_epoch before d reb i r c rs l cfg now t :
  apply_member compile before d reb i r c rs l cfg now = Ok t -> epoch_grows d (group t).
Proof.
  unfold apply_member. intros H. apply rbind_Ok in H as ([d0 updated] & H0 & H).
  assert (E0 : Doc.group_epoch d0 = Doc.group_epoch d).
  { destruct (Doc.members d !! i); [|by apply Ok_inj, pair_eq in H0 as [<- _]].
    apply rbind_Ok in H0 as ([m b] & _ & H0). by apply Ok_inj, pair_eq in H0 as [<- _]. }
  pose proof (refresh_prepared rs d0) as P.
  destruct (match rs with Some rs => _ | None => _ end) as [d1 refreshed]. cbn in P.
  pose proof (retarget_if_epoch d1 (reb || updated || refreshed)) as G.
  set (d2 := if reb || updated || refreshed then _ else _) in *.
  destruct (Doc.members (reconcile d2 i (owned_from_request r) now) !! i); [|done]. apply Ok_inj in H as <-.
  transitivity d1; [apply same_epoch_grows; by rewrite (prepared_epoch _ _ _ P)|].
  etransitivity; [exact G|]. apply same_epoch_grows. cbn. destruct (negb _); cbn; by rewrite reconcile_epoch.
Qed.

Lemma join_epoch d r c cfg fresh d' i joined :
  ConsumerGroup.join d r c cfg fresh = Ok (d', i, joined) -> Doc.group_epoch d' = Doc.group_epoch d.
Proof.
  unfold ConsumerGroup.join. destruct (_ ≫= _) as [[j m]|].
  - destruct (negb _); [done|]. intros H. apply Ok_inj, pair_eq in H as [H _]. by apply pair_eq in H as [<- _].
  - destruct (Doc.members d !! _).
    + intros H. apply Ok_inj, pair_eq in H as [H _]. by apply pair_eq in H as [<- _].
    + destruct (_ && _); [done|]. destruct (match max_size cfg with Some _ => _ | None => _ end); [done|].
      intros H. apply Ok_inj, pair_eq in H as [H _]. by apply pair_eq in H as [<- _].
Qed.

Lemma apply_epoch held r c rs l cfg now fresh t :
  ConsumerGroup.apply compile held r c rs l cfg now fresh = Ok t -> epoch_grows (or_new held now) (group t).
Proof.
  unfold ConsumerGroup.apply. fold (or_new held now). set (before := or_new held now).
  assert (E0 : Doc.group_epoch (sweep before l now).1 = Doc.group_epoch before) by done.
  destruct (sweep before l now) as [d swept]. cbn in E0. destruct (_ || _).
  - unfold apply_leave. intros H. apply rbind_Ok in H as ([d1 gone] & H1 & H). apply Ok_inj in H as <-. cbn [group].
    transitivity d1; [|apply retarget_if_epoch]. apply same_epoch_grows. rewrite <- E0. unfold leave in H1.
    destruct (Doc.members d !! Request.member_id r); [|done].
    destruct (_ && _); by apply Ok_inj, pair_eq in H1 as [<- _].
  - destruct (Request.member_epoch r =? 0); intros H.
    + apply rbind_Ok in H as ([[d1 i] joined] & H1 & H). apply join_epoch in H1. apply apply_member_epoch in H.
      transitivity d1; [apply same_epoch_grows; congruence|done].
    + apply rbind_Ok in H as (u & _ & H). apply apply_member_epoch in H.
      transitivity d; [by apply same_epoch_grows|done].
Qed.

Lemma classic_join_epoch held r c rs l cfg now fresh t :
  classic_join compile held r c rs l cfg now fresh = Ok t -> epoch_grows (or_new held now) (group t).
Proof.
  intros [->|[i d1 d2 fr reb protocol md H1 H2 _ d3 _ _ owned _ _ _ F]]%classic_join_cases; [by apply same_epoch_grows|].
  transitivity d2; [apply same_epoch_grows; rewrite (prepared_epoch _ _ _ H2); by destruct fr; [destruct H1 as [_ ->]|rewrite H1]|].
  transitivity d3; [apply retarget_if_epoch|]. apply same_epoch_grows. destruct F as (_ & -> & _). apply reconcile_epoch.
Qed.

Lemma classic_sync_epoch d i inst gen p l now t :
  classic_sync compile (Some d) i inst gen p l now = Ok t -> epoch_grows d (group t).
Proof.
  unfold classic_sync. assert (E0 : Doc.group_epoch (sweep d l now).1 = Doc.group_epoch d) by done.
  destruct (sweep d l now) as [d1 swept]. cbn in E0. intros H. apply rbind_Ok in H as (m & _ & H).
  destruct (Member.classic m); [|done]. destruct (_ || _); [done|]. destruct (_ && _); [done|].
  apply rbind_Ok in H as (bs & _ & H). apply Ok_inj in H as <-. transitivity d1; [by apply same_epoch_grows|].
  etransitivity; [apply (retarget_if_epoch d1 swept)|]. apply same_epoch_grows, settled_epoch.
Qed.

Lemma classic_heartbeat_epoch d i inst gen rs l now t :
  classic_heartbeat compile (Some d) i inst gen rs l now = Ok t -> epoch_grows d (group t).
Proof.
  unfold classic_heartbeat. assert (E0 : Doc.group_epoch (sweep d l now).1 = Doc.group_epoch d) by done.
  destruct (sweep d l now) as [d1 swept]. cbn in E0. pose proof (refresh_prepared rs d1) as P.
  destruct (match rs with Some rs => _ | None => _ end) as [d2 refreshed]. cbn in P.
  intros H. apply rbind_Ok in H as (m & _ & H). apply Ok_inj in H as <-.
  transitivity d2; [apply same_epoch_grows; rewrite (prepared_epoch _ _ _ P); done|].
  etransitivity; [apply (retarget_if_epoch d2 (swept || refreshed))|]. apply same_epoch_grows, settled_epoch.
Qed.

Lemma classic_leave_epoch d dep l now t :
  classic_leave compile (Some d) dep l now = Ok t -> epoch_grows d (group t).
Proof.
  unfold classic_leave. assert (E0 : Doc.group_epoch (sweep d l now).1 = Doc.group_epoch d) by done.
  destruct (sweep d l now) as [d1 swept]. cbn in E0. destruct (depart_all_keeps d1 dep) as [_ F].
  destruct (depart_all d1 dep) as [[d2 gone] codes]. cbn in F. intros H. apply Ok_inj in H as <-. cbn [group].
  transitivity d2; [|apply retarget_if_epoch]. apply same_epoch_grows. destruct F as (_ & -> & _). done.
Qed.

(** What holds of every document: ownership is disjoint, and until the epochs run
    out the document is in order. *)
Record sound_group (d : ConsumerGroupDoc) : Prop := mkSoundGroup {
  sound_safe : safe (Doc.members d);
  sound_epoch : 0 <= Doc.group_epoch d <= i32_MAX;
  sound_orderly : Doc.group_epoch d < i32_MAX -> orderly d;
}.

Definition sound_held (held : option ConsumerGroupDoc) : Prop :=
  match held with Some d => sound_group d | None => True end.

Lemma sound_held_safe held : sound_held held -> safe (held_members held).
Proof. destruct held as [d|]; [by intros []|]. intros _. apply safe_empty. Qed.

Lemma sound_from held d now :
  sound_held held -> safe (Doc.members d) -> epoch_grows (or_new held now) d ->
  (room held -> orderly d) -> sound_group d.
Proof.
  intros Hh Hs Hg Ho. assert (He : 0 <= Doc.group_epoch (or_new held now) <= i32_MAX).
  { destruct held as [d0|]; [apply Hh|done]. }
  destruct He as [He0 He]. apply Hg in He. split; [done|lia|]. intros Hlt. apply Ho. destruct held as [d0|]; [|done]. cbn in *.
  split; [apply Hh; lia|lia].
Qed.

Lemma from_classic_sound g ms a topics held now d :
  from_classic g ms a topics held now = Ok d -> (forall a', a = Some a' -> even_handed a' /\ indexed a') ->
  resolved_ok topics -> Generation.generation_id g <= i32_MAX -> sound_held held -> sound_group d.
Proof.
  intros H Hd Hr Hg Hh. pose proof (from_classic_members _ _ _ _ _ _ _ H) as (_ & E & _).
  assert (Hge : 0 <= from_option Doc.group_epoch 0 held <= i32_MAX).
  { destruct held as [d0|]; cbn; [by apply sound_epoch in Hh|done]. }
  split.
  - eapply from_classic_safe; [exact H|]. naive_solver.
  - rewrite E. lia.
  - intros _. eapply from_classic_orderly; [done..|lia].
Qed.

Lemma group_step_sound held e d ch ans :
  fair e -> in_range e -> sound_held held -> group_step held e = Ok (d, ch, ans) -> sound_group d.
Proof.
  intros Hf [Hr Hc] Hh H. pose proof (group_step_safe held e d ch ans Hf (sound_held_safe _ Hh) H) as Hs.
  revert H. unfold group_step, heartbeat_step, convert_step, fair in *.
  destruct (request e) as [r|r|i inst gen p|i inst gen|dep|g ms a topics].
  - destruct (_ && _); [done|]. intros (t & Ht & H)%rbind_Ok. apply Ok_inj in H as [= <- _ _].
    eapply (sound_from held); [done..|by eapply apply_epoch|]. intros Hroom. by eapply apply_orderly.
  - intros (t & Ht & -> & _)%classic_answer_Ok.
    eapply (sound_from held); [done..|by eapply classic_join_epoch|]. intros Hroom. by eapply classic_join_orderly.
  - intros (t & Ht & -> & _)%classic_answer_Ok. destruct held as [d0|]; [|done].
    eapply (sound_from (Some d0) _ 0); [done..|by eapply classic_sync_epoch|]. intros Hroom. by eapply classic_sync_orderly.
  - intros (t & Ht & -> & _)%classic_answer_Ok. destruct held as [d0|]; [|done].
    eapply (sound_from (Some d0) _ 0); [done..|by eapply classic_heartbeat_epoch|]. intros Hroom.
    by eapply classic_heartbeat_orderly.
  - intros (t & Ht & -> & _)%classic_answer_Ok. destruct held as [d0|]; [|done].
    eapply (sound_from (Some d0) _ 0); [done..|by eapply classic_leave_epoch|]. intros Hroom. by eapply classic_leave_orderly.
  - destruct Hc as (Hc & Hgen & Hi). destruct held as [d0|]; [case_bool_decide as Hg; [by intros [= <- _ _]|]|];
      intros (d' & Hd & H)%rbind_Ok; apply Ok_inj in H as [= <- _ _];
      (eapply from_classic_sound; [exact Hd|by intros ? ->; auto|done..]).
Qed.

Lemma bumped_sound d : sound_group d -> sound_group (bumped d).
Proof.
  intros [H1 H2 H3]. split; [done|done|]. intros H%H3. eapply follows_orderly; [|exact H].
  split_and!; try done. intros i m Hm. by exists m.
Qed.

(** The member an answer names. *)
Definition addressee (a : Answer) : option bytes :=
  match a with
  | HeartbeatAnswer r => Some (Response.member_id r)
  | ClassicAnswer (JoinGroupResponse _ _ _ member_id) => Some member_id
  | _ => None
  end.

(** The request says that its sender does not own [x]: it starts over, or it lists
    what it owns without it. *)
Definition disowns (e : Call) (d' : ConsumerGroupDoc) (x : Z * Z) : Prop :=
  match request e with
  | ConsumerHeartbeat r =>
      Request.member_epoch r = 0 \/ exists o, owned_from_request r = Some o /\ x ∉ flatten o
  | JoinRequest r => exists protocol md owned,
      protocol ∈ join_protocols r /\ metadata_decode (proto_metadata protocol) = Ok md /\
      Subscription.owned_partitions (Metadata.subscription md) = Some owned /\
      x ∉ flatten (by_id owned (names_of d'))
  | _ => False
  end.

(** What a conversion gives a member: what the leader of the generation it converts
    gave it, and nothing to give up. *)
Definition converted_to (e : Call) (d d' : ConsumerGroupDoc) (j : bytes) (m' : ConsumerMember) : Prop :=
  match request e with
  | ConvertRequest g _ assignment _ =>
      Doc.classic_generation d <> Some (Generation.generation_id g) /\
      classic_assigned (names_of d') (of_generation g assignment) j = Ok (Member.assigned m') /\
      Member.pending_revocation m' = ∅
  | _ => False
  end.

Lemma group_step_consent d e d' ch ans j m m' x :
  safe (Doc.members d) -> group_step (Some d) e = Ok (d', ch, ans) ->
  Doc.members d !! j = Some m -> Doc.members d' !! j = Some m' -> x ∈ own m -> x ∉ own m' ->
  (addressee ans = Some j /\ (dropped (liveness e) (now_ms e) j m = true \/ disowns e d' x)) \/
  converted_to e d d' j m'.
Proof.
  intros Hs H Hm Hm' Hx Hnx. revert H. unfold group_step, heartbeat_step, convert_step, disowns, converted_to.
  destruct (request e) as [r|r|i inst gen p|i inst gen|dep|g ms a topics].
  - destruct (_ && _); [done|]. intros (t & Ht & H)%rbind_Ok. apply Ok_inj in H as [= <- _ <-].
    edestruct apply_consent as (_ & E & Hd); [exact Hs|exact Ht|exact Hm|exact Hm'|exact Hx|exact Hnx|].
    cbn. rewrite E. auto.
  - intros (t & Ht & -> & _ & ->)%classic_answer_Ok.
    edestruct classic_join_consent as ((code & epoch & name & E) & Hd);
      [exact Hs|exact Ht|exact Hm|exact Hm'|exact Hx|exact Hnx|]. rewrite E. auto.
  - intros (t & Ht & -> & _)%classic_answer_Ok. destruct Hnx. eapply keeps_own, Hx; [|done..]. by eapply classic_sync_keeps.
  - intros (t & Ht & -> & _)%classic_answer_Ok. destruct Hnx. eapply keeps_own, Hx; [|done..]. by eapply classic_heartbeat_keeps.
  - intros (t & Ht & -> & _)%classic_answer_Ok. destruct Hnx. eapply keeps_own, Hx; [|done..]. by eapply classic_leave_keeps.
  - case_bool_decide as Hg.
    { intros [= <- _ _]. destruct Hnx. by simplify_eq. }
    intros (d1 & Hd & H)%rbind_Ok. apply Ok_inj in H as [= <- _ _]. right.
    apply from_classic_members in Hd as (Hc & _). by destruct (Hc j m' Hm') as (_ & _ & Hp & _ & Ha).
Qed.
End requests.

(** ** Histories *)

(** Two attempts at one request.  A conversion reads the members, the assignment and
    the topics of the generation it was asked to convert anew every time. *)
Definition same_call (e e' : Call) : Prop :=
  client e = client e' /\ config e = config e' /\
  match request e, request e' with
  | ConvertRequest g _ _ _, ConvertRequest g' _ _ _ => g = g'
  | r, r' => r = r'
  end.

Lemma same_call_refl e : same_call e e.
Proof. unfold same_call. by destruct (request e). Qed.

Abbreviation GroupLog := (list (Entry Call Answer)).

(** The document of a group: one request after the other, and any number of
    replicas at once. *)
Definition group_history (compile : bytes -> option (bytes -> bool)) : GroupLog -> option ConsumerGroupDoc -> Prop :=
  sequential (group_step compile) bumped.
Definition group_replicas (compile : bytes -> option (bytes -> bool))
    : Replicas (D := ConsumerGroupDoc) (V := bytes) (E := Call) (R := Answer) -> Prop :=
  replicas_reach (group_step compile) bumped same_call.

(** The requests whose writes are in the log. *)
Definition all_writes (P : Call -> Prop) (l : GroupLog) : Prop := forall e ans, Wrote e ans ∈ l -> P e.

Lemma history_safe compile l held :
  group_history compile l held -> all_writes fair l -> safe (held_members held).
Proof.
  eapply (sequential_inv _ _ (fun held => safe (held_members held)) fair); [apply safe_empty|].
  intros held0 e next ans Hs Hf Hst. cbn. by eapply (group_step_safe compile held0).
Qed.

Lemma history_sound compile l held :
  group_history compile l held -> all_writes (fun e => fair e /\ in_range e) l -> sound_held held.
Proof.
  eapply (sequential_inv _ _ sound_held (fun e => fair e /\ in_range e)); [done|].
  intros held0 e next ans Hs [Hf Hr] Hst. apply bumped_sound. by eapply group_step_sound.
Qed.

Lemma replicas_history compile s : group_replicas compile s -> group_history compile (log s) (fst <$> key s).
Proof. intros H%replicas_reach_ok. apply H. Qed.

(** ** The loop *)

Definition quiet {A} (r : result A) : Prop :=
  match r with Ok _ => True | Err e => e <> CoordinatorLoadInProgress | Panic _ => False end.

Lemma quiet_bind {A B} (r : result A) (f : A -> result B) :
  quiet r -> (forall a, quiet (f a)) -> quiet (let! a := r in f a).
Proof. destruct r; cbn; auto. Qed.

Ltac quiet :=
  repeat first
    [ progress cbn beta iota
    | apply quiet_bind; [|intros ?]
    | match goal with
      | |- quiet (Ok _) => exact I
      | |- quiet (Err _) => by cbn
      | |- quiet (let '(_, _) := ?x in _) => destruct x
      | |- quiet (match ?x with _ => _ end) => destruct x
      | |- quiet (if ?x then _ else _) => destruct x
      end ].

Lemma update_member_quiet compile m r c cfg : quiet (update_member compile m r c cfg).
Proof. unfold update_member, update_regex, update_assignor. quiet. Qed.

Lemma apply_member_quiet compile before d reb i r c rs l cfg now :
  quiet (apply_member compile before d reb i r c rs l cfg now).
Proof.
  unfold apply_member. apply quiet_bind.
  - destruct (Doc.members d !! i); [|done]. apply quiet_bind; [apply update_member_quiet|]. intros [m b]. done.
  - intros [d0 updated]. quiet.
Qed.

Lemma apply_quiet compile held r c rs l cfg now fresh :
  quiet (ConsumerGroup.apply compile held r c rs l cfg now fresh).
Proof.
  unfold ConsumerGroup.apply, apply_leave, leave, ConsumerGroup.join, validate_epoch.
  destruct (sweep _ l now) as [d swept]. destruct (_ || _); [quiet|].
  destruct (_ =? 0); (apply quiet_bind; [quiet|]); intros; [destruct a as [[d1 i] joined]|]; apply apply_member_quiet.
Qed.

Lemma classic_join_quiet compile held r c rs l cfg now fresh :
  quiet (classic_join compile held r c rs l cfg now fresh).
Proof. unfold classic_join, joining_id. quiet. Qed.

Lemma validated_quiet d i inst gen : quiet (validated d i inst gen).
Proof. unfold validated, named. quiet. Qed.

Lemma classic_sync_quiet compile held i inst gen p l now :
  quiet (classic_sync compile held i inst gen p l now).
Proof.
  unfold classic_sync, encoded_assignment. destruct held; [|done]. destruct (sweep _ l now) as [d swept].
  apply quiet_bind; [apply validated_quiet|]. intros m. quiet.
Qed.

Lemma classic_heartbeat_quiet compile held i inst gen rs l now :
  quiet (classic_heartbeat compile held i inst gen rs l now).
Proof.
  unfold classic_heartbeat. destruct held; [|done]. destruct (sweep _ l now) as [d swept].
  destruct (match rs with Some rs => _ | None => _ end). apply quiet_bind; [apply validated_quiet|]. done.
Qed.

Lemma convert_members_quiet g ms a names now l acc :
  quiet acc -> quiet (fold_left (convert_member g ms a names now) l acc).
Proof.
  revert acc. induction l as [|[i r] l IH]; intros acc Ha; [done|]. cbn [fold_left]. apply IH.
  unfold convert_member, classic_assigned. apply quiet_bind; [done|]. intros c. quiet.
Qed.

Lemma group_step_plain compile : plain_step (group_step compile).
Proof.
  intros held e. change (quiet (group_step compile held e)). unfold group_step, heartbeat_step, convert_step, classic_answer, from_classic.
  destruct (request e) as [r|r|i inst gen p|i inst gen|dep|g ms a topics].
  - destruct (_ && _); [done|]. apply quiet_bind; [apply apply_quiet|done].
  - apply quiet_bind; [apply classic_join_quiet|done].
  - apply quiet_bind; [apply classic_sync_quiet|done].
  - apply quiet_bind; [apply classic_heartbeat_quiet|done].
  - apply quiet_bind; [|done]. unfold classic_leave. destruct held; [|done]. quiet.
  - destruct held as [d|]; [destruct (bool_decide _); [done|]|];
      (apply quiet_bind; [|done]); (apply quiet_bind; [by apply convert_members_quiet|done]).
Qed.

(** [Controller::consumer_transition]. *)
Definition consumer_transition (compile : bytes -> option (bytes -> bool))
    (attempts : list (Attempt (D := ConsumerGroupDoc) (V := bytes) (E := Call)))
    : result (Answer * option (ConsumerGroupDoc * bytes)) :=
  transition_loop (group_step compile) bumped 0 attempts.

(** ** Properties *)

(** C3 Any number of replicas serve requests on a group's document at once, each
    reading it, computing and writing back under the version it read, and trying
    again when it is refused.  However they interleave, and whichever of them
    stop halfway, the document in the store is the one that the logged writes
    leave when their requests are served one after the other: no write is lost
    and none is applied to a document that was no longer there.  Every answer that was given is
    the one its request gets at a point of that sequence between its arrival and
    its answer: a request that wrote is the write at its point, and of no other
    request; one that did not changes nothing there, or is refused there, or was
    told to try again later. *)
Theorem replicas_linearize compile s :
  group_replicas compile s ->
  group_history compile (log s) (fst <$> key s) /\
  Forall (served (group_step compile) bumped same_call (log s)) (answered s) /\
  NoDup (point <$> filter (fun a => wrote a = true) (answered s)).
Proof. intros [H _ _ _ _ _ _ _ Hs Hn]%replicas_reach_ok. done. Qed.

(** C4 Whatever the replicas do, if every classic group that was converted was
    converted from an assignment that gave no partition to two members, then a
    partition is owned, or still to be given up, by at most one member of the
    group: no two members consume it. *)
Theorem partition_has_one_owner compile s d v i j m m' x :
  group_replicas compile s -> all_writes fair (log s) -> key s = Some (d, v) ->
  Doc.members d !! i = Some m -> Doc.members d !! j = Some m' ->
  x ∈ own m -> x ∈ own m' -> i = j.
Proof.
  intros Hr Hf Hk Hm Hm' Hx Hx'. apply replicas_history in Hr. rewrite Hk in Hr. apply history_safe in Hr; [|done].
  destruct (decide (i = j)) as [->|Hne]; [done|].
  pose proof (safe_disjoint _ Hr i j m m' Hm Hm' Hne) as Hd. by destruct (Hd x).
Qed.

(** C24 No request but a conversion takes a partition from a member that stays in
    the group but the member's own, and then only if the request says that the
    member does not own it (it starts over at epoch 0, or lists what it owns
    without it) or if the member had let its session or its revocation deadline
    lapse; and a conversion, made only of a generation the document is not
    already the conversion of, leaves the member with what that generation's
    leader had given it.  The group's earlier conversions are assumed to be of
    assignments that gave no partition to two members. *)
Theorem partition_moves_with_consent compile l d e d' ch ans j m m' x :
  group_history compile l (Some d) -> all_writes fair l ->
  group_step compile (Some d) e = Ok (d', ch, ans) ->
  Doc.members d !! j = Some m -> Doc.members d' !! j = Some m' -> x ∈ own m -> x ∉ own m' ->
  (addressee ans = Some j /\ (dropped (liveness e) (now_ms e) j m = true \/ disowns e d' x)) \/
  converted_to e d d' j m'.
Proof. intros H Hf. apply history_safe in H; [|done]. by apply group_step_consent. Qed.

(** C26 Until the 32-bit epochs run out, every document of a group is in order:
    the targets of two members share no partition, no member is ahead of the
    group's epoch, and, from epoch 1 on, a stable member at the assignment epoch
    owns exactly its target.  It is assumed that partition counts and indices
    are not negative, and that the assignments of converted generations gave no
    partition to two members. *)
Theorem group_in_order compile l d :
  group_history compile l (Some d) -> all_writes (fun e => fair e /\ in_range e) l ->
  Doc.group_epoch d < i32_MAX -> orderly d.
Proof. intros H Hf. apply history_sound in H as [_ _ H]; [|done]. exact H. Qed.

Lemma at_rest_state d now :
  orderly d -> all_members (at_rest (Doc.assignment_epoch d)) d ->
  group_state d now = GroupDoc.Empty \/ group_state d now = StableGroup.
Proof.
  intros [[_ _ _ [He _] _] _] Ha. unfold group_state.
  destruct (live_members d now) as [|x live] eqn:E; [by left|right]. rewrite He, Z.ltb_irrefl.
  destruct (existsb _ _) eqn:Ex; [|done]. apply existsb_exists in Ex as ([i m] & Hin & Hb).
  rewrite <- E in Hin. apply list_elem_of_In in Hin. unfold live_members in Hin.
  apply list_elem_of_filter in Hin as [_ Hin%elem_of_entries]. destruct (Ha i m Hin) as (H1 & H2 & _).
  cbn [snd] in Hb. rewrite H1, H2, He, Z.eqb_refl in Hb. by rewrite bool_decide_eq_false_2 in Hb.
Qed.

(** C9 A group left alone settles.  Take a document that a history leaves below the
    last epoch, of conversions from assignments that gave no partition twice and
    of counts that are not negative, in which every member has joined (is at
    epoch 1 or later).  Let each member heartbeat in three rounds and report
    what it owns, in any order and at any times within an interval in which no
    session and no revocation deadline runs out.  Then all are answered, and
    leave every member stable at the assignment epoch, with nothing to give up
    and exactly its target assigned; targets have not moved, and the group is
    reported stable. *)
Theorem group_settles compile config c first last session l d r1 r2 r3 :
  group_history compile l (Some d) -> all_writes (fun e => fair e /\ in_range e) l ->
  Doc.group_epoch d < i32_MAX -> timely config last session ->
  (forall i m, Doc.members d !! i = Some m -> awake first last session m) ->
  round_ok first last session d r1 -> round_ok first last session d r2 -> round_ok first last session d r3 ->
  exists d', beats compile config c d (r1 ++ r2 ++ r3) = Ok d' /\ same_targets d d' /\
    all_members (at_rest (Doc.assignment_epoch d')) d' /\
    forall now, group_state d' now = GroupDoc.Empty \/ group_state d' now = StableGroup.
Proof.
  intros Hh Hf Hmax Ht Ha H1 H2 H3. apply history_sound in Hh as [Hs _ Ho]; [|done].
  assert (Hc : calm first last session d) by (split; auto).
  destruct (three_rounds compile config c first last session Ht d r1 r2 r3) as (d' & E & C & S & A); try done.
  exists d'. split_and!; try done. intros now. apply at_rest_state; [apply C|done].
Qed.

(** The heartbeat of a member with nothing to say. *)
Definition keepalive (i : bytes) (m : ConsumerMember) : HeartbeatRequest :=
  Request.mk i (Member.member_epoch m) None None (-1) None None None None.

(** A heartbeat of a member at rest, in a group nobody has left, changes
    nothing: the document is not written, and the member is not sent an
    assignment it already has. *)
Theorem steady_heartbeat_is_quiet compile config c l now d i m :
  Doc.members d !! i = Some m -> at_rest (Doc.assignment_epoch d) m -> 1 <= Member.member_epoch m ->
  Member.session_timeout_ms m = config_session_timeout_ms config ->
  (client_host c = [] \/ client_host c = Member.client_host m) ->
  (forall j mj, Doc.members d !! j = Some mj -> dropped l now j mj = false) ->
  exists t, ConsumerGroup.apply compile (Some d) (keepalive i m) c None l config now [] = Ok t /\
    group t = d /\ changed t = false /\
    response t = Response.mk i (Member.member_epoch m) (heartbeat_interval_ms config) None.
Proof.
  intros Hm (Es & Ee & Ep & _) He Hses Hhost Hall.
  assert (Hsw : sweep d l now = (d, false)).
  { unfold sweep. rewrite map_filter_id by (intros; by apply Hall). rewrite Nat.eqb_refl. by destruct d. }
  assert (Hu : update_member compile m (keepalive i m) c config = Ok (m, false)).
  { unfold update_member. cbn. rewrite <- Hses. destruct m; cbn in *.
    case_bool_decide as Hb; [done|]. destruct Hhost as [?| ->]; done. }
  assert (Hr : reconcile d i (owned_from_request (keepalive i m)) now = d).
  { unfold reconcile. rewrite Hm. unfold moves. by rewrite Es, Ee, Z.eqb_refl. }
  assert (Hd : Doc.set_members (<[i := m]> (Doc.members d)) d = d).
  { unfold Doc.set_members. rewrite insert_id by done. by destruct d. }
  unfold ConsumerGroup.apply. rewrite Hsw. cbn [Request.member_epoch keepalive]. unfold LEAVING_STATIC_MEMBER_EPOCH.
  rewrite !(proj2 (Z.eqb_neq _ _)) by lia. cbn [orb].
  unfold validate_epoch. cbn [Request.member_id keepalive Request.member_epoch]. rewrite Hm, Z.ltb_irrefl. cbn [rbind].
  unfold apply_member. rewrite Hm, Hu. cbn [rbind orb]. rewrite Hd, Hr, Hm. eexists. split; [done|].
  rewrite bool_decide_eq_true_2 by done. cbn [negb group changed response].
  rewrite Z.eqb_refl. cbn. rewrite bool_decide_eq_true_2 by done. done.
Qed.

(** A request against a group is answered by its sixty-fifth attempt, and is
    told to try again later only when the document was rewritten between the
    read and the write of every one of them. *)
Theorem consumer_transition_answers compile
    (attempts : list (Attempt (D := ConsumerGroupDoc) (V := bytes) (E := Call))) :
  plain_faults attempts -> (MAX_GENERATION_CAS_ATTEMPTS < length attempts)%nat ->
  consumer_transition compile attempts <> Panic OutOfFuel /\
  (consumer_transition compile attempts = Err CoordinatorLoadInProgress ->
   Forall (fun a : Attempt => exists next ans, group_step compile (fst <$> at_read a) (seen a) = Ok (next, true, ans) /\
             at_write a <> at_read a)
     (take (S MAX_GENERATION_CAS_ATTEMPTS) attempts)).
Proof.
  intros Hf Hlen. destruct (transition_loop_answers (group_step compile) bumped 0 attempts) as [H1 H2];
    [apply group_step_plain|done|lia|lia|].
  split; [done|]. intros H%H2. eapply Forall_impl; [exact H|]. intros a (next & ans & Es & _ & Ha).
  exists next, ans. split; [done|]. intros E. rewrite E in Ha. unfold accepted in Ha.
  destruct (at_read a) as [[d v]|]; cbn in Ha; [by rewrite bool_decide_eq_true_2 in Ha|done].
Qed.

(** ** A concrete group

    Topic [t] has four partitions.  [a] joins and is given all of them; then [b]
    joins, and two of them become its target while [a] still owns them. *)

Definition no_regex (_ : bytes) : option (bytes -> bool) := None.
Definition sample_config : ConsumerGroupConfig := mkConfig 45000 5000 None.
Definition sample_client : Client := mkClient (ascii_bytes "c") [].
Definition sample_resolved : Resolved := {[ascii_bytes "t" := (7, 4)]}.
Definition unlisted : Liveness := mkLiveness ∅ false.

Definition joins (id : string) (now : Z) : Call :=
  mkCall (ConsumerHeartbeat (Request.mk (ascii_bytes id) 0 None None 60000 (Some [ascii_bytes "t"])
            None None (Some []))) sample_client (Some sample_resolved) unlisted sample_config now [].

Definition play (s : GroupLog * option ConsumerGroupDoc) (e : Call) : GroupLog * option ConsumerGroupDoc :=
  match group_step no_regex s.2 e with
  | Ok (d, true, ans) => (Wrote e ans :: s.1, Some (bumped d))
  | _ => s
  end.

Lemma play_history s e : group_history no_regex s.1 s.2 -> group_history no_regex (play s e).1 (play s e).2.
Proof.
  intros H. unfold play. destruct (group_step no_regex s.2 e) as [[[d [|]] ans]| |] eqn:E; try done.
  by eapply sequential_write.
Qed.

Lemma play_writes P s e : P e -> all_writes P s.1 -> all_writes P (play s e).1.
Proof.
  intros He H. unfold play. destruct (group_step no_regex s.2 e) as [[[d [|]] ans]| |]; try done.
  intros e' ans' [[= -> ->]|Hin]%elem_of_cons; [done|by eapply H].
Qed.

Lemma joins_fair id now : fair (joins id now) /\ in_range (joins id now).
Proof.
  split; [done|]. split; [|done]. intros name t count H.
  unfold joins, sample_resolved in H. cbn [resolved] in H.
  apply lookup_singleton_Some in H as [_ [= <- <-]]. lia.
Qed.

Definition sample_play : GroupLog * option ConsumerGroupDoc := play (play ([], None) (joins "a" 0)) (joins "b" 10).
Definition sample_doc : ConsumerGroupDoc := default Doc.default sample_play.2.

Lemma sample_doc_Some : sample_play.2 = Some sample_doc.
Proof. refine (bool_decide_unpack _ _). by vm_compute. Qed.

Lemma sample_history : group_history no_regex sample_play.1 (Some sample_doc).
Proof. rewrite <- sample_doc_Some. unfold sample_play. repeat apply play_history. constructor. Qed.

Lemma sample_writes : all_writes (fun e => fair e /\ in_range e) sample_play.1.
Proof. unfold sample_play. repeat (apply play_writes; [apply joins_fair|]). by intros e ans Hn%elem_of_nil. Qed.

Lemma sample_fair : all_writes fair sample_play.1.
Proof. intros e ans H. by eapply (sample_writes e ans). Qed.

Definition sample_member (id : string) : ConsumerMember :=
  default Member.default (Doc.members sample_doc !! ascii_bytes id).

Definition sample_replicas : Replicas :=
  let serve := serve (group_step no_regex) bumped in
  serve (serve replicas_none 0%nat (joins "a" 0) [x01]) 1%nat (joins "b" 10) [x02].

Lemma sample_replicas_reach : group_replicas no_regex sample_replicas.
Proof.
  unfold sample_replicas. repeat (notypeclasses refine (serve_reach _ _ _ _ _ _ _ _ _); [apply same_call_refl|]).
  apply replicas_start.
Qed.

Lemma sample_replicas_log : log sample_replicas = sample_play.1.
Proof. vm_compute. reflexivity. Qed.

Lemma replicas_linearize_witness :
  length (answered sample_replicas) = 2%nat /\
  group_history no_regex (log sample_replicas) (fst <$> key sample_replicas) /\
  Forall (served (group_step no_regex) bumped same_call (log sample_replicas)) (answered sample_replicas) /\
  NoDup (point <$> filter (fun a => wrote a = true) (answered sample_replicas)).
Proof. split; [by vm_compute|]. apply replicas_linearize, sample_replicas_reach. Defined.

Lemma partition_has_one_owner_witness :
  (7, 1) ∈ own (sample_member "a") /\
  forall j m, Doc.members sample_doc !! j = Some m -> (7, 1) ∈ own m -> ascii_bytes "a" = j.
Proof.
  assert (Ha : (7, 1) ∈ own (sample_member "a")) by (refine (bool_decide_unpack _ _); by vm_compute).
  split; [exact Ha|]. intros j m Hj Hx.
  assert (E1 : key sample_replicas = Some (sample_doc, [x02])) by (refine (bool_decide_unpack _ _); by vm_compute).
  assert (E2 : Doc.members sample_doc !! ascii_bytes "a" = Some (sample_member "a")) by (vm_compute; reflexivity).
  assert (Hf : all_writes fair (log sample_replicas)) by (rewrite sample_replicas_log; exact sample_fair).
  exact (partition_has_one_owner no_regex sample_replicas sample_doc [x02] (ascii_bytes "a") j
    (sample_member "a") m (7, 1) sample_replicas_reach Hf E1 E2 Hj Ha Hx).
Defined.

(** [a] reports that it owns partitions 2 and 3, and so has given up 0 and 1. *)
Definition gives_up : Call :=
  mkCall (ConsumerHeartbeat (Request.mk (ascii_bytes "a") 1 None None (-1) None None None
            (Some [(7, Some [2; 3])]))) sample_client None unlisted sample_config 30 [].

Definition given_up : ConsumerGroupDoc * bool * Answer :=
  match group_step no_regex (Some sample_doc) gives_up with
  | Ok r => r | _ => (Doc.default, false, ConvertedAnswer) end.

Lemma partition_moves_with_consent_witness :
  let m' := default Member.default (Doc.members given_up.1.1 !! ascii_bytes "a") in
  (addressee given_up.2 = Some (ascii_bytes "a") /\
   (dropped unlisted 30 (ascii_bytes "a") (sample_member "a") = true \/ disowns gives_up given_up.1.1 (7, 0))) \/
  converted_to gives_up sample_doc given_up.1.1 (ascii_bytes "a") m'.
Proof.
  intros m'.
  assert (E1 : group_step no_regex (Some sample_doc) gives_up = Ok (given_up.1.1, given_up.1.2, given_up.2)).
  { assert (Hok : is_ok (group_step no_regex (Some sample_doc) gives_up) = true) by (by vm_compute).
    unfold given_up. by destruct (group_step no_regex (Some sample_doc) gives_up) as [[[d ch] ans]| |]. }
  assert (E2 : Doc.members sample_doc !! ascii_bytes "a" = Some (sample_member "a")) by (vm_compute; reflexivity).
  assert (E3 : Doc.members given_up.1.1 !! ascii_bytes "a" = Some m') by (vm_compute; reflexivity).
  assert (H1 : (7, 0) ∈ own (sample_member "a")) by (refine (bool_decide_unpack _ _); by vm_compute).
  assert (H2 : (7, 0) ∉ own m') by (refine (bool_decide_unpack _ _); by vm_compute).
  exact (partition_moves_with_consent no_regex _ sample_doc gives_up _ _ _ _ _ m' (7, 0)
    sample_history sample_fair E1 E2 E3 H1 H2).
Defined.

Lemma group_in_order_witness : Doc.group_epoch sample_doc = 2 /\ orderly sample_doc.
Proof. split; [by vm_compute|]. apply (group_in_order no_regex sample_play.1); [exact sample_history|exact sample_writes|by vm_compute].
Defined.

(** One round of heartbeats, [a]'s first. *)
Definition sample_round (now : Z) : list Beat :=
  [mkBeat (ascii_bytes "a") now unlisted; mkBeat (ascii_bytes "b") (now + 1) unlisted].

Lemma sample_round_ok now : 20 <= now < 1000 -> round_ok 20 1000 45000 sample_doc (sample_round now).
Proof.
  intros Hn. split.
  - assert (Ha : ascii_bytes "a" ∈ dom (Doc.members sample_doc)) by (refine (bool_decide_unpack _ _); by vm_compute).
    assert (Hb : ascii_bytes "b" ∈ dom (Doc.members sample_doc)) by (refine (bool_decide_unpack _ _); by vm_compute).
    apply Forall_cons_2; [|apply Forall_cons_2; [|apply Forall_nil_2]].
    + split; [exact Ha|]. split; [cbn [at_ms]; clear Ha Hb; lia|intros H; discriminate H].
    + split; [exact Hb|]. split; [cbn [at_ms]; clear Ha Hb; lia|intros H; discriminate H].
  - intros i Hi. assert (Hall : set_Forall (fun i => i ∈ [ascii_bytes "a"; ascii_bytes "b"]) (dom (Doc.members sample_doc)))
      by (refine (bool_decide_unpack _ _); by vm_compute).
    by apply Hall.
Qed.

Definition awakeb (m : ConsumerMember) : bool :=
  (1 <=? Member.member_epoch m) && bool_decide (Member.state m <> UnrevokedPartitions)
  && (980 <=? Member.rebalance_timeout_ms m) && (45000 <=? Member.session_timeout_ms m).

Lemma sample_awake i m : Doc.members sample_doc !! i = Some m -> awake 20 1000 45000 m.
Proof.
  intros Hm. assert (Hall : map_Forall (fun _ m => awakeb m = true) (Doc.members sample_doc))
    by (refine (bool_decide_unpack _ _); by vm_compute).
  apply Hall in Hm. unfold awakeb in Hm. apply andb_true_iff in Hm as [[[H1 H2]%andb_true_iff H3]%andb_true_iff H4].
  apply bool_decide_eq_true in H2. split; [lia|done|lia|lia].
Qed.

Lemma group_settles_witness :
  exists d', beats no_regex sample_config sample_client sample_doc
      (sample_round 20 ++ sample_round 40 ++ sample_round 60) = Ok d' /\
    same_targets sample_doc d' /\ all_members (at_rest (Doc.assignment_epoch d')) d' /\
    forall now, group_state d' now = GroupDoc.Empty \/ group_state d' now = StableGroup.
Proof.
  apply (group_settles no_regex sample_config sample_client 20 1000 45000 sample_play.1);
    [exact sample_history|exact sample_writes|by vm_compute|split; by vm_compute|apply sample_awake|apply sample_round_ok; lia..].
Defined.

(** The group at rest. *)
Definition rested : ConsumerGroupDoc :=
  match beats no_regex sample_config sample_client sample_doc
          (sample_round 20 ++ sample_round 40 ++ sample_round 60) with
  | Ok d => d | _ => Doc.default end.

Definition rested_member : ConsumerMember :=
  default Member.default (Doc.members rested !! ascii_bytes "b").

Lemma steady_heartbeat_is_quiet_witness :
  Member.member_epoch rested_member = 2 /\
  exists t, ConsumerGroup.apply no_regex (Some rested) (keepalive (ascii_bytes "b") rested_member)
      sample_client None unlisted sample_config 70 [] = Ok t /\
    group t = rested /\ changed t = false /\
    response t = Response.mk (ascii_bytes "b") (Member.member_epoch rested_member) 5000 None.
Proof.
  assert (E1 : Doc.members rested !! ascii_bytes "b" = Some rested_member) by (vm_compute; reflexivity).
  assert (E2 : at_rest (Doc.assignment_epoch rested) rested_member).
  { split; [by vm_compute|]. split; [by vm_compute|]. split; [by vm_compute|].
    refine (bool_decide_unpack _ _); by vm_compute. }
  assert (E3 : 1 <= Member.member_epoch rested_member) by (by vm_compute).
  assert (E4 : Member.session_timeout_ms rested_member = config_session_timeout_ms sample_config) by (vm_compute; reflexivity).
  assert (Hall : map_Forall (fun j m => dropped unlisted 70 j m = false) (Doc.members rested))
    by (refine (bool_decide_unpack _ _); by vm_compute).
  split; [by vm_compute|].
  exact (steady_heartbeat_is_quiet no_regex sample_config sample_client unlisted 70 rested (ascii_bytes "b")
    rested_member E1 E2 E3 E4 (or_introl eq_refl) Hall).
Defined.

(** A request that loses its race sixty-five times. *)
Definition losing : Attempt (D := ConsumerGroupDoc) (V := bytes) (E := Call) :=
  mkAttempt (joins "b" 10) None (Some (sample_doc, [x01])) (Some (sample_doc, [x01])) [x02] None.

Lemma consumer_transition_answers_witness :
  consumer_transition no_regex (repeat losing 65) = Err CoordinatorLoadInProgress /\
  Forall (fun a : Attempt => exists next ans,
      group_step no_regex (fst <$> at_read a) (seen a) = Ok (next, true, ans) /\ at_write a <> at_read a)
    (take 65 (repeat losing 65)).
Proof.
  assert (E : consumer_transition no_regex (repeat losing 65) = Err CoordinatorLoadInProgress) by (vm_compute; reflexivity).
  split; [exact E|]. refine (proj2 (consumer_transition_answers no_regex (repeat losing 65) _ _) E).
  - apply Forall_forall. intros a Ha. apply list_elem_of_In, repeat_spec in Ha as ->. done.
  - rewrite repeat_length. unfold MAX_GENERATION_CAS_ATTEMPTS. lia.
Defined.
