(* ===== verification/Generations.v ===== *)
(** * Generations: what the classic group coordinator keeps

    The computations of [ClassicGroup] as requests on the generation document,
    made by any number of replicas under its version ([Cas]), together with
    the create-only assignment of each generation
    ([tansu-broker/src/coordinator/group/administrator.rs]).  A generation
    names one set of members and at most one leader, the leader is one of
    them, and the answers [SyncGroup] gives at a generation agree. *)

From S2P Require Export Cas ClassicGroup.

(** ** The requests that write a generation *)

Inductive GenerationCall :=
  | Claims (now_ms : Z)
  | Evicts (docs : gmap bytes MemberDoc) (now_ms : Z)
  | Joins (r : JoinReq) (s : Seen) (consumer_checked live_consumer : bool)
  | Leaves (departing : list (bytes * option bytes)) (consumer_members : option (gmap bytes (option bytes)))
      (now_ms : Z)
  | Converts (live_consumer : bool) (docs : gmap bytes MemberDoc) (disabled : bool) (max_size : option nat)
      (convertible : bool) (now_ms : Z).

(** What each of them writes over the group it read, if it writes at all: the claim
    of a sweep, *)
Definition claim_write (v : GroupView unit) (now_ms : Z) : option GenerationDoc :=
  if sweep_due v now_ms then Some (sweep_claim (View.generation v) now_ms) else None.

(** the eviction of the members it found expired, *)
Definition evict_write (g : GenerationDoc) (docs : gmap bytes MemberDoc) (now_ms : Z) : option GenerationDoc :=
  let expired := expired_members g docs now_ms in
  if Generation.is_converted g || bool_decide (expired = ∅) then None
  else Some (sweep_evict g expired now_ms).

(** a join, once it is known that the classic group serves it, *)
Definition join_write (v : GroupView unit) (r : JoinReq) (s : Seen) : option GenerationDoc :=
  match join_plan v r s with
  | PlanWrite _ _ next true => Some next
  | _ => None
  end.

Definition join_routed (v : GroupView unit) (r : JoinReq) (s : Seen) (consumer_checked live_consumer : bool)
    : option GenerationDoc :=
  match join_route v consumer_checked live_consumer with
  | Classic => join_write v r s
  | Consumer => None
  | Reread => Some (take_back (View.generation v) (Seen.now_ms s))
  end.

(** and a leave. *)
Definition leave_write (v : GroupView unit) (departing : list (bytes * option bytes))
    (consumer_members : option (gmap bytes (option bytes))) (now_ms : Z) : option GenerationDoc :=
  match classic_route v departing false false consumer_members with
  | Classic => (leave_plan (View.generation v) departing now_ms).1
  | _ => None
  end.

Definition generation_next (v : GroupView unit) (c : GenerationCall) : option GenerationDoc :=
  match c with
  | Claims now_ms => claim_write v now_ms
  | Evicts docs now_ms => evict_write (View.generation v) docs now_ms
  | Joins r s consumer_checked live_consumer => join_routed v r s consumer_checked live_consumer
  | Leaves departing consumer_members now_ms => leave_write v departing consumer_members now_ms
  | Converts live_consumer docs disabled max_size convertible now_ms =>
      convert_plan v live_consumer docs disabled max_size convertible now_ms
  end.

Definition generation_view (held : option GenerationDoc) : GroupView unit :=
  read_view ((fun g => (g, tt)) <$> held) (fun _ => None).

Definition generation_step (held : option GenerationDoc) (c : GenerationCall)
    : result (GenerationDoc * bool * unit) :=
  let v := generation_view held in
  match generation_next v c with
  | Some next => Ok (next, true, tt)
  | None => Ok (View.generation v, false, tt)
  end.

Abbreviation GenerationReplicas :=
  (Replicas (D := GenerationDoc) (V := bytes) (E := GenerationCall) (R := unit)).

Definition generations : GenerationReplicas -> Prop :=
  replicas_reach generation_step generation_bumped (fun _ _ => True).

(** ** One generation, one membership *)

(** The leader of a generation is one of its members, and its id is one a client can hold. *)
Definition well_led (g : GenerationDoc) : Prop :=
  0 <= Generation.generation_id g <= i32_MAX /\
  forall l, Generation.leader g = Some l -> is_Some (Generation.members g !! l).

(** What a later document of a group may differ in. *)
Definition follows_on (g g' : GenerationDoc) : Prop :=
  Generation.generation_id g <= Generation.generation_id g' /\
  (Generation.generation_id g = Generation.generation_id g' -> Generation.generation_id g < i32_MAX ->
   Generation.members g = Generation.members g' /\
   forall l, Generation.leader g = Some l -> Generation.leader g' = Some l).

Lemma follows_on_refl g : follows_on g g.
Proof. done. Qed.

Lemma follows_on_trans a b c : follows_on a b -> follows_on b c -> follows_on a c.
Proof.
  intros [H1 H2] [H3 H4]. split; [lia|]. intros He Hm.
  destruct H2 as [-> Hl]; [lia|lia|]. destruct H4 as [-> Hl']; [lia|lia|]. naive_solver.
Qed.

Lemma sat_next z : 0 <= z <= i32_MAX -> 0 <= sat_i32 (z + 1) <= i32_MAX /\ z <= sat_i32 (z + 1) /\
  (z < i32_MAX -> z < sat_i32 (z + 1)).
Proof. unfold sat_i32, i32_MAX. lia. Qed.

(** A generation that has moved on follows on, whatever else changed. *)
Lemma follows_on_rebalanced g g' now_ms :
  well_led g -> Generation.generation_id g' = Generation.generation_id (rebalanced g now_ms) -> follows_on g g'.
Proof.
  intros [Hr _] E. cbn in E. apply sat_next in Hr. split; [lia|]. intros He Hm. lia.
Qed.

Lemma heal_leader_well_led g : well_led g -> heal_leader g = g.
Proof.
  intros [_ H]. unfold heal_leader. destruct (Generation.leader g) as [l|] eqn:E; [|done].
  by rewrite bool_decide_eq_true_2 by auto.
Qed.

(** Healing keeps everything but a leader that is gone. *)
Lemma heal_leader_leads g l :
  Generation.leader (heal_leader g) = Some l -> is_Some (Generation.members (heal_leader g) !! l).
Proof.
  unfold heal_leader. destruct (Generation.leader g) as [l'|] eqn:E; [|by rewrite E].
  case_bool_decide as Hl; [by intros [= <-]%(eq_trans (eq_sym E))|done].
Qed.
Lemma heal_leader_id g : Generation.generation_id (heal_leader g) = Generation.generation_id g.
Proof. unfold heal_leader. destruct (Generation.leader g); [by case_bool_decide|done]. Qed.
Lemma heal_leader_members g : Generation.members (heal_leader g) = Generation.members g.
Proof. unfold heal_leader. destruct (Generation.leader g); [by case_bool_decide|done]. Qed.

Lemma settle_protocol_keeps g r name now_ms :
  let next := (settle_protocol true g r name now_ms).1 in
  Generation.generation_id next = Generation.generation_id g /\
  Generation.members next = Generation.members g /\ Generation.leader next = Generation.leader g.
Proof. unfold settle_protocol. by destruct (Generation.protocol_name g). Qed.

Lemma settle_protocol_new g r name now_ms :
  let next := (settle_protocol false g r name now_ms).1 in
  Generation.generation_id next = -1 /\
  Generation.members next = Generation.members g /\ Generation.leader next = Generation.leader g.
Proof. unfold settle_protocol. by destruct (Generation.protocol_name g). Qed.

(** The group a join starts from: one that is well led, or none. *)
Definition joinable (exists_ : bool) (g : GenerationDoc) : Prop :=
  if exists_ then well_led g else g = generation_default.

(** The generation a join of a stranger mints. *)
Definition minted_generation (exists_ : bool) (g : GenerationDoc) : Z :=
  if exists_ then sat_i32 (Generation.generation_id g + 1) else 0.

Lemma settle_protocol_base exists_ g r name now_ms :
  joinable exists_ g ->
  let next := (settle_protocol exists_ g r name now_ms).1 in
  sat_i32 (Generation.generation_id next + 1) = minted_generation exists_ g /\
  (exists_ = true -> Generation.generation_id next = Generation.generation_id g) /\
  Generation.members next = Generation.members g /\ Generation.leader next = Generation.leader g.
Proof.
  intros H. destruct exists_; cbn.
  - by destruct (settle_protocol_keeps g r name now_ms) as (-> & -> & ->).
  - by destruct (settle_protocol_new g r name now_ms) as (-> & -> & ->).
Qed.

Lemma minted_range exists_ g : joinable exists_ g -> 0 <= minted_generation exists_ g <= i32_MAX.
Proof. destruct exists_; cbn; [|done]. intros [H _]. by apply sat_next. Qed.

Lemma membership_changed_new g id metadata held :
  Generation.members g !! id = None -> membership_changed g id metadata held = true.
Proof. intros H. unfold membership_changed. by rewrite H. Qed.

(** A join of a member leaves it, or somebody, in the lead. *)
Lemma join_next_sound exists_ g r protocol id held now_ms next write :
  joinable exists_ g -> join_next exists_ g r protocol id held now_ms = (next, write) ->
  well_led next /\ (exists_ = true -> follows_on g next) /\
  (Generation.members g !! id = None -> Generation.generation_id next = minted_generation exists_ g).
Proof.
  intros Hj. unfold join_next.
  destruct (settle_protocol exists_ g r protocol.1 now_ms) as [base w] eqn:Eb.
  pose proof (settle_protocol_base exists_ g r protocol.1 now_ms Hj) as Hb. rewrite Eb in Hb. cbn [fst] in Hb.
  destruct Hb as (B1 & B2 & B3 & B4). pose proof (minted_range _ _ Hj) as Hm.
  destruct (membership_changed g id protocol.2 held) eqn:Ec.
  - set (mid := rebalanced _ now_ms).
    assert (Hi : forall l, Generation.generation_id (set_state_since_ms now_ms (set_leader l (heal_leader mid)))
                 = minted_generation exists_ g) by (intros l; cbn; rewrite heal_leader_id; exact B1).
    assert (Hf : forall x, Generation.generation_id x = minted_generation exists_ g ->
                 exists_ = true -> follows_on g x).
    { intros x Ex ->. by apply (follows_on_rebalanced g x now_ms Hj). }
    destruct (Generation.leader (heal_leader mid)) as [l|] eqn:El; intros [= <- <-].
    + specialize (Hi None). cbn in Hi. split; [split; [lia|]|split; [by apply Hf|done]].
      intros l' Hl. by apply heal_leader_leads.
    + specialize (Hi (Some id)). split; [split; [lia|]|split; [by apply Hf|done]].
      intros l' [= <-]. cbn. rewrite heal_leader_members. cbn. by rewrite lookup_insert_eq.
  - assert (Hin : is_Some (Generation.members g !! id)).
    { destruct (Generation.members g !! id) eqn:E; [done|]. by rewrite membership_changed_new in Ec. }
    destruct exists_; cbn in Hj; [|subst g; by apply is_Some_None in Hin].
    pose proof Hj as [Hr Hl]. specialize (B2 eq_refl).
    assert (Hbase : well_led base) by (split; [by rewrite B2|by rewrite B3, B4]).
    rewrite (heal_leader_well_led base) by done.
    destruct (Generation.leader base) as [l|] eqn:El; intros [= <- <-].
    + split_and!; [done| |intros E; rewrite E in Hin; by apply is_Some_None in Hin].
      intros _. split; [lia|]. intros _ _. split; [done|]. intros l'. congruence.
    + split_and!; [| |intros E; rewrite E in Hin; by apply is_Some_None in Hin].
      * split; [cbn; lia|]. intros l' [= <-]. cbn. by rewrite B3.
      * intros _. split; [cbn; lia|]. intros _ _. split; [done|]. intros l'. congruence.
Qed.

Lemma well_led_more ms g :
  well_led g -> (forall l, is_Some (Generation.members g !! l) -> is_Some (ms !! l)) -> well_led (set_members ms g).
Proof. intros [H1 H2] H. split; [done|]. cbn. auto. Qed.

Lemma join_plan_sound (v : GroupView unit) r s id member next :
  joinable (view_exists v) (View.generation v) -> join_plan v r s = PlanWrite id member next true ->
  well_led next /\ (view_exists v = true -> follows_on (View.generation v) next).
Proof.
  intros Hj. unfold join_plan.
  destruct (join_protocol (View.generation v) (JoinReq.protocols r)) as [|protocol]; [done|].
  destruct (bool_decide (JoinReq.member_id r = []) && _); [done|].
  set (mid := join_member_id _ _ _).
  destruct (join_next _ _ _ _ _ _ _) as [n w] eqn:En.
  destruct (join_next_sound _ _ _ _ _ _ _ _ _ Hj En) as (W & F & G).
  destruct (w && _) eqn:Eb; [|intros [= <- <- <- ->]; auto].
  apply andb_prop in Eb as [-> Hnew%bool_decide_eq_true]. specialize (G Hnew).
  destruct (admission _ _ _); [destruct (Seen.stopping s)|]; intros H; simplify_eq; [auto|].
  split.
  - apply well_led_more; [done|]. intros l [x Hx]. apply lookup_union_is_Some. right. by exists x.
  - intros E. rewrite E in Hj, G. by apply (follows_on_rebalanced _ _ (Seen.now_ms s)).
Qed.

(** A join keeps the mark of a conversion. *)
Lemma join_next_since exists_ g r protocol id held now_ms :
  Generation.consumer_since_ms (join_next exists_ g r protocol id held now_ms).1 = Generation.consumer_since_ms g.
Proof.
  unfold join_next, settle_protocol, heal_leader.
  by destruct (Generation.protocol_name g), exists_, (membership_changed g id protocol.2 held); cbn;
    repeat (case_match; cbn).
Qed.

Lemma join_plan_mints (v : GroupView unit) r s id member next :
  joinable (view_exists v) (View.generation v) -> join_plan v r s = PlanWrite id member next true ->
  Generation.members (View.generation v) !! id = None ->
  Generation.consumer_since_ms next = Generation.consumer_since_ms (View.generation v) /\
  Generation.generation_id next = minted_generation (view_exists v) (View.generation v).
Proof.
  intros Hj. unfold join_plan.
  destruct (join_protocol (View.generation v) (JoinReq.protocols r)) as [|protocol]; [done|].
  destruct (bool_decide (JoinReq.member_id r = []) && _); [done|].
  set (mid := join_member_id _ _ _).
  destruct (join_next _ _ _ _ _ _ _) as [n w] eqn:En.
  pose proof (join_next_since (view_exists v) (View.generation v) r protocol mid (Seen.held s) (Seen.now_ms s)) as Hs.
  rewrite En in Hs. destruct (join_next_sound _ _ _ _ _ _ _ _ _ Hj En) as (_ & _ & G).
  destruct (w && _); [|intros [= <- <- <- ->]; auto].
  destruct (admission _ _ _); [destruct (Seen.stopping s)|]; intros H; simplify_eq; auto.
Qed.

Lemma join_route_checked (v : GroupView unit) live : join_route v true live = Classic.
Proof. done. Qed.

Lemma leave_plan_sound g departing now_ms next :
  well_led g -> (leave_plan g departing now_ms).1 = Some next -> well_led next /\ follows_on g next.
Proof.
  intros Hg. unfold leave_plan. destruct (leave_all _ _) as [[ms out] codes].
  destruct out as [|id out]; [done|]. intros [= <-].
  assert (E : Generation.generation_id (heal_leader (rebalanced (set_members ms g) now_ms))
              = sat_i32 (Generation.generation_id g + 1)) by by rewrite heal_leader_id.
  destruct Hg as [Hr Hl] eqn:Eg. split.
  - split; [rewrite E; by apply sat_next|]. apply heal_leader_leads.
  - by apply (follows_on_rebalanced g _ now_ms).
Qed.

Lemma sweep_evict_sound g expired now_ms :
  well_led g -> well_led (sweep_evict g expired now_ms) /\ follows_on g (sweep_evict g expired now_ms).
Proof.
  intros Hg. split; [|by apply (follows_on_rebalanced g _ now_ms)].
  destruct Hg as [Hr _]. split; [by apply sat_next|done].
Qed.

Lemma take_back_sound g now_ms : well_led g -> well_led (take_back g now_ms) /\ follows_on g (take_back g now_ms).
Proof.
  intros Hg. split; [|by apply (follows_on_rebalanced g _ now_ms)].
  destruct Hg as [Hr _]. split; [by apply sat_next|done].
Qed.

Lemma expired_none docs now_ms : expired_members generation_default docs now_ms = ∅.
Proof. done. Qed.

Lemma leave_all_none departing : (leave_all ∅ departing).1 = (∅, []).
Proof.
  induction departing as [|[id instance] departing IH]; [done|]. cbn.
  assert (E : leaver ∅ (id, instance) = None) by (unfold leaver; cbn; by destruct instance).
  rewrite E. by destruct (leave_all ∅ departing) as [[ms out] codes]; cbn in *; simplify_eq.
Qed.

(** Every write is well led and follows on from what was read. *)
Lemma generation_next_sound held c next :
  (forall g, held = Some g -> well_led g) -> generation_next (generation_view held) c = Some next ->
  well_led next /\ forall g, held = Some g -> follows_on g next.
Proof.
  intros Hw. destruct held as [g|].
  - specialize (Hw g eq_refl). intros H. assert (well_led next /\ follows_on g next); [|naive_solver]. revert H.
    destruct c as [now_ms|docs now_ms|r s checked live|departing ms now_ms|live docs dis mx conv now_ms];
      cbn [generation_next generation_view read_view fmap option_fmap option_map View.generation];
      unfold claim_write, evict_write, join_routed, join_write, leave_write; cbn [View.generation].
    + destruct (sweep_due _ _); intros [= <-]. done.
    + destruct (_ || _); intros [= <-]. by apply sweep_evict_sound.
    + destruct (join_route _ _ _); [|done|intros [= <-]; by apply take_back_sound].
      destruct (join_plan _ _ _) as [| |id m n [|]] eqn:Ep; [done|done| |done]. intros [= <-].
      apply join_plan_sound in Ep; [|done]. naive_solver.
    + destruct (classic_route _ _ _ _ _); [|done..]. by apply leave_plan_sound.
    + unfold convert_plan. destruct (_ || _ || _ || _ || _); intros [= <-]. done.
  - intros H. split; [|done]. revert H.
    destruct c as [now_ms|docs now_ms|r s checked live|departing ms now_ms|live docs dis mx conv now_ms];
      cbn [generation_next generation_view read_view fmap option_fmap option_map View.generation];
      unfold claim_write, evict_write, join_routed, join_write, leave_write; cbn [View.generation].
    + done.
    + done.
    + assert (Er : join_route (generation_view None) checked live <> Reread).
      { unfold join_route, classic_route. cbn. by destruct checked, live. }
      destruct (join_route _ _ _); [|done|done].
      destruct (join_plan _ _ _) as [| |id m n [|]] eqn:Ep; [done|done| |done]. intros [= <-].
      by apply join_plan_sound in Ep as [? _].
    + destruct (classic_route _ _ _ _ _); [|done..]. unfold leave_plan.
      pose proof (leave_all_none departing) as E. cbn [Generation.members generation_default].
      by destruct (leave_all ∅ departing) as [[x y] z]; cbn in E; simplify_eq.
    + unfold convert_plan. cbn. by destruct live.
Qed.

Lemma lifetime_next l c next response :
  lifetime generation_step generation_bumped l -> Forall well_led l ->
  generation_step (head l) c = Ok (next, true, response) ->
  well_led (generation_bumped next) /\ forall g, head l = Some g -> follows_on g (generation_bumped next).
Proof.
  intros _ Hw. unfold generation_step.
  destruct (generation_next _ _) as [n|] eqn:En; intros [= <- <-].
  apply generation_next_sound in En as [W F]; [split; [exact W|exact F]|].
  intros g Hg. rewrite Forall_forall in Hw. apply Hw. destruct l; simplify_eq/=. by left.
Qed.

(** Every document of a group is well led, and follows on from all before it. *)
Lemma lifetime_sound l :
  lifetime generation_step generation_bumped l ->
  Forall well_led l /\ StronglySorted (fun newer older => follows_on older newer) l.
Proof.
  induction 1 as [|l c next response Hl [W S] Hs]; [by repeat constructor|].
  destruct (lifetime_next _ _ _ _ Hl W Hs) as [W' F]. split; [by constructor|].
  constructor; [done|]. destruct S as [|g l S Hg]; constructor; [by apply F|].
  eapply Forall_impl; [exact Hg|]. intros g' Hg'. eapply follows_on_trans; [exact Hg'|by apply F].
Qed.

Lemma life_follows (l : list GenerationDoc) i j g g' :
  StronglySorted (fun newer older => follows_on older newer) l ->
  l !! i = Some g' -> l !! j = Some g -> (i <= j)%nat -> follows_on g g'.
Proof.
  intros S. revert i j. induction S as [|x l S IH Hx]; intros i j Hi Hj Hij; [done|].
  destruct i as [|i], j as [|j]; cbn in *; simplify_eq; [done| |lia|apply (IH i j); [done|done|lia]].
  rewrite Forall_forall in Hx. apply Hx. by eapply list_elem_of_lookup_2.
Qed.

Lemma follows_on_same g g' :
  follows_on g g' \/ follows_on g' g -> Generation.generation_id g = Generation.generation_id g' ->
  Generation.generation_id g < i32_MAX ->
  Generation.members g = Generation.members g' /\
  forall l l', Generation.leader g = Some l -> Generation.leader g' = Some l' -> l = l'.
Proof.
  intros [[_ H]|[_ H]] E Hm.
  - destruct (H E Hm) as [-> Hl]. split; [done|]. intros l l' H1%Hl H2. congruence.
  - destruct (H (eq_sym E)) as [-> Hl]; [lia|]. split; [done|]. intros l l' H1 H2%Hl. congruence.
Qed.

Lemma life_one_leader (l : list GenerationDoc) g g' :
  lifetime generation_step generation_bumped l -> g ∈ l -> g' ∈ l ->
  Generation.generation_id g = Generation.generation_id g' -> Generation.generation_id g < i32_MAX ->
  Generation.members g = Generation.members g' /\
  forall a b, Generation.leader g = Some a -> Generation.leader g' = Some b -> a = b.
Proof.
  intros [_ S]%lifetime_sound [i Hi]%list_elem_of_lookup [j Hj]%list_elem_of_lookup. apply follows_on_same.
  destruct (decide (i <= j)%nat) as [Hij|Hij].
  - right. exact (life_follows l i j g' g S Hi Hj Hij).
  - left. apply (life_follows l j i g g' S Hj Hi). lia.
Qed.

(** ** The assignments of a group's generations *)

(** A successful answer of [SyncGroup]: at which generation, to whom, with what,
    and the generation the group was at by then. *)
Record Synced := mkSynced {
  at_generation : Z;
  to_member : bytes;
  with_assignment : bytes;
  by_then : Z;
}.

(** The generation document and the assignment of each generation; [stored] and
    [synced] record every assignment created and every answer given. *)
Record Coordinator := mkCoordinator {
  document : GenerationReplicas;
  assigned : gmap Z AssignmentDoc;
  stored : list (Z * AssignmentDoc);
  synced : list Synced;
}.

Definition current (s : Coordinator) : Z := from_option Generation.generation_id (-1) (head (life (document s))).

(** The group a replica read at some time: a document of its life, and the
    assignment it found then or later.  A group that is deleted starts over, and
    is left out of the steps below. *)
Definition view_of (g : GenerationDoc) (a : option AssignmentDoc) : GroupView unit :=
  read_view (Some (g, tt)) (fun _ => a).

Inductive coordinator_step : Coordinator -> Coordinator -> Prop :=
  | document_moves s d :
      replicas_step generation_step generation_bumped (fun _ _ => True) (document s) d ->
      (life (document s) <> [] -> life d <> []) ->
      coordinator_step s (mkCoordinator d (assigned s) (stored s) (synced s))
  | leader_creates s g generation_id member_id requested now_ms a :
      g ∈ life (document s) ->
      sync_plan (view_of g None) generation_id member_id requested now_ms = SyncAssign a ->
      assigned s !! Generation.generation_id g = None ->
      coordinator_step s (mkCoordinator (document s) (<[Generation.generation_id g := a]> (assigned s))
        ((Generation.generation_id g, a) :: stored s) (synced s))
  | leader_answers s g member_id a after v b :
      g ∈ life (document s) -> (Generation.generation_id g, a) ∈ stored s ->
      key (document s) = Some (after, v) ->
      sync_assigned (view_of g None) (view_of after None) member_id a = mkSyncBody NO_ERROR b ->
      coordinator_step s (mkCoordinator (document s) (assigned s) (stored s)
        (mkSynced (Generation.generation_id g) member_id b (current s) :: synced s))
  | member_answers s g generation_id member_id requested now_ms b :
      g ∈ life (document s) ->
      sync_plan (view_of g (assigned s !! Generation.generation_id g)) generation_id member_id requested now_ms
        = SyncAnswer (mkSyncBody NO_ERROR b) ->
      coordinator_step s (mkCoordinator (document s) (assigned s) (stored s)
        (mkSynced (Generation.generation_id g) member_id b (current s) :: synced s))
  | assignments_pruned s g :
      g ∈ life (document s) ->
      coordinator_step s (mkCoordinator (document s)
        (filter (fun x => sat_i32 (Generation.generation_id g - 1) <= x.1) (assigned s)) (stored s) (synced s)).

Inductive coordinator : Coordinator -> Prop :=
  | coordinator_start : coordinator (mkCoordinator (replicas_none) ∅ [] [])
  | coordinator_next s s' : coordinator s -> coordinator_step s s' -> coordinator s'.

Lemma replicas_step_life (s d : GenerationReplicas) :
  replicas_step generation_step generation_bumped (fun _ _ => True) s d ->
  (life s <> [] -> life d <> []) -> life d = life s \/ exists g, life d = g :: life s.
Proof.
  intros Hs Hk. destruct Hs; [by left|by left|right; by eexists| |by left|by left|by left|].
  - left. by destruct (_ <=? _)%nat.
  - cbn in *. destruct (life s); [by left|]. by destruct Hk.
Qed.

Lemma life_current (l : list GenerationDoc) g :
  lifetime generation_step generation_bumped l -> g ∈ l ->
  0 <= Generation.generation_id g <= i32_MAX /\
  Generation.generation_id g <= from_option Generation.generation_id (-1) (head l).
Proof.
  intros [W S]%lifetime_sound Hg. rewrite Forall_forall in W. split; [by apply W|].
  apply list_elem_of_lookup in Hg as [i Hi]. destruct l as [|h l]; [done|].
  destruct (life_follows (h :: l) 0 i g h S eq_refl Hi) as [H _]; [lia|done].
Qed.

Lemma life_grows (g : GenerationDoc) l :
  lifetime generation_step generation_bumped (g :: l) ->
  from_option Generation.generation_id (-1) (head l) <= Generation.generation_id g.
Proof.
  intros H. destruct l as [|h l]; cbn.
  - assert (Hg : g ∈ [g]) by by left. apply (life_current _ _ H) in Hg as [? _]. lia.
  - assert (Hh : h ∈ g :: h :: l) by (right; by left). by apply (life_current _ _ H) in Hh as [_ ?].
Qed.

(** What the leader creates is its own, at the generation it read. *)
Lemma sync_plan_assigns g generation_id member_id requested now_ms a :
  sync_plan (view_of g None) generation_id member_id requested now_ms = SyncAssign a ->
  AssignmentDoc.generation_id a = Generation.generation_id g /\ Generation.leader g = Some (AssignmentDoc.leader a).
Proof.
  unfold sync_plan. destruct (_ || _); [done|]. destruct (_ <? _); [done|]. destruct (_ <? _); [done|].
  destruct (assignments _); [by destruct (_ !! _)|].
  destruct (negb _) eqn:El; [done|]. apply negb_false_iff, bool_decide_eq_true in El.
  case_bool_decide; [done|]. by intros [= <-].
Qed.

(** A member is answered from the assignment of the generation it asks for. *)
Lemma sync_plan_answers g found generation_id member_id requested now_ms b :
  sync_plan (view_of g found) generation_id member_id requested now_ms = SyncAnswer (mkSyncBody NO_ERROR b) ->
  exists a, found = Some a /\ AssignmentDoc.assignments a !! member_id = Some b.
Proof.
  unfold sync_plan. destruct (_ || _); [done|]. destruct (_ <? _); [done|]. destruct (_ <? _); [done|].
  destruct (assignments (view_of g found)) as [ms|] eqn:Ea.
  - destruct (ms !! member_id) eqn:Em; [|done]. intros [= <-]. revert Ea.
    unfold assignments, view_of, read_view. cbn [View.assignment].
    destruct (_ && _); [|done]. destruct found as [a|]; [|done]. destruct (_ =? _); [|done].
    intros [= <-]. by exists a.
  - destruct (negb _); [done|]. by case_bool_decide.
Qed.

(** What the answers given so far were taken from. *)
Definition taken_from (s : Coordinator) (x : Synced) : Prop :=
  exists a, assigned s !! at_generation x = Some a /\
    with_assignment x = default [] (AssignmentDoc.assignments a !! to_member x).

Record coordinator_ok (s : Coordinator) : Prop := mkCoordinatorOk {
  ok_document : replicas_ok generation_step generation_bumped (fun _ _ => True) (document s);
  ok_stored k a : (k, a) ∈ stored s ->
    exists g, g ∈ life (document s) /\ Generation.generation_id g = k /\
      AssignmentDoc.generation_id a = k /\ Generation.leader g = Some (AssignmentDoc.leader a);
  ok_assigned k a : assigned s !! k = Some a -> (k, a) ∈ stored s;
  ok_kept k a : (k, a) ∈ stored s -> current s - 1 <= k -> assigned s !! k = Some a;
  ok_synced x : x ∈ synced s -> by_then x <= at_generation x + 1 -> current s - 1 <= at_generation x ->
    taken_from s x;
  ok_source x : x ∈ synced s -> exists a, (at_generation x, a) ∈ stored s /\
    with_assignment x = default [] (AssignmentDoc.assignments a !! to_member x);
  ok_agree x y : x ∈ synced s -> y ∈ synced s ->
    at_generation x = at_generation y -> to_member x = to_member y ->
    by_then x <= at_generation x + 1 -> by_then y <= at_generation y + 1 ->
    with_assignment x = with_assignment y;
}.

Lemma document_moves_ok s d :
  coordinator_ok s -> replicas_step generation_step generation_bumped (fun _ _ => True) (document s) d ->
  (life (document s) <> [] -> life d <> []) ->
  coordinator_ok (mkCoordinator d (assigned s) (stored s) (synced s)).
Proof.
  intros [D S A K Y O G] Hs Hk. pose proof (replicas_step_ok _ _ _ _ _ D Hs) as D'.
  assert (Hc : current s <= current (mkCoordinator d (assigned s) (stored s) (synced s))).
  { unfold current. cbn. destruct (replicas_step_life _ _ Hs Hk) as [->|[g E]]; [done|]. rewrite E. cbn.
    apply life_grows. rewrite <- E. apply D'. }
  split; cbn; try done.
  - intros k a Ha. destruct (S _ _ Ha) as (g & Hg & H). exists g. split; [|done].
    destruct (replicas_step_life _ _ Hs Hk) as [->|[g' ->]]; [done|]. by right.
  - intros k a Ha Hle. apply K; [done|lia].
  - intros x Hx Hb Hle. apply Y; [done|done|lia].
Qed.

Lemma leader_creates_ok s g a :
  coordinator_ok s -> g ∈ life (document s) -> AssignmentDoc.generation_id a = Generation.generation_id g ->
  Generation.leader g = Some (AssignmentDoc.leader a) -> assigned s !! Generation.generation_id g = None ->
  coordinator_ok (mkCoordinator (document s) (<[Generation.generation_id g := a]> (assigned s))
    ((Generation.generation_id g, a) :: stored s) (synced s)).
Proof.
  intros [D S A K Y O G] Hg Ei El Hn. split; cbn; try done.
  - intros k a' [[= -> ->]|Ha]%elem_of_cons; [by exists g|by apply S].
  - intros k a' [[<- <-]|[_ Ha]]%lookup_insert_Some; [by left|right; by apply A].
  - intros k a' [[= -> ->]|Ha]%elem_of_cons Hle; [by rewrite lookup_insert_eq|].
    pose proof (K _ _ Ha Hle) as Hk. rewrite lookup_insert_ne; [done|congruence].
  - intros x Hx Hb Hle. destruct (Y x Hx Hb Hle) as (a' & Ha' & E). exists a'. split; [|done]. cbn.
    rewrite lookup_insert_ne; [done|congruence].
  - intros x (a' & Ha' & E)%O. exists a'. split; [by right|done].
Qed.

Lemma answer_ok s x :
  coordinator_ok s -> by_then x = current s -> taken_from s x ->
  coordinator_ok (mkCoordinator (document s) (assigned s) (stored s) (x :: synced s)).
Proof.
  intros [D S A K Y O G] Eb T. split; cbn; try done.
  - intros y [->|Hy]%elem_of_cons; [done|]. by apply Y.
  - intros y [->|Hy]%elem_of_cons; [|by apply O]. destruct T as (a & Ha & E). exists a. split; [by apply A|done].
  - assert (Hxy : forall y, y ∈ synced s -> at_generation x = at_generation y -> to_member x = to_member y ->
      by_then x <= at_generation x + 1 -> by_then y <= at_generation y + 1 ->
      with_assignment x = with_assignment y).
    { intros y Hy E1 E2 B1 B2. destruct T as (a & Ha & ->), (Y y Hy B2) as (a' & Ha' & ->); [lia|].
      rewrite E1 in Ha. by rewrite E2; simplify_eq. }
    intros y z [->|Hy]%elem_of_cons [->|Hz]%elem_of_cons E1 E2 B1 B2; [done|by apply Hxy| |by apply G].
    symmetry. by apply Hxy.
Qed.

Lemma pruned_ok s g :
  coordinator_ok s -> g ∈ life (document s) ->
  coordinator_ok (mkCoordinator (document s)
    (filter (fun x => sat_i32 (Generation.generation_id g - 1) <= x.1) (assigned s)) (stored s) (synced s)).
Proof.
  intros [D S A K Y O G] Hg. destruct (life_current _ g (ok_life _ _ _ _ D) Hg) as [Hr Hc].
  assert (Hkeep : forall k a, assigned s !! k = Some a -> current s - 1 <= k ->
    filter (fun x => sat_i32 (Generation.generation_id g - 1) <= x.1) (assigned s) !! k = Some a).
  { intros k a Ha Hk. apply map_lookup_filter_Some_2; [done|]. cbn. unfold current in Hk. unfold sat_i32, i32_MAX in *. lia. }
  split; cbn; try done.
  - intros k a [Ha _]%map_lookup_filter_Some. by apply A.
  - intros k a Ha Hk. apply Hkeep; [by apply K|done].
  - intros x Hx Hb Hle. destruct (Y x Hx Hb Hle) as (a & Ha & E). exists a. split; [by apply Hkeep|done].
Qed.

Lemma coordinator_step_ok s s' : coordinator_ok s -> coordinator_step s s' -> coordinator_ok s'.
Proof.
  intros Hok Hs. destruct Hs as [s d Hd Hk|s g gid id req now_ms a Hg Hp Hn|s g id a after v b Hg Ha Hk Hb
    |s g gid id req now_ms b Hg Hp|s g Hg].
  - by apply document_moves_ok.
  - apply sync_plan_assigns in Hp as [E1 E2]. by apply leader_creates_ok.
  - apply answer_ok; [done|done|]. unfold sync_assigned in Hb. cbn in Hb.
    unfold view_generation_id in Hb. cbn in Hb.
    destruct (Z.eqb_spec (Generation.generation_id after) (Generation.generation_id g)) as [E|E]; [|done].
    cbn in Hb. simplify_eq. exists a. cbn. split; [|done]. apply Hok; [done|].
    unfold current. rewrite (ok_head _ _ _ _ (ok_document _ Hok)), Hk. cbn. lia.
  - apply answer_ok; [done|done|]. apply sync_plan_answers in Hp as (a & Ha & Hb). exists a. cbn.
    by rewrite Hb.
  - by apply pruned_ok.
Qed.

Lemma coordinator_sound s : coordinator s -> coordinator_ok s.
Proof.
  induction 1 as [|s s' _ IH Hs]; [|by eapply coordinator_step_ok].
  split; cbn; try done; try (intros; exfalso; by eapply not_elem_of_nil).
  apply replicas_reach_ok, replicas_start.
Qed.

(** ** What holds of every group *)

(** C18 Whatever requests any number of replicas make, in any interleaving, the
    documents of a group are in order: the generation never goes back, a
    generation below the largest keeps its members and its leader once it has
    one, and a leader is always one of the members, so that nobody waits for an
    assignment from a member that is gone. *)
Theorem generation_in_order s i j g g' :
  generations s -> life s !! i = Some g' -> life s !! j = Some g -> (i <= j)%nat ->
  Generation.generation_id g <= Generation.generation_id g' /\
  (Generation.generation_id g' = Generation.generation_id g -> Generation.generation_id g < i32_MAX ->
   Generation.members g' = Generation.members g /\
   forall l, Generation.leader g = Some l -> Generation.leader g' = Some l) /\
  forall l, Generation.leader g' = Some l -> is_Some (Generation.members g' !! l).
Proof.
  intros Hs%replicas_reach_ok Hi Hj Hij. destruct (lifetime_sound _ (ok_life _ _ _ _ Hs)) as [W S].
  destruct (life_follows _ _ _ _ _ S Hi Hj Hij) as [H1 H2]. split_and!; [done| |].
  - intros E Hm. destruct (H2 (eq_sym E) Hm) as [-> Hl]. done.
  - rewrite Forall_forall in W. apply (W g'). by eapply list_elem_of_lookup_2.
Qed.

(** C28 What [SyncGroup] hands a member at a generation, of a group that is not
    deleted, is what an assignment created for that generation holds for it; the
    assignment was created by the generation's leader, the only one the
    generation has while it is below the largest; and two answers given to a
    member at a generation, by any replicas, carry the same assignment if both
    are given before the group is two generations on, when the assignment may
    be pruned. *)
Theorem sync_answers_agree s x y :
  coordinator s -> x ∈ synced s -> y ∈ synced s ->
  at_generation x = at_generation y -> to_member x = to_member y ->
  by_then x <= at_generation x + 1 -> by_then y <= at_generation y + 1 ->
  exists a g, (at_generation x, a) ∈ stored s /\ g ∈ life (document s) /\
    Generation.generation_id g = at_generation x /\ Generation.leader g = Some (AssignmentDoc.leader a) /\
    (at_generation x < i32_MAX -> forall g' l, g' ∈ life (document s) ->
       Generation.generation_id g' = at_generation x -> Generation.leader g' = Some l -> l = AssignmentDoc.leader a) /\
    with_assignment x = default [] (AssignmentDoc.assignments a !! to_member x) /\
    with_assignment y = with_assignment x.
Proof.
  intros Hs%coordinator_sound Hx Hy E1 E2 B1 B2. destruct (ok_source _ Hs x Hx) as (a & Ha & Ea).
  destruct (ok_stored _ Hs _ _ Ha) as (g & Hg & Eg & _ & Hl). exists a, g. split_and!; try done.
  - intros Hk g' l Hg' Eg' Hl'. symmetry.
    by eapply (life_one_leader (life (document s)) g g'); [apply Hs|..|done|done]; congruence.
  - symmetry. by eapply (ok_agree _ Hs).
Qed.

(** No long poll holds a member for more than a second past its deadline: the
    join window or half the session, whichever is longer, for [JoinGroup], and
    eight tenths of the session or a pause for [SyncGroup]. *)
Theorem long_polls_end {V} (v : GroupView V) join_body sync_body elapsed_ms forming quiescent window instance
    generation_id pause_ms :
  (join_long_poll v join_body elapsed_ms forming quiescent window = Wait pause_ms ->
   0 < pause_ms /\ elapsed_ms + pause_ms < Z.max window (view_session_timeout_ms v / 2) + 1000) /\
  (sync_long_poll v sync_body instance elapsed_ms generation_id = Wait pause_ms ->
   0 < pause_ms /\ elapsed_ms + pause_ms < Z.max PAUSE_MS (view_session_timeout_ms v * 8 / 10) + 1000).
Proof.
  assert (Hs : 0 < view_session_timeout_ms v).
  { unfold view_session_timeout_ms, session_timeout_or_default, DEFAULT_SESSION_TIMEOUT_MS.
    destruct (Z.ltb_spec 0 (Generation.session_timeout_ms (View.generation v))); lia. }
  assert (Hh : view_session_timeout_ms v / 2 <= view_session_timeout_ms v * 8 / 10).
  { apply Z.div_le_lower_bound; [lia|]. pose proof (Z.mul_div_le (view_session_timeout_ms v) 2). lia. }
  split.
  - unfold join_long_poll. destruct (is_member_id_required _); [done|].
    destruct (is_leader v join_body && forming && negb quiescent) eqn:E; cbn.
    + destruct (Z.ltb_spec elapsed_ms window); [intros [= <-]; lia|].
      apply andb_prop in E as [[-> _]%andb_prop _]. done.
    + destruct (is_leader _ _); [done|]. destruct (join_is_assigned _ _); [done|].
      destruct (quiescent && forming); [done|].
      destruct (Z.ltb_spec elapsed_ms (view_session_timeout_ms v / 2)); [intros [= <-]; lia|done].
  - unfold sync_long_poll. destruct (sync_is_assigned _); [done|].
    destruct (_ && (elapsed_ms <? view_session_timeout_ms v / 2)) eqn:E.
    { apply andb_prop in E as [_ E%Z.ltb_lt]. intros [= <-]. lia. }
    destruct (is_forming v); [done|].
    destruct (_ && (elapsed_ms <? PAUSE_MS)) eqn:E'.
    { apply andb_prop in E' as [_ E'%Z.ltb_lt]. intros [= <-]. lia. }
    destruct (Z.ltb_spec elapsed_ms (view_session_timeout_ms v * 8 / 10)); [intros [= <-]; lia|done].
Qed.

(** A join that has asked whether the consumer protocol holds the group does
    not ask again: admitting a stranger to a group converted since moves the
    generation the conversion is keyed on, and leaves the group converted. *)
Theorem checked_join_moves_converted (v : GroupView unit) r s live id member next :
  view_exists v = true -> well_led (View.generation v) -> Generation.is_converted (View.generation v) = true ->
  join_plan v r s = PlanWrite id member next true -> Generation.members (View.generation v) !! id = None ->
  join_route v true live = Classic /\ Generation.is_converted next = true /\
  Generation.generation_id next = sat_i32 (Generation.generation_id (View.generation v) + 1).
Proof.
  intros He Hw Hc Hp Hn. rewrite (join_route_checked v live). pose proof Hw as Hj.
  destruct (join_plan_mints v r s id member next) as [Hs Hg]; [by rewrite He|done|done|].
  split; [done|]. split; [|by rewrite Hg, He]. unfold Generation.is_converted in *. by rewrite Hs.
Qed.

(** ** A group of two *)

Definition sample_request (id : string) : JoinReq :=
  JoinReq.mk None 10000 (Some 30000) (ascii_bytes id) None CONSUMER [(ascii_bytes "range", [])].
Definition sample_seen (now_ms : Z) : Seen := Seen.mk None (Some ∅) ∅ 0 false [] [] now_ms.

Definition sample_calls : list GenerationCall :=
  [ Joins (sample_request "a") (sample_seen 1000) false false;
    Joins (sample_request "b") (sample_seen 2000) false false; Claims 9000 ].

Definition sample_run (s : GenerationReplicas) (c : nat * GenerationCall)
    : GenerationReplicas :=
  serve generation_step generation_bumped s c.1 c.2 (replicate (S c.1) x00).

Definition sample_start : GenerationReplicas := replicas_none.
Definition sample_group : GenerationReplicas :=
  fold_left sample_run (imap (fun i c => (i, c)) sample_calls) sample_start.

Lemma sample_run_reach l s : generations s -> generations (fold_left sample_run l s).
Proof.
  revert s. induction l as [|c l IH]; intros s Hs; [done|]. apply IH.
  notypeclasses refine (serve_reach _ _ _ _ _ _ _ _ _); done.
Qed.
Lemma sample_group_reach : generations sample_group.
Proof. apply sample_run_reach. apply replicas_start. Qed.

Definition sample_doc (i : nat) : GenerationDoc := default generation_default (life sample_group !! i).

Lemma sample_doc_life i : (i < 3)%nat -> life sample_group !! i = Some (sample_doc i).
Proof.
  intros Hi. assert (E : length (life sample_group) = 3%nat) by (vm_compute; reflexivity).
  destruct (lookup_lt_is_Some_2 (life sample_group) i) as [g Hg]; [by rewrite E|]. unfold sample_doc. by rewrite Hg.
Qed.

Lemma generation_in_order_witness :
  Generation.leader (sample_doc 0) = Some (ascii_bytes "a") /\
  Generation.members (sample_doc 0) = Generation.members (sample_doc 1) /\
  Generation.generation_id (sample_doc 1) = 1.
Proof.
  pose proof (sample_doc_life 0 ltac:(lia)) as H0. pose proof (sample_doc_life 1 ltac:(lia)) as H1.
  assert (E : Generation.generation_id (sample_doc 0) = Generation.generation_id (sample_doc 1))
    by (vm_compute; reflexivity).
  assert (L : Generation.generation_id (sample_doc 1) < i32_MAX) by (vm_compute; reflexivity).
  assert (Ha : Generation.leader (sample_doc 1) = Some (ascii_bytes "a")) by (vm_compute; reflexivity).
  destruct (generation_in_order sample_group 0 1 (sample_doc 1) (sample_doc 0) sample_group_reach H0 H1
              (Nat.le_0_l 1)) as (_ & H & _).
  destruct (H E L) as [Hm Hl]. split; [exact (Hl _ Ha)|]. split; [exact Hm|vm_compute; reflexivity].
Defined.

Definition sample_assignment : AssignmentDoc :=
  AssignmentDoc.mk 1 (ascii_bytes "a") CONSUMER (ascii_bytes "range")
    {[ ascii_bytes "a" := [x07] ]} 9500.

Definition sample_answer : Synced := mkSynced 1 (ascii_bytes "a") [x07] 1.

Definition sample_coordinator : Coordinator :=
  mkCoordinator sample_group {[ 1 := sample_assignment ]} [(1, sample_assignment)]
    [sample_answer; sample_answer].

Lemma sample_documents l s :
  coordinator (mkCoordinator s ∅ [] []) -> coordinator (mkCoordinator (fold_left sample_run l s) ∅ [] []).
Proof.
  revert s. induction l as [|c l IH]; intros s Hs; [done|]. apply IH. unfold sample_run.
  apply (serve_ind generation_step generation_bumped (fun _ _ => True)
    (fun s => coordinator (mkCoordinator s ∅ [] []))); [|done|done].
  intros s1 s2 H1 H2 Hl. eapply coordinator_next; [exact H1|].
  apply (document_moves (mkCoordinator s1 ∅ [] [])); [exact H2|]. cbn. by destruct Hl as [->|[d ->]].
Qed.

Lemma head_current (s : GenerationReplicas) g :
  generations s -> life s !! 0%nat = Some g ->
  exists v, key s = Some (g, v).
Proof.
  intros Hs%replicas_reach_ok H0. pose proof (ok_head _ _ _ _ Hs) as Hh.
  destruct (life s), (key s) as [[d v]|]; simplify_eq/=. by exists v.
Qed.

(** A leader creates the assignment, is answered, and asks again. *)
Lemma leader_syncs d g id requested now_ms a b :
  generations d -> coordinator (mkCoordinator d ∅ [] []) -> life d !! 0%nat = Some g ->
  sync_plan (view_of g None) (Generation.generation_id g) id requested now_ms = SyncAssign a ->
  sync_assigned (view_of g None) (view_of g None) id a = mkSyncBody NO_ERROR b ->
  sync_plan (view_of g (Some a)) (Generation.generation_id g) id requested now_ms
    = SyncAnswer (mkSyncBody NO_ERROR b) ->
  let k := Generation.generation_id g in
  coordinator (mkCoordinator d {[ k := a ]} [(k, a)] [mkSynced k id b k; mkSynced k id b k]).
Proof.
  intros Hd H Hg H1 H2 H3. destruct (head_current d g Hd Hg) as [v Hv].
  assert (Hin : g ∈ life d) by by eapply list_elem_of_lookup_2.
  assert (Hc : from_option Generation.generation_id (-1) (head (life d)) = Generation.generation_id g)
    by (destruct (life d); by simplify_eq/=).
  set (k := Generation.generation_id g). assert (Hs : (k, a) ∈ [(k, a)]) by by left.
  pose proof (coordinator_next _ _ H
    (leader_creates (mkCoordinator d ∅ [] []) g _ id requested now_ms a Hin H1 (lookup_empty _))) as S1.
  cbn in S1. rewrite insert_empty in S1.
  pose proof (coordinator_next _ _ S1
    (leader_answers (mkCoordinator d {[k := a]} [(k, a)] []) g id a g v b Hin Hs Hv H2)) as S2.
  unfold current in S2. cbn in S2. rewrite Hc in S2.
  rewrite <- (lookup_singleton_eq k a) in H3.
  pose proof (coordinator_next _ _ S2
    (member_answers (mkCoordinator d {[k := a]} [(k, a)] [mkSynced k id b k]) g k id requested now_ms b Hin H3)) as S3.
  unfold current in S3. cbn in S3. rewrite Hc in S3. exact S3.
Qed.

Lemma sample_coordinator_reach : coordinator sample_coordinator.
Proof.
  assert (Hc : coordinator (mkCoordinator sample_group ∅ [] [])) by apply sample_documents, coordinator_start.
  assert (E : Generation.generation_id (sample_doc 0) = 1) by (vm_compute; reflexivity).
  assert (H1 : sync_plan (view_of (sample_doc 0) None) (Generation.generation_id (sample_doc 0)) (ascii_bytes "a")
    (Some [(ascii_bytes "a", [x07])]) 9500 = SyncAssign sample_assignment) by (vm_compute; reflexivity).
  assert (H2 : sync_assigned (view_of (sample_doc 0) None) (view_of (sample_doc 0) None) (ascii_bytes "a")
    sample_assignment = mkSyncBody NO_ERROR [x07]) by (vm_compute; reflexivity).
  assert (H3 : sync_plan (view_of (sample_doc 0) (Some sample_assignment)) (Generation.generation_id (sample_doc 0))
    (ascii_bytes "a") (Some [(ascii_bytes "a", [x07])]) 9500 = SyncAnswer (mkSyncBody NO_ERROR [x07]))
    by (vm_compute; reflexivity).
  pose proof (leader_syncs _ _ _ _ _ _ _ sample_group_reach Hc (sample_doc_life 0 ltac:(lia)) H1 H2 H3) as H.
  cbv zeta in H. rewrite E in H. exact H.
Qed.

Lemma sync_answers_agree_witness :
  exists a g, (1, a) ∈ stored sample_coordinator /\ g ∈ life sample_group /\
    Generation.generation_id g = 1 /\ Generation.leader g = Some (AssignmentDoc.leader a) /\
    (1 < i32_MAX -> forall g' l, g' ∈ life sample_group ->
       Generation.generation_id g' = 1 -> Generation.leader g' = Some l -> l = AssignmentDoc.leader a) /\
    with_assignment sample_answer = default [] (AssignmentDoc.assignments a !! ascii_bytes "a") /\
    with_assignment sample_answer = with_assignment sample_answer.
Proof.
  assert (Hx : sample_answer ∈ synced sample_coordinator) by by left.
  exact (sync_answers_agree sample_coordinator sample_answer sample_answer
    sample_coordinator_reach Hx Hx eq_refl eq_refl ltac:(vm_compute; discriminate) ltac:(vm_compute; discriminate)).
Defined.

(** The group of two after it was converted, and a third member that had asked
    before it was. *)
Definition sample_converted : GenerationDoc := mark_converted (sample_doc 0) 9600.

Abbreviation sample_plan :=
  (join_plan (view_of sample_converted None) (sample_request "c") (sample_seen 9700)).

Lemma mark_converted_led g now_ms : well_led g -> well_led (View.generation (view_of (mark_converted g now_ms) None)).
Proof. done. Qed.

Lemma sample_converted_led : well_led (View.generation (view_of sample_converted None)).
Proof.
  apply mark_converted_led.
  apply (proj1 (Forall_forall _ _) (proj1 (lifetime_sound _ (ok_life _ _ _ _
    (replicas_reach_ok _ _ _ _ sample_group_reach))))).
  eapply list_elem_of_lookup_2, (sample_doc_life 0). lia.
Qed.

Lemma sample_plan_writes :
  match sample_plan with PlanWrite id _ _ write => (id, write) | _ => ([], false) end = (ascii_bytes "c", true).
Proof. vm_compute. reflexivity. Qed.
Lemma sample_converted_facts : let g := View.generation (view_of sample_converted None) in
  Generation.members g !! ascii_bytes "c" = None /\ Generation.generation_id g = 1 /\
  Generation.is_converted g = true /\ view_exists (view_of sample_converted None) = true.
Proof. cbv zeta. split; [|split; [|split]]; vm_compute; reflexivity. Qed.

Lemma checked_join_moves_converted_witness :
  match sample_plan with
  | PlanWrite id _ next true =>
      id = ascii_bytes "c" /\ Generation.is_converted next = true /\ Generation.generation_id next = 2
  | _ => False
  end.
Proof.
  pose proof sample_plan_writes as Hs. destruct sample_converted_facts as (Hn & Hg & Hc & He).
  destruct sample_plan as [| |id member next write] eqn:Ep; [discriminate Hs..|].
  injection Hs as -> ->.
  destruct (checked_join_moves_converted (view_of sample_converted None) (sample_request "c") (sample_seen 9700) true
    (ascii_bytes "c") member next He sample_converted_led Hc Ep Hn) as (_ & H1 & H2).
  rewrite Hg in H2. split; [done|]. split; [exact H1|exact H2].
Defined.
