(* ===== verification/Varint.v ===== *)
(** * Varint: variable-length integers

    [tansu-sans-io/src/primitive/varint.rs]: [VarInt] (i32, zig-zag),
    [LongVarInt] (i64, zig-zag) and [UnsignedVarInt] (u32), with the checked
    decoders ([Decode]), the encoders ([Encode]), [ByteSize], and the unchecked
    serde visitors through which compressed record batches are read.

    The three types share their loops; [bits] is the width of the accumulator. *)

From S2P Require Export Bytes.

Definition CONTINUATION : Z := 128.
Definition MASK : Z := 127.

Module Varint.

(** [x.checked_shl(shift)]: [None] when the amount reaches the width; bits
    shifted out are lost. *)
Definition checked_shl (bits x shift : Z) : result Z :=
  if shift <? bits then Ok (wrap_u bits (Z.shiftl x shift)) else Err Overflow.

Definition checked_add (bits x y : Z) : result Z :=
  if x + y <? 2 ^ bits then Ok (x + y) else Err Overflow.

(** The loop of [Decode::decode]. *)
Fixpoint decode_loop (bits accumulator shift : Z) (encoded : bytes) : result (Z * bytes) :=
  match encoded with
  | [] => Err TryGet
  | b :: rest =>
      let byte := Z_of_byte b in
      if Z.land byte CONTINUATION =? CONTINUATION then
        let! intermediate := checked_shl bits (Z.land byte MASK) shift in
        let! accumulator := checked_add bits accumulator intermediate in
        let! shift := checked_add 8 shift 7 in
        decode_loop bits accumulator shift rest
      else
        let! intermediate := checked_shl bits byte shift in
        let! accumulator := checked_add bits accumulator intermediate in
        Ok (accumulator, rest)
  end.

(** The loop of [Encode::encode]. Each round divides [v] by 128, so [bits]
    rounds are enough. *)
Fixpoint encode_loop (fuel : nat) (v : Z) : bytes :=
  match fuel with
  | O => []
  | S fuel =>
      if CONTINUATION <=? v then
        byte_of_Z (Z.lor (wrap_u 8 v) CONTINUATION) :: encode_loop fuel (Z.shiftr v 7)
      else [byte_of_Z v]
  end.

(** [ByteSize::size_in_bytes]. *)
Fixpoint size_loop (fuel : nat) (v : Z) : nat :=
  match fuel with
  | O => 1
  | S fuel => if CONTINUATION <=? v then S (size_loop fuel (Z.shiftr v 7)) else 1
  end.

Definition en_zigzag (bits decoded : Z) : Z :=
  wrap_u bits (Z.lxor (wrap_s bits (Z.shiftl decoded 1)) (Z.shiftr decoded (bits - 1))).

Definition de_zigzag (bits encoded : Z) : Z :=
  Z.lxor (wrap_s bits (Z.shiftr encoded 1)) (- Z.land encoded 1).

(** The serde visitor of [VarInt] and [LongVarInt]: unchecked arithmetic.
    [checks] is the build's [overflow-checks]: a debug build panics, a release
    build shifts by the amount modulo the width and wraps. *)
Fixpoint visit_loop (checks : bool) (bits accumulator shift : Z) (encoded : bytes)
    : result (Z * bytes) :=
  match encoded with
  | [] => Err Io
  | b :: rest =>
      let byte := Z_of_byte b in
      let add (x : Z) :=
        if checks then
          if bits <=? shift then Panic ArithmeticOverflow
          else
            let sum := accumulator + wrap_u bits (Z.shiftl x shift) in
            if sum <? 2 ^ bits then Ok sum else Panic ArithmeticOverflow
        else Ok (wrap_u bits (accumulator + wrap_u bits (Z.shiftl x (shift mod bits)))) in
      if Z.land byte CONTINUATION =? CONTINUATION then
        let! accumulator := add (Z.land byte MASK) in
        if checks && (256 <=? shift + 7) then Panic ArithmeticOverflow
        else visit_loop checks bits accumulator (wrap_u 8 (shift + 7)) rest
      else
        let! accumulator := add byte in
        Ok (accumulator, rest)
  end.

Definition encode (bits : Z) (i : Z) : bytes :=
  encode_loop (Z.to_nat bits) (en_zigzag bits i).
Definition decode (bits : Z) (encoded : bytes) : result (Z * bytes) :=
  let! (accumulator, rest) := decode_loop bits 0 0 encoded in
  Ok (de_zigzag bits accumulator, rest).
Definition size_in_bytes (bits : Z) (i : Z) : nat :=
  size_loop (Z.to_nat bits) (en_zigzag bits i).
Definition deserialize (checks : bool) (bits : Z) (encoded : bytes) : result (Z * bytes) :=
  let! (accumulator, rest) := visit_loop checks bits 0 0 encoded in
  Ok (de_zigzag bits accumulator, rest).

(** ** The three types *)

Definition VarInt_encode : Z -> bytes := encode 32.
Definition VarInt_decode : reader Z := decode 32.
Definition VarInt_size : Z -> nat := size_in_bytes 32.
Definition VarInt_deserialize (checks : bool) : reader Z := deserialize checks 32.

Definition LongVarInt_encode : Z -> bytes := encode 64.
Definition LongVarInt_decode : reader Z := decode 64.
Definition LongVarInt_size : Z -> nat := size_in_bytes 64.
Definition LongVarInt_deserialize (checks : bool) : reader Z := deserialize checks 64.

Definition UnsignedVarInt_encode (i : Z) : bytes := encode_loop 32 i.
(** The visitor of [UnsignedVarInt] is the checked loop, its errors custom. *)
Definition UnsignedVarInt_deserialize : reader Z :=
  fun encoded =>
    match decode_loop 32 0 0 encoded with
    | Err TryGet => Err Io
    | Err Overflow => Err (Message "overflow")
    | r => r
    end.
Definition UnsignedVarInt_size (i : Z) : nat := size_loop 32 i.

End Varint.
Import Varint.

(** ** Bits of one group *)

Lemma forall_byte_range (P : Z -> bool) :
  forallb P (seqZ 0 256) = true -> forall z, 0 <= z < 256 -> P z = true.
Proof.
  intros H z Hz. rewrite forallb_forall in H. apply H.
  apply list_elem_of_In, elem_of_seqZ. lia.
Qed.

Definition group_ok (z : Z) : bool :=
  (Z.land (Z.lor z 128) 128 =? 128)
  && (Z.land (Z.lor z 128) 127 =? z mod 128)
  && (Z.lor z 128 <? 256) && (0 <=? Z.lor z 128)
  && (if z <? 128 then negb (Z.land z 128 =? 128) else true).

Lemma group_all z : 0 <= z < 256 -> group_ok z = true.
Proof. apply forall_byte_range. by vm_compute. Qed.

Lemma continued_group v b :
  b = byte_of_Z (Z.lor (wrap_u 8 v) CONTINUATION) ->
  Z.land (Z_of_byte b) CONTINUATION = CONTINUATION /\
  Z.land (Z_of_byte b) MASK = v mod 128.
Proof.
  intros ->. unfold CONTINUATION, MASK, wrap_u. change (2 ^ 8) with 256.
  pose proof (Z.mod_pos_bound v 256 ltac:(lia)) as Hm.
  pose proof (group_all _ Hm) as H. unfold group_ok in H. bool_prop.
  rewrite Z_of_byte_of_Z, Z.mod_small by lia. split; [done|].
  replace (v mod 128) with ((v mod 256) mod 128); [done|].
  change 256 with (128 * 2). rewrite Z.rem_mul_r by lia.
  rewrite (Z.mul_comm 128), Z.mod_add, Z.mod_mod by lia. done.
Qed.

Lemma final_group v :
  0 <= v < 128 ->
  Z_of_byte (byte_of_Z v) = v /\ (Z.land v CONTINUATION =? CONTINUATION) = false.
Proof.
  intros Hv. rewrite Z_of_byte_of_Z, Z.mod_small by lia. split; [done|].
  pose proof (group_all v ltac:(lia)) as H. unfold group_ok in H. bool_prop.
  destruct (Z.ltb_spec v 128); [|lia]. by apply negb_true_iff in H0.
Qed.

(** ** The loops invert each other *)

Lemma checked_shl_small bits x s :
  0 <= s < bits -> 0 <= x -> x * 2 ^ s < 2 ^ bits ->
  checked_shl bits x s = Ok (x * 2 ^ s).
Proof.
  intros. unfold checked_shl. destruct (Z.ltb_spec s bits); [|lia].
  rewrite Z.shiftl_mul_pow2 by lia. f_equal. apply Z.mod_small.
  pose proof (pow2_pos s ltac:(lia)). nia.
Qed.

Lemma checked_add_small bits x y : x + y < 2 ^ bits -> checked_add bits x y = Ok (x + y).
Proof. intros. unfold checked_add. destruct (Z.ltb_spec (x + y) (2 ^ bits)); [done|lia]. Qed.

Lemma decode_encode_loop bits fuel v s acc rest :
  0 <= s < bits -> bits <= 64 -> 0 <= v -> v < 2 ^ Z.of_nat fuel -> (0 < fuel)%nat ->
  0 <= acc < 2 ^ s -> acc + v * 2 ^ s < 2 ^ bits ->
  decode_loop bits acc s (encode_loop fuel v ++ rest) = Ok (acc + v * 2 ^ s, rest).
Proof.
  revert v s acc. induction fuel as [|fuel IH]; intros v s acc Hs Hb Hv Hf H0 Ha Hfit; [lia|].
  pose proof (pow2_pos s ltac:(lia)) as Hps.
  cbn [encode_loop]. destruct (Z.leb_spec CONTINUATION v) as [Hc|Hc]; unfold CONTINUATION in Hc.
  - cbn [app decode_loop].
    edestruct (continued_group v) as [E1 E2]; [done|]. rewrite E1, E2, Z.eqb_refl.
    pose proof (Z.div_mod v 128 ltac:(lia)) as Hdm.
    pose proof (Z.mod_pos_bound v 128 ltac:(lia)) as Hmod.
    assert (Hq : 1 <= v / 128) by (apply Z.div_le_lower_bound; lia).
    assert (Hp7 : 2 ^ (s + 7) = 128 * 2 ^ s) by (rewrite Z.pow_add_r by lia; lia).
    assert (Hs7 : s + 7 < bits).
    { destruct (Z_lt_ge_dec (s + 7) bits); [done|].
      assert (2 ^ bits <= 2 ^ (s + 7)) by (apply Z.pow_le_mono_r; lia). nia. }
    rewrite checked_shl_small by (try split; nia). cbn [rbind].
    rewrite checked_add_small by nia. cbn [rbind].
    rewrite checked_add_small by (change (2 ^ 8) with 256; lia). cbn [rbind].
    rewrite Z.shiftr_div_pow2 by lia. change (2 ^ 7) with 128.
    rewrite Nat2Z.inj_succ, Z.pow_succ_r in Hf by lia.
    assert (Hf' : v / 128 < 2 ^ Z.of_nat fuel) by (apply Z.div_lt_upper_bound; lia).
    assert (Hfuel : (0 < fuel)%nat) by (destruct fuel; [cbn in Hf'; lia|lia]).
    rewrite IH by (rewrite ?Hp7; nia). f_equal. f_equal. rewrite Hp7. nia.
  - cbn [app decode_loop]. destruct (final_group v ltac:(lia)) as [E1 E2].
    rewrite E1, E2. rewrite checked_shl_small by (try split; nia). cbn [rbind].
    rewrite checked_add_small by nia. done.
Qed.

Lemma length_encode_loop fuel v :
  0 <= v -> v < 2 ^ Z.of_nat fuel -> (0 < fuel)%nat ->
  length (encode_loop fuel v) = size_loop fuel v.
Proof.
  revert v. induction fuel as [|fuel IH]; intros v Hv Hf H0; [lia|].
  cbn. destruct (Z.leb_spec CONTINUATION v) as [Hc|]; [|done]. cbn. f_equal.
  unfold CONTINUATION in Hc. rewrite Nat2Z.inj_succ, Z.pow_succ_r in Hf by lia.
  assert (1 <= v / 128) by (apply Z.div_le_lower_bound; lia).
  assert (v / 128 < 2 ^ Z.of_nat fuel) by (apply Z.div_lt_upper_bound; lia).
  apply IH; rewrite ?Z.shiftr_div_pow2 by lia; change (2 ^ 7) with 128; try lia.
  destruct fuel; [cbn in *; lia|lia].
Qed.

Lemma size_loop_bound fuel v k :
  0 <= v -> v < 2 ^ (7 * Z.of_nat k) -> (0 < k)%nat -> (size_loop fuel v <= k)%nat.
Proof.
  revert v k. induction fuel as [|fuel IH]; intros v k Hv Hk Hpos; cbn; [lia|].
  destruct (Z.leb_spec CONTINUATION v) as [Hc|]; [|lia]. unfold CONTINUATION in Hc.
  destruct k as [|[|k]]; [lia|cbn in Hk; lia|].
  apply le_n_S, IH; rewrite ?Z.shiftr_div_pow2 by lia; change (2 ^ 7) with 128; [| |lia].
  - apply Z.div_pos; lia.
  - apply Z.div_lt_upper_bound; [lia|].
    replace (7 * Z.of_nat (S (S k))) with (7 + 7 * Z.of_nat (S k)) in Hk by lia.
    rewrite Z.pow_add_r in Hk by lia. change (2 ^ 7) with 128 in Hk. lia.
Qed.

(** ** Zig-zag *)

Lemma en_zigzag_value bits i :
  0 < bits -> s_range bits i = true ->
  en_zigzag bits i = if i <? 0 then -2 * i - 1 else 2 * i.
Proof.
  intros Hb Hi%s_range_spec. unfold en_zigzag.
  pose proof (pow2_half bits Hb) as Hh. pose proof (pow2_pos (bits - 1) ltac:(lia)) as Hp.
  rewrite Z.shiftl_mul_pow2, Z.shiftr_div_pow2 by lia. change (2 ^ 1) with 2.
  set (w := wrap_s bits (i * 2)).
  assert (Hw : w mod 2 ^ bits = (i * 2) mod 2 ^ bits) by (by apply mod_wrap_s).
  destruct (Z.ltb_spec i 0) as [Hneg|Hpos].
  - assert (i / 2 ^ (bits - 1) = -1) as ->.
    { symmetry. apply Z.div_unique_pos with (r := i + 2 ^ (bits - 1)); lia. }
    rewrite Z.lxor_m1_r. unfold wrap_u, Z.lnot.
    replace (Z.pred (- w)) with (-1 - w) by lia.
    rewrite <- Zminus_mod_idemp_r, Hw, Zminus_mod_idemp_r.
    rewrite Z.mod_small; lia.
  - rewrite Z.div_small, Z.lxor_0_r by lia. unfold wrap_u.
    rewrite Hw, Z.mod_small; lia.
Qed.

Lemma en_zigzag_range bits i :
  0 < bits -> s_range bits i = true -> 0 <= en_zigzag bits i < 2 ^ bits.
Proof.
  intros Hb Hi. rewrite en_zigzag_value by done. apply s_range_spec in Hi.
  pose proof (pow2_half bits Hb). destruct (Z.ltb_spec i 0); lia.
Qed.

Lemma de_en_zigzag bits i :
  0 < bits -> s_range bits i = true -> de_zigzag bits (en_zigzag bits i) = i.
Proof.
  intros Hb Hi. rewrite en_zigzag_value by done. unfold de_zigzag.
  pose proof (pow2_half bits Hb) as Hh.
  assert (Hland : forall x, Z.land x 1 = x mod 2).
  { intros x. change 1 with (Z.ones 1). by rewrite Z.land_ones. }
  rewrite Hland, Z.shiftr_div_pow2 by lia. change (2 ^ 1) with 2. pose proof Hi as Hr. apply s_range_spec in Hr.
  destruct (Z.ltb_spec i 0).
  - replace (-2 * i - 1) with (1 + (- i - 1) * 2) by lia.
    rewrite Z.mod_add, Z.div_add by lia. change (1 mod 2) with 1. change (1 / 2) with 0.
    change (- (1)) with (-1). rewrite Z.lxor_m1_r, wrap_s_small; [unfold Z.lnot; lia|lia|].
    apply s_range_spec. lia.
  - rewrite (Z.mul_comm 2 i), Z_mod_mult, Z.div_mul by lia. change (- (0)) with 0.
    rewrite Z.lxor_0_r. by apply wrap_s_small.
Qed.

Lemma decode_encode bits i rest :
  0 < bits <= 64 -> s_range bits i = true ->
  decode bits (encode bits i ++ rest) = Ok (i, rest).
Proof.
  intros Hb Hi. unfold decode, encode. pose proof (en_zigzag_range bits i ltac:(lia) Hi).
  rewrite decode_encode_loop by (rewrite ?Z2Nat.id, ?Z.pow_0_r; lia).
  cbn [rbind]. rewrite Z.pow_0_r, Z.mul_1_r, Z.add_0_l.
  by rewrite de_en_zigzag by (done || lia).
Qed.

Lemma length_encode bits i :
  0 < bits -> s_range bits i = true -> length (encode bits i) = size_in_bytes bits i.
Proof.
  intros Hb Hi. pose proof (en_zigzag_range bits i Hb Hi).
  apply length_encode_loop; rewrite ?Z2Nat.id; lia.
Qed.

Lemma length_VarInt i : in_i32 i = true -> length (VarInt_encode i) = VarInt_size i.
Proof. by apply length_encode. Qed.

Lemma length_LongVarInt i : in_i64 i = true -> length (LongVarInt_encode i) = LongVarInt_size i.
Proof. by apply length_encode. Qed.

(** ** The unchecked visitor agrees with the checked decoder *)

Lemma checked_shl_Ok bits x s y :
  checked_shl bits x s = Ok y -> s < bits /\ y = wrap_u bits (Z.shiftl x s).
Proof. unfold checked_shl. destruct (Z.ltb_spec s bits); [|done]. by intros [= <-]. Qed.

Lemma checked_add_Ok bits x y z :
  checked_add bits x y = Ok z -> z = x + y /\ x + y < 2 ^ bits.
Proof. unfold checked_add. destruct (Z.ltb_spec (x + y) (2 ^ bits)); [|done]. by intros [= <-]. Qed.

Lemma visit_decode_loop checks bits acc s bs r :
  0 < bits -> 0 <= s -> 0 <= acc ->
  decode_loop bits acc s bs = Ok r -> visit_loop checks bits acc s bs = Ok r.
Proof.
  intros Hb. revert acc s. induction bs as [|b bs IH]; intros acc s Hs Ha H; [done|].
  cbn [decode_loop visit_loop] in *.
  assert (Hadd : forall x i a,
    checked_shl bits x s = Ok i -> checked_add bits acc i = Ok a ->
    0 <= a /\
    (if checks then
       if bits <=? s then Panic ArithmeticOverflow
       else if acc + wrap_u bits (Z.shiftl x s) <? 2 ^ bits
            then Ok (acc + wrap_u bits (Z.shiftl x s)) else Panic ArithmeticOverflow
     else Ok (wrap_u bits (acc + wrap_u bits (Z.shiftl x (s mod bits))))) = Ok a).
  { intros x i a [Hlt ->]%checked_shl_Ok [-> Hfit]%checked_add_Ok.
    pose proof (wrap_u_range bits (Z.shiftl x s) ltac:(lia)) as Hr%u_range_spec.
    split; [lia|]. destruct checks.
    - destruct (Z.leb_spec bits s); [lia|]. by destruct (Z.ltb_spec (acc + wrap_u bits (Z.shiftl x s)) (2 ^ bits)); [|lia].
    - rewrite (Z.mod_small s) by lia. f_equal. apply wrap_u_small, u_range_spec. lia. }
  case_head.
  - apply rbind_Ok in H as (i & E1 & H). apply rbind_Ok in H as (a & E2 & H).
    apply rbind_Ok in H as (s' & [-> E3]%checked_add_Ok & H). change (2 ^ 8) with 256 in E3.
    destruct (Hadd _ _ _ E1 E2) as [Ha' ->]. cbn [rbind].
    replace (256 <=? s + 7) with false by (symmetry; apply Z.leb_gt; lia).
    rewrite andb_false_r, wrap_u_small by (apply u_range_spec; change (2 ^ 8) with 256; lia).
    apply IH; [lia|done|done].
  - apply rbind_Ok in H as (i & E1 & H). apply rbind_Ok in H as (a & E2 & H).
    destruct (Hadd _ _ _ E1 E2) as [Ha' ->]. by cbn [rbind].
Qed.

(** The checked decoder reads only while [shift < bits]. *)
Lemma decode_loop_bounds bits acc s bs a rest k :
  0 <= acc < 2 ^ bits -> 0 <= s -> bits <= s + 7 * Z.of_nat k ->
  decode_loop bits acc s bs = Ok (a, rest) ->
  0 <= a < 2 ^ bits /\ exists used, bs = used ++ rest /\ (1 <= length used <= k)%nat.
Proof.
  revert acc s k. induction bs as [|b bs IH]; intros acc s k Ha Hs Hk H; [done|].
  cbn [decode_loop] in H.
  assert (Hk0 : forall x i, checked_shl bits x s = Ok i -> 0 <= i /\ (0 < k)%nat).
  { intros x i [Hlt ->]%checked_shl_Ok. split; [|lia].
    pose proof (wrap_u_range bits (Z.shiftl x s) ltac:(lia)) as Hr%u_range_spec. lia. }
  destruct (_ =? _).
  - apply rbind_Ok in H as (i & E1 & H). apply rbind_Ok in H as (a' & [-> E2]%checked_add_Ok & H).
    apply rbind_Ok in H as (s' & [-> E3]%checked_add_Ok & H).
    destruct (Hk0 _ _ E1). destruct k as [|k]; [lia|].
    apply (IH _ _ k) in H as (Hr & used & -> & Hlen); [|lia..].
    split; [done|]. exists (b :: used). cbn. split; [done|lia].
  - apply rbind_Ok in H as (i & E1 & H). apply rbind_Ok in H as (a' & [-> E2]%checked_add_Ok & H).
    destruct (Hk0 _ _ E1). injection H as <- <-. split; [lia|].
    exists [b]. cbn. split; [done|lia].
Qed.

Lemma de_zigzag_range bits e :
  1 < bits -> 0 <= e < 2 ^ bits -> s_range bits (de_zigzag bits e) = true.
Proof.
  intros Hb He. pose proof (pow2_half bits ltac:(lia)) as Hh.
  unfold de_zigzag. apply s_range_spec.
  assert (Hland : Z.land e 1 = e mod 2) by (change 1 with (Z.ones 1); by rewrite Z.land_ones).
  rewrite Hland, Z.shiftr_div_pow2 by lia. change (2 ^ 1) with 2.
  pose proof (Z.mod_pos_bound e 2 ltac:(lia)). pose proof (Z.div_mod e 2 ltac:(lia)).
  rewrite wrap_s_small by (lia || apply s_range_spec; lia).
  assert (e mod 2 = 0 \/ e mod 2 = 1) as [-> | ->] by lia.
  - change (- (0)) with 0. rewrite Z.lxor_0_r. lia.
  - change (- (1)) with (-1). rewrite Z.lxor_m1_r. unfold Z.lnot. lia.
Qed.

Lemma decode_bounds bits bs i rest k :
  1 < bits -> bits <= 7 * Z.of_nat k ->
  decode bits bs = Ok (i, rest) ->
  s_range bits i = true /\ exists used, bs = used ++ rest /\ (1 <= length used <= k)%nat.
Proof.
  intros Hb Hk H. unfold decode in H. apply rbind_Ok in H as ([a r] & E & H).
  injection H as <- <-. apply (decode_loop_bounds _ _ _ _ _ _ k) in E as [Ha Hu]; try lia.
  split; [by apply de_zigzag_range|done].
Qed.

Lemma decode_loop_no_panic bits acc s bs p : decode_loop bits acc s bs <> Panic p.
Proof.
  revert acc s. induction bs as [|b bs IH]; intros acc s; [done|]. cbn [decode_loop].
  unfold checked_shl, checked_add.
  repeat (case_head; cbn [rbind]; try done).
Qed.

(** ** Interface instances *)

#[export] Program Instance VarInt_wire : Wire Z := {|
  put := VarInt_encode; get := VarInt_decode; wf i := in_i32 i = true |}.
Next Obligation. intros i rest H. by apply decode_encode. Qed.

Definition LongVarInt_wire : Wire Z.
Proof.
  refine {| put := LongVarInt_encode; get := LongVarInt_decode; wf i := in_i64 i = true |}.
  intros i rest H. by apply decode_encode.
Defined.

(** ** Properties *)

(** Every variable-length integer of the wire format decodes to the value
    that was encoded, leaves the rest of the buffer untouched, and takes
    exactly the number of bytes [size_in_bytes] announces: at most five for
    [VarInt] and [UnsignedVarInt], at most ten for [LongVarInt]. *)
Theorem varint_roundtrip (i j k : Z) (rest : bytes) :
  in_i32 i = true -> in_i64 j = true -> in_u32 k = true ->
  VarInt_decode (VarInt_encode i ++ rest) = Ok (i, rest) /\
  LongVarInt_decode (LongVarInt_encode j ++ rest) = Ok (j, rest) /\
  UnsignedVarInt_deserialize (UnsignedVarInt_encode k ++ rest) = Ok (k, rest) /\
  length (VarInt_encode i) = VarInt_size i /\ (VarInt_size i <= 5)%nat /\
  length (LongVarInt_encode j) = LongVarInt_size j /\ (LongVarInt_size j <= 10)%nat /\
  length (UnsignedVarInt_encode k) = UnsignedVarInt_size k /\ (UnsignedVarInt_size k <= 5)%nat.
Proof.
  intros Hi Hj Hk. pose proof (en_zigzag_range 32 i ltac:(lia) Hi).
  pose proof (en_zigzag_range 64 j ltac:(lia) Hj).
  apply u_range_spec in Hk.
  repeat split.
  - by apply decode_encode.
  - by apply decode_encode.
  - unfold UnsignedVarInt_deserialize, UnsignedVarInt_encode.
    rewrite decode_encode_loop by (rewrite ?Z.pow_0_r; lia).
    rewrite Z.pow_0_r, Z.mul_1_r. done.
  - by apply length_encode.
  - apply size_loop_bound; lia.
  - by apply length_encode.
  - apply size_loop_bound; lia.
  - apply length_encode_loop; lia.
  - apply size_loop_bound; lia.
Qed.

Lemma varint_roundtrip_witness :
  VarInt_decode (VarInt_encode (-77) ++ [x00]) = Ok (-77, [x00]) /\
  LongVarInt_decode (LongVarInt_encode (-77) ++ [x00]) = Ok (-77, [x00]).
Proof.
  destruct (varint_roundtrip (-77) (-77) 300 [x00] eq_refl eq_refl eq_refl) as (H1 & H2 & _).
  split; [exact H1|exact H2].
Defined.

(** On hostile input the checked decoders fail or stay in range: a success
    consumed between one byte and five (ten for [LongVarInt]), returned the
    remaining bytes unchanged and a value of the declared width; and no input
    makes them panic. *)
Theorem varint_decode_bounded (bs : bytes) :
  (forall i rest, VarInt_decode bs = Ok (i, rest) ->
     in_i32 i = true /\ exists used, bs = used ++ rest /\ (1 <= length used <= 5)%nat) /\
  (forall i rest, LongVarInt_decode bs = Ok (i, rest) ->
     in_i64 i = true /\ exists used, bs = used ++ rest /\ (1 <= length used <= 10)%nat) /\
  (forall p, VarInt_decode bs <> Panic p /\ LongVarInt_decode bs <> Panic p).
Proof.
  split; [|split].
  - intros i rest. apply decode_bounds; lia.
  - intros i rest. apply decode_bounds; lia.
  - intros p. unfold VarInt_decode, LongVarInt_decode, decode.
    split; intros H.
    + destruct (decode_loop 32 0 0 bs) as [[]| |] eqn:E; cbn in H; try done.
      by apply decode_loop_no_panic in E.
    + destruct (decode_loop 64 0 0 bs) as [[]| |] eqn:E; cbn in H; try done.
      by apply decode_loop_no_panic in E.
Qed.

Lemma varint_decode_bounded_witness :
  in_i32 (-1) = true /\ exists used, [x01; x07] = used ++ [x07] /\ (1 <= length used <= 5)%nat.
Proof. apply (proj1 (varint_decode_bounded [x01; x07])). reflexivity. Defined.

(** The unchecked serde visitor, in a debug or a release build, returns what
    the checked decoder returns wherever the latter accepts the input; beyond
    that, a sixth byte is an [Overflow] error to the decoder and an
    arithmetic-overflow panic to the visitor of a debug build. *)
Theorem visitor_agrees_with_decoder :
  (forall checks bs r, VarInt_decode bs = Ok r -> VarInt_deserialize checks bs = Ok r) /\
  (forall checks bs r, LongVarInt_decode bs = Ok r -> LongVarInt_deserialize checks bs = Ok r) /\
  VarInt_decode (replicate 5 x80 ++ [x00]) = Err Overflow /\
  VarInt_deserialize true (replicate 5 x80 ++ [x00]) = Panic ArithmeticOverflow /\
  VarInt_deserialize false (replicate 5 x80 ++ [x00]) = Ok (0, []).
Proof.
  assert (Hgen : forall bits checks bs r, 0 < bits ->
    decode bits bs = Ok r -> deserialize checks bits bs = Ok r).
  { intros bits checks bs r Hb H. unfold decode, deserialize in *.
    apply rbind_Ok in H as ([a rest] & E & H).
    by rewrite (visit_decode_loop checks bits 0 0 bs (a, rest)) by (done || lia). }
  split; [intros; by apply Hgen|]. split; [intros; by apply Hgen|].
  split; [reflexivity|]. split; reflexivity.
Qed.

Lemma visitor_agrees_with_decoder_witness :
  VarInt_deserialize false [x07; x00] = Ok (-4, [x00]).
Proof. apply (proj1 visitor_agrees_with_decoder). reflexivity. Defined.
