(* ===== verification/Records.v ===== *)
(** * Records: keys, values, headers and records

    [tansu-sans-io/src/record/codec.rs] ([Octets], [VarIntSequence]),
    [record/header.rs] ([Header]) and [record.rs] ([Record] and its builder):
    the encoders, the sizes they announce, and the decoders an uncompressed
    batch is read with, including where these panic. *)

From S2P Require Export Varint.
Import Varint.

(** [VarInt::try_from(usize)]. *)
Definition VarInt_try_from (n : nat) : result Z :=
  if in_i32 (Z.of_nat n) then Ok (Z.of_nat n) else Err TryFromInt.

(** ** Octets: nullable bytes *)

Module Octets.

Definition size_in_bytes (o : option bytes) : result nat :=
  match o with
  | None => Ok (VarInt_size (-1))
  | Some bs => let! v := VarInt_try_from (length bs) in Ok (VarInt_size v + length bs)%nat
  end.

Definition encode (o : option bytes) : result bytes :=
  match o with
  | None => Ok (VarInt_encode (-1))
  | Some data =>
      let! _ := size_in_bytes o in
      let! len := VarInt_try_from (length data) in
      Ok (VarInt_encode len ++ data)
  end.

(** [Bytes::split_to(length as usize)]: panics past the end; a negative
    [length] is an enormous [usize]. *)
Definition split_to (len : Z) : reader bytes :=
  fun bs =>
    if (0 <=? len) && (len <=? Z.of_nat (length bs))
    then Ok (take (Z.to_nat len) bs, drop (Z.to_nat len) bs)
    else Panic SliceOutOfRange.

Definition decode : reader (option bytes) :=
  read! len := VarInt_decode in
  if len =? -1 then ret None
  else read! bs := split_to len in ret (Some bs).

(** The serde visitor: the length, then as many [u8] elements. *)
Definition deserialize (checks : bool) : reader (option bytes) :=
  read! len := VarInt_deserialize checks in
  if len =? -1 then ret None
  else if len <? 0 then fail (Message "TryFromIntError")
  else read! bs := take_n Io (Z.to_nat len) in ret (Some bs).

End Octets.

(** ** VarIntSequence: a counted sequence *)

Module VarIntSequence.
Section sequence.
Context {A : Type} (item_size : A -> result nat) (item_encode : A -> result bytes)
        (item_decode : reader A).

Fixpoint sizes (acc : nat) (l : list A) : result nat :=
  match l with
  | [] => Ok acc
  | t :: l => let! tlen := item_size t in sizes (acc + tlen) l
  end.

Definition size_in_bytes (l : list A) : result nat :=
  let! vlen := VarInt_try_from (length l) in sizes (VarInt_size vlen) l.

Fixpoint encodes (l : list A) : result bytes :=
  match l with
  | [] => Ok []
  | i :: l => let! b := item_encode i in let! bs := encodes l in Ok (b ++ bs)
  end.

Definition encode (l : list A) : result bytes :=
  let! _ := size_in_bytes l in
  let! len := VarInt_try_from (length l) in
  let! items := encodes l in
  Ok (VarInt_encode len ++ items).

(** [Vec::with_capacity(length as usize)] panics when [length] is negative:
    the capacity in bytes exceeds [isize::MAX]. *)
Definition decode : reader (list A) :=
  read! len := VarInt_decode in
  if len <? 0 then fun _ => Panic CapacityOverflow
  else read_n (Z.to_nat len) item_decode.

Definition deserialize (checks : bool) : reader (list A) :=
  read! len := VarInt_deserialize checks in
  if len <? 0 then fail (Message "length")
  else read_n (Z.to_nat len) item_decode.
End sequence.
End VarIntSequence.

(** ** Header *)

Module Header.

Record t := mk { key : option bytes; value : option bytes }.

Definition size_in_bytes (h : t) : result nat :=
  let! key_octets := Octets.size_in_bytes (key h) in
  let! value_octets := Octets.size_in_bytes (value h) in
  Ok (key_octets + value_octets)%nat.

Definition encode (h : t) : result bytes :=
  let! _ := size_in_bytes h in
  let! k := Octets.encode (key h) in
  let! v := Octets.encode (value h) in
  Ok (k ++ v).

Definition decode : reader t :=
  read! k := Octets.decode in
  read! v := Octets.decode in
  ret (mk k v).

Definition deserialize (checks : bool) : reader t :=
  read! k := Octets.deserialize checks in
  read! v := Octets.deserialize checks in
  ret (mk k v).

End Header.

#[export] Instance header_eq_dec : EqDecision Header.t.
Proof. solve_decision. Defined.

(** ** Record *)

Module Record.

Record t := mk {
  length : Z;
  attributes : Z;
  timestamp_delta : Z;
  offset_delta : Z;
  key : option bytes;
  value : option bytes;
  headers : list Header.t;
}.

(** What [Builder] sizes: everything but the length prefix. *)
Definition builder_size (r : t) : result nat :=
  let! k := Octets.size_in_bytes (key r) in
  let! v := Octets.size_in_bytes (value r) in
  let! h := VarIntSequence.size_in_bytes Header.size_in_bytes (headers r) in
  Ok (1 + LongVarInt_size (timestamp_delta r) + VarInt_size (offset_delta r) + k + v + h)%nat.

(** [Builder::from(record)] followed by [build]: the length is recomputed. *)
Definition rebuild (r : t) : result t :=
  let! sz := builder_size r in
  if in_i32 (Z.of_nat sz)
  then Ok (mk (Z.of_nat sz) (attributes r) (timestamp_delta r) (offset_delta r)
             (key r) (value r) (headers r))
  else Err TryFromInt.

Definition size_in_bytes (r : t) : result nat :=
  let! k := Octets.size_in_bytes (key r) in
  let! v := Octets.size_in_bytes (value r) in
  let! h := VarIntSequence.size_in_bytes Header.size_in_bytes (headers r) in
  Ok (VarInt_size (length r) + 1 + LongVarInt_size (timestamp_delta r)
      + VarInt_size (offset_delta r) + k + v + h)%nat.

Definition encode (r : t) : result bytes :=
  let! _ := size_in_bytes r in
  let! k := Octets.encode (key r) in
  let! v := Octets.encode (value r) in
  let! h := VarIntSequence.encode Header.size_in_bytes Header.encode (headers r) in
  Ok (VarInt_encode (length r) ++ put_int U8 (attributes r)
      ++ LongVarInt_encode (timestamp_delta r) ++ VarInt_encode (offset_delta r)
      ++ k ++ v ++ h).

(** [Buf::get_u8]: panics on an empty buffer. *)
Definition get_u8 : reader Z :=
  fun bs => match bs with [] => Panic GetPastEnd | b :: rest => Ok (Z_of_byte b, rest) end.

Definition decode : reader t :=
  read! len := VarInt_decode in
  read! attributes := get_u8 in
  read! timestamp_delta := LongVarInt_decode in
  read! offset_delta := VarInt_decode in
  read! key := Octets.decode in
  read! value := Octets.decode in
  read! headers := VarIntSequence.decode Header.decode in
  ret (mk len attributes timestamp_delta offset_delta key value headers).

(** The derived [Deserialize], as [Decoder] drives it over the bytes an
    inflator yields. *)
Definition deserialize (checks : bool) : reader t :=
  read! len := VarInt_deserialize checks in
  read! attributes := get_int Io U8 in
  read! timestamp_delta := LongVarInt_deserialize checks in
  read! offset_delta := VarInt_deserialize checks in
  read! key := Octets.deserialize checks in
  read! value := Octets.deserialize checks in
  read! headers := VarIntSequence.deserialize (Header.deserialize checks) checks in
  ret (mk len attributes timestamp_delta offset_delta key value headers).

Definition is_tombstone (r : t) : bool :=
  match key r, value r with Some _, None => true | _, _ => false end.

(** [Encode for &[Record]]. *)
Definition encode_all (rs : list t) : result bytes :=
  let! _ := VarIntSequence.sizes size_in_bytes 0 rs in
  VarIntSequence.encodes encode rs.

(** The records a Rust [Record] can hold: every field in its type. *)
Definition typed (r : t) : bool :=
  in_i32 (length r) && in_u8 (attributes r) && in_i64 (timestamp_delta r)
  && in_i32 (offset_delta r).

End Record.

#[export] Instance record_eq_dec : EqDecision Record.t.
Proof. solve_decision. Defined.

(** ** Round trips *)

(** An encoder [enc] with announced size [sz] and decoder [dec], over the
    values [ok]: what every field of a record offers the record. *)
Class Codec {A} (sz : A -> result nat) (enc : A -> result bytes) (dec : reader A)
    (ok : A -> Prop) : Prop := {
  codec_roundtrip : forall a bs rest, ok a -> enc a = Ok bs -> dec (bs ++ rest) = Ok (a, rest);
  codec_size : forall a bs, ok a -> enc a = Ok bs -> sz a = Ok (List.length bs);
}.

Lemma VarInt_try_from_Ok n z : VarInt_try_from n = Ok z -> z = Z.of_nat n /\ in_i32 z = true.
Proof. unfold VarInt_try_from. case_match; [|done]. by intros [= <-]. Qed.

Lemma split_to_app bs rest : Octets.split_to (Z.of_nat (length bs)) (bs ++ rest) = Ok (bs, rest).
Proof.
  unfold Octets.split_to. rewrite length_app.
  rewrite (proj2 (Z.leb_le 0 _)), (proj2 (Z.leb_le _ _)) by lia. cbn [andb].
  by rewrite Nat2Z.id, take_app_length, drop_app_length.
Qed.

#[export] Instance Octets_codec :
  Codec Octets.size_in_bytes Octets.encode Octets.decode (fun _ => True).
Proof.
  split; intros [data|] bs; unfold Octets.encode.
  - intros rest _ H. inv_ok.
    match goal with E : VarInt_try_from _ = _ |- _ => apply VarInt_try_from_Ok in E as [-> Hr] end.
    unfold Octets.decode. rewrite <- app_assoc.
    erewrite bind_Ok by (by apply decode_encode).
    rewrite (proj2 (Z.eqb_neq _ _)) by lia.
    by rewrite (bind_Ok _ _ _ _ _ (split_to_app data rest)).
  - intros rest _ H. inv_ok. unfold Octets.decode. by erewrite bind_Ok by (by apply decode_encode).
  - intros _ H. inv_ok. match goal with E : VarInt_try_from _ = _ |- _ =>
      pose proof E as E'; apply VarInt_try_from_Ok in E' as [-> Hr] end.
    cbn. rewrite E0. cbn. rewrite length_app. by rewrite length_VarInt.
  - intros _ H. inv_ok. done.
Qed.

Section sequence.
Context {A : Type} (sz : A -> result nat) (enc : A -> result bytes) (dec : reader A)
        (ok : A -> Prop) `{HC : Codec A sz enc dec ok}.

Lemma encodes_roundtrip l bs rest :
  Forall ok l -> VarIntSequence.encodes enc l = Ok bs ->
  read_n (length l) dec (bs ++ rest) = Ok (l, rest).
Proof using HC.
  intros Hl. revert bs. induction Hl as [|x l Hx Hl IH]; intros bs H; cbn in *; inv_ok; [done|].
  rewrite <- app_assoc. rewrite (bind_Ok _ _ _ _ _ (codec_roundtrip _ _ (a0 ++ rest) Hx E)).
  by erewrite bind_Ok by (by apply IH).
Qed.

Lemma encodes_size l bs acc :
  Forall ok l -> VarIntSequence.encodes enc l = Ok bs ->
  VarIntSequence.sizes sz acc l = Ok (acc + length bs)%nat.
Proof using HC.
  intros Hl. revert bs acc. induction Hl as [|x l Hx Hl IH]; intros bs acc H; cbn in *; inv_ok.
  - cbn. f_equal. lia.
  - rewrite (codec_size _ _ Hx E). cbn. erewrite IH by done. rewrite length_app. f_equal. lia.
Qed.

#[export] Instance VarIntSequence_codec :
  Codec (VarIntSequence.size_in_bytes sz) (VarIntSequence.encode sz enc)
    (VarIntSequence.decode dec) (Forall ok).
Proof using HC.
  split; intros l bs; unfold VarIntSequence.encode.
  - intros rest Hl H. inv_ok.
    match goal with E : VarInt_try_from _ = _ |- _ => apply VarInt_try_from_Ok in E as [-> Hr] end.
    unfold VarIntSequence.decode. rewrite <- app_assoc.
    erewrite bind_Ok by (by apply decode_encode).
    rewrite (proj2 (Z.ltb_ge _ _)) by lia. rewrite Nat2Z.id. by apply encodes_roundtrip.
  - intros Hl H. inv_ok. unfold VarIntSequence.size_in_bytes. rewrite E0. cbn.
    apply VarInt_try_from_Ok in E0 as [-> Hr].
    erewrite encodes_size by done. rewrite length_app. by rewrite length_VarInt.
Qed.
End sequence.

Lemma headers_ok (l : list Header.t) : Forall (fun _ => True) l.
Proof. by apply Forall_true. Qed.

(** Rewrite an announced size to the length written. *)
Ltac codec_sizes :=
  repeat match goal with
  | E : Octets.encode ?o = Ok _ |- context [Octets.size_in_bytes ?o] =>
      rewrite (codec_size o _ I E); cbn [rbind]
  | E : VarIntSequence.encode Header.size_in_bytes Header.encode ?o = Ok _
    |- context [VarIntSequence.size_in_bytes Header.size_in_bytes ?o] =>
      rewrite (codec_size o _ (headers_ok o) E); cbn [rbind]
  end.

#[export] Instance Header_codec :
  Codec Header.size_in_bytes Header.encode Header.decode (fun _ => True).
Proof.
  split; intros [k v] bs; unfold Header.encode; cbn [Header.key Header.value].
  - intros rest _ H. inv_ok. unfold Header.decode. rewrite <- app_assoc.
    do 2 (erewrite bind_Ok by (by eapply codec_roundtrip)). done.
  - intros _ H. inv_ok. unfold Header.size_in_bytes. cbn [Header.key Header.value].
    rewrite length_app. by codec_sizes.
Qed.

Lemma get_u8_put z rest : in_u8 z = true -> Record.get_u8 (put_int U8 z ++ rest) = Ok (z, rest).
Proof.
  intros H%u_range_spec. cbn. f_equal. f_equal. rewrite Z_of_byte_of_Z.
  apply Z.mod_small. done.
Qed.

#[export] Instance Record_codec :
  Codec Record.size_in_bytes Record.encode Record.decode (fun r => Record.typed r = true).
Proof.
  split; intros r bs; unfold Record.encode, Record.typed.
  - intros rest Ht H. bool_prop. inv_ok. unfold Record.decode. rewrite <- !app_assoc.
    rewrite (bind_Ok _ _ _ _ _ (decode_encode 32 _ _ ltac:(lia) H0)).
    rewrite (bind_Ok _ _ _ _ _ (get_u8_put _ _ H3)).
    rewrite (bind_Ok _ _ _ _ _ (decode_encode 64 _ _ ltac:(lia) H2)).
    rewrite (bind_Ok _ _ _ _ _ (decode_encode 32 _ _ ltac:(lia) H1)).
    do 2 (erewrite bind_Ok by (by eapply codec_roundtrip)).
    erewrite bind_Ok by (eapply codec_roundtrip; [apply headers_ok|done]).
    by destruct r.
  - intros Ht H. bool_prop. inv_ok. unfold Record.size_in_bytes.
    codec_sizes. cbn [rbind].
    rewrite !length_app, length_put_int, !length_VarInt, length_LongVarInt by done. f_equal. cbn. lia.
Qed.

(** ** The serde path refines the panicking decoder *)

(** [r2] accepts what [r1] accepts, with the same result. *)
Definition refines {A} (r1 r2 : reader A) : Prop :=
  forall bs a rest, r1 bs = Ok (a, rest) -> r2 bs = Ok (a, rest).

Lemma refines_bind {A B} (r1 r2 : reader A) (f1 f2 : A -> reader B) :
  refines r1 r2 -> (forall a, refines (f1 a) (f2 a)) -> refines (bind r1 f1) (bind r2 f2).
Proof.
  intros Hr Hf bs b rest H. unfold bind in *. apply rbind_Ok in H as ([a bs'] & E & H).
  rewrite (Hr _ _ _ E). cbn [rbind]. by apply Hf.
Qed.

Lemma refines_refl {A} (r : reader A) : refines r r.
Proof. by intros ?. Qed.

Lemma refines_read_n {A} n (r1 r2 : reader A) : refines r1 r2 -> refines (read_n n r1) (read_n n r2).
Proof.
  intros H. induction n; cbn; [apply refines_refl|].
  apply refines_bind; [done|]. intros a. by apply refines_bind; [|intros; apply refines_refl].
Qed.

Lemma refines_VarInt checks bits : 0 < bits -> refines (decode bits) (deserialize checks bits).
Proof.
  intros Hb bs a rest H. unfold decode, deserialize in *. apply rbind_Ok in H as ([x r] & E & H).
  by rewrite (visit_decode_loop checks bits 0 0 bs (x, r)) by (done || lia).
Qed.

Lemma refines_get_u8 : refines Record.get_u8 (get_int Io U8).
Proof.
  intros [|b bs] a rest; [done|]. cbn [Record.get_u8]. intros [= <- <-].
  pose proof (get_put_int Io U8 (Z_of_byte b) bs) as H.
  change (put_int U8 (Z_of_byte b)) with [byte_of_Z (Z_of_byte b)] in H.
  rewrite byte_of_Z_of_byte, cast_small in H; [done|]. apply u_range_spec, Z_of_byte_range.
Qed.

Lemma refines_split_to len : 0 <= len -> refines (Octets.split_to len) (take_n Io (Z.to_nat len)).
Proof.
  intros H0 bs a rest H. unfold Octets.split_to in H. case_match; [|done]. bool_prop. inv_ok.
  unfold take_n. destruct (Nat.ltb_spec (length bs) (Z.to_nat len)); [lia|done].
Qed.

Lemma refines_Octets checks : refines Octets.decode (Octets.deserialize checks).
Proof.
  apply refines_bind; [by apply refines_VarInt|]. intros len.
  destruct (Z.eqb_spec len (-1)); [apply refines_refl|].
  destruct (Z.ltb_spec len 0).
  - intros bs a rest Hb. unfold bind, Octets.split_to in Hb.
    by rewrite (proj2 (Z.leb_gt 0 len)) in Hb by lia.
  - apply refines_bind; [by apply refines_split_to|]. intros; apply refines_refl.
Qed.

Lemma refines_Header checks : refines Header.decode (Header.deserialize checks).
Proof. repeat (apply refines_bind; [apply refines_Octets|intros]). apply refines_refl. Qed.

Lemma refines_headers checks :
  refines (VarIntSequence.decode Header.decode)
    (VarIntSequence.deserialize (Header.deserialize checks) checks).
Proof.
  apply refines_bind; [by apply refines_VarInt|]. intros len. case_head; [by intros ?|].
  apply refines_read_n, refines_Header.
Qed.

Lemma refines_Record checks : refines Record.decode (Record.deserialize checks).
Proof.
  apply refines_bind; [by apply refines_VarInt|]. intros len.
  apply refines_bind; [apply refines_get_u8|]. intros attr.
  do 2 (apply refines_bind; [by apply refines_VarInt|]; intros).
  do 2 (apply refines_bind; [apply refines_Octets|]; intros).
  apply refines_bind; [apply refines_headers|]. intros; apply refines_refl.
Qed.

(** A reader that cannot panic. *)
Definition safe {A} (r : reader A) : Prop := forall bs p, r bs <> Panic p.

Lemma safe_bind {A B} (r : reader A) (f : A -> reader B) :
  safe r -> (forall a, safe (f a)) -> safe (bind r f).
Proof.
  intros Hr Hf bs p. unfold bind. destruct (r bs) as [[a rest]| |] eqn:E; cbn; [apply Hf|done|].
  by apply Hr in E.
Qed.

Lemma safe_ret {A} (a : A) : safe (ret a).
Proof. done. Qed.

Lemma safe_take_n e n : safe (take_n e n).
Proof. intros bs p. unfold take_n. by case_head. Qed.

Lemma safe_get_int e t : safe (get_int e t).
Proof. apply safe_bind; [apply safe_take_n|intros; apply safe_ret]. Qed.

Lemma safe_read_n {A} n (r : reader A) : safe r -> safe (read_n n r).
Proof.
  intros H. induction n; cbn; [apply safe_ret|].
  apply safe_bind; [done|]. intros. apply safe_bind; [done|]. intros; apply safe_ret.
Qed.

Lemma safe_visit bits : safe (deserialize false bits).
Proof.
  assert (Hl : forall bs acc s p, visit_loop false bits acc s bs <> Panic p).
  { induction bs as [|b bs IH]; intros; cbn; [done|]. case_head; [apply IH|done]. }
  intros bs p. unfold deserialize. destruct (visit_loop false bits 0 0 bs) as [[]| |] eqn:E; cbn; try done.
  by apply Hl in E.
Qed.

Lemma safe_Octets : safe (Octets.deserialize false).
Proof.
  apply safe_bind; [apply safe_visit|]. intros len. do 2 (case_head; [done|]).
  apply safe_bind; [apply safe_take_n|]. intros; apply safe_ret.
Qed.

Lemma safe_Header : safe (Header.deserialize false).
Proof. repeat (apply safe_bind; [apply safe_Octets|intros]). apply safe_ret. Qed.

Lemma safe_Record : safe (Record.deserialize false).
Proof.
  apply safe_bind; [apply safe_visit|]. intros.
  apply safe_bind; [apply safe_get_int|]. intros.
  do 2 (apply safe_bind; [apply safe_visit|intros]).
  do 2 (apply safe_bind; [apply safe_Octets|intros]).
  apply safe_bind; [|intros; apply safe_ret].
  apply safe_bind; [apply safe_visit|]. intros len. case_head; [done|].
  apply safe_read_n, safe_Header.
Qed.

Lemma rebuild_Ok r r' :
  Record.rebuild r = Ok r' ->
  exists sz, Record.builder_size r = Ok sz /\ Record.length r' = Z.of_nat sz /\
    in_i32 (Z.of_nat sz) = true /\
    r' = Record.mk (Z.of_nat sz) (Record.attributes r) (Record.timestamp_delta r)
           (Record.offset_delta r) (Record.key r) (Record.value r) (Record.headers r).
Proof.
  unfold Record.rebuild. intros H. inv_ok. case_match; [|done]. injection H as <-. eauto.
Qed.

(** ** Properties *)

(** Records survive the wire: whatever the encoder of an uncompressed
    record set produces, reading as many records back returns the same records
    in order and leaves the bytes that follow untouched, and the size
    announced for a record is the size written. *)
Theorem records_roundtrip (rs : list Record.t) (bs rest : bytes) :
  Forall (fun r => Record.typed r = true) rs ->
  Record.encode_all rs = Ok bs ->
  read_n (length rs) Record.decode (bs ++ rest) = Ok (rs, rest) /\
  VarIntSequence.sizes Record.size_in_bytes 0 rs = Ok (length bs).
Proof.
  intros Hrs H. unfold Record.encode_all in H. inv_ok. split.
  - by eapply encodes_roundtrip; [apply Record_codec|..].
  - by erewrite encodes_size by (done || apply Record_codec).
Qed.

Definition sample_record : Record.t :=
  Record.mk 12 0 (-5) 3 (Some (ascii_bytes "k")) None
    [Header.mk (Some (ascii_bytes "h")) (Some [])].

Lemma records_roundtrip_witness :
  read_n 1 Record.decode ([x18; x00; x09; x06; x02; x6b; x01; x02; x02; x68; x00] ++ [xff])
  = Ok ([sample_record], [xff]).
Proof.
  apply (proj1 (records_roundtrip [sample_record]
    [x18; x00; x09; x06; x02; x6b; x01; x02; x02; x68; x00] [xff]
    ltac:(by repeat constructor) ltac:(by vm_compute))).
Defined.

(** A record built by the builder carries the length Kafka's reader steps
    by: the number of encoded bytes that follow the length prefix. *)
Theorem record_length_prefix (r r' : Record.t) (bs : bytes) :
  Record.typed r = true -> Record.rebuild r = Ok r' -> Record.encode r' = Ok bs ->
  exists body, bs = VarInt_encode (Record.length r') ++ body /\
    Record.length r' = Z.of_nat (length body).
Proof.
  intros Ht Hr Henc. apply rebuild_Ok in Hr as (sz & Hsz & _ & Hfit & ->).
  unfold Record.typed in Ht. bool_prop. unfold Record.encode in Henc.
  cbn [Record.length Record.attributes Record.timestamp_delta Record.offset_delta Record.key
    Record.value Record.headers] in *. inv_ok.
  eexists. split; [done|]. f_equal. unfold Record.builder_size in Hsz.
  revert Hsz. codec_sizes. cbn [rbind]. intros [= <-].
  rewrite !length_app, length_put_int, length_VarInt, length_LongVarInt by done. cbn. lia.
Qed.

Lemma record_length_prefix_witness :
  exists body, [x14; x00; x09; x06; x02; x6b; x01; x02; x02; x68; x00]
                 = VarInt_encode 10 ++ body /\ 10 = Z.of_nat (length body).
Proof.
  apply (record_length_prefix sample_record
           (Record.mk 10 0 (-5) 3 (Some (ascii_bytes "k")) None
              [Header.mk (Some (ascii_bytes "h")) (Some [])])); by vm_compute.
Defined.

(** Malformed uncompressed records panic instead of failing: a record cut
    after its length prefix panics in [get_u8], a key length beyond the buffer
    or below minus one in [split_to], and a negative header count in
    [Vec::with_capacity]. *)
Theorem malformed_record_panics (len ts od k : Z) (rest : bytes) :
  in_i32 len = true -> in_i64 ts = true -> in_i32 od = true -> in_i32 k = true ->
  let prefix := VarInt_encode len ++ put_int U8 0 ++ LongVarInt_encode ts ++ VarInt_encode od in
  Record.decode (VarInt_encode len) = Panic GetPastEnd /\
  (k < -1 \/ Z.of_nat (length rest) < k ->
   Record.decode (prefix ++ VarInt_encode k ++ rest) = Panic SliceOutOfRange) /\
  (k < 0 ->
   Record.decode (prefix ++ VarInt_encode (-1) ++ VarInt_encode (-1) ++ VarInt_encode k ++ rest)
   = Panic CapacityOverflow).
Proof.
  intros Hl Ht Ho Hk prefix.
  assert (Hpre : forall tail, Record.decode (prefix ++ tail) =
    (read! key := Octets.decode in read! value := Octets.decode in
     read! headers := VarIntSequence.decode Header.decode in
     ret (Record.mk len 0 ts od key value headers)) tail).
  { intros tail. unfold prefix, Record.decode. rewrite <- !app_assoc.
    rewrite (bind_Ok _ _ _ _ _ (decode_encode 32 _ _ ltac:(lia) Hl)).
    rewrite (bind_Ok _ _ _ _ _ (get_u8_put 0 _ eq_refl)).
    rewrite (bind_Ok _ _ _ _ _ (decode_encode 64 _ _ ltac:(lia) Ht)).
    by rewrite (bind_Ok _ _ _ _ _ (decode_encode 32 _ _ ltac:(lia) Ho)). }
  assert (Hoct : Octets.encode None = Ok (VarInt_encode (-1))) by done.
  split; [|split].
  - unfold Record.decode. rewrite <- (app_nil_r (VarInt_encode len)).
    by rewrite (bind_Ok _ _ _ _ _ (decode_encode 32 _ _ ltac:(lia) Hl)).
  - intros Hbad. rewrite Hpre. unfold Octets.decode at 1. unfold bind at 1. unfold bind at 1.
    rewrite (decode_encode 32 _ _ ltac:(lia) Hk). cbn [rbind].
    rewrite (proj2 (Z.eqb_neq _ _)) by lia. unfold bind at 1, Octets.split_to.
    assert (((0 <=? k) && (k <=? Z.of_nat (length rest))) = false) as ->; [|done].
    apply andb_false_iff. rewrite Z.leb_gt, Z.leb_gt. lia.
  - intros Hneg. rewrite Hpre.
    do 2 rewrite (bind_Ok _ _ _ _ _ (codec_roundtrip None _ _ I Hoct)).
    unfold VarIntSequence.decode, bind at 1. unfold bind at 1.
    rewrite (decode_encode 32 _ _ ltac:(lia) Hk). cbn [rbind].
    by rewrite (proj2 (Z.ltb_lt _ _)) by lia.
Qed.

Lemma malformed_record_panics_witness :
  Record.decode (VarInt_encode 7) = Panic GetPastEnd.
Proof. apply (malformed_record_panics 7 0 0 0 [] eq_refl eq_refl eq_refl eq_refl). Defined.

(** The two record decoders agree, and only one can fail cleanly: every
    record set the [Decode] path accepts is read identically by the serde path,
    and in a release build no input whatever makes the serde path panic. *)
Theorem record_decoders_agree (checks : bool) (n : nat) (bs rest : bytes) (rs : list Record.t) :
  (read_n n Record.decode bs = Ok (rs, rest) ->
   read_n n (Record.deserialize checks) bs = Ok (rs, rest)) /\
  (forall p, read_n n (Record.deserialize false) bs <> Panic p).
Proof.
  split; [apply refines_read_n, refines_Record|]. apply safe_read_n, safe_Record.
Qed.

Lemma record_decoders_agree_witness :
  read_n 1 (Record.deserialize true) [x14; x00; x09; x06; x02; x6b; x01; x02; x02; x68; x00; xff]
  = Ok ([Record.mk 10 0 (-5) 3 (Some (ascii_bytes "k")) None
           [Header.mk (Some (ascii_bytes "h")) (Some [])]], [xff]).
Proof. apply record_decoders_agree. by vm_compute. Defined.
