(* ===== verification/Batch.v ===== *)
(** * Batch: record batches, deflated and inflated

    [tansu-sans-io/src/record/deflated.rs] and [record/inflated.rs], with the
    batch attributes of [tansu-sans-io/src/lib.rs] and [combine] of
    [tansu-storage/src/batch.rs]: the v2 RecordBatch framing, its CRC range, the
    pre-v2 husk, the conversions between the two forms, per-key compaction of a
    batch, and the merging of queued batches.

    The CRC-32C digest and the gzip, snappy, lz4 and zstd codecs are libraries:
    they are parameters. *)

From S2P Require Export Records.
Import Varint.

(** ** Attributes *)

Inductive Compression := NoCompression | Gzip | Snappy | Lz4 | Zstd.
Inductive TimestampType := CreateTime | LogAppendTime.

#[export] Instance compression_eq_dec : EqDecision Compression.
Proof. solve_decision. Defined.

Definition Compression_try_from (value : Z) : result Compression :=
  match Z.land value 7 with
  | 0 => Ok NoCompression
  | 1 => Ok Gzip
  | 2 => Ok Snappy
  | 3 => Ok Lz4
  | 4 => Ok Zstd
  | _ => Err (Message "UnknownCompressionType")
  end.

Definition Compression_into (c : Compression) : Z :=
  match c with NoCompression => 0 | Gzip => 1 | Snappy => 2 | Lz4 => 3 | Zstd => 4 end.

Definition TimestampType_from (value : Z) : TimestampType :=
  if Z.land value 8 =? 8 then LogAppendTime else CreateTime.

Definition TimestampType_into (t : TimestampType) : Z :=
  match t with CreateTime => 0 | LogAppendTime => 8 end.

Record BatchAttribute := {
  compression : Compression;
  timestamp : TimestampType;
  transaction : bool;
  control : bool;
  delete_horizon : bool;
}.

Definition BatchAttribute_into (a : BatchAttribute) : Z :=
  let attributes := Compression_into (compression a) in
  let attributes := Z.lor attributes (TimestampType_into (timestamp a)) in
  let attributes := if transaction a then Z.lor attributes 16 else attributes in
  let attributes := if control a then Z.lor attributes 32 else attributes in
  if delete_horizon a then Z.lor attributes 64 else attributes.

Definition BatchAttribute_try_from (value : Z) : result BatchAttribute :=
  let! c := Compression_try_from value in
  Ok {| compression := c;
        timestamp := TimestampType_from value;
        transaction := Z.land value 16 =? 16;
        control := Z.land value 32 =? 32;
        delete_horizon := Z.land value 64 =? 64 |}.

Definition with_compression (c : Compression) (a : BatchAttribute) : BatchAttribute :=
  {| compression := c; timestamp := timestamp a; transaction := transaction a;
     control := control a; delete_horizon := delete_horizon a |}.

(** The bytes [Compression::inflator] hands to the raw snappy decoder: past the
    twenty-byte xerial header when the magic is there.  [split_at] and the
    slice panic when the input ends inside that header. *)
Definition SNAPPY_MAGIC : bytes := [x82; x53; x4e; x41; x50; x50; x59; x00].
Definition snappy_payload (input : bytes) : result bytes :=
  if bool_decide (take 8 input = SNAPPY_MAGIC) then
    if (length input <? 20)%nat then Panic SliceOutOfRange else Ok (drop 20 input)
  else Ok input.

(** ** Deflated batches *)

Definition FIXED_BATCH_LENGTH : Z := 4 + 1 + 4 + 2 + 4 + 8 + 8 + 8 + 2 + 4 + 4.
Definition MAGIC_RECORD_BATCH_V2 : Z := 2.

Module Deflated.

Record Batch := mk {
  base_offset : Z;
  batch_length : Z;
  partition_leader_epoch : Z;
  magic : Z;
  crc : Z;
  attributes : Z;
  last_offset_delta : Z;
  base_timestamp : Z;
  max_timestamp : Z;
  producer_id : Z;
  producer_epoch : Z;
  base_sequence : Z;
  record_count : Z;
  record_data : bytes;
}.

(** Every field within its Rust type. *)
Definition typed (b : Batch) : bool :=
  in_i64 (base_offset b) && in_i32 (batch_length b) && in_i32 (partition_leader_epoch b)
  && in_i8 (magic b) && in_u32 (crc b) && in_i16 (attributes b)
  && in_i32 (last_offset_delta b) && in_i64 (base_timestamp b) && in_i64 (max_timestamp b)
  && in_i64 (producer_id b) && in_i16 (producer_epoch b) && in_i32 (base_sequence b)
  && in_u32 (record_count b).

(** [From<Batch> for Bytes]. *)
Definition to_bytes (b : Batch) : bytes :=
  put_int I64 (base_offset b) ++ put_int I32 (batch_length b)
  ++ put_int I32 (partition_leader_epoch b) ++ put_int I8 (magic b) ++ put_int U32 (crc b)
  ++ put_int I16 (attributes b) ++ put_int I32 (last_offset_delta b)
  ++ put_int I64 (base_timestamp b) ++ put_int I64 (max_timestamp b)
  ++ put_int I64 (producer_id b) ++ put_int I16 (producer_epoch b)
  ++ put_int I32 (base_sequence b) ++ put_int U32 (record_count b) ++ record_data b.

(** The batch returned for a pre-v2 message set. *)
Definition husk (base_offset batch_length magic : Z) : Batch :=
  mk base_offset batch_length 0 magic 0 0 0 0 0 0 0 0 0 [].

(** [TryFrom<Bytes>], as a reader.  A CRC mismatch is logged, not refused. *)
Definition read_batch : reader Batch :=
  read! base_offset := get_int TryGet I64 in
  read! batch_length := get_int TryGet I32 in
  read! partition_leader_epoch := get_int TryGet I32 in
  read! magic := get_int TryGet I8 in
  if negb (magic =? MAGIC_RECORD_BATCH_V2) then ret (husk base_offset batch_length magic)
  else
  read! crc := get_int TryGet U32 in
  read! len := remaining in
  if batch_length <? 0 then fail TryFromInt
  else if batch_length <? 4 + 1 + 4 then fail Overflow
  else if Z.of_nat len <? batch_length - (4 + 1 + 4) then fail Overflow
  else
  read! attributes := get_int TryGet I16 in
  read! last_offset_delta := get_int TryGet I32 in
  read! base_timestamp := get_int TryGet I64 in
  read! max_timestamp := get_int TryGet I64 in
  read! producer_id := get_int TryGet I64 in
  read! producer_epoch := get_int TryGet I16 in
  read! base_sequence := get_int TryGet I32 in
  read! record_count := get_int TryGet U32 in
  if batch_length <? FIXED_BATCH_LENGTH then fail Overflow
  else
  read! record_data := take_n Overflow (Z.to_nat (batch_length - FIXED_BATCH_LENGTH)) in
  ret (mk base_offset batch_length partition_leader_epoch magic crc attributes
         last_offset_delta base_timestamp max_timestamp producer_id producer_epoch
         base_sequence record_count record_data).

Definition try_from (encoded : bytes) : result Batch :=
  rmap fst (read_batch encoded).

(** The bytes the decoder digests: [encoded[..crc_data_size]] after the crc. *)
Definition decoder_crc_data (encoded : bytes) (batch_length : Z) : bytes :=
  take (Z.to_nat (batch_length - (4 + 1 + 4))) (drop (8 + 4 + 4 + 1 + 4) encoded).

Definition is_record_batch_v2 (b : Batch) : bool := magic b =? MAGIC_RECORD_BATCH_V2.

Definition wire_size (b : Batch) : Z :=
  8 + 4 + FIXED_BATCH_LENGTH + Z.of_nat (length (record_data b)).

Definition is_transactional (b : Batch) : bool := Z.land (attributes b) 16 =? 16.
Definition is_control (b : Batch) : bool := Z.land (attributes b) 32 =? 32.
Definition is_idempotent (b : Batch) : bool :=
  negb (producer_id b =? -1) && negb (base_sequence b =? -1).
Definition max_offset (b : Batch) : Z := base_offset b + last_offset_delta b.

Definition encoded_batch_length (b : Batch) : result Z :=
  let n := FIXED_BATCH_LENGTH + Z.of_nat (length (record_data b)) in
  if in_i32 n then Ok n else Err TryFromInt.

Definition declares_its_own_length (b : Batch) : bool :=
  match encoded_batch_length b with
  | Ok encoded => encoded =? batch_length b
  | _ => false
  end.

(** The part of a batch its CRC covers. *)
Record CrcData := {
  crc_attributes : Z;
  crc_last_offset_delta : Z;
  crc_base_timestamp : Z;
  crc_max_timestamp : Z;
  crc_producer_id : Z;
  crc_producer_epoch : Z;
  crc_base_sequence : Z;
  crc_record_count : Z;
  crc_record_data : bytes;
}.

Definition CrcData_from (b : Batch) : CrcData :=
  {| crc_attributes := attributes b; crc_last_offset_delta := last_offset_delta b;
     crc_base_timestamp := base_timestamp b; crc_max_timestamp := max_timestamp b;
     crc_producer_id := producer_id b; crc_producer_epoch := producer_epoch b;
     crc_base_sequence := base_sequence b; crc_record_count := record_count b;
     crc_record_data := record_data b |}.

(** [TryFrom<&CrcData> for Bytes]: the digested range. *)
Definition CrcData_bytes (d : CrcData) : bytes :=
  put_int I16 (crc_attributes d) ++ put_int I32 (crc_last_offset_delta d)
  ++ put_int I64 (crc_base_timestamp d) ++ put_int I64 (crc_max_timestamp d)
  ++ put_int I64 (crc_producer_id d) ++ put_int I16 (crc_producer_epoch d)
  ++ put_int I32 (crc_base_sequence d) ++ put_int U32 (crc_record_count d)
  ++ crc_record_data d.

Definition compression (b : Batch) : result Compression := Compression_try_from (attributes b).

(** Block independence is bit 5 of FLG, the byte after the frame magic. *)
Definition has_dependent_lz4_blocks (b : Batch) : bool :=
  match compression b, record_data b with
  | Ok Lz4, m0 :: m1 :: m2 :: m3 :: flg :: _ =>
      bool_decide ([m0; m1; m2; m3] = [x04; x22; x4d; x18])
      && (Z.land (Z_of_byte flg) 32 =? 0)
  | _, _ => false
  end.

Section crc.
Context (crc32c : bytes -> Z).

(** [CrcData::crc]: the digest, truncated to [u32]. *)
Definition CrcData_crc (d : CrcData) : Z := wrap_u 32 (crc32c (CrcData_bytes d)).

Definition computed_crc (b : Batch) : Z := CrcData_crc (CrcData_from b).
Definition crc_matches (b : Batch) : bool := computed_crc b =? crc b.

Definition into_batch (d : CrcData) (base_offset partition_leader_epoch magic : Z)
    : result Batch :=
  let n := FIXED_BATCH_LENGTH + Z.of_nat (length (crc_record_data d)) in
  if in_i32 n then
    Ok (mk base_offset n partition_leader_epoch magic (CrcData_crc d) (crc_attributes d)
          (crc_last_offset_delta d) (crc_base_timestamp d) (crc_max_timestamp d)
          (crc_producer_id d) (crc_producer_epoch d) (crc_base_sequence d)
          (crc_record_count d) (crc_record_data d))
  else Err TryFromInt.
End crc.

End Deflated.

#[export] Instance deflated_eq_dec : EqDecision Deflated.Batch.
Proof. solve_decision. Defined.

(** ** Inflated batches *)

Module Inflated.

Record Batch := mk {
  base_offset : Z;
  batch_length : Z;
  partition_leader_epoch : Z;
  magic : Z;
  crc : Z;
  attributes : Z;
  last_offset_delta : Z;
  base_timestamp : Z;
  max_timestamp : Z;
  producer_id : Z;
  producer_epoch : Z;
  base_sequence : Z;
  records : list Record.t;
}.

Definition set_records (b : Batch) (rs : list Record.t) : Batch :=
  mk (base_offset b) (batch_length b) (partition_leader_epoch b) (magic b) (crc b)
    (attributes b) (last_offset_delta b) (base_timestamp b) (max_timestamp b)
    (producer_id b) (producer_epoch b) (base_sequence b) rs.

(** [UnsignedVarInt::size_inclusive] of a record builder, as
    [Sequence::size_in_bytes] sums it. *)
Definition size_inclusive (r : Record.t) : result nat :=
  let! size := Record.builder_size r in
  if in_u32 (Z.of_nat size) then Ok (UnsignedVarInt_size (Z.of_nat size) + size)%nat
  else Err TryFromInt.

(** [ByteSize for Builder]. *)
Definition builder_size (b : Batch) : result nat :=
  let! records_size := VarIntSequence.sizes size_inclusive 4 (records b) in
  Ok (4 + 1 + 4 + 2 + 4 + 8 + 8 + 8 + 2 + 4 + records_size)%nat.

Fixpoint rebuild_all (rs : list Record.t) : result (list Record.t) :=
  match rs with
  | [] => Ok []
  | r :: rs =>
      let! r := Record.rebuild r in
      let! rs := rebuild_all rs in
      Ok (r :: rs)
  end.

Section codecs.
(** [crc32c] is the CRC-32C digest; [inflate c] yields the bytes the
    decompressor of [c] produces before its stream ends or fails; [deflate c]
    is its compressor. *)
Context (crc32c : bytes -> Z) (inflate deflate : Compression -> bytes -> result bytes)
        (checks : bool).

(** [Builder::crc]. *)
Definition builder_crc (b : Batch) : result Z :=
  let! rs := rebuild_all (records b) in
  let! data := VarIntSequence.encodes Record.encode rs in
  Ok (wrap_u 32 (crc32c (
    put_int I16 (attributes b) ++ put_int I32 (last_offset_delta b)
    ++ put_int I64 (base_timestamp b) ++ put_int I64 (max_timestamp b)
    ++ put_int I64 (producer_id b) ++ put_int I16 (producer_epoch b)
    ++ put_int I32 (base_sequence b) ++ put_int U32 (Z.of_nat (length rs)) ++ data))).

(** [into_builder().build()]. *)
Definition build (b : Batch) : result Batch :=
  let! size := builder_size b in
  if negb (in_i32 (Z.of_nat size)) then Err TryFromInt
  else
  let! c := builder_crc b in
  let! rs := rebuild_all (records b) in
  Ok (mk (base_offset b) (Z.of_nat size) (partition_leader_epoch b) (magic b) c
        (attributes b) (last_offset_delta b) (base_timestamp b) (max_timestamp b)
        (producer_id b) (producer_epoch b) (base_sequence b) rs).

Definition inflator (c : Compression) (data : bytes) : result bytes :=
  match c with
  | NoCompression => Ok data
  | Snappy => let! payload := snappy_payload data in inflate Snappy payload
  | _ => inflate c data
  end.

(** [TryFrom<&deflated::Batch> for Vec<Record>]. *)
Definition records_of_ref (d : Deflated.Batch) : result (list Record.t) :=
  let! c := Deflated.compression d in
  let! data := inflator c (Deflated.record_data d) in
  let! (rs, _) := read_n (Z.to_nat (Deflated.record_count d)) (Record.deserialize checks) data in
  Ok rs.

(** [TryFrom<deflated::Batch> for Vec<Record>]. *)
Definition records_of (d : Deflated.Batch) : result (list Record.t) :=
  if bool_decide (Deflated.compression d = Ok NoCompression) then
    let! (rs, _) := read_n (Z.to_nat (Deflated.record_count d)) Record.decode
                      (Deflated.record_data d) in
    Ok rs
  else records_of_ref d.

Definition of_deflated (d : Deflated.Batch) (attributes : Z) (rs : list Record.t) : Batch :=
  mk (Deflated.base_offset d) (Deflated.batch_length d) (Deflated.partition_leader_epoch d)
    (Deflated.magic d) (Deflated.crc d) attributes (Deflated.last_offset_delta d)
    (Deflated.base_timestamp d) (Deflated.max_timestamp d) (Deflated.producer_id d)
    (Deflated.producer_epoch d) (Deflated.base_sequence d) rs.

(** [TryFrom<deflated::Batch> for Batch]. *)
Definition try_from (d : Deflated.Batch) : result Batch :=
  let! attributes := BatchAttribute_try_from (Deflated.attributes d) in
  let! rs := records_of d in
  Ok (of_deflated d (BatchAttribute_into (with_compression NoCompression attributes)) rs).

(** [TryFrom<&deflated::Batch> for Batch]. *)
Definition try_from_ref (d : Deflated.Batch) : result Batch :=
  let! rs := records_of_ref d in
  Ok (of_deflated d (Deflated.attributes d) rs).

Definition into_record_data (rs : list Record.t) (c : Compression) : result bytes :=
  let! _ := VarIntSequence.sizes Record.size_in_bytes 0 rs in
  match c with
  | NoCompression => Record.encode_all rs
  | Snappy => Err (Message "UnexpectedType")
  | _ => let! uncompressed := Record.encode_all rs in deflate c uncompressed
  end.

(** [TryFrom<inflated::Batch> for deflated::Batch]. *)
Definition into_deflated (b : Batch) : result Deflated.Batch :=
  let n := Z.of_nat (length (records b)) in
  if negb (in_u32 n) then Err TryFromInt
  else
  let! c := Compression_try_from (attributes b) in
  let! data := into_record_data (records b) c in
  Deflated.into_batch crc32c
    {| Deflated.crc_attributes := attributes b;
       Deflated.crc_last_offset_delta := last_offset_delta b;
       Deflated.crc_base_timestamp := base_timestamp b;
       Deflated.crc_max_timestamp := max_timestamp b;
       Deflated.crc_producer_id := producer_id b;
       Deflated.crc_producer_epoch := producer_epoch b;
       Deflated.crc_base_sequence := base_sequence b;
       Deflated.crc_record_count := n;
       Deflated.crc_record_data := data |}
    (base_offset b) (partition_leader_epoch b) (magic b).

(** ** Per-key compaction of one batch *)

Definition keys (b : Batch) : gset bytes :=
  fold_left (fun acc r => match Record.key r with Some k => {[k]} ∪ acc | None => acc end)
    (records b) ∅.

(** The loop of [compact]: the last offset delta of each key outside [head],
    and how many records are superseded. *)
Definition compact_step (head : gset bytes) (s : gmap bytes Z * nat) (r : Record.t)
    : gmap bytes Z * nat :=
  let '(last, removed) := s in
  match Record.key r with
  | None => (last, removed)
  | Some k =>
      if bool_decide (k ∈ head) then (last, S removed)
      else (<[k := Record.offset_delta r]> last,
            if last !! k then S removed else removed)
  end.

Definition compact_scan (head : gset bytes) (rs : list Record.t) : gmap bytes Z * nat :=
  fold_left (compact_step head) rs (∅, O).

(** [retain] on the offset deltas of the survivors. *)
Definition compact_retain (last : gmap bytes Z) (rs : list Record.t) : list Record.t :=
  filter (fun r => Record.offset_delta r ∈ (map_to_list last).*2) rs.

Definition compact (b : Batch) (head : gset bytes) : result (Batch * nat) :=
  let '(last, removed) := compact_scan head (records b) in
  if (0 <? removed)%nat then
    let! b := build (set_records b (compact_retain last (records b))) in
    Ok (b, removed)
  else Ok (b, removed).

(** ** [combine] of [tansu-storage/src/batch.rs]

    A release build: [i32] and [i64] sums wrap. *)

Definition combine_record (sink batch : Batch) (r : Record.t) : Record.t :=
  Record.mk (Record.length r) (Record.attributes r)
    (wrap_s 64 (Record.timestamp_delta r + (base_timestamp sink - base_timestamp batch)))
    (wrap_s 32 (Record.offset_delta r + last_offset_delta sink + 1))
    (Record.key r) (Record.value r) (Record.headers r).

Definition combine_step (sink batch : Batch) : Batch :=
  mk (base_offset sink) (batch_length sink) (partition_leader_epoch sink) (magic sink)
    (crc sink) (attributes sink)
    (wrap_s 32 (last_offset_delta sink + wrap_s 32 (last_offset_delta batch + 1)))
    (base_timestamp sink) (Z.max (max_timestamp sink) (max_timestamp batch))
    (producer_id sink) (producer_epoch sink) (base_sequence sink)
    (records sink ++ map (combine_record sink batch) (records batch)).

Fixpoint combine_into (sink : Batch) (batches : list Deflated.Batch) : result Batch :=
  match batches with
  | [] => Ok sink
  | d :: batches =>
      let! batch := try_from d in
      combine_into (combine_step sink batch) batches
  end.

Definition combine (batches : list Deflated.Batch) : result (option Deflated.Batch) :=
  match batches with
  | [] => Ok None
  | first :: batches =>
      let! sink := try_from first in
      let! sink := combine_into sink batches in
      let! d := into_deflated sink in
      Ok (Some d)
  end.
End codecs.

End Inflated.

(** ** The v2 framing *)

Lemma to_bytes_split b :
  Deflated.to_bytes b =
  put_int I64 (Deflated.base_offset b) ++ put_int I32 (Deflated.batch_length b)
  ++ put_int I32 (Deflated.partition_leader_epoch b) ++ put_int I8 (Deflated.magic b)
  ++ put_int U32 (Deflated.crc b) ++ Deflated.CrcData_bytes (Deflated.CrcData_from b).
Proof. done. Qed.

Lemma length_CrcData d :
  length (Deflated.CrcData_bytes d) = (40 + length (Deflated.crc_record_data d))%nat.
Proof. unfold Deflated.CrcData_bytes. autorewrite with wire. cbn. lia. Qed.

Lemma declares_spec b :
  Deflated.declares_its_own_length b = true <->
  Deflated.batch_length b = FIXED_BATCH_LENGTH + Z.of_nat (length (Deflated.record_data b)) /\
  in_i32 (Deflated.batch_length b) = true.
Proof.
  unfold Deflated.declares_its_own_length, Deflated.encoded_batch_length.
  split.
  - destruct (in_i32 _) eqn:E; [|done]. intros <-%Z.eqb_eq. by split.
  - intros [-> ->]. apply Z.eqb_refl.
Qed.

Lemma read_batch_to_bytes b rest :
  Deflated.typed b = true -> Deflated.is_record_batch_v2 b = true ->
  Deflated.declares_its_own_length b = true ->
  Deflated.read_batch (Deflated.to_bytes b ++ rest) = Ok (b, rest).
Proof.
  intros Ht Hm [Hlen _]%declares_spec. unfold Deflated.typed in Ht. bool_prop.
  unfold Deflated.is_record_batch_v2 in Hm. unfold FIXED_BATCH_LENGTH in Hlen.
  unfold Deflated.read_batch, Deflated.to_bytes. rewrite <- !app_assoc.
  do 4 rewrite bind_get_put_int by done. rewrite Hm. cbn [negb].
  rewrite bind_get_put_int by done. erewrite bind_Ok by done.
  rewrite (proj2 (Z.ltb_ge _ 0)), (proj2 (Z.ltb_ge _ (4 + 1 + 4))), (proj2 (Z.ltb_ge _ _)) by
    (autorewrite with wire; cbn [width]; lia).
  do 8 rewrite bind_get_put_int by done.
  rewrite (proj2 (Z.ltb_ge _ FIXED_BATCH_LENGTH)) by (unfold FIXED_BATCH_LENGTH; lia).
  rewrite bind_take_n by (unfold FIXED_BATCH_LENGTH; lia). by destruct b.
Qed.

Lemma read_batch_v2_inv bs b rest :
  Deflated.read_batch bs = Ok (b, rest) -> Deflated.is_record_batch_v2 b = true ->
  bs = Deflated.to_bytes b ++ rest /\ Deflated.typed b = true /\
  Deflated.declares_its_own_length b = true.
Proof.
  intros H Hm. unfold Deflated.read_batch in H. inv_read.
  destruct (negb _) eqn:Emagic.
  { apply Ok_inj, pair_eq in H as [<- <-]. change (z2 =? MAGIC_RECORD_BATCH_V2 = true) in Hm.
    by rewrite Hm in Emagic. }
  inv_read. apply bind_Ok_inv in H as (? & ? & Hr & H). injection Hr as <- <-.
  do 3 (case_match; [done|]). inv_read. case_match; [done|].
  apply bind_Ok_inv in H as (data & rest' & Htake & Hret). apply take_n_Ok in Htake as [-> Hdata].
  apply Ok_inj, pair_eq in Hret as [<- <-]. subst. split; [|split].
  - unfold Deflated.to_bytes. by rewrite <- !app_assoc.
  - unfold Deflated.typed. cbn -[s_range u_range]. by repeat (rewrite andb_true_iff; split).
  - apply declares_spec. cbn -[s_range u_range]. bool_prop. split; [lia|done].
Qed.

Lemma safe_read_batch : safe Deflated.read_batch.
Proof.
  unfold Deflated.read_batch. repeat (apply safe_bind; [apply safe_get_int|intros]).
  case_head; [apply safe_ret|]. apply safe_bind; [apply safe_get_int|intros].
  apply safe_bind; [done|]. intros. do 3 (case_head; [done|]).
  repeat (apply safe_bind; [apply safe_get_int|intros]).
  case_head; [done|]. apply safe_bind; [apply safe_take_n|intros; apply safe_ret].
Qed.

Lemma try_from_Ok bs b :
  Deflated.try_from bs = Ok b <-> exists rest, Deflated.read_batch bs = Ok (b, rest).
Proof.
  unfold Deflated.try_from, rmap. split.
  - intros ([b' rest] & E & H)%rbind_Ok. cbn in H. injection H as <-. eauto.
  - intros [rest ->]. done.
Qed.

Lemma decoder_crc_range b rest :
  Deflated.declares_its_own_length b = true ->
  Deflated.decoder_crc_data (Deflated.to_bytes b ++ rest) (Deflated.batch_length b)
  = Deflated.CrcData_bytes (Deflated.CrcData_from b).
Proof.
  intros [Hlen _]%declares_spec. unfold Deflated.decoder_crc_data. rewrite to_bytes_split.
  rewrite !app_assoc. rewrite <- (app_assoc _ (Deflated.CrcData_bytes _) rest).
  rewrite drop_app_exact by (by autorewrite with wire).
  apply take_app_exact. rewrite length_CrcData. cbn. unfold FIXED_BATCH_LENGTH in Hlen. lia.
Qed.

(** ** Attributes and conversions *)

Lemma attribute_roundtrip a : BatchAttribute_try_from (BatchAttribute_into a) = Ok a.
Proof. by destruct a as [[] [] [] [] []]. Qed.

Lemma attribute_compression a : Compression_try_from (BatchAttribute_into a) = Ok (compression a).
Proof. by destruct a as [[] [] [] [] []]. Qed.

Section conversions.
Context (crc32c : bytes -> Z) (inflate deflate : Compression -> bytes -> result bytes).

Lemma into_batch_Ok d bo ple m b :
  Deflated.into_batch crc32c d bo ple m = Ok b ->
  Deflated.declares_its_own_length b = true /\ Deflated.crc_matches crc32c b = true /\
  Deflated.CrcData_from b = d /\ Deflated.base_offset b = bo /\
  Deflated.partition_leader_epoch b = ple /\ Deflated.magic b = m.
Proof.
  unfold Deflated.into_batch. case_match eqn:E; [|done]. intros [= <-]. split_and!; try done.
  - by apply declares_spec.
  - unfold Deflated.crc_matches, Deflated.computed_crc. cbn. destruct d. apply Z.eqb_refl.
  - by destruct d.
Qed.

Lemma into_record_data_None rs data :
  Inflated.into_record_data deflate rs NoCompression = Ok data -> Record.encode_all rs = Ok data.
Proof. unfold Inflated.into_record_data. intros H. by inv_ok. Qed.

Lemma encode_all_read rs data (r : reader Record.t) rest :
  refines Record.decode r -> Forall (fun r => Record.typed r = true) rs ->
  Record.encode_all rs = Ok data -> read_n (length rs) r (data ++ rest) = Ok (rs, rest).
Proof.
  intros Hr Hrs H. unfold Record.encode_all in H. inv_ok.
  apply (refines_read_n _ _ _ Hr). by eapply encodes_roundtrip; [apply Record_codec|..].
Qed.

Lemma into_deflated_Ok b d :
  Inflated.into_deflated crc32c deflate b = Ok d ->
  exists c data, Compression_try_from (Inflated.attributes b) = Ok c /\
    Inflated.into_record_data deflate (Inflated.records b) c = Ok data /\
    Deflated.declares_its_own_length d = true /\ Deflated.crc_matches crc32c d = true /\
    Deflated.record_data d = data /\
    Deflated.record_count d = Z.of_nat (length (Inflated.records b)) /\
    Deflated.attributes d = Inflated.attributes b /\
    forall a rs, Inflated.of_deflated d a rs =
      Inflated.mk (Inflated.base_offset b) (Deflated.batch_length d)
        (Inflated.partition_leader_epoch b) (Inflated.magic b) (Deflated.crc d) a
        (Inflated.last_offset_delta b) (Inflated.base_timestamp b) (Inflated.max_timestamp b)
        (Inflated.producer_id b) (Inflated.producer_epoch b) (Inflated.base_sequence b) rs.
Proof.
  unfold Inflated.into_deflated. case_match; [done|]. intros H'. inv_ok. exists a, a0.
  pose proof (into_batch_Ok _ _ _ _ _ H') as (Hd & Hc & Hcrc & Hbo & Hple & Hm).
  destruct d; cbn in *. injection Hcrc as -> -> -> -> -> -> -> -> ->.
  split_and!; try done. intros. unfold Inflated.of_deflated. cbn. by rewrite Hbo, Hple, Hm.
Qed.
End conversions.

(** ** Compaction *)

(** Whether a later record of the batch carries key [k]. *)
Definition has_key (k : bytes) (rs : list Record.t) : bool :=
  existsb (fun r => bool_decide (Record.key r = Some k)) rs.

(** Reference: the last record of every key outside [head]. *)
Fixpoint survivors (head : gset bytes) (rs : list Record.t) : list Record.t :=
  match rs with
  | [] => []
  | r :: rs =>
      match Record.key r with
      | Some k => if bool_decide (k ∈ head) || has_key k rs then survivors head rs
                  else r :: survivors head rs
      | None => survivors head rs
      end
  end.

Definition keyed (rs : list Record.t) : list Record.t :=
  filter (fun r => Record.key r <> None) rs.

Lemma has_key_snoc k rs r :
  has_key k (rs ++ [r]) = has_key k rs || bool_decide (Record.key r = Some k).
Proof. unfold has_key. rewrite existsb_app. cbn. by rewrite orb_false_r. Qed.

Lemma has_key_cons k r rs :
  has_key k (r :: rs) = bool_decide (Record.key r = Some k) || has_key k rs.
Proof. done. Qed.

Lemma compact_scan_snoc head rs r :
  Inflated.compact_scan head (rs ++ [r]) =
  Inflated.compact_step head (Inflated.compact_scan head rs) r.
Proof. unfold Inflated.compact_scan. by rewrite fold_left_app. Qed.

(** What the scan knows of a key: the delta of the last record that has it. *)
Lemma compact_scan_last head rs k d :
  (Inflated.compact_scan head rs).1 !! k = Some d <->
  k ∉ head /\ exists pre r post, rs = pre ++ r :: post /\ Record.key r = Some k /\
    Record.offset_delta r = d /\ has_key k post = false.
Proof.
  revert d. induction rs as [|r rs IH] using rev_ind; intros d.
  { cbn. rewrite lookup_empty. split; [done|]. by intros (_ & [|] & ? & ? & ? & _). }
  rewrite compact_scan_snoc. destruct (Inflated.compact_scan head rs) as [last n]. cbn in *.
  assert (Hother : Record.key r <> Some k ->
    (k ∉ head /\ exists pre x post, rs ++ [r] = pre ++ x :: post /\ Record.key x = Some k /\
       Record.offset_delta x = d /\ has_key k post = false) <-> last !! k = Some d).
  { intros Hne. rewrite IH. split; intros (Hk & pre & x & post & E & Hx & Hd & Hp).
    - split; [done|]. destruct post as [|y post _] using rev_ind.
      { apply app_inj_tail in E as [_ ->]. by destruct Hne. }
      rewrite app_comm_cons, app_assoc in E. apply app_inj_tail in E as [-> _].
      rewrite has_key_snoc in Hp. apply orb_false_iff in Hp as [Hp _]. eauto 8.
    - split; [done|]. subst rs. exists pre, x, (post ++ [r]). split_and!; try done.
      + by rewrite <- app_assoc.
      + rewrite has_key_snoc, Hp. by apply bool_decide_eq_false. }
  destruct (Record.key r) as [k'|] eqn:Ek; [|rewrite Hother; [done|congruence]].
  destruct (decide (k = k')) as [->|Hk].
  - case_bool_decide as Hh; cbn.
    + rewrite IH. split; [by intros [? _]|by intros [? _]].
    + rewrite lookup_insert_eq. split.
      * intros [= <-]. split; [done|]. by exists rs, r, [].
      * intros (_ & pre & x & post & E & Hx & Hd & Hp).
        destruct post as [|y post _] using rev_ind.
        { apply app_inj_tail in E as [_ ->]. congruence. }
        rewrite app_comm_cons, app_assoc in E. apply app_inj_tail in E as [_ ->].
        rewrite has_key_snoc, Ek in Hp. apply orb_false_iff in Hp as [_ Hp].
        by apply bool_decide_eq_false in Hp.
  - rewrite Hother by congruence. case_bool_decide; cbn; [done|].
    by rewrite lookup_insert_ne by done.
Qed.

(** The scan counts the keyed records that do not survive. *)
Lemma survivors_snoc head rs r :
  length (survivors head (rs ++ [r])) =
  (match Record.key r with
   | Some k => if bool_decide (k ∈ head) then length (survivors head rs)
               else if has_key k rs then length (survivors head rs)
               else S (length (survivors head rs))
   | None => length (survivors head rs)
   end)%nat.
Proof.
  induction rs as [|x rs IH]; cbn [survivors app].
  { destruct (Record.key r); [|done]. cbn. rewrite orb_false_r. by case_bool_decide. }
  destruct (Record.key x) as [kx|] eqn:Ex.
  2: { rewrite IH. destruct (Record.key r); [|done]. by rewrite has_key_cons, Ex. }
  rewrite has_key_snoc. destruct (Record.key r) as [k|] eqn:Er.
  2: { rewrite orb_false_r. by destruct (_ || _); cbn; rewrite IH. }
  rewrite has_key_cons, Ex. destruct (decide (k = kx)) as [->|Hk].
  - rewrite (bool_decide_eq_true_2 (Some kx = Some kx)) by done. rewrite !orb_true_r.
    rewrite IH. case_bool_decide; cbn; [done|]. by destruct (has_key kx rs).
  - rewrite !(bool_decide_eq_false_2 (Some _ = Some _)) by congruence.
    rewrite orb_false_r. cbn [orb].
    destruct (bool_decide (kx ∈ head) || has_key kx rs); cbn [length]; rewrite IH;
      case_bool_decide; [done| |done|]; by destruct (has_key k rs).
Qed.

Lemma has_key_scan head rs k :
  k ∉ head -> has_key k rs = bool_decide (is_Some ((Inflated.compact_scan head rs).1 !! k)).
Proof.
  intros Hk. induction rs as [|r rs IH] using rev_ind; [done|].
  rewrite has_key_snoc, compact_scan_snoc, IH.
  destruct (Inflated.compact_scan head rs) as [last n]. cbn [Inflated.compact_step fst].
  destruct (Record.key r) as [k'|]; [|by rewrite orb_false_r].
  destruct (decide (k = k')) as [->|Hne].
  - rewrite (bool_decide_eq_false_2 (k' ∈ head)) by done. cbn [fst].
    rewrite lookup_insert_eq, (bool_decide_eq_true_2 (Some k' = Some k')) by done.
    by rewrite orb_true_r.
  - rewrite (bool_decide_eq_false_2 (Some k' = Some k)) by congruence. rewrite orb_false_r.
    destruct (bool_decide (k' ∈ head)); cbn [fst]; [done|]. by rewrite lookup_insert_ne.
Qed.

Lemma compact_scan_removed head rs :
  ((Inflated.compact_scan head rs).2 + length (survivors head rs))%nat = length (keyed rs).
Proof.
  induction rs as [|r rs IH] using rev_ind; [done|].
  rewrite survivors_snoc, compact_scan_snoc. unfold keyed in *. rewrite filter_app, length_app.
  pose proof (has_key_scan head rs) as Hscan.
  destruct (Inflated.compact_scan head rs) as [last n]. cbn [fst snd] in *.
  rewrite <- IH, filter_cons, filter_nil. unfold Inflated.compact_step.
  destruct (Record.key r) as [k|].
  2: { destruct (decide _) as [Hn|_]; [by destruct Hn|]. cbn. lia. }
  destruct (decide _) as [_|Hn]; [|by destruct Hn].
  case_bool_decide as Hh; cbn; [lia|]. rewrite (Hscan k Hh).
  destruct (last !! k); case_bool_decide as Hs; cbn; try lia; exfalso.
  - apply Hs. eauto.
  - by destruct Hs.
Qed.

Lemma retained_iff head rs pre r post :
  rs = pre ++ r :: post -> NoDup (Record.offset_delta <$> rs) ->
  Record.offset_delta r ∈ (map_to_list (Inflated.compact_scan head rs).1).*2 <->
  exists k, Record.key r = Some k /\ k ∉ head /\ has_key k post = false.
Proof.
  intros -> Hnd. rewrite list_elem_of_fmap. split.
  - intros ([k d] & Hd & Hk%elem_of_map_to_list). cbn in Hd. subst d.
    apply compact_scan_last in Hk as (Hh & pre' & r' & post' & E & Hkey & Hdelta & Hpost).
    exists k. assert (length pre = length pre') as Hlen.
    { apply (NoDup_lookup _ (length pre) (length pre') (Record.offset_delta r) Hnd).
      - by rewrite list_lookup_fmap, list_lookup_middle.
      - rewrite E, list_lookup_fmap, list_lookup_middle by done. cbn. by rewrite Hdelta. }
    apply app_inj_1 in E as [-> [= -> ->]]; [done|done].
  - intros (k & Hkey & Hh & Hp). exists (k, Record.offset_delta r). split; [done|].
    apply elem_of_map_to_list, compact_scan_last. split; [done|]. by exists pre, r, post.
Qed.

Lemma compact_retain_suffix head rs pre suf :
  rs = pre ++ suf -> NoDup (Record.offset_delta <$> rs) ->
  Inflated.compact_retain (Inflated.compact_scan head rs).1 suf = survivors head suf.
Proof.
  intros E Hnd. revert pre E. induction suf as [|r suf IH]; intros pre E; [done|].
  pose proof (retained_iff head rs pre r suf E Hnd) as Hr.
  specialize (IH (pre ++ [r])). rewrite <- app_assoc in IH. specialize (IH E).
  unfold Inflated.compact_retain in *. rewrite filter_cons, IH. cbn [survivors].
  destruct (decide _) as [Hin|Hout].
  - apply Hr in Hin as (k & -> & Hh & ->). by rewrite bool_decide_eq_false_2.
  - destruct (Record.key r) as [k|]; [|done].
    case_bool_decide as Hh; [done|]. destruct (has_key k suf) eqn:Hk; [done|].
    destruct Hout. apply Hr. eauto.
Qed.

(** ** Combining *)

(** The length prefix of a record agrees with its body. *)
Definition prefix_ok (r : Record.t) : Prop :=
  exists sz, Record.builder_size r = Ok sz /\ Record.length r = Z.of_nat sz.

Lemma builder_size_delta r ts od sz :
  Record.builder_size r = Ok sz ->
  exists rest, sz = (LongVarInt_size (Record.timestamp_delta r)
                     + VarInt_size (Record.offset_delta r) + rest)%nat /\
    Record.builder_size (Record.mk (Record.length r) (Record.attributes r) ts od
      (Record.key r) (Record.value r) (Record.headers r))
    = Ok (LongVarInt_size ts + VarInt_size od + rest)%nat.
Proof.
  unfold Record.builder_size. intros H. inv_ok. cbn [Record.key Record.value Record.headers
    Record.timestamp_delta Record.offset_delta]. rewrite E, E0, E1. cbn [rbind].
  exists (1 + a + a0 + a1)%nat. split; [lia|]. f_equal. lia.
Qed.

(** ** Properties *)

(** A v2 batch whose length field describes its bytes is read back exactly
    from what it serializes to, whatever follows it. *)
Theorem batch_roundtrip (b : Deflated.Batch) (rest : bytes) :
  Deflated.typed b = true -> Deflated.is_record_batch_v2 b = true ->
  Deflated.declares_its_own_length b = true ->
  Deflated.try_from (Deflated.to_bytes b ++ rest) = Ok b.
Proof. intros. apply try_from_Ok. exists rest. by apply read_batch_to_bytes. Qed.

Definition sample_batch : Deflated.Batch :=
  Deflated.mk 7 53 (-1) 2 99 16 0 1000 1000 5 0 3 1 [x06; x00; x00; x00].

Lemma batch_roundtrip_witness :
  Deflated.try_from (Deflated.to_bytes sample_batch ++ [xff]) = Ok sample_batch.
Proof. by apply (batch_roundtrip sample_batch [xff]). Defined.

(** Decoding is canonical: a v2 batch the decoder accepts declares its own
    length, re-serializes to exactly the bytes it was read from, and the range
    the decoder digests for the CRC is the range [computed_crc] digests. *)
Theorem decoded_batch_canonical (bs : bytes) (b : Deflated.Batch) :
  Deflated.try_from bs = Ok b -> Deflated.is_record_batch_v2 b = true ->
  Deflated.declares_its_own_length b = true /\
  Deflated.decoder_crc_data bs (Deflated.batch_length b)
  = Deflated.CrcData_bytes (Deflated.CrcData_from b) /\
  exists rest, bs = Deflated.to_bytes b ++ rest.
Proof.
  intros [rest H]%try_from_Ok Hm. apply read_batch_v2_inv in H as (-> & _ & Hd); [|done].
  split; [done|]. split; [by apply decoder_crc_range|by exists rest].
Qed.

Lemma decoded_batch_canonical_witness :
  Deflated.declares_its_own_length sample_batch = true /\
  Deflated.decoder_crc_data (Deflated.to_bytes sample_batch) 53
  = Deflated.CrcData_bytes (Deflated.CrcData_from sample_batch) /\
  exists rest, Deflated.to_bytes sample_batch = Deflated.to_bytes sample_batch ++ rest.
Proof.
  apply (decoded_batch_canonical (Deflated.to_bytes sample_batch) sample_batch); by vm_compute.
Defined.

(** A pre-v2 message set decodes to an empty husk, never to a batch read
    through the v2 layout; a husk passes the writers' length check only when the
    wire declared the bare header length, and the decoder never panics. *)
Theorem pre_v2_is_a_husk (bs : bytes) (b : Deflated.Batch) :
  (Deflated.try_from bs = Ok b -> Deflated.is_record_batch_v2 b = false ->
   b = Deflated.husk (Deflated.base_offset b) (Deflated.batch_length b) (Deflated.magic b) /\
   (Deflated.declares_its_own_length b = true ->
    Deflated.batch_length b = FIXED_BATCH_LENGTH)) /\
  (forall p, Deflated.try_from bs <> Panic p).
Proof.
  split.
  - intros [rest H]%try_from_Ok Hm. unfold Deflated.read_batch in H. inv_read.
    destruct (negb _) eqn:Emagic.
    + apply Ok_inj, pair_eq in H as [<- <-]. split; [done|]. by intros [-> _]%declares_spec.
    + exfalso. inv_read. apply bind_Ok_inv in H as (? & ? & Hr & H). injection Hr as <- <-.
      do 3 (case_match; [done|]). inv_read. case_match; [done|].
      apply bind_Ok_inv in H as (data & rest' & _ & Hret).
      apply Ok_inj, pair_eq in Hret as [<- _]. unfold Deflated.is_record_batch_v2 in Hm. cbn in Hm.
      by rewrite Hm in Emagic.
  - intros p. unfold Deflated.try_from, rmap.
    destruct (Deflated.read_batch bs) as [[]| |] eqn:E; cbn; try done. by apply safe_read_batch in E.
Qed.

Lemma pre_v2_is_a_husk_witness :
  Deflated.husk 0 20 1 = Deflated.husk 0 20 1 /\
  (Deflated.declares_its_own_length (Deflated.husk 0 20 1) = true -> 20 = FIXED_BATCH_LENGTH).
Proof.
  apply (proj1 (pre_v2_is_a_husk
    (put_int I64 0 ++ put_int I32 20 ++ put_int I32 0 ++ [x01; x00]) (Deflated.husk 0 20 1)));
    by vm_compute.
Defined.

(** C37 Building a batch and reading it back loses nothing: the batch built
    from records carries a CRC that matches and a length that describes it, and
    reading its records returns the ones it was built from, whatever the
    compression, provided the decompressor inverts the compressor. *)
Theorem batch_pipeline_roundtrip (crc32c : bytes -> Z)
    (inflate deflate : Compression -> bytes -> result bytes) (checks : bool)
    (b : Inflated.Batch) (d : Deflated.Batch)
    (lossless : forall c bs z, deflate c bs = Ok z -> inflate c z = Ok bs) :
  Forall (fun r => Record.typed r = true) (Inflated.records b) ->
  Inflated.into_deflated crc32c deflate b = Ok d ->
  Deflated.crc_matches crc32c d = true /\ Deflated.declares_its_own_length d = true /\
  Inflated.try_from_ref inflate checks d = Ok (Inflated.of_deflated d (Inflated.attributes b)
                                                 (Inflated.records b)) /\
  (forall a, Inflated.attributes b = BatchAttribute_into a -> compression a = NoCompression ->
   Inflated.try_from inflate checks d = Ok (Inflated.of_deflated d (Inflated.attributes b)
                                              (Inflated.records b))).
Proof.
  intros Hrs H. apply into_deflated_Ok in H
    as (c & data & Hc & Hdata & Hown & Hcrc & Hrd & Hcount & Hattr & _).
  assert (Hread : Inflated.records_of_ref inflate checks d = Ok (Inflated.records b)).
  { unfold Inflated.records_of_ref, Deflated.compression. rewrite Hattr, Hc, Hrd, Hcount, Nat2Z.id.
    cbn [rbind]. assert (exists u, Inflated.inflator inflate c data = Ok u /\
      Record.encode_all (Inflated.records b) = Ok u) as (u & -> & Hu).
    { unfold Inflated.into_record_data in Hdata. destruct c; inv_ok; eauto. }
    cbn [rbind]. rewrite <- (app_nil_r u).
    by rewrite (encode_all_read _ _ _ [] (refines_Record checks) Hrs Hu). }
  split; [done|]. split; [done|]. split.
  - unfold Inflated.try_from_ref. by rewrite Hread, Hattr.
  - intros a Ha Hnone. unfold Inflated.try_from, Inflated.records_of, Deflated.compression.
    rewrite Hattr, Ha, attribute_roundtrip, attribute_compression, Hnone. cbn [rbind].
    rewrite bool_decide_eq_true_2 by done. rewrite Ha, attribute_compression, Hnone in Hc.
    injection Hc as <-. apply into_record_data_None in Hdata. rewrite Hrd, Hcount, Nat2Z.id.
    rewrite <- (app_nil_r data), (encode_all_read _ _ _ [] (refines_refl _) Hrs Hdata).
    cbn [rbind]. f_equal. f_equal. destruct a as [c0 ? ? ? ?]. cbn in Hnone. by subst c0.
Qed.

Definition sample_inflated : Inflated.Batch :=
  Inflated.mk 0 0 (-1) 2 0 0 0 1000 1000 (-1) (-1) (-1)
    [Record.mk 10 0 (-5) 3 (Some (ascii_bytes "k")) None
       [Header.mk (Some (ascii_bytes "h")) (Some [])]].

Lemma batch_pipeline_roundtrip_witness :
  exists d, Inflated.into_deflated (fun _ => 0) (fun _ bs => Ok bs) sample_inflated = Ok d /\
  Deflated.crc_matches (fun _ => 0) d = true.
Proof.
  eexists. split; [vm_compute; reflexivity|].
  eapply (batch_pipeline_roundtrip (fun _ => 0) (fun _ bs => Ok bs) (fun _ bs => Ok bs) true
            sample_inflated);
    [by intros c bs z [= ->]|by repeat constructor|vm_compute; reflexivity].
Defined.

(** Per-key compaction of a batch keeps exactly the last record of every
    key that no newer batch has: when something is superseded, the rebuilt batch
    holds, in order, those records alone, so a keyless record is dropped with
    them; when nothing is superseded, the batch is returned untouched and every
    keyed record is a survivor; and the count reported is the number of keyed
    records that did not survive. *)
Theorem compact_keeps_latest (crc32c : bytes -> Z) (b : Inflated.Batch) (head : gset bytes)
    (b' : Inflated.Batch) (removed : nat) :
  NoDup (Record.offset_delta <$> Inflated.records b) ->
  Inflated.compact crc32c b head = Ok (b', removed) ->
  (removed + length (survivors head (Inflated.records b)))%nat
    = length (keyed (Inflated.records b)) /\
  (removed = 0%nat -> b' = b) /\
  ((0 < removed)%nat ->
   Inflated.rebuild_all (survivors head (Inflated.records b)) = Ok (Inflated.records b')).
Proof.
  intros Hnd H. unfold Inflated.compact in H.
  pose proof (compact_scan_removed head (Inflated.records b)) as Hcount.
  pose proof (compact_retain_suffix head (Inflated.records b) [] (Inflated.records b) eq_refl Hnd) as Hret.
  destruct (Inflated.compact_scan head (Inflated.records b)) as [last n]. cbn [fst snd] in *.
  destruct (Nat.ltb_spec 0 n); inv_ok.
  - split; [done|]. split; [lia|]. intros _. rewrite Hret in E. unfold Inflated.build in E.
    inv_ok. case_match; [done|]. inv_ok. done.
  - split; [done|]. split; [done|]. lia.
Qed.

Definition sample_compactable : Inflated.Batch :=
  let r k v d := Record.mk 9 0 0 d (Some [k]) (Some [v]) [] in
  Inflated.set_records sample_inflated [r x61 x01 0; r x62 x02 1; r x61 x03 2].

Lemma compact_keeps_latest_witness :
  exists b', Inflated.compact (fun _ => 0) sample_compactable ∅ = Ok (b', 1%nat) /\
  Inflated.rebuild_all (survivors ∅ (Inflated.records sample_compactable))
  = Ok (Inflated.records b').
Proof.
  eexists. split; [vm_compute; reflexivity|].
  apply (compact_keeps_latest (fun _ => 0) sample_compactable ∅ _ 1%nat);
    [|vm_compute; reflexivity|lia].
  apply (bool_decide_unpack _). by vm_compute.
Defined.

(** Merging queued batches shifts each record past the records merged
    before it, so offsets stay dense and in order; but the timestamp it gives a
    record is off by twice the difference of the two base timestamps: it is the
    record's own timestamp exactly when the bases are equal. *)
Theorem combine_offsets_and_timestamps (sink batch : Inflated.Batch) (r : Record.t) :
  let r' := Inflated.combine_record sink batch r in
  let merged := Inflated.combine_step sink batch in
  0 <= Record.offset_delta r <= Inflated.last_offset_delta batch ->
  0 <= Inflated.last_offset_delta sink ->
  Inflated.last_offset_delta sink + Inflated.last_offset_delta batch + 1 <= i32_MAX ->
  in_i64 (Record.timestamp_delta r
          + (Inflated.base_timestamp sink - Inflated.base_timestamp batch)) = true ->
  Record.offset_delta r' = Inflated.last_offset_delta sink + 1 + Record.offset_delta r /\
  Inflated.last_offset_delta sink < Record.offset_delta r' <= Inflated.last_offset_delta merged /\
  (Inflated.base_timestamp merged + Record.timestamp_delta r'
   = Inflated.base_timestamp batch + Record.timestamp_delta r
     + 2 * (Inflated.base_timestamp sink - Inflated.base_timestamp batch)) /\
  (Inflated.base_timestamp merged + Record.timestamp_delta r'
   = Inflated.base_timestamp batch + Record.timestamp_delta r
   <-> Inflated.base_timestamp sink = Inflated.base_timestamp batch).
Proof.
  intros r' merged Hd Hs Hfit Hts. unfold i32_MAX in Hfit.
  unfold r', merged, Inflated.combine_record, Inflated.combine_step. cbn [Record.offset_delta
    Record.timestamp_delta Inflated.last_offset_delta Inflated.base_timestamp].
  rewrite (wrap_s_small 64) by (done || lia). rewrite !wrap_i32 by (rewrite ?wrap_i32; lia). lia.
Qed.

Lemma combine_offsets_and_timestamps_witness :
  Record.timestamp_delta (Inflated.combine_record sample_inflated
    (Inflated.mk 0 0 (-1) 2 0 0 0 5000 5000 (-1) (-1) (-1) [])
    (Record.mk 9 0 0 0 None None [])) = -4000.
Proof.
  destruct (combine_offsets_and_timestamps sample_inflated
    (Inflated.mk 0 0 (-1) 2 0 0 0 5000 5000 (-1) (-1) (-1) [])
    (Record.mk 9 0 0 0 None None [])) as (_ & _ & H & _); cbn in *; try done; lia.
Defined.

(** Merging rewrites a record's deltas and keeps its length prefix: the
    prefix is right afterwards exactly when the two deltas still take as many
    bytes as before. *)
Theorem combine_length_prefix (sink batch : Inflated.Batch) (r : Record.t) :
  let r' := Inflated.combine_record sink batch r in
  prefix_ok r ->
  (prefix_ok r' <->
   (LongVarInt_size (Record.timestamp_delta r') + VarInt_size (Record.offset_delta r')
    = LongVarInt_size (Record.timestamp_delta r) + VarInt_size (Record.offset_delta r))%nat).
Proof.
  intros r' (sz & Hsz & Hlen).
  destruct (builder_size_delta r (Record.timestamp_delta r') (Record.offset_delta r') sz Hsz)
    as (rest & -> & Hsz').
  assert (Hr' : Record.builder_size r' = Ok (LongVarInt_size (Record.timestamp_delta r')
            + VarInt_size (Record.offset_delta r') + rest)%nat) by exact Hsz'.
  unfold prefix_ok. rewrite Hr'. change (Record.length r') with (Record.length r). rewrite Hlen.
  split; [intros (sz' & E%Ok_inj & ?); lia|]. intros. eexists. split; [done|]. lia.
Qed.

Lemma combine_length_prefix_witness :
  ~ prefix_ok (Inflated.combine_record sample_inflated
      (Inflated.mk 0 0 (-1) 2 0 0 0 2000 2000 (-1) (-1) (-1) [])
      (Record.mk 6 0 0 0 None None [])).
Proof.
  rewrite (combine_length_prefix sample_inflated
    (Inflated.mk 0 0 (-1) 2 0 0 0 2000 2000 (-1) (-1) (-1) [])
    (Record.mk 6 0 0 0 None None [])); [by vm_compute|]. exists 6%nat. by vm_compute.
Defined.

(** The length [build] announces counts each record's prefix as an unsigned
    varint, while the record is written with a zig-zag one: a body of 64 to 127
    bytes is announced one byte short. *)
Lemma build_undercounts :
  let r := Record.mk 0 0 0 0 None (Some (replicate 58 x00)) [] in
  exists b data, Inflated.build (fun _ => 0) (Inflated.set_records sample_inflated [r]) = Ok b /\
    VarIntSequence.encodes Record.encode (Inflated.records b) = Ok data /\
    Inflated.batch_length b = FIXED_BATCH_LENGTH + Z.of_nat (length data) - 1.
Proof.
  intros r.
  destruct (Inflated.build (fun _ => 0) (Inflated.set_records sample_inflated [r])) as [b| |] eqn:E;
    [|by vm_compute in E..].
  destruct (VarIntSequence.encodes Record.encode (Inflated.records b)) as [data| |] eqn:E2;
    vm_compute in E; injection E as <-; vm_compute in E2; [|done..].
  injection E2 as <-. eexists _, _. split; [done|]. split; by vm_compute.
Qed.

(** Snappy data that ends inside the xerial header it announces panics. *)
Lemma snappy_header_panics inflate checks d tail :
  Deflated.compression d = Ok Snappy -> Deflated.record_data d = SNAPPY_MAGIC ++ tail ->
  (length tail < 12)%nat ->
  Inflated.records_of_ref inflate checks d = Panic SliceOutOfRange.
Proof.
  intros Hc Hd Hl. unfold Inflated.records_of_ref. rewrite Hc, Hd. cbn [rbind Inflated.inflator].
  unfold snappy_payload. rewrite bool_decide_eq_true_2 by done.
  by rewrite (proj2 (Nat.ltb_lt _ _)) by (rewrite length_app; cbn; lia).
Qed.
