(* ===== verification/Segment.v ===== *)
(** * Segment: the prefix-coalesced segment object

    The segment types of [tansu-storage/src/dynostore.rs] and the codec of
    [tansu-storage/src/dynostore/codec.rs]: sub-stream identity, the footer at
    its four versions, the trailer, the frame scan of a region, and the writer
    [encode_segment_indexed] with the region splitter [capped_regions] of
    [dynostore/compaction.rs].

    A topic name is its UTF-8 bytes; a topic id is a 128-bit number, [0] being
    the nil uuid. *)

From S2P Require Export Batch.

(** ** Types *)

Inductive Substream :=
  | Name (name : bytes)
  | Id (id : Z).

#[export] Instance substream_eq_dec : EqDecision Substream.
Proof. solve_decision. Defined.
#[export] Instance substream_countable : Countable Substream.
Proof.
  apply (inj_countable' (fun s => match s with Name n => inl n | Id i => inr i end)
           (fun s => match s with inl n => Name n | inr i => Id i end)).
  by intros [].
Defined.

Definition Substream_id (s : Substream) : option Z :=
  match s with Id id => Some id | Name _ => None end.

Definition SEGMENT_MAGIC : Z := 0x54534547.
Definition SEGMENT_FORMAT_VERSION : Z := 1.
Definition SEGMENT_FORMAT_VERSION_V2 : Z := 2.
Definition SEGMENT_FORMAT_VERSION_V3 : Z := 3.
Definition SEGMENT_FORMAT_VERSION_V4 : Z := 4.
Definition SEGMENT_TRAILER_LEN : nat := 8 + 4 + 2 + 4.

Definition FLAG_TRANSACTIONAL : Z := 1.
Definition FLAG_CONTROL : Z := 2.

Module Coord.
Record ProducerCoord := mk {
  producer_id : Z;
  producer_epoch : Z;
  base_sequence : Z;
  last_sequence : Z;
  offset_delta : Z;
  flags : Z;
}.

(** Whether the coordinate carries an idempotent sequence. *)
Definition folds (pc : ProducerCoord) : bool :=
  (Z.land (flags pc) FLAG_CONTROL =? 0) && negb (base_sequence pc =? -1).

Definition typed (pc : ProducerCoord) : bool :=
  in_i64 (producer_id pc) && in_i16 (producer_epoch pc) && in_i32 (base_sequence pc)
  && in_i32 (last_sequence pc) && in_u32 (offset_delta pc) && in_u8 (flags pc).
End Coord.
Export Coord (ProducerCoord).

#[export] Instance coord_eq_dec : EqDecision ProducerCoord.
Proof. solve_decision. Defined.

Module Entry.
Record SubstreamEntry := mk {
  topic : bytes;
  topic_id : option Z;
  partition : Z;
  base_offset : Z;
  record_count : Z;
  byte_start : Z;
  byte_len : Z;
  max_timestamp : Z;
  producers : list ProducerCoord;
}.

Definition substream (e : SubstreamEntry) : Substream :=
  match topic_id e with Some id => Id id | None => Name (topic e) end.

(** Not "the ids match, or else the names match": a name-keyed read never picks
    up an id-keyed entry of the same name. *)
Definition is_ (e : SubstreamEntry) (s : Substream) : bool :=
  match s with
  | Id id => bool_decide (topic_id e = Some id)
  | Name name => bool_decide (topic_id e = None) && bool_decide (topic e = name)
  end.

Definition end_ (e : SubstreamEntry) : Z := base_offset e + record_count e.
End Entry.
Export Entry (SubstreamEntry).

#[export] Instance entry_eq_dec : EqDecision SubstreamEntry.
Proof. solve_decision. Defined.

Record SegmentFooter := mkFooter {
  writer_epoch : Z;
  nonce : Z;
  entries : list SubstreamEntry;
}.

Definition SegmentFooter_get (f : SegmentFooter) (s : Substream) (partition : Z)
    : option SubstreamEntry :=
  find (fun e => (Entry.partition e =? partition) && Entry.is_ e s) (entries f).

(** The entry for the region [e] claims to describe: its sub-stream's entry at
    the same base offset, or failing that the sub-stream's first. *)
Definition region_of (f : SegmentFooter) (e : SubstreamEntry) : option SubstreamEntry :=
  let s := Entry.substream e in
  match find (fun own => (Entry.partition own =? Entry.partition e) && Entry.is_ own s
                         && (Entry.base_offset own =? Entry.base_offset e)) (entries f) with
  | Some own => Some own
  | None => SegmentFooter_get f s (Entry.partition e)
  end.

Module SWrite.
Record SubstreamWrite := mk {
  topic : bytes;
  partition : Z;
  substream : Substream;
  base_offset : Z;
  batches : list Deflated.Batch;
}.
End SWrite.
Export SWrite (SubstreamWrite).

(** ** The footer *)

Definition encode_coord (version : Z) (pc : ProducerCoord) : bytes :=
  put_int I64 (Coord.producer_id pc) ++ put_int I16 (Coord.producer_epoch pc)
  ++ put_int I32 (Coord.base_sequence pc) ++ put_int I32 (Coord.last_sequence pc)
  ++ put_int U32 (Coord.offset_delta pc)
  ++ (if SEGMENT_FORMAT_VERSION_V3 <=? version then put_int U8 (Coord.flags pc) else []).

(** v4 carries the topic id, nil for a name-keyed sub-stream. *)
Definition encode_topic_id (version : Z) (id : option Z) : bytes :=
  if SEGMENT_FORMAT_VERSION_V4 <=? version then put_int U128 (default 0 id) else [].

(** v2 carries the producer coordinates.  [len() as u16] truncates: [put_int
    U16] of the length. *)
Definition encode_producers (version : Z) (pcs : list ProducerCoord) : bytes :=
  if SEGMENT_FORMAT_VERSION_V2 <=? version
  then put_int U16 (Z.of_nat (length pcs)) ++ flat_map (encode_coord version) pcs
  else [].

Definition encode_entry (version : Z) (e : SubstreamEntry) : bytes :=
  put_int U16 (Z.of_nat (length (Entry.topic e))) ++ Entry.topic e
  ++ encode_topic_id version (Entry.topic_id e)
  ++ put_int I32 (Entry.partition e) ++ put_int I64 (Entry.base_offset e)
  ++ put_int I64 (Entry.record_count e) ++ put_int U64 (Entry.byte_start e)
  ++ put_int U64 (Entry.byte_len e) ++ put_int I64 (Entry.max_timestamp e)
  ++ encode_producers version (Entry.producers e).

Definition encode_footer (f : SegmentFooter) (version : Z) : bytes :=
  put_int I64 (writer_epoch f)
  ++ (if SEGMENT_FORMAT_VERSION_V2 <=? version then put_int U64 (nonce f) else [])
  ++ flat_map (encode_entry version) (entries f).

Definition truncated : error := Message "truncated segment footer".

Definition decode_coord (version : Z) : reader ProducerCoord :=
  read! producer_id := get_int truncated I64 in
  read! producer_epoch := get_int truncated I16 in
  read! base_sequence := get_int truncated I32 in
  read! last_sequence := get_int truncated I32 in
  read! offset_delta := get_int truncated U32 in
  read! flags := (if SEGMENT_FORMAT_VERSION_V3 <=? version then get_int truncated U8 else ret 0) in
  ret (Coord.mk producer_id producer_epoch base_sequence last_sequence offset_delta flags).

Definition decode_topic_id (version : Z) : reader (option Z) :=
  if SEGMENT_FORMAT_VERSION_V4 <=? version
  then read! id := get_int truncated U128 in ret (if id =? 0 then None else Some id)
  else ret None.

Definition decode_producers (version : Z) : reader (list ProducerCoord) :=
  if SEGMENT_FORMAT_VERSION_V2 <=? version
  then read! pcoord_count := get_int truncated U16 in
       read_n (Z.to_nat pcoord_count) (decode_coord version)
  else ret [].

Definition decode_entry (version : Z) : reader SubstreamEntry :=
  read! topic_len := get_int truncated U16 in
  read! topic := take_n truncated (Z.to_nat topic_len) in
  if negb (utf8_valid topic) then fail (Message "utf8")
  else
  read! topic_id := decode_topic_id version in
  read! partition := get_int truncated I32 in
  read! base_offset := get_int truncated I64 in
  read! record_count := get_int truncated I64 in
  read! byte_start := get_int truncated U64 in
  read! byte_len := get_int truncated U64 in
  read! max_timestamp := get_int truncated I64 in
  read! producers := decode_producers version in
  ret (Entry.mk topic topic_id partition base_offset record_count byte_start byte_len
         max_timestamp producers).

(** Bytes left over after the last entry are ignored. *)
Definition decode_footer (footer_bytes : bytes) (entry_count : nat) (version : Z)
    : result SegmentFooter :=
  rmap fst
    ((read! writer_epoch := get_int truncated I64 in
      read! nonce := (if SEGMENT_FORMAT_VERSION_V2 <=? version
                      then get_int truncated U64 else ret 0) in
      read! entries := read_n entry_count (decode_entry version) in
      ret (mkFooter writer_epoch nonce entries)) footer_bytes).

(** ** The trailer *)

Definition supported_version (version : Z) : bool :=
  (version =? SEGMENT_FORMAT_VERSION) || (version =? SEGMENT_FORMAT_VERSION_V2)
  || (version =? SEGMENT_FORMAT_VERSION_V3) || (version =? SEGMENT_FORMAT_VERSION_V4).

Definition decode_segment_footer (tail : bytes) : result (option SegmentFooter) :=
  if (length tail <? SEGMENT_TRAILER_LEN)%nat then Ok None
  else
  let trailer := drop (length tail - SEGMENT_TRAILER_LEN) tail in
  let magic := int_of U32 (slice 14 18 trailer) in
  if negb (magic =? SEGMENT_MAGIC) then Ok None
  else
  let footer_len := int_of U64 (slice 0 8 trailer) in
  let entry_count := int_of U32 (slice 8 12 trailer) in
  let version := int_of U16 (slice 12 14 trailer) in
  if negb (supported_version version) then Err (Message "unsupported segment format version")
  else
  let footer_end := (length tail - SEGMENT_TRAILER_LEN)%nat in
  if Z.of_nat footer_end <? footer_len
  then Err (Message "segment footer length exceeds tail")
  else
  rmap Some (decode_footer (slice (footer_end - Z.to_nat footer_len) footer_end tail)
               (Z.to_nat entry_count) version).

Definition encode_trailer (footer_len entry_count version : Z) : bytes :=
  put_int U64 footer_len ++ put_int U32 entry_count ++ put_int U16 version
  ++ put_int U32 SEGMENT_MAGIC.

(** ** Frames *)

Inductive FrameTail :=
  | Exhausted
  | Short (at_ remaining : nat)
  | Malformed (at_ : nat) (declared : Z).

(** [base_offset (i64) + batch_length (i32)] precede the body. *)
Definition PREFIX : nat := 8 + 4.

(** The scan of [decode_frame].  Every round consumes at least [PREFIX] bytes,
    so the length of the region is enough fuel ([decode_frame_fuel]). *)
Fixpoint decode_frame_loop (fuel at_ : nat) (remaining : bytes)
    : result (list Deflated.Batch * FrameTail) :=
  match fuel with
  | O => Panic OutOfFuel
  | S fuel =>
      if (length remaining <? PREFIX)%nat then
        Ok ([], match remaining with [] => Exhausted | _ => Short at_ (length remaining) end)
      else
      let declared := int_of I32 (slice 8 PREFIX remaining) in
      if declared <? 0 then Ok ([], Malformed at_ declared)
      else
      let total := (PREFIX + Z.to_nat declared)%nat in
      if (length remaining <? total)%nat then Ok ([], Malformed at_ declared)
      else
      let! batch := Deflated.try_from (take total remaining) in
      let! (batches, tail) := decode_frame_loop fuel (at_ + total) (drop total remaining) in
      Ok (batch :: batches, tail)
  end.

Definition decode_frame (encoded : bytes) : result (list Deflated.Batch * FrameTail) :=
  decode_frame_loop (S (length encoded)) 0 encoded.

(** [RegionRead::truncated]: the read is short of the extent the entry claims. *)
Definition read_truncated (e : SubstreamEntry) (encoded : bytes) : bool :=
  Z.of_nat (length encoded) <? Entry.byte_len e.

Definition decode_region (e : SubstreamEntry) (encoded : bytes) : result (list Deflated.Batch) :=
  match decode_frame encoded with
  | Panic p => Panic p
  | Err _ => Err (CorruptSegment "undecodable batch")
  | Ok (batches, tail) =>
      if read_truncated e encoded then Err (CorruptSegment "short of its footer extent")
      else
      match tail, batches with
      | Exhausted, _ => Ok batches
      | _, [] => Err (CorruptSegment "region holds no whole batch")
      | _, _ => Ok batches
      end
  end.

(** ** The writer *)

(** A coordinate per idempotent, transactional or control batch. *)
Definition coord_of (b : Deflated.Batch) (record_count : Z) : list ProducerCoord :=
  if Deflated.is_idempotent b || Deflated.is_transactional b || Deflated.is_control b then
    let flags := 0 in
    let flags := if Deflated.is_transactional b then Z.lor flags FLAG_TRANSACTIONAL else flags in
    let flags := if Deflated.is_control b then Z.lor flags FLAG_CONTROL else flags in
    [Coord.mk (Deflated.producer_id b) (Deflated.producer_epoch b) (Deflated.base_sequence b)
       (wrap_s 32 (Deflated.base_sequence b + Deflated.last_offset_delta b))
       (wrap_u 32 record_count) flags]
  else [].

(** The batches of one sub-stream: the bytes they add, the records they hold,
    their greatest timestamp and their coordinates. *)
Record Region := mkRegion {
  region_bytes : bytes;
  region_count : Z;
  region_max_timestamp : Z;
  region_producers : list ProducerCoord;
}.

Fixpoint encode_region (index : nat) (r : Region) (batches : list Deflated.Batch)
    : result Region :=
  match batches with
  | [] => Ok r
  | b :: batches =>
      if negb (Deflated.declares_its_own_length b) then Err (DivergentBatch index)
      else
      encode_region (S index)
        (mkRegion (region_bytes r ++ Deflated.to_bytes b)
           (region_count r + (Deflated.last_offset_delta b + 1))
           (Z.max (region_max_timestamp r) (Deflated.max_timestamp b))
           (region_producers r ++ coord_of b (region_count r)))
        batches
  end.

Fixpoint encode_substreams (version : Z) (body : bytes) (es : list SubstreamEntry)
    (substreams : list SubstreamWrite) : result (bytes * list SubstreamEntry) :=
  match substreams with
  | [] => Ok (body, es)
  | w :: substreams =>
      match SWrite.batches w with
      | [] => encode_substreams version body es substreams
      | _ =>
          if (version <? SEGMENT_FORMAT_VERSION_V4)
             && bool_decide (is_Some (Substream_id (SWrite.substream w)))
          then Err (Api 56)
          else
          let! r := encode_region 0 (mkRegion [] 0 i64_MIN []) (SWrite.batches w) in
          let e := Entry.mk (SWrite.topic w) (Substream_id (SWrite.substream w))
                     (SWrite.partition w) (SWrite.base_offset w) (region_count r)
                     (Z.of_nat (length body)) (Z.of_nat (length (region_bytes r)))
                     (region_max_timestamp r) (region_producers r) in
          encode_substreams version (body ++ region_bytes r) (es ++ [e]) substreams
      end
  end.

Definition encode_segment_indexed (substreams : list SubstreamWrite)
    (writer_epoch nonce version : Z) : result (bytes * SegmentFooter) :=
  let! (body, es) := encode_substreams version [] [] substreams in
  let footer := mkFooter writer_epoch nonce es in
  let footer_bytes := encode_footer footer version in
  Ok (body ++ footer_bytes
      ++ encode_trailer (Z.of_nat (length footer_bytes)) (Z.of_nat (length es)) version,
      footer).

(** [SegmentFooter] region bytes: the ranged GET of an entry. *)
Definition region_bytes_of (e : SubstreamEntry) (payload : bytes) : bytes :=
  slice (Z.to_nat (Entry.byte_start e)) (Z.to_nat (Entry.byte_start e + Entry.byte_len e)) payload.

(** [capped_regions]: regions over [cap] bytes split at batch boundaries. *)
Fixpoint cap_region (w : SubstreamWrite) (cap : Z) (base next bytes : Z)
    (region batches : list Deflated.Batch) : list SubstreamWrite :=
  let piece :=
    SWrite.mk (SWrite.topic w) (SWrite.partition w) (SWrite.substream w) base region in
  match batches with
  | [] => [piece]
  | b :: batches =>
      let size := Deflated.wire_size b in
      let next' := next + (Deflated.last_offset_delta b + 1) in
      if negb (bool_decide (region = [])) && (cap <? bytes + size)
      then piece :: cap_region w cap next next' size [b] batches
      else cap_region w cap base next' (bytes + size) (region ++ [b]) batches
  end.

Definition capped_regions (substreams : list SubstreamWrite) (cap : Z) : list SubstreamWrite :=
  if cap =? 0 then substreams
  else flat_map (fun w => cap_region w cap (SWrite.base_offset w) (SWrite.base_offset w) 0 []
                            (SWrite.batches w)) substreams.

(** ** What a version can express *)

Definition coord_at (version : Z) (pc : ProducerCoord) : ProducerCoord :=
  Coord.mk (Coord.producer_id pc) (Coord.producer_epoch pc) (Coord.base_sequence pc)
    (Coord.last_sequence pc) (Coord.offset_delta pc)
    (if SEGMENT_FORMAT_VERSION_V3 <=? version then Coord.flags pc else 0).

Definition entry_at (version : Z) (e : SubstreamEntry) : SubstreamEntry :=
  Entry.mk (Entry.topic e)
    (if SEGMENT_FORMAT_VERSION_V4 <=? version then Entry.topic_id e else None)
    (Entry.partition e) (Entry.base_offset e) (Entry.record_count e) (Entry.byte_start e)
    (Entry.byte_len e) (Entry.max_timestamp e)
    (if SEGMENT_FORMAT_VERSION_V2 <=? version
     then map (coord_at version) (Entry.producers e) else []).

Definition footer_at (version : Z) (f : SegmentFooter) : SegmentFooter :=
  mkFooter (writer_epoch f) (if SEGMENT_FORMAT_VERSION_V2 <=? version then nonce f else 0)
    (map (entry_at version) (entries f)).

(** Values within their Rust types, and counts within the footer's [u16]s. *)
Definition topic_ok (topic : bytes) : bool :=
  utf8_valid topic && in_u16 (Z.of_nat (length topic)).

Definition id_ok (id : option Z) : bool :=
  match id with Some id => in_ty U128 id && negb (id =? 0) | None => true end.

Definition entry_ok (e : SubstreamEntry) : bool :=
  topic_ok (Entry.topic e) && id_ok (Entry.topic_id e) && in_i32 (Entry.partition e)
  && in_i64 (Entry.base_offset e) && in_i64 (Entry.record_count e)
  && in_u64 (Entry.byte_start e) && in_u64 (Entry.byte_len e) && in_i64 (Entry.max_timestamp e)
  && in_u16 (Z.of_nat (length (Entry.producers e))) && forallb Coord.typed (Entry.producers e).

Definition footer_ok (f : SegmentFooter) : bool :=
  in_i64 (writer_epoch f) && in_u64 (nonce f) && in_u32 (Z.of_nat (length (entries f)))
  && forallb entry_ok (entries f).

Lemma bind_if {A B} (c : bool) (r1 r2 : reader A) (f : A -> reader B) bs :
  bind (if c then r1 else r2) f bs = if c then bind r1 f bs else bind r2 f bs.
Proof. by destruct c. Qed.

(** [read_n] over what a writer that projects its values wrote. *)
Lemma read_n_flat_map {A} (enc : A -> bytes) (dec : reader A) (proj : A -> A) (ok : A -> Prop) l rest :
  (forall a rest, ok a -> dec (enc a ++ rest) = Ok (proj a, rest)) -> Forall ok l ->
  read_n (length l) dec (flat_map enc l ++ rest) = Ok (map proj l, rest).
Proof.
  intros Henc. induction 1 as [|x l Hx Hl IH]; [done|]. cbn [length read_n flat_map map].
  rewrite <- app_assoc, (bind_Ok _ _ _ _ _ (Henc x _ Hx)). by rewrite (bind_Ok _ _ _ _ _ IH).
Qed.

Lemma decode_encode_coord version pc rest :
  Coord.typed pc = true ->
  decode_coord version (encode_coord version pc ++ rest) = Ok (coord_at version pc, rest).
Proof.
  intros H. unfold Coord.typed in H. bool_prop. unfold decode_coord, encode_coord, coord_at.
  rewrite <- !app_assoc. do 5 rewrite bind_get_put_int by done. rewrite bind_if.
  case_match; [|done]. by rewrite bind_get_put_int by done.
Qed.

Lemma forallb_Forall_true {A} (f : A -> bool) l : forallb f l = true -> Forall (fun x => f x = true) l.
Proof. rewrite forallb_forall, Forall_forall. intros H x Hx. by apply H, list_elem_of_In. Qed.

Lemma decode_encode_topic_id version id rest :
  id_ok id = true ->
  decode_topic_id version (encode_topic_id version id ++ rest)
  = Ok (if SEGMENT_FORMAT_VERSION_V4 <=? version then id else None, rest).
Proof.
  unfold id_ok, decode_topic_id, encode_topic_id. intros H.
  destruct (SEGMENT_FORMAT_VERSION_V4 <=? version); [|done].
  destruct id as [i|]; [|by rewrite bind_get_put_int by done].
  change (default 0 (Some i)) with i. bool_prop. rewrite bind_get_put_int by done.
  by rewrite (proj2 (Z.eqb_neq i 0)).
Qed.

Lemma decode_encode_producers version pcs rest :
  in_u16 (Z.of_nat (length pcs)) = true -> forallb Coord.typed pcs = true ->
  decode_producers version (encode_producers version pcs ++ rest)
  = Ok (if SEGMENT_FORMAT_VERSION_V2 <=? version then map (coord_at version) pcs else [], rest).
Proof.
  intros Hn Hpcs%forallb_Forall_true. unfold decode_producers, encode_producers.
  destruct (SEGMENT_FORMAT_VERSION_V2 <=? version); [|done].
  rewrite <- app_assoc, bind_get_put_int, Nat2Z.id by done.
  by apply (read_n_flat_map _ _ _ _ _ _ (decode_encode_coord version)).
Qed.

Lemma decode_encode_entry version e rest :
  entry_ok e = true ->
  decode_entry version (encode_entry version e ++ rest) = Ok (entry_at version e, rest).
Proof.
  intros H. unfold entry_ok, topic_ok in H. bool_prop.
  unfold decode_entry, encode_entry. rewrite <- !app_assoc.
  rewrite bind_get_put_int by done. rewrite bind_take_n by lia.
  match goal with H : utf8_valid _ = true |- _ => rewrite H end. cbn [negb].
  erewrite bind_Ok by (by apply decode_encode_topic_id).
  do 6 rewrite bind_get_put_int by done.
  by erewrite bind_Ok by (by apply decode_encode_producers).
Qed.

Lemma decode_encode_footer version f rest :
  footer_ok f = true ->
  decode_footer (encode_footer f version ++ rest) (length (entries f)) version
  = Ok (footer_at version f).
Proof.
  intros H. unfold footer_ok in H. bool_prop.
  match goal with H : forallb _ _ = true |- _ => apply forallb_Forall_true in H as He end.
  unfold decode_footer, encode_footer, footer_at, rmap. rewrite <- !app_assoc.
  rewrite bind_get_put_int by done. rewrite bind_if.
  assert (Hrd : read_n (length (entries f)) (decode_entry version)
            (flat_map (encode_entry version) (entries f) ++ rest)
          = Ok (map (entry_at version) (entries f), rest))
    by (by apply (read_n_flat_map _ _ _ _ _ _ (decode_encode_entry version))).
  destruct (SEGMENT_FORMAT_VERSION_V2 <=? version);
    [rewrite bind_get_put_int by done|rewrite app_nil_l, bind_ret];
    by rewrite (bind_Ok _ _ _ _ _ Hrd).
Qed.

(** ** The trailer *)

Lemma int_of_slice t z l r a b :
  a = length l -> b = (a + width t)%nat -> in_ty t z = true ->
  int_of t (slice a b (l ++ put_int t z ++ r)) = z.
Proof.
  intros -> -> Hz. rewrite slice_app_mid by (rewrite ?length_put_int; done).
  by rewrite int_of_put_int, cast_small.
Qed.

Lemma length_trailer n c v : length (encode_trailer n c v) = SEGMENT_TRAILER_LEN.
Proof. unfold encode_trailer. by autorewrite with wire. Qed.

Lemma trailer_fields n c v :
  in_u64 n = true -> in_u32 c = true -> in_u16 v = true ->
  let trailer := encode_trailer n c v in
  int_of U64 (slice 0 8 trailer) = n /\ int_of U32 (slice 8 12 trailer) = c /\
  int_of U16 (slice 12 14 trailer) = v /\ int_of U32 (slice 14 18 trailer) = SEGMENT_MAGIC.
Proof.
  intros Hn Hc Hv trailer. unfold trailer, encode_trailer. split_and!.
  - by apply (int_of_slice U64 n []).
  - by apply (int_of_slice U32 c (put_int U64 n)).
  - rewrite (app_assoc (put_int U64 n)).
    by apply (int_of_slice U16 v (put_int U64 n ++ put_int U32 c)).
  - rewrite (app_assoc (put_int U64 n)), app_assoc, <- (app_nil_r (put_int U32 SEGMENT_MAGIC)).
    by apply (int_of_slice U32 SEGMENT_MAGIC ((put_int U64 n ++ put_int U32 c) ++ put_int U16 v)).
Qed.

Lemma decode_segment_footer_tail version pre f :
  footer_ok f = true -> supported_version version = true -> in_u16 version = true ->
  in_u64 (Z.of_nat (length (encode_footer f version))) = true ->
  decode_segment_footer
    (pre ++ encode_footer f version
     ++ encode_trailer (Z.of_nat (length (encode_footer f version)))
          (Z.of_nat (length (entries f))) version)
  = Ok (Some (footer_at version f)).
Proof.
  intros Hf Hv Hv16 Hlen. set (fb := encode_footer f version) in *.
  assert (Hcount : in_u32 (Z.of_nat (length (entries f))) = true).
  { unfold footer_ok in Hf. by bool_prop. }
  destruct (trailer_fields _ _ _ Hlen Hcount Hv16) as (E1 & E2 & E3 & E4).
  set (trailer := encode_trailer _ _ _) in *. unfold decode_segment_footer.
  assert (Htl : length trailer = SEGMENT_TRAILER_LEN) by apply length_trailer.
  rewrite !length_app, Htl. rewrite (proj2 (Nat.ltb_ge _ _)) by lia.
  replace (length pre + (length fb + SEGMENT_TRAILER_LEN) - SEGMENT_TRAILER_LEN)%nat
    with (length pre + length fb)%nat by lia.
  replace (drop (length pre + length fb) (pre ++ fb ++ trailer)) with trailer.
  2: { by rewrite app_assoc, drop_app_exact by (by rewrite length_app). }
  rewrite E1, E2, E3, E4, Z.eqb_refl, Hv. cbn [negb].
  rewrite (proj2 (Z.ltb_ge _ _)) by lia. rewrite !Nat2Z.id.
  replace (length pre + length fb - length fb)%nat with (length pre) by lia.
  rewrite slice_app_mid by done. rewrite <- (app_nil_r fb). unfold fb.
  by rewrite decode_encode_footer.
Qed.

(** ** Frames *)

(** A batch a writer accepts and a reader reads back. *)
Definition batch_ok (b : Deflated.Batch) : bool :=
  Deflated.typed b && Deflated.is_record_batch_v2 b && Deflated.declares_its_own_length b.

Definition encode_frame (bs : list Deflated.Batch) : bytes := flat_map Deflated.to_bytes bs.

Lemma length_to_bytes b : length (Deflated.to_bytes b) = (61 + length (Deflated.record_data b))%nat.
Proof. unfold Deflated.to_bytes. autorewrite with wire. cbn. lia. Qed.

Lemma decode_frame_loop_batch fuel at_ b rest :
  batch_ok b = true ->
  decode_frame_loop (S fuel) at_ (Deflated.to_bytes b ++ rest) =
  (let! (batches, tail) := decode_frame_loop fuel (at_ + length (Deflated.to_bytes b)) rest in
   Ok (b :: batches, tail)).
Proof.
  intros H. unfold batch_ok in H. bool_prop.
  assert (Hb : in_i32 (Deflated.batch_length b) = true)
    by (match goal with H : Deflated.typed _ = true |- _ =>
          unfold Deflated.typed in H; by bool_prop end).
  match goal with H : Deflated.declares_its_own_length b = true |- _ =>
    pose proof H as Hd; apply declares_spec in Hd as [Hlen _] end.
  unfold FIXED_BATCH_LENGTH in Hlen. cbn [decode_frame_loop].
  rewrite (proj2 (Nat.ltb_ge _ _)) by (rewrite length_app, length_to_bytes; unfold PREFIX; lia).
  assert (Hdecl : int_of I32 (slice 8 PREFIX (Deflated.to_bytes b ++ rest))
                  = Deflated.batch_length b).
  { unfold Deflated.to_bytes. rewrite <- !app_assoc.
    by apply (int_of_slice I32 _ (put_int I64 (Deflated.base_offset b))). }
  rewrite Hdecl. rewrite (proj2 (Z.ltb_ge _ 0)) by lia.
  assert (Htot : (PREFIX + Z.to_nat (Deflated.batch_length b))%nat
                 = length (Deflated.to_bytes b)) by (rewrite length_to_bytes; unfold PREFIX; lia).
  rewrite Htot, length_app. rewrite (proj2 (Nat.ltb_ge _ _)) by lia.
  rewrite take_app_length, drop_app_length. rewrite (proj2 (try_from_Ok _ b)); [done|].
  exists []. rewrite <- (app_nil_r (Deflated.to_bytes b)). by apply read_batch_to_bytes.
Qed.

Lemma decode_encode_frame bs : forallb batch_ok bs = true ->
  decode_frame (encode_frame bs) = Ok (bs, Exhausted).
Proof.
  intros H%forallb_Forall_true. unfold decode_frame.
  assert (Hgen : forall fuel at_, (length (encode_frame bs) < fuel)%nat ->
    decode_frame_loop fuel at_ (encode_frame bs) = Ok (bs, Exhausted)); [|apply Hgen; lia].
  induction H as [|b bs Hb Hbs IH]; intros fuel at_ Hf; (destruct fuel; [lia|]); [done|].
  cbn [encode_frame flat_map] in *. rewrite length_app, length_to_bytes in Hf.
  rewrite decode_frame_loop_batch by done. unfold encode_frame in IH. rewrite IH; [done|lia].
Qed.

(** The scan terminates within its fuel on any bytes, and never panics. *)
Lemma decode_frame_fuel bs p : decode_frame bs <> Panic p.
Proof.
  unfold decode_frame.
  assert (Hgen : forall fuel at_ bs, (length bs < fuel)%nat ->
    decode_frame_loop fuel at_ bs <> Panic p); [|apply Hgen; lia].
  induction fuel as [|fuel IH]; intros at_ bs' Hf; [lia|]. cbn [decode_frame_loop].
  destruct (Nat.ltb_spec (length bs') PREFIX); [done|]. case_head; [done|].
  case_head; [done|]. destruct (Deflated.try_from _) as [b| |q] eqn:E; cbn [rbind]; [|done|].
  - destruct (decode_frame_loop _ _ _) as [[]| |] eqn:E2; cbn [rbind]; [done..|].
    intros [= ->]. apply IH in E2; [done|]. rewrite length_drop. unfold PREFIX in *. lia.
  - exfalso. unfold Deflated.try_from, rmap in E.
    destruct (Deflated.read_batch _) as [[]| |] eqn:E2; cbn in E; try done.
    by apply safe_read_batch in E2.
Qed.

(** ** The writer describes what it wrote *)

Fixpoint total_records (bs : list Deflated.Batch) : Z :=
  match bs with
  | [] => 0
  | b :: bs => (Deflated.last_offset_delta b + 1) + total_records bs
  end.

Lemma total_records_app bs cs : total_records (bs ++ cs) = total_records bs + total_records cs.
Proof. induction bs; cbn; lia. Qed.

(** The sub-streams that leave an entry. *)
Definition nonempty (ws : list SubstreamWrite) : list SubstreamWrite :=
  filter (fun w => SWrite.batches w <> []) ws.

Definition describes (payload : bytes) (w : SubstreamWrite) (e : SubstreamEntry) : Prop :=
  Entry.topic e = SWrite.topic w /\ Entry.topic_id e = Substream_id (SWrite.substream w) /\
  Entry.partition e = SWrite.partition w /\ Entry.base_offset e = SWrite.base_offset w /\
  Entry.record_count e = total_records (SWrite.batches w) /\
  Entry.byte_len e = Z.of_nat (length (encode_frame (SWrite.batches w))) /\
  region_bytes_of e payload = encode_frame (SWrite.batches w).

Lemma encode_region_Ok i r bs r' :
  encode_region i r bs = Ok r' ->
  region_bytes r' = region_bytes r ++ encode_frame bs /\
  region_count r' = region_count r + total_records bs /\
  Forall (fun b => Deflated.declares_its_own_length b = true) bs.
Proof.
  revert i r. induction bs as [|b bs IH]; intros i r H; cbn in H.
  { injection H as <-. cbn. rewrite app_nil_r. split; [done|]. split; [lia|constructor]. }
  destruct (Deflated.declares_its_own_length b) eqn:Ed; [|done]. cbn [negb] in H.
  apply IH in H as (Hb & Hc & Hd). cbn [region_bytes region_count] in Hb, Hc. split_and!.
  - rewrite Hb, <- app_assoc. done.
  - rewrite Hc. cbn [total_records]. lia.
  - by constructor.
Qed.

(** Coordinates and timestamp of a region stay in their types. *)
Lemma coord_of_ok b n :
  Deflated.typed b = true -> forallb Coord.typed (coord_of b n) = true /\
  (length (coord_of b n) <= 1)%nat.
Proof.
  intros H. unfold Deflated.typed in H. bool_prop. unfold coord_of.
  case_match; [|cbn; split; [done|lia]]. cbn [forallb length]. split; [|lia].
  rewrite andb_true_r. unfold Coord.typed. cbn [Coord.producer_id Coord.producer_epoch
    Coord.base_sequence Coord.last_sequence Coord.offset_delta Coord.flags].
  rewrite wrap_s_range, wrap_u_range by lia.
  repeat match goal with H : s_range _ _ = true |- _ => rewrite H; clear H end.
  by destruct (Deflated.is_transactional b), (Deflated.is_control b).
Qed.

Lemma encode_region_typed i r bs r' :
  encode_region i r bs = Ok r' -> Forall (fun b => Deflated.typed b = true) bs ->
  forallb Coord.typed (region_producers r) = true -> in_i64 (region_max_timestamp r) = true ->
  forallb Coord.typed (region_producers r') = true /\ in_i64 (region_max_timestamp r') = true /\
  (length (region_producers r') <= length (region_producers r) + length bs)%nat.
Proof.
  intros H Hbs. revert i r H. induction Hbs as [|b bs Hb Hbs IH]; intros i r H Hp Hm; cbn in H.
  { injection H as <-. split_and!; [done|done|lia]. }
  case_match; [done|]. destruct (coord_of_ok b (region_count r) Hb) as [Hc Hl].
  apply IH in H as (H1 & H2 & H3); cbn in *.
  - rewrite length_app in H3. split_and!; [done|done|lia].
  - by rewrite forallb_app, Hp, Hc.
  - unfold Deflated.typed in Hb. bool_prop.
    match goal with H : in_i64 (Deflated.max_timestamp b) = true |- _ => revert H end.
    revert Hm. rewrite !s_range_spec. lia.
Qed.

Lemma region_bytes_of_app e payload tail :
  0 <= Entry.byte_start e -> 0 <= Entry.byte_len e ->
  Entry.byte_start e + Entry.byte_len e <= Z.of_nat (length payload) ->
  region_bytes_of e (payload ++ tail) = region_bytes_of e payload.
Proof.
  intros. unfold region_bytes_of, slice.
  rewrite (drop_app_le payload tail) by lia. apply take_app_le. rewrite length_drop. lia.
Qed.

Lemma nonempty_cons w ws :
  nonempty (w :: ws) = match SWrite.batches w with [] => nonempty ws | _ => w :: nonempty ws end.
Proof.
  unfold nonempty. rewrite filter_cons. destruct (decide _) as [H|H]; destruct (SWrite.batches w);
    done || by destruct H.
Qed.

Lemma encode_substreams_Ok version body es ws body' es' :
  encode_substreams version body es ws = Ok (body', es') ->
  exists ext new, body' = body ++ ext /\ es' = es ++ new /\
    (forall tail, Forall2 (describes (body' ++ tail)) (nonempty ws) new) /\
    Forall (fun w => Forall (fun b => Deflated.declares_its_own_length b = true) (SWrite.batches w)
                     /\ (version < SEGMENT_FORMAT_VERSION_V4 -> Substream_id (SWrite.substream w) = None))
      (nonempty ws).
Proof.
  revert body es. induction ws as [|w ws IH]; intros body es H.
  { cbn in H. injection H as <- <-. exists [], []. rewrite !app_nil_r.
    split_and!; done || (intros; constructor). }
  cbn in H. rewrite nonempty_cons. destruct (SWrite.batches w) as [|b0 bs0] eqn:Ebs; [by apply IH|].
  rewrite <- Ebs in *. clear b0 bs0 Ebs.
  destruct (_ && _) eqn:Eid in H; [done|]. inv_ok.
  apply encode_region_Ok in E as (Hb & Hc & Hd). cbn in Hb, Hc.
  apply IH in H as (ext & new & -> & -> & Hall & Hok).
  exists (region_bytes a ++ ext), (Entry.mk (SWrite.topic w) (Substream_id (SWrite.substream w))
    (SWrite.partition w) (SWrite.base_offset w) (region_count a) (Z.of_nat (length body))
    (Z.of_nat (length (region_bytes a))) (region_max_timestamp a) (region_producers a) :: new).
  split_and!; [by rewrite app_assoc|by rewrite <- app_assoc| |].
  - intros tail. constructor; [|apply Hall]. unfold describes. cbn.
    split_and!; try done; [by rewrite Hb|].
    unfold region_bytes_of. cbn. rewrite <- !app_assoc, Hb. apply slice_app_mid; lia.
  - constructor; [|done]. split; [done|]. intros Hv.
    rewrite (proj2 (Z.ltb_lt _ _) Hv) in Eid. cbn in Eid.
    apply bool_decide_eq_false in Eid. by apply eq_None_not_Some.
Qed.

(** A sub-stream write whose parts fit the footer's fields. *)
Definition write_ok (w : SubstreamWrite) : bool :=
  topic_ok (SWrite.topic w) && id_ok (Substream_id (SWrite.substream w))
  && in_i32 (SWrite.partition w) && in_i64 (SWrite.base_offset w)
  && in_i64 (total_records (SWrite.batches w)) && forallb batch_ok (SWrite.batches w)
  && in_u16 (Z.of_nat (length (SWrite.batches w))).

Lemma encode_substreams_entry_ok version body es ws body' es' :
  encode_substreams version body es ws = Ok (body', es') ->
  forallb write_ok ws = true -> Z.of_nat (length body') < 2 ^ 63 ->
  forallb entry_ok es = true ->
  forallb entry_ok es' = true /\ (length es' <= length es + length ws)%nat.
Proof.
  revert body es. induction ws as [|w ws IH]; intros body es H Hws Hlen Hes.
  { cbn in H. injection H as <- <-. split; [done|lia]. }
  cbn in H, Hws. apply andb_true_iff in Hws as [Hw Hws].
  destruct (SWrite.batches w) as [|b0 bs0] eqn:Ebs.
  { apply IH in H as [? ?]; try done. split; [done|cbn; lia]. }
  rewrite <- Ebs in *. clear b0 bs0 Ebs. case_match; [done|]. inv_ok.
  pose proof H as H'. apply encode_substreams_Ok in H' as (ext & _ & -> & _).
  unfold write_ok in Hw. repeat rewrite andb_true_iff in Hw.
  destruct Hw as ((((((Htopic & Hid) & Hpart) & Hbase) & Htotal) & Hbs) & Hn16).
  apply forallb_Forall_true in Hbs as Hb. pose proof E as E'.
  apply encode_region_typed in E' as (Hp & Hm & Hn); [|..].
  2: { eapply Forall_impl; [exact Hb|]. intros b ?. unfold batch_ok in *. by bool_prop. }
  2, 3: done.
  apply encode_region_Ok in E as (Hbytes & Hcount & _). cbn in Hn, Hbytes, Hcount.
  apply IH in H as [? Hl]; try done; [|].
  - split; [done|]. rewrite length_app in Hl. cbn in *. lia.
  - rewrite forallb_app, Hes. cbn [forallb andb]. rewrite andb_true_r.
    rewrite !length_app in Hlen. unfold entry_ok. cbn [Entry.topic Entry.topic_id Entry.partition
      Entry.base_offset Entry.record_count Entry.byte_start Entry.byte_len Entry.max_timestamp
      Entry.producers]. rewrite Hcount, Hp, Hm.
    rewrite Htopic, Hid, Hpart, Hbase. cbn [andb]. rewrite Z.add_0_l, Htotal.
    assert (Hu64 : forall n : nat, Z.of_nat n < 2 ^ 63 -> in_u64 (Z.of_nat n) = true)
      by (intros; apply u_range_spec; lia).
    rewrite !Hu64 by lia. cbn [andb]. rewrite andb_true_r. apply u_range_spec.
    apply u_range_spec in Hn16. lia.
Qed.

Lemma entry_at_id version e :
  SEGMENT_FORMAT_VERSION_V3 <= version ->
  (version < SEGMENT_FORMAT_VERSION_V4 -> Entry.topic_id e = None) -> entry_at version e = e.
Proof.
  intros Hv Hid. unfold entry_at, coord_at, SEGMENT_FORMAT_VERSION_V2,
    SEGMENT_FORMAT_VERSION_V3, SEGMENT_FORMAT_VERSION_V4 in *.
  rewrite (proj2 (Z.leb_le 2 _)) by lia. rewrite (proj2 (Z.leb_le 3 _)) by lia.
  destruct e as [? tid ? ? ? ? ? ? pcs]. cbn in *. f_equal.
  - destruct (Z.leb_spec 4 version); [done|]. by rewrite Hid.
  - clear. induction pcs as [|[] pcs IH]; cbn; [done|]. by rewrite IH.
Qed.

Lemma footer_at_id version f :
  SEGMENT_FORMAT_VERSION_V3 <= version ->
  Forall (fun e => version < SEGMENT_FORMAT_VERSION_V4 -> Entry.topic_id e = None) (entries f) ->
  footer_at version f = f.
Proof.
  intros Hv Hf. unfold footer_at, SEGMENT_FORMAT_VERSION_V2, SEGMENT_FORMAT_VERSION_V3 in *.
  rewrite (proj2 (Z.leb_le 2 _)) by lia. destruct f as [we n es]. cbn in *. f_equal.
  induction Hf as [|e es He Hes IH]; cbn; [done|]. by rewrite IH, entry_at_id.
Qed.

(** A suffix of [body ++ x] that is at least as long as [x] ends in it. *)
Lemma suffix_split {A} (pre tail body x : list A) :
  pre ++ tail = body ++ x -> (length x <= length tail)%nat -> exists mid, tail = mid ++ x.
Proof.
  intros E Hl. assert (length pre + length tail = length body + length x)%nat as Hlen
    by (by rewrite <- !length_app, E).
  exists (drop (length pre) body).
  rewrite <- (drop_app_le body x), <- E, drop_app_length by lia. done.
Qed.

Lemma entries_named {P : SubstreamWrite -> Prop} version payload ws es :
  Forall2 (describes payload) ws es ->
  Forall (fun w => P w /\ (version < SEGMENT_FORMAT_VERSION_V4 ->
                           Substream_id (SWrite.substream w) = None)) ws ->
  Forall (fun e => version < SEGMENT_FORMAT_VERSION_V4 -> Entry.topic_id e = None) es.
Proof.
  induction 1 as [|w e ws es Hd Hall IH]; intros Hok; [done|].
  inversion Hok as [|? ? [_ Hid] Hok']; subst. constructor; [|by apply IH].
  destruct Hd as (_ & -> & _). done.
Qed.

Lemma describes_decodes payload ws es :
  Forall2 (describes payload) ws es -> Forall (fun w => write_ok w = true) ws ->
  Forall2 (fun w e => describes payload w e /\
             decode_region e (region_bytes_of e payload) = Ok (SWrite.batches w)) ws es.
Proof.
  induction 1 as [|w e ws es Hd Hall IH]; intros Hok; [constructor|].
  inversion Hok as [|? ? Hw Hok']; subst. constructor; [|by apply IH]. split; [done|].
  destruct Hd as (_ & _ & _ & _ & _ & Hbl & ->). unfold decode_region, read_truncated.
  rewrite decode_encode_frame; [by rewrite Hbl, Z.ltb_irrefl|].
  unfold write_ok in Hw. by bool_prop.
Qed.

Lemma nonempty_ok ws :
  forallb write_ok ws = true -> Forall (fun w => write_ok w = true) (nonempty ws).
Proof.
  intros H%forallb_Forall_true. rewrite Forall_forall in *. intros w Hw.
  apply list_elem_of_filter in Hw as [_ Hw]. by apply H.
Qed.

(** Why a scan that consumed [at_] bytes stopped at [rest]. *)
Definition tail_verdict (at_ : nat) (rest : bytes) (tail : FrameTail) : Prop :=
  match tail with
  | Exhausted => rest = []
  | Short a n => a = at_ /\ n = length rest /\ (0 < n < PREFIX)%nat
  | Malformed a d =>
      a = at_ /\ (PREFIX <= length rest)%nat /\ d = int_of I32 (slice 8 PREFIX rest) /\
      (d < 0 \/ Z.of_nat (length rest) < Z.of_nat PREFIX + d)
  end.

(** A scan cuts the region into consecutive frames, one per batch. *)
Lemma decode_frame_partition bs batches tail :
  decode_frame bs = Ok (batches, tail) ->
  exists frames rest, bs = concat frames ++ rest /\
    Forall2 (fun frame b => Deflated.try_from frame = Ok b) frames batches /\
    tail_verdict (length (concat frames)) rest tail.
Proof.
  unfold decode_frame. generalize (S (length bs)) as fuel. intros fuel.
  assert (Hgen : forall at_ bs batches tail, decode_frame_loop fuel at_ bs = Ok (batches, tail) ->
    exists frames rest, bs = concat frames ++ rest /\
      Forall2 (fun frame b => Deflated.try_from frame = Ok b) frames batches /\
      tail_verdict (at_ + length (concat frames)) rest tail); [|apply Hgen].
  clear. induction fuel as [|fuel IH]; intros at_ bs batches tail H; [done|].
  cbn [decode_frame_loop] in H. destruct (Nat.ltb_spec (length bs) PREFIX) as [Hs|Hs].
  { injection H as <- <-. exists [], bs. rewrite Nat.add_0_r. split; [done|]. split; [constructor|].
    destruct bs; [done|]. cbn in *. lia. }
  destruct (Z.ltb_spec (int_of I32 (slice 8 PREFIX bs)) 0).
  { apply Ok_inj, pair_eq in H as [<- <-]. exists [], bs. rewrite Nat.add_0_r.
    split; [done|]. split; [constructor|]. cbn [tail_verdict]. auto. }
  set (total := (PREFIX + Z.to_nat _)%nat) in *.
  destruct (Nat.ltb_spec (length bs) total).
  { apply Ok_inj, pair_eq in H as [<- <-]. exists [], bs. rewrite Nat.add_0_r.
    split; [done|]. split; [constructor|]. cbn [tail_verdict]. split_and!; try done. right. lia. }
  apply rbind_Ok in H as (b & Eb & H). apply rbind_Ok in H as ([bs' t] & E & H).
  apply Ok_inj, pair_eq in H as [<- <-]. apply IH in E as (frames & rest & Ebs & Hall & Ht).
  exists (take total bs :: frames), rest. cbn [concat]. split_and!.
  - rewrite <- app_assoc, <- Ebs. by rewrite take_drop.
  - by constructor.
  - rewrite length_app, length_take, Nat.min_l, Nat.add_assoc by lia. done.
Qed.

Lemma cap_region_tiles w cap base next bytes region batches :
  next = base + total_records region -> bytes = fold_right Z.add 0 (map Deflated.wire_size region) ->
  (bytes <= cap \/ (length region <= 1)%nat) -> 0 < cap ->
  let pieces := cap_region w cap base next bytes region batches in
  concat (map SWrite.batches pieces) = region ++ batches /\
  Forall (fun p => SWrite.topic p = SWrite.topic w /\ SWrite.partition p = SWrite.partition w /\
                   SWrite.substream p = SWrite.substream w /\
                   (fold_right Z.add 0 (map Deflated.wire_size (SWrite.batches p)) <= cap \/
                    (length (SWrite.batches p) <= 1)%nat)) pieces /\
  (forall l p r, pieces = l ++ p :: r ->
     SWrite.base_offset p = base + total_records (concat (map SWrite.batches l))).
Proof.
  revert base next bytes region. induction batches as [|b batches IH];
    intros base next bytes region Hn Hb Hcap Hpos; cbn.
  { rewrite app_nil_r. split; [done|]. split; [constructor; [by subst|done]|].
    intros [|? [|? ?]] p r Hl; [injection Hl as <- _; cbn; lia|done..]. }
  destruct (negb _ && _) eqn:E.
  - apply andb_true_iff in E as [Er Ec]. specialize (IH next (next + (Deflated.last_offset_delta b + 1))
      (Deflated.wire_size b) [b]).
    destruct IH as (H1 & H2 & H3); [cbn; lia|cbn; lia|right; cbn; lia|done|].
    cbn. rewrite H1. split; [done|]. split; [constructor; [by subst|done]|].
    intros [|q l] p r [= <- Hr]; cbn; [lia|]. rewrite (H3 l p r Hr), total_records_app. lia.
  - apply (IH base (next + (Deflated.last_offset_delta b + 1)) (bytes + Deflated.wire_size b)
      (region ++ [b])) in Hpos as (H1 & H2 & H3).
    + rewrite <- app_assoc in H1. done.
    + rewrite total_records_app. cbn. lia.
    + rewrite map_app, foldr_app. cbn. subst bytes. clear.
      induction region as [|x region IH]; cbn; [lia|]. rewrite <- IH. lia.
    + apply andb_false_iff in E as [E|E].
      * apply negb_false_iff, bool_decide_eq_true in E. subst region. right. cbn. lia.
      * apply Z.ltb_ge in E. by left.
Qed.

(** ** Properties *)

(** C11 A segment describes itself: from what [encode_segment_indexed] writes,
    any suffix that covers the footer and the trailer recovers the footer, and
    for every sub-stream written, in order, the footer's entry names it, counts
    its records, and locates a region that decodes to exactly its batches. *)
Theorem segment_roundtrip (ws : list SubstreamWrite) (we nc version : Z)
    (payload : bytes) (footer : SegmentFooter) :
  forallb write_ok ws = true -> in_u32 (Z.of_nat (length ws)) = true ->
  in_i64 we = true -> in_u64 nc = true ->
  version = SEGMENT_FORMAT_VERSION_V3 \/ version = SEGMENT_FORMAT_VERSION_V4 ->
  encode_segment_indexed ws we nc version = Ok (payload, footer) ->
  Z.of_nat (length payload) < 2 ^ 63 ->
  (forall pre tail, payload = pre ++ tail ->
     (length (encode_footer footer version) + SEGMENT_TRAILER_LEN <= length tail)%nat ->
     decode_segment_footer tail = Ok (Some footer)) /\
  Forall2 (fun w e => describes payload w e /\
             decode_region e (region_bytes_of e payload) = Ok (SWrite.batches w))
    (nonempty ws) (entries footer).
Proof.
  intros Hws Hn Hwe Hnc Hv H Hlen. unfold encode_segment_indexed in H.
  apply rbind_Ok in H as ([body es] & E & H). apply Ok_inj, pair_eq in H as [<- <-].
  rewrite !length_app in Hlen. pose proof E as E'.
  apply encode_substreams_entry_ok in E' as [Hes Hcount]; [|done|lia|done].
  apply encode_substreams_Ok in E as (ext & new & _ & -> & Hall & Hok). cbn [app length] in *.
  set (footer := mkFooter we nc new) in *. set (fb := encode_footer footer version) in *.
  assert (Hfok : footer_ok footer = true).
  { unfold footer_ok. cbn. rewrite Hwe, Hnc, Hes. cbn. rewrite andb_true_r.
    apply u_range_spec. apply u_range_spec in Hn. lia. }
  split.
  - intros pre tail Hp Htail. symmetry in Hp. apply suffix_split in Hp as [mid ->];
      [|rewrite length_app, length_trailer; lia].
    pose proof (decode_segment_footer_tail version mid footer Hfok) as Hd. fold fb in Hd.
    cbn [entries footer] in Hd. rewrite Hd;
      [|by destruct Hv as [-> | ->]|by destruct Hv as [-> | ->]|apply u_range_spec; lia].
    rewrite footer_at_id; [done|destruct Hv as [-> | ->]; unfold SEGMENT_FORMAT_VERSION_V3,
      SEGMENT_FORMAT_VERSION_V4; lia|]. cbn.
    by eapply entries_named, Hok; apply (Hall []).
  - specialize (Hall (fb ++ encode_trailer (Z.of_nat (length fb)) (Z.of_nat (length new)) version)).
    apply describes_decodes; [done|]. by apply nonempty_ok.
Qed.

Definition sample_writes : list SubstreamWrite :=
  [SWrite.mk (ascii_bytes "orders") 0 (Name (ascii_bytes "orders")) 41 [sample_batch];
   SWrite.mk (ascii_bytes "empty") 0 (Name (ascii_bytes "empty")) 0 [];
   SWrite.mk (ascii_bytes "users") 3 (Id 77) 0 [sample_batch; sample_batch]].

Lemma segment_roundtrip_witness :
  exists payload footer, encode_segment_indexed sample_writes 5 9 4 = Ok (payload, footer) /\
    decode_segment_footer payload = Ok (Some footer).
Proof.
  eexists _, _. split; [vm_compute; reflexivity|].
  refine (proj1 (segment_roundtrip sample_writes 5 9 4 _ _ _ _ _ _ _ _ _) [] _ eq_refl _);
    try (vm_compute; reflexivity); [by right|]. vm_compute. lia.
Defined.

(** Every footer version is read by the layout it was written in: decoding
    what any version encodes returns the footer minus what that version has no
    place for (the nonce and coordinates below v2, the flags below v3, the topic
    ids below v4), and v4 loses nothing. *)
Theorem footer_roundtrip (f : SegmentFooter) (version : Z) (rest : bytes) :
  footer_ok f = true ->
  decode_footer (encode_footer f version ++ rest) (length (entries f)) version
  = Ok (footer_at version f) /\
  (SEGMENT_FORMAT_VERSION_V4 <= version -> footer_at version f = f).
Proof.
  intros Hf. split; [by apply decode_encode_footer|]. intros Hv.
  unfold SEGMENT_FORMAT_VERSION_V4 in Hv. apply footer_at_id; [unfold SEGMENT_FORMAT_VERSION_V3; lia|].
  apply Forall_forall. unfold SEGMENT_FORMAT_VERSION_V4. intros; lia.
Qed.

Lemma footer_roundtrip_witness :
  decode_footer (encode_footer (mkFooter 3 8 []) 1 ++ [x00]) 0 1 = Ok (mkFooter 3 0 []).
Proof. by apply (footer_roundtrip (mkFooter 3 8 []) 1 [x00]). Defined.

(** The writer refuses what no reader could serve: a segment is written
    only when every batch in it declares its own length, and below v4 only when
    every sub-stream with records is keyed by name. *)
Theorem writer_refuses (ws : list SubstreamWrite) (we nc version : Z)
    (payload : bytes) (footer : SegmentFooter) :
  encode_segment_indexed ws we nc version = Ok (payload, footer) ->
  Forall (fun w =>
    Forall (fun b => Deflated.declares_its_own_length b = true) (SWrite.batches w) /\
    (version < SEGMENT_FORMAT_VERSION_V4 -> Substream_id (SWrite.substream w) = None))
    (nonempty ws).
Proof.
  intros H. unfold encode_segment_indexed in H. apply rbind_Ok in H as ([body es] & E & _).
  by apply encode_substreams_Ok in E as (_ & _ & _ & _ & _ & Hok).
Qed.

Lemma writer_refuses_witness :
  Forall (fun w =>
    Forall (fun b => Deflated.declares_its_own_length b = true) (SWrite.batches w) /\
    (4 < SEGMENT_FORMAT_VERSION_V4 -> Substream_id (SWrite.substream w) = None))
    (nonempty sample_writes).
Proof. eapply (writer_refuses sample_writes 5 9 4). vm_compute. reflexivity. Defined.

(** A footer cannot hold what its counts cannot count: no bytes decode to an
    entry with 65536 or more producer coordinates or name bytes, so a sub-stream
    region holding that many idempotent batches, which the writer accepts, is
    written with a footer that can never be read back as it was. *)
Theorem footer_capacity (footer_bytes : bytes) (count : nat) (version : Z) (f : SegmentFooter) :
  decode_footer footer_bytes count version = Ok f ->
  Forall (fun e => (Z.of_nat (length (Entry.producers e)) < 2 ^ 16) /\
                   (Z.of_nat (length (Entry.topic e)) < 2 ^ 16)) (entries f).
Proof.
  intros H. unfold decode_footer, rmap in H. apply rbind_Ok in H as ([f' r] & H & Hf).
  injection Hf as <-. apply bind_Ok_inv in H as (? & ? & _ & H).
  apply bind_Ok_inv in H as (? & ? & _ & H). apply bind_Ok_inv in H as (es & ? & Hes & H).
  injection H as <- _. cbn. eapply read_n_Forall; [|exact Hes]. clear. intros bs e rest H.
  unfold decode_entry in H. inv_read. apply bind_Ok_inv in H as (topic & ? & [-> Ht]%take_n_Ok & H1).
  case_match; [done|]. apply bind_Ok_inv in H1 as (? & ? & _ & H1). inv_read.
  apply bind_Ok_inv in H1 as (pcs & ? & Hp & H1). injection H1 as <- _. cbn.
  apply (u_range_spec 16) in R. split; [|rewrite Ht; lia].
  unfold decode_producers in Hp. case_match; [|by injection Hp as <- _].
  inv_read. apply read_n_length in Hp.
  match goal with H : in_ty U16 ?x = true |- _ => apply (u_range_spec 16) in H end. rewrite Hp. lia.
Qed.

Lemma footer_capacity_witness :
  Forall (fun e => (Z.of_nat (length (Entry.producers e)) < 2 ^ 16) /\
                   (Z.of_nat (length (Entry.topic e)) < 2 ^ 16)) [].
Proof. apply (footer_capacity (put_int I64 0) 0 1 (mkFooter 0 0 [])). by vm_compute. Defined.

(** A region read is served whole or not at all: what [decode_region]
    returns is a reading of consecutive frames from the region's start, the read
    covered the extent the footer claims, and an empty answer means an empty
    region; no input makes it panic. *)
Theorem region_read_sound (e : SubstreamEntry) (encoded : bytes) :
  (forall batches, decode_region e encoded = Ok batches ->
   Entry.byte_len e <= Z.of_nat (length encoded) /\ (batches = [] -> encoded = []) /\
   exists frames rest, encoded = concat frames ++ rest /\
     Forall2 (fun frame b => Deflated.try_from frame = Ok b) frames batches) /\
  (forall p, decode_region e encoded <> Panic p).
Proof.
  unfold decode_region. split.
  - intros batches H. destruct (decode_frame encoded) as [[bs tail]| |] eqn:E; [|done..].
    apply decode_frame_partition in E as (frames & rest & -> & Hall & Ht).
    unfold read_truncated in H. case_match eqn:Etr; [done|]. apply Z.ltb_ge in Etr.
    assert (batches = bs /\ (bs = [] -> tail = Exhausted)) as [-> Hnil].
    { destruct tail, bs; try done; injection H as <-; done. }
    split; [done|]. split; [|by exists frames, rest].
    intros Hbs. specialize (Hnil Hbs). subst. inversion Hall; subst. by cbn in *.
  - intros p. destruct (decode_frame encoded) as [[bs tail]| |] eqn:E; [|done|].
    + case_match; [done|]. by destruct tail, bs.
    + by apply decode_frame_fuel in E.
Qed.

Lemma region_read_sound_witness :
  let e := Entry.mk [] None 0 0 1 0 65 0 [] in
  Entry.byte_len e <= Z.of_nat (length (Deflated.to_bytes sample_batch)).
Proof.
  intros e. apply (proj1 (region_read_sound e (Deflated.to_bytes sample_batch)) [sample_batch]).
  by vm_compute.
Defined.

(** Splitting a region to a byte cap loses and moves nothing: the pieces
    hold the region's batches in order, each piece starts at the offset where
    the previous one's records end, keeps the sub-stream's identity, and exceeds
    the cap only when it is a single batch. *)
Theorem capped_regions_tile (w : SubstreamWrite) (cap : Z) :
  0 < cap ->
  let pieces := capped_regions [w] cap in
  concat (map SWrite.batches pieces) = SWrite.batches w /\
  Forall (fun p => SWrite.topic p = SWrite.topic w /\ SWrite.partition p = SWrite.partition w /\
                   SWrite.substream p = SWrite.substream w /\
                   (fold_right Z.add 0 (map Deflated.wire_size (SWrite.batches p)) <= cap \/
                    (length (SWrite.batches p) <= 1)%nat)) pieces /\
  (forall l p r, pieces = l ++ p :: r ->
     SWrite.base_offset p = SWrite.base_offset w + total_records (concat (map SWrite.batches l))).
Proof.
  intros Hcap. unfold capped_regions. rewrite (proj2 (Z.eqb_neq cap 0)) by lia.
  cbn [flat_map]. rewrite app_nil_r.
  apply (cap_region_tiles w cap (SWrite.base_offset w) (SWrite.base_offset w) 0 []);
    cbn; [lia|lia|lia|lia].
Qed.

Lemma capped_regions_tile_witness :
  concat (map SWrite.batches (capped_regions
    [SWrite.mk [] 0 (Id 1) 5 [sample_batch; sample_batch]] 70)) = [sample_batch; sample_batch].
Proof. by apply (capped_regions_tile (SWrite.mk [] 0 (Id 1) 5 [sample_batch; sample_batch]) 70). Defined.
