(* ===== verification/ProducerTail.v ===== *)
(** * ProducerTail: idempotent deduplication folded from the log

    [ProducerTail], [IdempotentClass] and
    [SubstreamEntry::retain_foldable_producers] of
    [tansu-storage/src/dynostore/codec.rs], and [producer_tail_folded] of
    [dynostore/coalesce.rs].  The dedup state of a producer is a pure fold of
    the producer coordinates in the segment footers; the resident index keeps
    only the coordinates that can still change that fold. *)

From S2P Require Export Segment.

Definition IDEMPOTENT_WINDOW : nat := 5.

Inductive IdempotentClass :=
  | Admit
  | Duplicate (offset : Z)
  | OutOfOrder
  | Fenced.

#[export] Instance idempotent_class_eq_dec : EqDecision IdempotentClass.
Proof. solve_decision. Defined.

Module Tail.

Record ProducerTail := mk {
  epoch : Z;
  seen : bool;
  next_sequence : Z;
  window : list (Z * Z);
}.

Definition default : ProducerTail := mk 0 false 0 [].

Definition expected (t : ProducerTail) : Z := if seen t then next_sequence t else 0.

(** Wraps at [i32::MAX] back to [0]. *)
Definition seq_increment (sequence : Z) : Z :=
  if sequence =? i32_MAX then 0 else sequence + 1.

Definition fold (t : ProducerTail) (ep base_sequence last_sequence base_offset : Z)
    : ProducerTail :=
  if ep <? epoch t then t
  else
  let w := if epoch t <? ep then [] else window t in
  let w := if (length w =? IDEMPOTENT_WINDOW)%nat then drop 1 w else w in
  mk ep true (seq_increment last_sequence) (w ++ [(base_sequence, base_offset)]).

Definition classify (t : ProducerTail) (ep base_sequence : Z) : IdempotentClass :=
  if ep <? epoch t then Fenced
  else
  let '(exp, fresh_epoch) := if epoch t <? ep then (0, true) else (expected t, false) in
  if base_sequence =? exp then Admit
  else if fresh_epoch then OutOfOrder
  else
  match find (fun p => p.1 =? base_sequence) (window t) with
  | Some (_, offset) => Duplicate offset
  | None => OutOfOrder
  end.

End Tail.
Export Tail (ProducerTail).

(** One coordinate of an entry at [base], for the producer [id]. *)
Definition fold_coord (id base : Z) (t : ProducerTail) (pc : ProducerCoord) : ProducerTail :=
  if negb (Coord.folds pc) then t
  else if Coord.producer_id pc =? id
  then Tail.fold t (Coord.producer_epoch pc) (Coord.base_sequence pc) (Coord.last_sequence pc)
         (base + Coord.offset_delta pc)
  else t.

Definition fold_coords (id base : Z) (t : ProducerTail) (pcs : list ProducerCoord) : ProducerTail :=
  fold_left (fold_coord id base) pcs t.

(** [producer_tail_folded] over the entries of a sub-stream's fenced view. *)
Definition producer_tail_folded (id : Z) (fenced : list SubstreamEntry) : ProducerTail :=
  fold_left (fun t e => fold_coords id (Entry.base_offset e) t (Entry.producers e)) fenced
    Tail.default.

(** ** [retain_foldable_producers] *)

(** Association lists keyed by producer id. *)
Fixpoint top_update (id ep : Z) (top : list (Z * Z)) : list (Z * Z) :=
  match top with
  | [] => [(id, ep)]
  | (i, e) :: top => if i =? id then (i, Z.max e ep) :: top else (i, e) :: top_update id ep top
  end.

Definition top_get (id : Z) (top : list (Z * Z)) : option Z :=
  snd <$> find (fun p => p.1 =? id) top.

Definition top_epochs (pcs : list ProducerCoord) : list (Z * Z) :=
  fold_left (fun top pc => top_update (Coord.producer_id pc) (Coord.producer_epoch pc) top)
    (filter (fun pc => Coord.folds pc = true) pcs) [].

Fixpoint taken_bump (id : Z) (taken : list (Z * nat)) : list (Z * nat) :=
  match taken with
  | [] => [(id, 1%nat)]
  | (i, n) :: taken => if i =? id then (i, S n) :: taken else (i, n) :: taken_bump id taken
  end.

Definition taken_get (id : Z) (taken : list (Z * nat)) : nat :=
  match find (fun p => p.1 =? id) taken with Some (_, n) => n | None => 0 end.

Definition keep_step (top : list (Z * Z)) (s : list ProducerCoord * list (Z * nat))
    (pc : ProducerCoord) : list ProducerCoord * list (Z * nat) :=
  let '(kept, taken) := s in
  if negb (Coord.folds pc)
     || negb (bool_decide (top_get (Coord.producer_id pc) top = Some (Coord.producer_epoch pc)))
  then (kept, taken)
  else if (taken_get (Coord.producer_id pc) taken =? IDEMPOTENT_WINDOW)%nat then (kept, taken)
  else (kept ++ [pc], taken_bump (Coord.producer_id pc) taken).

Definition retain_foldable_producers (pcs : list ProducerCoord) : list ProducerCoord :=
  let top := top_epochs pcs in
  rev (fold_left (keep_step top) (rev pcs) ([], [])).1.

(** ** The fold has a closed form *)

(** The last [n] elements. *)
Definition lastn {A} (n : nat) (l : list A) : list A := drop (length l - n) l.

Lemma lastn_app {A} n (l k : list A) :
  lastn n (l ++ k) = lastn (n - length k) l ++ lastn n k.
Proof.
  unfold lastn. rewrite length_app, drop_app. f_equal; [|f_equal; lia].
  destruct (decide (length k <= n)%nat); [f_equal; lia|]. by rewrite !drop_ge by lia.
Qed.

Lemma lastn_all {A} n (l : list A) : (length l <= n)%nat -> lastn n l = l.
Proof. intros. unfold lastn. by replace (length l - n)%nat with 0%nat by lia. Qed.

Lemma length_lastn {A} n (l : list A) : length (lastn n l) = Nat.min n (length l).
Proof. unfold lastn. rewrite length_drop. lia. Qed.

Lemma lastn_lastn {A} n (l k : list A) : lastn n (l ++ lastn n k) = lastn n (l ++ k).
Proof.
  rewrite !lastn_app, length_lastn.
  rewrite (lastn_all n (lastn n k)) by (rewrite length_lastn; lia). f_equal. f_equal. lia.
Qed.

Lemma lastn_rev_take {A} n (l : list A) : lastn n l = rev (take n (rev l)).
Proof. by rewrite firstn_rev, rev_involutive. Qed.

(** The coordinates of one producer that fold. *)
Definition relevant (id : Z) (pc : ProducerCoord) : bool :=
  Coord.folds pc && (Coord.producer_id pc =? id).

Definition of_producer (id : Z) (pcs : list ProducerCoord) : list ProducerCoord :=
  filter (fun pc => relevant id pc = true) pcs.

Definition max_epoch (pcs : list ProducerCoord) : option Z :=
  fold_left (fun o pc => Some (from_option (Z.max (Coord.producer_epoch pc))
                                (Coord.producer_epoch pc) o)) pcs None.

Definition at_epoch (ep : Z) (pcs : list ProducerCoord) : list ProducerCoord :=
  filter (fun pc => Coord.producer_epoch pc = ep) pcs.

Definition slot (base : Z) (pc : ProducerCoord) : Z * Z :=
  (Coord.base_sequence pc, base + Coord.offset_delta pc).

(** What folding a producer's coordinates amounts to: the highest epoch wins, its
    last coordinate sets the sequence, its last five fill the window. *)
Definition folded (base : Z) (t : ProducerTail) (pcs : list ProducerCoord) : ProducerTail :=
  match max_epoch pcs with
  | None => t
  | Some m =>
      if m <? Tail.epoch t then t
      else
      let q := at_epoch m pcs in
      Tail.mk m true
        (Tail.seq_increment (from_option Coord.last_sequence 0 (last q)))
        (lastn IDEMPOTENT_WINDOW
           ((if Tail.epoch t <? m then [] else Tail.window t) ++ map (slot base) q))
  end.

Lemma max_epoch_snoc pcs pc :
  max_epoch (pcs ++ [pc]) =
  Some (from_option (Z.max (Coord.producer_epoch pc)) (Coord.producer_epoch pc) (max_epoch pcs)).
Proof. unfold max_epoch. by rewrite fold_left_app. Qed.

Lemma at_epoch_snoc ep pcs pc :
  at_epoch ep (pcs ++ [pc]) =
  at_epoch ep pcs ++ (if Coord.producer_epoch pc =? ep then [pc] else []).
Proof.
  unfold at_epoch. rewrite filter_app. f_equal. rewrite filter_cons, filter_nil.
  destruct (decide _), (Z.eqb_spec (Coord.producer_epoch pc) ep); done || lia.
Qed.

Lemma max_epoch_ge pcs m : max_epoch pcs = Some m ->
  Forall (fun pc => Coord.producer_epoch pc <= m) pcs.
Proof.
  revert m. induction pcs as [|pc pcs IH] using rev_ind; intros m H; [done|].
  rewrite max_epoch_snoc in H. injection H as <-. apply Forall_app. split; [|repeat constructor].
  - destruct (max_epoch pcs) as [m'|] eqn:E; cbn.
    + eapply Forall_impl; [by apply IH|]. cbn. intros; lia.
    + destruct pcs as [|x pcs _] using rev_ind; [done|]. by rewrite max_epoch_snoc in E.
  - destruct (max_epoch pcs); cbn; lia.
Qed.

Lemma at_epoch_above ep pcs m :
  max_epoch pcs = Some m -> m < ep -> at_epoch ep pcs = [].
Proof.
  intros H%max_epoch_ge Hlt. unfold at_epoch.
  induction H as [|pc pcs Hpc Hpcs IH]; [done|]. rewrite filter_cons.
  destruct (decide _); [lia|done].
Qed.

Lemma fold_window (w : list (Z * Z)) x :
  (length w <= IDEMPOTENT_WINDOW)%nat ->
  (if (length w =? IDEMPOTENT_WINDOW)%nat then drop 1 w else w) ++ [x]
  = lastn IDEMPOTENT_WINDOW (w ++ [x]).
Proof.
  intros H. unfold lastn. rewrite length_app. cbn [length]. unfold IDEMPOTENT_WINDOW in *.
  destruct (Nat.eqb_spec (length w) 5) as [E|E].
  - rewrite E. cbn [Nat.add Nat.sub]. by rewrite drop_app_le by lia.
  - by replace (length w + 1 - 5)%nat with 0%nat by lia.
Qed.

Lemma lastn_le {A} m n (l : list A) : (m <= n)%nat -> lastn m (lastn n l) = lastn m l.
Proof. intros. unfold lastn. rewrite drop_drop, length_drop. f_equal. lia. Qed.

Lemma lastn_lastn_l {A} n (l k : list A) : lastn n (lastn n l ++ k) = lastn n (l ++ k).
Proof. rewrite !lastn_app. rewrite lastn_le by lia. done. Qed.

Lemma fold_lastn t ep bs ls off :
  (length (Tail.window t) <= IDEMPOTENT_WINDOW)%nat ->
  Tail.fold t ep bs ls off =
  if ep <? Tail.epoch t then t
  else Tail.mk ep true (Tail.seq_increment ls)
         (lastn IDEMPOTENT_WINDOW
            ((if Tail.epoch t <? ep then [] else Tail.window t) ++ [(bs, off)])).
Proof.
  intros Hw. unfold Tail.fold. case_match; [done|]. f_equal. apply fold_window.
  destruct (Tail.epoch t <? ep); [cbn; lia|done].
Qed.

(** Folding one more coordinate of the producer. *)
Lemma folded_snoc base t pcs pc :
  (length (Tail.window t) <= IDEMPOTENT_WINDOW)%nat ->
  Tail.fold (folded base t pcs) (Coord.producer_epoch pc) (Coord.base_sequence pc)
    (Coord.last_sequence pc) (base + Coord.offset_delta pc)
  = folded base t (pcs ++ [pc]).
Proof.
  intros Hw. rewrite fold_lastn.
  2: { unfold folded. case_match; [|done]. case_match; [done|]. cbn. rewrite length_lastn. lia. }
  unfold folded. rewrite max_epoch_snoc. set (ep := Coord.producer_epoch pc).
  destruct (max_epoch pcs) as [m|] eqn:Em; cbn [from_option].
  2: { destruct pcs as [|x pcs _] using rev_ind; [|by rewrite max_epoch_snoc in Em].
       unfold at_epoch. cbn [app]. rewrite filter_cons, filter_nil.
       destruct (decide _); [done|by destruct n]. }
  rewrite at_epoch_snoc. fold ep. destruct (Z.ltb_spec m (Tail.epoch t)).
  - destruct (Z.ltb_spec ep (Tail.epoch t)).
    + by rewrite (proj2 (Z.ltb_lt (Z.max ep m) (Tail.epoch t))) by lia.
    + rewrite Z.max_l by lia. rewrite (proj2 (Z.ltb_ge ep (Tail.epoch t))) by lia.
      by rewrite (at_epoch_above ep pcs m), Z.eqb_refl by (done || lia).
  - cbn [Tail.epoch Tail.window]. rewrite (proj2 (Z.ltb_ge (Z.max ep m) _)) by lia.
    destruct (Z.lt_trichotomy ep m) as [Hlt|[Heq|Hgt]].
    + rewrite (proj2 (Z.ltb_lt ep m)), Z.max_r by lia. rewrite (proj2 (Z.eqb_neq ep m)) by lia.
      by rewrite app_nil_r.
    + rewrite Heq, Z.ltb_irrefl, Z.max_id, Z.eqb_refl, last_snoc, map_app, app_assoc.
      by rewrite lastn_lastn_l.
    + rewrite (proj2 (Z.ltb_ge ep m)), (proj2 (Z.ltb_lt m ep)), Z.max_l by lia.
      rewrite (at_epoch_above ep pcs m), Z.eqb_refl by (done || lia).
      by rewrite (proj2 (Z.ltb_lt (Tail.epoch t) ep)) by lia.
Qed.

Lemma fold_left_folded id base t pcs :
  (length (Tail.window t) <= IDEMPOTENT_WINDOW)%nat ->
  fold_coords id base t pcs = folded base t (of_producer id pcs).
Proof.
  intros Hw. induction pcs as [|pc pcs IH] using rev_ind; [done|].
  unfold fold_coords, of_producer in *. rewrite fold_left_app, filter_app. cbn [fold_left].
  rewrite IH, filter_cons, filter_nil. unfold fold_coord, relevant.
  destruct (Coord.folds pc); cbn [negb andb]; [|by rewrite decide_False, app_nil_r by done].
  destruct (Coord.producer_id pc =? id).
  - rewrite decide_True by done. by apply folded_snoc.
  - by rewrite decide_False, app_nil_r by done.
Qed.

(** ** What [retain_foldable_producers] keeps of one producer *)

Lemma top_get_update id i ep top :
  top_get id (top_update i ep top) =
  if i =? id then Some (from_option (Z.max ep) ep (top_get id top)) else top_get id top.
Proof.
  unfold top_get. induction top as [|[j e] top IH]; cbn.
  { by destruct (Z.eqb_spec i id). }
  destruct (Z.eqb_spec j i) as [->|Hj]; cbn; destruct (Z.eqb_spec i id) as [->|Hi]; cbn.
  - f_equal. lia.
  - done.
  - by rewrite (proj2 (Z.eqb_neq j id)).
  - by destruct (j =? id).
Qed.

Lemma of_producer_snoc id pcs pc :
  of_producer id (pcs ++ [pc]) = of_producer id pcs ++ (if relevant id pc then [pc] else []).
Proof.
  unfold of_producer. rewrite filter_app, filter_cons, filter_nil.
  by destruct (relevant id pc); destruct (decide _).
Qed.

Lemma top_get_epochs id pcs : top_get id (top_epochs pcs) = max_epoch (of_producer id pcs).
Proof.
  induction pcs as [|pc pcs IH] using rev_ind; [done|].
  rewrite of_producer_snoc. unfold top_epochs in *.
  rewrite filter_app, fold_left_app, filter_cons, filter_nil. unfold relevant.
  destruct (Coord.folds pc); cbn [andb].
  - rewrite decide_True by done. cbn [fold_left]. rewrite top_get_update, IH.
    destruct (Coord.producer_id pc =? id); [by rewrite max_epoch_snoc|by rewrite app_nil_r].
  - rewrite decide_False by done. by rewrite app_nil_r.
Qed.

Lemma taken_get_bump id i taken :
  taken_get id (taken_bump i taken) = (if i =? id then S (taken_get id taken) else taken_get id taken).
Proof.
  unfold taken_get. induction taken as [|[j n] taken IH]; cbn.
  { by destruct (Z.eqb_spec i id). }
  destruct (Z.eqb_spec j i) as [->|Hj]; cbn; destruct (Z.eqb_spec i id) as [->|Hi]; cbn.
  - done.
  - done.
  - by rewrite (proj2 (Z.eqb_neq j id)).
  - by destruct (j =? id).
Qed.

(** The coordinates of [id] the second loop considers. *)
Definition candidates (top : list (Z * Z)) (id : Z) (pcs : list ProducerCoord) : list ProducerCoord :=
  filter (fun pc => relevant id pc = true /\ top_get id top = Some (Coord.producer_epoch pc)) pcs.

Lemma candidates_snoc top id pcs pc :
  candidates top id (pcs ++ [pc]) =
  candidates top id pcs ++
  (if relevant id pc && bool_decide (top_get id top = Some (Coord.producer_epoch pc))
   then [pc] else []).
Proof.
  unfold candidates. rewrite filter_app, filter_cons, filter_nil. f_equal.
  destruct (decide _) as [[-> Ht]|Hn]; [by rewrite bool_decide_eq_true_2|].
  destruct (relevant id pc); [|done]. cbn [andb]. case_bool_decide; [by destruct Hn|done].
Qed.

Lemma candidates_none top id pcs : top_get id top = None -> candidates top id pcs = [].
Proof.
  intros Htop. unfold candidates. induction pcs as [|x l IH]; [done|]. rewrite filter_cons.
  destruct (decide _) as [[_ Hx]|_]; [by rewrite Htop in Hx|done].
Qed.

Lemma keep_loop top id r kept taken :
  fold_left (keep_step top) r ([], []) = (kept, taken) ->
  of_producer id kept = take IDEMPOTENT_WINDOW (candidates top id r) /\
  taken_get id taken = Nat.min IDEMPOTENT_WINDOW (length (candidates top id r)).
Proof.
  revert kept taken. induction r as [|pc r IH] using rev_ind; intros kept taken H.
  { by injection H as <- <-. }
  rewrite fold_left_app in H. cbn [fold_left] in H.
  destruct (fold_left (keep_step top) r ([], [])) as [kept0 taken0].
  destruct (IH kept0 taken0 eq_refl) as [IHk IHt]. clear IH. rewrite candidates_snoc.
  set (c := candidates top id r) in *. unfold keep_step in H. unfold relevant.
  destruct (Coord.folds pc) eqn:Ef; cbn [negb orb andb] in *.
  2: { injection H as <- <-. by rewrite app_nil_r. }
  destruct (Z.eqb_spec (Coord.producer_id pc) id) as [Hid|Hid]; cbn [andb].
  - rewrite Hid in H. case_bool_decide as Htop; cbn [negb] in H.
    + rewrite length_app. cbn [length]. rewrite IHt in H. unfold IDEMPOTENT_WINDOW in *.
      destruct (Nat.eqb_spec (Nat.min 5 (length c)) 5) as [E|E]; injection H as <- <-.
      * rewrite IHk, IHt. split; [by rewrite take_app_le by lia|lia].
      * rewrite of_producer_snoc. unfold relevant. rewrite Ef, Hid, Z.eqb_refl. cbn [andb].
        rewrite IHk, taken_get_bump, Z.eqb_refl, IHt. split; [|lia].
        rewrite (take_ge c) by lia. by rewrite take_ge by (rewrite length_app; cbn; lia).
    + injection H as <- <-. by rewrite app_nil_r.
  - rewrite app_nil_r. destruct (negb _); [by injection H as <- <-|].
    destruct (_ =? _)%nat; injection H as <- <-; [done|].
    rewrite of_producer_snoc, taken_get_bump. unfold relevant.
    by rewrite (proj2 (Z.eqb_neq _ _) Hid), andb_false_r, app_nil_r.
Qed.

Lemma filter_rev {A} (P : A -> Prop) `{!forall x, Decision (P x)} (l : list A) :
  filter P (rev l) = rev (filter P l).
Proof.
  induction l as [|x l IH]; [done|]. cbn [rev]. rewrite filter_app, IH, !filter_cons, filter_nil.
  destruct (decide (P x)); [done|by rewrite app_nil_r].
Qed.

Lemma retain_of_producer id pcs :
  of_producer id (retain_foldable_producers pcs) =
  match max_epoch (of_producer id pcs) with
  | Some m => lastn IDEMPOTENT_WINDOW (at_epoch m (of_producer id pcs))
  | None => []
  end.
Proof.
  unfold retain_foldable_producers.
  destruct (fold_left (keep_step (top_epochs pcs)) (rev pcs) ([], [])) as [kept taken] eqn:E.
  apply (keep_loop _ id) in E as [Hk _]. cbn [fst].
  unfold of_producer at 1. rewrite filter_rev. fold (of_producer id kept). rewrite Hk.
  unfold candidates. rewrite filter_rev, <- lastn_rev_take. fold (candidates (top_epochs pcs) id pcs).
  pose proof (top_get_epochs id pcs) as Htop.
  destruct (max_epoch (of_producer id pcs)) as [m|].
  - f_equal. unfold candidates, at_epoch, of_producer. rewrite list_filter_filter.
    apply list_filter_iff. intros pc. rewrite Htop. split; [intros [? [= ->]]|intros [<- ?]]; done.
  - by rewrite candidates_none.
Qed.

(** ** Exactness *)

Lemma max_epoch_in pcs m : max_epoch pcs = Some m -> at_epoch m pcs <> [].
Proof.
  revert m. induction pcs as [|pc pcs IH] using rev_ind; intros m H; [done|].
  rewrite max_epoch_snoc in H. injection H as <-. rewrite at_epoch_snoc.
  destruct (max_epoch pcs) as [m'|]; cbn [from_option].
  - destruct (Z.eqb_spec (Coord.producer_epoch pc) (Z.max (Coord.producer_epoch pc) m')) as [_|Hn].
    + intros E. by apply app_eq_nil in E as [_ ?].
    + rewrite Z.max_r, app_nil_r by lia. by apply IH.
  - rewrite Z.eqb_refl. intros E. by apply app_eq_nil in E as [_ ?].
Qed.

Lemma max_epoch_const m pcs :
  Forall (fun pc => Coord.producer_epoch pc = m) pcs -> pcs <> [] -> max_epoch pcs = Some m.
Proof.
  induction pcs as [|pc pcs IH] using rev_ind; intros Hall Hne; [done|].
  apply Forall_app in Hall as [Hall Hpc]. inversion Hpc as [|? ? E _]; subst.
  rewrite max_epoch_snoc. destruct pcs as [|x pcs]; [done|]. rewrite IH by done. cbn. f_equal. lia.
Qed.

Lemma at_epoch_const m pcs :
  Forall (fun pc => Coord.producer_epoch pc = m) pcs -> at_epoch m pcs = pcs.
Proof.
  unfold at_epoch. induction 1 as [|pc pcs Hpc Hall IH]; [done|].
  rewrite filter_cons, decide_True by done. by rewrite IH.
Qed.

Lemma last_lastn {A} n (l : list A) : (0 < n)%nat -> last (lastn n l) = last l.
Proof.
  intros Hn. destruct l as [|x l _] using rev_ind; [done|].
  rewrite lastn_app, last_snoc. cbn [length]. rewrite (lastn_all n [x]) by (cbn; lia).
  apply last_snoc.
Qed.

Lemma lastn_map {A B} (f : A -> B) n l : lastn n (map f l) = map f (lastn n l).
Proof. unfold lastn. by rewrite length_map, skipn_map. Qed.

Lemma Forall_lastn {A} (P : A -> Prop) n l : Forall P l -> Forall P (lastn n l).
Proof. apply Forall_drop. Qed.

Lemma retain_fold_coords id base t pcs :
  (length (Tail.window t) <= IDEMPOTENT_WINDOW)%nat ->
  fold_coords id base t (retain_foldable_producers pcs) = fold_coords id base t pcs.
Proof.
  intros Hw. rewrite !fold_left_folded, retain_of_producer by done.
  set (q := of_producer id pcs). unfold folded at 2.
  destruct (max_epoch q) as [m|] eqn:Em; [|done].
  assert (Hall : Forall (fun pc => Coord.producer_epoch pc = m) (at_epoch m q)).
  { apply Forall_forall. intros pc. unfold at_epoch. by intros [? _]%list_elem_of_filter. }
  apply (Forall_lastn _ IDEMPOTENT_WINDOW) in Hall. pose proof (max_epoch_in _ _ Em) as Hne.
  assert (Hne' : lastn IDEMPOTENT_WINDOW (at_epoch m q) <> []).
  { intros E. apply (f_equal length) in E. rewrite length_lastn in E.
    destruct (at_epoch m q); [done|]. cbn in E. unfold IDEMPOTENT_WINDOW in E. lia. }
  unfold folded. rewrite (max_epoch_const m), at_epoch_const by done.
  rewrite last_lastn by (unfold IDEMPOTENT_WINDOW; lia).
  by rewrite <- lastn_map, lastn_lastn.
Qed.

Lemma fold_coords_window id base t pcs :
  (length (Tail.window t) <= IDEMPOTENT_WINDOW)%nat ->
  (length (Tail.window (fold_coords id base t pcs)) <= IDEMPOTENT_WINDOW)%nat.
Proof.
  intros Hw. rewrite fold_left_folded by done. unfold folded.
  case_match; [|done]. case_match; [done|]. cbn. rewrite length_lastn. lia.
Qed.

(** The resident copy of an entry. *)
Definition resident (e : SubstreamEntry) : SubstreamEntry :=
  Entry.mk (Entry.topic e) (Entry.topic_id e) (Entry.partition e) (Entry.base_offset e)
    (Entry.record_count e) (Entry.byte_start e) (Entry.byte_len e) (Entry.max_timestamp e)
    (retain_foldable_producers (Entry.producers e)).

(** ** A producer's stream

    The batches of one producer at one epoch as positions in its unbounded
    sequence: [(p, c, o)] is the batch of [c] records whose first has position
    [p], stored at offset [o].  On the wire a position is a sequence modulo
    [2^31].  Batches follow on from each other, and the wrap falls between two of
    them: none straddles it. *)

Definition SEQUENCES : Z := 2 ^ 31.

Fixpoint contiguous (p0 : Z) (s : list (Z * Z * Z)) : Prop :=
  match s with
  | [] => True
  | (p, c, _) :: s =>
      p = p0 /\ 1 <= c /\ p mod SEQUENCES + c <= SEQUENCES /\ contiguous (p0 + c) s
  end.

Fixpoint end_of (p0 : Z) (s : list (Z * Z * Z)) : Z :=
  match s with [] => p0 | (_, c, _) :: s => end_of (p0 + c) s end.

Definition fold_stream (ep : Z) (t : ProducerTail) (s : list (Z * Z * Z)) : ProducerTail :=
  fold_left (fun t '(p, c, o) =>
    Tail.fold t ep (p mod SEQUENCES) (wrap_s 32 (p mod SEQUENCES + (c - 1))) o) s t.

Definition stream_slot (x : Z * Z * Z) : Z * Z := let '(p, _, o) := x in (p mod SEQUENCES, o).

Lemma end_of_snoc p0 s p c o : end_of p0 (s ++ [(p, c, o)]) = end_of p0 s + c.
Proof. revert p0. induction s as [|[[? ?] ?] s IH]; intros p0; cbn; [done|apply IH]. Qed.

Lemma contiguous_snoc p0 s x :
  contiguous p0 (s ++ [x]) <-> contiguous p0 s /\ contiguous (end_of p0 s) [x].
Proof.
  revert p0. induction s as [|[[p c] o] s IH]; intros p0; cbn [app contiguous end_of].
  - destruct x as [[? ?] ?]. cbn. naive_solver.
  - rewrite IH. naive_solver.
Qed.

Lemma seq_increment_small p c :
  0 <= p < SEQUENCES -> 1 <= c -> p + c <= SEQUENCES ->
  Tail.seq_increment (wrap_s 32 (p + (c - 1))) = (p + c) mod SEQUENCES.
Proof.
  unfold SEQUENCES. intros. rewrite wrap_i32 by lia. unfold Tail.seq_increment, i32_MAX.
  destruct (Z.eqb_spec (p + (c - 1)) (2 ^ 31 - 1)).
  - replace (p + c) with (2 ^ 31) by lia. by rewrite Z.mod_same by lia.
  - rewrite Z.mod_small by lia. lia.
Qed.

Lemma fold_stream_shape ep p0 s :
  0 <= ep -> contiguous p0 s -> s <> [] ->
  fold_stream ep Tail.default s =
  Tail.mk ep true (end_of p0 s mod SEQUENCES) (lastn IDEMPOTENT_WINDOW (map stream_slot s)).
Proof.
  intros Hep. induction s as [|[[p c] o] s IH] using rev_ind; intros Hc Hne; [done|].
  apply contiguous_snoc in Hc as [Hc (-> & Hc1 & Hfit & _)]. rewrite end_of_snoc.
  unfold fold_stream in *. rewrite fold_left_app. cbn [fold_left]. rewrite map_app. cbn [map stream_slot].
  set (p := end_of p0 s) in *. pose proof (Z.mod_pos_bound p SEQUENCES ltac:(done)) as Hp.
  rewrite fold_lastn; [|destruct s; [cbn; lia|rewrite IH by done; cbn [Tail.window]; rewrite length_lastn; lia]].
  rewrite seq_increment_small, Z.add_mod_idemp_l by (done || lia).
  destruct s as [|x s].
  - cbn [fold_left Tail.default Tail.epoch Tail.window map app]. rewrite (proj2 (Z.ltb_ge ep 0)) by lia.
    by destruct (0 <? ep).
  - rewrite IH by done. cbn [Tail.epoch Tail.window]. rewrite Z.ltb_irrefl.
    by rewrite lastn_lastn_l.
Qed.

Lemma contiguous_bounds p0 s p c o :
  contiguous p0 s -> (p, c, o) ∈ s -> p0 <= p /\ p + c <= end_of p0 s.
Proof.
  revert p0. induction s as [|[[p' c'] o'] s IH]; intros p0 Hc Hin; [by apply not_elem_of_nil in Hin|].
  destruct Hc as (-> & Hc1 & _ & Hc). cbn [end_of].
  assert (Hmono : p0 + c' <= end_of (p0 + c') s).
  { clear -Hc. revert Hc. generalize (p0 + c') as q. induction s as [|[[? c] ?] s IH]; intros q Hc; [cbn; lia|].
    destruct Hc as (_ & Hc1 & _ & Hc). cbn. apply IH in Hc. lia. }
  apply elem_of_cons in Hin as [[= -> -> ->]|Hin]; [lia|]. apply (IH (p0 + c')) in Hin; [lia|done].
Qed.

Lemma contiguous_count p0 s p c o : contiguous p0 s -> (p, c, o) ∈ s -> 1 <= c.
Proof.
  revert p0. induction s as [|[[p' c'] o'] s IH]; intros p0 Hc Hin; [by apply not_elem_of_nil in Hin|].
  destruct Hc as (-> & Hc1 & _ & Hc).
  apply elem_of_cons in Hin as [[= -> -> ->]|Hin]; [lia|by eapply IH].
Qed.

Lemma mod_distinct p q : p < q < p + SEQUENCES -> p mod SEQUENCES <> q mod SEQUENCES.
Proof.
  unfold SEQUENCES. intros Hpq E. pose proof (Z.div_mod p (2 ^ 31) ltac:(lia)).
  pose proof (Z.div_mod q (2 ^ 31) ltac:(lia)). nia.
Qed.

(** Within a window of fewer than [2^31] positions a sequence names one batch. *)
Lemma stream_slot_unique p0 s p c o p' c' o' :
  contiguous p0 s -> (p, c, o) ∈ s -> (p', c', o') ∈ s -> p = p' -> o = o'.
Proof.
  revert p0. induction s as [|[[q d] r] s IH]; intros p0 Hc H H' E; [by apply not_elem_of_nil in H|].
  destruct Hc as (-> & Hc1 & _ & Hc).
  apply elem_of_cons in H as [[= -> -> ->]|H]; apply elem_of_cons in H' as [[= -> -> ->]|H'].
  - done.
  - apply (contiguous_bounds _ _ _ _ _ Hc) in H'. lia.
  - apply (contiguous_bounds _ _ _ _ _ Hc) in H. lia.
  - by eapply IH.
Qed.

(** ** Properties *)

(** C35 Pruning the resident index is invisible to deduplication: for every
    producer and any sequence of footer entries, folding the pruned coordinates
    yields the same tail as folding all of them, while at most five coordinates
    per producer survive in an entry. *)
Theorem retain_is_exact (id : Z) (es : list SubstreamEntry) :
  producer_tail_folded id (map resident es) = producer_tail_folded id es /\
  Forall (fun e => (length (of_producer id (Entry.producers (resident e)))
                    <= IDEMPOTENT_WINDOW)%nat) es.
Proof.
  split.
  - unfold producer_tail_folded.
    assert (Hgen : forall t, (length (Tail.window t) <= IDEMPOTENT_WINDOW)%nat ->
      fold_left (fun t e => fold_coords id (Entry.base_offset e) t (Entry.producers e))
        (map resident es) t
      = fold_left (fun t e => fold_coords id (Entry.base_offset e) t (Entry.producers e)) es t);
      [|apply Hgen; cbn; lia].
    induction es as [|e es IH]; intros t Hw; [done|]. cbn [map fold_left].
    cbn [resident Entry.base_offset Entry.producers]. rewrite retain_fold_coords by done.
    apply IH. by apply fold_coords_window.
  - apply Forall_forall. intros e _. cbn [resident Entry.producers]. rewrite retain_of_producer.
    case_match; [rewrite length_lastn; lia|cbn; unfold IDEMPOTENT_WINDOW; lia].
Qed.

(** C29 Deduplication is exact over a producer's stream of one epoch, as long as no
    batch of it straddles [i32::MAX] (see [straddling_batch_stalls] for one that
    does) and the last five batches span less than the [2^31] sequences: after any
    in-order run of batches, which may wrap between two of them, the next sequence
    is admitted; each of the last five, sent again, is answered with the offset it
    was first stored at; an older epoch is fenced, a newer one must start at zero,
    and any other sequence is out of order. *)
Theorem dedup_classifies (ep p0 : Z) (s : list (Z * Z * Z)) :
  let t := fold_stream ep Tail.default s in
  0 <= ep -> contiguous p0 s -> s <> [] ->
  (forall p c o, (p, c, o) ∈ lastn IDEMPOTENT_WINDOW s -> end_of p0 s - p < SEQUENCES) ->
  Tail.classify t ep (end_of p0 s mod SEQUENCES) = Admit /\
  (forall p c o, (p, c, o) ∈ lastn IDEMPOTENT_WINDOW s ->
     Tail.classify t ep (p mod SEQUENCES) = Duplicate o) /\
  (forall q, q <> end_of p0 s mod SEQUENCES ->
     (forall p c o, (p, c, o) ∈ lastn IDEMPOTENT_WINDOW s -> p mod SEQUENCES <> q) ->
     Tail.classify t ep q = OutOfOrder) /\
  (forall ep' q, (ep' < ep -> Tail.classify t ep' q = Fenced) /\
     (ep < ep' -> Tail.classify t ep' q = if q =? 0 then Admit else OutOfOrder)).
Proof.
  intros t Hep Hc Hne Hspan. unfold t. rewrite (fold_stream_shape ep p0) by done.
  unfold Tail.classify, Tail.expected. cbn [Tail.epoch Tail.seen Tail.next_sequence Tail.window].
  rewrite Z.ltb_irrefl. rewrite lastn_map. set (w := lastn IDEMPOTENT_WINDOW s).
  assert (Hw : forall x, x ∈ w -> x ∈ s).
  { intros x Hx. rewrite <- (take_drop (length s - IDEMPOTENT_WINDOW) s). set_solver. }
  split_and!.
  - by rewrite Z.eqb_refl.
  - intros p c o Hin. pose proof (contiguous_bounds _ _ _ _ _ Hc (Hw _ Hin)) as Hb.
    assert (Hc1 : 1 <= c) by (eapply contiguous_count; [done|by apply Hw]).
    pose proof (Hspan _ _ _ Hin).
    rewrite (proj2 (Z.eqb_neq _ _)) by (apply mod_distinct; lia).
    destruct (find _ _) as [[q o']|] eqn:E.
    + apply find_some in E as [Hq Eq%Z.eqb_eq]. cbn in Eq. subst q.
      apply list_elem_of_In, list_elem_of_fmap in Hq as ([[p' c'] o''] & Hs & Hin').
      injection Hs as Hmod ->. f_equal.
      pose proof (contiguous_bounds _ _ _ _ _ Hc (Hw _ Hin')).
      assert (1 <= c') by (eapply contiguous_count; [done|by apply Hw]).
      pose proof (Hspan _ _ _ Hin').
      eapply (stream_slot_unique p0 s); [done|by apply Hw|by apply Hw|].
      destruct (Z.lt_trichotomy p' p) as [?|[?|?]]; [|done|];
        exfalso; [apply (mod_distinct p' p)|apply (mod_distinct p p')]; lia.
    + pose proof (find_none _ _ E (p mod SEQUENCES, o)) as Hn. cbn [fst] in Hn.
      rewrite Z.eqb_refl in Hn. discriminate Hn.
      apply list_elem_of_In, list_elem_of_fmap. by exists (p, c, o).
  - intros q Hq Hnone. rewrite (proj2 (Z.eqb_neq _ _)) by done.
    destruct (find _ _) as [[q' o']|] eqn:E; [|done].
    apply find_some in E as [Hin Eq%Z.eqb_eq]. cbn in Eq. subst q'.
    apply list_elem_of_In, list_elem_of_fmap in Hin as ([[p' c'] o''] & Hs & Hin').
    injection Hs as Hmod ->. by destruct (Hnone p' c' o'').
  - intros ep' q. split; intros Hlt.
    + by rewrite (proj2 (Z.ltb_lt _ _)).
    + rewrite (proj2 (Z.ltb_ge _ _)), (proj2 (Z.ltb_lt _ _)) by lia. done.
Qed.

Lemma dedup_classifies_witness :
  Tail.classify (fold_stream 2 Tail.default [(0, 3, 100); (3, 2, 110)]) 2 0 = Duplicate 100.
Proof.
  pose proof (dedup_classifies 2 0 [(0, 3, 100); (3, 2, 110)]) as H. cbv zeta in H.
  destruct H as (_ & H & _); [lia|vm_compute; repeat split; discriminate|done| |].
  { intros p c o Hin. vm_compute in Hin.
    repeat (apply elem_of_cons in Hin as [[= -> -> ->]|Hin]; [by vm_compute|]).
    by apply not_elem_of_nil in Hin. }
  apply (H 0 3 100). vm_compute. left.
Defined.

(** C39 A batch that straddles the wrap of the sequence space stalls its
    producer: the next expected sequence becomes negative, so at that epoch no
    sequence a client can send is ever admitted again, the genuine next one
    included. *)
Theorem straddling_batch_stalls (t : ProducerTail) (ep base_sequence count offset : Z) :
  Tail.epoch t <= ep -> 0 <= base_sequence < SEQUENCES -> 1 <= count <= SEQUENCES ->
  SEQUENCES < base_sequence + count ->
  let t' := Tail.fold t ep base_sequence (wrap_s 32 (base_sequence + (count - 1))) offset in
  forall q, 0 <= q -> Tail.classify t' ep q <> Admit.
Proof.
  intros Hep Hb Hc Hs t' q Hq. unfold SEQUENCES in *.
  assert (Hwrap : wrap_s 32 (base_sequence + (count - 1)) = base_sequence + (count - 1) - 2 ^ 32).
  { unfold wrap_s. rewrite Z.mod_small by lia.
    by rewrite (proj2 (Z.ltb_ge _ (2 ^ (32 - 1)))) by (change (2 ^ (32 - 1)) with (2 ^ 31); lia). }
  unfold t', Tail.fold. rewrite (proj2 (Z.ltb_ge _ _)), Hwrap by lia.
  unfold Tail.classify, Tail.expected. cbn [Tail.epoch Tail.seen Tail.next_sequence Tail.window].
  rewrite Z.ltb_irrefl. unfold Tail.seq_increment, i32_MAX.
  rewrite (proj2 (Z.eqb_neq _ (2 ^ 31 - 1))) by lia.
  rewrite (proj2 (Z.eqb_neq q _)) by lia. by destruct (find _ _) as [[]|].
Qed.

Lemma straddling_batch_stalls_witness :
  Tail.classify (Tail.fold Tail.default 0 (2 ^ 31 - 2)
    (wrap_s 32 (2 ^ 31 - 2 + (4 - 1))) 9) 0 2 <> Admit.
Proof.
  apply (straddling_batch_stalls Tail.default 0 (2 ^ 31 - 2) 4 9); cbn; unfold SEQUENCES; lia.
Defined.
