(* ===== verification/PrefixIndex.v ===== *)
(** * PrefixIndex: the resident footer index of a prefix

    [PrefixIndex] of [tansu-storage/src/dynostore.rs] and its operations in
    [dynostore/index.rs]: the footers this process knows, by sequence, and the
    derived map from a sub-stream and partition to the entries that hold it.

    A [BTreeMap] or [HashMap] is a [gmap]; where the code iterates a [BTreeMap]
    in order, [sorted_keys] gives that order.  An interned topic name is its
    text; a name is unused when no cached entry carries it. *)

From S2P Require Export ProducerTail.

Record CachedSegment := mkCached {
  footer : SegmentFooter;
  last_modified_ms : Z;
}.

(** [SubstreamKey]. *)
Definition SubstreamKey : Type := Substream * Z.

Module Index.
Record PrefixIndex := mk {
  segments : gmap Z CachedSegment;
  by_substream : gmap SubstreamKey (list (Z * nat));
  topic_names : gset bytes;
  refreshed_at : option Z;
  reconciled_at : option Z;
  generation : Z;
  seq_floor : option (Z * Z);
  opaque : gset Z;
}.

Definition empty : PrefixIndex := mk ∅ ∅ ∅ None None 0 None ∅.
End Index.
Export Index (PrefixIndex).

Definition set_maps (ix : PrefixIndex) (segs : gmap Z CachedSegment)
    (by_sub : gmap SubstreamKey (list (Z * nat))) (names : gset bytes) : PrefixIndex :=
  Index.mk segs by_sub names (Index.refreshed_at ix) (Index.reconciled_at ix)
    (Index.generation ix) (Index.seq_floor ix) (Index.opaque ix).

(** ** Ordered keys *)

Definition sorted_keys {V} (m : gmap Z V) : list Z := merge_sort Z.le (map_to_list m).*1.

Definition max_key (l : list Z) : option Z :=
  match l with [] => None | x :: l => Some (max_list x l) end.

(** [Option::max]: [None] is below every [Some]. *)
Definition option_max (a b : option Z) : option Z :=
  match a, b with
  | Some a, Some b => Some (Z.max a b)
  | Some a, None => Some a
  | None, b => b
  end.

Definition resolved_max (ix : PrefixIndex) : option Z :=
  option_max (max_key (map_to_list (Index.segments ix)).*1) (max_key (elements (Index.opaque ix))).

(** ** The sequence lists *)

Definition at_lt (a b : Z * nat) : Prop := a.1 < b.1 \/ (a.1 = b.1 /\ (a.2 < b.2)%nat).

#[export] Instance at_lt_dec a b : Decision (at_lt a b).
Proof. unfold at_lt. solve_decision. Defined.

(** [binary_search] then [insert], on a sorted list. *)
Fixpoint seqs_insert (at_ : Z * nat) (l : list (Z * nat)) : list (Z * nat) :=
  match l with
  | [] => [at_]
  | x :: l' =>
      if decide (at_ = x) then l
      else if decide (at_lt at_ x) then at_ :: l
      else x :: seqs_insert at_ l'
  end.

(** [binary_search] then [remove]. *)
Definition seqs_remove (at_ : Z * nat) (l : list (Z * nat)) : list (Z * nat) :=
  filter (fun x => x <> at_) l.

Definition entry_key (e : SubstreamEntry) : SubstreamKey := (Entry.substream e, Entry.partition e).

Definition add_at (m : gmap SubstreamKey (list (Z * nat))) (key : SubstreamKey) (at_ : Z * nat)
    : gmap SubstreamKey (list (Z * nat)) :=
  <[key := seqs_insert at_ (default [] (m !! key))]> m.

Definition del_at (m : gmap SubstreamKey (list (Z * nat))) (key : SubstreamKey) (at_ : Z * nat)
    : gmap SubstreamKey (list (Z * nat)) :=
  match m !! key with
  | None => m
  | Some l =>
      match seqs_remove at_ l with
      | [] => delete key m
      | l => <[key := l]> m
      end
  end.

(** The loops over [footer.entries.iter().enumerate()], from [position]. *)
Fixpoint index_entries (seq : Z) (position : nat) (es : list SubstreamEntry)
    (m : gmap SubstreamKey (list (Z * nat))) : gmap SubstreamKey (list (Z * nat)) :=
  match es with
  | [] => m
  | e :: es => index_entries seq (S position) es (add_at m (entry_key e) (seq, position))
  end.

Fixpoint unindex_entries (seq : Z) (position : nat) (es : list SubstreamEntry)
    (m : gmap SubstreamKey (list (Z * nat))) : gmap SubstreamKey (list (Z * nat)) :=
  match es with
  | [] => m
  | e :: es => unindex_entries seq (S position) es (del_at m (entry_key e) (seq, position))
  end.

Definition unindex_segment (ix : PrefixIndex) (seq : Z) : PrefixIndex :=
  match Index.segments ix !! seq with
  | None => ix
  | Some cached =>
      set_maps ix (Index.segments ix)
        (unindex_entries seq 0 (entries (footer cached)) (Index.by_substream ix))
        (Index.topic_names ix)
  end.

(** The names the cached footers carry. *)
Definition names_in (segs : gmap Z CachedSegment) : gset bytes :=
  list_to_set (flat_map (fun '(_, c) => map Entry.topic (entries (footer c))) (map_to_list segs)).

Definition forget_unused_topic_names (segs : gmap Z CachedSegment) (names : gset bytes) : gset bytes :=
  names ∩ names_in segs.

Definition insert_segment (ix : PrefixIndex) (seq : Z) (cached : CachedSegment) : PrefixIndex :=
  let ix := unindex_segment ix seq in
  let es := map resident (entries (footer cached)) in
  let cached := mkCached (mkFooter (writer_epoch (footer cached)) (nonce (footer cached)) es)
                  (last_modified_ms cached) in
  set_maps ix (<[seq := cached]> (Index.segments ix))
    (index_entries seq 0 es (Index.by_substream ix))
    (Index.topic_names ix ∪ list_to_set (map Entry.topic es)).

Definition retain_segments (ix : PrefixIndex) (keep : Z -> bool) : PrefixIndex * nat :=
  let segs := filter (fun kv => keep kv.1 = true) (Index.segments ix) in
  let dropped := (size (Index.segments ix) - size segs)%nat in
  if (0 <? dropped)%nat then
    (set_maps ix segs
       (omap (fun l => match filter (fun a => keep a.1 = true) l with [] => None | l => Some l end)
          (Index.by_substream ix))
       (forget_unused_topic_names segs (Index.topic_names ix)), dropped)
  else (set_maps ix segs (Index.by_substream ix) (Index.topic_names ix), dropped).

Definition entry_at_pos (segs : gmap Z CachedSegment) (a : Z * nat)
    : option (Z * Z * SubstreamEntry) :=
  match segs !! a.1 with
  | None => None
  | Some cached =>
      match entries (footer cached) !! a.2 with
      | None => None
      | Some e => Some (a.1, writer_epoch (footer cached), e)
      end
  end.

(** [(sequence, writer epoch, entry)] of one sub-stream. *)
Definition substream_entries (ix : PrefixIndex) (s : Substream) (partition : Z)
    : list (Z * Z * SubstreamEntry) :=
  omap (entry_at_pos (Index.segments ix)) (default [] (Index.by_substream ix !! (s, partition))).

(** [index_insert] on one prefix, at time [now]. *)
Definition index_insert (ix : PrefixIndex) (now seq : Z) (f : SegmentFooter) (modified : Z)
    : PrefixIndex :=
  let ix := insert_segment ix seq (mkCached f modified) in
  Index.mk (Index.segments ix) (Index.by_substream ix) (Index.topic_names ix) (Some now)
    (Index.reconciled_at ix) (Index.generation ix) (Index.seq_floor ix) (Index.opaque ix).

Definition index_invalidate (ix : PrefixIndex) : PrefixIndex :=
  Index.mk (Index.segments ix) (Index.by_substream ix) (Index.topic_names ix) None None
    (Index.generation ix) (Index.seq_floor ix) (Index.opaque ix).

Definition index_prune (ix : PrefixIndex) (seqs : list Z) : PrefixIndex :=
  let ix := (retain_segments ix (fun seq => negb (bool_decide (seq ∈ seqs)))).1 in
  Index.mk (Index.segments ix) (Index.by_substream ix) (Index.topic_names ix)
    (Index.refreshed_at ix) (Index.reconciled_at ix) (Index.generation ix + 1)
    (Index.seq_floor ix) (Index.opaque ix).

(** What a refresh found at one listed name. *)
Inductive FooterOutcome :=
  | Decoded (f : SegmentFooter)
  | Undecodable
  | Vanished.

(** The commit of one resolved footer in [refresh_prefix_index_inner]. *)
Definition commit_footer (ix : PrefixIndex) (seq modified : Z) (o : FooterOutcome) : PrefixIndex :=
  match o with
  | Decoded f => insert_segment ix seq (mkCached f modified)
  | Undecodable | Vanished =>
      Index.mk (Index.segments ix) (Index.by_substream ix) (Index.topic_names ix)
        (Index.refreshed_at ix) (Index.reconciled_at ix) (Index.generation ix) (Index.seq_floor ix)
        ({[seq]} ∪ Index.opaque ix)
  end.

(** The closing block of a refresh: the freshness stamps, the generation, and the
    downward pass when [reconcile] is set.  [live] is what the listings returned. *)
Definition close_refresh (ix : PrefixIndex) (now : Z) (settled reconcile whole_prefix : bool)
    (live : gset Z) : PrefixIndex :=
  let ix := Index.mk (Index.segments ix) (Index.by_substream ix) (Index.topic_names ix)
              (if settled then Some now else None) (Index.reconciled_at ix)
              (Index.generation ix + 1) (Index.seq_floor ix) (Index.opaque ix) in
  let ix :=
    match max_key (elements live) with
    | Some listed_max =>
        if reconcile then
          let keep seq := (listed_max <=? seq) || bool_decide (seq ∈ live) in
          let ix := (retain_segments ix keep).1 in
          Index.mk (Index.segments ix) (Index.by_substream ix) (Index.topic_names ix)
            (Index.refreshed_at ix) (Index.reconciled_at ix) (Index.generation ix)
            (Index.seq_floor ix) (filter (fun seq => keep seq = true) (Index.opaque ix))
        else ix
    | None => ix
    end in
  Index.mk (Index.segments ix) (Index.by_substream ix) (Index.topic_names ix)
    (Index.refreshed_at ix) (if whole_prefix then Some now else Index.reconciled_at ix)
    (Index.generation ix) (Index.seq_floor ix) (Index.opaque ix).

(** ** Reference: the walk over the whole prefix *)

(** Every segment in ascending sequence, every entry in order: what a lookup
    without [by_substream] would return. *)
Definition walk (ix : PrefixIndex) (s : Substream) (partition : Z)
    : list (Z * Z * SubstreamEntry) :=
  flat_map (fun seq =>
    match Index.segments ix !! seq with
    | None => []
    | Some cached =>
        map (fun e => (seq, writer_epoch (footer cached), e))
          (filter (fun e => (Entry.partition e =? partition) && Entry.is_ e s = true)
             (entries (footer cached)))
    end) (sorted_keys (Index.segments ix)).

(** ** The derived map is in step *)

Definition holds (segs : gmap Z CachedSegment) (key : SubstreamKey) (a : Z * nat) : Prop :=
  exists cached e, segs !! a.1 = Some cached /\ entries (footer cached) !! a.2 = Some e /\
    entry_key e = key.

Abbreviation sorted_ats := (StronglySorted at_lt).

(** Every list is sorted and non-empty. *)
Definition lists_ok (m : gmap SubstreamKey (list (Z * nat))) : Prop :=
  map_Forall (fun _ l => sorted_ats l /\ l <> []) m.

Definition look (m : gmap SubstreamKey (list (Z * nat))) (key : SubstreamKey) : list (Z * nat) :=
  default [] (m !! key).

Definition index_ok (ix : PrefixIndex) : Prop :=
  lists_ok (Index.by_substream ix) /\
  (forall key a, a ∈ look (Index.by_substream ix) key <-> holds (Index.segments ix) key a) /\
  names_in (Index.segments ix) ⊆ Index.topic_names ix.

#[export] Instance at_lt_trans : Transitive at_lt.
Proof. intros [a i] [b j] [c k]. unfold at_lt. cbn. lia. Qed.

Lemma at_lt_irrefl a : ~ at_lt a a.
Proof. unfold at_lt. lia. Qed.

Lemma at_lt_total a b : at_lt a b \/ a = b \/ at_lt b a.
Proof.
  destruct a as [x i], b as [y j]. unfold at_lt. cbn.
  destruct (Z.lt_trichotomy x y) as [?|[->|?]]; [by left; left| |by right; right; left].
  destruct (Nat.lt_trichotomy i j) as [?|[->|?]]; [left|right; left|right; right]; auto.
Qed.

Lemma seqs_insert_elem a x l : x ∈ seqs_insert a l <-> x = a \/ x ∈ l.
Proof.
  induction l as [|y l IH]; cbn; [set_solver|].
  destruct (decide (a = y)); [set_solver|]. destruct (decide (at_lt a y)); set_solver.
Qed.

Lemma seqs_insert_sorted a l : sorted_ats l -> sorted_ats (seqs_insert a l).
Proof.
  induction 1 as [|y l Hl IH Hy]; cbn; [repeat constructor|].
  destruct (decide (a = y)); [by constructor|].
  destruct (decide (at_lt a y)) as [Hlt|Hge].
  - constructor; [by constructor|]. constructor; [done|].
    eapply Forall_impl; [exact Hy|]. intros z Hz. by transitivity y.
  - constructor; [done|]. apply Forall_forall. intros z [->|Hz]%seqs_insert_elem.
    + destruct (at_lt_total a y) as [?|[?|?]]; done.
    + rewrite Forall_forall in Hy. by apply Hy.
Qed.

Lemma filter_sorted (P : Z * nat -> Prop) `{!forall x, Decision (P x)} l :
  sorted_ats l -> sorted_ats (filter P l).
Proof.
  induction 1 as [|y l Hl IH Hy]; [constructor|]. rewrite filter_cons.
  destruct (decide (P y)); [|done]. constructor; [done|]. rewrite Forall_forall in *.
  intros z [_ Hz]%list_elem_of_filter. by apply Hy.
Qed.

Lemma look_add m key a key' x :
  x ∈ look (add_at m key a) key' <-> x ∈ look m key' \/ (key' = key /\ x = a).
Proof.
  unfold look, add_at. destruct (decide (key' = key)) as [->|Hne].
  - rewrite lookup_insert_eq. cbn. rewrite seqs_insert_elem. naive_solver.
  - rewrite lookup_insert_ne by done. naive_solver.
Qed.

Lemma lists_ok_look m key : lists_ok m -> sorted_ats (look m key).
Proof.
  intros H. unfold look. destruct (m !! key) eqn:E; [|constructor]. by apply H in E as [? _].
Qed.

Lemma lists_ok_add m key a : lists_ok m -> lists_ok (add_at m key a).
Proof.
  intros H. apply map_Forall_insert_2; [|done]. split.
  - by apply seqs_insert_sorted, lists_ok_look.
  - intros E. assert (a ∈ seqs_insert a (default [] (m !! key))) by (apply seqs_insert_elem; by left).
    rewrite E in *. set_solver.
Qed.

Lemma look_del m key a key' x :
  x ∈ look (del_at m key a) key' <-> x ∈ look m key' /\ ~ (key' = key /\ x = a).
Proof.
  unfold del_at. destruct (m !! key) as [l|] eqn:El.
  2: { unfold look. split; [|naive_solver]. intros Hx. split; [done|]. intros [-> ->].
       rewrite El in Hx. by apply not_elem_of_nil in Hx. }
  assert (Hrm : forall y, y ∈ seqs_remove a l <-> y ∈ l /\ y <> a).
  { intros y. unfold seqs_remove. rewrite list_elem_of_filter. naive_solver. }
  unfold look. destruct (decide (key' = key)) as [->|Hne].
  - rewrite El. cbn. destruct (seqs_remove a l) as [|y r] eqn:Er.
    + rewrite lookup_delete_eq. cbn. specialize (Hrm x). set_solver.
    + rewrite lookup_insert_eq. cbn. rewrite Hrm. naive_solver.
  - destruct (seqs_remove a l); [rewrite lookup_delete_ne by done|rewrite lookup_insert_ne by done];
      naive_solver.
Qed.

Lemma lists_ok_del m key a : lists_ok m -> lists_ok (del_at m key a).
Proof.
  intros H. unfold del_at. destruct (m !! key) as [l|] eqn:El; [|done].
  destruct (H _ _ El) as [Hs _]. apply (filter_sorted (fun x => x <> a)) in Hs.
  unfold seqs_remove. destruct (filter _ l) as [|y r]; [by apply map_Forall_delete|].
  by apply map_Forall_insert_2.
Qed.

Lemma look_index_entries seq pos es m key x :
  x ∈ look (index_entries seq pos es m) key <->
  x ∈ look m key \/
  (exists i e, es !! i = Some e /\ entry_key e = key /\ x = (seq, (pos + i)%nat)).
Proof.
  revert pos m. induction es as [|e es IH]; intros pos m; cbn [index_entries unindex_entries].
  { split; [by left|]. intros [?|(i & e & Hi & _)]; [done|]. by rewrite lookup_nil in Hi. }
  rewrite IH, look_add. split.
  - intros [[?|[-> ->]]|(i & e' & Hi & Hk & ->)]; [by left| |].
    + right. exists 0%nat, e. rewrite Nat.add_0_r. done.
    + right. exists (S i), e'. rewrite Nat.add_succ_r. done.
  - intros [?|([|i] & e' & Hi & Hk & ->)]; [by left; left| |].
    + cbn in Hi. injection Hi as ->. rewrite Nat.add_0_r. left. by right.
    + right. exists i, e'. rewrite Nat.add_succ_r. done.
Qed.

Lemma lists_ok_index_entries seq pos es m :
  lists_ok m -> lists_ok (index_entries seq pos es m).
Proof.
  revert pos m. induction es as [|e es IH]; intros pos m H; cbn [index_entries unindex_entries]; [done|]. by apply IH, lists_ok_add.
Qed.

Lemma look_unindex_entries seq pos es m key x :
  x ∈ look (unindex_entries seq pos es m) key <->
  x ∈ look m key /\
  ~ (exists i e, es !! i = Some e /\ entry_key e = key /\ x = (seq, (pos + i)%nat)).
Proof.
  revert pos m. induction es as [|e es IH]; intros pos m; cbn [index_entries unindex_entries].
  { split; [|by intros [? _]]. intros ?. split; [done|]. intros (i & e & Hi & _).
    by rewrite lookup_nil in Hi. }
  rewrite IH, look_del. split.
  - intros [[Hx Hn] Hall]. split; [done|]. intros ([|i] & e' & Hi & Hk & ->).
    + cbn in Hi. injection Hi as ->. apply Hn. by rewrite Nat.add_0_r.
    + apply Hall. exists i, e'. by rewrite Nat.add_succ_r.
  - intros [Hx Hn]. split; [split; [done|]|].
    + intros [-> ->]. apply Hn. exists 0%nat, e. by rewrite Nat.add_0_r.
    + intros (i & e' & Hi & Hk & ->). apply Hn. exists (S i), e'. by rewrite Nat.add_succ_r.
Qed.

Lemma lists_ok_unindex_entries seq pos es m :
  lists_ok m -> lists_ok (unindex_entries seq pos es m).
Proof.
  revert pos m. induction es as [|e es IH]; intros pos m H; cbn [index_entries unindex_entries]; [done|]. by apply IH, lists_ok_del.
Qed.

(** After [unindex_segment] no list mentions [seq]. *)
Lemma unindex_segment_spec ix seq :
  index_ok ix ->
  lists_ok (Index.by_substream (unindex_segment ix seq)) /\
  Index.segments (unindex_segment ix seq) = Index.segments ix /\
  Index.topic_names (unindex_segment ix seq) = Index.topic_names ix /\
  forall key a, a ∈ look (Index.by_substream (unindex_segment ix seq)) key <->
    holds (Index.segments ix) key a /\ a.1 <> seq.
Proof.
  intros (Hl & Hmem & _). unfold unindex_segment.
  destruct (Index.segments ix !! seq) as [cached|] eqn:E; cbn.
  - split_and!; [by apply lists_ok_unindex_entries|done|done|]. intros key a.
    rewrite look_unindex_entries, Hmem. split.
    + intros [Hh Hn]. split; [done|]. intros Ha. destruct Hh as (c & e & Hc & He & Hk).
      rewrite Ha in Hc. rewrite E in Hc. injection Hc as <-.
      apply Hn. exists a.2, e. destruct a; cbn in *. by subst.
    + intros [Hh Hne]. split; [done|]. intros (i & e & _ & _ & ->). by cbn in Hne.
  - split_and!; [done|done|done|]. intros key a. rewrite Hmem. split; [|by intros [? _]].
    intros Hh. split; [done|]. intros Ha. destruct Hh as (c & e & Hc & _). rewrite Ha in Hc. congruence.
Qed.

Lemma entry_key_resident e : entry_key (resident e) = entry_key e.
Proof. done. Qed.

Lemma elem_names_in segs t :
  t ∈ names_in segs <->
  exists seq c e, segs !! seq = Some c /\ e ∈ entries (footer c) /\ Entry.topic e = t.
Proof.
  unfold names_in. rewrite elem_of_list_to_set, list_elem_of_In, in_flat_map. split.
  - intros ([seq c] & Hin & Ht). apply list_elem_of_In, elem_of_map_to_list in Hin.
    apply list_elem_of_In, list_elem_of_fmap in Ht as (e & -> & He). eauto 8.
  - intros (seq & c & e & Hc & He & <-). exists (seq, c). rewrite <- !list_elem_of_In. split.
    + by apply elem_of_map_to_list.
    + apply list_elem_of_fmap. eauto.
Qed.

Lemma insert_segment_ok ix seq cached : index_ok ix -> index_ok (insert_segment ix seq cached).
Proof.
  intros Hok. destruct (unindex_segment_spec ix seq Hok) as (Hl & Hseg & Hnames & Hmem).
  destruct Hok as (_ & _ & Hn).
  unfold insert_segment. set (es := map resident (entries (footer cached))).
  split_and!; cbn [set_maps Index.by_substream Index.segments Index.topic_names].
  - by apply lists_ok_index_entries.
  - intros key a. rewrite look_index_entries, Hmem, Hseg. unfold holds. split.
    + intros [[(c & e & Hc & He & Hk) Hne]|(i & e & Hi & Hk & ->)].
      * exists c, e. by rewrite lookup_insert_ne.
      * eexists _, e. cbn. rewrite lookup_insert_eq. done.
    + intros (c & e & Hc & He & Hk). destruct (decide (a.1 = seq)) as [Ha|Ha].
      * rewrite Ha, lookup_insert_eq in Hc. injection Hc as <-. right.
        exists a.2, e. destruct a; cbn in *. by subst.
      * rewrite lookup_insert_ne in Hc by done. left. split; [|done]. by exists c, e.
  - rewrite Hseg, Hnames. intros t (s' & c & e & Hc & He & <-)%elem_names_in.
    destruct (decide (s' = seq)) as [->|Hne].
    + rewrite lookup_insert_eq in Hc. injection Hc as <-. cbn in He.
      apply elem_of_union_r, elem_of_list_to_set, list_elem_of_fmap. eauto.
    + rewrite lookup_insert_ne in Hc by done. apply elem_of_union_l, Hn, elem_names_in. eauto 8.
Qed.

Lemma holds_filter keep segs key a :
  holds (filter (fun kv => keep kv.1 = true) segs) key a <->
  holds segs key a /\ keep a.1 = true.
Proof.
  unfold holds. split.
  - intros (c & e & [Hc Hk]%map_lookup_filter_Some & He). cbn in Hk. split; [|done]. by exists c, e.
  - intros [(c & e & Hc & He) Hk]. exists c, e. split; [|done]. by apply map_lookup_filter_Some.
Qed.

Lemma look_retain keep m key a :
  a ∈ look (omap (fun l => match filter (fun a : Z * nat => keep a.1 = true) l with
                           | [] => None | l => Some l end) m) key <->
  a ∈ look m key /\ keep a.1 = true.
Proof.
  unfold look. rewrite lookup_omap. destruct (m !! key) as [l|]; cbn; [|set_solver].
  assert (Hf : a ∈ filter (fun a : Z * nat => keep a.1 = true) l <-> a ∈ l /\ keep a.1 = true)
    by (rewrite list_elem_of_filter; naive_solver).
  rewrite <- Hf. by destruct (filter _ l).
Qed.

Lemma names_in_filter keep segs names :
  names_in segs ⊆ names ->
  names_in (filter (fun kv => keep kv.1 = true) segs)
  ⊆ forget_unused_topic_names (filter (fun kv => keep kv.1 = true) segs) names.
Proof.
  intros Hn t Ht. unfold forget_unused_topic_names. apply elem_of_intersection. split; [|done].
  apply Hn. apply elem_names_in in Ht as (seq & c & e & [Hc _]%map_lookup_filter_Some & He).
  apply elem_names_in. eauto 8.
Qed.

Lemma retain_segments_ok ix keep : index_ok ix -> index_ok (retain_segments ix keep).1.
Proof.
  intros (Hl & Hmem & Hn). unfold retain_segments. set (segs := filter _ _).
  destruct (Nat.ltb_spec 0 (size (Index.segments ix) - size segs)) as [Hd|Hd];
    (split_and!; cbn [fst set_maps Index.by_substream Index.segments Index.topic_names]).
  - intros key l. rewrite lookup_omap_Some. intros (l0 & Hf & Hl0).
    destruct (filter _ l0) as [|y r] eqn:E; [done|]. injection Hf as <-.
    apply Hl in Hl0 as [Hs _]. split; [|done]. rewrite <- E. by apply filter_sorted.
  - intros key a. rewrite look_retain, Hmem. symmetry. apply holds_filter.
  - by apply names_in_filter.
  - done.
  - assert (segs = Index.segments ix) as ->; [|done].
    apply map_filter_id. intros k c Hk. cbn.
    destruct (keep k) eqn:Ek; [done|]. exfalso.
    assert (size segs < size (Index.segments ix))%nat; [|lia].
    apply map_subset_size.
    split; [apply map_filter_subseteq|]. intros Hsub.
    apply (lookup_weaken _ _ k c Hk) in Hsub.
    apply map_lookup_filter_Some in Hsub as [_ Hsub]. cbn in Hsub. congruence.
  - intros t Ht. apply Hn. apply elem_names_in in Ht as (seq & c & e & Hc & He).
    apply map_lookup_filter_Some in Hc as [Hc _]. apply elem_names_in. eauto 8.
Qed.

(** The operations that change the maps of a prefix's index. *)
Inductive index_step : PrefixIndex -> PrefixIndex -> Prop :=
  | step_insert ix now seq f modified : index_step ix (index_insert ix now seq f modified)
  | step_commit ix seq modified o : index_step ix (commit_footer ix seq modified o)
  | step_close ix now settled reconcile whole live :
      index_step ix (close_refresh ix now settled reconcile whole live)
  | step_invalidate ix : index_step ix (index_invalidate ix)
  | step_prune ix seqs : index_step ix (index_prune ix seqs).

Lemma index_step_ok ix ix' : index_ok ix -> index_step ix ix' -> index_ok ix'.
Proof.
  intros Hok. destruct 1.
  - by apply (insert_segment_ok ix seq (mkCached f modified)).
  - destruct o; [by apply (insert_segment_ok ix seq (mkCached f modified))|exact Hok..].
  - unfold close_refresh. destruct (max_key (elements live)); [|exact Hok].
    destruct reconcile; [|exact Hok].
    match goal with |- context [retain_segments ?ix ?k] =>
      exact (retain_segments_ok ix k Hok) end.
  - exact Hok.
  - match goal with |- index_ok (index_prune ?ix ?s) =>
      exact (retain_segments_ok ix _ Hok) end.
Qed.

Definition reachable (ix : PrefixIndex) : Prop := rtc index_step Index.empty ix.

Lemma reachable_ok ix : reachable ix -> index_ok ix.
Proof.
  assert (H0 : index_ok Index.empty).
  { split_and!; [apply map_Forall_empty| |].
    - intros key a. unfold look, holds. cbn. rewrite lookup_empty. split; [set_solver|].
      by intros (c & e & Hc & _).
    - set_solver. }
  unfold reachable. intros H. remember Index.empty as ix0. clear Heqix0.
  induction H; [done|]. apply IHrtc. by eapply index_step_ok.
Qed.

(** ** The index lookup is the walk *)

(** The positions a walk visits, for one footer and for the whole prefix. *)
Fixpoint positions (key : SubstreamKey) (seq : Z) (pos : nat) (es : list SubstreamEntry)
    : list (Z * nat) :=
  match es with
  | [] => []
  | e :: es =>
      if decide (entry_key e = key) then (seq, pos) :: positions key seq (S pos) es
      else positions key seq (S pos) es
  end.

Definition block (segs : gmap Z CachedSegment) (key : SubstreamKey) (seq : Z) : list (Z * nat) :=
  match segs !! seq with
  | None => []
  | Some cached => positions key seq 0 (entries (footer cached))
  end.

Definition scan (segs : gmap Z CachedSegment) (key : SubstreamKey) : list (Z * nat) :=
  flat_map (block segs key) (sorted_keys segs).

Lemma elem_positions key seq pos es a :
  a ∈ positions key seq pos es <->
  exists i e, es !! i = Some e /\ entry_key e = key /\ a = (seq, (pos + i)%nat).
Proof.
  revert pos. induction es as [|e es IH]; intros pos; cbn [positions].
  { split; [by intros ?%not_elem_of_nil|]. intros (i & e & Hi & _). by rewrite lookup_nil in Hi. }
  assert (Hcons : a ∈ positions key seq (S pos) es <->
    exists i e', (e :: es) !! S i = Some e' /\ entry_key e' = key /\ a = (seq, (pos + S i)%nat)).
  { rewrite IH. cbn. setoid_rewrite Nat.add_succ_r. done. }
  destruct (decide (entry_key e = key)) as [Hk|Hk].
  - rewrite elem_of_cons, Hcons. split.
    + intros [->|(i & e' & H)]; [|by exists (S i), e']. exists 0%nat, e. rewrite Nat.add_0_r. done.
    + intros ([|i] & e' & Hi & Hk' & ->); [left; by rewrite Nat.add_0_r|]. right. by exists i, e'.
  - rewrite Hcons. split.
    + intros (i & e' & H). by exists (S i), e'.
    + intros ([|i] & e' & Hi & Hk' & ->); [cbn in Hi; congruence|]. by exists i, e'.
Qed.

Lemma positions_sorted key seq pos es : sorted_ats (positions key seq pos es).
Proof.
  revert pos. induction es as [|e es IH]; intros pos; cbn [positions]; [constructor|].
  destruct (decide _); [|apply IH]. constructor; [apply IH|].
  apply Forall_forall. intros a (i & e' & _ & _ & ->)%elem_positions. right. cbn. lia.
Qed.

Lemma sorted_keys_spec {V} (m : gmap Z V) :
  StronglySorted Z.lt (sorted_keys m) /\ (forall k, k ∈ sorted_keys m <-> is_Some (m !! k)).
Proof.
  assert (Hp : sorted_keys m ≡ₚ (map_to_list m).*1) by apply merge_sort_Permutation.
  split.
  - assert (Hs : StronglySorted Z.le (sorted_keys m)) by (apply StronglySorted_merge_sort; apply _).
    assert (Hn : NoDup (sorted_keys m)) by (rewrite Hp; apply NoDup_fst_map_to_list).
    clear Hp. induction Hs as [|x l Hl IH Hx]; [constructor|]. apply NoDup_cons in Hn as [Hx' Hn].
    constructor; [by apply IH|]. rewrite Forall_forall in *. intros y Hy.
    specialize (Hx y Hy). assert (x <> y) by (intros ->; done). lia.
  - intros k. rewrite Hp, list_elem_of_fmap. split.
    + intros ([k' v] & -> & Hv%elem_of_map_to_list). by exists v.
    + intros [v Hv]. exists (k, v). split; [done|]. by apply elem_of_map_to_list.
Qed.

Lemma scan_sorted segs key : sorted_ats (scan segs key).
Proof.
  unfold scan. destruct (sorted_keys_spec segs) as [Hs _].
  induction Hs as [|x l Hl IH Hx]; [constructor|]. cbn [flat_map].
  assert (Hfst : forall y a, a ∈ block segs key y -> a.1 = y).
  { intros y a. unfold block. case_match; [|by intros ?%not_elem_of_nil].
    by intros (i & e & _ & _ & ->)%elem_positions. }
  apply StronglySorted_app_2; [|unfold block; case_match; [apply positions_sorted|constructor]|done].
  intros a b Ha Hb. apply list_elem_of_In, in_flat_map in Hb as (y & Hy & Hb).
  apply list_elem_of_In in Hy, Hb. apply Hfst in Ha, Hb. rewrite Forall_forall in Hx.
  left. rewrite Ha, Hb. by apply Hx.
Qed.

Lemma elem_scan segs key a : a ∈ scan segs key <-> holds segs key a.
Proof.
  unfold scan, holds. rewrite list_elem_of_In, in_flat_map. split.
  - intros (y & _ & Ha). rewrite <- list_elem_of_In in Ha. unfold block in Ha.
    destruct (segs !! y) as [c|] eqn:E; [|by apply not_elem_of_nil in Ha].
    apply elem_positions in Ha as (i & e & Hi & Hk & ->). by exists c, e.
  - intros (c & e & Hc & He & Hk). exists a.1. rewrite <- !list_elem_of_In. split.
    + apply sorted_keys_spec. by exists c.
    + unfold block. rewrite Hc. apply elem_positions. exists a.2, e. by destruct a.
Qed.

Lemma sorted_unique l k :
  sorted_ats l -> sorted_ats k -> (forall a, a ∈ l <-> a ∈ k) -> l = k.
Proof.
  intros Hl. revert k. induction Hl as [|x l Hl IH Hx]; intros k Hk Heq.
  { destruct k as [|y k]; [done|]. specialize (Heq y). set_solver. }
  destruct Hk as [|y k Hk Hy]; [specialize (Heq x); set_solver|]. rewrite Forall_forall in Hx, Hy.
  assert (x = y) as ->.
  { destruct (at_lt_total x y) as [Hlt|[?|Hlt]]; [|done|].
    - assert (x ∈ y :: k) as [->|Hin]%elem_of_cons by (apply Heq; by left); [done|].
      apply Hy in Hin. destruct (at_lt_irrefl y). by transitivity x.
    - assert (y ∈ x :: l) as [->|Hin]%elem_of_cons by (apply Heq; by left); [done|].
      apply Hx in Hin. destruct (at_lt_irrefl x). by transitivity y. }
  f_equal. apply IH; [done|]. intros a. specialize (Heq a). rewrite !elem_of_cons in Heq. split.
  - intros Ha. destruct Heq as [[->|?] _]; [by right| |done]. by apply Hx, at_lt_irrefl in Ha.
  - intros Ha. destruct Heq as [_ [->|?]]; [by right| |done]. by apply Hy, at_lt_irrefl in Ha.
Qed.

Lemma entry_is_substream e s : Entry.is_ e s = true <-> Entry.substream e = s.
Proof.
  unfold Entry.is_, Entry.substream. destruct s as [n|i], (Entry.topic_id e) as [j|];
    rewrite ?andb_true_iff, ?bool_decide_eq_true; naive_solver.
Qed.

Lemma entry_key_eq e s p :
  entry_key e = (s, p) <-> (Entry.partition e =? p) && Entry.is_ e s = true.
Proof.
  unfold entry_key. rewrite andb_true_iff, Z.eqb_eq, entry_is_substream. naive_solver.
Qed.

Lemma omap_positions segs s p seq cached pre es :
  segs !! seq = Some cached -> entries (footer cached) = pre ++ es ->
  omap (entry_at_pos segs) (positions (s, p) seq (length pre) es) =
  map (fun e => (seq, writer_epoch (footer cached), e))
    (filter (fun e => (Entry.partition e =? p) && Entry.is_ e s = true) es).
Proof.
  intros Hc. revert pre. induction es as [|e es IH]; intros pre Hes; [done|].
  specialize (IH (pre ++ [e])). rewrite length_app, Nat.add_1_r, <- app_assoc in IH.
  specialize (IH Hes). cbn [positions]. rewrite filter_cons.
  destruct (decide (entry_key e = (s, p))) as [Hk|Hk].
  - rewrite decide_True by (by apply entry_key_eq). cbn [map].
    rewrite <- IH. unfold omap. cbn [list_omap]. unfold entry_at_pos at 1. cbn [fst snd].
    rewrite Hc, Hes, list_lookup_middle by done. done.
  - rewrite decide_False by (by rewrite <- entry_key_eq). done.
Qed.

Lemma omap_flat_map {A B C} (f : B -> option C) (g : A -> list B) l :
  omap f (flat_map g l) = flat_map (fun x => omap f (g x)) l.
Proof. induction l as [|x l IH]; [done|]. cbn [flat_map]. by rewrite omap_app, IH. Qed.

Lemma index_ok_walk ix s p : index_ok ix -> substream_entries ix s p = walk ix s p.
Proof.
  intros (Hl & Hmem & _). unfold substream_entries, walk.
  change (default [] (Index.by_substream ix !! (s, p))) with (look (Index.by_substream ix) (s, p)).
  assert (look (Index.by_substream ix) (s, p) = scan (Index.segments ix) (s, p)) as ->.
  { apply sorted_unique; [by apply lists_ok_look|apply scan_sorted|].
    intros a. by rewrite Hmem, elem_scan. }
  unfold scan. rewrite omap_flat_map. apply flat_map_ext. intros seq. unfold block.
  destruct (Index.segments ix !! seq) as [c|] eqn:Hc; [|done].
  by apply (omap_positions _ s p seq c []).
Qed.

(** ** Properties *)

(** C36 The indexed lookup is the walk it replaced: whatever sequence of
    inserts, refresh commits, reconciling passes, invalidations and prunes built
    the index, asking it for a sub-stream returns exactly what visiting every
    entry of every cached footer in ascending sequence order would, and every
    cached entry's topic name stays interned. *)
Theorem index_lookup_is_walk (ix : PrefixIndex) (s : Substream) (partition : Z) :
  reachable ix ->
  substream_entries ix s partition = walk ix s partition /\
  names_in (Index.segments ix) ⊆ Index.topic_names ix.
Proof.
  intros Hok%reachable_ok. split; [by apply index_ok_walk|]. by destruct Hok as (_ & _ & ?).
Qed.

Definition sample_footer : SegmentFooter :=
  mkFooter 1 7
    [Entry.mk (ascii_bytes "a") None 0 10 5 0 65 0 [];
     Entry.mk (ascii_bytes "b") (Some 9) 1 0 2 65 65 0 [];
     Entry.mk (ascii_bytes "a") None 0 15 5 130 65 0 []].

Lemma index_lookup_is_walk_witness :
  let ix := index_prune (index_insert (index_insert Index.empty 0 4 sample_footer 0)
                           1 3 sample_footer 0) [4] in
  length (substream_entries ix (Name (ascii_bytes "a")) 0) = 2%nat.
Proof.
  intros ix. rewrite (proj1 (index_lookup_is_walk ix (Name (ascii_bytes "a")) 0
    ltac:(eapply rtc_l; [apply step_insert|]; eapply rtc_l; [apply step_insert|];
          eapply rtc_l; [apply step_prune|]; apply rtc_refl))).
  by vm_compute.
Defined.
