(* ===== verification/Fenced.v ===== *)
(** * Fenced: the view of a sub-stream that readers, writers and compaction share

    [with_fenced_segments], [valid_substream_segments], [substream_tail],
    [segment_region_start] and [tail_outranked] of
    [tansu-storage/src/dynostore/index.rs], and [FencedRef] of
    [dynostore/codec.rs]: which segment serves which offsets when footers
    overlap, after a merge, a zombie writer or a stale cache. *)

From S2P Require Export PrefixIndex.

(** A candidate: writer epoch, sequence, entry. *)
Definition Candidate : Type := Z * Z * SubstreamEntry.

Definition cand_rank (c : Candidate) : Z * Z := (c.1.1, c.1.2).
Definition cand_entry (c : Candidate) : SubstreamEntry := c.2.
Abbreviation cand_base c := (Entry.base_offset (cand_entry c)).
Abbreviation cand_end c := (Entry.end_ (cand_entry c)).

(** [(epoch, seq)] pairs compare lexicographically. *)
Definition rank_ltb (a b : Z * Z) : bool := (a.1 <? b.1) || ((a.1 =? b.1) && (a.2 <? b.2)).

(** The comparator: ascending base, then higher epoch, then higher sequence. *)
Definition cand_leb (a b : Candidate) : bool :=
  (cand_base a <? cand_base b)
  || ((cand_base a =? cand_base b) && negb (rank_ltb (cand_rank a) (cand_rank b))).

(** [sort_by] is stable. *)
Fixpoint cand_insert (c : Candidate) (l : list Candidate) : list Candidate :=
  match l with
  | [] => [c]
  | x :: l' => if cand_leb c x then c :: l else x :: cand_insert c l'
  end.

Definition cand_sort (l : list Candidate) : list Candidate := foldr cand_insert [] l.

(** Whether [[from, to)] is covered by entries of [later] that outrank [rank]. *)
Fixpoint tail_outranked_loop (later : list Candidate) (rank : Z * Z) (covered to : Z) : bool :=
  match later with
  | [] => false
  | c :: later =>
      if covered <? cand_base c then false
      else if rank_ltb rank (cand_rank c) then
        let covered := Z.max covered (cand_end c) in
        if to <=? covered then true else tail_outranked_loop later rank covered to
      else tail_outranked_loop later rank covered to
  end.

Definition tail_outranked (later : list Candidate) (rank : Z * Z) (from to : Z) : bool :=
  tail_outranked_loop later rank from to.

Record FencedRef := mkFenced {
  fenced_seq : Z;
  served_from : Z;
  fenced_entry : SubstreamEntry;
}.

Definition fenced_end (r : FencedRef) : Z := Entry.end_ (fenced_entry r).
Definition is_clipped (r : FencedRef) : bool := Entry.base_offset (fenced_entry r) <? served_from r.

(** The share of the region's bytes at or above [offset], by record count. *)
Definition bytes_from (r : FencedRef) (offset : Z) : Z :=
  let e := fenced_entry r in
  let above := fenced_end r - Z.max offset (Entry.base_offset e) in
  if (Entry.record_count e <=? 0) || (Entry.record_count e <=? above) then Entry.byte_len e
  else Entry.byte_len e * Z.max above 0 / Entry.record_count e.

(** The sweep over the sorted candidates. *)
Fixpoint fence (covered_to : Z) (frontier_rank : Z * Z) (segs : list Candidate) : list FencedRef :=
  match segs with
  | [] => []
  | c :: later =>
      if cand_end c <=? covered_to then fence covered_to frontier_rank later
      else if (cand_base c <? covered_to) && rank_ltb (cand_rank c) frontier_rank
              && tail_outranked later (cand_rank c) covered_to (cand_end c)
      then fence covered_to frontier_rank later
      else
      let from := if cand_base c <? covered_to then covered_to else cand_base c in
      mkFenced c.1.2 from (cand_entry c) :: fence (cand_end c) (cand_rank c) later
  end.

Definition fence_all (cands : list Candidate) : list FencedRef :=
  fence i64_MIN (i64_MIN, 0) (cand_sort cands).

Definition candidates_of (ix : PrefixIndex) (s : Substream) (partition : Z) : list Candidate :=
  map (fun x => let '(seq, epoch, e) := x in (epoch, seq, e)) (substream_entries ix s partition).

(** [with_fenced_segments] / [valid_substream_segments]. *)
Definition valid_substream_segments (ix : PrefixIndex) (s : Substream) (partition : Z)
    : list FencedRef :=
  fence_all (candidates_of ix s partition).

(** The greatest end of any entry. *)
Definition substream_tail (ix : PrefixIndex) (s : Substream) (partition : Z) : option Z :=
  max_key (map (fun x => Entry.end_ x.2) (substream_entries ix s partition)).

(** The base of the first served entry. *)
Definition segment_region_start (ix : PrefixIndex) (s : Substream) (partition : Z) : option Z :=
  (fun r => Entry.base_offset (fenced_entry r)) <$> head (valid_substream_segments ix s partition).

(** [recover_substream_next_offset], after the refresh. *)
Definition recover_substream_next_offset (ix : PrefixIndex) (s : Substream) (partition : Z)
    (persisted_floor : Z) : Z :=
  Z.max (default 0 (substream_tail ix s partition)) persisted_floor.

(** The read plan of one [fetch] attempt: the segments the budget admits, the
    one that crosses it included. *)
Fixpoint fetch_plan (offset high_watermark bytes : Z) (segments : list FencedRef)
    : list FencedRef :=
  match segments with
  | [] => []
  | fenced :: segments =>
      if fenced_end fenced <=? offset then fetch_plan offset high_watermark bytes segments
      else if high_watermark <=? Entry.base_offset (fenced_entry fenced) then []
      else
      let byte_len := bytes_from fenced offset in
      fenced :: if bytes <? byte_len then []
                else fetch_plan offset high_watermark (Z.max 0 (bytes - byte_len)) segments
  end.

(** [producer_tail_folded] over the view. *)
Definition producer_tail (ix : PrefixIndex) (s : Substream) (partition producer_id : Z)
    : ProducerTail :=
  producer_tail_folded producer_id (map fenced_entry (valid_substream_segments ix s partition)).

(** ** Offsets *)

Definition in_entry (e : SubstreamEntry) (x : Z) : Prop := Entry.base_offset e <= x < Entry.end_ e.
Definition in_served (r : FencedRef) (x : Z) : Prop := served_from r <= x < fenced_end r.

(** ** Sorting *)

Abbreviation by_base := (StronglySorted (fun a b : Candidate => cand_base a <= cand_base b)).

Lemma cand_leb_base a b : cand_leb a b = true -> cand_base a <= cand_base b.
Proof. unfold cand_leb. rewrite orb_true_iff, andb_true_iff, Z.ltb_lt, Z.eqb_eq. lia. Qed.

Lemma cand_leb_false a b : cand_leb a b = false -> cand_base b <= cand_base a.
Proof. unfold cand_leb. rewrite orb_false_iff, Z.ltb_ge. lia. Qed.

Lemma cand_insert_perm c l : cand_insert c l ≡ₚ c :: l.
Proof.
  induction l as [|x l IH]; cbn; [done|]. case_match; [done|]. rewrite IH. apply Permutation_swap.
Qed.

Lemma cand_sort_perm l : cand_sort l ≡ₚ l.
Proof. induction l as [|c l IH]; cbn; [done|]. by rewrite cand_insert_perm, IH. Qed.

Lemma cand_insert_sorted c l : by_base l -> by_base (cand_insert c l).
Proof.
  induction 1 as [|x l Hl IH Hx]; cbn; [repeat constructor|].
  destruct (cand_leb c x) eqn:E.
  - apply cand_leb_base in E. constructor; [by constructor|]. constructor; [done|].
    eapply Forall_impl; [exact Hx|]. cbn. lia.
  - apply cand_leb_false in E. constructor; [done|]. rewrite cand_insert_perm. by constructor.
Qed.

Lemma cand_sort_sorted l : by_base (cand_sort l).
Proof. induction l as [|c l IH]; cbn; [constructor|]. by apply cand_insert_sorted. Qed.

Lemma elem_of_swap_rank epoch seq e (l : list (Z * Z * SubstreamEntry)) :
  (epoch, seq, e) ∈ map (fun x => let '(seq, epoch, e) := x in (epoch, seq, e)) l
  <-> (seq, epoch, e) ∈ l.
Proof.
  rewrite list_elem_of_fmap. split.
  - intros ([[seq' epoch'] e'] & Heq & Hin). cbn in Heq. by injection Heq as -> -> ->.
  - intros Hin. by exists (seq, epoch, e).
Qed.

(** ** The sweep serves every offset once *)

Lemma tail_outranked_covers later rank from to :
  tail_outranked later rank from to = true ->
  forall x, from <= x < to -> Exists (fun c => in_entry (cand_entry c) x) later.
Proof.
  unfold tail_outranked. revert from. induction later as [|c later IH]; intros from H x Hx; [done|].
  cbn in H. destruct (Z.ltb_spec from (cand_base c)) as [?|Hb]; [done|].
  destruct (rank_ltb rank (cand_rank c)); [|right; by eapply IH].
  destruct (Z.lt_ge_cases x (cand_end c)) as [Hlt|Hge]; [left; unfold in_entry; lia|].
  destruct (Z.leb_spec to (Z.max from (cand_end c))); [lia|].
  right. eapply IH; [done|]. lia.
Qed.

Lemma fence_covers cov fr segs x :
  by_base segs -> cov <= x -> Exists (fun c => in_entry (cand_entry c) x) segs ->
  Exists (fun r => in_served r x) (fence cov fr segs).
Proof.
  intros Hs. revert cov fr. induction Hs as [|c later Hl IH Hc]; intros cov fr Hcov Hx.
  { by apply Exists_nil in Hx. }
  cbn [fence]. destruct (Z.leb_spec (cand_end c) cov).
  { apply IH; [done|]. apply Exists_cons in Hx as [Hx|Hx]; [unfold in_entry in Hx; lia|done]. }
  destruct ((cand_base c <? cov) && _ && _) eqn:Edrop.
  { apply andb_true_iff in Edrop as [_ Ht]. apply IH; [done|].
    apply Exists_cons in Hx as [Hx|Hx]; [|done]. eapply tail_outranked_covers; [done|].
    unfold in_entry in Hx. lia. }
  destruct (Z.lt_ge_cases x (cand_end c)) as [Hlt|Hge].
  - left. unfold in_served, fenced_end. cbn.
    assert (cand_base c <= x).
    { apply Exists_cons in Hx as [Hx|Hx]; [unfold in_entry in Hx; lia|].
      rewrite Forall_forall in Hc. apply Exists_exists in Hx as (c' & Hin & Hx).
      specialize (Hc c' Hin). unfold in_entry in Hx. lia. }
    destruct (Z.ltb_spec (cand_base c) cov); unfold in_entry in *; cbn in *; lia.
  - right. apply IH; [lia|]. apply Exists_cons in Hx as [Hx|Hx]; [unfold in_entry in Hx; lia|done].
Qed.

(** Every served range is a non-empty part of its entry, past the frontier. *)
Lemma fence_sound cov fr segs :
  Forall (fun c => 1 <= Entry.record_count (cand_entry c)) segs ->
  Forall (fun r => cov <= served_from r < fenced_end r /\
                   Entry.base_offset (fenced_entry r) <= served_from r /\
                   exists c, c ∈ segs /\ fenced_entry r = cand_entry c /\ fenced_seq r = c.1.2)
    (fence cov fr segs).
Proof.
  intros Hpos. revert cov fr. induction Hpos as [|c later Hc Hl IH]; intros cov fr; [constructor|].
  assert (Hweak : forall cov' fr', cov <= cov' ->
    Forall (fun r => cov <= served_from r < fenced_end r /\
                   Entry.base_offset (fenced_entry r) <= served_from r /\
                   exists c', c' ∈ c :: later /\ fenced_entry r = cand_entry c' /\ fenced_seq r = c'.1.2)
      (fence cov' fr' later)).
  { intros cov' fr' Hle. eapply Forall_impl; [apply IH|]. intros r (? & ? & c' & Hin & ?).
    split; [lia|]. split; [done|]. exists c'. split; [by right|done]. }
  cbn [fence]. destruct (Z.leb_spec (cand_end c) cov); [by apply Hweak|].
  destruct (_ && _ && _); [by apply Hweak|]. constructor; [|apply Hweak; lia].
  unfold fenced_end. cbn. unfold Entry.end_ in *.
  split; [|split; [|exists c; split; [by left|done]]];
    destruct (Z.ltb_spec (cand_base c) cov); cbn in *; lia.
Qed.

Lemma fence_disjoint cov fr segs :
  Forall (fun c => 1 <= Entry.record_count (cand_entry c)) segs ->
  StronglySorted (fun a b => fenced_end a <= served_from b) (fence cov fr segs).
Proof.
  intros Hpos. revert cov fr. induction Hpos as [|c later Hc Hl IH]; intros cov fr; [constructor|].
  cbn [fence]. destruct (_ <=? _); [done|]. destruct (_ && _ && _); [done|].
  constructor; [done|]. eapply Forall_impl; [by apply fence_sound|].
  intros r ([? _] & _). unfold fenced_end. cbn. done.
Qed.

Lemma view_exact (ix : PrefixIndex) (s : Substream) (partition : Z)
    (Hcount : Forall (fun x => 1 <= Entry.record_count x.2 /\ i64_MIN <= Entry.base_offset x.2)
                (substream_entries ix s partition)) :
  let view := valid_substream_segments ix s partition in
  let entries := substream_entries ix s partition in
  (forall x, Exists (fun r => in_served r x) view <-> Exists (fun y => in_entry y.2 x) entries) /\
  StronglySorted (fun a b => fenced_end a <= served_from b) view /\
  Forall (fun r => served_from r < fenced_end r /\
                   Entry.base_offset (fenced_entry r) <= served_from r /\
                   exists epoch, (fenced_seq r, epoch, fenced_entry r) ∈ entries) view.
Proof.
  cbn zeta. unfold valid_substream_segments, fence_all.
  set (cands := cand_sort (candidates_of ix s partition)).
  assert (Hin : forall c, c ∈ cands <-> (c.1.2, c.1.1, c.2) ∈ substream_entries ix s partition).
  { intros [[epoch seq] e]. unfold cands. rewrite cand_sort_perm. unfold candidates_of.
    apply elem_of_swap_rank. }
  assert (Hpos : Forall (fun c => 1 <= Entry.record_count (cand_entry c)) cands).
  { apply Forall_forall. intros c Hc. apply Hin in Hc.
    rewrite Forall_forall in Hcount. by apply (Hcount _ Hc). }
  pose proof (fence_sound i64_MIN (i64_MIN, 0) cands Hpos) as Hsound.
  rewrite Forall_forall in Hsound. rewrite Forall_forall in Hcount. split; [|split].
  - intros x. split; intros Hx; apply Exists_exists in Hx as (r & Hr & Hx).
    + destruct (Hsound r Hr) as (_ & Hb & c & Hc & He & _). apply Exists_exists.
      apply Hin in Hc. eexists. split; [exact Hc|]. unfold in_served, in_entry, fenced_end in *.
      rewrite He in *. cbn. unfold cand_entry in *. lia.
    + apply fence_covers; [apply cand_sort_sorted| |].
      * specialize (Hcount _ Hr). unfold in_entry in Hx. lia.
      * apply Exists_exists. exists (r.1.2, r.1.1, r.2). split; [|done]. apply Hin. by destruct r as [[]].
  - by apply fence_disjoint.
  - apply Forall_forall. intros r Hr. destruct (Hsound r Hr) as (Hs & Hb & c & Hc & He & Hq).
    split; [lia|]. split; [done|]. exists c.1.1. apply Hin in Hc. by rewrite He, Hq.
Qed.

(** ** Properties *)

(** C10 The fenced view of a sub-stream serves exactly the offsets its cached
    entries hold, each of them once: an offset is in the range of some served
    segment exactly when some entry of the index contains it; served ranges are
    non-empty, disjoint and ascending, and each is a part of the entry it is
    read from, an entry the index has under the sequence the reader will
    fetch. *)
Theorem fenced_view_exact (ix : PrefixIndex) (s : Substream) (partition : Z)
    (Hcount : Forall (fun x => 1 <= Entry.record_count x.2 /\ i64_MIN <= Entry.base_offset x.2)
                (substream_entries ix s partition)) :
  let view := valid_substream_segments ix s partition in
  let entries := substream_entries ix s partition in
  (forall x, Exists (fun r => in_served r x) view <-> Exists (fun y => in_entry y.2 x) entries) /\
  StronglySorted (fun a b => fenced_end a <= served_from b) view /\
  Forall (fun r => served_from r < fenced_end r /\
                   Entry.base_offset (fenced_entry r) <= served_from r /\
                   exists epoch, (fenced_seq r, epoch, fenced_entry r) ∈ entries) view.
Proof. by apply view_exact. Qed.

Definition sample_entry (base count : Z) : SubstreamEntry :=
  Entry.mk (ascii_bytes "a") None 0 base count 0 65 0 [].

(** Two segments of one sub-stream: seq 1 under epoch 5 holds [0, 10), seq 2
    under epoch 6 holds [4, 12). *)
Definition sample_overlap : PrefixIndex :=
  index_insert (index_insert Index.empty 0 1 (mkFooter 5 7 [sample_entry 0 10]) 0)
    1 2 (mkFooter 6 8 [sample_entry 4 8]) 0.

Lemma fenced_view_exact_witness :
  Exists (fun r => in_served r 11) (valid_substream_segments sample_overlap (Name (ascii_bytes "a")) 0).
Proof.
  apply (proj1 (fenced_view_exact sample_overlap (Name (ascii_bytes "a")) 0
    ltac:(apply Forall_forall; intros x Hx; vm_compute in Hx;
          repeat (apply elem_of_cons in Hx as [->|Hx]; [vm_compute; intuition congruence|]);
          by apply not_elem_of_nil in Hx))).
  apply Exists_exists. exists (2, 6, sample_entry 4 8). split; [|by vm_compute].
  replace (substream_entries sample_overlap (Name (ascii_bytes "a")) 0)
    with [(1, 5, sample_entry 0 10); (2, 6, sample_entry 4 8)] by (by vm_compute).
  right. by left.
Defined.

(** ** The tail *)

Lemma max_key_spec l m : max_key l = Some m <-> m ∈ l /\ Forall (fun x => x <= m) l.
Proof.
  split.
  - destruct l as [|x l]; [done|]. cbn. intros [= <-]. split.
    + destruct (max_list_in x l) as [->|H]; [by left|by right].
    + constructor; [apply max_list_ge_init|]. apply Forall_forall. intros. by apply max_list_le.
  - intros [Hin Hall]. destruct l as [|x l]; [by apply not_elem_of_nil in Hin|]. cbn. f_equal.
    apply Forall_cons in Hall as [Hx Hall]. rewrite Forall_forall in Hall.
    apply Z.le_antisymm.
    + destruct (max_list_in x l) as [->|H]; [done|by apply Hall].
    + apply elem_of_cons in Hin as [->|Hin]; [apply max_list_ge_init|by apply max_list_le].
Qed.

Lemma served_last_max (l : list FencedRef) r :
  StronglySorted (fun a b => fenced_end a <= served_from b) l ->
  Forall (fun r => served_from r < fenced_end r) l -> last l = Some r ->
  Forall (fun r' => fenced_end r' <= fenced_end r) l.
Proof.
  intros Hs Hne Hl. apply last_snoc_inv in Hl as [l' ->].
  apply Forall_app in Hne as [_ [Hr _]%Forall_cons].
  apply Forall_app. split; [|repeat constructor; lia].
  induction l' as [|x l' IH]; [constructor|]. inversion Hs as [|? ? Hs' Hx]; subst.
  constructor; [|by apply IH]. apply Forall_app in Hx as [_ [Hx _]%Forall_cons]. cbn in Hx. lia.
Qed.

(** [substream_tail], the greatest end of any cached entry, is where the
    fenced view ends, without building it: the high watermark and the next
    base a writer assigns are the end of the last served segment, and there is
    none exactly when the index holds no entry of the sub-stream. *)
Theorem substream_tail_is_view_end (ix : PrefixIndex) (s : Substream) (partition : Z)
    (Hcount : Forall (fun x => 1 <= Entry.record_count x.2 /\ i64_MIN <= Entry.base_offset x.2)
                (substream_entries ix s partition)) :
  substream_tail ix s partition = fenced_end <$> last (valid_substream_segments ix s partition).
Proof.
  destruct (view_exact _ _ _ Hcount) as (Hiff & Hsort & Hok).
  set (view := valid_substream_segments ix s partition) in *. unfold substream_tail.
  destruct (last view) as [r|] eqn:Hlast; cbn.
  - apply max_key_spec. split.
    + assert (Hr : r ∈ view) by (apply last_snoc_inv in Hlast as [l' ->]; apply elem_of_app; right; by left).
      rewrite Forall_forall in Hok. destruct (Hok r Hr) as (_ & _ & epoch & Hin).
      apply list_elem_of_fmap. eexists. split; [|exact Hin]. done.
    + apply Forall_forall. intros m (y & -> & Hy)%list_elem_of_fmap.
      rewrite Forall_forall in Hcount. destruct (Hcount y Hy) as [Hc _].
      assert (Hx : Exists (fun r => in_served r (Entry.end_ y.2 - 1)) view).
      { apply Hiff, Exists_exists. exists y. split; [done|]. unfold in_entry, Entry.end_. lia. }
      apply Exists_exists in Hx as (r' & Hr' & Hx). unfold in_served in Hx.
      pose proof (served_last_max view r Hsort) as Hmax. rewrite !Forall_forall in Hmax.
      specialize (Hmax (fun r Hr => proj1 (proj1 (Forall_forall _ _) Hok r Hr)) Hlast r' Hr'). lia.
  - apply last_None in Hlast. destruct (substream_entries ix s partition) as [|y es]; [done|]. exfalso.
    apply Forall_cons in Hcount as [[Hc _] _].
    assert (Hx : Exists (fun r => in_served r (Entry.base_offset y.2)) view).
    { apply Hiff. left. unfold in_entry, Entry.end_. lia. }
    rewrite Hlast in Hx. by apply Exists_nil in Hx.
Qed.

Lemma substream_tail_is_view_end_witness :
  substream_tail sample_overlap (Name (ascii_bytes "a")) 0 = Some 12.
Proof.
  rewrite (substream_tail_is_view_end sample_overlap (Name (ascii_bytes "a")) 0
    ltac:(apply Forall_forall; intros x Hx; vm_compute in Hx;
          repeat (apply elem_of_cons in Hx as [->|Hx]; [vm_compute; intuition congruence|]);
          by apply not_elem_of_nil in Hx)).
  by vm_compute.
Defined.

(** ** A merge hides what it replaced *)

Lemma rank_ltb_spec a b : rank_ltb a b = true <-> a.1 < b.1 \/ (a.1 = b.1 /\ a.2 < b.2).
Proof. unfold rank_ltb. rewrite orb_true_iff, andb_true_iff, !Z.ltb_lt, Z.eqb_eq. done. Qed.

Lemma cand_leb_spec a b :
  cand_leb a b = true <->
  cand_base a < cand_base b \/
  (cand_base a = cand_base b /\ ~ (a.1.1 < b.1.1 \/ (a.1.1 = b.1.1 /\ a.1.2 < b.1.2))).
Proof.
  unfold cand_leb. rewrite orb_true_iff, andb_true_iff, Z.ltb_lt, Z.eqb_eq, negb_true_iff.
  rewrite <- not_true_iff_false, rank_ltb_spec. done.
Qed.

Lemma cand_leb_trans a b c : cand_leb a b = true -> cand_leb b c = true -> cand_leb a c = true.
Proof. rewrite !cand_leb_spec. lia. Qed.

Lemma cand_leb_total a b : cand_leb a b = false -> cand_leb b a = true.
Proof. rewrite <- not_true_iff_false, !cand_leb_spec. lia. Qed.

Abbreviation cand_sorted := (StronglySorted (fun a b : Candidate => cand_leb a b = true)).

Lemma cand_insert_ssorted c l : cand_sorted l -> cand_sorted (cand_insert c l).
Proof.
  induction 1 as [|x l Hl IH Hx]; cbn; [repeat constructor|].
  destruct (cand_leb c x) eqn:E.
  - constructor; [by constructor|]. constructor; [done|].
    eapply Forall_impl; [exact Hx|]. cbn. intros. by eapply cand_leb_trans.
  - apply cand_leb_total in E. constructor; [done|]. rewrite cand_insert_perm. by constructor.
Qed.

Lemma cand_sort_ssorted l : cand_sorted (cand_sort l).
Proof. induction l as [|c l IH]; cbn; [constructor|]. by apply cand_insert_ssorted. Qed.

Lemma cand_insert_le_all c l : Forall (fun x => cand_leb c x = true) l -> cand_insert c l = c :: l.
Proof. intros [|x l' Hx _]; cbn; [done|]. by rewrite Hx. Qed.

Lemma cand_sort_id l : cand_sorted l -> cand_sort l = l.
Proof.
  induction 1 as [|c l Hl IH Hc]; [done|].
  change (cand_sort (c :: l)) with (cand_insert c (cand_sort l)). rewrite IH. by apply cand_insert_le_all.
Qed.

(** The sort is stable: it commutes with any selection. *)
Lemma filter_cand_sort (P : Candidate -> Prop) `{!forall c, Decision (P c)} l :
  filter P (cand_sort l) = cand_sort (filter P l).
Proof.
  assert (Hins : forall c l, cand_sorted l ->
    filter P (cand_insert c l) = if decide (P c) then cand_insert c (filter P l) else filter P l).
  { intros c k. induction 1 as [|x k Hk IH Hx]; cbn [cand_insert].
    - rewrite filter_cons. by case_decide.
    - destruct (cand_leb c x) eqn:E.
      + rewrite filter_cons. case_decide; [|done]. symmetry. apply cand_insert_le_all, Forall_forall.
        rewrite Forall_forall in Hx. intros y [_ Hy]%list_elem_of_filter.
        apply elem_of_cons in Hy as [->|Hy]; [done|]. eapply cand_leb_trans; [done|by apply Hx].
      + rewrite !(filter_cons _ x), IH. repeat case_decide; try done. cbn. by rewrite E. }
  induction l as [|c l IH]; [done|].
  change (cand_sort (c :: l)) with (cand_insert c (cand_sort l)). rewrite Hins by apply cand_sort_ssorted. rewrite filter_cons, IH. by case_decide.
Qed.

(** Regions of one merged segment, end to end over [[from, to)]. *)
Fixpoint tiles (from : Z) (regions : list Candidate) (to : Z) : Prop :=
  match regions with
  | [] => from = to
  | m :: regions => cand_base m = from /\ from < cand_end m /\ tiles (cand_end m) regions to
  end.

Abbreviation of_rank R := (fun c : Candidate => cand_rank c = R).

Lemma tail_outranked_tiles later R rank from covered to b :
  by_base later -> rank_ltb rank R = true -> tiles from (filter (of_rank R) later) b ->
  from <= covered -> covered < to <= b -> tail_outranked later rank covered to = true.
Proof.
  unfold tail_outranked. intros Hs Hrank. revert from covered.
  induction Hs as [|c later Hl IH Hc]; intros from covered Ht Hf Hto; [cbn in Ht; lia|].
  cbn [tail_outranked_loop]. rewrite filter_cons in Ht.
  destruct (decide (cand_rank c = R)) as [Hr|Hr].
  - destruct Ht as (Hb & Hlt & Ht). rewrite Hr, Hrank.
    destruct (Z.ltb_spec covered (cand_base c)); [lia|].
    destruct (Z.leb_spec to (Z.max covered (cand_end c))); [done|].
    apply (IH (cand_end c)); [done|lia|lia].
  - assert (Hbc : cand_base c <= covered).
    { destruct (filter (of_rank R) later) as [|m ms] eqn:Em; [cbn in Ht; lia|].
      destruct Ht as (Hb & _ & _). rewrite Forall_forall in Hc.
      assert (Hm : m ∈ filter (of_rank R) later) by (rewrite Em; by left).
      apply list_elem_of_filter in Hm as [_ Hm]. specialize (Hc m Hm). cbn in Hc. lia. }
    destruct (Z.ltb_spec covered (cand_base c)); [lia|].
    destruct (rank_ltb rank (cand_rank c)); [|by apply (IH from)].
    destruct (Z.leb_spec to (Z.max covered (cand_end c))); [done|].
    apply (IH from); [done|lia|lia].
Qed.

(** What a sub-stream's other entries are when a merge replaced them. *)
Definition replaced_by (R : Z * Z) (from to : Z) (c : Candidate) : Prop :=
  cand_rank c = R \/
  (rank_ltb (cand_rank c) R = true /\ from <= cand_base c /\ cand_end c <= to).

Definition whole (c : Candidate) : FencedRef := mkFenced c.1.2 (cand_base c) (cand_entry c).

Lemma cand_sorted_base l : cand_sorted l -> by_base l.
Proof.
  induction 1 as [|c l Hl IH Hc]; constructor; [done|].
  eapply Forall_impl; [exact Hc|]. intros. by apply cand_leb_base.
Qed.

(** A replaced entry sorted before the next region starts below it. *)
Lemma replaced_below R c later m ms :
  Forall (fun x => cand_leb c x = true) later -> filter (of_rank R) later = m :: ms ->
  rank_ltb (cand_rank c) R = true -> cand_base c < cand_base m.
Proof.
  intros Hc Em Hr. assert (Hm : m ∈ filter (of_rank R) later) by (rewrite Em; by left).
  apply list_elem_of_filter in Hm as [<- Hm]. rewrite Forall_forall in Hc.
  specialize (Hc m Hm). apply cand_leb_spec in Hc. apply rank_ltb_spec in Hr. cbn in *. lia.
Qed.

Lemma fence_replaced segs R a cov b :
  cand_sorted segs -> Forall (replaced_by R a b) segs ->
  tiles cov (filter (of_rank R) segs) b ->
  fence cov R segs = map whole (filter (of_rank R) segs).
Proof.
  intros Hs. revert cov. induction Hs as [|c later Hl IH Hc]; intros cov Hall Ht; [done|].
  apply Forall_cons in Hall as [Hr Hall]. cbn [fence]. rewrite filter_cons in *.
  destruct (decide (cand_rank c = R)) as [Heq|Hne].
  - destruct Ht as (Hb & Hlt & Ht).
    destruct (Z.leb_spec (cand_end c) cov); [lia|].
    destruct (Z.ltb_spec (cand_base c) cov); [lia|]. cbn. rewrite Heq. f_equal. by apply IH.
  - destruct Hr as [?|(Hlow & _ & Hend)]; [done|].
    destruct (Z.leb_spec (cand_end c) cov); [by apply IH|].
    destruct (filter (of_rank R) later) as [|m ms] eqn:Em; [cbn in Ht; lia|].
    pose proof (replaced_below R c later m ms Hc Em Hlow) as Hlt.
    destruct (proj1 (conj Ht I)) as (Hb & _).
    rewrite (proj2 (Z.ltb_lt (cand_base c) cov)), Hlow by lia.
    rewrite (tail_outranked_tiles later R (cand_rank c) cov cov (cand_end c) b);
      [by apply IH|by apply cand_sorted_base|done|by rewrite Em|lia|lia].
Qed.

Lemma tiles_sorted R from ms to :
  tiles from ms to -> Forall (of_rank R) ms -> cand_sorted ms.
Proof.
  intros Ht HR. assert (H : cand_sorted ms /\ Forall (fun m => from <= cand_base m) ms); [|by destruct H].
  revert from Ht. induction HR as [|m ms Hm HR IH]; intros from Ht; [split; constructor|].
  destruct Ht as (Hb & Hlt & Ht). destruct (IH _ Ht) as [Hs Hge]. split.
  - constructor; [done|]. eapply Forall_impl; [exact Hge|]. cbn. intros x Hx.
    apply cand_leb_spec. left. lia.
  - constructor; [lia|]. eapply Forall_impl; [exact Hge|]. cbn. lia.
Qed.

(** While a merge's sources linger in a cache, the view serves the merge
    and nothing else: when the entries of one [(epoch, seq)] are regions laid
    end to end over a range and every other entry lies inside the range with a
    lower rank, the view is exactly those regions, none of them clipped,
    however the region boundaries fall inside the entries they replace. *)
Theorem merge_hides_sources (ix : PrefixIndex) (s : Substream) (partition : Z)
    (R : Z * Z) (from to : Z) :
  let cands := candidates_of ix s partition in
  let merged := filter (fun c => cand_rank c = R) cands in
  i64_MIN <= from < to -> tiles from merged to -> Forall (replaced_by R from to) cands ->
  valid_substream_segments ix s partition = map whole merged.
Proof.
  intros cands merged Hft Ht Hall. unfold valid_substream_segments, fence_all. fold cands.
  assert (Hm : filter (of_rank R) (cand_sort cands) = merged).
  { rewrite filter_cand_sort. apply cand_sort_id. apply (tiles_sorted R from _ to); [done|].
    apply Forall_forall. by intros c [? _]%list_elem_of_filter. }
  rewrite <- Hm in Ht |- *. rewrite <- (cand_sort_perm cands) in Hall.
  destruct (cand_sort_ssorted cands) as [|c later Hl Hc]; [cbn in Ht; lia|].
  apply Forall_cons in Hall as [Hr Hall]. rewrite filter_cons in *.
  destruct (decide (cand_rank c = R)) as [Heq|Hne].
  - destruct Ht as (Hb & Hlt & Ht). cbn [fence].
    destruct (Z.leb_spec (cand_end c) i64_MIN); [lia|].
    destruct (Z.ltb_spec (cand_base c) i64_MIN); [lia|]. cbn. rewrite Heq. f_equal.
    by apply (fence_replaced later R from _ to).
  - destruct Hr as [?|(Hlow & Hge & _)]; [done|].
    destruct (filter (of_rank R) later) as [|m ms] eqn:Em; [cbn in Ht; lia|].
    pose proof (replaced_below R c later m ms Hc Em Hlow). destruct Ht as (Hb & _). lia.
Qed.

(** A merge of [0, 12) as two regions under seq 9, with a source that straddles
    their boundary still cached. *)
Definition sample_merge : PrefixIndex :=
  index_insert (index_insert Index.empty 0 1 (mkFooter 5 7 [sample_entry 3 6]) 0)
    1 9 (mkFooter 5 8 [sample_entry 0 6; sample_entry 6 6]) 0.

Lemma merge_hides_sources_witness :
  map served_from (valid_substream_segments sample_merge (Name (ascii_bytes "a")) 0) = [0; 6].
Proof.
  rewrite (merge_hides_sources sample_merge (Name (ascii_bytes "a")) 0 (5, 9) 0 12).
  - by vm_compute.
  - by vm_compute.
  - by vm_compute.
  - replace (candidates_of sample_merge (Name (ascii_bytes "a")) 0)
      with [(5, 1, sample_entry 3 6); (5, 9, sample_entry 0 6); (5, 9, sample_entry 6 6)]
      by (by vm_compute).
    rewrite !Forall_cons. split_and!; [right|by left|by left|done]. vm_compute. intuition congruence.
Defined.

(** ** The read plan *)

Abbreviation plan_bytes offset l := (sum_list_with (fun r => Z.to_nat (bytes_from r offset)) l).

Lemma bytes_from_range r offset :
  0 <= Entry.byte_len (fenced_entry r) ->
  0 <= bytes_from r offset <= Entry.byte_len (fenced_entry r).
Proof.
  intros Hb. unfold bytes_from. destruct (_ || _) eqn:E; [lia|]. bool_prop.
  set (n := Entry.record_count (fenced_entry r)) in *. set (above := Z.max (_ - _) 0).
  split; [apply Z.div_pos; [nia|lia]|].
  apply Z.div_le_upper_bound; [lia|]. assert (above <= n) by lia. nia.
Qed.

Lemma fetch_plan_admits offset hwm bytes l :
  0 <= bytes -> Forall (fun r => 0 <= Entry.byte_len (fenced_entry r)) l ->
  Forall (fun r => offset < fenced_end r) l ->
  exists post, l = fetch_plan offset hwm bytes l ++ post /\
    Forall (fun r => Entry.base_offset (fenced_entry r) < hwm) (fetch_plan offset hwm bytes l) /\
    (post = [] \/ (exists r, head post = Some r /\ hwm <= Entry.base_offset (fenced_entry r)) \/
     bytes < Z.of_nat (plan_bytes offset (fetch_plan offset hwm bytes l))) /\
    (forall body r, fetch_plan offset hwm bytes l = body ++ [r] ->
       Z.of_nat (plan_bytes offset body) <= bytes).
Proof.
  intros Hb Hlen Hend. revert bytes Hb. induction Hend as [|r l Hr Hl IH]; intros bytes Hb.
  { exists []. split_and!; [done|constructor|by left|]. intros body r E. by destruct body. }
  apply Forall_cons in Hlen as [Hrb Hlen]. cbn [fetch_plan].
  destruct (Z.leb_spec (fenced_end r) offset); [lia|].
  destruct (Z.leb_spec hwm (Entry.base_offset (fenced_entry r))).
  { exists (r :: l). split_and!; [done|constructor|right; left; by exists r|].
    intros body r' E. by destruct body. }
  pose proof (bytes_from_range r offset Hrb) as Hrange.
  destruct (Z.ltb_spec bytes (bytes_from r offset)) as [Hover|Hfit].
  { exists l. split_and!; [done|by constructor|right; right; cbn; lia|].
    intros [|x body] r' E; [done|]. by destruct body. }
  rewrite Z.max_r by lia.
  destruct (IH Hlen (bytes - bytes_from r offset) ltac:(lia)) as (post & Heq & Hbase & Hstop & Hfits).
  exists post. split_and!.
  - cbn. by rewrite <- Heq.
  - by constructor.
  - destruct Hstop as [?|[?|?]]; [by left|right; by left|right; right; cbn; lia].
  - intros [|x body] r' E; [done|]. cbn in E. injection E as <- E. specialize (Hfits _ _ E). cbn. lia.
Qed.

(** The read plan of a fetch is one window of the view: it skips exactly
    the segments that end at or below the requested offset, plans a contiguous
    run from there, every planned segment starts below the high watermark, it
    stops only at the end of the view, at the high watermark, or when the
    planned bytes at or above the offset exceed the budget, and everything but
    its last segment fits the budget. *)
Theorem fetch_plan_window (ix : PrefixIndex) (s : Substream) (partition offset hwm bytes : Z)
    (Hcount : Forall (fun x => 1 <= Entry.record_count x.2 /\ i64_MIN <= Entry.base_offset x.2 /\
                               0 <= Entry.byte_len x.2) (substream_entries ix s partition))
    (Hbytes : 0 <= bytes) :
  let view := valid_substream_segments ix s partition in
  let plan := fetch_plan offset hwm bytes view in
  exists pre post, view = pre ++ plan ++ post /\
    Forall (fun r => fenced_end r <= offset) pre /\
    Forall (fun r => offset < fenced_end r) (plan ++ post) /\
    Forall (fun r => Entry.base_offset (fenced_entry r) < hwm) plan /\
    (post = [] \/ (exists r, head post = Some r /\ hwm <= Entry.base_offset (fenced_entry r)) \/
     bytes < Z.of_nat (plan_bytes offset plan)) /\
    (forall body r, plan = body ++ [r] -> Z.of_nat (plan_bytes offset body) <= bytes).
Proof.
  cbn zeta. destruct (view_exact ix s partition) as (_ & Hsort & Hok).
  { eapply Forall_impl; [exact Hcount|]. cbn. tauto. }
  assert (Hlen : Forall (fun r => 0 <= Entry.byte_len (fenced_entry r))
                   (valid_substream_segments ix s partition)).
  { eapply Forall_impl; [exact Hok|]. intros r (_ & _ & epoch & Hin).
    rewrite Forall_forall in Hcount. by apply (Hcount _ Hin). }
  assert (Hne := Forall_impl _ (fun r => served_from r < fenced_end r) _ Hok ltac:(cbn; tauto)).
  clear Hok. generalize dependent (valid_substream_segments ix s partition).
  intros view. induction 1 as [|r view Hsort IH Hr]; intros Hlen Hne.
  { exists [], []. split_and!; try done; [by left|]. intros body r E. by destruct body. }
  destruct (Z.leb_spec (fenced_end r) offset) as [Hskip|Hkeep].
  - apply Forall_cons in Hlen as [_ Hlen], Hne as [_ Hne].
    destruct (IH Hlen Hne) as (pre & post & Heq & Hpre & Hrest).
    exists (r :: pre), post. cbn [fetch_plan]. rewrite (proj2 (Z.leb_le _ _) Hskip).
    cbn. rewrite <- Heq. split_and!; try apply Hrest; [done|by constructor].
  - assert (Hall : Forall (fun r => offset < fenced_end r) (r :: view)).
    { constructor; [lia|]. apply Forall_cons in Hne as [_ Hne]. rewrite Forall_forall in Hr, Hne |- *.
      intros x Hx. specialize (Hr x Hx). specialize (Hne x Hx). cbn in *. lia. }
    destruct (fetch_plan_admits offset hwm bytes _ Hbytes Hlen Hall) as (post & Heq & Hrest).
    exists [], post. cbn [app]. rewrite <- Heq. split_and!; try apply Hrest; done.
Qed.

Lemma fetch_plan_window_witness :
  exists pre post, valid_substream_segments sample_overlap (Name (ascii_bytes "a")) 0 =
    pre ++ fetch_plan 5 12 10 (valid_substream_segments sample_overlap (Name (ascii_bytes "a")) 0) ++ post.
Proof.
  destruct (fetch_plan_window sample_overlap (Name (ascii_bytes "a")) 0 5 12 10
    ltac:(apply Forall_forall; intros x Hx; vm_compute in Hx;
          repeat (apply elem_of_cons in Hx as [->|Hx]; [vm_compute; intuition congruence|]);
          by apply not_elem_of_nil in Hx) ltac:(lia)) as (pre & post & Heq & _).
  by exists pre, post.
Defined.

(** An overlap is resolved by base offset first: of two overlapping entries the
    one that starts earlier keeps the common offsets even when the other was
    written under a higher epoch. *)
Lemma lower_epoch_keeps_overlap :
  map (fun r => (fenced_seq r, served_from r, fenced_end r))
    (valid_substream_segments sample_overlap (Name (ascii_bytes "a")) 0) = [(1, 0, 10); (2, 10, 12)].
Proof. by vm_compute. Qed.
