(* ===== verification/Refresh.v ===== *)
(** * Refresh: keeping the index current

    The footer read of [tansu-storage/src/dynostore/segments.rs]
    ([read_segment_footer], the certified sequence floor, [tail_next_seq],
    [tail_next_seq_folded]) and the refresh of [dynostore/index.rs]
    ([fold_segment_footer], [prefix_index_freshness], [probe_prefix_tail],
    [refresh_prefix_index_inner]).

    The object store answers requests through function arguments: [suffix n] is
    a ranged GET of an object's last [n] bytes, [get seq] the over-read of the
    segment [seq] with its modification time, [floor] the read of
    [seq-floor.json], [list pass after] the listing of a pass and
    [read pass seq] the footer read that follows it.  Each request is made at
    most once per argument, so a function of the argument is as general as a
    store that changes between requests.  Times are milliseconds. *)

From S2P Require Export Fenced.

(** ** Footer reads *)

Definition SEGMENT_FOOTER_OVER_READ : nat := 64 * 1024.

Definition read_segment_footer (suffix : nat -> result bytes) : result (option SegmentFooter) :=
  let over_read := Nat.max SEGMENT_FOOTER_OVER_READ SEGMENT_TRAILER_LEN in
  let! buffer := suffix over_read in
  if (length buffer <? SEGMENT_TRAILER_LEN)%nat then Ok None
  else
  let trailer := drop (length buffer - SEGMENT_TRAILER_LEN) buffer in
  let magic := int_of U32 (slice 14 18 trailer) in
  if negb (magic =? SEGMENT_MAGIC) then Ok None
  else
  let footer_len := int_of U64 (slice 0 8 trailer) in
  let both := wrap_u 64 (Z.of_nat SEGMENT_TRAILER_LEN + footer_len) in
  if both <=? Z.of_nat (length buffer) then decode_segment_footer buffer
  else
  let! tail := suffix (Z.to_nat both) in
  decode_segment_footer tail.

(** What a store holding [payload] answers. *)
Definition last_bytes (payload : bytes) (n : nat) : bytes := drop (length payload - n) payload.

(** [fold_segment_footer]: the index with the footer at [seq] folded, if it
    landed. *)
Definition stamp (ix : PrefixIndex) (at_ : option Z) : PrefixIndex :=
  Index.mk (Index.segments ix) (Index.by_substream ix) (Index.topic_names ix) at_
    (Index.reconciled_at ix) (Index.generation ix) (Index.seq_floor ix) (Index.opaque ix).

Definition fold_segment_footer (get : Z -> result (bytes * Z)) (now : Z) (ix : PrefixIndex)
    (seq : Z) : option PrefixIndex :=
  match get seq with
  | Ok (bytes, modified) =>
      match decode_segment_footer bytes with
      | Ok (Some footer) => Some (stamp (insert_segment ix seq (mkCached footer modified)) (Some now))
      | _ => None
      end
  | _ => None
  end.

(** ** The sequence floor *)

Definition set_seq_floor (ix : PrefixIndex) (f : option (Z * Z)) : PrefixIndex :=
  Index.mk (Index.segments ix) (Index.by_substream ix) (Index.topic_names ix)
    (Index.refreshed_at ix) (Index.reconciled_at ix) (Index.generation ix) f (Index.opaque ix).

Definition cached_certified_seq_floor (ix : PrefixIndex) : option Z :=
  match Index.seq_floor ix with
  | Some (floor, at_) => if at_ =? Index.generation ix then Some floor else None
  | None => None
  end.

Definition invalidate_certified_seq_floor (ix : PrefixIndex) : PrefixIndex := set_seq_floor ix None.

(** The read certifies the value only if the generation did not move meanwhile:
    [generation] is the one captured before the GET. *)
Definition certify (ix : PrefixIndex) (generation floor : Z) : PrefixIndex :=
  if Index.generation ix =? generation then set_seq_floor ix (Some (floor, generation)) else ix.

Definition certified_seq_floor (floor : result Z) (ix : PrefixIndex) : result Z * PrefixIndex :=
  match cached_certified_seq_floor ix with
  | Some f => (Ok f, ix)
  | None =>
      match floor with
      | Ok f => (Ok f, certify ix (Index.generation ix) f)
      | Err e => (Err e, ix)
      | Panic p => (Panic p, ix)
      end
  end.

(** [probe_seq_floor]: always the live value. *)
Definition probe_seq_floor (floor : result Z) (ix : PrefixIndex) : result Z * PrefixIndex :=
  match floor with
  | Ok f => (Ok f, certify ix (Index.generation ix) f)
  | Err e => (Err e, ix)
  | Panic p => (Panic p, ix)
  end.

(** [m.map_or(0, |m| m + 1)]. *)
Definition next_of (m : option Z) : Z := match m with Some m => m + 1 | None => 0 end.

(** [tail_next_seq]: names from a listing, then the live floor. *)
Definition tail_next_seq (names : result (list Z)) (floor : result Z) : result Z :=
  let! names := names in
  let! floor := floor in
  Ok (Z.max (next_of (max_key names)) floor).

Definition tail_next_seq_folded (floor : result Z) (ix : PrefixIndex) : result Z * PrefixIndex :=
  let listed_max := resolved_max ix in
  let '(floor, ix) := certified_seq_floor floor ix in
  (rmap (fun floor => Z.max (next_of listed_max) floor) floor, ix).

(** ** Freshness *)

Record IndexFreshness := mkFreshness {
  fresh : bool;
  cursor : option Z;
  reconcile_due : bool;
}.

Definition PREFIX_INDEX_RECONCILE_INTERVAL : Z := 300 * 1000.

(** [now.duration_since(at).is_ok_and(|elapsed| elapsed < d)]. *)
Definition within (now d : Z) (at_ : option Z) : bool :=
  match at_ with Some at_ => (at_ <=? now) && (now - at_ <? d) | None => false end.

Definition prefix_index_freshness (now ttl : Z) (ix : PrefixIndex) : IndexFreshness :=
  mkFreshness (within now ttl (Index.refreshed_at ix)) (resolved_max ix)
    ((negb (bool_decide (Index.segments ix = ∅)) || negb (bool_decide (Index.opaque ix = ∅)))
     && negb (within now PREFIX_INDEX_RECONCILE_INTERVAL (Index.reconciled_at ix))).

(** ** The tail probe *)

Inductive TailProbe :=
  | Resolved
  | Inconclusive (reason : string).

Definition PROBE_WINDOW : nat := 4.

Fixpoint probe_loop (n : nat) (get : Z -> result (bytes * Z)) (floor : result Z) (now seq : Z)
    (ix : PrefixIndex) : TailProbe * PrefixIndex :=
  match n with
  | O => (Inconclusive "window_exhausted", ix)
  | S n =>
      match get seq with
      | Ok (bytes, modified) =>
          match decode_segment_footer bytes with
          | Ok (Some footer) =>
              probe_loop n get floor now (seq + 1) (insert_segment ix seq (mkCached footer modified))
          | Ok None => (Inconclusive "undecodable", ix)
          | _ => (Inconclusive "oversized_footer", ix)
          end
      | Err NotFound =>
          match probe_seq_floor floor ix with
          | (Ok floor, ix) =>
              if seq <? floor then (Inconclusive "floor_ahead", ix)
              else (Resolved, stamp ix (Some now))
          | (_, ix) => (Inconclusive "probe_error", ix)
          end
      | _ => (Inconclusive "probe_error", ix)
      end
  end.

Definition probe_prefix_tail (get : Z -> result (bytes * Z)) (floor : result Z) (now cursor : Z)
    (ix : PrefixIndex) : TailProbe * PrefixIndex :=
  probe_loop PROBE_WINDOW get floor now (cursor + 1) ix.

(** ** The listing *)

Definition PREFIX_INDEX_MAX_RELISTS : nat := 4.

(** The names already resolved. *)
Definition resolved (ix : PrefixIndex) : gset Z := dom (Index.segments ix) ∪ Index.opaque ix.

(** The footers of one pass, committed in listing order; the count of those that
    had vanished.  An error leaves what was committed before it. *)
Fixpoint commit_pass (read : Z -> result FooterOutcome) (todo : list (Z * Z)) (vanished : nat)
    (ix : PrefixIndex) : PrefixIndex * result nat :=
  match todo with
  | [] => (ix, Ok vanished)
  | (seq, modified) :: todo =>
      match read seq with
      | Ok o =>
          commit_pass read todo (match o with Vanished => S vanished | _ => vanished end)
            (commit_footer ix seq modified o)
      | Err e => (ix, Err e)
      | Panic p => (ix, Panic p)
      end
  end.

(** The loop of listings: [n] passes are left.  Returns whether it settled, and
    the live set a reconciling pass collected. *)
Fixpoint relist (n : nat) (list : nat -> option Z -> result (list (Z * Z)))
    (read : nat -> Z -> result FooterOutcome) (reconcile : bool) (relists : nat)
    (after : option Z) (live : gset Z) (ix : PrefixIndex)
    : PrefixIndex * result (bool * gset Z) :=
  match list relists after with
  | Err e => (ix, Err e)
  | Panic p => (ix, Panic p)
  | Ok discovered =>
      let live := if reconcile then live ∪ list_to_set discovered.*1 else live in
      let listed_max := max_key discovered.*1 in
      let todo := filter (fun x => x.1 ∉ resolved ix) discovered in
      match commit_pass (read relists) todo 0 ix with
      | (ix, Err e) => (ix, Err e)
      | (ix, Panic p) => (ix, Panic p)
      | (ix, Ok O) => (ix, Ok (true, live))
      | (ix, Ok (S _)) =>
          match n with
          | O => (ix, Ok (false, live))
          | S n => relist n list read reconcile (S relists) (option_max after listed_max) live ix
          end
      end
  end.

(** The listing half of a refresh, and the block that closes it. *)
Definition list_prefix (now : Z) (list : nat -> option Z -> result (list (Z * Z)))
    (read : nat -> Z -> result FooterOutcome) (reconcile : bool) (start_after : option Z)
    (ix : PrefixIndex) : PrefixIndex * result unit :=
  let whole_prefix := reconcile || bool_decide (start_after = None) in
  let after := if whole_prefix then None else start_after in
  match relist PREFIX_INDEX_MAX_RELISTS list read reconcile 0 after ∅ ix with
  | (ix, Ok (settled, live)) => (close_refresh ix now settled reconcile whole_prefix live, Ok tt)
  | (ix, Err e) => (ix, Err e)
  | (ix, Panic p) => (ix, Panic p)
  end.

Definition refresh_prefix_index_inner (force : bool) (now ttl : Z)
    (get : Z -> result (bytes * Z)) (floor : result Z)
    (list : nat -> option Z -> result (list (Z * Z)))
    (read : nat -> Z -> result FooterOutcome) (ix : PrefixIndex) : PrefixIndex * result unit :=
  let freshness := prefix_index_freshness now ttl ix in
  if negb force && fresh freshness && negb (reconcile_due freshness) then (ix, Ok tt)
  else
  let start_after := cursor freshness in
  let reconcile := reconcile_due freshness in
  if reconcile then list_prefix now list read reconcile start_after ix
  else
  match start_after with
  | Some cursor =>
      match probe_prefix_tail get floor now cursor ix with
      | (Resolved, ix) => (ix, Ok tt)
      | (Inconclusive _, ix) => list_prefix now list read reconcile start_after ix
      end
  | None => list_prefix now list read reconcile start_after ix
  end.

(** [fold_below_won]: what lies between the cursor and a won name is folded before
    the name is inserted; a failed refresh is only logged. *)
Definition fold_below_won (now ttl : Z) (get : Z -> result (bytes * Z)) (floor : result Z)
    (list : nat -> option Z -> result (list (Z * Z)))
    (read : nat -> Z -> result FooterOutcome) (won : Z) (ix : PrefixIndex) : PrefixIndex :=
  match resolved_max ix with
  | Some cursor =>
      if won <=? cursor + 1 then ix
      else (refresh_prefix_index_inner true now ttl get floor list read ix).1
  | None => (refresh_prefix_index_inner true now ttl get floor list read ix).1
  end.

(** ** Footer reads, exactly *)

Lemma trailer_suffix (pre suf : bytes) :
  (SEGMENT_TRAILER_LEN <= length suf)%nat ->
  drop (length (pre ++ suf) - SEGMENT_TRAILER_LEN) (pre ++ suf)
  = drop (length suf - SEGMENT_TRAILER_LEN) suf.
Proof.
  intros H. rewrite length_app, drop_app.
  rewrite drop_ge by lia. cbn. f_equal. lia.
Qed.

Lemma slice_suffix (pre suf : bytes) a b :
  (a <= b)%nat -> slice (length pre + a) (length pre + b) (pre ++ suf) = slice a b suf.
Proof.
  intros H. unfold slice. rewrite drop_app, drop_ge by lia. cbn. f_equal; [lia|]. f_equal. lia.
Qed.

Abbreviation footer_len_of tail :=
  (int_of U64 (slice 0 8 (drop (length tail - SEGMENT_TRAILER_LEN) tail))).

(** Decoding a suffix that holds the trailer and the footer is decoding the
    object. *)
Lemma decode_footer_suffix (pre suf : bytes) :
  (SEGMENT_TRAILER_LEN <= length suf)%nat ->
  footer_len_of suf <= Z.of_nat (length suf - SEGMENT_TRAILER_LEN) -> 0 <= footer_len_of suf ->
  decode_segment_footer (pre ++ suf) = decode_segment_footer suf.
Proof.
  intros Hlen Hfl Hpos. unfold decode_segment_footer. rewrite trailer_suffix by done.
  rewrite length_app.
  rewrite (proj2 (Nat.ltb_ge (length pre + length suf) _)) by lia.
  rewrite (proj2 (Nat.ltb_ge (length suf) _)) by lia.
  destruct (negb _); [done|]. destruct (negb _); [done|].
  rewrite (proj2 (Z.ltb_ge (Z.of_nat (length pre + length suf - SEGMENT_TRAILER_LEN)) _)) by lia.
  rewrite (proj2 (Z.ltb_ge (Z.of_nat (length suf - SEGMENT_TRAILER_LEN)) _)) by lia.
  do 2 f_equal. symmetry. rewrite <- slice_suffix with (pre := pre) by lia. f_equal; lia.
Qed.

Lemma int_of_u64_range bs : 0 <= int_of U64 bs < 2 ^ 64.
Proof. unfold int_of, cast. cbn. unfold wrap_u. by apply Z.mod_pos_bound. Qed.

(** With a footer that reaches past what was read, only the error is left. *)
Lemma decode_footer_overlong (tail : bytes) :
  (SEGMENT_TRAILER_LEN <= length tail)%nat ->
  int_of U32 (slice 14 18 (drop (length tail - SEGMENT_TRAILER_LEN) tail)) =? SEGMENT_MAGIC = true ->
  Z.of_nat (length tail - SEGMENT_TRAILER_LEN) < footer_len_of tail ->
  decode_segment_footer tail =
    if supported_version (int_of U16 (slice 12 14 (drop (length tail - SEGMENT_TRAILER_LEN) tail)))
    then Err (Message "segment footer length exceeds tail")
    else Err (Message "unsupported segment format version").
Proof.
  intros Hlen Hm Hfl. unfold decode_segment_footer.
  rewrite (proj2 (Nat.ltb_ge (length tail) _)) by lia. rewrite Hm. cbn [negb].
  destruct (supported_version _); cbn [negb]; [|done].
  by rewrite (proj2 (Z.ltb_lt (Z.of_nat (length tail - SEGMENT_TRAILER_LEN)) _)) by lia.
Qed.

Lemma last_bytes_all payload n : (length payload <= n)%nat -> last_bytes payload n = payload.
Proof. intros. unfold last_bytes. by replace (length payload - n)%nat with 0%nat by lia. Qed.

Lemma last_bytes_split payload n :
  (n <= length payload)%nat ->
  exists pre, payload = pre ++ last_bytes payload n /\ length (last_bytes payload n) = n.
Proof.
  intros. exists (take (length payload - n) payload). unfold last_bytes.
  rewrite take_drop, length_drop. split; [done|lia].
Qed.

Lemma trailer_sum (fl : Z) (n : nat) :
  0 <= fl < 2 ^ 64 -> (SEGMENT_TRAILER_LEN <= n)%nat ->
  let both := wrap_u 64 (Z.of_nat SEGMENT_TRAILER_LEN + fl) in
  (both <= Z.of_nat n -> fl <= Z.of_nat (n - SEGMENT_TRAILER_LEN) \/ 2 ^ 64 - 18 <= fl) /\
  (Z.of_nat n < both -> both = Z.of_nat SEGMENT_TRAILER_LEN + fl).
Proof.
  intros Hfl Hn. change (Z.of_nat SEGMENT_TRAILER_LEN) with 18.
  change SEGMENT_TRAILER_LEN with 18%nat in *. cbv zeta. unfold wrap_u.
  destruct (Z_lt_ge_dec (18 + fl) (2 ^ 64)) as [Hs|Hs].
  - rewrite Z.mod_small by lia. lia.
  - replace ((18 + fl) mod 2 ^ 64) with (18 + fl - 2 ^ 64); [lia|].
    apply (Z.mod_unique _ _ 1); lia.
Qed.

(** The over-read holds the footer, or no read could. *)
Lemma decode_fast_path (pre buffer : bytes) :
  (SEGMENT_TRAILER_LEN <= length buffer)%nat -> Z.of_nat (length (pre ++ buffer)) < 2 ^ 63 ->
  int_of U32 (slice 14 18 (drop (length buffer - SEGMENT_TRAILER_LEN) buffer)) =? SEGMENT_MAGIC = true ->
  wrap_u 64 (Z.of_nat SEGMENT_TRAILER_LEN + footer_len_of buffer) <= Z.of_nat (length buffer) ->
  decode_segment_footer buffer = decode_segment_footer (pre ++ buffer).
Proof.
  intros Hlen Hsmall Hm Hfit. symmetry.
  pose proof (int_of_u64_range (slice 0 8 (drop (length buffer - SEGMENT_TRAILER_LEN) buffer))) as Hr.
  apply (trailer_sum _ _ Hr Hlen) in Hfit as [Hfit|Hhuge]; [apply decode_footer_suffix; lia|].
  rewrite length_app in Hsmall.
  rewrite !decode_footer_overlong; rewrite ?trailer_suffix, ?length_app; try done; lia.
Qed.

Lemma decode_second_read (payload : bytes) over :
  (SEGMENT_TRAILER_LEN <= over <= length payload)%nat ->
  Z.of_nat over < wrap_u 64 (Z.of_nat SEGMENT_TRAILER_LEN + footer_len_of (last_bytes payload over)) ->
  decode_segment_footer (last_bytes payload (Z.to_nat
    (wrap_u 64 (Z.of_nat SEGMENT_TRAILER_LEN + footer_len_of (last_bytes payload over)))))
  = decode_segment_footer payload.
Proof.
  intros Hover Hbig. destruct (last_bytes_split payload over ltac:(lia)) as (pre & Hp & Hlen).
  set (buffer := last_bytes payload over) in *.
  pose proof (int_of_u64_range (slice 0 8 (drop (length buffer - SEGMENT_TRAILER_LEN) buffer))) as Hr.
  destruct (trailer_sum (footer_len_of buffer) over Hr ltac:(lia)) as [_ ->]; [|done].
  set (both := Z.to_nat (Z.of_nat SEGMENT_TRAILER_LEN + footer_len_of buffer)).
  destruct (decide (length payload <= both)%nat); [by rewrite last_bytes_all|].
  destruct (last_bytes_split payload both ltac:(lia)) as (pre' & Hp' & Hlen').
  assert (Hfl : footer_len_of (last_bytes payload both) = footer_len_of buffer).
  { rewrite <- (trailer_suffix pre buffer), <- Hp by lia.
    rewrite <- (trailer_suffix pre' (last_bytes payload both)), <- Hp' by lia. done. }
  rewrite Hp' at 2. symmetry. apply decode_footer_suffix; rewrite ?Hfl, ?Hlen'; lia.
Qed.

(** ** What a refresh resolves *)

Definition stored (c : CachedSegment) : CachedSegment :=
  mkCached (mkFooter (writer_epoch (footer c)) (nonce (footer c))
              (map resident (entries (footer c)))) (last_modified_ms c).

Lemma insert_segment_segments ix seq c :
  Index.segments (insert_segment ix seq c) = <[seq := stored c]> (Index.segments ix).
Proof. unfold insert_segment, unindex_segment. by destruct (Index.segments ix !! seq). Qed.

Lemma insert_segment_rest ix seq c :
  Index.opaque (insert_segment ix seq c) = Index.opaque ix /\
  Index.generation (insert_segment ix seq c) = Index.generation ix /\
  Index.seq_floor (insert_segment ix seq c) = Index.seq_floor ix.
Proof. unfold insert_segment, unindex_segment. by destruct (Index.segments ix !! seq). Qed.

Lemma resolved_insert ix seq c : resolved (insert_segment ix seq c) = {[seq]} ∪ resolved ix.
Proof.
  unfold resolved. rewrite insert_segment_segments, dom_insert_L.
  destruct (insert_segment_rest ix seq c) as (-> & _ & _). set_solver.
Qed.

Lemma resolved_commit ix seq modified o :
  resolved (commit_footer ix seq modified o) = {[seq]} ∪ resolved ix.
Proof. destruct o; [apply resolved_insert| |]; unfold resolved; cbn; set_solver. Qed.

Lemma resolved_max_spec ix :
  match resolved_max ix with
  | Some m => m ∈ resolved ix /\ forall x, x ∈ resolved ix -> x <= m
  | None => resolved ix = ∅
  end.
Proof.
  unfold resolved_max, resolved.
  assert (Hs : forall x, x ∈ dom (Index.segments ix) <-> x ∈ (map_to_list (Index.segments ix)).*1).
  { intros x. rewrite elem_of_dom, list_elem_of_fmap. split.
    - intros [c Hc]. exists (x, c). by rewrite elem_of_map_to_list.
    - intros ([k c] & -> & Hc). apply elem_of_map_to_list in Hc. by exists c. }
  assert (Ho : forall x, x ∈ Index.opaque ix <-> x ∈ elements (Index.opaque ix)).
  { intros x. by rewrite elem_of_elements. }
  generalize dependent ((map_to_list (Index.segments ix)).*1). intros l1 Hs.
  generalize dependent (elements (Index.opaque ix)). intros l2 Ho.
  assert (Hmax : forall l, match max_key l with
    | Some m => m ∈ l /\ forall x, x ∈ l -> x <= m | None => l = [] end).
  { intros l. destruct (max_key l) as [m|] eqn:E; [|by destruct l].
    apply max_key_spec in E as [Hin Hall]. split; [done|]. by rewrite Forall_forall in Hall. }
  pose proof (Hmax l1) as H1. pose proof (Hmax l2) as H2.
  destruct (max_key l1) as [m1|], (max_key l2) as [m2|]; cbn.
  - destruct H1 as [Hi1 Hb1], H2 as [Hi2 Hb2]. split.
    + destruct (Z.max_spec m1 m2) as [[_ ->]|[_ ->]]; set_solver.
    + intros x [Hx|Hx]%elem_of_union; [apply Hs, Hb1 in Hx|apply Ho, Hb2 in Hx]; lia.
  - subst l2. destruct H1. set_solver.
  - subst l1. destruct H2. set_solver.
  - subst l1 l2. set_solver.
Qed.

Lemma resolved_below_next ix x : x ∈ resolved ix -> x < next_of (resolved_max ix).
Proof.
  intros Hx. pose proof (resolved_max_spec ix) as H. destruct (resolved_max ix) as [m|]; cbn.
  - destruct H as [_ H]. apply H in Hx. lia.
  - rewrite H in Hx. set_solver.
Qed.

Lemma commit_pass_resolved read todo v ix ix' r :
  commit_pass read todo v ix = (ix', r) ->
  resolved ix ⊆ resolved ix' /\ (is_ok r = true -> list_to_set todo.*1 ⊆ resolved ix').
Proof.
  revert v ix. induction todo as [|[seq modified] todo IH]; intros v ix H; cbn in H.
  { injection H as <- <-. set_solver. }
  destruct (read seq) as [o|e|p]; [|by injection H as <- <-|by injection H as <- <-].
  apply IH in H as [Hsub Hok]. rewrite resolved_commit in Hsub. cbn. set_solver.
Qed.

Lemma probe_loop_resolved n get floor now seq ix :
  resolved ix ⊆ resolved (probe_loop n get floor now seq ix).2.
Proof.
  revert seq ix. induction n as [|n IH]; intros seq ix; cbn [probe_loop]; [done|].
  destruct (get seq) as [[bs modified]|[]|]; try done.
  - destruct (decode_segment_footer bs) as [[f|]| |]; try done.
    etransitivity; [|apply IH]. rewrite resolved_insert. set_solver.
  - destruct floor as [f| |]; cbn; unfold certify; try done.
    rewrite Z.eqb_refl. by destruct (seq <? f).
Qed.

(** ** The floor's certificate *)

(** A certified floor was read under a generation this process has reached. *)
Definition floor_ok (ix : PrefixIndex) : Prop :=
  match Index.seq_floor ix with Some (_, at_) => at_ <= Index.generation ix | None => True end.

Lemma probe_loop_floor n get f now seq ix :
  floor_ok ix ->
  let '(t, ix') := probe_loop n get (Ok f) now seq ix in
  floor_ok ix' /\ (t = Resolved -> cached_certified_seq_floor ix' = Some f).
Proof.
  revert seq ix. induction n as [|n IH]; intros seq ix H; cbn [probe_loop]; [by split|].
  destruct (get seq) as [[bs modified]|[]|]; try by split.
  - destruct (decode_segment_footer bs) as [[f'|]| |]; try by split.
    apply IH. unfold floor_ok.
    by destruct (insert_segment_rest ix seq (mkCached f' modified)) as (_ & -> & ->).
  - cbn. unfold certify. rewrite Z.eqb_refl. destruct (seq <? f); unfold floor_ok; cbn; [done|].
    split; [lia|]. intros _. unfold cached_certified_seq_floor. cbn. by rewrite Z.eqb_refl.
Qed.

Lemma commit_pass_floor read todo v ix :
  Index.generation (commit_pass read todo v ix).1 = Index.generation ix /\
  Index.seq_floor (commit_pass read todo v ix).1 = Index.seq_floor ix.
Proof.
  revert v ix. induction todo as [|[seq modified] todo IH]; intros v ix; cbn; [done|].
  destruct (read seq) as [o| |]; try done.
  destruct (IH (match o with Vanished => S v | _ => v end) (commit_footer ix seq modified o)) as [-> ->].
  destruct o; try done. cbn [commit_footer].
  by destruct (insert_segment_rest ix seq (mkCached f modified)) as (_ & -> & ->).
Qed.

Lemma relist_floor n list read reconcile relists after live ix :
  let ix' := (relist n list read reconcile relists after live ix).1 in
  Index.generation ix' = Index.generation ix /\ Index.seq_floor ix' = Index.seq_floor ix.
Proof.
  revert relists after live ix. induction n as [|n IH]; intros relists after live ix; cbn;
    (destruct (list relists after) as [discovered| |]; [|done|done]);
    set (todo := filter _ _); pose proof (commit_pass_floor (read relists) todo 0 ix) as Hc;
    destruct (commit_pass (read relists) todo 0 ix) as [ix1 [[|k]| |]]; cbn in *; try done.
  destruct Hc as [<- <-]. apply IH.
Qed.

Lemma close_refresh_floor ix now settled reconcile whole live :
  Index.generation (close_refresh ix now settled reconcile whole live) = Index.generation ix + 1 /\
  Index.seq_floor (close_refresh ix now settled reconcile whole live) = Index.seq_floor ix.
Proof.
  unfold close_refresh. destruct (max_key _); [|done]. destruct reconcile; [|done]. cbn.
  unfold retain_segments. by destruct (_ <? _)%nat.
Qed.

(** A listing bumps the generation past every certificate. *)
Lemma list_prefix_floor now list read reconcile after ix ix' :
  floor_ok ix -> list_prefix now list read reconcile after ix = (ix', Ok tt) ->
  floor_ok ix' /\ cached_certified_seq_floor ix' = None.
Proof.
  unfold list_prefix.
  set (a := if reconcile || bool_decide (after = None) then None else after).
  pose proof (relist_floor PREFIX_INDEX_MAX_RELISTS list read reconcile 0 a ∅ ix) as Hr.
  destruct (relist _ _ _ _ _ _ _ _) as [ix2 [[settled live]| |]]; [|done|done].
  cbn in Hr. destruct Hr as [Hg Hf]. intros Hok [= <-].
  set (w := reconcile || _). clearbody w.
  destruct (close_refresh_floor ix2 now settled reconcile w live) as [Hg' Hf'].
  unfold floor_ok, cached_certified_seq_floor in *. rewrite Hg', Hf', Hf, Hg.
  destruct (Index.seq_floor ix) as [[f at_]|]; [|done]. split; [lia|].
  by rewrite (proj2 (Z.eqb_neq _ _)) by lia.
Qed.

(** ** A store at rest *)

Section rest.
Context (objects : gmap Z (bytes * Z)).

Definition rest_get (seq : Z) : result (bytes * Z) :=
  match objects !! seq with
  | Some (payload, modified) =>
      Ok (last_bytes payload (Nat.max SEGMENT_FOOTER_OVER_READ SEGMENT_TRAILER_LEN), modified)
  | None => Err NotFound
  end.

(** [start-after]. *)
Definition above (after : option Z) (seq : Z) : bool :=
  match after with Some a => a <? seq | None => true end.

Definition rest_names (after : option Z) : list (Z * Z) :=
  filter (fun x => above after x.1 = true)
    (map (fun seq => (seq, match objects !! seq with Some (_, m) => m | None => 0 end))
       (sorted_keys objects)).

Definition rest_list (_ : nat) (after : option Z) : result (list (Z * Z)) := Ok (rest_names after).

Definition rest_read (_ : nat) (seq : Z) : result FooterOutcome :=
  match objects !! seq with
  | Some (payload, _) =>
      rmap (fun o => match o with Some f => Decoded f | None => Undecodable end)
        (read_segment_footer (fun n => Ok (last_bytes payload n)))
  | None => Ok Vanished
  end.

Lemma rest_names_elem after seq :
  seq ∈ (rest_names after).*1 <-> seq ∈ dom objects /\ above after seq = true.
Proof.
  rewrite list_elem_of_fmap. setoid_rewrite list_elem_of_filter. setoid_rewrite list_elem_of_fmap.
  unfold sorted_keys. setoid_rewrite (merge_sort_Permutation Z.le).
  setoid_rewrite list_elem_of_fmap. rewrite elem_of_dom. split.
  - intros (x & -> & Hx & k & -> & [k' c] & -> & Hk). apply elem_of_map_to_list in Hk.
    cbn. split; [by exists c|done].
  - intros [[c Hc] Ha]. eexists (seq, _). cbn. split; [done|]. split; [done|].
    exists seq. split; [done|]. exists (seq, c). by rewrite elem_of_map_to_list.
Qed.

Lemma commit_pass_rest pass todo v ix :
  Forall (fun x => x.1 ∈ dom objects) todo ->
  match (commit_pass (rest_read pass) todo v ix).2 with Ok v' => v' = v | _ => True end.
Proof.
  intros H. revert v ix. induction H as [|[seq modified] todo Hseq _ IH]; intros v ix; cbn; [done|].
  apply elem_of_dom in Hseq as [[payload m] Hp]. cbn in Hp. unfold rest_read at 1. rewrite Hp.
  destruct (read_segment_footer _) as [[f|]| |]; cbn; try done; apply IH.
Qed.

(** One pass settles: everything above [after] is resolved. *)
Lemma pass_rest pass after ix ix' v :
  commit_pass (rest_read pass) (filter (fun x => x.1 ∉ resolved ix) (rest_names after)) 0 ix
    = (ix', Ok v) ->
  v = 0%nat /\ resolved ix ⊆ resolved ix' /\
  (forall seq, seq ∈ dom objects -> above after seq = true -> seq ∈ resolved ix').
Proof.
  intros Ec. set (todo := filter _ _) in Ec.
  assert (Htodo : Forall (fun x => x.1 ∈ dom objects) todo).
  { apply Forall_forall. intros x [_ Hx]%list_elem_of_filter.
    apply (rest_names_elem after x.1), list_elem_of_fmap. by exists x. }
  pose proof (commit_pass_rest pass todo 0 ix Htodo) as Hv. rewrite Ec in Hv. cbn in Hv.
  apply commit_pass_resolved in Ec as [Hsub Hok]. specialize (Hok eq_refl).
  split; [done|]. split; [done|]. intros seq Hs Ha.
  destruct (decide (seq ∈ resolved ix)); [by apply Hsub|]. apply Hok, elem_of_list_to_set.
  assert (Hd : seq ∈ (rest_names after).*1) by (by apply rest_names_elem).
  apply list_elem_of_fmap in Hd as (x & -> & Hx). apply list_elem_of_fmap. exists x.
  split; [done|]. by apply list_elem_of_filter.
Qed.

Lemma relist_rest n reconcile relists after live ix ix' r :
  relist n rest_list rest_read reconcile relists after live ix = (ix', Ok r) ->
  resolved ix ⊆ resolved ix' /\
  (forall seq, seq ∈ dom objects -> above after seq = true -> seq ∈ resolved ix') /\
  (reconcile = true -> after = None -> dom objects ⊆ r.2).
Proof.
  intros H. assert (Hr : relist 0 rest_list rest_read reconcile relists after live ix = (ix', Ok r)).
  { destruct n; [done|]. cbn [relist] in *. unfold rest_list at 1 in H. unfold rest_list at 1.
    destruct (commit_pass _ _ _ _) as [ix1 [v| |]] eqn:Ec; [|done|done].
    by apply pass_rest in Ec as (-> & _). }
  clear H. cbn [relist] in Hr. unfold rest_list at 1 in Hr.
  destruct (commit_pass _ _ _ _) as [ix1 [v| |]] eqn:Ec; [|done|done].
  apply pass_rest in Ec as (-> & Hsub & Habove). injection Hr as <- <-.
  split; [done|]. split; [done|]. intros -> ->. cbn. intros seq Hs. apply elem_of_union. right.
  apply elem_of_list_to_set, rest_names_elem. done.
Qed.

Lemma commit_pass_ok pass todo v ix :
  (forall seq, is_ok (rest_read pass seq) = true) ->
  is_ok (commit_pass (rest_read pass) todo v ix).2 = true.
Proof.
  intros H. revert v ix. induction todo as [|[seq modified] todo IH]; intros v ix; cbn; [done|].
  specialize (H seq). destruct (rest_read pass seq) as [o| |]; [apply IH|done|done].
Qed.

Lemma relist_ok n reconcile relists after live ix :
  (forall seq, is_ok (rest_read relists seq) = true) ->
  is_ok (relist n rest_list rest_read reconcile relists after live ix).2 = true.
Proof.
  intros H. destruct n; cbn [relist]; unfold rest_list at 1;
    (destruct (commit_pass _ _ _ _) as [ix1 r] eqn:Ec;
     pose proof (commit_pass_ok relists (filter (fun x => x.1 ∉ resolved ix) (rest_names after))
                   0 ix H) as Hok; rewrite Ec in Hok;
     destruct r as [v| |]; try done; by apply pass_rest in Ec as (-> & _)).
Qed.

Lemma close_refresh_resolved ix now settled reconcile whole live seq :
  seq ∈ resolved ix -> (reconcile = true -> seq ∈ live) ->
  seq ∈ resolved (close_refresh ix now settled reconcile whole live).
Proof.
  intros Hs Hlive. unfold close_refresh, resolved in *. destruct (max_key _) as [m|]; [|done].
  destruct reconcile; [|done]. cbn [Index.segments Index.opaque].
  assert (Hk : (m <=? seq) || bool_decide (seq ∈ live) = true).
  { apply orb_true_iff. right. by apply bool_decide_eq_true, Hlive. }
  apply elem_of_union in Hs as [Hs|Hs]; apply elem_of_union; [left|right].
  - unfold retain_segments. destruct (_ <? _)%nat; cbn; apply elem_of_dom in Hs as [c Hc];
      apply elem_of_dom; exists c; by apply map_lookup_filter_Some.
  - apply elem_of_filter. split; [done|]. unfold retain_segments. by destruct (_ <? _)%nat.
Qed.

(** The probe, against the store: once a name is absent and the floor is not
    past it, nothing live is left above. *)
Lemma probe_loop_rest n f now seq ix ix' :
  (forall k x, k ∉ dom objects -> f <= k -> x ∈ dom objects -> x < k) ->
  (forall x, x ∈ dom objects -> x < seq -> x ∈ resolved ix) ->
  probe_loop n rest_get (Ok f) now seq ix = (Resolved, ix') -> dom objects ⊆ resolved ix'.
Proof.
  intros Hcontig. revert seq ix. induction n as [|n IH]; intros seq ix Hbelow; cbn [probe_loop]; [done|].
  unfold rest_get at 1. destruct (objects !! seq) as [[payload m]|] eqn:Eo.
  - destruct (decode_segment_footer _) as [[f'|]| |]; try done. intros H.
    eapply IH; [|done]. intros x Hx Hlt. rewrite resolved_insert.
    destruct (decide (x = seq)); [set_solver|]. apply elem_of_union. right. apply Hbelow; [done|lia].
  - cbn. unfold certify. rewrite Z.eqb_refl. destruct (Z.ltb_spec seq f); [done|].
    intros [= <-] x Hx. apply Hbelow; [done|]. apply Hcontig; [|lia|done].
    by apply not_elem_of_dom.
Qed.
Lemma list_prefix_rest now reconcile ix ix1 :
  (forall c x, resolved_max ix = Some c -> x ∈ dom objects -> x <= c -> x ∈ resolved ix) ->
  resolved ix ⊆ resolved ix1 ->
  let '(ix', r) := list_prefix now rest_list rest_read reconcile (resolved_max ix) ix1 in
  (r = Ok tt -> dom objects ⊆ resolved ix') /\
  ((forall seq, is_ok (rest_read 0 seq) = true) -> r = Ok tt).
Proof.
  intros Hbelow Hsub. unfold list_prefix. set (whole := reconcile || _).
  set (after := if whole then None else resolved_max ix).
  pose proof (relist_ok PREFIX_INDEX_MAX_RELISTS reconcile 0 after ∅ ix1) as Hok.
  destruct (relist _ _ _ _ _ _ _ _) as [ix2 [[settled live]|e|p]] eqn:Er.
  - split; [|done]. intros _ seq Hs. apply relist_rest in Er as (Hm & Habove & Hlive).
    apply close_refresh_resolved.
    + destruct (decide (above after seq = true)) as [Ha|Ha]; [by apply Habove|].
      unfold after in Ha. destruct whole; [done|].
      destruct (resolved_max ix) as [c|] eqn:Ec; [|done]. cbn in Ha.
      apply Hm, Hsub, (Hbelow c); [done|done|lia].
    + intros Hr. apply (Hlive Hr); [|done]. unfold after, whole. by rewrite Hr.
  - split; [done|]. intros H. by apply Hok in H.
  - split; [done|]. intros H. by apply Hok in H.
Qed.
End rest.

(** ** Properties *)

(** The speculative footer read costs one or two ranged requests and never
    changes the answer: against an object of any content and length, the
    over-read and, when the footer is longer than it, the exact second read
    return precisely what decoding the whole object would, the refusals
    included. *)
Theorem read_segment_footer_exact (payload : bytes) :
  Z.of_nat (length payload) < 2 ^ 63 ->
  read_segment_footer (fun n => Ok (last_bytes payload n)) = decode_segment_footer payload.
Proof.
  intros Hsmall. unfold read_segment_footer. cbn [rbind].
  set (over := Nat.max SEGMENT_FOOTER_OVER_READ SEGMENT_TRAILER_LEN).
  assert (Hover : (SEGMENT_TRAILER_LEN <= over)%nat) by (unfold over; lia). clearbody over.
  destruct (decide (length payload <= over)%nat) as [Hle|Hgt].
  - rewrite (last_bytes_all payload over) by done.
    destruct (Nat.ltb_spec (length payload) SEGMENT_TRAILER_LEN) as [Hs|Hs].
    { unfold decode_segment_footer. by rewrite (proj2 (Nat.ltb_lt _ _)). }
    destruct (_ =? SEGMENT_MAGIC) eqn:Em; cbn [negb].
    2: { unfold decode_segment_footer. rewrite (proj2 (Nat.ltb_ge (length payload) _)) by lia.
         by rewrite Em. }
    destruct (Z.leb_spec (wrap_u 64 (Z.of_nat SEGMENT_TRAILER_LEN + footer_len_of payload))
                (Z.of_nat (length payload))); [done|].
    by rewrite last_bytes_all by lia.
  - destruct (last_bytes_split payload over ltac:(lia)) as (pre & Hp & Hlen).
    set (buffer := last_bytes payload over) in *. rewrite (proj2 (Nat.ltb_ge _ _)) by lia.
    destruct (_ =? SEGMENT_MAGIC) eqn:Em; cbn [negb].
    2: { unfold decode_segment_footer. rewrite (proj2 (Nat.ltb_ge (length payload) _)) by lia.
         rewrite Hp, trailer_suffix by lia. by rewrite Em. }
    destruct (Z.leb_spec (wrap_u 64 (Z.of_nat SEGMENT_TRAILER_LEN + footer_len_of buffer))
                (Z.of_nat (length buffer))) as [Hfit|Hbig].
    + rewrite Hp. apply decode_fast_path; try done; [lia|by rewrite <- Hp].
    + apply decode_second_read; [lia|]. fold buffer. lia.
Qed.

Lemma read_segment_footer_exact_witness :
  let payload := encode_footer sample_footer 4 ++
    encode_trailer (Z.of_nat (length (encode_footer sample_footer 4))) 3 4 in
  read_segment_footer (fun n => Ok (last_bytes payload n)) = Ok (Some sample_footer).
Proof.
  intros payload. rewrite (read_segment_footer_exact payload); by vm_compute.
Defined.

(** A forced refresh of a store at rest, from an index without holes. *)
Lemma refresh_rest (objects : gmap Z (bytes * Z)) (f now ttl : Z) (ix : PrefixIndex) :
  (forall k x, k ∉ dom objects -> f <= k -> x ∈ dom objects -> x < k) ->
  (forall c x, resolved_max ix = Some c -> x ∈ dom objects -> x <= c -> x ∈ resolved ix) ->
  let '(ix', r) := refresh_prefix_index_inner true now ttl (rest_get objects) (Ok f)
                     (rest_list objects) (rest_read objects) ix in
  (r = Ok tt -> dom objects ⊆ resolved ix') /\
  ((forall seq, is_ok (rest_read objects 0 seq) = true) -> r = Ok tt).
Proof.
  intros Hcontig Hbelow. unfold refresh_prefix_index_inner. cbn [negb andb cursor prefix_index_freshness].
  set (reconcile := reconcile_due _).
  assert (Hlist : forall ix1, resolved ix ⊆ resolved ix1 -> let '(ix', r) :=
    list_prefix now (rest_list objects) (rest_read objects) reconcile (resolved_max ix) ix1 in
    (r = Ok tt -> dom objects ⊆ resolved ix') /\
    ((forall seq, is_ok (rest_read objects 0 seq) = true) -> r = Ok tt)).
  { intros ix1 Hsub. by apply list_prefix_rest. }
  clearbody reconcile. destruct reconcile; [by apply Hlist|].
  destruct (resolved_max ix) as [c|] eqn:Ec; [|by apply Hlist].
  pose proof (probe_loop_resolved PROBE_WINDOW (rest_get objects) (Ok f) now (c + 1) ix) as Hsub.
  unfold probe_prefix_tail. destruct (probe_loop _ _ _ _ _ _) as [[|reason] ix1] eqn:Ep;
    [|by apply Hlist].
  split; [|done]. intros _. eapply probe_loop_rest; [done| |done].
  intros x Hx Hlt. apply (Hbelow c); [done|done|lia].
Qed.

Definition sample_payload : bytes :=
  encode_footer sample_footer 4 ++
  encode_trailer (Z.of_nat (length (encode_footer sample_footer 4))) 3 4.

(** Segments 3 and 4, the index knowing 3 only. *)
Definition sample_objects : gmap Z (bytes * Z) := {[ 3 := (sample_payload, 0); 4 := (sample_payload, 0) ]}.

(** The candidate sequence of a flush never rests on an old floor: after a
    forced refresh that returned, [tail_next_seq_folded] picks the successor of
    every resolved name, raised to the floor this refresh read live after
    finding the tail absent or, when the refresh listed, to a floor read after
    the listing; a floor certified before the refresh is never used. *)
Theorem candidate_floor_is_fresh (now ttl f1 f2 : Z) (get : Z -> result (bytes * Z))
    (list : nat -> option Z -> result (list (Z * Z))) (read : nat -> Z -> result FooterOutcome)
    (ix ix1 : PrefixIndex) :
  floor_ok ix ->
  refresh_prefix_index_inner true now ttl get (Ok f1) list read ix = (ix1, Ok tt) ->
  floor_ok ix1 /\
  exists f, (f = f1 \/ f = f2) /\
    (tail_next_seq_folded (Ok f2) ix1).1 = Ok (Z.max (next_of (resolved_max ix1)) f).
Proof.
  intros Hok H.
  assert (Hcases : floor_ok ix1 /\ (cached_certified_seq_floor ix1 = Some f1 \/
                                    cached_certified_seq_floor ix1 = None)).
  { revert H. unfold refresh_prefix_index_inner. cbn [negb andb].
    destruct (reconcile_due _); [intros H; apply list_prefix_floor in H as [? ?]; auto|].
    destruct (cursor _) as [c|]; [|intros H; apply list_prefix_floor in H as [? ?]; auto].
    pose proof (probe_loop_floor PROBE_WINDOW get f1 now (c + 1) ix Hok) as Hp.
    unfold probe_prefix_tail. destruct (probe_loop _ _ _ _ _ _) as [[|reason] ixp]; destruct Hp as [Hp1 Hp2].
    - intros [= <-]. split; [done|]. left. by apply Hp2.
    - intros H. apply list_prefix_floor in H as [? ?]; auto. }
  destruct Hcases as [Hok1 Hc]. split; [done|]. unfold tail_next_seq_folded, certified_seq_floor.
  destruct Hc as [-> | ->]; [exists f1|exists f2]; cbn; auto.
Qed.

Lemma pair_fst {A B} (p : A * B) b : p.2 = b -> p = (p.1, b).
Proof. by destruct p; cbn; intros ->. Qed.

Lemma pair_snd {A B} (p : A * B) a : p.1 = a -> p = (a, p.2).
Proof. by destruct p; cbn; intros ->. Qed.

Lemma candidate_floor_is_fresh_witness :
  exists f, (f = 3 \/ f = 9) /\
    (tail_next_seq_folded (Ok 9) (refresh_prefix_index_inner true 100 5 (rest_get sample_objects) (Ok 3)
       (rest_list sample_objects) (rest_read sample_objects) Index.empty).1).1
    = Ok (Z.max 5 f).
Proof.
  destruct (candidate_floor_is_fresh 100 5 3 9 (rest_get sample_objects) (rest_list sample_objects)
    (rest_read sample_objects) Index.empty
    (refresh_prefix_index_inner true 100 5 (rest_get sample_objects) (Ok 3)
       (rest_list sample_objects) (rest_read sample_objects) Index.empty).1
    I (pair_fst _ _ ltac:(vm_compute; reflexivity))) as (_ & f & Hf & ->).
  exists f. split; [done|]. replace (next_of _) with 5; [done|]. by vm_compute.
Defined.

(** ** An index that follows its prefix

    One broker's index of a prefix while the prefix changes under it.  Every
    refresh runs against a store at rest; between two of them the store moves. *)

Record Watch := mkWatch {
  w_objects : gmap Z (bytes * Z);
  w_floor : Z;
  w_index : PrefixIndex;
  (** the name the flush under way is about to claim *)
  w_aim : option Z;
}.

(** What [tail_next_seq] answers. *)
Definition w_next (w : Watch) : Z :=
  Z.max (next_of (max_key (map_to_list (w_objects w)).*1)) (w_floor w).

Definition w_refresh (force : bool) (now ttl : Z) (w : Watch) : PrefixIndex * result unit :=
  refresh_prefix_index_inner force now ttl (rest_get (w_objects w)) (Ok (w_floor w))
    (rest_list (w_objects w)) (rest_read (w_objects w)) (w_index w).

Definition set_w_index (w : Watch) (ix : PrefixIndex) : Watch := mkWatch (w_objects w) (w_floor w) ix (w_aim w).

Inductive watch : Watch -> Watch -> Prop :=
  (** a peer's create-only PUT lands, on a name the floor has not passed *)
  | watch_peer w seq o :
      w_objects w !! seq = None -> w_floor w <= seq <= w_next w ->
      watch w (mkWatch (<[seq := o]> (w_objects w)) (w_floor w) (w_index w) (w_aim w))
  (** [raise_seq_floor], then the deletes it is written ahead of *)
  | watch_floor w f :
      w_floor w <= f -> watch w (mkWatch (w_objects w) f (w_index w) (w_aim w))
  | watch_delete w seq :
      seq < w_floor w -> watch w (mkWatch (delete seq (w_objects w)) (w_floor w) (w_index w) (w_aim w))
  (** a refresh, whether it returns or not *)
  | watch_refresh w force now ttl : watch w (set_w_index w (w_refresh force now ttl w).1)
  (** a flush folds and picks its candidate *)
  | watch_aim w now ttl ix seq ix' :
      w_refresh true now ttl w = (ix, Ok tt) ->
      tail_next_seq_folded (Ok (w_floor w)) ix = (Ok seq, ix') ->
      watch w (mkWatch (w_objects w) (w_floor w) ix' (Some seq))
  (** its PUT lands, on a name the floor has not passed *)
  | watch_put w seq o now f modified :
      w_aim w = Some seq -> w_objects w !! seq = None -> w_floor w <= seq ->
      watch w (mkWatch (<[seq := o]> (w_objects w)) (w_floor w) (index_insert (w_index w) now seq f modified) None)
  (** or a peer has the name, and the flush folds the peer's segment *)
  | watch_fold w seq now ix :
      w_aim w = Some seq -> fold_segment_footer (rest_get (w_objects w)) now (w_index w) seq = Some ix ->
      watch w (mkWatch (w_objects w) (w_floor w) ix None)
  (** a merge of this broker wins a name the index has not reached *)
  | watch_merge w seq o now ttl now' f modified :
      w_objects w !! seq = None -> w_floor w <= seq <= w_next w ->
      let objects := <[seq := o]> (w_objects w) in
      (forall x, is_ok (rest_read objects 0 x) = true) ->
      watch w (mkWatch objects (w_floor w)
        (index_insert (fold_below_won now ttl (rest_get objects) (Ok (w_floor w)) (rest_list objects)
           (rest_read objects) seq (w_index w)) now' seq f modified) (w_aim w))
  (** retired or vanished segments are pruned; the freshness stamps are dropped *)
  | watch_prune w seqs :
      Forall (fun x => w_objects w !! x = None) seqs -> watch w (set_w_index w (index_prune (w_index w) seqs))
  | watch_invalidate w : watch w (set_w_index w (index_invalidate (w_index w)))
  (** the process starts over *)
  | watch_restart w : watch w (mkWatch (w_objects w) (w_floor w) Index.empty None).

Definition watch_none : Watch := mkWatch ∅ 0 Index.empty None.

(** No live name is below a resolved one and not resolved. *)
Definition no_holes (objects : gmap Z (bytes * Z)) (ix : PrefixIndex) : Prop :=
  forall x y, y ∈ resolved ix -> x ∈ dom objects -> x <= y -> x ∈ resolved ix.

(** Above the floor the names are taken from the bottom up. *)
Definition packed (objects : gmap Z (bytes * Z)) (f : Z) : Prop :=
  forall k x, k ∉ dom objects -> f <= k -> x ∈ dom objects -> x < k.

Record watch_ok (w : Watch) : Prop := {
  wok_pos : 0 <= w_floor w;
  wok_packed : packed (w_objects w) (w_floor w);
  wok_holes : no_holes (w_objects w) (w_index w);
  wok_dead : forall x, x ∈ resolved (w_index w) -> x ∈ dom (w_objects w) \/ x < w_floor w;
  wok_floor : floor_ok (w_index w);
  wok_aim : forall k, w_aim w = Some k -> k <= w_next w /\
    forall x, x ∈ dom (w_objects w) -> x < k -> x ∈ resolved (w_index w);
}.

(** *** A refresh keeps the index without holes *)

Section refreshing.
Context (objects : gmap Z (bytes * Z)).

Lemma rest_names_sorted after : StronglySorted Z.le (rest_names objects after).*1.
Proof.
  unfold rest_names. pose proof (StronglySorted_merge_sort Z.le (map_to_list objects).*1) as H.
  fold (sorted_keys objects) in H. induction H as [|x l Hl IH Hx]; [constructor|].
  cbn [map]. rewrite filter_cons. destruct (decide _); [|done]. cbn. constructor; [done|].
  apply Forall_forall. intros y (z & -> & [_ Hz]%list_elem_of_filter)%list_elem_of_fmap.
  apply list_elem_of_fmap in Hz as (y & -> & Hy). rewrite Forall_forall in Hx. by apply Hx.
Qed.

Lemma commit_pass_holes read todo v ix :
  StronglySorted Z.le todo.*1 -> (forall x, x ∈ dom objects -> x ∈ resolved ix \/ x ∈ todo.*1) ->
  Forall (fun x => x.1 ∈ dom objects) todo -> no_holes objects ix ->
  let ix' := (commit_pass read todo v ix).1 in
  no_holes objects ix' /\ resolved ix ⊆ resolved ix' /\ resolved ix' ⊆ resolved ix ∪ dom objects.
Proof.
  revert v ix. induction todo as [|[seq m] todo IH]; intros v ix Hs Hall Hin Hh; cbn.
  { split_and!; [done|done|]. by apply union_subseteq_l. }
  inversion Hs as [|? ? Hs' Hle]; subst. apply Forall_cons in Hin as [Hseq Hin]. cbn in Hseq.
  rewrite Forall_forall in Hle.
  destruct (read seq) as [o| |]; [|split_and!; [done|done|by apply union_subseteq_l]..].
  assert (Hr := resolved_commit ix seq m o).
  destruct (IH (match o with Vanished => S v | _ => v end) (commit_footer ix seq m o) Hs') as (H1 & H2 & H3).
  - intros x Hx. rewrite Hr. destruct (Hall x Hx) as [H|H]; [left; by apply elem_of_union_r|].
    apply elem_of_cons in H as [->|H]; [left; by apply elem_of_union_l, elem_of_singleton|by right].
  - done.
  - intros x y Hy Hx Hxy. rewrite Hr in *. apply elem_of_union in Hy as [->%elem_of_singleton|Hy].
    + destruct (Hall x Hx) as [H|[->|H]%elem_of_cons]; [by apply elem_of_union_r|by apply elem_of_union_l, elem_of_singleton|].
      specialize (Hle x H). cbn in Hle. replace x with seq by lia. by apply elem_of_union_l, elem_of_singleton.
    + apply elem_of_union_r. by eapply Hh.
  - split_and!; [done|etransitivity; [|exact H2]; rewrite Hr; by apply union_subseteq_r|].
    etransitivity; [exact H3|]. rewrite Hr. set_solver +Hseq.
Qed.

(** What a listing or a probe leaves of an index. *)
Definition keeps (ix ix' : PrefixIndex) : Prop :=
  no_holes objects ix' /\ (forall x, x ∈ dom objects -> x ∈ resolved ix -> x ∈ resolved ix') /\
  resolved ix' ⊆ resolved ix ∪ dom objects.

Lemma keeps_trans ix1 ix2 ix3 : keeps ix1 ix2 -> keeps ix2 ix3 -> keeps ix1 ix3.
Proof.
  intros (_ & H1 & H2) (H3 & H4 & H5). split_and!; [done|auto|].
  etransitivity; [exact H5|]. apply union_subseteq. split; [done|by apply union_subseteq_r].
Qed.

Lemma keeps_same ix ix' : no_holes objects ix -> resolved ix' = resolved ix -> keeps ix ix'.
Proof.
  intros H E. unfold keeps, no_holes. rewrite E. split_and!; [done|done|]. by apply union_subseteq_l.
Qed.

(** One pass is all a store at rest needs. *)
Lemma relist_rest_index n reconcile relists after live ix :
  (relist n (rest_list objects) (rest_read objects) reconcile relists after live ix).1 =
  (commit_pass (rest_read objects relists) (filter (fun x => x.1 ∉ resolved ix) (rest_names objects after)) 0 ix).1.
Proof.
  destruct n; cbn [relist]; unfold rest_list at 1;
    (destruct (commit_pass _ _ _ _) as [ix1 [v| |]] eqn:Ec; [|done|done]; by apply pass_rest in Ec as (-> & _)).
Qed.

Lemma relist_keeps n reconcile relists after live ix :
  no_holes objects ix -> (forall x, x ∈ dom objects -> above after x = false -> x ∈ resolved ix) ->
  keeps ix (relist n (rest_list objects) (rest_read objects) reconcile relists after live ix).1.
Proof.
  intros Hh Hafter. rewrite relist_rest_index.
  assert (Hin : forall x, x ∈ filter (fun x => x.1 ∉ resolved ix) (rest_names objects after) -> x.1 ∈ dom objects).
  { intros x [_ Hx]%list_elem_of_filter. apply (rest_names_elem objects after x.1), list_elem_of_fmap. by exists x. }
  destruct (commit_pass_holes (rest_read objects relists)
    (filter (fun x => x.1 ∉ resolved ix) (rest_names objects after)) 0 ix) as (H1 & H2 & H3).
  - pose proof (rest_names_sorted after) as Hs. induction (rest_names objects after) as [|x l IH]; [constructor|].
    cbn [fmap list_fmap] in Hs. inversion Hs as [|? ? Hs' Hle]; subst. rewrite filter_cons.
    assert (IH' : StronglySorted Z.le (filter (fun x => x.1 ∉ resolved ix) l).*1).
    { apply IH; [|done]. intros y Hy. apply Hin. rewrite filter_cons. destruct (decide _); [by right|done]. }
    destruct (decide _); [|done]. cbn. constructor; [done|]. apply Forall_forall.
    intros y (z & -> & [_ Hz]%list_elem_of_filter)%list_elem_of_fmap.
    rewrite Forall_forall in Hle. apply Hle, list_elem_of_fmap. by exists z.
  - intros x Hx. destruct (decide (x ∈ resolved ix)) as [H|H]; [by left|right].
    destruct (above after x) eqn:Ea; [|by apply Hafter in Ea].
    pose proof (proj2 (rest_names_elem objects after x) (conj Hx Ea)) as Hz.
    apply list_elem_of_fmap in Hz as (z & -> & Hz).
    apply list_elem_of_fmap. exists z. split; [done|]. by apply list_elem_of_filter.
  - by apply Forall_forall.
  - done.
  - split_and!; [done| |done]. intros x _ Hx. by apply H2.
Qed.

Lemma close_refresh_sub ix now settled reconcile whole live :
  resolved (close_refresh ix now settled reconcile whole live) ⊆ resolved ix.
Proof.
  unfold close_refresh, resolved. destruct (max_key _) as [m|]; [|done]. destruct reconcile; [|done].
  cbn [Index.segments Index.opaque]. apply union_mono.
  - unfold retain_segments. destruct (_ <? _)%nat; cbn; apply dom_filter_subseteq.
  - intros x [_ Hx]%elem_of_filter. revert Hx. unfold retain_segments. by destruct (_ <? _)%nat.
Qed.

Lemma list_prefix_keeps now reconcile start ix :
  no_holes objects ix -> (forall x, x ∈ dom objects -> above start x = false -> x ∈ resolved ix) ->
  keeps ix (list_prefix now (rest_list objects) (rest_read objects) reconcile start ix).1.
Proof.
  intros Hh Hs. unfold list_prefix. set (whole := reconcile || _).
  set (after := if whole then None else start).
  assert (Ha : forall x, x ∈ dom objects -> above after x = false -> x ∈ resolved ix).
  { unfold after. destruct whole; [done|exact Hs]. }
  pose proof (relist_keeps PREFIX_INDEX_MAX_RELISTS reconcile 0 after ∅ ix Hh Ha) as Hk.
  destruct (relist _ _ _ _ _ _ _ _) as [ix2 [[settled live]| |]] eqn:Er; [|exact Hk..].
  eapply keeps_trans; [exact Hk|]. apply relist_rest in Er as (_ & _ & Hlive). cbn in Hlive.
  pose proof (close_refresh_sub ix2 now settled reconcile whole live) as Hsub.
  assert (Hkept : forall x, x ∈ dom objects -> x ∈ resolved ix2 ->
    x ∈ resolved (close_refresh ix2 now settled reconcile whole live)).
  { intros x Hx Hr. apply close_refresh_resolved; [done|]. intros ->. by apply Hlive. }
  destruct Hk as (Hh2 & _ & _). cbn [fst]. split_and!.
  - intros x y Hy Hx Hxy. apply Hkept; [done|]. by eapply Hh2; [apply Hsub, Hy|..].
  - intros x Hx. by apply Hkept.
  - etransitivity; [exact Hsub|]. by apply union_subseteq_l.
Qed.

Lemma probe_loop_keeps n f now seq ix :
  no_holes objects ix -> (forall x, x ∈ dom objects -> x < seq -> x ∈ resolved ix) ->
  keeps ix (probe_loop n (rest_get objects) (Ok f) now seq ix).2.
Proof.
  revert seq ix. induction n as [|n IH]; intros seq ix Hh Hb; cbn [probe_loop]; [by apply keeps_same|].
  unfold rest_get at 1. destruct (objects !! seq) as [[payload m]|] eqn:Eo.
  - destruct (decode_segment_footer _) as [[f'|]| |]; [|by apply keeps_same..].
    pose proof (resolved_insert ix seq (mkCached f' m)) as Hr.
    assert (Hb' : forall x, x ∈ dom objects -> x <= seq -> x ∈ {[seq]} ∪ resolved ix).
    { intros x Hx Hle. destruct (decide (x = seq)) as [->|]; [by apply elem_of_union_l, elem_of_singleton|].
      apply elem_of_union_r, Hb; [done|lia]. }
    assert (Hh' : no_holes objects (insert_segment ix seq (mkCached f' m))).
    { intros x y Hy Hx Hxy. rewrite Hr in *. apply elem_of_union in Hy as [->%elem_of_singleton|Hy]; [by apply Hb'|].
      apply elem_of_union_r. by eapply Hh. }
    eapply keeps_trans; [|apply IH; [done|]].
    + split_and!; [done| |]; rewrite Hr; [intros; by apply elem_of_union_r|].
      apply union_subseteq. split; [|by apply union_subseteq_l].
      intros x ->%elem_of_singleton. apply elem_of_union_r, elem_of_dom. by eexists.
    + intros x Hx Hlt. rewrite Hr. apply Hb'; [done|lia].
  - cbn. unfold certify. rewrite Z.eqb_refl. destruct (seq <? f); by apply keeps_same.
Qed.

Lemma no_holes_cursor ix c x :
  no_holes objects ix -> resolved_max ix = Some c -> x ∈ dom objects -> x <= c -> x ∈ resolved ix.
Proof.
  intros Hh Hc. pose proof (resolved_max_spec ix) as H. rewrite Hc in H. destruct H as [H _]. by apply Hh.
Qed.

Lemma refresh_keeps force f now ttl ix :
  no_holes objects ix ->
  keeps ix (refresh_prefix_index_inner force now ttl (rest_get objects) (Ok f) (rest_list objects)
              (rest_read objects) ix).1.
Proof.
  intros Hh. unfold refresh_prefix_index_inner. cbn [cursor prefix_index_freshness].
  set (reconcile := reconcile_due _). destruct (_ && _); [by apply keeps_same|].
  assert (Hcur : forall x, x ∈ dom objects -> above (resolved_max ix) x = false -> x ∈ resolved ix).
  { intros x Hx. destruct (resolved_max ix) as [c|] eqn:Ec; [|done]. cbn. intros Hle.
    apply (no_holes_cursor ix c); [done|done|done|lia]. }
  clearbody reconcile. destruct reconcile; [by apply list_prefix_keeps|].
  destruct (resolved_max ix) as [c|] eqn:Ec; [|by apply list_prefix_keeps].
  pose proof (probe_loop_keeps PROBE_WINDOW f now (c + 1) ix Hh) as Hp.
  unfold probe_prefix_tail. destruct (probe_loop _ _ _ _ _ _) as [t ix1].
  assert (Hk : keeps ix ix1) by (apply Hp; intros x Hx Hlt; apply (no_holes_cursor ix c); [done|done|done|lia]).
  destruct t; [exact Hk|]. eapply keeps_trans; [exact Hk|]. destruct Hk as (Hh1 & Hsub & _).
  apply list_prefix_keeps; [done|]. intros x Hx Ha. apply Hsub; [done|]. by apply Hcur.
Qed.
End refreshing.

Lemma refresh_floor_ok force f now ttl get list read ix :
  floor_ok ix -> floor_ok (refresh_prefix_index_inner force now ttl get (Ok f) list read ix).1.
Proof.
  assert (Hl : forall now reconcile start ix, floor_ok ix -> floor_ok (list_prefix now list read reconcile start ix).1).
  { clear. intros now reconcile start ix Hok.
    destruct (list_prefix _ _ _ _ _ _) as [ix' r] eqn:E. assert (Hr := E). unfold list_prefix in E. revert E.
    match goal with |- context [relist ?n list read reconcile 0 ?a ∅ ix] =>
      pose proof (relist_floor n list read reconcile 0 a ∅ ix) as [Hg Hf] end.
    destruct (relist _ _ _ _ _ _ _ _) as [ix2 [[]| |]]; intros [= <- <-];
      [by apply list_prefix_floor in Hr as [? _]|unfold floor_ok in *; cbn in *; by rewrite Hf, Hg..]. }
  intros Hok. unfold refresh_prefix_index_inner. destruct (_ && _); [done|].
  destruct (reconcile_due _); [by apply Hl|]. destruct (cursor _) as [c|]; [|by apply Hl].
  pose proof (probe_loop_floor PROBE_WINDOW get f now (c + 1) ix Hok) as Hp. unfold probe_prefix_tail.
  destruct (probe_loop _ _ _ _ _ _) as [[|] ix1]; destruct Hp as [Hp _]; [done|by apply Hl].
Qed.

(** *** The steps keep it so *)

Lemma w_next_le w z : 0 <= w_floor w ->
  w_next w <= z <-> w_floor w <= z /\ forall x, x ∈ dom (w_objects w) -> x < z.
Proof.
  intros Hf. unfold w_next.
  assert (Hk : forall x, x ∈ dom (w_objects w) <-> x ∈ (map_to_list (w_objects w)).*1).
  { intros x. rewrite elem_of_dom, list_elem_of_fmap. split.
    - intros [o Ho]. exists (x, o). by rewrite elem_of_map_to_list.
    - intros ([k o] & -> & Ho). apply elem_of_map_to_list in Ho. by exists o. }
  setoid_rewrite Hk. destruct (max_key _) as [m|] eqn:Em.
  - apply max_key_spec in Em as [Hin Hall]. rewrite Forall_forall in Hall. cbn. split.
    + intros H. split; [lia|]. intros x Hx. apply Hall in Hx. lia.
    + intros [Hz H]. apply H in Hin. lia.
  - destruct ((map_to_list (w_objects w)).*1); [|done]. cbn. split; [|lia].
    intros H. split; [lia|]. intros x Hx. by apply elem_of_nil in Hx.
Qed.

Lemma w_next_free w k : watch_ok w -> w_objects w !! k = None -> w_floor w <= k -> w_next w <= k.
Proof.
  intros Hw Hk Hf. apply w_next_le; [apply Hw|]. split; [done|]. intros x Hx.
  apply (wok_packed w Hw); [by apply not_elem_of_dom|done|done].
Qed.

Lemma watch_ok_create w seq o :
  watch_ok w -> w_objects w !! seq = None -> w_floor w <= seq <= w_next w ->
  watch_ok (mkWatch (<[seq := o]> (w_objects w)) (w_floor w) (w_index w) (w_aim w)).
Proof.
  intros Hw Hfree Hseq. set (w' := mkWatch _ _ _ _).
  pose proof (w_next_free w seq Hw Hfree (proj1 Hseq)) as Hnext.
  assert (Hmono : w_next w <= w_next w').
  { apply w_next_le; [apply Hw|]. pose proof (proj1 (w_next_le w' (w_next w') (wok_pos w Hw)) (Z.le_refl _)) as [H1 H2].
    split; [exact H1|]. intros x Hx. apply H2. cbn. rewrite dom_insert_L. by apply elem_of_union_r. }
  assert (Hold : forall k, k ∉ dom (w_objects w') -> w_objects w !! k = None /\ k <> seq).
  { intros k Hk. cbn in Hk. rewrite dom_insert_L, not_elem_of_union, not_elem_of_singleton, not_elem_of_dom in Hk. tauto. }
  split.
  - apply Hw.
  - intros k x [Hk Hne]%Hold Hf Hx. pose proof (w_next_free w k Hw Hk Hf) as Hn. cbn in Hx.
    rewrite dom_insert_L, elem_of_union, elem_of_singleton in Hx. destruct Hx as [->|Hx]; [lia|].
    apply (wok_packed w Hw); [by apply not_elem_of_dom|done|done].
  - intros x y Hy Hx Hxy. cbn in *. rewrite dom_insert_L, elem_of_union, elem_of_singleton in Hx.
    destruct Hx as [->|Hx]; [|by eapply (wok_holes w Hw)]. exfalso.
    destruct (wok_dead w Hw y Hy) as [Hd|Hd]; [|lia].
    pose proof (wok_packed w Hw seq y (proj2 (not_elem_of_dom _ _) Hfree) (proj1 Hseq) Hd). lia.
  - cbn. intros x Hx. rewrite dom_insert_L, elem_of_union. destruct (wok_dead w Hw x Hx); auto.
  - apply Hw.
  - cbn. intros k Hk. destruct (wok_aim w Hw k Hk) as [H1 H2]. split; [cbn in *; lia|].
    intros x Hx Hlt. rewrite dom_insert_L, elem_of_union, elem_of_singleton in Hx.
    destruct Hx as [->|Hx]; [lia|by apply H2].
Qed.

Lemma watch_ok_delete w seq :
  watch_ok w -> seq < w_floor w ->
  watch_ok (mkWatch (delete seq (w_objects w)) (w_floor w) (w_index w) (w_aim w)).
Proof.
  intros Hw Hlt. set (w' := mkWatch _ _ _ _).
  assert (Hdom : forall x, x ∈ dom (w_objects w') <-> x ∈ dom (w_objects w) /\ x <> seq).
  { intros x. cbn. rewrite dom_delete_L, elem_of_difference, elem_of_singleton. done. }
  pose proof (proj1 (w_next_le w' (w_next w') (wok_pos w Hw)) (Z.le_refl _)) as [Hn1 Hn2].
  split.
  - apply Hw.
  - intros k x Hk Hf [Hx _]%Hdom. apply (wok_packed w Hw); [|done|done]. rewrite Hdom in Hk.
    intros H. apply Hk. split; [done|]. cbn in Hf. lia.
  - intros x y Hy [Hx _]%Hdom. by apply (wok_holes w Hw).
  - intros x Hx. rewrite Hdom. cbn. destruct (wok_dead w Hw x Hx) as [H|H]; [|by right].
    destruct (decide (x = seq)) as [->|]; [by right|by left].
  - apply Hw.
  - intros k Hk. destruct (wok_aim w Hw k Hk) as [H1 H2]. split.
    + etransitivity; [exact H1|]. apply w_next_le; [apply Hw|]. split; [exact Hn1|]. intros x Hx.
      destruct (decide (x = seq)) as [->|]; [cbn in *; lia|]. by apply Hn2, Hdom.
    + intros x [Hx _]%Hdom. by apply H2.
Qed.

Lemma watch_ok_floor w f :
  watch_ok w -> w_floor w <= f -> watch_ok (mkWatch (w_objects w) f (w_index w) (w_aim w)).
Proof.
  intros Hw Hf. pose proof (wok_pos w Hw) as Hp. split; cbn.
  - lia.
  - intros k x Hk Hk' Hx. apply (wok_packed w Hw); [done|lia|done].
  - apply Hw.
  - intros x Hx. destruct (wok_dead w Hw x Hx); [by left|right; lia].
  - apply Hw.
  - intros k Hk. destruct (wok_aim w Hw k Hk) as [H1 H2]. split; [|done]. unfold w_next in *. cbn. lia.
Qed.

Lemma watch_ok_index w ix :
  watch_ok w -> keeps (w_objects w) (w_index w) ix -> floor_ok ix -> watch_ok (set_w_index w ix).
Proof.
  intros Hw (Hh & Hkept & Hsub) Hf. split; cbn; [apply Hw|apply Hw|done| |done|].
  - intros x Hx. apply Hsub, elem_of_union in Hx as [Hx|Hx]; [by apply (wok_dead w Hw)|by left].
  - intros k Hk. destruct (wok_aim w Hw k Hk) as [H1 H2]. split; [done|]. auto.
Qed.

(** The same, once the claim is settled. *)
Lemma watch_ok_settled w ix :
  watch_ok w -> keeps (w_objects w) (w_index w) ix -> floor_ok ix ->
  watch_ok (mkWatch (w_objects w) (w_floor w) ix None).
Proof. intros Hw Hk Hf. destruct (watch_ok_index w ix Hw Hk Hf) as [H1 H2 H3 H4 H5 _]. by split. Qed.

Lemma insert_keeps objects ix ix' seq :
  no_holes objects ix -> seq ∈ dom objects -> (forall x, x ∈ dom objects -> x < seq -> x ∈ resolved ix) ->
  resolved ix' = {[seq]} ∪ resolved ix -> keeps objects ix ix'.
Proof.
  intros Hh Hseq Hb Hr. unfold keeps, no_holes. rewrite Hr. split_and!.
  - intros x y Hy Hx Hxy. destruct (decide (x = seq)) as [->|Hne]; [by apply elem_of_union_l, elem_of_singleton|].
    apply elem_of_union_r. apply elem_of_union in Hy as [->%elem_of_singleton|Hy]; [apply Hb; [done|lia]|by eapply Hh].
  - intros x _ Hx. by apply elem_of_union_r.
  - apply union_subseteq. split; [|by apply union_subseteq_l]. intros x ->%elem_of_singleton. by apply elem_of_union_r.
Qed.

Lemma prune_keeps objects ix seqs :
  no_holes objects ix -> Forall (fun x => objects !! x = None) seqs -> keeps objects ix (index_prune ix seqs).
Proof.
  intros Hh Hd. rewrite Forall_forall in Hd.
  assert (Hr : forall x, x ∈ resolved (index_prune ix seqs) <->
    (x ∈ dom (Index.segments ix) /\ x ∉ seqs) \/ x ∈ Index.opaque ix).
  { intros x. unfold resolved, index_prune, retain_segments.
    assert (Hs : x ∈ dom (filter (fun kv : Z * CachedSegment => negb (bool_decide (kv.1 ∈ seqs)) = true) (Index.segments ix))
      <-> x ∈ dom (Index.segments ix) /\ x ∉ seqs).
    { rewrite !elem_of_dom. split.
      - intros [c [Hc Hn]%map_lookup_filter_Some]. cbn in Hn. apply negb_true_iff, bool_decide_eq_false in Hn.
        split; [by exists c|done].
      - intros [[c Hc] Hn]. exists c. apply map_lookup_filter_Some. split; [done|].
        by apply negb_true_iff, bool_decide_eq_false. }
    destruct (_ <? _)%nat; cbn; by rewrite elem_of_union, Hs. }
  assert (Hsub : resolved (index_prune ix seqs) ⊆ resolved ix).
  { intros x Hx. apply Hr in Hx. apply elem_of_union. tauto. }
  assert (Hkept : forall x, x ∈ dom objects -> x ∈ resolved ix -> x ∈ resolved (index_prune ix seqs)).
  { intros x Hx Hin. apply Hr. apply elem_of_union in Hin as [Hin|Hin]; [left|by right]. split; [done|].
    intros Hs. apply Hd in Hs. apply elem_of_dom in Hx as [o Ho]. congruence. }
  split_and!; [|done|by etransitivity; [exact Hsub|apply union_subseteq_l]].
  intros x y Hy Hx Hxy. apply Hkept; [done|]. eapply Hh; [apply Hsub, Hy|done|done].
Qed.

Lemma index_insert_resolved ix now seq f modified :
  resolved (index_insert ix now seq f modified) = {[seq]} ∪ resolved ix.
Proof. exact (resolved_insert ix seq (mkCached f modified)). Qed.

Lemma index_insert_floor ix now seq f modified : floor_ok ix -> floor_ok (index_insert ix now seq f modified).
Proof.
  unfold floor_ok, index_insert. cbn [Index.seq_floor Index.generation].
  by destruct (insert_segment_rest ix seq (mkCached f modified)) as (_ & -> & ->).
Qed.

Lemma refresh_resolves_all objects f now ttl ix :
  packed objects f -> no_holes objects ix ->
  let '(ix', r) := refresh_prefix_index_inner true now ttl (rest_get objects) (Ok f)
                     (rest_list objects) (rest_read objects) ix in
  (r = Ok tt -> dom objects ⊆ resolved ix') /\
  ((forall seq, is_ok (rest_read objects 0 seq) = true) -> r = Ok tt).
Proof.
  intros Hp Hh. apply refresh_rest; [done|]. intros c x Hc Hx Hle. by apply (no_holes_cursor objects ix c).
Qed.

Lemma fold_below_keeps objects f now ttl seq ix :
  packed objects f -> no_holes objects ix -> floor_ok ix ->
  (forall x, is_ok (rest_read objects 0 x) = true) ->
  let ix' := fold_below_won now ttl (rest_get objects) (Ok f) (rest_list objects) (rest_read objects) seq ix in
  keeps objects ix ix' /\ floor_ok ix' /\ forall x, x ∈ dom objects -> x < seq -> x ∈ resolved ix'.
Proof.
  intros Hp Hh Hf Hok. cbn zeta.
  assert (Hr : let ix' := (refresh_prefix_index_inner true now ttl (rest_get objects) (Ok f)
                     (rest_list objects) (rest_read objects) ix).1 in
    keeps objects ix ix' /\ floor_ok ix' /\ forall x, x ∈ dom objects -> x < seq -> x ∈ resolved ix').
  { cbn zeta. split; [by apply refresh_keeps|]. split; [by apply refresh_floor_ok|]. intros x Hx _.
    pose proof (refresh_resolves_all objects f now ttl ix Hp Hh) as H.
    destruct (refresh_prefix_index_inner _ _ _ _ _ _ _ _) as [ix' r]. destruct H as [H1 H2]. by apply H1, Hx; apply H2. }
  unfold fold_below_won. destruct (resolved_max ix) as [c|] eqn:Ec; [|exact Hr].
  destruct (Z.leb_spec seq (c + 1)); [|exact Hr]. split; [by apply keeps_same|]. split; [done|].
  intros x Hx Hlt. apply (no_holes_cursor objects ix c); [done|done|done|lia].
Qed.

Lemma watch_ok_aim w now ttl ix seq ix' :
  watch_ok w -> w_refresh true now ttl w = (ix, Ok tt) ->
  tail_next_seq_folded (Ok (w_floor w)) ix = (Ok seq, ix') ->
  watch_ok (mkWatch (w_objects w) (w_floor w) ix' (Some seq)).
Proof.
  intros Hw Hr Ht. unfold w_refresh in Hr.
  pose proof (refresh_resolves_all _ _ now ttl _ (wok_packed w Hw) (wok_holes w Hw)) as H. rewrite Hr in H.
  destruct H as [Hall _]. specialize (Hall eq_refl).
  pose proof (refresh_keeps _ true (w_floor w) now ttl _ (wok_holes w Hw)) as Hk. rewrite Hr in Hk. cbn in Hk.
  destruct (candidate_floor_is_fresh _ _ _ (w_floor w) _ _ _ _ _ (wok_floor w Hw) Hr) as (Hf & f & Hff & Hseq).
  rewrite Ht in Hseq. cbn in Hseq. injection Hseq as ->. assert (f = w_floor w) as -> by tauto.
  assert (Hix : resolved ix' = resolved ix /\ resolved_max ix' = resolved_max ix /\ floor_ok ix').
  { revert Ht. unfold tail_next_seq_folded, certified_seq_floor. destruct (cached_certified_seq_floor ix); cbn.
    - by intros [= _ <-].
    - unfold certify. rewrite Z.eqb_refl. intros [= <-]. split_and!; [done|done|]. unfold floor_ok. cbn. lia. }
  destruct Hix as (Hres & _ & Hf').
  pose proof (watch_ok_index w ix' Hw) as Hok. destruct Hok as [H1 H2 H3 H4 H5 H6].
  { destruct Hk as (K1 & K2 & K3). unfold keeps, no_holes. rewrite Hres. by split_and!. }
  { done. }
  split; [exact H1|exact H2|exact H3|exact H4|exact H5|]. cbn. intros k [= <-]. split.
  - pose proof (proj1 (w_next_le w (w_next w) (wok_pos w Hw)) (Z.le_refl _)) as [Hn1 Hn2].
    change (w_next (mkWatch (w_objects w) (w_floor w) ix' (Some _))) with (w_next w).
    pose proof (resolved_max_spec ix) as Hm. destruct (resolved_max ix) as [m|]; cbn [next_of].
    + destruct Hm as [Hm _]. rewrite <- Hres in Hm. destruct (H4 m Hm) as [Hd|Hd]; cbn in Hd; [|lia].
      apply Hn2 in Hd. lia.
    + pose proof (wok_pos w Hw). lia.
  - intros x Hx _. rewrite Hres. by apply Hall.
Qed.

Lemma watch_ok_step w w' : watch_ok w -> watch w w' -> watch_ok w'.
Proof.
  intros Hw H.
  destruct H as [w seq o Hfree Hseq|w f Hf|w seq Hlt|w force now ttl|w now ttl ix seq ix' Hr Ht
    |w seq o now f modified Ha Hfree Hf|w seq now ix Ha Hfold|w seq o now ttl now' f modified Hfree Hseq objects Hok
    |w seqs Hd|w|w].
  - by apply watch_ok_create.
  - by apply watch_ok_floor.
  - by apply watch_ok_delete.
  - apply watch_ok_index; [done|apply refresh_keeps, Hw|apply refresh_floor_ok, Hw].
  - by eapply watch_ok_aim.
  - destruct (wok_aim w Hw seq Ha) as [Hn Hb].
    pose proof (watch_ok_create w seq o Hw Hfree (conj Hf Hn)) as Hc.
    refine (watch_ok_settled (mkWatch (<[seq:=o]> (w_objects w)) (w_floor w) (w_index w) (w_aim w)) _ Hc _ _);
      [|apply index_insert_floor, Hw]. cbn.
    apply (insert_keeps _ _ _ seq (wok_holes _ Hc)); [| |by apply index_insert_resolved]; cbn.
    { rewrite dom_insert_L. by apply elem_of_union_l, elem_of_singleton. }
    intros x Hx Hlt. rewrite dom_insert_L, elem_of_union, elem_of_singleton in Hx.
    destruct Hx as [->|Hx]; [lia|by apply Hb].
  - destruct (wok_aim w Hw seq Ha) as [Hn Hb]. unfold fold_segment_footer, rest_get in Hfold.
    destruct (w_objects w !! seq) as [[payload m]|] eqn:Eo; [|done].
    destruct (decode_segment_footer _) as [[f|]| |]; [|done..]. injection Hfold as <-.
    apply watch_ok_settled; [done| |].
    + apply (insert_keeps _ _ _ seq (wok_holes w Hw)); [apply elem_of_dom; by eexists|done|].
      exact (resolved_insert (w_index w) seq (mkCached f m)).
    + exact (index_insert_floor (w_index w) now seq f m (wok_floor w Hw)).
  - pose proof (watch_ok_create w seq o Hw Hfree Hseq) as Hc.
    destruct (fold_below_keeps objects (w_floor w) now ttl seq (w_index w) (wok_packed _ Hc) (wok_holes _ Hc)
      (wok_floor _ Hc) Hok) as (Hk & Hfl & Hb).
    refine (watch_ok_index (mkWatch objects (w_floor w) (w_index w) (w_aim w)) _ Hc _ _); [|by apply index_insert_floor].
    eapply keeps_trans; [exact Hk|]. apply (insert_keeps _ _ _ seq (proj1 Hk)); [|done|by apply index_insert_resolved].
    unfold objects. rewrite dom_insert_L. by apply elem_of_union_l, elem_of_singleton.
  - apply watch_ok_index; [done|by apply prune_keeps; [apply Hw|]|].
    pose proof (wok_floor w Hw) as Hf. unfold floor_ok, index_prune, retain_segments in *.
    destruct (_ <? _)%nat; cbn; destruct (Index.seq_floor (w_index w)) as [[? ?]|]; cbn; lia || done.
  - apply watch_ok_index; [done|apply keeps_same; [apply Hw|done]|apply Hw].
  - split; cbn; [apply Hw|apply Hw| | |done|done]; intros x; cbn; set_solver.
Qed.

Lemma watch_ok_reach w : rtc watch watch_none w -> watch_ok w.
Proof.
  intros H. assert (H0 : watch_ok watch_none).
  { split; cbn; [lia| | | |done|done]; [intros k x _ _ Hx|intros x y Hy|intros x Hx];
      [by rewrite dom_empty_L in Hx|..]; set_solver. }
  revert H0. induction H as [|w1 w2 w3 H _ IH]; [done|]. intros Hw. by apply IH, (watch_ok_step w1).
Qed.


(** Peers create 0 and 1; the broker claims 2; the floor passes 0, which is deleted;
    a peer creates 3. *)
Definition sample_before : Watch :=
  mkWatch {[ 1 := (sample_payload, 0); 0 := (sample_payload, 0) ]} 0 Index.empty None.

Definition sample_folded : PrefixIndex := (tail_next_seq_folded (Ok 0) (w_refresh true 100 5 sample_before).1).2.

Definition sample_after : Watch :=
  mkWatch (delete 0 (<[2 := (sample_payload, 0)]> (w_objects sample_before))) 1
    (index_insert sample_folded 101 2 sample_footer 0) None.

Definition sample_watch : Watch :=
  mkWatch (<[3 := (sample_payload, 0)]> (w_objects sample_after)) 1 (w_index sample_after) None.

Lemma sample_before_reached : rtc watch watch_none sample_before.
Proof.
  eapply rtc_l; [apply (watch_peer _ 0 (sample_payload, 0)); [reflexivity|by vm_compute]|].
  apply rtc_once. refine (watch_peer (mkWatch {[0 := (sample_payload, 0)]} 0 Index.empty None) 1 (sample_payload, 0) _ _);
    [reflexivity|by vm_compute].
Qed.

Lemma sample_watch_reached : rtc watch watch_none sample_watch.
Proof.
  transitivity sample_before; [exact sample_before_reached|].
  eapply rtc_l; [apply (watch_aim sample_before 100 5 (w_refresh true 100 5 sample_before).1 2 sample_folded)|].
  { apply pair_fst. vm_compute. reflexivity. }
  { unfold sample_folded. change (w_floor sample_before) with 0. apply pair_snd. vm_compute. reflexivity. }
  eapply rtc_l; [apply (watch_put _ 2 (sample_payload, 0) 101 sample_footer 0)|].
  { reflexivity. }
  { vm_compute. reflexivity. }
  { vm_compute. discriminate. }
  eapply rtc_l; [apply (watch_floor _ 1); vm_compute; discriminate|].
  eapply rtc_l; [apply (watch_delete _ 0); vm_compute; reflexivity|].
  apply rtc_once. refine (watch_peer sample_after 3 (sample_payload, 0) _ _); [vm_compute; reflexivity|].
  vm_compute. split; discriminate.
Qed.

