(* ===== verification/Flush.v ===== *)
(** * Flush: the leaseless segment flush

    [flush_prefix_coalesced_leaseless], [leaseless_base],
    [finalize_prefix_flush_leaseless] and the admission triggers of
    [tansu-storage/src/dynostore/coalesce.rs], with [resolve_segment_create] and
    [seed_era_epoch] of [dynostore/segments.rs].

    A parked produce is a [PrefixPending] without its reply channel: what the
    channel is sent is the [outcomes] list, by position.  What the store and the
    clock answer during one attempt is a [Attempt] record; the mutexes of the
    caches are not modelled, so the errors a poisoned lock would raise are
    absent. *)

From S2P Require Export Refresh Ordered.

(** ** Topic partitions, in order *)

Module Topition.
Record Topition := mk { topic : bytes; partition : Z }.
End Topition.
Export Topition (Topition).

#[export] Instance topition_eq_dec : EqDecision Topition.
Proof. solve_decision. Defined.
#[export] Instance topition_countable : Countable Topition.
Proof.
  apply (inj_countable' (fun t => (Topition.topic t, Topition.partition t))
           (fun p => Topition.mk p.1 p.2)).
  by intros [].
Defined.

Definition topition_cmp (a b : Topition) : comparison :=
  match bytes_cmp (Topition.topic a) (Topition.topic b) with
  | Eq => Z.compare (Topition.partition a) (Topition.partition b)
  | c => c
  end.

Module Pending.
Record PrefixPending := mk {
  topition : Topition;
  substream : Substream;
  batch : Deflated.Batch;
}.
End Pending.
Export Pending (PrefixPending).

(** [grouped.entry(topition).or_default().push(index)] on a [BTreeMap]. *)
Fixpoint group_push (t : Topition) (index : nat) (g : list (Topition * list nat))
    : list (Topition * list nat) :=
  match g with
  | [] => [(t, [index])]
  | (t', indices) :: g' =>
      match topition_cmp t t' with
      | Eq => (t', indices ++ [index]) :: g'
      | Lt => (t, [index]) :: g
      | Gt => (t', indices) :: group_push t index g'
      end
  end.

Fixpoint group_from (index : nat) (pending : list PrefixPending) (g : list (Topition * list nat))
    : list (Topition * list nat) :=
  match pending with
  | [] => g
  | p :: pending => group_from (S index) pending (group_push (Pending.topition p) index g)
  end.

Definition grouped (pending : list PrefixPending) : list (Topition * list nat) :=
  group_from 0 pending [].

(** ** Bases and outcomes *)

(** [persisted_high(..).await.unwrap_or(0)]: a read that fails counts as no
    floor. *)
Definition leaseless_base (ix : PrefixIndex) (s : Substream) (t : Topition) (cached : option Z)
    (persisted_high : result Z) : Z :=
  let segment_tail := default 0 (substream_tail ix s (Topition.partition t)) in
  let cached := default 0 cached in
  let floor := match persisted_high with Ok high => high | _ => 0 end in
  Z.max (Z.max segment_tail cached) floor.

Definition OutOfOrderSequenceNumber : Z := 45.
Definition KafkaStorageError : Z := 56.
Definition ProducerFenced : Z := 90.
Definition UnknownServerError : Z := -1.

(** The state of one topition's loop: the running offset, the working tails, the
    outcomes so far and the admitted batches. *)
Record Assign := mkAssign {
  running : Z;
  tails : gmap Z ProducerTail;
  outs : list (result Z);
  admitted : list Deflated.Batch;
}.

Definition accept (s : Assign) (index : nat) (b : Deflated.Batch) (tails : gmap Z ProducerTail)
    : Assign :=
  mkAssign (running s + (Deflated.last_offset_delta b + 1)) tails
    (<[index := Ok (running s)]> (outs s)) (admitted s ++ [b]).

Definition reply (s : Assign) (index : nat) (o : result Z) (tails : gmap Z ProducerTail) : Assign :=
  mkAssign (running s) tails (<[index := o]> (outs s)) (admitted s).

Definition assign_batch (folded : Z -> ProducerTail) (pending : list PrefixPending) (s : Assign)
    (index : nat) : Assign :=
  match pending !! index with
  | None => s
  | Some p =>
      let b := Pending.batch p in
      if Deflated.is_idempotent b then
        let id := Deflated.producer_id b in
        let tail := default (folded id) (tails s !! id) in
        match Tail.classify tail (Deflated.producer_epoch b) (Deflated.base_sequence b) with
        | Admit =>
            let last_seq := wrap_s 32 (Deflated.base_sequence b + Deflated.last_offset_delta b) in
            accept s index b
              (<[id := Tail.fold tail (Deflated.producer_epoch b) (Deflated.base_sequence b)
                         last_seq (running s)]> (tails s))
        | Duplicate offset => reply s index (Ok offset) (<[id := tail]> (tails s))
        | OutOfOrder => reply s index (Err (Api OutOfOrderSequenceNumber)) (<[id := tail]> (tails s))
        | Fenced => reply s index (Err (Api ProducerFenced)) (<[id := tail]> (tails s))
        end
      else accept s index b (tails s)
  end.

Definition assign_group (folded : Z -> ProducerTail) (pending : list PrefixPending) (base : Z)
    (outs : list (result Z)) (indices : list nat) : Assign :=
  fold_left (assign_batch folded pending) indices (mkAssign base ∅ outs []).

Record Plan := mkPlan {
  substreams : list SubstreamWrite;
  outcomes : list (result Z);
  advances : list (Topition * Z);
}.

(** One topition of the attempt. *)
Definition plan_group (ix : PrefixIndex) (cached : Topition -> option Z)
    (persisted_high : Topition -> result Z) (pending : list PrefixPending) (pl : Plan)
    (group : Topition * list nat) : Plan :=
  let '(t, indices) := group in
  match head indices ≫= fun index => pending !! index with
  | None => pl
  | Some p =>
      let s := Pending.substream p in
      let base := leaseless_base ix s t (cached t) (persisted_high t) in
      let a := assign_group (producer_tail ix s (Topition.partition t)) pending base
                 (outcomes pl) indices in
      match admitted a with
      | [] => mkPlan (substreams pl) (outs a) (advances pl)
      | _ =>
          mkPlan (substreams pl ++ [SWrite.mk (Topition.topic t) (Topition.partition t) s base (admitted a)])
            (outs a) (advances pl ++ [(t, running a)])
      end
  end.

Definition plan (ix : PrefixIndex) (cached : Topition -> option Z)
    (persisted_high : Topition -> result Z) (pending : list PrefixPending) : Plan :=
  fold_left (plan_group ix cached persisted_high pending) (grouped pending)
    (mkPlan [] (replicate (length pending) (Ok 0)) []).

(** ** The create *)

Inductive PutResult :=
  | PutOk
  | AlreadyExists
  | PutError (e : error).

Inductive SegmentCreate :=
  | Won
  | Lost (ambiguous : bool)
  | Failed (e : error).

(** [probe] is the footer read at the candidate, made only when the PUT was
    ambiguous. *)
Definition resolve_segment_create (nonce_ : Z) (put : PutResult)
    (probe : result (option SegmentFooter)) : SegmentCreate :=
  match put with
  | PutOk => Won
  | AlreadyExists => Lost false
  | PutError e =>
      match probe with
      | Ok (Some found) => if nonce found =? nonce_ then Won else Lost true
      | _ => Failed e
      end
  end.

(** ** The era *)

Definition max_footer_epoch (ix : PrefixIndex) : Z :=
  default 0 (max_key (map (fun kv => writer_epoch (footer kv.2)) (map_to_list (Index.segments ix)))).

(** [get] reads [era.json], [lease] the lease's epoch, [again] re-reads the era
    after a lost create. *)
Definition seed_era_epoch (cached : option Z) (get lease : result Z) (create : PutResult)
    (again : result Z) (ix : PrefixIndex) : result Z :=
  match cached with
  | Some era => Ok era
  | None =>
      match get with
      | Err NotFound =>
          let! lease := lease in
          let era := Z.max lease (max_footer_epoch ix) + 1 in
          match create with
          | PutOk => Ok era
          | AlreadyExists => again
          | PutError e => Err e
          end
      | r => r
      end
  end.

(** ** The flush loop *)

Definition MAX_ATTEMPTS : nat := 64.
Definition MIN_FLUSH_ATTEMPTS : nat := 3.

(** What this process keeps between flushes. *)
Record Broker := mkBroker {
  broker_index : PrefixIndex;
  broker_highs : gmap Topition Z;
  broker_seq : option Z;
}.

(** What the store and the clock answer during one attempt: the time at the
    guard and the attempt's length, the over-read of the segment a peer won, the
    forced refresh, the floor, the era, the persisted watermarks, the PUT and
    the footer probe after it, and the time of the final insert. *)
Record Attempt := mkAttempt {
  elapsed : Z;
  took : Z;
  att_get : Z -> result (bytes * Z);
  att_refresh : PrefixIndex -> PrefixIndex * result unit;
  att_floor : result Z;
  att_era : PrefixIndex -> result Z;
  att_high : Topition -> result Z;
  att_put : PutResult;
  att_probe : result (option SegmentFooter);
  att_now : Z;
}.

Inductive FlushEnd :=
  | Wrote (seq : Z) (payload : bytes) (f : SegmentFooter) (acks : list (result Z))
  | NoWrite (acks : list (result Z))
  | Refused (e : error).

(** [set_high], [set_seq]: hints that only rise. *)
Definition set_high (highs : gmap Topition Z) (t : Topition) (high : Z) : gmap Topition Z :=
  <[t := Z.max (default 0 (highs !! t)) high]> highs.

Definition set_seq (seq : option Z) (next : Z) : option Z := Some (Z.max (default 0 seq) next).

(** [finalize_prefix_flush_leaseless], the acks apart. *)
Definition finalize (br : Broker) (now seq : Z) (f : SegmentFooter) (advances : list (Topition * Z))
    : Broker :=
  mkBroker (index_insert (broker_index br) now seq f now)
    (fold_left (fun h a => set_high h a.1 a.2) advances (broker_highs br))
    (set_seq (broker_seq br) (seq + 1)).

Definition set_index (br : Broker) (ix : PrefixIndex) : Broker :=
  mkBroker ix (broker_highs br) (broker_seq br).

(** The fold an attempt starts with: the winner's footer when the last attempt
    lost, else (or when that fold does not land) the forced refresh. *)
Definition attempt_fold (att : Attempt) (won_by_peer : option Z) (ix : PrefixIndex)
    : PrefixIndex * result unit :=
  match won_by_peer ≫= fold_segment_footer (att_get att) (att_now att) ix with
  | Some ix => (ix, Ok tt)
  | None => att_refresh att ix
  end.

(** What is to be put, or what ends the attempt before the PUT. *)
Inductive Prepared :=
  | Ready (candidate : Z) (payload : bytes) (f : SegmentFooter) (pl : Plan)
  | Nothing (acks : list (result Z))
  | Broken (e : error).

Definition of_result {A} (r : result A) (k : A -> Prepared) : Prepared :=
  match r with Ok a => k a | Err e => Broken e | Panic _ => Broken (Message "panic") end.

Definition prepare (att : Attempt) (won_by_peer : option Z) (nonce_ version : Z)
    (pending : list PrefixPending) (br : Broker) : PrefixIndex * Prepared :=
  match attempt_fold att won_by_peer (broker_index br) with
  | (ix, Err e) => (ix, Broken e)
  | (ix, Panic _) => (ix, Broken (Message "panic"))
  | (ix, Ok _) =>
      let '(candidate, ix) := tail_next_seq_folded (att_floor att) ix in
      (ix, of_result candidate (fun candidate =>
           of_result (att_era att ix) (fun era =>
           let pl := plan ix (fun t => broker_highs br !! t) (att_high att) pending in
           match substreams pl with
           | [] => Nothing (outcomes pl)
           | _ =>
               of_result (encode_segment_indexed (substreams pl) era nonce_ version)
                 (fun '(payload, f) => Ready candidate payload f pl)
           end)))
  end.

(** Whether the clock ends the loop before attempt [made]. *)
Definition budget_spent (made : nat) (max_elapsed slowest : Z) (att : Attempt) : bool :=
  (MIN_FLUSH_ATTEMPTS <=? made)%nat
  && ((max_elapsed <=? elapsed att) || (max_elapsed <? elapsed att + slowest)).

Fixpoint flush_loop (n made : nat) (attempts : nat -> Attempt) (slowest : Z)
    (won_by_peer : option Z) (nonce_ version max_elapsed : Z) (pending : list PrefixPending)
    (br : Broker) : Broker * FlushEnd :=
  match n with
  | O => (br, Refused (Api KafkaStorageError))
  | S n =>
      let att := attempts made in
      if budget_spent made max_elapsed slowest att then (br, Refused (Api KafkaStorageError))
      else
      match prepare att won_by_peer nonce_ version pending br with
      | (ix, Broken e) => (set_index br ix, Refused e)
      | (ix, Nothing acks) => (set_index br ix, NoWrite acks)
      | (ix, Ready candidate payload f pl) =>
          let br := set_index br ix in
          match resolve_segment_create nonce_ (att_put att) (att_probe att) with
          | Won => (finalize br (att_now att) candidate f (advances pl),
                    Wrote candidate payload f (outcomes pl))
          | Lost _ =>
              flush_loop n (S made) attempts (Z.max slowest (took att)) (Some candidate) nonce_
                version max_elapsed pending br
          | Failed e => (br, Refused e)
          end
      end
  end.

Definition flush_prefix_coalesced_leaseless (attempts : nat -> Attempt)
    (nonce_ version max_elapsed : Z) (pending : list PrefixPending) (br : Broker)
    : Broker * FlushEnd :=
  flush_loop MAX_ATTEMPTS 0 attempts 0 None nonce_ version max_elapsed pending br.

Definition flush_prefix_coalesced (attempts : nat -> Attempt) (nonce_ version max_elapsed : Z)
    (pending : list PrefixPending) (br : Broker) : Broker * FlushEnd :=
  match pending with
  | [] => (br, NoWrite [])
  | _ => flush_prefix_coalesced_leaseless attempts nonce_ version max_elapsed pending br
  end.

(** [ack_leaseless_outcomes] and [fail_prefix_flush]: what each parked produce is
    sent. *)
Definition acks_of (pending : list PrefixPending) (end_ : FlushEnd) : list (result Z) :=
  match end_ with
  | Wrote _ _ _ acks | NoWrite acks =>
      imap (fun index _ => default (Err (Api UnknownServerError)) (acks !! index)) pending
  | Refused e => map (fun _ => Err e) pending
  end.

(** ** Admission *)

Definition COALESCE_MAX_RECORDS : Z := 100000.
Definition BACKFILL_COALESCE_BYTES : Z := Z.shiftl 32 20.
Definition PREFIX_BACKFILL_MIN_RECORDS : Z := 1000.
Definition FLUSH_QUEUE_DEPTH : Z := 1.

Definition flush_thresholds (coalesce_batches coalesce_bytes : Z) (backfill : bool) : Z * Z :=
  if backfill then
    (Z.max coalesce_batches COALESCE_MAX_RECORDS, Z.max coalesce_bytes BACKFILL_COALESCE_BYTES)
  else (coalesce_batches, coalesce_bytes).

Module Buffer.
Record PrefixCoalesceBuffer := mk {
  pending : list PrefixPending;
  records : Z;
  bytes_ : Z;
  backfill : bool;
  window : Z;
}.
Definition empty : PrefixCoalesceBuffer := mk [] 0 0 false 0.
End Buffer.
Export Buffer (PrefixCoalesceBuffer).

Inductive Action :=
  | Closed (b : PrefixCoalesceBuffer)
  | StartTimer (window : Z)
  | Wait.

(** The critical section of [admit_prefix_coalesced]: the buffer after, and what
    the admitting task does.  [next_window] is the number drawn when the batch
    opens a window. *)
Definition admit_batch (coalesce_batches coalesce_bytes next_window : Z)
    (buffer : PrefixCoalesceBuffer) (p : PrefixPending) : PrefixCoalesceBuffer * Action :=
  let b := Pending.batch p in
  let span := Deflated.last_offset_delta b + 1 in
  let size := 8 + 4 + Z.max (Deflated.batch_length b) 0 in
  let first := bool_decide (Buffer.pending buffer = []) in
  let buffer :=
    Buffer.mk (Buffer.pending buffer ++ [p]) (Buffer.records buffer + span)
      (Buffer.bytes_ buffer + size)
      (Buffer.backfill buffer || (PREFIX_BACKFILL_MIN_RECORDS <=? span))
      (if first then next_window else Buffer.window buffer) in
  let '(batches_threshold, bytes_threshold) :=
    flush_thresholds coalesce_batches coalesce_bytes (Buffer.backfill buffer) in
  if (batches_threshold <=? Z.of_nat (length (Buffer.pending buffer)))
     || (bytes_threshold <=? Buffer.bytes_ buffer)
     || (COALESCE_MAX_RECORDS <=? Buffer.records buffer)
     || Deflated.is_control b
  then (Buffer.empty, Closed buffer)
  else if first then (buffer, StartTimer (Buffer.window buffer))
  else (buffer, Wait).

(** The linger timer of [window]: the buffer it takes, if it is still the one the
    timer was started for. *)
Definition fire_timer (window : Z) (buffer : PrefixCoalesceBuffer)
    : PrefixCoalesceBuffer * option PrefixCoalesceBuffer :=
  if (Buffer.window buffer =? window) && negb (bool_decide (Buffer.pending buffer = []))
  then (Buffer.empty, Some buffer) else (buffer, None).

(** ** Groups *)

Lemma topition_cmp_eq a b : topition_cmp a b = Eq <-> a = b.
Proof.
  destruct a as [t p], b as [t' p']. unfold topition_cmp. cbn.
  destruct (bytes_cmp t t') eqn:E.
  - apply bytes_cmp_eq in E as ->. rewrite Z.compare_eq_iff. split; [by intros ->|by intros [= ->]].
  - split; [done|]. intros [= -> _]. assert (bytes_cmp t' t' = Eq) by (by apply bytes_cmp_eq). congruence.
  - split; [done|]. intros [= -> _]. assert (bytes_cmp t' t' = Eq) by (by apply bytes_cmp_eq). congruence.
Qed.

Definition topition_lt (a b : Topition) : Prop := topition_cmp a b = Lt.

Lemma topition_cmp_gt a b : topition_cmp a b = Gt -> topition_lt b a.
Proof.
  unfold topition_lt, topition_cmp. rewrite (bytes_cmp_sym (Topition.topic a)).
  destruct (bytes_cmp _ _); cbn; try done. rewrite (Z.compare_antisym (Topition.partition a)).
  by intros ->.
Qed.

#[export] Instance topition_lt_trans : Transitive topition_lt.
Proof.
  intros [t p] [t' p'] [t'' p'']. unfold topition_lt, topition_cmp. cbn.
  destruct (bytes_cmp t t') eqn:E1, (bytes_cmp t' t'') eqn:E2; try done.
  - apply bytes_cmp_eq in E1 as ->. rewrite E2. rewrite !Z.compare_lt_iff. lia.
  - apply bytes_cmp_eq in E1 as ->. by rewrite E2.
  - apply bytes_cmp_eq in E2 as ->. by rewrite E1.
  - by rewrite (bytes_cmp_trans _ _ _ E1 E2).
Qed.

Definition flat (g : list (Topition * list nat)) : list nat := flat_map snd g.

Abbreviation keys_sorted g := (StronglySorted topition_lt g.*1).

Lemma group_push_keys t i g x : x ∈ (group_push t i g).*1 <-> x = t \/ x ∈ g.*1.
Proof.
  induction g as [|[t' is'] g IH]; cbn; [set_solver|].
  destruct (topition_cmp t t') eqn:E; cbn; [apply topition_cmp_eq in E as ->; set_solver|set_solver|].
  rewrite !elem_of_cons, IH. naive_solver.
Qed.

Lemma group_push_sorted t i g : keys_sorted g -> keys_sorted (group_push t i g).
Proof.
  induction g as [|[t' is'] g IH]; intros H; cbn; [repeat constructor|].
  inversion H as [|? ? Hs Hall]; subst. cbn in Hs, Hall.
  destruct (topition_cmp t t') eqn:E; cbn; [done| |].
  - constructor; [done|]. constructor; [done|]. eapply Forall_impl; [exact Hall|].
    cbn. intros x Hx. by transitivity t'.
  - constructor; [by apply IH|]. apply Forall_forall. intros x [->|Hx]%group_push_keys.
    + by apply topition_cmp_gt.
    + rewrite Forall_forall in Hall. by apply Hall.
Qed.

Lemma group_push_flat t i g : flat (group_push t i g) ≡ₚ i :: flat g.
Proof.
  induction g as [|[t' is'] g IH]; cbn; [done|].
  destruct (topition_cmp t t'); cbn; [|done|].
  - rewrite <- app_assoc. cbn. symmetry. apply Permutation_middle.
  - rewrite IH. symmetry. apply Permutation_middle.
Qed.

(** Every group holds pending batches of its topition and is not empty. *)
Definition group_ok (pending : list PrefixPending) (tg : Topition * list nat) : Prop :=
  tg.2 <> [] /\
  Forall (fun i => exists p, pending !! i = Some p /\ Pending.topition p = tg.1) tg.2.

Lemma group_push_ok pending p i g :
  pending !! i = Some p -> Forall (group_ok pending) g ->
  Forall (group_ok pending) (group_push (Pending.topition p) i g).
Proof.
  intros Hp. assert (Hnew : group_ok pending (Pending.topition p, [i])).
  { split; [done|]. repeat constructor. by exists p. }
  induction 1 as [|[t' is'] g Hg Hrest IH]; cbn; [by apply Forall_singleton|].
  destruct (topition_cmp _ t') eqn:E; [|by constructor; [|constructor]|by constructor].
  apply topition_cmp_eq in E as <-. constructor; [|done]. destruct Hg as [_ Hg]. split.
  - cbn. by destruct is'.
  - cbn. apply Forall_app. split; [done|]. repeat constructor. by exists p.
Qed.

Lemma grouped_spec pending :
  keys_sorted (grouped pending) /\ flat (grouped pending) ≡ₚ seq 0 (length pending) /\
  Forall (group_ok pending) (grouped pending).
Proof.
  unfold grouped.
  assert (H : forall rest done_ g, pending = done_ ++ rest -> keys_sorted g ->
    flat g ≡ₚ seq 0 (length done_) -> Forall (group_ok pending) g ->
    let g' := group_from (length done_) rest g in
    keys_sorted g' /\ flat g' ≡ₚ seq 0 (length pending) /\ Forall (group_ok pending) g').
  { induction rest as [|p rest IH]; intros done_ g Heq Hs Hf Hg; cbn.
    - rewrite app_nil_r in Heq. by subst.
    - specialize (IH (done_ ++ [p]) (group_push (Pending.topition p) (length done_) g)).
      rewrite length_app, Nat.add_1_r in IH. apply IH.
      + by rewrite <- app_assoc.
      + by apply group_push_sorted.
      + rewrite group_push_flat, Hf, seq_S. cbn. by rewrite Permutation_app_comm.
      + apply group_push_ok; [|done]. rewrite Heq. by apply list_lookup_middle. }
  apply (H pending []); [done|constructor|done|constructor].
Qed.

Lemma filter_none {A} (P : A -> Prop) `{!forall x, Decision (P x)} l :
  Forall (fun x => ~ P x) l -> filter P l = [].
Proof. induction 1 as [|x l Hx _ IH]; [done|]. by rewrite filter_cons, decide_False. Qed.

Lemma filter_all {A} (P : A -> Prop) `{!forall x, Decision (P x)} l :
  Forall P l -> filter P l = l.
Proof. induction 1 as [|x l Hx _ IH]; [done|]. by rewrite filter_cons, decide_True, IH. Qed.

(** A group's indices ascend. *)
Lemma group_push_ascending t i g :
  (forall j, j ∈ flat g -> (j < i)%nat) -> Forall (fun tg => StronglySorted lt tg.2) g ->
  Forall (fun tg => StronglySorted lt tg.2) (group_push t i g).
Proof.
  intros Hlt. induction 1 as [|[t' is'] g Hg Hrest IH]; cbn; [repeat constructor|].
  assert (Hlt' : forall j, j ∈ flat g -> (j < i)%nat) by (intros j Hj; apply Hlt, elem_of_app; by right).
  destruct (topition_cmp t t'); [|by repeat (constructor; cbn)|by constructor; [|apply IH]].
  constructor; [|done]. cbn in *. apply StronglySorted_app_2; [|done|repeat constructor].
  intros j k Hj Hk%list_elem_of_singleton. subst k. apply Hlt, elem_of_app. by left.
Qed.

Lemma grouped_ascending pending : Forall (fun tg => StronglySorted lt tg.2) (grouped pending).
Proof.
  unfold grouped.
  assert (H : forall rest n g, (forall j, j ∈ flat g -> (j < n)%nat) ->
    Forall (fun tg => StronglySorted lt tg.2) g -> Forall (fun tg => StronglySorted lt tg.2) (group_from n rest g)).
  { induction rest as [|p rest IH]; intros n g Hlt Hg; cbn; [done|]. apply IH; [|by apply group_push_ascending].
    intros j. rewrite group_push_flat, elem_of_cons. intros [->|Hj]; [lia|]. apply Hlt in Hj. lia. }
  apply H; [|constructor]. intros j Hj. by apply elem_of_nil in Hj.
Qed.

(** ** Assignment *)

(** What a batch that was not admitted is answered. *)
Definition answer (c : IdempotentClass) : result Z :=
  match c with
  | Admit => Ok 0
  | Duplicate offset => Ok offset
  | OutOfOrder => Err (Api OutOfOrderSequenceNumber)
  | Fenced => Err (Api ProducerFenced)
  end.

(** The tail of producer [id] once batch [i] was admitted at the offset it was
    answered with. *)
Definition fold_admitted (pending : list PrefixPending) (outs : list (result Z)) (id : Z)
    (tail : ProducerTail) (i : nat) : ProducerTail :=
  match pending !! i, outs !! i with
  | Some p, Some (Ok offset) =>
      let b := Pending.batch p in
      if Deflated.is_idempotent b && (Deflated.producer_id b =? id)
      then Tail.fold tail (Deflated.producer_epoch b) (Deflated.base_sequence b)
             (wrap_s 32 (Deflated.base_sequence b + Deflated.last_offset_delta b)) offset
      else tail
  | _, _ => tail
  end.

(** The tail the flush holds for a producer when it comes to batch [i]: what the
    index folds, and the batches of the group admitted before [i]. *)
Definition held_tail (folded : Z -> ProducerTail) (pending : list PrefixPending) (outs : list (result Z))
    (adm : list nat) (id : Z) (i : nat) : ProducerTail :=
  fold_left (fold_admitted pending outs id) (filter (fun j => (j < i)%nat) adm) (folded id).

(** A batch is admitted if it has no sequence to check, or if the tail held for its
    producer admits it; it is answered as that tail says otherwise. *)
Definition decided (folded : Z -> ProducerTail) (pending : list PrefixPending) (outs : list (result Z))
    (adm : list nat) (i : nat) : Prop :=
  exists p, pending !! i = Some p /\
    let b := Pending.batch p in
    if Deflated.is_idempotent b then
      let c := Tail.classify (held_tail folded pending outs adm (Deflated.producer_id b) i)
                 (Deflated.producer_epoch b) (Deflated.base_sequence b) in
      (i ∈ adm <-> c = Admit) /\ (c <> Admit -> outs !! i = Some (answer c))
    else i ∈ adm.

(** The batches [bs] of a region at [base] are those of the indices [adm], in
    order, each answered with the offset its first record takes; and every index
    is admitted or turned away as the tail held then decides. *)
Definition placed (folded : Z -> ProducerTail) (pending : list PrefixPending) (outs : list (result Z)) (base : Z)
    (indices adm : list nat) (bs : list Deflated.Batch) : Prop :=
  sublist adm indices /\
  Forall2 (fun i b => exists p, pending !! i = Some p /\ Pending.batch p = b) adm bs /\
  (forall k i, adm !! k = Some i -> outs !! i = Some (Ok (base + total_records (take k bs)))) /\
  (forall i, i ∈ indices -> decided folded pending outs adm i).

(** It looks only at the answers of the batches before it, and at its own. *)
Lemma held_tail_ext folded pending outs outs' adm id i :
  (forall j, j ∈ adm -> (j < i)%nat -> outs' !! j = outs !! j) ->
  held_tail folded pending outs' adm id i = held_tail folded pending outs adm id i.
Proof.
  intros H. unfold held_tail. generalize (folded id).
  assert (Hf : forall j, j ∈ filter (fun j => (j < i)%nat) adm -> outs' !! j = outs !! j).
  { intros j [Hlt Hj]%list_elem_of_filter. by apply H. }
  revert Hf. generalize (filter (fun j => (j < i)%nat) adm). intros l.
  induction l as [|j l IH]; intros Hf t; [done|]. cbn [fold_left].
  assert (E : fold_admitted pending outs' id t j = fold_admitted pending outs id t j).
  { unfold fold_admitted. by rewrite (Hf j) by (by left). }
  rewrite E. apply IH. intros k Hk. apply Hf. by right.
Qed.

Lemma decided_ext folded pending outs outs' adm i :
  outs' !! i = outs !! i -> (forall j, j ∈ adm -> (j < i)%nat -> outs' !! j = outs !! j) ->
  decided folded pending outs adm i -> decided folded pending outs' adm i.
Proof.
  intros Hi Hj (p & Hp & H). exists p. split; [done|]. cbn zeta in *.
  destruct (Deflated.is_idempotent _); [|done]. by rewrite (held_tail_ext _ _ _ _ _ _ _ Hj), Hi.
Qed.

(** A batch admitted after [i] makes no difference to [i]. *)
Lemma held_tail_later folded pending outs adm id i j :
  (i <= j)%nat -> held_tail folded pending outs (adm ++ [j]) id i = held_tail folded pending outs adm id i.
Proof.
  intros H. unfold held_tail. rewrite filter_app, (filter_none _ [j]) by (repeat constructor; lia).
  by rewrite app_nil_r.
Qed.

Lemma decided_later folded pending outs adm i j :
  (i < j)%nat -> decided folded pending outs adm i -> decided folded pending outs (adm ++ [j]) i.
Proof.
  intros H (p & Hp & Hd). exists p. split; [done|]. cbn zeta in *.
  assert (Hin : i ∈ adm ++ [j] <-> i ∈ adm) by (rewrite elem_of_app, list_elem_of_singleton; naive_solver lia).
  destruct (Deflated.is_idempotent _); [|by apply Hin]. rewrite held_tail_later by lia. by rewrite Hin.
Qed.

Lemma assign_batch_outs folded pending s i :
  length (outs (assign_batch folded pending s i)) = length (outs s) /\
  (forall j, j <> i -> outs (assign_batch folded pending s i) !! j = outs s !! j).
Proof.
  unfold assign_batch. destruct (pending !! i) as [p|]; [|done].
  destruct (Deflated.is_idempotent _); [destruct (Tail.classify _ _ _)|];
    cbn; rewrite length_insert; (split; [done|]; intros j Hj; by apply list_lookup_insert_ne).
Qed.

(** The tails an assignment has in hand. *)
Definition tails_held (folded : Z -> ProducerTail) (pending : list PrefixPending) (s : Assign) (adm : list nat) : Prop :=
  forall id, default (folded id) (tails s !! id) = fold_left (fold_admitted pending (outs s) id) adm (folded id).

(** An answer to [i] is no news to the batches before it. *)
Lemma fold_before pending outs id o i adm t :
  Forall (fun j => (j < i)%nat) adm ->
  fold_left (fold_admitted pending (<[i:=o]> outs) id) adm t = fold_left (fold_admitted pending outs id) adm t.
Proof.
  intros H. revert t. induction H as [|j adm Hj _ IH]; intros t; [done|]. cbn [fold_left].
  assert (E : fold_admitted pending (<[i:=o]> outs) id t j = fold_admitted pending outs id t j).
  { unfold fold_admitted. by rewrite list_lookup_insert_ne by lia. }
  by rewrite E.
Qed.

(** So the tail held for [i] is the one in hand. *)
Lemma held_in_hand folded pending s o i adm adm' id :
  Forall (fun j => (j < i)%nat) adm -> tails_held folded pending s adm -> adm' = adm \/ adm' = adm ++ [i] ->
  held_tail folded pending (<[i:=o]> (outs s)) adm' id i = default (folded id) (tails s !! id).
Proof.
  intros Hadm Ht Ha. rewrite Ht. destruct Ha as [->| ->]; [|rewrite held_tail_later by done];
    unfold held_tail; (rewrite filter_all by done); by apply fold_before.
Qed.

(** Turning a batch away moves no tail. *)
Lemma reply_held folded pending s i o id adm :
  Forall (fun j => (j < i)%nat) adm -> tails_held folded pending s adm ->
  tails_held folded pending (reply s i o (<[id := default (folded id) (tails s !! id)]> (tails s))) adm.
Proof.
  intros Hadm Ht id'. cbn. rewrite fold_before by done. rewrite <- Ht.
  destruct (decide (id = id')) as [->|Hne]; [by rewrite lookup_insert_eq|by rewrite lookup_insert_ne].
Qed.

(** Admitting one moves its producer's. *)
Lemma accept_held folded pending s i p adm tails' :
  pending !! i = Some p -> (i < length (outs s))%nat -> Forall (fun j => (j < i)%nat) adm ->
  tails_held folded pending s adm ->
  (forall id, default (folded id) (tails' !! id) =
     fold_admitted pending (<[i:=Ok (running s)]> (outs s)) id (default (folded id) (tails s !! id)) i) ->
  tails_held folded pending (accept s i (Pending.batch p) tails') (adm ++ [i]).
Proof.
  intros Hp Hi Hadm Ht Hnew id. cbn. rewrite fold_left_app. cbn. by rewrite fold_before, <- Ht by done.
Qed.

(** One batch is either appended at the running offset or turned away, as the tail
    in hand decides. *)
Lemma assign_batch_cases folded pending s i p adm :
  pending !! i = Some p -> (i < length (outs s))%nat -> Forall (fun j => (j < i)%nat) adm ->
  tails_held folded pending s adm ->
  let s' := assign_batch folded pending s i in
  let b := Pending.batch p in
  (admitted s' = admitted s ++ [b] /\ running s' = running s + (Deflated.last_offset_delta b + 1) /\
   outs s' !! i = Some (Ok (running s)) /\ tails_held folded pending s' (adm ++ [i]) /\
   decided folded pending (outs s') (adm ++ [i]) i) \/
  (admitted s' = admitted s /\ running s' = running s /\ tails_held folded pending s' adm /\
   decided folded pending (outs s') adm i).
Proof.
  intros Hp Hi Hadm Ht. cbn zeta. unfold assign_batch. rewrite Hp. set (b := Pending.batch p).
  assert (Hat : forall o, <[i:=o]> (outs s) !! i = Some o) by (intros o; by apply list_lookup_insert_eq).
  assert (Hin : i ∈ adm ++ [i]) by (apply elem_of_app; right; by left).
  assert (Hni : i ∉ adm) by (intros H; rewrite Forall_forall in Hadm; specialize (Hadm i H); lia).
  destruct (Deflated.is_idempotent b) eqn:Eid.
  - destruct (Tail.classify _ _ _) as [|off| |] eqn:Ec; [left|right..].
    + cbn [accept admitted running outs]. split_and!; [done|done|apply Hat| |].
      * apply accept_held; [done..|]. intros id. unfold fold_admitted. rewrite Hp, Hat. fold b. rewrite Eid. cbn [andb].
        destruct (Z.eqb_spec (Deflated.producer_id b) id) as [<-|Hne];
          [by rewrite lookup_insert_eq|by rewrite lookup_insert_ne].
      * exists p. split; [done|]. cbn zeta. fold b. rewrite Eid, (held_in_hand _ _ _ _ _ adm), Ec by (done || by right).
        done.
    + cbn [reply admitted running outs]. split_and!; [done|done|by apply reply_held|]. exists p. split; [done|].
      cbn zeta. fold b. rewrite Eid, (held_in_hand _ _ _ _ _ adm), Ec, Hat by (done || by left). done.
    + cbn [reply admitted running outs]. split_and!; [done|done|by apply reply_held|]. exists p. split; [done|].
      cbn zeta. fold b. rewrite Eid, (held_in_hand _ _ _ _ _ adm), Ec, Hat by (done || by left). done.
    + cbn [reply admitted running outs]. split_and!; [done|done|by apply reply_held|]. exists p. split; [done|].
      cbn zeta. fold b. rewrite Eid, (held_in_hand _ _ _ _ _ adm), Ec, Hat by (done || by left). done.
  - left. cbn [accept admitted running outs]. split_and!; [done|done|apply Hat| |].
    + apply accept_held; [done..|]. intros id. unfold fold_admitted. rewrite Hp, Hat. fold b. by rewrite Eid.
    + exists p. split; [done|]. cbn zeta. fold b. by rewrite Eid.
Qed.

Lemma take_snoc_le {A} k (l : list A) x : (k <= length l)%nat -> take k (l ++ [x]) = take k l.
Proof. intros. by rewrite take_app_le. Qed.

Lemma assign_group_spec folded pending base outs0 indices :
  StronglySorted lt indices ->
  Forall (fun i => (i < length outs0)%nat /\ is_Some (pending !! i)) indices ->
  let a := assign_group folded pending base outs0 indices in
  length (outs a) = length outs0 /\ running a = base + total_records (admitted a) /\
  (forall i, i ∉ indices -> outs a !! i = outs0 !! i) /\
  exists adm, tails_held folded pending a adm /\ placed folded pending (outs a) base indices adm (admitted a).
Proof.
  intros Hnd Hin. cbn zeta. unfold assign_group.
  induction indices as [|i indices IH] using rev_ind.
  { cbn. split_and!; [done|lia|done|]. exists []. split; [done|].
    split_and!; [constructor|constructor|done|]. intros i Hi. by apply elem_of_nil in Hi. }
  apply StronglySorted_app in Hnd as (Hlt & Hnd & _). apply Forall_app in Hin as [Hin [Hi _]%Forall_cons].
  specialize (IH Hnd Hin). rewrite fold_left_app. cbn [fold_left].
  set (s := fold_left _ indices _) in *. destruct IH as (Hlen & Hrun & Hout & adm & Ht & Hsub & Hbs & Hat & Htw).
  assert (Hless : forall j, j ∈ indices -> (j < i)%nat) by (intros j Hj; apply Hlt; [done|by left]).
  destruct (assign_batch_outs folded pending s i) as [Hlen' Hsame].
  assert (Hadm : forall j, j ∈ adm -> (j < i)%nat) by (intros j Hj; by eapply Hless, elem_of_sublist).
  destruct Hi as [Hi [p Hp]]. rewrite <- Hlen in Hi.
  assert (Htw' : forall j, j ∈ indices -> decided folded pending (outs (assign_batch folded pending s i)) adm j).
  { intros j Hj. apply Hless in Hj as Hji. eapply decided_ext; [|intros k Hk Hkj|by apply Htw]; apply Hsame; lia. }
  assert (Hout' : forall j, j ∉ indices ++ [i] -> outs (assign_batch folded pending s i) !! j = outs0 !! j).
  { intros j Hj. rewrite elem_of_app, list_elem_of_singleton in Hj. rewrite Hsame by tauto. apply Hout. tauto. }
  split; [lia|]. destruct (assign_batch_cases folded pending s i p adm Hp Hi (proj2 (Forall_forall _ _) Hadm) Ht)
    as [(Ha & Hr & Ho & Ht' & Hd)|(Ha & Hr & Ht' & Hd)]; rewrite Ha, Hr.
  - split; [rewrite Hrun, total_records_app; cbn; lia|]. split; [done|].
    exists (adm ++ [i]). split; [done|]. split_and!.
    + by apply sublist_app.
    + apply Forall2_app; [done|]. repeat constructor. by exists p.
    + apply Forall2_length in Hbs. intros k j Hk. apply lookup_app_Some in Hk as [Hk|[Hk1 Hk2]].
      * apply list_elem_of_lookup_2 in Hk as Hj. apply Hadm in Hj. rewrite Hsame by lia.
        apply lookup_lt_Some in Hk as Hk'. rewrite take_snoc_le by lia. by apply Hat.
      * apply list_lookup_singleton_Some in Hk2 as [Hk0 <-]. rewrite Ho, Hrun.
        rewrite take_app_length' by lia. done.
    + intros j [Hj|Hj]%elem_of_app; [by apply decided_later; auto|].
      apply list_elem_of_singleton in Hj as ->. done.
  - split; [done|]. split; [done|]. exists adm. split; [done|]. split_and!.
    + etransitivity; [exact Hsub|]. by apply sublist_inserts_r.
    + done.
    + intros k j Hk. apply list_elem_of_lookup_2 in Hk as Hj. apply Hadm in Hj. rewrite Hsame by lia. by apply Hat.
    + intros j [Hj|Hj]%elem_of_app; [by apply Htw'|]. apply list_elem_of_singleton in Hj as ->. done.
Qed.

Lemma placed_ext folded pending outs outs' base indices adm bs :
  (forall i, i ∈ indices -> outs' !! i = outs !! i) ->
  placed folded pending outs base indices adm bs -> placed folded pending outs' base indices adm bs.
Proof.
  intros Hext (Hsub & Hbs & Hat & Htw).
  assert (Hadm : forall j, j ∈ adm -> outs' !! j = outs !! j) by (intros j Hj; by eapply Hext, elem_of_sublist).
  split_and!; [done|done| |].
  - intros k i Hk. rewrite Hadm by (by eapply list_elem_of_lookup_2). by apply Hat.
  - intros i Hi. eapply decided_ext; [by apply Hext| |by apply Htw]. intros j Hj _. by apply Hadm.
Qed.

Section plan.
Context (ix : PrefixIndex) (cached : Topition -> option Z) (high : Topition -> result Z).
Context (pending : list PrefixPending).

(** The region a group is given. *)
Definition group_base (t : Topition) (p : PrefixPending) : Z :=
  leaseless_base ix (Pending.substream p) t (cached t) (high t).

(** The tails the index folds for it. *)
Definition group_folded (t : Topition) (p : PrefixPending) : Z -> ProducerTail :=
  producer_tail ix (Pending.substream p) (Topition.partition t).

Definition group_write (t : Topition) (p : PrefixPending) (bs : list Deflated.Batch) : SubstreamWrite :=
  SWrite.mk (Topition.topic t) (Topition.partition t) (Pending.substream p) (group_base t p) bs.

(** What the plan settled for one group. *)
Definition group_planned (pl : Plan) (tg : Topition * list nat) : Prop :=
  exists p adm bs, (head tg.2 ≫= fun i => pending !! i) = Some p /\
    placed (group_folded tg.1 p) pending (outcomes pl) (group_base tg.1 p) tg.2 adm bs /\
    (bs = [] \/ group_write tg.1 p bs ∈ substreams pl /\
                (tg.1, group_base tg.1 p + total_records bs) ∈ advances pl).

Definition write_key (w : SubstreamWrite) : Topition := Topition.mk (SWrite.topic w) (SWrite.partition w).

(** A write of the plan is the region of one of the groups. *)
Definition from_group (g : list (Topition * list nat)) (pl : Plan) (w : SubstreamWrite) : Prop :=
  exists tg p adm bs, tg ∈ g /\ (head tg.2 ≫= fun i => pending !! i) = Some p /\
    w = group_write tg.1 p bs /\ bs <> [] /\
    placed (group_folded tg.1 p) pending (outcomes pl) (group_base tg.1 p) tg.2 adm bs.

Lemma group_head tg : group_ok pending tg ->
  exists p, (head tg.2 ≫= fun i => pending !! i) = Some p /\ Pending.topition p = tg.1.
Proof.
  destruct tg as [t [|i is_]]; intros [Hne Hall]; [done|]. cbn in *.
  apply Forall_cons in Hall as [(p & Hp & Ht) _]. by exists p.
Qed.

Lemma plan_fold g :
  Forall (group_ok pending) g -> Forall (fun tg => StronglySorted lt tg.2) g -> NoDup (flat g) ->
  let pl := fold_left (plan_group ix cached high pending) g
              (mkPlan [] (replicate (length pending) (Ok 0)) []) in
  length (outcomes pl) = length pending /\ Forall (group_planned pl) g /\
  Forall (from_group g pl) (substreams pl) /\ sublist (map write_key (substreams pl)) g.*1.
Proof.
  intros Hok Hasc Hnd. cbn zeta. induction g as [|tg g IH] using rev_ind.
  { cbn. rewrite length_replicate. split_and!; constructor. }
  apply Forall_app in Hok as [Hok [Hg _]%Forall_cons]. apply Forall_app in Hasc as [Hasc [Hsg _]%Forall_cons].
  unfold flat in Hnd. rewrite flat_map_app in Hnd. cbn in Hnd. rewrite app_nil_r in Hnd.
  apply NoDup_app in Hnd as (Hnd & Hdisj & _).
  specialize (IH Hok Hasc Hnd). rewrite fold_left_app. cbn [fold_left].
  set (pl := fold_left _ g _) in *. destruct IH as (Hlen & Hpl & Hfrom & Hkeys).
  destruct (group_head tg Hg) as (p & Hhead & Htop). destruct tg as [t is_]. cbn [fst snd] in *.
  unfold plan_group. rewrite Hhead. fold (group_base t p) (group_folded t p).
  destruct (assign_group_spec (group_folded t p) pending (group_base t p) (outcomes pl) is_ Hsg)
    as (Hl & Hr & Hout & adm & _ & Hplaced).
  { apply Forall_forall. intros i Hi. destruct Hg as [_ Hg]. rewrite Forall_forall in Hg.
    destruct (Hg i Hi) as (q & Hq & _). split; [|by exists q]. apply lookup_lt_Some in Hq. lia. }
  set (a := assign_group _ _ _ _ _) in *.
  assert (Hsame : forall tg' i, tg' ∈ g -> i ∈ tg'.2 -> outs a !! i = outcomes pl !! i).
  { intros tg' i Htg Hi. apply Hout. intros Hi'. apply (Hdisj i); [|done].
    apply list_elem_of_In, in_flat_map. exists tg'. by rewrite <- !list_elem_of_In. }
  assert (Hnewg : forall ws ads,
    (admitted a = [] \/ group_write t p (admitted a) ∈ ws /\ (t, running a) ∈ ads) ->
    group_planned (mkPlan ws (outs a) ads) (t, is_)).
  { intros ws ads Hor. exists p, adm, (admitted a). cbn. rewrite <- Hr. done. }
  assert (Hold : forall ws ads, substreams pl ⊆ ws -> advances pl ⊆ ads ->
    Forall (group_planned (mkPlan ws (outs a) ads)) g).
  { intros ws ads Hws Hads. apply Forall_forall. intros tg' Htg. rewrite Forall_forall in Hpl.
    destruct (Hpl tg' Htg) as (q & adm' & bs & Hq & Hp' & Hor). exists q, adm', bs.
    split; [done|]. split; [eapply placed_ext; [|done]; intros; by eapply Hsame|].
    cbn. naive_solver. }
  assert (Hfold : forall ws ads w, from_group g pl w -> from_group (g ++ [(t, is_)]) (mkPlan ws (outs a) ads) w).
  { intros ws ads w (tg' & q & adm' & bs & Htg & Hq & Hw & Hne & Hp'). exists tg', q, adm', bs.
    split_and!; [set_solver|done|done|done|]. eapply placed_ext; [|done]. intros; by eapply Hsame. }
  rewrite fmap_app. cbn [fmap list_fmap fst].
  destruct (admitted a) as [|b0 bs0] eqn:Ead.
  - cbn [outcomes substreams]. split_and!; [lia| | |].
    + apply Forall_app. split; [by apply Hold|]. apply Forall_singleton, Hnewg. by left.
    + eapply Forall_impl; [exact Hfrom|]. intros. by apply Hfold.
    + by apply sublist_inserts_r.
  - rewrite <- Ead in *. fold (group_write t p (admitted a)). cbn [outcomes substreams].
    split_and!; [lia| | |].
    + apply Forall_app. split; [apply Hold; set_solver|]. apply Forall_singleton, Hnewg. right. set_solver.
    + apply Forall_app. split; [eapply Forall_impl; [exact Hfrom|]; intros; by apply Hfold|].
      apply Forall_singleton. exists (t, is_), p, adm, (admitted a). cbn.
      split_and!; [set_solver|done|done|by rewrite Ead|done].
    + rewrite map_app. cbn. apply sublist_app; [done|]. unfold write_key. cbn. by destruct t.
Qed.
End plan.

Lemma keys_sorted_NoDup (l : list Topition) : StronglySorted topition_lt l -> NoDup l.
Proof.
  induction 1 as [|t l Hl IH Hall]; [constructor|]. constructor; [|done].
  intros Hin. rewrite Forall_forall in Hall. specialize (Hall t Hin).
  unfold topition_lt in Hall. assert (topition_cmp t t = Eq) by (by apply topition_cmp_eq). congruence.
Qed.

Lemma plan_spec ix cached high pending :
  let pl := plan ix cached high pending in
  length (outcomes pl) = length pending /\
  Forall (group_planned ix cached high pending pl) (grouped pending) /\
  Forall (from_group ix cached high pending (grouped pending) pl) (substreams pl) /\
  NoDup (map write_key (substreams pl)).
Proof.
  cbn zeta. destruct (grouped_spec pending) as (Hs & Hflat & Hok).
  assert (Hnd : NoDup (flat (grouped pending))) by (rewrite Hflat; apply NoDup_seq).
  destruct (plan_fold ix cached high pending (grouped pending) Hok (grouped_ascending pending) Hnd) as (Hlen & Hpl & Hfrom & Hkeys).
  split_and!; [done|done|done|]. eapply sublist_NoDup; [|exact Hkeys]. by apply keys_sorted_NoDup.
Qed.

(** Every parked batch belongs to one group. *)
Lemma grouped_covers pending i p :
  pending !! i = Some p ->
  exists tg, tg ∈ grouped pending /\ i ∈ tg.2 /\ tg.1 = Pending.topition p.
Proof.
  intros Hp. destruct (grouped_spec pending) as (_ & Hflat & Hok).
  assert (Hi : i ∈ flat (grouped pending)).
  { rewrite Hflat. apply elem_of_seq. apply lookup_lt_Some in Hp. lia. }
  apply list_elem_of_In, in_flat_map in Hi as (tg & Htg & Hi). rewrite <- !list_elem_of_In in *.
  exists tg. split_and!; [done|done|]. rewrite Forall_forall in Hok.
  destruct (Hok tg Htg) as [_ Hall]. rewrite Forall_forall in Hall.
  destruct (Hall i Hi) as (q & Hq & Ht). congruence.
Qed.

(** The first batch parked for a topition: the flush names its substream by it. *)
Definition parked_first (pending : list PrefixPending) (t : Topition) (q : PrefixPending) : Prop :=
  exists i0, pending !! i0 = Some q /\ Pending.topition q = t /\
    forall j p, pending !! j = Some p -> Pending.topition p = t -> (i0 <= j)%nat.

(** [adm] are the batches of a topition a flush on the index [ix] admits: each of the
    topition's batches is decided by the tail [ix] folds for its producer, carried
    over those admitted before it. *)
Definition turns_out (ix : PrefixIndex) (pending : list PrefixPending) (acks : list (result Z)) (t : Topition)
    (adm : list nat) : Prop :=
  exists q, parked_first pending t q /\
    forall j p, pending !! j = Some p -> Pending.topition p = t -> decided (group_folded ix t q) pending acks adm j.

(** A topition's batches are all in its one group. *)
Lemma grouped_complete pending tg i p :
  tg ∈ grouped pending -> pending !! i = Some p -> Pending.topition p = tg.1 -> i ∈ tg.2.
Proof.
  intros Htg Hp Ht. destruct (grouped_covers pending i p Hp) as (tg' & Htg' & Hi & Ht').
  destruct (grouped_spec pending) as (Hs%keys_sorted_NoDup & _).
  apply list_elem_of_lookup in Htg as [a Ha], Htg' as [b Hb].
  assert (a = b) as ->; [|congruence].
  eapply (NoDup_lookup _ a b tg.1 Hs); rewrite list_lookup_fmap; [by rewrite Ha|].
  rewrite Hb. cbn. congruence.
Qed.

Lemma group_first pending tg q :
  tg ∈ grouped pending -> (head tg.2 ≫= fun i => pending !! i) = Some q -> parked_first pending tg.1 q.
Proof.
  intros Htg Hq. destruct (grouped_spec pending) as (_ & _ & Hok). rewrite Forall_forall in Hok.
  pose proof (grouped_ascending pending) as Hasc. rewrite Forall_forall in Hasc.
  destruct (group_head pending tg (Hok tg Htg)) as (q' & Hq' & Ht). rewrite Hq in Hq'. injection Hq' as <-.
  pose proof (grouped_complete pending tg) as Hall. specialize (Hasc tg Htg).
  destruct tg.2 as [|i0 is_] eqn:E; [done|]. exists i0. cbn in Hq. split_and!; [done|done|].
  intros j p Hp Hpt. specialize (Hall j p Htg Hp Hpt). inversion Hasc as [|? ? _ Hle]; subst.
  rewrite Forall_forall in Hle. apply elem_of_cons in Hall as [->|Hj]; [lia|]. specialize (Hle j Hj). lia.
Qed.

(** Every topition's batches are admitted to a region, at the offsets they are
    answered, or turned away. *)
Lemma plan_settles ix cached high pending i p :
  pending !! i = Some p ->
  let pl := plan ix cached high pending in
  exists adm, turns_out ix pending (outcomes pl) (Pending.topition p) adm /\
    (adm = [] \/ exists w, w ∈ substreams pl /\ write_key w = Pending.topition p /\
       length (SWrite.batches w) = length adm /\
       forall k j, adm !! k = Some j -> exists q, pending !! j = Some q /\
         SWrite.batches w !! k = Some (Pending.batch q) /\
         outcomes pl !! j = Some (Ok (SWrite.base_offset w + total_records (take k (SWrite.batches w))))).
Proof.
  intros Hp. cbn zeta. destruct (grouped_covers pending i p Hp) as (tg & Htg & Hi & Ht).
  destruct (plan_spec ix cached high pending) as (_ & Hpl & _). rewrite Forall_forall in Hpl.
  destruct (Hpl tg Htg) as (q & adm & bs & Hq & (Hsub & Hbs & Hat & Htw) & Hor).
  rewrite <- Ht. exists adm. split.
  { exists q. split; [by apply group_first|]. intros j pj Hj Hjt. apply Htw. by eapply grouped_complete. }
  destruct Hor as [->|[Hw _]]; [left; by apply Forall2_nil_inv_r in Hbs|right].
  eexists. split; [exact Hw|]. unfold write_key. cbn. split; [by destruct tg.1|].
  split; [symmetry; by eapply Forall2_length|]. intros k j Hk.
  destruct (Forall2_lookup_l _ _ _ _ _ Hbs Hk) as (b & Hb & pj & Hpj & <-). exists pj.
  split_and!; [done|done|by apply Hat].
Qed.

(** ** The loop ends in one of three ways *)

Lemma prepare_ready att won nonce_ version pending br ix candidate payload f pl :
  prepare att won nonce_ version pending br = (ix, Ready candidate payload f pl) ->
  pl = plan ix (fun t => broker_highs br !! t) (att_high att) pending /\ substreams pl <> [] /\
  exists era, encode_segment_indexed (substreams pl) era nonce_ version = Ok (payload, f).
Proof.
  unfold prepare. destruct (attempt_fold _ _ _) as [ix0 [[]| |]]; [|done|done].
  destruct (tail_next_seq_folded _ _) as [[c| |] ix1]; cbn [of_result]; [|done|done].
  destruct (att_era att ix1) as [era| |]; cbn [of_result]; [|done|done].
  set (pl0 := plan _ _ _ _). destruct (substreams pl0) as [|w ws] eqn:Ews; [done|].
  rewrite <- Ews. destruct (encode_segment_indexed _ _ _ _) as [[pay ft]| |] eqn:Ee; cbn; [|done|done].
  intros H. injection H as <- <- <- <- <-. split; [done|]. fold pl0. split; [by rewrite Ews|].
  by exists era.
Qed.

Lemma prepare_nothing att won nonce_ version pending br ix acks :
  prepare att won nonce_ version pending br = (ix, Nothing acks) ->
  exists pl, pl = plan ix (fun t => broker_highs br !! t) (att_high att) pending /\
    substreams pl = [] /\ acks = outcomes pl.
Proof.
  unfold prepare. destruct (attempt_fold _ _ _) as [ix0 [[]| |]]; [|done|done].
  destruct (tail_next_seq_folded _ _) as [[c| |] ix1]; cbn [of_result]; [|done|done].
  destruct (att_era att ix1) as [era| |]; cbn [of_result]; [|done|done].
  set (pl0 := plan _ _ _ _). destruct (substreams pl0) as [|w ws] eqn:Ews.
  - intros H. injection H as <- <-. exists pl0. done.
  - destruct (encode_segment_indexed _ _ _ _) as [[pay ft]| |]; done.
Qed.

(** What the end of a flush says about the attempt it came from. *)
Definition ended_well (attempts : nat -> Attempt) (nonce_ version : Z) (pending : list PrefixPending)
    (br br' : Broker) (end_ : FlushEnd) : Prop :=
  match end_ with
  | Wrote seq payload f acks =>
      exists m ix era, (m < MAX_ATTEMPTS)%nat /\
      let pl := plan ix (fun t => broker_highs br !! t) (att_high (attempts m)) pending in
      resolve_segment_create nonce_ (att_put (attempts m)) (att_probe (attempts m)) = Won /\
      encode_segment_indexed (substreams pl) era nonce_ version = Ok (payload, f) /\
      acks = outcomes pl /\
      br' = finalize (set_index br ix) (att_now (attempts m)) seq f (advances pl)
  | NoWrite acks =>
      exists m ix, let pl := plan ix (fun t => broker_highs br !! t) (att_high (attempts m)) pending in
      substreams pl = [] /\ acks = outcomes pl /\ br' = set_index br ix
  | Refused _ => True
  end.

Lemma flush_loop_ends n made attempts slowest won nonce_ version max_elapsed pending br br' end_ :
  (n + made <= MAX_ATTEMPTS)%nat ->
  flush_loop n made attempts slowest won nonce_ version max_elapsed pending br = (br', end_) ->
  ended_well attempts nonce_ version pending br br' end_.
Proof.
  revert made slowest won br. induction n as [|n IH]; intros made slowest won br Hn H; cbn [flush_loop] in H.
  { by injection H as <- <-. }
  destruct (budget_spent _ _ _ _); [by injection H as <- <-|].
  destruct (prepare _ _ _ _ _ _) as [ix [candidate payload f pl|acks|e]] eqn:Ep.
  - apply prepare_ready in Ep as (-> & Hne & era & He).
    destruct (resolve_segment_create _ _ _) eqn:Er.
    + injection H as <- <-. exists made, ix, era. split; [lia|]. cbn zeta. by split_and!.
    + apply IH in H; [|lia]. destruct end_; exact H.
    + by injection H as <- <-.
  - apply prepare_nothing in Ep as (pl & -> & Hs & ->). injection H as <- <-.
    by exists made, ix.
  - by injection H as <- <-.
Qed.

Lemma acks_of_length pending end_ : length (acks_of pending end_) = length pending.
Proof. destruct end_; cbn; [by rewrite length_imap|by rewrite length_imap|by rewrite length_map]. Qed.

(** No reply is missing from the plan. *)
Lemma acks_of_outcomes ix cached high pending end_ :
  let pl := plan ix cached high pending in
  match end_ with Wrote _ _ _ acks | NoWrite acks => acks = outcomes pl | Refused _ => False end ->
  acks_of pending end_ = outcomes pl.
Proof.
  cbn zeta. intros H. destruct (plan_spec ix cached high pending) as (Hlen & _).
  assert (Hgen : forall acks : list (result Z), length acks = length pending ->
    imap (fun index _ => default (Err (Api UnknownServerError)) (acks !! index)) pending = acks).
  { intros acks Hl. apply list_eq. intros j. rewrite list_lookup_imap.
    destruct (pending !! j) eqn:Ej; cbn.
    - apply lookup_lt_Some in Ej. rewrite <- Hl in Ej. apply lookup_lt_is_Some in Ej as [a Ha].
      by rewrite Ha.
    - apply lookup_ge_None in Ej. symmetry. apply lookup_ge_None. lia. }
  destruct end_; [subst; by apply Hgen|subst; by apply Hgen|done].
Qed.

(** The region of a write, in the object it was written to. *)
Lemma written_region ws era nonce_ version payload f w :
  encode_segment_indexed ws era nonce_ version = Ok (payload, f) -> w ∈ ws ->
  forallb batch_ok (SWrite.batches w) = true -> SWrite.batches w <> [] ->
  exists e, e ∈ entries f /\ Topition.mk (Entry.topic e) (Entry.partition e) = write_key w /\
    Entry.base_offset e = SWrite.base_offset w /\
    decode_region e (region_bytes_of e payload) = Ok (SWrite.batches w).
Proof.
  intros H Hw Hok Hne. unfold encode_segment_indexed in H.
  apply rbind_Ok in H as ([body es] & E & H). apply Ok_inj, pair_eq in H as [<- <-].
  apply encode_substreams_Ok in E as (ext & new & _ & -> & Hall & _). cbn [app] in *.
  assert (Hin : w ∈ nonempty ws) by (by apply list_elem_of_filter).
  apply list_elem_of_lookup in Hin as [k Hk].
  match goal with |- context [region_bytes_of _ (body ++ ?t)] => specialize (Hall t) end.
  destruct (Forall2_lookup_l _ _ _ _ _ Hall Hk) as (e & He & Hd). exists e.
  pose proof Hd as (Ht & _ & Hp & Hb & _ & Hbl & Hbytes).
  split; [by eapply list_elem_of_lookup_2|]. unfold write_key. rewrite Ht, Hp. split; [done|].
  split; [done|]. rewrite Hbytes. unfold decode_region, read_truncated.
  rewrite decode_encode_frame; [by rewrite Hbl, Z.ltb_irrefl|done].
Qed.

Lemma plan_batches_ok ix cached high pending w :
  Forall (fun p => batch_ok (Pending.batch p) = true) pending ->
  w ∈ substreams (plan ix cached high pending) -> forallb batch_ok (SWrite.batches w) = true.
Proof.
  intros Hok Hw. destruct (plan_spec ix cached high pending) as (_ & _ & Hfrom & _).
  rewrite Forall_forall in Hfrom. destruct (Hfrom w Hw) as (tg & p & adm & bs & _ & _ & -> & _ & Hp).
  destruct Hp as (_ & Hbs & _). cbn. apply forallb_forall. intros b Hb.
  apply list_elem_of_In, list_elem_of_lookup in Hb as [k Hk].
  destruct (Forall2_lookup_r _ _ _ _ _ Hbs Hk) as (j & _ & q & Hq & <-).
  rewrite Forall_forall in Hok. apply Hok. by eapply list_elem_of_lookup_2.
Qed.

(** ** Properties *)

(** The batches [adm] are in the segment: they are, in order, what the region of
    their topition decodes to, and each was answered with the offset its first
    record has there. *)
Definition stored_in (f : SegmentFooter) (payload : list byte) (pending : list PrefixPending)
    (acks : list (result Z)) (t : Topition) (adm : list nat) : Prop :=
  exists e bs, e ∈ entries f /\ Topition.mk (Entry.topic e) (Entry.partition e) = t /\
    decode_region e (region_bytes_of e payload) = Ok bs /\ length bs = length adm /\
    forall k j, adm !! k = Some j -> exists p, pending !! j = Some p /\ bs !! k = Some (Pending.batch p) /\
      acks !! j = Some (Ok (Entry.base_offset e + total_records (take k bs))).


(** The first batch of an idempotent producer. *)
Definition sample_first : Deflated.Batch :=
  Deflated.mk 0 53 (-1) 2 99 0 0 1000 1000 5 0 0 1 [x06; x00; x00; x00].

Definition sample_pending : list PrefixPending :=
  [Pending.mk (Topition.mk (ascii_bytes "orders") 0) (Name (ascii_bytes "orders")) sample_first;
   Pending.mk (Topition.mk (ascii_bytes "orders") 1) (Name (ascii_bytes "orders")) sample_first].

Definition sample_attempt (put : PutResult) : Attempt :=
  mkAttempt 0 10 (fun _ => Err NotFound) (fun ix => (ix, Ok tt)) (Ok 0) (fun _ => Ok 1)
    (fun _ => Ok 7) put (Ok None) 5.

Definition sample_broker : Broker := mkBroker Index.empty ∅ None.

(** The first create is lost to a peer, the second won. *)
Definition sample_flush : Broker * FlushEnd :=
  flush_prefix_coalesced
    (fun m => sample_attempt (match m with O => AlreadyExists | _ => PutOk end))
    3 4 10000 sample_pending sample_broker.


(** The persisted floor only protects a flush that can read it.  When the
    surviving segments and the process hint both stop short of the persisted
    high watermark, a flush that reads the floor assigns exactly that offset,
    while one whose read fails assigns an offset below it: an offset that was
    already acknowledged is assigned again instead of the flush being refused. *)
Theorem failed_floor_read_reuses_offsets (ix : PrefixIndex) (s : Substream) (t : Topition)
    (cached : option Z) (high : Z) (e : error) :
  default 0 (substream_tail ix s (Topition.partition t)) < high -> default 0 cached < high ->
  0 < high ->
  leaseless_base ix s t cached (Ok high) = high /\ leaseless_base ix s t cached (Err e) < high.
Proof. unfold leaseless_base. lia. Qed.

Lemma failed_floor_read_reuses_offsets_witness :
  let t := Topition.mk (ascii_bytes "a") 0 in
  leaseless_base sample_overlap (Name (ascii_bytes "a")) t None (Ok 40) = 40 /\
  leaseless_base sample_overlap (Name (ascii_bytes "a")) t None (Err Transport) < 40.
Proof.
  apply (failed_floor_read_reuses_offsets sample_overlap (Name (ascii_bytes "a"))
    (Topition.mk (ascii_bytes "a") 0) None 40 Transport); by vm_compute.
Defined.

(** Writers that race to seed a prefix agree on one era, and it outranks the
    past: whoever creates [era.json] picks an epoch above the lease's and above
    every folded segment's, and a writer that finds the object, or loses the
    create, adopts the stored value instead of its own. *)
Theorem era_outranks_folded (lease stored : Z) (ix : PrefixIndex) (seq : Z) (c : CachedSegment) :
  Index.segments ix !! seq = Some c ->
  (exists era, seed_era_epoch None (Err NotFound) (Ok lease) PutOk (Ok stored) ix = Ok era /\
     lease < era /\ writer_epoch (footer c) < era) /\
  seed_era_epoch None (Err NotFound) (Ok lease) AlreadyExists (Ok stored) ix = Ok stored /\
  (forall create, seed_era_epoch None (Ok stored) (Ok lease) create (Ok stored) ix = Ok stored).
Proof.
  intros Hc. split; [|done]. eexists. split; [reflexivity|].
  assert (writer_epoch (footer c) <= max_footer_epoch ix); [|lia].
  unfold max_footer_epoch. set (l := map _ _).
  assert (Hin : writer_epoch (footer c) ∈ l).
  { apply list_elem_of_fmap. exists (seq, c). split; [done|]. by apply elem_of_map_to_list. }
  destruct (max_key l) as [m|] eqn:Em.
  - apply max_key_spec in Em as [_ Hall]. rewrite Forall_forall in Hall. by apply Hall.
  - destruct l; [by apply not_elem_of_nil in Hin|done].
Qed.

Lemma era_outranks_folded_witness :
  exists era, seed_era_epoch None (Err NotFound) (Ok 3) PutOk (Ok 9) sample_overlap = Ok era /\ 6 < era.
Proof.
  destruct (era_outranks_folded 3 9 sample_overlap 2
    (stored (mkCached (mkFooter 6 8 [sample_entry 4 8]) 0)) ltac:(by vm_compute))
    as [(era & He & _ & Hlt) _].
  by exists era.
Defined.
