(* ===== verification/Window.v ===== *)
(** * Window: coalescing windows and the flush queue

    [admit_prefix_coalesced], its linger timer, [enqueue_prefix_flush] and the
    worker [drain_prefix_flush_queue] of
    [tansu-storage/src/dynostore/coalesce.rs], for one prefix, as a state machine
    driven by an arbitrary sequence of events.  Each event is one critical
    section of the code; admitting tasks, timers and the worker interleave
    freely. *)

From S2P Require Export Flush.

Module Queue.
Record PrefixFlushQueue := mk {
  closed : list PrefixCoalesceBuffer;
  enqueued : Z;
  draining : bool;
  started : Z;
}.
Definition empty : PrefixFlushQueue := mk [] 0 false 0.

(** [enqueue_prefix_flush]: the queue, the window's position and whether a worker
    is spawned. *)
Definition enqueue (q : PrefixFlushQueue) (b : PrefixCoalesceBuffer) : PrefixFlushQueue * Z * bool :=
  (mk (closed q ++ [b]) (enqueued q + 1) true (started q), enqueued q + 1, negb (draining q)).

(** One turn of [drain_prefix_flush_queue]: the window to flush, or the worker
    leaves. *)
Definition next (q : PrefixFlushQueue) : PrefixFlushQueue * option PrefixCoalesceBuffer :=
  match closed q with
  | b :: closed => (mk closed (enqueued q) (draining q) (started q + 1), Some b)
  | [] => (mk [] (enqueued q) false (started q), None)
  end.

(** The admitting task's wait: released once fewer than [FLUSH_QUEUE_DEPTH]
    windows are ahead of the one it closed. *)
Definition released (q : PrefixFlushQueue) (position : Z) : bool :=
  position <=? started q + FLUSH_QUEUE_DEPTH.
End Queue.
Export Queue (PrefixFlushQueue).

(** One prefix of the process: the window being filled, the counter windows are
    numbered from, the queue, the number of live workers, and the windows handed
    to [flush_prefix_coalesced], oldest first. *)
Record Prefix := mkPrefix {
  filling : PrefixCoalesceBuffer;
  window_counter : Z;
  queue : PrefixFlushQueue;
  workers : nat;
  flushing : list PrefixCoalesceBuffer;
}.

Definition initial : Prefix := mkPrefix Buffer.empty 0 Queue.empty 0 [].

(** A batch is admitted; the linger timer of a window fires; the worker takes its
    next turn; a window opens under another prefix, which draws from the same
    process-wide [COALESCE_WINDOW] counter. *)
Inductive Event :=
  | Arrive (p : PrefixPending)
  | Timer (window : Z)
  | Turn
  | Elsewhere.

Definition push (s : Prefix) (filling : PrefixCoalesceBuffer) (counter : Z)
    (b : PrefixCoalesceBuffer) : Prefix :=
  let '(q, _, spawn) := Queue.enqueue (queue s) b in
  mkPrefix filling counter q (if spawn then S (workers s) else workers s) (flushing s).

Section window.
Context (coalesce_batches coalesce_bytes : Z).

Definition on_event (s : Prefix) (e : Event) : Prefix :=
  match e with
  | Arrive p =>
      let first := bool_decide (Buffer.pending (filling s) = []) in
      let counter := if first then window_counter s + 1 else window_counter s in
      match admit_batch coalesce_batches coalesce_bytes counter (filling s) p with
      | (filling, Closed b) => push s filling counter b
      | (filling, _) => mkPrefix filling counter (queue s) (workers s) (flushing s)
      end
  | Timer window =>
      match fire_timer window (filling s) with
      | (filling, Some b) => push s filling (window_counter s) b
      | (filling, None) => mkPrefix filling (window_counter s) (queue s) (workers s) (flushing s)
      end
  | Turn =>
      match workers s with
      | O => s
      | S _ =>
          match Queue.next (queue s) with
          | (q, Some b) => mkPrefix (filling s) (window_counter s) q (workers s) (flushing s ++ [b])
          | (q, None) => mkPrefix (filling s) (window_counter s) q (pred (workers s)) (flushing s)
          end
      end
  | Elsewhere => mkPrefix (filling s) (window_counter s + 1) (queue s) (workers s) (flushing s)
  end.

Definition run (evs : list Event) : Prefix := fold_left on_event evs initial.

(** ** Invariant *)

Definition batches_of (bs : list PrefixCoalesceBuffer) : list PrefixPending :=
  flat_map Buffer.pending bs.

Definition admissions (evs : list Event) : list PrefixPending :=
  flat_map (fun e => match e with Arrive p => [p] | _ => [] end) evs.

Definition window_ok (b : PrefixCoalesceBuffer) : Prop := Buffer.pending b <> [].

Record queue_ok (s : Prefix) : Prop := mkQueueOk {
  ok_count : Queue.enqueued (queue s) = Queue.started (queue s) + Z.of_nat (length (Queue.closed (queue s)));
  ok_started : Queue.started (queue s) = Z.of_nat (length (flushing s));
  ok_worker : workers s = if Queue.draining (queue s) then 1%nat else 0%nat;
  ok_served : Queue.closed (queue s) <> [] -> Queue.draining (queue s) = true;
  ok_windows : Forall window_ok (flushing s ++ Queue.closed (queue s));
}.

Lemma push_ok s f c b : queue_ok s -> window_ok b -> queue_ok (push s f c b).
Proof.
  intros [H1 H2 H3 H4 H5] Hb. unfold push, Queue.enqueue. constructor; cbn.
  - rewrite length_app. cbn. lia.
  - done.
  - rewrite H3. by destruct (Queue.draining (queue s)).
  - done.
  - rewrite app_assoc. apply Forall_app. split; [done|by apply Forall_singleton].
Qed.

Lemma admit_batch_pending cb cy n buffer p :
  match admit_batch cb cy n buffer p with
  | (f, Closed b) => f = Buffer.empty /\ Buffer.pending b = Buffer.pending buffer ++ [p]
  | (f, _) => Buffer.pending f = Buffer.pending buffer ++ [p]
  end.
Proof.
  unfold admit_batch. destruct (flush_thresholds _ _ _) as [tb ty].
  destruct (_ || _); [done|]. by destruct (bool_decide _).
Qed.

Lemma admit_batch_window cb cy n buffer p :
  Buffer.window (match admit_batch cb cy n buffer p with (_, Closed b) => b | (f, _) => f end)
  = if bool_decide (Buffer.pending buffer = []) then n else Buffer.window buffer.
Proof.
  unfold admit_batch. destruct (flush_thresholds _ _ _) as [tb ty].
  destruct (_ || _); [done|]. by destruct (bool_decide _).
Qed.

Lemma on_event_ok s e : queue_ok s -> queue_ok (on_event s e).
Proof.
  intros H. destruct e as [p|window| |]; cbn [on_event].
  - match goal with |- context [admit_batch ?a ?b ?c ?d ?e] =>
      pose proof (admit_batch_pending a b c d e) as Hp; destruct (admit_batch a b c d e) as [f [b'|w|]] end;
      [|by destruct H|by destruct H].
    destruct Hp as [_ Hp]. apply push_ok; [done|]. unfold window_ok. rewrite Hp.
    by destruct (Buffer.pending (filling s)).
  - unfold fire_timer. destruct (_ && _) eqn:E; [|by destruct H]. apply push_ok; [done|].
    apply andb_true_iff in E as [_ E]. by apply negb_true_iff, bool_decide_eq_false in E.
  - destruct (workers s) as [|n] eqn:Ew; [done|]. destruct H as [H1 H2 H3 H4 H5].
    unfold Queue.next. destruct (Queue.closed (queue s)) as [|b closed] eqn:Ec; cbn in *.
    + constructor; cbn; try done. rewrite Ew in H3. destruct (Queue.draining (queue s)); [|done].
      injection H3 as ->. done.
    + constructor; cbn.
      * lia.
      * rewrite length_app. cbn. lia.
      * congruence.
      * intros _. by apply H4.
      * by rewrite <- app_assoc.
  - by destruct H.
Qed.

Lemma on_event_batches s e :
  batches_of (flushing (on_event s e) ++ Queue.closed (queue (on_event s e)))
  ++ Buffer.pending (filling (on_event s e))
  = batches_of (flushing s ++ Queue.closed (queue s)) ++ Buffer.pending (filling s) ++ admissions [e].
Proof.
  destruct e as [p|window| |]; cbn [on_event admissions flat_map app].
  - match goal with |- context [admit_batch ?a ?b ?c ?d ?e] =>
      pose proof (admit_batch_pending a b c d e) as Hp; destruct (admit_batch a b c d e) as [f [b'|w|]] end;
      cbn; [|by rewrite Hp|by rewrite Hp].
    destruct Hp as [-> Hp]. unfold batches_of. rewrite !flat_map_app. cbn. rewrite Hp, !app_nil_r.
    by rewrite !app_assoc.
  - unfold fire_timer. destruct (_ && _); cbn; [|by rewrite !app_nil_r].
    unfold batches_of. rewrite !flat_map_app. cbn. by rewrite !app_nil_r, !app_assoc.
  - rewrite app_nil_r. destruct (workers s); [done|]. unfold Queue.next.
    destruct (Queue.closed (queue s)) as [|b closed]; cbn; [done|]. by rewrite <- app_assoc.
  - cbn. by rewrite app_nil_r.
Qed.

(** ** Window numbers *)

(** Every window of the prefix, oldest first, the one being filled included. *)
Definition windows (s : Prefix) : list PrefixCoalesceBuffer :=
  flushing s ++ Queue.closed (queue s)
  ++ (if bool_decide (Buffer.pending (filling s) = []) then [] else [filling s]).

Record numbered (counter : Z) (bs : list PrefixCoalesceBuffer) : Prop := mkNumbered {
  num_sorted : StronglySorted Z.lt (map Buffer.window bs);
  num_bound : Forall (fun n => n <= counter) (map Buffer.window bs);
}.

Lemma numbered_mono c c' bs : c <= c' -> numbered c bs -> numbered c' bs.
Proof.
  intros Hc [H1 H2]. split; [done|]. eapply Forall_impl; [exact H2|]. cbn. lia.
Qed.

Lemma numbered_snoc c bs b :
  numbered c bs -> Buffer.window b = c + 1 -> numbered (c + 1) (bs ++ [b]).
Proof.
  intros [H1 H2] Hb. split; rewrite map_app; cbn; rewrite Hb.
  - apply StronglySorted_app. split_and!; [|done|by repeat constructor].
    intros x1 x2 Hx1 ->%list_elem_of_singleton. rewrite Forall_forall in H2.
    specialize (H2 _ Hx1). lia.
  - apply Forall_app. split; [|by apply Forall_singleton].
    eapply Forall_impl; [exact H2|]. cbn. lia.
Qed.

Lemma numbered_last c bs b b' :
  Buffer.window b = Buffer.window b' -> numbered c (bs ++ [b]) -> numbered c (bs ++ [b']).
Proof. intros Hb [H1 H2]. split; rewrite !map_app in *; cbn in *; by rewrite <- Hb. Qed.

(** The window a batch is admitted into is the last one, open or just closed. *)
Lemma on_event_admit s p :
  exists b,
    windows (on_event s (Arrive p)) = flushing s ++ Queue.closed (queue s) ++ [b] /\
    window_counter (on_event s (Arrive p))
      = (if bool_decide (Buffer.pending (filling s) = []) then window_counter s + 1 else window_counter s) /\
    Buffer.window b
      = (if bool_decide (Buffer.pending (filling s) = []) then window_counter s + 1
         else Buffer.window (filling s)).
Proof.
  cbn [on_event].
  match goal with |- context [admit_batch ?a ?b ?c ?d ?e] =>
    pose proof (admit_batch_pending a b c d e) as Hp; pose proof (admit_batch_window a b c d e) as Hw;
    destruct (admit_batch a b c d e) as [f [b'|w|]] end; cbn in Hp, Hw.
  - exists b'. destruct Hp as [-> _]. unfold windows. cbn. rewrite <- app_assoc, app_nil_r.
    split_and!; [done|done|]. rewrite Hw. by destruct (bool_decide _).
  - exists f. unfold windows. cbn. rewrite bool_decide_eq_false_2; [|rewrite Hp; by intros [_ [=]]%app_nil].
    split_and!; [done|done|]. rewrite Hw. by destruct (bool_decide _).
  - exists f. unfold windows. cbn. rewrite bool_decide_eq_false_2; [|rewrite Hp; by intros [_ [=]]%app_nil].
    split_and!; [done|done|]. rewrite Hw. by destruct (bool_decide _).
Qed.

Lemma on_event_numbered s e :
  numbered (window_counter s) (windows s) ->
  numbered (window_counter (on_event s e)) (windows (on_event s e)).
Proof.
  intros H. destruct e as [p|window| |].
  - destruct (on_event_admit s p) as (b & -> & -> & Hb). unfold windows in H. rewrite app_assoc in *.
    destruct (bool_decide _).
    + apply numbered_snoc; [|done]. by rewrite app_nil_r in H.
    + by eapply numbered_last.
  - cbn. unfold fire_timer. destruct (_ && _) eqn:E; [|done].
    apply andb_true_iff in E as [_ E]. apply negb_true_iff in E.
    unfold windows in *. cbn. rewrite E in H. by rewrite <- app_assoc, app_nil_r.
  - cbn. destruct (workers s); [done|]. unfold Queue.next, windows in *.
    destruct (Queue.closed (queue s)); cbn in *; [done|]. by rewrite <- app_assoc.
  - cbn. eapply numbered_mono; [|exact H]. lia.
Qed.

Lemma run_snoc evs e : run (evs ++ [e]) = on_event (run evs) e.
Proof. unfold run. by rewrite fold_left_app. Qed.

Lemma run_ok evs : queue_ok (run evs).
Proof.
  induction evs as [|e evs IH] using rev_ind; [by constructor|]. rewrite run_snoc. by apply on_event_ok.
Qed.

Lemma run_numbered evs : numbered (window_counter (run evs)) (windows (run evs)).
Proof.
  induction evs as [|e evs IH] using rev_ind; [by repeat constructor|].
  rewrite run_snoc. by apply on_event_numbered.
Qed.

(** The worker empties the queue. *)
Lemma drain_queue n s :
  queue_ok s -> length (Queue.closed (queue s)) = n ->
  let s' := fold_left on_event (replicate n Turn) s in
  Queue.closed (queue s') = [] /\ flushing s' = flushing s ++ Queue.closed (queue s).
Proof.
  revert s. induction n as [|n IH]; intros s Hok Hn.
  { cbn. apply nil_length_inv in Hn. by rewrite Hn, app_nil_r. }
  cbn [replicate fold_left]. destruct (Queue.closed (queue s)) as [|b closed] eqn:Ec; [done|].
  assert (Hw : workers s = 1%nat).
  { rewrite (ok_worker s Hok), (ok_served s Hok); [done|by rewrite Ec]. }
  assert (Hstep : on_event s Turn = mkPrefix (filling s) (window_counter s)
    (Queue.mk closed (Queue.enqueued (queue s)) (Queue.draining (queue s)) (Queue.started (queue s) + 1))
    1 (flushing s ++ [b])).
  { cbn. rewrite Hw. unfold Queue.next. by rewrite Ec. }
  destruct (IH (on_event s Turn)) as [H1 H2].
  - by apply on_event_ok.
  - rewrite Hstep. cbn in *. lia.
  - split; [done|]. rewrite H2, Hstep. cbn. by rewrite <- app_assoc.
Qed.

(** ** Properties *)

(** C25 Buffer order is offset order.  Whatever the interleaving of admissions,
    linger timers (stale ones included) and the flush worker: every admitted
    batch is in exactly one window, windows reach the flush in the order their
    batches were admitted, no empty window is flushed, a prefix has at most one
    worker and never a queued window without one, window numbers grow strictly
    so that the timer of a closed window is never the timer of a later one, the
    task that closed the last window waits exactly while more than
    [FLUSH_QUEUE_DEPTH] windows are queued, and the worker left to run flushes
    every closed window. *)
Theorem windows_keep_admission_order (evs : list Event) :
  let s := run evs in
  batches_of (flushing s ++ Queue.closed (queue s)) ++ Buffer.pending (filling s) = admissions evs /\
  Forall window_ok (flushing s ++ Queue.closed (queue s)) /\
  StronglySorted Z.lt (map Buffer.window (windows s)) /\
  Queue.released (queue s) (Queue.enqueued (queue s))
    = (Z.of_nat (length (Queue.closed (queue s))) <=? FLUSH_QUEUE_DEPTH) /\
  (workers s <= 1)%nat /\ (Queue.closed (queue s) <> [] -> workers s = 1%nat) /\
  batches_of (flushing (run (evs ++ replicate (length (Queue.closed (queue s))) Turn)))
    ++ Buffer.pending (filling s) = admissions evs.
Proof.
  cbn zeta. pose proof (run_ok evs) as Hok.
  assert (Hall : batches_of (flushing (run evs) ++ Queue.closed (queue (run evs)))
                 ++ Buffer.pending (filling (run evs)) = admissions evs).
  { clear Hok. induction evs as [|e evs IH] using rev_ind; [done|].
    rewrite run_snoc, on_event_batches, app_assoc, IH. unfold admissions. by rewrite flat_map_app. }
  split; [done|]. split; [apply (ok_windows _ Hok)|]. split; [apply run_numbered|]. split.
  { unfold Queue.released. rewrite (ok_count _ Hok). lia. }
  split.
  { rewrite (ok_worker _ Hok). destruct (Queue.draining _); lia. }
  split; [intros H; by rewrite (ok_worker _ Hok), (ok_served _ Hok)|].
  unfold run at 1. rewrite fold_left_app. fold (run evs).
  destruct (drain_queue _ (run evs) Hok eq_refl) as [_ ->]. done.
Qed.
End window.
