(* ===== verification/Replay.v ===== *)
(** * Replay: the log remembers what the flush admitted

    The dedup state a flush keeps in memory while it assigns offsets (the
    working [ProducerTail]s of [flush_prefix_coalesced_leaseless]) against the
    state any replica rebuilds from the written footer with
    [producer_tail_folded] over the fenced view. *)

From S2P Require Export Flush.

(** ** The segment a flush adds comes last in the view *)

Lemma sorted_keys_perm {V} (m : gmap Z V) : sorted_keys m ≡ₚ (map_to_list m).*1.
Proof. apply merge_sort_Permutation. Qed.

Lemma sorted_keys_sorted {V} (m : gmap Z V) : StronglySorted Z.le (sorted_keys m).
Proof. apply StronglySorted_merge_sort; apply _. Qed.

Lemma sorted_keys_insert_max {V} (m : gmap Z V) c x :
  (forall k, k ∈ dom m -> k < c) -> sorted_keys (<[c := x]> m) = sorted_keys m ++ [c].
Proof.
  intros Hlt. assert (Hnone : m !! c = None).
  { destruct (m !! c) eqn:E; [|done]. assert (c < c) by (apply Hlt; by eapply elem_of_dom_2). lia. }
  apply (StronglySorted_unique Z.le).
  - apply sorted_keys_sorted.
  - assert (Hall : Forall (fun k => k <= c) (sorted_keys m)).
    { rewrite sorted_keys_perm. apply Forall_forall. intros k Hk.
      apply list_elem_of_fmap in Hk as ([k' v] & -> & Hk). apply elem_of_map_to_list in Hk.
      assert (k' < c) by (apply Hlt; by eapply elem_of_dom_2). cbn. lia. }
    pose proof (sorted_keys_sorted m) as Hs. induction Hs as [|k l Hl IH Hk]; cbn;
      [repeat constructor|].
    apply Forall_cons in Hall as [Hk' Hall]. constructor; [by apply IH|].
    apply Forall_app. split; [done|by apply Forall_singleton].
  - rewrite !sorted_keys_perm, map_to_list_insert by done. cbn. by rewrite Permutation_app_comm.
Qed.

Lemma flat_map_ext_in {A B} (f g : A -> list B) l :
  (forall x, In x l -> f x = g x) -> flat_map f l = flat_map g l.
Proof. induction l as [|x l IH]; intros H; cbn; [done|]. rewrite H, IH; cbn in *; auto. Qed.

(** Looking a sub-stream up after a segment was folded above every known one. *)
Lemma substream_entries_insert ix now c f modified s p :
  index_ok ix -> (forall k, k ∈ dom (Index.segments ix) -> k < c) ->
  substream_entries (index_insert ix now c f modified) s p =
  substream_entries ix s p ++
  map (fun e => (c, writer_epoch f, e))
    (filter (fun e => (Entry.partition e =? p) && Entry.is_ e s = true) (map resident (entries f))).
Proof.
  intros Hok Hlt. rewrite !index_ok_walk; [|done|].
  2: { by eapply index_step_ok; [|apply step_insert]. }
  unfold walk, index_insert. cbn [Index.segments]. rewrite insert_segment_segments.
  rewrite sorted_keys_insert_max by done. rewrite flat_map_app. cbn [flat_map].
  rewrite lookup_insert_eq, app_nil_r. f_equal. apply flat_map_ext_in. intros k Hk.
  rewrite lookup_insert_ne; [done|]. intros ->.
  apply list_elem_of_In in Hk. rewrite sorted_keys_perm in Hk.
  apply list_elem_of_fmap in Hk as ([k' v] & -> & Hk). apply elem_of_map_to_list in Hk.
  assert (k' < k') by (apply Hlt; by eapply elem_of_dom_2). lia.
Qed.

Lemma cand_insert_snoc x k c : cand_leb c x = false -> cand_leb x c = true ->
  cand_insert x (k ++ [c]) = cand_insert x k ++ [c].
Proof.
  intros Hcx Hxc. induction k as [|y k IH]; cbn; [by rewrite Hxc|].
  destruct (cand_leb x y); [done|]. by rewrite IH.
Qed.

Lemma cand_sort_snoc l c :
  Forall (fun x => cand_base x < cand_base c) l -> cand_sort (l ++ [c]) = cand_sort l ++ [c].
Proof.
  induction 1 as [|x l Hx Hl IH]; [done|].
  change (cand_sort ((x :: l) ++ [c])) with (cand_insert x (cand_sort (l ++ [c]))).
  rewrite IH. apply cand_insert_snoc.
  - apply not_true_iff_false. rewrite cand_leb_spec. lia.
  - apply cand_leb_spec. by left.
Qed.

Lemma tail_outranked_snoc later c rank covered to :
  to <= cand_base c -> covered < to ->
  tail_outranked (later ++ [c]) rank covered to = tail_outranked later rank covered to.
Proof.
  unfold tail_outranked. revert covered. induction later as [|x later IH]; intros covered Hc Hlt; cbn.
  - by rewrite (proj2 (Z.ltb_lt covered (cand_base c))) by lia.
  - destruct (covered <? cand_base x); [done|]. destruct (rank_ltb rank (cand_rank x)); [|by apply IH].
    destruct (Z.leb_spec to (Z.max covered (cand_end x))); [done|]. by apply IH.
Qed.

Lemma fence_snoc cov fr l c :
  Forall (fun x => cand_end x <= cand_base c) l -> cov <= cand_base c < cand_end c ->
  fence cov fr (l ++ [c]) = fence cov fr l ++ [whole c].
Proof.
  intros Hl. revert cov fr. induction Hl as [|x l Hx Hl IH]; intros cov fr Hc; cbn [fence app].
  - destruct (Z.leb_spec (cand_end c) cov); [lia|].
    by rewrite (proj2 (Z.ltb_ge (cand_base c) cov)) by lia.
  - destruct (Z.leb_spec (cand_end x) cov); [by apply IH|].
    rewrite tail_outranked_snoc by lia. destruct (_ && _ && _); [by apply IH|].
    cbn [app]. f_equal. apply IH. lia.
Qed.

Lemma fence_all_snoc l c :
  Forall (fun x => cand_base x < cand_end x <= cand_base c) l ->
  i64_MIN <= cand_base c < cand_end c -> fence_all (l ++ [c]) = fence_all l ++ [whole c].
Proof.
  intros Hl Hc. unfold fence_all. rewrite cand_sort_snoc.
  - apply fence_snoc; [|done]. rewrite cand_sort_perm. eapply Forall_impl; [exact Hl|]. cbn. lia.
  - eapply Forall_impl; [exact Hl|]. cbn. lia.
Qed.

(** ** The coordinates a region carries *)

Fixpoint coords_from (n : Z) (bs : list Deflated.Batch) : list ProducerCoord :=
  match bs with
  | [] => []
  | b :: bs => coord_of b n ++ coords_from (n + (Deflated.last_offset_delta b + 1)) bs
  end.

Lemma coords_from_app n bs cs :
  coords_from n (bs ++ cs) = coords_from n bs ++ coords_from (n + total_records bs) cs.
Proof.
  revert n. induction bs as [|b bs IH]; intros n; cbn; [by rewrite Z.add_0_r|].
  rewrite IH, <- app_assoc. do 3 f_equal. lia.
Qed.

Lemma encode_region_producers i r bs r' :
  encode_region i r bs = Ok r' ->
  region_producers r' = region_producers r ++ coords_from (region_count r) bs.
Proof.
  revert i r. induction bs as [|b bs IH]; intros i r H; cbn in H.
  { injection H as <-. by rewrite app_nil_r. }
  destruct (negb _); [done|]. apply IH in H. rewrite H. cbn. by rewrite <- app_assoc.
Qed.

(** The footer of a write names its sub-stream, base, count and coordinates. *)
Definition describes_log (w : SubstreamWrite) (e : SubstreamEntry) : Prop :=
  Entry.topic e = SWrite.topic w /\ Entry.topic_id e = Substream_id (SWrite.substream w) /\
  Entry.partition e = SWrite.partition w /\ Entry.base_offset e = SWrite.base_offset w /\
  Entry.record_count e = total_records (SWrite.batches w) /\
  Entry.producers e = coords_from 0 (SWrite.batches w).

Lemma encode_substreams_log version body es ws body' es' :
  encode_substreams version body es ws = Ok (body', es') ->
  exists new, es' = es ++ new /\ Forall2 describes_log (nonempty ws) new.
Proof.
  revert body es. induction ws as [|w ws IH]; intros body es H.
  { cbn in H. injection H as <- <-. exists []. by rewrite app_nil_r. }
  cbn in H. rewrite nonempty_cons. destruct (SWrite.batches w) as [|b0 bs0] eqn:Ebs; [by apply IH in H|].
  rewrite <- Ebs in *. clear b0 bs0 Ebs. destruct (_ && _) in H; [done|]. inv_ok.
  pose proof (encode_region_producers _ _ _ _ E) as Hp.
  apply encode_region_Ok in E as (_ & Hc & _). cbn in Hc, Hp.
  apply IH in H as (new & -> & Hall). eexists (_ :: new). split; [by rewrite <- app_assoc|].
  constructor; [|done]. unfold describes_log. cbn. by split_and!.
Qed.

Lemma encode_segment_log ws era nonce_ version payload f :
  encode_segment_indexed ws era nonce_ version = Ok (payload, f) ->
  writer_epoch f = era /\ Forall2 describes_log (nonempty ws) (entries f).
Proof.
  intros H. unfold encode_segment_indexed in H.
  apply rbind_Ok in H as ([body es] & E & H). apply Ok_inj, pair_eq in H as [_ <-].
  apply encode_substreams_log in E as (new & -> & Hall). done.
Qed.

(** ** Folding the region is what the flush did *)

(** Markers carry no sequence. *)
Definition markers_unsequenced (b : Deflated.Batch) : Prop :=
  Deflated.is_control b = true -> Deflated.is_idempotent b = false.

Lemma fold_coord_of id base t b n :
  id <> -1 -> markers_unsequenced b -> 0 <= n < 2 ^ 32 ->
  fold_coords id base t (coord_of b n) =
  if Deflated.is_idempotent b && (Deflated.producer_id b =? id)
  then Tail.fold t (Deflated.producer_epoch b) (Deflated.base_sequence b)
         (wrap_s 32 (Deflated.base_sequence b + Deflated.last_offset_delta b)) (base + n)
  else t.
Proof.
  intros Hid Hm Hn. unfold coord_of, fold_coords.
  rewrite (wrap_u_small 32 n) by (by apply u_range_spec).
  set (pc := Coord.mk _ _ _ _ _ _).
  assert (Hf : Coord.folds pc = negb (Deflated.is_control b) && negb (Deflated.base_sequence b =? -1)).
  { unfold Coord.folds, pc. cbn [Coord.flags Coord.base_sequence]. f_equal.
    by destruct (Deflated.is_control b), (Deflated.is_transactional b). }
  assert (Hstep : fold_coord id base t pc =
    if Coord.folds pc && (Deflated.producer_id b =? id) then
      Tail.fold t (Deflated.producer_epoch b) (Deflated.base_sequence b)
         (wrap_s 32 (Deflated.base_sequence b + Deflated.last_offset_delta b)) (base + n) else t).
  { unfold fold_coord. by destruct (Coord.folds pc). }
  destruct (Deflated.is_idempotent b) eqn:Ei; cbn [orb andb].
  - cbn [fold_left]. rewrite Hstep, Hf.
    destruct (Deflated.is_control b) eqn:Ec; [by rewrite Hm in Ei|].
    unfold Deflated.is_idempotent in Ei. apply andb_true_iff in Ei as [_ ->]. done.
  - destruct (_ || _); [|done]. cbn [fold_left]. rewrite Hstep, Hf.
    unfold Deflated.is_idempotent in Ei. apply andb_false_iff in Ei as [Ei|Ei]; [|by rewrite Ei, andb_false_r].
    apply negb_false_iff, Z.eqb_eq in Ei as ->.
    by rewrite (proj2 (Z.eqb_neq (-1) id)), andb_false_r by lia.
Qed.

Lemma total_records_nonneg bs :
  Forall (fun b => 0 <= Deflated.last_offset_delta b) bs -> 0 <= total_records bs.
Proof. induction 1; cbn; lia. Qed.

(** The working tails are the fold of the admitted coordinates. *)
Lemma assign_group_folds folded pending base outs0 indices id :
  id <> -1 ->
  Forall (fun p => markers_unsequenced (Pending.batch p) /\
                   0 <= Deflated.last_offset_delta (Pending.batch p)) pending ->
  let a := assign_group folded pending base outs0 indices in
  Forall (fun b => 0 <= Deflated.last_offset_delta b) (admitted a) /\
  (total_records (admitted a) < 2 ^ 32 ->
   default (folded id) (tails a !! id) =
   fold_coords id base (folded id) (coords_from 0 (admitted a))).
Proof.
  intros Hid Hp. cbn zeta. unfold assign_group.
  assert (Hgen : let a := fold_left (assign_batch folded pending) indices (mkAssign base ∅ outs0 []) in
    Forall (fun b => 0 <= Deflated.last_offset_delta b) (admitted a) /\
    running a = base + total_records (admitted a) /\
    (total_records (admitted a) < 2 ^ 32 ->
     default (folded id) (tails a !! id) =
     fold_coords id base (folded id) (coords_from 0 (admitted a)))); [|by split; apply Hgen].
  induction indices as [|i indices IH] using rev_ind; cbn zeta.
  { cbn. rewrite lookup_empty. split; [constructor|]. split; [lia|done]. }
  rewrite fold_left_app. cbn [fold_left]. cbn zeta in IH.
  set (s := fold_left _ indices _) in *. destruct IH as (Hnn & Hrun & IH).
  unfold assign_batch. destruct (pending !! i) as [p|] eqn:Ep; [|done].
  set (b := Pending.batch p). assert (Hb : markers_unsequenced b /\ 0 <= Deflated.last_offset_delta b).
  { rewrite Forall_forall in Hp. apply Hp. by eapply list_elem_of_lookup_2. }
  destruct Hb as [Hmark Hlod].
  assert (Hadmit : forall tl,
    (total_records (admitted s) < 2 ^ 32 ->
     default (folded id) (tl !! id) =
     fold_coords id base (fold_coords id base (folded id) (coords_from 0 (admitted s)))
       (coord_of b (total_records (admitted s)))) ->
    let a := accept s i b tl in
    Forall (fun b => 0 <= Deflated.last_offset_delta b) (admitted a) /\
    running a = base + total_records (admitted a) /\
    (total_records (admitted a) < 2 ^ 32 ->
     default (folded id) (tails a !! id) = fold_coords id base (folded id) (coords_from 0 (admitted a)))).
  { intros tl Htl. cbn. rewrite total_records_app. cbn.
    split; [apply Forall_app; split; [done|by apply Forall_singleton]|]. split; [lia|].
    intros Hlt. rewrite Htl, coords_from_app by lia. cbn. rewrite app_nil_r, Z.add_0_l.
    unfold fold_coords. by rewrite fold_left_app. }
  pose proof (total_records_nonneg _ Hnn) as Hpos.
  destruct (Deflated.is_idempotent b) eqn:Eid.
  - set (t := default (folded (Deflated.producer_id b)) (tails s !! Deflated.producer_id b)).
    assert (Hkeep : forall o, let a := reply s i o (<[Deflated.producer_id b := t]> (tails s)) in
      Forall (fun b => 0 <= Deflated.last_offset_delta b) (admitted a) /\
      running a = base + total_records (admitted a) /\
      (total_records (admitted a) < 2 ^ 32 ->
       default (folded id) (tails a !! id) = fold_coords id base (folded id) (coords_from 0 (admitted a)))).
    { intros o. cbn [reply admitted running tails]. split; [done|]. split; [done|]. intros Hlt.
      rewrite <- IH by done.
      destruct (decide (Deflated.producer_id b = id)) as [<-|Hne];
        [by rewrite lookup_insert_eq|by rewrite lookup_insert_ne]. }
    destruct (Tail.classify t _ _); try apply Hkeep. apply Hadmit. intros Hlt.
    rewrite fold_coord_of, Eid by (done || lia). cbn [andb]. rewrite <- IH by done.
    destruct (Z.eqb_spec (Deflated.producer_id b) id) as [<-|Hne].
    + rewrite lookup_insert_eq. cbn. fold t. by rewrite Hrun.
    + by rewrite lookup_insert_ne.
  - apply Hadmit. intros Hlt. rewrite fold_coord_of, Eid by (done || lia). cbn. by apply IH.
Qed.

(** ** The regions of a plan *)

(** Replies do not influence what is admitted. *)
Definition core (s : Assign) : Z * gmap Z ProducerTail * list Deflated.Batch :=
  (running s, tails s, admitted s).

Lemma assign_batch_core folded pending s s' i :
  core s = core s' -> core (assign_batch folded pending s i) = core (assign_batch folded pending s' i).
Proof.
  destruct s as [r t o a], s' as [r' t' o' a']. intros [= -> -> ->]. unfold assign_batch.
  destruct (pending !! i) as [p|]; [|done].
  destruct (Deflated.is_idempotent _); [|done]. cbn. by destruct (Tail.classify _ _ _).
Qed.

Lemma assign_group_core folded pending base outs0 outs1 indices :
  core (assign_group folded pending base outs0 indices) =
  core (assign_group folded pending base outs1 indices).
Proof.
  unfold assign_group.
  assert (H : core (mkAssign base ∅ outs0 []) = core (mkAssign base ∅ outs1 [])) by done.
  revert H. generalize (mkAssign base ∅ outs0 []), (mkAssign base ∅ outs1 []).
  induction indices as [|i indices IH]; intros s s' H; [done|]. cbn. apply IH.
  by apply assign_batch_core.
Qed.

Section regions.
Context (ix : PrefixIndex) (cached : Topition -> option Z) (high : Topition -> result Z).
Context (pending : list PrefixPending).

(** The loop of one group, its replies apart. *)
Definition group_assign (t : Topition) (p : PrefixPending) (indices : list nat) : Assign :=
  assign_group (producer_tail ix (Pending.substream p) (Topition.partition t)) pending
    (group_base ix cached high t p) [] indices.

Definition region (tg : Topition * list nat) : list SubstreamWrite :=
  match head tg.2 ≫= fun i => pending !! i with
  | None => []
  | Some p =>
      match admitted (group_assign tg.1 p tg.2) with
      | [] => []
      | bs => [group_write ix cached high tg.1 p bs]
      end
  end.

Lemma plan_regions : substreams (plan ix cached high pending) = flat_map region (grouped pending).
Proof.
  unfold plan.
  assert (H : forall g pl, substreams (fold_left (plan_group ix cached high pending) g pl) =
                           substreams pl ++ flat_map region g).
  { induction g as [|[t indices] g IH]; intros pl; cbn [fold_left flat_map]; [by rewrite app_nil_r|].
    rewrite IH, app_assoc. f_equal. unfold plan_group, region. cbn [fst snd].
    destruct (head indices ≫= _) as [p|]; [|by rewrite app_nil_r].
    fold (group_base ix cached high t p).
    pose proof (assign_group_core (producer_tail ix (Pending.substream p) (Topition.partition t)) pending
      (group_base ix cached high t p) (outcomes pl) [] indices) as Hc.
    fold (group_assign t p indices) in Hc. set (a := assign_group _ _ _ (outcomes pl) _) in *.
    unfold core in Hc. injection Hc as _ _ Ha. rewrite Ha.
    destruct (admitted (group_assign t p indices)) eqn:Ead; cbn; [by rewrite app_nil_r|].
    done. }
  by rewrite H.
Qed.

(** The identity a batch is parked under: its topic's name, or an id that no
    other topic has. *)
Definition identified : Prop :=
  Forall (fun p => match Pending.substream p with
                   | Name n => n = Topition.topic (Pending.topition p) | Id _ => True end) pending /\
  forall p q, p ∈ pending -> q ∈ pending -> Pending.substream p = Pending.substream q ->
    Topition.topic (Pending.topition p) = Topition.topic (Pending.topition q).

Definition keyed (s : Substream) (partition : Z) (w : SubstreamWrite) : Prop :=
  SWrite.partition w = partition /\ SWrite.substream w = s.

#[export] Instance keyed_dec s partition w : Decision (keyed s partition w).
Proof. unfold keyed. apply _. Defined.

Lemma group_pending tg p :
  tg ∈ grouped pending -> (head tg.2 ≫= fun i => pending !! i) = Some p ->
  p ∈ pending /\ Pending.topition p = tg.1.
Proof.
  intros Htg Hp. destruct (grouped_spec pending) as (_ & _ & Hok). rewrite Forall_forall in Hok.
  destruct (group_head pending tg (Hok tg Htg)) as (q & Hq & Ht).
  assert (q = p) as -> by congruence. split; [|done].
  destruct (head tg.2) as [i|]; [|done]. by eapply list_elem_of_lookup_2.
Qed.

(** Of all the regions only the group's own carries its key. *)
Lemma regions_keyed t indices p :
  identified -> (t, indices) ∈ grouped pending ->
  (head indices ≫= fun i => pending !! i) = Some p ->
  filter (keyed (Pending.substream p) (Topition.partition t)) (flat_map region (grouped pending))
  = region (t, indices).
Proof.
  intros [_ Huniq] Htg Hp. destruct (grouped_spec pending) as (Hs & _ & _).
  destruct (group_pending (t, indices) p Htg Hp) as [Hpin Hpt]. cbn in Hpt.
  assert (Hother : forall tg, tg ∈ grouped pending -> tg.1 <> t ->
    Forall (fun w => ~ keyed (Pending.substream p) (Topition.partition t) w) (region tg)).
  { intros tg Htg' Hne. unfold region. destruct (head tg.2 ≫= _) as [q|] eqn:Eq; [|constructor].
    destruct (admitted _); [constructor|]. apply Forall_singleton. intros [Hpart Hsub]. cbn in *.
    destruct (group_pending tg q Htg' Eq) as [Hqin Hqt].
    pose proof (Huniq q p Hqin Hpin Hsub) as Htop. rewrite Hqt, Hpt in Htop.
    apply Hne. destruct tg.1, t. cbn in *. congruence. }
  assert (Hself : filter (keyed (Pending.substream p) (Topition.partition t)) (region (t, indices))
                  = region (t, indices)).
  { unfold region. cbn [snd]. rewrite Hp. cbn. destruct (admitted _); [done|].
    rewrite filter_cons, decide_True by done. done. }
  apply list_elem_of_split in Htg as (g1 & g2 & Hg). rewrite Hg in *.
  apply keys_sorted_NoDup in Hs. rewrite fmap_app in Hs. cbn in Hs.
  apply NoDup_app in Hs as (_ & Hd1 & [Hd2 _]%NoDup_cons).
  assert (Hnone : forall g, (forall tg, tg ∈ g -> tg ∈ g1 ++ (t, indices) :: g2 /\ tg.1 <> t) ->
    filter (keyed (Pending.substream p) (Topition.partition t)) (flat_map region g) = []).
  { intros g H. apply filter_none, Forall_flat_map, Forall_forall. intros tg Hin.
    apply Hother; by apply H. }
  rewrite flat_map_app. cbn [flat_map]. rewrite !filter_app, Hself.
  rewrite (Hnone g1), (Hnone g2), app_nil_r; [done| |].
  - intros tg Hin. split; [set_solver|]. intros <-. apply Hd2, list_elem_of_fmap. by exists tg.
  - intros tg Hin. split; [set_solver|]. intros <-. apply (Hd1 tg.1); [|by left].
    apply list_elem_of_fmap. by exists tg.
Qed.
End regions.

(** ** Properties *)

Lemma Forall2_filter {A B} (R : A -> B -> Prop) (P : A -> Prop) (Q : B -> Prop)
    `{!forall x, Decision (P x)} `{!forall y, Decision (Q y)} l k :
  Forall2 R l k -> Forall2 (fun x y => P x <-> Q y) l k -> Forall2 R (filter P l) (filter Q k).
Proof.
  induction 1 as [|x y l k Hxy Hall IH]; intros Hiff; [constructor|].
  apply Forall2_cons in Hiff as [Hpq Hr].
  rewrite !filter_cons. destruct (decide (P x)), (decide (Q y)); [|tauto|tauto|by apply IH].
  constructor; [done|by apply IH].
Qed.

(** An entry carries the key of the write it describes. *)
Lemma describes_keyed w e s partition :
  match SWrite.substream w with Name n => n = SWrite.topic w | Id _ => True end ->
  describes_log w e ->
  (keyed s partition w <-> (Entry.partition e =? partition) && Entry.is_ e s = true).
Proof.
  intros Hn (Ht & Hid & Hp & _). unfold keyed.
  rewrite andb_true_iff, Z.eqb_eq, Hp. unfold Entry.is_. rewrite Ht, Hid.
  destruct (SWrite.substream w) as [n|i], s as [n'|i']; cbn;
    rewrite ?andb_true_iff, ?bool_decide_eq_true; subst; naive_solver.
Qed.

Lemma filter_resident s partition es :
  filter (fun e => (Entry.partition e =? partition) && Entry.is_ e s = true) (map resident es) =
  map resident (filter (fun e => (Entry.partition e =? partition) && Entry.is_ e s = true) es).
Proof.
  induction es as [|e es IH]; [done|]. cbn [map]. rewrite !filter_cons.
  assert (Heq : (Entry.partition (resident e) =? partition) && Entry.is_ (resident e) s =
                (Entry.partition e =? partition) && Entry.is_ e s) by done.
  rewrite Heq. destruct (decide _); cbn; by rewrite IH.
Qed.

(** The entries a flush adds to a group's sub-stream: the group's region, if it
    has one. *)
Lemma flush_entries ix cached high pending era nonce_ version payload f t indices p :
  identified pending -> (t, indices) ∈ grouped pending ->
  (head indices ≫= fun i => pending !! i) = Some p ->
  encode_segment_indexed (substreams (plan ix cached high pending)) era nonce_ version
    = Ok (payload, f) ->
  Forall2 describes_log (region ix cached high pending (t, indices))
    (filter (fun e => (Entry.partition e =? Topition.partition t)
                      && Entry.is_ e (Pending.substream p) = true) (entries f)).
Proof.
  intros Hid Htg Hp H. apply encode_segment_log in H as [_ Hall].
  rewrite <- (regions_keyed ix cached high pending t indices p) by done.
  rewrite <- plan_regions.
  assert (Hne : nonempty (substreams (plan ix cached high pending)) = substreams (plan ix cached high pending)).
  { apply filter_all. destruct (plan_spec ix cached high pending) as (_ & _ & Hfrom & _).
    eapply Forall_impl; [exact Hfrom|]. by intros w (tg & q & adm & bs & _ & _ & -> & Hbs & _). }
  rewrite Hne in Hall. apply Forall2_filter; [done|].
  apply Forall2_same_length_lookup. split; [by eapply Forall2_length|].
  intros k w e Hw He. apply describes_keyed; [|by eapply Forall2_lookup_lr].
  destruct (plan_spec ix cached high pending) as (_ & _ & Hfrom & _).
  rewrite Forall_forall in Hfrom.
  destruct (Hfrom w) as (tg & q & adm & bs & Hg & Hq & -> & _); [by eapply list_elem_of_lookup_2|].
  cbn. destruct (group_pending pending tg q Hg Hq) as [Hqin Hqt].
  destruct Hid as [Hid _]. rewrite Forall_forall in Hid. specialize (Hid q Hqin).
  by rewrite Hqt in Hid.
Qed.

Lemma producer_tail_window id es :
  (length (Tail.window (producer_tail_folded id es)) <= IDEMPOTENT_WINDOW)%nat.
Proof.
  unfold producer_tail_folded.
  assert (H : forall t, (length (Tail.window t) <= IDEMPOTENT_WINDOW)%nat ->
    (length (Tail.window (fold_left (fun t e => fold_coords id (Entry.base_offset e) t (Entry.producers e))
      es t)) <= IDEMPOTENT_WINDOW)%nat); [|apply H; cbn; lia].
  induction es as [|e es IH]; intros t Ht; [done|]. cbn. by apply IH, fold_coords_window.
Qed.

(** An assigned base is past every entry of the index. *)
Lemma leaseless_base_past ix s t cached high :
  Forall (fun x => 1 <= Entry.record_count x.2 /\ i64_MIN <= Entry.base_offset x.2)
    (substream_entries ix s (Topition.partition t)) ->
  Forall (fun x => Entry.end_ x.2 <= leaseless_base ix s t cached high)
    (substream_entries ix s (Topition.partition t)) /\
  (substream_entries ix s (Topition.partition t) <> [] -> i64_MIN <= leaseless_base ix s t cached high).
Proof.
  intros Hc. unfold leaseless_base, substream_tail. set (es := substream_entries _ _ _) in *.
  assert (Hall : Forall (fun x => Entry.end_ x.2 <=
    default 0 (max_key (map (fun x : Z * Z * SubstreamEntry => Entry.end_ x.2) es))) es).
  { apply Forall_forall. intros x Hx.
    destruct (max_key (map (fun x => Entry.end_ x.2) es)) as [m|] eqn:Em.
    - apply max_key_spec in Em as [_ Hm]. rewrite Forall_forall in Hm. cbn. apply Hm.
      apply list_elem_of_fmap. by exists x.
    - destruct es; [by apply not_elem_of_nil in Hx|done]. }
  split.
  - eapply Forall_impl; [exact Hall|]. cbn. lia.
  - intros Hne. destruct es as [|x es]; [done|].
    apply Forall_cons in Hall as [Hx _]. apply Forall_cons in Hc as [Hc _].
    unfold Entry.end_ in Hx at 1. lia.
Qed.

(** C16 The log remembers exactly what the flush decided.  Once the written
    footer is folded into an index, by the writer or by any replica that had
    observed the same segments, the dedup state rebuilt from the log for a
    producer of the group equals the state the flush held in memory after
    admitting its batches: no sequence is forgotten, invented or reordered by
    the footer encoding, the resident-coordinate bound and the fenced view
    between them. *)
Theorem log_fold_is_writer_state (ix : PrefixIndex) (now seq modified : Z)
    (cached : Topition -> option Z) (high : Topition -> result Z) (pending : list PrefixPending)
    (era nonce_ version : Z) (payload : bytes) (f : SegmentFooter)
    (t : Topition) (indices : list nat) (p : PrefixPending) (id : Z) :
  let s := Pending.substream p in
  let a := group_assign ix cached high pending t p indices in
  reachable ix -> (forall k, k ∈ dom (Index.segments ix) -> k < seq) ->
  Forall (fun x => 1 <= Entry.record_count x.2 /\ i64_MIN <= Entry.base_offset x.2)
    (substream_entries ix s (Topition.partition t)) ->
  identified pending ->
  Forall (fun p => markers_unsequenced (Pending.batch p) /\
                   0 <= Deflated.last_offset_delta (Pending.batch p)) pending ->
  (t, indices) ∈ grouped pending -> (head indices ≫= fun i => pending !! i) = Some p ->
  encode_segment_indexed (substreams (plan ix cached high pending)) era nonce_ version
    = Ok (payload, f) ->
  total_records (admitted a) < 2 ^ 32 -> i64_MIN <= group_base ix cached high t p -> id <> -1 ->
  producer_tail (index_insert ix now seq f modified) s (Topition.partition t) id =
  default (producer_tail ix s (Topition.partition t) id) (tails a !! id).
Proof.
  intros s a Hok%reachable_ok Hseq Hcount Hident Hpend Htg Hp Henc Htot Hbase Hid.
  destruct (assign_group_folds (producer_tail ix s (Topition.partition t)) pending
    (group_base ix cached high t p) [] indices id Hid Hpend) as [Hnn Hfold].
  fold s in Hfold, Hnn. change (assign_group _ _ _ _ _) with a in Hfold, Hnn.
  rewrite Hfold by done. clear Hfold.
  pose proof (flush_entries _ _ _ _ _ _ _ _ _ _ _ _ Hident Htg Hp Henc) as Hent.
  apply encode_segment_log in Henc as [Hera _].
  unfold producer_tail at 1, valid_substream_segments, candidates_of.
  rewrite substream_entries_insert, filter_resident, map_app by done. fold s in Hent.
  unfold region in Hent. cbn [fst snd] in Hent. rewrite Hp in Hent. fold a in Hent.
  destruct (admitted a) as [|b0 bs0] eqn:Ead.
  { apply Forall2_nil_inv_l in Hent. rewrite Hent. cbn [map]. by rewrite app_nil_r. }
  rewrite <- Ead in *.
  apply Forall2_cons_inv_l in Hent as (e & es & (_ & _ & _ & Heb & Hec & Hep) & Hnil & ->).
  apply Forall2_nil_inv_l in Hnil as ->. cbn in Heb, Hec, Hep. cbn [map].
  rewrite fence_all_snoc.
  - rewrite map_app. unfold producer_tail_folded at 1. rewrite fold_left_app. cbn.
    rewrite Heb, Hep. apply retain_fold_coords, producer_tail_window.
  - apply Forall_map. destruct (leaseless_base_past ix s t (cached t) (high t) Hcount) as [Hpast _].
    rewrite Forall_forall in Hcount. rewrite Forall_forall in Hpast. apply Forall_forall.
    intros [[q w] x] Hx. specialize (Hcount _ Hx). specialize (Hpast _ Hx). cbn in *.
    rewrite Heb. unfold Entry.end_ in *. unfold group_base. fold s. lia.
  - cbn. rewrite Heb. unfold Entry.end_. cbn. rewrite Heb, Hec, Ead. rewrite Ead in Hnn.
    apply Forall_cons in Hnn as [? Hnn]. pose proof (total_records_nonneg _ Hnn). cbn. lia.
Qed.

Lemma log_fold_is_writer_state_witness :
  exists payload f,
    encode_segment_indexed (substreams (plan Index.empty (fun _ => None) (fun _ => Ok 7) sample_pending))
      1 3 4 = Ok (payload, f) /\
    producer_tail (index_insert Index.empty 9 0 f 9) (Name (ascii_bytes "orders")) 0 5
      = Tail.mk 0 true 1 [(0, 7)].
Proof.
  destruct (encode_segment_indexed (substreams (plan Index.empty (fun _ => None) (fun _ => Ok 7)
    sample_pending)) 1 3 4) as [[payload f]| |] eqn:E; [|by vm_compute in E|by vm_compute in E].
  exists payload, f. split; [done|].
  pose proof (log_fold_is_writer_state Index.empty 9 0 9 (fun _ => None) (fun _ => Ok 7) sample_pending
    1 3 4 payload f (Topition.mk (ascii_bytes "orders") 0) [0%nat]
    (Pending.mk (Topition.mk (ascii_bytes "orders") 0) (Name (ascii_bytes "orders")) sample_first) 5) as H.
  cbn zeta in H. cbn [Pending.substream Topition.partition] in H.
  rewrite H; clear H; [by vm_compute|apply rtc_refl|..].
  - intros k Hk. by vm_compute in Hk.
  - constructor.
  - split; [repeat constructor|]. intros p q Hp Hq _.
    apply elem_of_cons in Hp as [->|Hp]; [|apply list_elem_of_singleton in Hp as ->];
      (apply elem_of_cons in Hq as [->|Hq]; [done|by apply list_elem_of_singleton in Hq as ->]).
  - repeat constructor; done || (vm_compute; congruence).
  - replace (grouped sample_pending) with
      [(Topition.mk (ascii_bytes "orders") 0, [0%nat]); (Topition.mk (ascii_bytes "orders") 1, [1%nat])]
      by by vm_compute. by left.
  - done.
  - done.
  - by vm_compute.
  - vm_compute. congruence.
  - done.
Defined.
