(* ===== verification/Protocol.v ===== *)
(** * Protocol: many writers, one bucket

    The leaseless arbiter as a transition system: any number of writers fold the
    bucket, plan and encode a flush ([flush_prefix_coalesced_leaseless] of
    [tansu-storage/src/dynostore/coalesce.rs]) and create a segment at the name
    they chose, while maintenance raises watermarks and the sequence floor and
    deletes segments ([retire_segments], [raise_seq_floor] of
    [dynostore/segments.rs]; the write-ahead order of
    [expire_prefix_segments]) and compaction creates merged segments
    ([assign_and_create_segment]).

    A fold is one step: what a refresh needs to see a whole bucket is the subject
    of [Refresh].  Between a writer's fold and its create, everything else may
    happen.  A watermark read may fail, in which case the flush plans as if the
    watermark were 0, and a segment may be deleted whether or not the watermark
    that was to cover it was written, since neither error is propagated; what
    histories have to avoid for offsets to stay unique is stated separately
    ([careful]). *)

From S2P Require Export Replay.

(** Who created a segment: a flush, which assigns offsets, or compaction, which
    moves records that have them. *)
Inductive Kind := Assigned | Merged.

Record Created := mkCreated {
  name : Z;
  body : SegmentFooter;
  kind : Kind;
}.

Record World := mkWorld {
  live : gmap Z SegmentFooter;
  seq_floor_ : Z;
  high_ : gmap SubstreamKey Z;
  created : list Created;
  flying : gmap nat Created;
}.

Definition empty_world : World := mkWorld ∅ 0 ∅ [] ∅.

(** The name a writer that sees the whole bucket picks. *)
Definition next_name (w : World) : Z :=
  Z.max (next_of (max_key (map_to_list (live w)).*1)) (seq_floor_ w).

Section protocol.
(** The identity a topic partition's batches are parked under. *)
Context (sub : Topition -> Substream).

(** The persisted watermark of a topic partition. *)
Definition read_high (w : World) (t : Topition) : result Z :=
  Ok (default 0 (high_ w !! (sub t, Topition.partition t))).

(** An index that has folded the bucket: it holds every live segment, and
    whatever it resolved was created some time. *)
Definition folds_bucket (ix : PrefixIndex) (w : World) : Prop :=
  index_ok ix /\
  (forall seq f, live w !! seq = Some f ->
     exists c, Index.segments ix !! seq = Some c /\
       entries (footer c) = map resident (entries f)) /\
  (forall seq, seq ∈ resolved ix -> exists c, c ∈ created w /\ name c = seq).

Definition well_parked (p : PrefixPending) : Prop :=
  Pending.substream p = sub (Pending.topition p) /\
  match Pending.substream p with
  | Name n => n = Topition.topic (Pending.topition p) | Id _ => True
  end.

Definition set_flying (w : World) (fl : gmap nat Created) : World :=
  mkWorld (live w) (seq_floor_ w) (high_ w) (created w) fl.

(** What a watermark read answers: the watermark, or an error. *)
Definition reads_high (w : World) (high : Topition -> result Z) : Prop :=
  forall t, high t = read_high w t \/ exists e, high t = Err e.

(** What a step is, as far as [careful] asks. *)
Inductive Label :=
  | Flushes (high : Topition -> result Z)
  | Deletes (seq : Z)
  | Drops (key : SubstreamKey)
  | Other.

Inductive step : World -> Label -> World -> Prop :=
  (** a flush folds, plans and encodes; its PUT is now in flight *)
  | step_flush w i ix cached high pending era nonce_ version payload f :
      flying w !! i = None -> folds_bucket ix w -> reads_high w high -> Forall well_parked pending ->
      encode_segment_indexed (substreams (plan ix cached high pending)) era nonce_ version
        = Ok (payload, f) ->
      step w (Flushes high)
        (set_flying w (<[i := mkCreated (Z.max (next_of (resolved_max ix)) (seq_floor_ w)) f
                                Assigned]> (flying w)))
  (** compaction, whose first candidate is its own hint raised to the floor *)
  | step_merge w i hint f :
      flying w !! i = None -> hint <= next_name w ->
      step w Other (set_flying w (<[i := mkCreated (Z.max hint (seq_floor_ w)) f Merged]> (flying w)))
  (** the create-only PUT: it lands on a free name, or the claim is dropped *)
  | step_create w i c :
      flying w !! i = Some c -> live w !! name c = None ->
      step w Other
        (mkWorld (<[name c := body c]> (live w)) (seq_floor_ w) (high_ w) (created w ++ [c])
           (delete i (flying w)))
  | step_lose w i :
      step w Other (set_flying w (delete i (flying w)))
  (** maintenance: a watermark rises, or its write fails and it does not *)
  | step_high w key h :
      step w Other
        (mkWorld (live w) (seq_floor_ w) (<[key := Z.max (default 0 (high_ w !! key)) h]> (high_ w))
           (created w) (flying w))
  (** the watermark of a deleted topic is removed, or cleared by its successor *)
  | step_drop w key :
      step w (Drops key) (mkWorld (live w) (seq_floor_ w) (delete key (high_ w)) (created w) (flying w))
  (** the floor rises write-ahead of the deletes, which do not go on when it fails *)
  | step_floor w seq :
      is_Some (live w !! seq) ->
      step w Other (mkWorld (live w) (Z.max (seq_floor_ w) (seq + 1)) (high_ w) (created w) (flying w))
  | step_delete w seq :
      is_Some (live w !! seq) -> seq < seq_floor_ w ->
      step w (Deletes seq) (mkWorld (delete seq (live w)) (seq_floor_ w) (high_ w) (created w) (flying w)).

(** Every offset of a segment is below a written watermark or in another segment. *)
Definition covered (w : World) (seq : Z) : Prop :=
  forall f e, live w !! seq = Some f -> e ∈ entries f ->
    Entry.end_ e <= default 0 (high_ w !! entry_key e) \/
    exists seq' f' e', seq' <> seq /\ live w !! seq' = Some f' /\ e' ∈ entries f' /\
      entry_key e' = entry_key e /\ Entry.end_ e <= Entry.end_ e'.

(** Watermark reads succeed; a segment is deleted when its offsets are covered and no
    PUT is in flight for its name; and no watermark is dropped. *)
Definition careful (w : World) (l : Label) : Prop :=
  match l with
  | Flushes high => forall t, high t = read_high w t
  | Deletes seq => covered w seq /\ forall i c, flying w !! i = Some c -> name c <> seq
  | Drops _ => False
  | Other => True
  end.

Definition careful_step (w w' : World) : Prop := exists l, step w l w' /\ careful w l.
Definition any_step (w w' : World) : Prop := exists l, step w l w'.

(** ** The invariant *)

(** How far a key's offsets are known to the bucket. *)
Definition reaches (w : World) (key : SubstreamKey) (x : Z) : Prop :=
  x <= default 0 (high_ w !! key) \/
  exists seq f e, live w !! seq = Some f /\ e ∈ entries f /\ entry_key e = key /\ x <= Entry.end_ e.

(** [f] starts past every offset assigned in [l]. *)
Definition past (l : list Created) (f : SegmentFooter) : Prop :=
  forall c e e', c ∈ l -> kind c = Assigned -> e ∈ entries (body c) -> e' ∈ entries f ->
    entry_key e = entry_key e' -> Entry.end_ e <= Entry.base_offset e'.

Definition frontier (w : World) : Z := Z.of_nat (length (created w)).

Record inv (w : World) : Prop := mkInv {
  inv_names : forall n c, created w !! n = Some c -> name c = Z.of_nat n;
  inv_live : forall seq f, live w !! seq = Some f -> exists c, c ∈ created w /\ name c = seq /\ body c = f;
  inv_freed : forall n, 0 <= n < frontier w -> live w !! n = None -> n < seq_floor_ w;
  inv_floor : 0 <= seq_floor_ w <= frontier w;
  inv_reach : forall c e, c ∈ created w -> kind c = Assigned -> e ∈ entries (body c) ->
    reaches w (entry_key e) (Entry.end_ e);
  inv_flying : forall i c, flying w !! i = Some c ->
    0 <= name c <= frontier w /\ (name c < frontier w -> is_Some (live w !! name c)) /\
    (name c = frontier w -> kind c = Assigned -> past (created w) (body c));
  inv_past : forall n c, created w !! n = Some c -> kind c = Assigned ->
    past (take n (created w)) (body c);
}.

(** ** Names *)

Lemma live_name w seq f : inv w -> live w !! seq = Some f -> 0 <= seq < frontier w.
Proof.
  intros Hi Hl. destruct (inv_live w Hi seq f Hl) as (c & Hc & <- & _).
  apply list_elem_of_lookup in Hc as [n Hn]. rewrite (inv_names w Hi n c Hn).
  apply lookup_lt_Some in Hn. unfold frontier. lia.
Qed.

Lemma free_name w n : inv w -> seq_floor_ w <= n <= frontier w -> live w !! n = None -> n = frontier w.
Proof.
  intros Hi Hn Hf. destruct (decide (n < frontier w)) as [Hlt|]; [|lia].
  pose proof (inv_floor w Hi). specialize (inv_freed w Hi n ltac:(lia) Hf). lia.
Qed.

(** A writer that resolved every live name and nothing that was never created
    picks the first name that was never used. *)
Lemma candidate_is_frontier w ix :
  inv w -> folds_bucket ix w -> Z.max (next_of (resolved_max ix)) (seq_floor_ w) = frontier w.
Proof.
  intros Hi (_ & Hlive & Hres). pose proof (inv_floor w Hi) as Hfl.
  assert (Hbelow : forall x, x ∈ resolved ix -> 0 <= x < frontier w).
  { intros x Hx. destruct (Hres x Hx) as (c & Hc & <-).
    apply list_elem_of_lookup in Hc as [n Hn]. rewrite (inv_names w Hi n c Hn).
    apply lookup_lt_Some in Hn. unfold frontier. lia. }
  pose proof (resolved_max_spec ix) as Hmax.
  assert (Hnext : 0 <= next_of (resolved_max ix) <= frontier w).
  { destruct (resolved_max ix) as [m|]; cbn; [|lia]. destruct Hmax as [Hm _]. apply Hbelow in Hm. lia. }
  apply (free_name w _ Hi); [lia|].
  destruct (live w !! _) as [f|] eqn:E; [|done]. exfalso.
  destruct (Hlive _ _ E) as (c & Hc & _).
  assert (Hin : Z.max (next_of (resolved_max ix)) (seq_floor_ w) ∈ resolved ix).
  { apply elem_of_union_l. by eapply elem_of_dom_2. }
  apply resolved_below_next in Hin. lia.
Qed.

Lemma next_name_is_frontier w : inv w -> next_name w = frontier w.
Proof.
  intros Hi. unfold next_name. pose proof (inv_floor w Hi) as Hfl.
  assert (Hin : forall x, x ∈ (map_to_list (live w)).*1 <-> is_Some (live w !! x)).
  { intros x. rewrite list_elem_of_fmap. split.
    - intros ([k c] & -> & Hc). apply elem_of_map_to_list in Hc. by exists c.
    - intros [c Hc]. exists (x, c). by rewrite elem_of_map_to_list. }
  destruct (max_key _) as [m|] eqn:Em; cbn.
  - apply max_key_spec in Em as [Hm Hall]. rewrite Forall_forall in Hall.
    apply Hin in Hm as [f Hf]. pose proof (live_name w m f Hi Hf).
    apply (free_name w _ Hi); [lia|].
    destruct (live w !! Z.max (m + 1) (seq_floor_ w)) eqn:E; [|done].
    assert (Z.max (m + 1) (seq_floor_ w) <= m); [|lia]. apply Hall, Hin. eexists. exact E.
  - apply (free_name w _ Hi); [lia|]. destruct (live w !! _) eqn:E; [|done]. exfalso.
    assert (Hx : is_Some (live w !! Z.max 0 (seq_floor_ w))) by (eexists; exact E).
    apply Hin in Hx. destruct ((map_to_list (live w)).*1); [by apply not_elem_of_nil in Hx|done].
Qed.

(** ** Offsets *)

Lemma in_substream_entries ix seq c e :
  index_ok ix -> Index.segments ix !! seq = Some c -> e ∈ entries (footer c) ->
  exists x, x ∈ substream_entries ix (entry_key e).1 (entry_key e).2 /\ x.2 = e.
Proof.
  intros Hok Hc He. rewrite index_ok_walk by done. exists (seq, writer_epoch (footer c), e).
  split; [|done]. unfold walk. apply list_elem_of_In, in_flat_map. exists seq. split.
  - apply list_elem_of_In. rewrite sorted_keys_perm. apply list_elem_of_fmap. exists (seq, c).
    by rewrite elem_of_map_to_list.
  - rewrite Hc. apply list_elem_of_In, list_elem_of_fmap. exists e. split; [done|].
    apply list_elem_of_filter. split; [|done]. by apply entry_key_eq.
Qed.

(** An assigned base is past everything the bucket knows of the key. *)
Lemma base_past_reach w ix cached high t p x :
  folds_bucket ix w -> well_parked p -> Pending.topition p = t ->
  reaches w (sub t, Topition.partition t) x -> high t = read_high w t -> x <= group_base ix cached high t p.
Proof.
  intros (Hok & Hlive & _) [Hsub _] <- [Hh|(seq & f & e & Hf & He & Hkey & Hx)] Hread;
    unfold group_base, leaseless_base; rewrite Hread; unfold read_high; rewrite Hsub; cbv beta iota zeta; [etransitivity; [exact Hh|]; apply Z.le_max_r|].
  destruct (Hlive seq f Hf) as (c & Hc & Hes).
  assert (He' : resident e ∈ entries (footer c)) by (rewrite Hes; apply list_elem_of_fmap; by exists e).
  destruct (in_substream_entries ix seq c (resident e) Hok Hc He') as (y & Hy & Hye).
  change (entry_key (resident e)) with (entry_key e) in Hy. rewrite Hkey in Hy. cbn in Hy.
  unfold substream_tail. destruct (max_key _) as [m|] eqn:Em.
  - apply max_key_spec in Em as [_ Hall]. rewrite Forall_forall in Hall.
    assert (Entry.end_ y.2 <= m) by (apply Hall, list_elem_of_fmap; by exists y).
    rewrite Hye in *. change (Entry.end_ (resident e)) with (Entry.end_ e) in *. cbn. lia.
  - destruct (substream_entries ix _ _); [by apply not_elem_of_nil in Hy|done].
Qed.

(** The entries a flush writes are at the bases of its groups. *)
Lemma flush_entry ix cached high pending era nonce_ version payload f e :
  Forall well_parked pending ->
  encode_segment_indexed (substreams (plan ix cached high pending)) era nonce_ version
    = Ok (payload, f) -> e ∈ entries f ->
  exists t p, p ∈ pending /\ Pending.topition p = t /\
    entry_key e = (sub t, Topition.partition t) /\ Entry.base_offset e = group_base ix cached high t p.
Proof.
  intros Hpark H He. apply encode_segment_log in H as [_ Hall].
  apply list_elem_of_lookup in He as [k Hk].
  destruct (Forall2_lookup_r _ _ _ _ _ Hall Hk) as (w & Hw & Ht & Hid & Hp & Hb & _).
  apply list_elem_of_lookup_2, list_elem_of_filter in Hw as [_ Hw].
  destruct (plan_spec ix cached high pending) as (_ & _ & Hfrom & _). rewrite Forall_forall in Hfrom.
  destruct (Hfrom w Hw) as (tg & p & adm & bs & Htg & Hq & -> & _). cbn in Ht, Hid, Hp, Hb.
  destruct (group_pending pending tg p Htg Hq) as [Hpin Hpt]. exists tg.1, p.
  split; [done|]. split; [done|]. split; [|done].
  rewrite Forall_forall in Hpark. destruct (Hpark p Hpin) as [Hs Hn].
  unfold entry_key, Entry.substream. rewrite Hid, Ht, Hp, <- Hpt, <- Hs. f_equal.
  destruct (Pending.substream p) as [n|i]; cbn; [by rewrite Hn|done].
Qed.

Lemma flush_past w ix cached high pending era nonce_ version payload f :
  inv w -> folds_bucket ix w -> (forall t, high t = read_high w t) -> Forall well_parked pending ->
  encode_segment_indexed (substreams (plan ix cached high pending)) era nonce_ version
    = Ok (payload, f) -> past (created w) f.
Proof.
  intros Hi Hf Hread Hpark H c e e' Hc Hk He He' Hkey.
  destruct (flush_entry _ _ _ _ _ _ _ _ _ e' Hpark H He') as (t & p & Hp & Ht & Hke & ->).
  pose proof (inv_reach w Hi c e Hc Hk He) as Hr. rewrite Hkey, Hke in Hr.
  rewrite Forall_forall in Hpark. eapply base_past_reach; [done|by apply Hpark|done|done|done].
Qed.

(** ** Every step keeps the invariant *)

Lemma inv_set_flying w fl :
  inv w ->
  (forall i c, fl !! i = Some c ->
    0 <= name c <= frontier w /\ (name c < frontier w -> is_Some (live w !! name c)) /\
    (name c = frontier w -> kind c = Assigned -> past (created w) (body c))) ->
  inv (set_flying w fl).
Proof. intros [H1 H2 H3 H4 H5 H6 H7] Hfl. by constructor. Qed.

Lemma inv_create w i c :
  inv w -> flying w !! i = Some c -> live w !! name c = None ->
  inv (mkWorld (<[name c := body c]> (live w)) (seq_floor_ w) (high_ w) (created w ++ [c])
         (delete i (flying w))).
Proof.
  intros Hi Hc Hfree. destruct (inv_flying w Hi i c Hc) as (Hle & Hlt & Hpast).
  assert (Hname : name c = frontier w).
  { destruct (decide (name c < frontier w)) as [H|]; [|lia]. apply Hlt in H as [f Hf]. congruence. }
  assert (Hfr : forall l fl h q, frontier (mkWorld l q h (created w ++ [c]) fl) = frontier w + 1).
  { intros. unfold frontier. cbn. rewrite length_app. cbn. lia. }
  constructor; rewrite ?Hfr; cbn.
  - intros n x Hn. apply lookup_app_Some in Hn as [Hn|[Hn Hx]]; [by apply (inv_names w Hi)|].
    apply list_lookup_singleton_Some in Hx as [Hn0 <-]. rewrite Hname. unfold frontier. lia.
  - intros seq f Hl. apply lookup_insert_Some in Hl as [[<- <-]|[Hne Hl]].
    + exists c. set_solver.
    + destruct (inv_live w Hi seq f Hl) as (x & Hx & ? & ?). exists x. set_solver.
  - intros n Hn Hl. apply lookup_insert_None in Hl as [Hl Hne]. apply (inv_freed w Hi); [lia|done].
  - pose proof (inv_floor w Hi). lia.
  - intros x e Hx Hk He. apply elem_of_app in Hx as [Hx|Hx].
    + destruct (inv_reach w Hi x e Hx Hk He) as [?|(seq & f & e' & Hf & Hrest)]; [by left|right].
      exists seq, f, e'. cbn. split; [|done]. rewrite lookup_insert_ne; [done|]. intros Heq.
      rewrite Heq in Hfree. congruence.
    + apply list_elem_of_singleton in Hx as ->. right. exists (name c), (body c), e. cbn.
      rewrite lookup_insert_eq. split_and!; [done|done|done|lia].
  - intros j x Hx. apply lookup_delete_Some in Hx as [_ Hx].
    destruct (inv_flying w Hi j x Hx) as (Hle' & Hlt' & _). split; [lia|]. split; [|lia].
    intros _. destruct (decide (name x = name c)) as [->|Hne]; [by rewrite lookup_insert_eq|].
    rewrite lookup_insert_ne by done. apply Hlt'. lia.
  - intros n x Hn Hk. apply lookup_app_Some in Hn as [Hn|[Hn Hx]].
    + apply lookup_lt_Some in Hn as Hl. rewrite take_app_le by lia. by apply (inv_past w Hi).
    + apply list_lookup_singleton_Some in Hx as [Hn0 <-].
      rewrite take_app_length' by lia. by apply Hpast.
Qed.

Lemma reaches_high w key h key' x :
  reaches w key' x ->
  reaches (mkWorld (live w) (seq_floor_ w) (<[key := Z.max (default 0 (high_ w !! key)) h]> (high_ w))
             (created w) (flying w)) key' x.
Proof.
  intros [Hx|Hx]; [left|by right]. cbn. destruct (decide (key' = key)) as [->|Hne].
  - rewrite lookup_insert_eq. cbn. lia.
  - by rewrite lookup_insert_ne.
Qed.

Lemma inv_delete w seq f :
  inv w -> live w !! seq = Some f -> seq < seq_floor_ w ->
  covered w seq -> (forall i c, flying w !! i = Some c -> name c <> seq) ->
  inv (mkWorld (delete seq (live w)) (seq_floor_ w) (high_ w) (created w) (flying w)).
Proof.
  intros Hi Hf Hlt Hcov Hq. constructor; cbn.
  - apply (inv_names w Hi).
  - intros n g Hl. apply lookup_delete_Some in Hl as [_ Hl]. by apply (inv_live w Hi).
  - intros n Hn Hl. apply lookup_delete_None in Hl as [->|Hl]; [done|]. by apply (inv_freed w Hi).
  - apply (inv_floor w Hi).
  - intros c e Hc Hk He. destruct (inv_reach w Hi c e Hc Hk He) as [?|(n & g & e' & Hg & He' & Hkey & Hx)];
      [by left|]. destruct (decide (n = seq)) as [->|Hne].
    + assert (g = f) as -> by congruence. destruct (Hcov f e' Hf He') as [Hh|(n' & g' & e'' & Hn' & Hg' & Hin & Hk' & Hle)].
      * left. rewrite Hkey in Hh. etransitivity; [exact Hx|exact Hh].
      * right. exists n', g', e''. cbn. rewrite lookup_delete_ne by done.
        split_and!; [done|done|congruence|lia].
    + right. exists n, g, e'. cbn. by rewrite lookup_delete_ne.
  - intros i c Hc. destruct (inv_flying w Hi i c Hc) as (Hle & Hl & Hp). split; [done|].
    split; [|done]. intros H. rewrite lookup_delete_ne; [by apply Hl|]. intros E. by eapply (Hq i c Hc).
  - apply (inv_past w Hi).
Qed.

Lemma careful_inv w w' : inv w -> careful_step w w' -> inv w'.
Proof.
  intros Hi (l & Hs & Hq). destruct Hs as [w i ix cached high pending era nonce_ version payload f Hn Hf _ Hp He
    |w i hint f Hn Hh|w i c Hc Hfree|w i|w key h|w key|w seq [f Hf]|w seq [f Hf] Hlt]; cbn in Hq.
  - apply inv_set_flying; [done|]. intros j c Hc.
    apply lookup_insert_Some in Hc as [[<- <-]|[_ Hc]]; [|by apply (inv_flying w Hi j)].
    cbn. rewrite (candidate_is_frontier w ix Hi Hf). split; [unfold frontier; lia|].
    split; [lia|]. intros _ _. by eapply flush_past.
  - apply inv_set_flying; [done|]. intros j c Hc.
    apply lookup_insert_Some in Hc as [[<- <-]|[_ Hc]]; [|by apply (inv_flying w Hi j)].
    cbn. rewrite (next_name_is_frontier w Hi) in Hh. pose proof (inv_floor w Hi) as Hfl.
    split; [lia|]. split; [|done]. intros Hlt.
    destruct (live w !! Z.max hint (seq_floor_ w)) eqn:E; [by eexists|].
    pose proof (free_name w (Z.max hint (seq_floor_ w)) Hi ltac:(lia) E). lia.
  - by apply inv_create.
  - apply inv_set_flying; [done|]. intros j c [_ Hc]%lookup_delete_Some. by apply (inv_flying w Hi j).
  - destruct Hi as [H1 H2 H3 H4 H5 H6 H7]. constructor; try done.
    intros c e Hc Hk He. apply reaches_high. by apply (H5 c).
  - done.
  - pose proof (live_name w seq f Hi Hf) as Hr. destruct Hi as [H1 H2 H3 H4 H5 H6 H7].
    constructor; try done; cbn in *.
    + intros n Hn Hl. specialize (H3 n Hn Hl). lia.
    + unfold frontier in *. cbn in *. lia.
  - destruct Hq. by apply (inv_delete w seq f).
Qed.

Lemma inv_empty : inv empty_world.
Proof.
  constructor; cbn; try done; unfold frontier; cbn; try lia.
  - intros c e Hc. by apply not_elem_of_nil in Hc.
Qed.

Lemma careful_reachable_inv w : rtc careful_step empty_world w -> inv w.
Proof.
  intros H. assert (Hgen : forall w0, rtc careful_step w0 w -> inv w0 -> inv w).
  { clear. induction 1 as [|x y z Hs _ IH]; [done|]. intros. by eapply IH, careful_inv. }
  by eapply Hgen, inv_empty.
Qed.

(** ** Properties *)


End protocol.

(** ** Two writers, concretely *)

Definition by_name (t : Topition) : Substream := Name (Topition.topic t).

Definition sample_plain : Deflated.Batch :=
  Deflated.mk 0 53 (-1) 2 99 0 0 1000 1000 (-1) (-1) (-1) 1 [x06; x00; x00; x00].

Definition sample_park : list PrefixPending :=
  [Pending.mk (Topition.mk (ascii_bytes "orders") 0) (Name (ascii_bytes "orders")) sample_plain].

Definition sample_key : SubstreamKey := (Name (ascii_bytes "orders"), 0).

(** What flushing [sample_park] at [base] writes. *)
Definition sample_written (base : Z) : SegmentFooter :=
  mkFooter 1 3 [Entry.mk (ascii_bytes "orders") None 0 base 1 0 65 1000 []].

Definition sample_seen : PrefixIndex := index_insert Index.empty 0 0 (sample_written 0) 0.

Lemma sample_parked : Forall (well_parked by_name) sample_park.
Proof. by repeat constructor. Qed.

Lemma folds_empty w : live w = ∅ -> folds_bucket Index.empty w.
Proof.
  intros Hl. split; [apply reachable_ok, rtc_refl|]. split.
  - intros seq f H. by rewrite Hl, lookup_empty in H.
  - intros seq H. unfold resolved in H. set_solver.
Qed.

(** A flush that saw nothing claims the first name and the first offset. *)
Lemma sample_flush_empty w i :
  flying w !! i = None -> live w = ∅ -> high_ w = ∅ -> seq_floor_ w = 0 ->
  step by_name w (Flushes (read_high by_name w))
    (set_flying w (<[i := mkCreated 0 (sample_written 0) Assigned]> (flying w))).
Proof.
  intros Hi Hl Hh Hf.
  assert (E : exists payload, encode_segment_indexed
    (substreams (plan Index.empty (fun _ => None) (read_high by_name w) sample_park)) 1 3 4
    = Ok (payload, sample_written 0)).
  { assert (Hr : forall t, read_high by_name w t = Ok 0) by (intros t; unfold read_high; by rewrite Hh).
    unfold plan, plan_group. cbn [grouped sample_park group_from group_push fold_left].
    rewrite Hr. eexists. vm_compute. reflexivity. }
  destruct E as [payload E].
  pose proof (step_flush by_name w i Index.empty (fun _ => None) (read_high by_name w) sample_park 1 3 4 payload
    (sample_written 0) Hi (folds_empty w Hl) (fun t => or_introl eq_refl) sample_parked E) as H.
  by rewrite Hf in H.
Qed.

(** After the first segment, a flush that folded it claims the next of both. *)
Lemma sample_flush_second w i :
  flying w !! i = None -> live w = {[0 := sample_written 0]} -> high_ w = ∅ -> seq_floor_ w = 0 ->
  created w = [mkCreated 0 (sample_written 0) Assigned] ->
  step by_name w (Flushes (read_high by_name w))
    (set_flying w (<[i := mkCreated 1 (sample_written 1) Assigned]> (flying w))).
Proof.
  intros Hi Hl Hh Hf Hc.
  assert (E : exists payload, encode_segment_indexed
    (substreams (plan sample_seen (fun _ => None) (read_high by_name w) sample_park)) 1 3 4
    = Ok (payload, sample_written 1)).
  { assert (Hr : forall t, read_high by_name w t = Ok 0) by (intros t; unfold read_high; by rewrite Hh).
    unfold plan, plan_group. cbn [grouped sample_park group_from group_push fold_left].
    rewrite Hr. eexists. vm_compute. reflexivity. }
  destruct E as [payload E].
  assert (Hfold : folds_bucket sample_seen w).
  { split; [apply reachable_ok; eapply rtc_l; [apply step_insert|apply rtc_refl]|]. split.
    - intros seq f H. rewrite Hl in H. apply lookup_singleton_Some in H as [<- <-].
      exists (stored (mkCached (sample_written 0) 0)). by vm_compute.
    - intros seq H. exists (mkCreated 0 (sample_written 0) Assigned). rewrite Hc.
      split; [by left|]. unfold resolved, sample_seen, index_insert in H.
      cbn [Index.segments Index.opaque] in H. rewrite insert_segment_segments in H.
      destruct (insert_segment_rest Index.empty 0 (mkCached (sample_written 0) 0)) as (Ho & _).
      rewrite Ho in H. cbn. set_solver. }
  pose proof (step_flush by_name w i sample_seen (fun _ => None) (read_high by_name w) sample_park 1 3 4 payload
    (sample_written 1) Hi Hfold (fun t => or_introl eq_refl) sample_parked E) as H.
  by rewrite Hf in H.
Qed.


(** The create-only PUT alone does not keep names fresh.  A writer whose PUT is in
    flight while a peer takes the same name, is acknowledged, and has its segment
    expired (watermark, then floor, then delete, in the order the code uses) still
    wins its create: the name is reused, and the two acknowledged flushes hold the
    same offsets. *)
Example retired_candidate_is_reused :
  exists w c c' e e', rtc (any_step by_name) empty_world w /\ created w = [c; c'] /\
    name c = name c' /\ kind c = Assigned /\ kind c' = Assigned /\
    e ∈ entries (body c) /\ e' ∈ entries (body c') /\ entry_key e = entry_key e' /\
    Entry.base_offset e = Entry.base_offset e' /\ Entry.base_offset e < Entry.end_ e.
Proof.
  set (c := mkCreated 0 (sample_written 0) Assigned).
  set (e := Entry.mk (ascii_bytes "orders") None 0 0 1 0 65 1000 []).
  assert (H : exists w, rtc (any_step by_name) empty_world w /\ created w = [c; c]).
  2: { destruct H as (w & Hr & Hc). exists w, c, c, e, e. split; [done|]. split; [done|].
       repeat (split; [done || by left|]). by vm_compute. }
  eexists. split; [|shelve].
  eapply rtc_l; [eexists; by apply (sample_flush_empty _ 0)|].
  eapply rtc_l; [eexists; by apply (sample_flush_empty _ 1)|].
  eapply rtc_l; [eexists; by apply (step_create by_name _ 1 c)|].
  eapply rtc_l; [eexists; apply (step_high by_name _ sample_key 1)|].
  eapply rtc_l; [eexists; apply (step_floor by_name _ 0); by eexists|].
  eapply rtc_l; [eexists; apply (step_delete by_name _ 0); [by eexists|by vm_compute]|].
  eapply rtc_l; [eexists; by apply (step_create by_name _ 0 c)|]. apply rtc_refl.
  Unshelve. reflexivity.
Qed.
