(* ===== verification/Routing.v ===== *)
(** * Routing: which prefix a topic's records share, and for how long

    [prefix_of] and [routed_prefix] of [tansu-storage/src/dynostore/routing.rs],
    and the retention policy of [dynostore/retention.rs]: the effective
    [retention.ms] of a topic, the marker a deleted topic leaves on its prefix,
    and the threshold each prefix is expired at.

    The prefix shape (depth and separator) is sealed for a cluster's life and
    is a [Shape] here; the topics are the topic index and the markers the
    etag-delta cache after its refresh. *)

From S2P Require Export Flush.

(** ** [str] helpers *)

(** [str::split] on a non-empty separator, at most [fuel] steps: one step per
    byte of [s] and one for its end are enough. *)
Fixpoint split_loop (fuel : nat) (sep s cur : bytes) : list bytes :=
  match fuel with
  | O => [rev cur]
  | S fuel =>
      if starts_with s sep then rev cur :: split_loop fuel sep (drop (length sep) s) []
      else match s with
           | [] => [rev cur]
           | c :: s => split_loop fuel sep s (c :: cur)
           end
  end.

Definition split (sep s : bytes) : list bytes := split_loop (S (length s)) sep s [].

(** [str::contains] *)
Fixpoint contains (s sub : bytes) : bool :=
  starts_with s sub || match s with [] => false | _ :: s => contains s sub end.

Definition digit (b : byte) : option Z :=
  let z := Z_of_byte b in if (48 <=? z) && (z <=? 57) then Some (z - 48) else None.

Fixpoint digits (acc : Z) (s : bytes) : option Z :=
  match s with
  | [] => Some acc
  | b :: s => match digit b with None => None | Some d => digits (10 * acc + d) s end
  end.

(** [i64::from_str]: a sign, then at least one digit, within 64 bits. *)
Definition parse_i64 (s : bytes) : option Z :=
  let signed sign s :=
    match s with
    | [] => None
    | _ => z ← digits 0 s;
           let z := sign * z in
           if (i64_MIN <=? z) && (z <=? i64_MAX) then Some z else None
    end in
  match s with
  | [] => None
  | b :: rest => if Z_of_byte b =? 43 then signed 1 rest
                 else if Z_of_byte b =? 45 then signed (-1) rest
                 else signed 1 s
  end.

(** ** The connector prefix *)

(** [prefix_depth] and [prefix_separator]. *)
Record Shape := mkShape { prefix_depth : nat; prefix_separator : bytes }.

(** The loop over [0..prefix_depth], from [i]. *)
Fixpoint prefix_loop (topic sep : bytes) (left_ i : nat) (parts : list bytes) (prefix : bytes) : bytes :=
  match left_ with
  | O => prefix
  | S left_ =>
      match parts with
      | [] => topic
      | part :: parts =>
          prefix_loop topic sep left_ (S i) parts
            ((if (0 <? i)%nat then prefix ++ sep else prefix) ++ part)
      end
  end.

Definition prefix_of (sh : Shape) (topic : bytes) : bytes :=
  if (prefix_depth sh =? 0)%nat then topic
  else prefix_loop topic (prefix_separator sh) (prefix_depth sh) 0
         (split (prefix_separator sh) topic) [].

Definition routed_prefix (sh : Shape) (topic : bytes) (compacted : bool) : bytes :=
  if compacted then topic else prefix_of sh topic.

(** ** Retention *)

(** The fields of [CreatableTopic] retention reads. *)
Module TopicConfig.
Record CreatableTopic := mk {
  name : bytes;
  num_partitions : Z;
  configs : option (list (bytes * option bytes));
}.
End TopicConfig.
Export TopicConfig (CreatableTopic).

(** [.find(|config| config.name == key).and_then(|config| config.value)] *)
Definition config_value (t : CreatableTopic) (key : bytes) : option bytes :=
  List.find (fun c => bool_decide (c.1 = key)) (default [] (TopicConfig.configs t)) ≫= snd.

Definition DEFAULT_RETENTION_MS : Z := 7 * 24 * 60 * 60 * 1000.

Definition effective_retention_ms (t : CreatableTopic) : Z :=
  match config_value t (ascii_bytes "retention.ms") ≫= parse_i64 with
  | Some ms => if ms <? 0 then i64_MAX else ms
  | None => DEFAULT_RETENTION_MS
  end.

Definition policy_of (t : CreatableTopic) : bytes :=
  default [] (config_value t (ascii_bytes "cleanup.policy")).

Definition is_compacted (t : CreatableTopic) : bool := contains (policy_of t) (ascii_bytes "compact").

Definition compact_only (t : CreatableTopic) : bool :=
  is_compacted t && negb (contains (policy_of t) (ascii_bytes "delete")).

Module RetiredPrefix.
Record RetiredPrefix := mk { retention_ms : Z; topic : bytes; retired_at_ms : Z }.

Definition empty : RetiredPrefix := mk 0 [] 0.

Definition retire (r : RetiredPrefix) (topic_ : bytes) (retention now_ms : Z) : RetiredPrefix :=
  mk (Z.max (retention_ms r) retention) topic_ now_ms.
End RetiredPrefix.
Export RetiredPrefix (RetiredPrefix).

(** [entry(prefix).and_modify(..).or_insert(retention_ms)] *)
Definition fold_retention (m : gmap bytes Z) (prefix : bytes) (retention : Z) : gmap bytes Z :=
  match m !! prefix with
  | Some existing => if existing <? retention then <[prefix := retention]> m else m
  | None => <[prefix := retention]> m
  end.

(** The loop over [0..num_partitions]: every partition routes to one prefix. *)
Definition fold_topic (sh : Shape) (acc : gmap bytes Z * gset bytes) (t : CreatableTopic)
    : gmap bytes Z * gset bytes :=
  if compact_only t then
    (acc.1, {[routed_prefix sh (TopicConfig.name t) true]} ∪ acc.2)
  else
    (Nat.iter (Z.to_nat (TopicConfig.num_partitions t))
       (fun m => fold_retention m (routed_prefix sh (TopicConfig.name t) (is_compacted t))
                   (effective_retention_ms t)) acc.1, acc.2).

(** The live topics' retention, then the markers' where nothing live speaks. *)
Definition live_retention (sh : Shape) (topics : list CreatableTopic) : gmap bytes Z * gset bytes :=
  fold_left (fold_topic sh) topics (∅, ∅).

Definition prefix_retention (sh : Shape) (topics : list CreatableTopic) (retired : gmap bytes Z)
    : gmap bytes Z :=
  let '(live, exempt) := live_retention sh topics in
  live ∪ filter (fun kv => kv.1 ∉ exempt) retired.

(** [segment_retention_thresholds]; [owned] is the tick's maintenance claim. *)
Definition segment_retention_thresholds (sh : Shape) (topics : list CreatableTopic)
    (retired : gmap bytes Z) (now_ms : Z) (owned : option (gset bytes)) : gmap bytes Z :=
  (fun retention => sat_i64 (now_ms - retention)) <$>
    filter (fun kv => match owned with None => true | Some o => bool_decide (kv.1 ∈ o) end = true)
      (prefix_retention sh topics retired).

(** ** The prefix is an initial run of components *)

Fixpoint join (sep : bytes) (parts : list bytes) : bytes :=
  match parts with
  | [] => []
  | [p] => p
  | p :: parts => p ++ sep ++ join sep parts
  end.

Lemma join_cons sep p parts : parts <> [] -> join sep (p :: parts) = p ++ sep ++ join sep parts.
Proof. by destruct parts. Qed.

Lemma split_loop_nonempty fuel sep s cur : split_loop fuel sep s cur <> [].
Proof.
  revert s cur. induction fuel as [|fuel IH]; intros s cur; cbn [split_loop]; [done|].
  destruct (starts_with _ _); [done|]. destruct s; [done|]. apply IH.
Qed.

Lemma join_split_loop fuel sep s cur :
  sep <> [] -> (length s < fuel)%nat -> join sep (split_loop fuel sep s cur) = rev cur ++ s.
Proof.
  intros Hsep. revert s cur. induction fuel as [|fuel IH]; intros s cur Hf; [lia|]. cbn [split_loop].
  destruct (starts_with s sep) eqn:E.
  - apply starts_with_spec in E as [rest ->]. rewrite drop_app_length, length_app in *.
    rewrite join_cons by apply split_loop_nonempty. rewrite IH; [done|].
    destruct sep; [done|]. cbn in Hf. lia.
  - destruct s as [|c s]; [by rewrite app_nil_r|]. rewrite IH by (cbn in Hf; lia).
    cbn. by rewrite <- app_assoc.
Qed.

Lemma join_split sep s : sep <> [] -> join sep (split sep s) = s.
Proof. intros Hsep. unfold split. rewrite join_split_loop; [done..|lia]. Qed.

(** What the loop returns past the first component: the topic when the
    components run out, else the prefix so far and the next ones, separated. *)
Lemma prefix_loop_spec topic sep n i parts prefix :
  prefix_loop topic sep n (S i) parts prefix =
  if (length parts <? n)%nat then topic
  else prefix ++ concat (map (app sep) (take n parts)).
Proof.
  revert i parts prefix. induction n as [|n IH]; intros i parts prefix; cbn [prefix_loop].
  { by rewrite take_0, app_nil_r. }
  destruct parts as [|p parts]; [done|]. rewrite IH. cbn [length take map concat].
  change (S (length parts) <? S n)%nat with (length parts <? n)%nat.
  destruct (length parts <? n)%nat; [done|]. cbn. by rewrite <- !app_assoc.
Qed.

Lemma concat_join sep p parts : p ++ concat (map (app sep) parts) = join sep (p :: parts).
Proof.
  revert p. induction parts as [|q parts IH]; intros p; [by rewrite app_nil_r|].
  cbn [map concat]. rewrite join_cons by done. by rewrite <- IH, <- !app_assoc.
Qed.

Lemma prefix_of_join sh topic :
  prefix_of sh topic =
  let parts := split (prefix_separator sh) topic in
  if (prefix_depth sh =? 0)%nat || (length parts <? prefix_depth sh)%nat then topic
  else join (prefix_separator sh) (take (prefix_depth sh) parts).
Proof.
  unfold prefix_of. cbn zeta. destruct (prefix_depth sh) as [|d]; [done|].
  cbn [Nat.eqb orb prefix_loop].
  destruct (split _ topic) as [|p parts]; [done|]. rewrite prefix_loop_spec. cbn [length take].
  change (S (length parts) <? S d)%nat with (length parts <? d)%nat.
  destruct (_ <? _)%nat; [done|]. cbn [Nat.ltb Nat.leb app]. apply concat_join.
Qed.

Lemma join_app sep l k :
  k <> [] -> l <> [] -> join sep (l ++ k) = join sep l ++ sep ++ join sep k.
Proof.
  intros Hk. induction l as [|x l IH]; intros Hl; [done|]. destruct l as [|y l].
  - cbn [app]. by rewrite join_cons.
  - change ((x :: y :: l) ++ k) with (x :: (y :: l) ++ k).
    rewrite (join_cons _ x ((y :: l) ++ k)), (join_cons _ x (y :: l)), IH by done.
    by rewrite <- !app_assoc.
Qed.

(** A topic lies under its prefix: the prefix is the whole name, or the name
    goes on with a separator. *)
Lemma prefix_of_initial sh topic :
  prefix_separator sh <> [] ->
  prefix_of sh topic = topic \/
  exists rest, topic = prefix_of sh topic ++ prefix_separator sh ++ rest.
Proof.
  intros Hsep. rewrite prefix_of_join. cbn zeta.
  destruct (Nat.eqb_spec (prefix_depth sh) 0) as [|Hd]; [by left|]. cbn [orb].
  destruct (_ <? _)%nat eqn:El; [by left|]. apply Nat.ltb_ge in El.
  pose proof (join_split (prefix_separator sh) topic Hsep) as Hj.
  set (parts := split _ topic) in *. rewrite <- (take_drop (prefix_depth sh) parts) in Hj.
  destruct (drop (prefix_depth sh) parts) as [|p l] eqn:E.
  { left. by rewrite app_nil_r in Hj. }
  right. exists (join (prefix_separator sh) (p :: l)). rewrite <- Hj at 1. apply join_app; [done|].
  intros Ht. destruct parts; [by rewrite drop_nil in E|]. by destruct (prefix_depth sh).
Qed.

(** ** What a prefix is expired at *)

(** A topic that keeps [prefix] from expiring early: time-expired, with a
    partition routed there. *)
Definition occupies (sh : Shape) (prefix : bytes) (t : CreatableTopic) : bool :=
  negb (compact_only t) && (0 <? TopicConfig.num_partitions t)
  && bool_decide (routed_prefix sh (TopicConfig.name t) (is_compacted t) = prefix).

(** The longest retention among the topics routed to [prefix]. *)
Definition longest (sh : Shape) (topics : list CreatableTopic) (prefix : bytes) : option Z :=
  max_key (map effective_retention_ms (List.filter (occupies sh prefix) topics)).

Definition exempted (topics : list CreatableTopic) (prefix : bytes) : bool :=
  existsb (fun t => compact_only t && bool_decide (TopicConfig.name t = prefix)) topics.

Lemma lookup_fold_retention m p r q :
  fold_retention m p r !! q =
  if decide (q = p) then Some (Z.max (default r (m !! p)) r) else m !! q.
Proof.
  unfold fold_retention. case_decide as Hq.
  - subst q. destruct (m !! p) as [x|] eqn:E; cbn.
    + destruct (Z.ltb_spec x r); rewrite ?lookup_insert_eq, ?E; f_equal; lia.
    + rewrite lookup_insert_eq. f_equal. lia.
  - destruct (m !! p) as [x|]; [destruct (x <? r)|]; by rewrite ?lookup_insert_ne.
Qed.

Lemma lookup_iter_retention n m p r q :
  Nat.iter n (fun m => fold_retention m p r) m !! q =
  if decide (q = p /\ n <> 0%nat) then Some (Z.max (default r (m !! p)) r) else m !! q.
Proof.
  induction n as [|n IH].
  { rewrite decide_False by naive_solver. done. }
  change (Nat.iter (S n) ?f m) with (f (Nat.iter n f m)). cbn beta.
  rewrite lookup_fold_retention. destruct (decide (q = p)) as [->|Hq].
  - rewrite decide_True by naive_solver. rewrite IH. f_equal.
    destruct (decide (p = p /\ n <> 0%nat)); cbn; lia.
  - rewrite decide_False by naive_solver. rewrite IH. by rewrite decide_False by naive_solver.
Qed.

Lemma max_key_snoc l x : max_key (l ++ [x]) = Some (Z.max (default x (max_key l)) x).
Proof.
  destruct l as [|y l]; cbn; [f_equal; lia|]. f_equal. revert y.
  induction l as [|z l IH]; intros y; cbn; [done|]. apply IH.
Qed.

Lemma live_retention_spec sh topics p :
  (live_retention sh topics).1 !! p = longest sh topics p /\
  (p ∈ (live_retention sh topics).2 <-> exempted topics p = true).
Proof.
  unfold live_retention, longest, exempted. induction topics as [|t topics IH] using rev_ind.
  { cbn. set_solver. }
  rewrite fold_left_app, List.filter_app, map_app, existsb_app. cbn [fold_left List.filter existsb].
  destruct (fold_left _ _ _) as [live exempt]. cbn [fst snd] in *. destruct IH as [IH1 IH2].
  rewrite orb_false_r, orb_true_iff, andb_true_iff, bool_decide_eq_true, <- IH2.
  unfold fold_topic, occupies. destruct (compact_only t) eqn:Ec; cbn [fst snd negb andb].
  - rewrite app_nil_r. split; [done|]. unfold routed_prefix. set_solver.
  - split; [|naive_solver]. rewrite lookup_iter_retention, IH1.
    destruct (Z.ltb_spec 0 (TopicConfig.num_partitions t)); cbn [andb].
    + case_bool_decide as Hp.
      * rewrite decide_True by (split; [done|lia]). cbn [map]. rewrite max_key_snoc. by rewrite Hp, IH1.
      * rewrite decide_False by naive_solver. by rewrite app_nil_r.
    + rewrite decide_False by lia. by rewrite app_nil_r.
Qed.

Lemma prefix_retention_spec sh topics retired p :
  prefix_retention sh topics retired !! p =
  match longest sh topics p with
  | Some r => Some r
  | None => if exempted topics p then None else retired !! p
  end.
Proof.
  unfold prefix_retention. pose proof (live_retention_spec sh topics p) as [H1 H2].
  destruct (live_retention sh topics) as [live exempt]. cbn [fst snd] in *.
  rewrite lookup_union, H1. destruct (longest sh topics p) as [r|]; [by rewrite union_Some_l|].
  rewrite (left_id_L None (∪)), map_lookup_filter. destruct (exempted topics p) eqn:E.
  - destruct (retired !! p); [|done]. cbn. rewrite option_guard_False; [done|]. cbn. naive_solver.
  - destruct (retired !! p); [|done]. cbn. rewrite option_guard_True; [done|]. cbn.
    intros ?%H2. congruence.
Qed.

(** ** Properties *)

(** C34 A prefix is expired by the longest retention among the topics that share
    its segments, never a shorter one: the threshold is [now] less the greatest
    effective [retention.ms] of the topics routed there, so no topic's records
    are due before its own setting says; where no time-expired topic is left,
    the marker of the deleted ones answers, unless a compact-only topic has the
    prefix as its name; and a prefix outside this tick's claim has none. *)
Theorem thresholds_exact (sh : Shape) (topics : list CreatableTopic) (retired : gmap bytes Z)
    (now_ms : Z) (owned : option (gset bytes)) (prefix : bytes) :
  segment_retention_thresholds sh topics retired now_ms owned !! prefix =
  (if match owned with None => true | Some o => bool_decide (prefix ∈ o) end then
     (fun retention => sat_i64 (now_ms - retention)) <$>
       match longest sh topics prefix with
       | Some r => Some r
       | None => if exempted topics prefix then None else retired !! prefix
       end
   else None) /\
  (forall t threshold,
     t ∈ topics -> occupies sh prefix t = true ->
     segment_retention_thresholds sh topics retired now_ms owned !! prefix = Some threshold ->
     threshold <= sat_i64 (now_ms - effective_retention_ms t)).
Proof.
  assert (H : segment_retention_thresholds sh topics retired now_ms owned !! prefix =
    (if match owned with None => true | Some o => bool_decide (prefix ∈ o) end then
       (fun retention => sat_i64 (now_ms - retention)) <$> prefix_retention sh topics retired !! prefix
     else None)).
  { unfold segment_retention_thresholds. rewrite lookup_fmap, map_lookup_filter.
    destruct (prefix_retention sh topics retired !! prefix) as [r|]; cbn; [|by case_match].
    case_guard as Hg; cbn in Hg; [by rewrite Hg|]. by apply not_true_is_false in Hg as ->. }
  rewrite prefix_retention_spec in H. split; [exact H|]. intros t threshold Ht Hocc. rewrite H.
  assert (Hin : effective_retention_ms t ∈ map effective_retention_ms (List.filter (occupies sh prefix) topics)).
  { apply list_elem_of_fmap. exists t. split; [done|]. apply list_elem_of_In, List.filter_In.
    by rewrite <- list_elem_of_In. }
  destruct (longest sh topics prefix) as [r|] eqn:El.
  - apply max_key_spec in El as [_ Hall]. rewrite Forall_forall in Hall. specialize (Hall _ Hin).
    case_match; [|done]. intros [= <-]. unfold sat_i64. lia.
  - unfold longest in El. destruct (map _ _); [by apply not_elem_of_nil in Hin|done].
Qed.

(** ** A compacted topic can share its prefix *)

Definition three_dots : Shape := mkShape 3 (ascii_bytes ".").

(** A compact-only topic named as another topic's connector prefix. *)
Definition state_store : CreatableTopic :=
  TopicConfig.mk (ascii_bytes "org.env.conn") 1
    (Some [(ascii_bytes "cleanup.policy", Some (ascii_bytes "compact"))]).
Definition changelog : CreatableTopic :=
  TopicConfig.mk (ascii_bytes "org.env.conn.orders") 1
    (Some [(ascii_bytes "retention.ms", Some (ascii_bytes "60000"))]).

(** A compacted topic's prefix is not its own when its name is another
    topic's connector prefix: both route to one prefix, and that prefix is
    expired by the other's retention although a compact-only topic's records
    are to be kept for ever. *)
Theorem compacted_prefix_shared :
  compact_only state_store = true /\
  routed_prefix three_dots (TopicConfig.name state_store) (is_compacted state_store) =
  routed_prefix three_dots (TopicConfig.name changelog) (is_compacted changelog) /\
  segment_retention_thresholds three_dots [state_store; changelog] ∅ 1000000 None
    !! TopicConfig.name state_store = Some 940000.
Proof. split_and!; by vm_compute. Qed.
