(* ===== verification/Retention.v ===== *)
(** * Retention: what an expiry deletes, and the floors it leaves

    [expire_prefix_segments], [certify_prefix_served_ends] and
    [delete_records_before] of [tansu-storage/src/dynostore/retention.rs],
    [retire_segments] of [dynostore/segments.rs], and [Watermark] with the
    certification of its dead gap ([dynostore.rs], [dynostore/watermarks.rs]).

    One run sees the store and the other caches through an [ExpiryEnv]: what the
    refresh, the lease, the routing pins, the topic objects and each write
    answered.  A [with_mut] that fails has not changed the watermark.  The
    metrics, the next-offset hints dropped at the end and the fields of a
    watermark this binary does not know are left out. *)

From S2P Require Export Routing.

(** ** Watermarks *)

Record ServedEnd := mkServedEnd { end_ : Z; at_high : Z }.

#[export] Instance served_end_eq_dec : EqDecision ServedEnd.
Proof. solve_decision. Defined.

Definition certifies (s : ServedEnd) (high : Z) : bool := at_high s =? high.

Definition gap_contains (s : ServedEnd) (offset : Z) : bool :=
  (end_ s <=? offset) && (offset <? at_high s).

Module Watermark.
Record Watermark := mk { high : option Z; truncate : option Z; served : option ServedEnd }.
Definition empty : Watermark := mk None None None.
End Watermark.
Export Watermark (Watermark).

(** [certified_dead_gap], on the cached pair. *)
Definition certified_dead_gap (cached : option (Z * option ServedEnd)) : option ServedEnd :=
  '(high, served) ← cached;
  s ← served;
  if certifies s high && (end_ s <? at_high s) then Some s else None.

Definition floor_above_tail (tail : option Z) (watermark_floor : Z) : option Z :=
  tail ← tail;
  if tail <? watermark_floor then Some (watermark_floor - tail) else None.

(** [coalesced_high_from_index], past the cache that may decline. *)
Definition coalesced_high (tail : option Z) (watermark_floor : Z) (cached_high : option Z) : Z :=
  Z.max (Z.max (default 0 tail) watermark_floor) (default 0 cached_high).

(** [log_start] *)
Definition log_start (region_start : option Z) (high_watermark floor : Z) : Z :=
  Z.max (default high_watermark region_start) floor.

(** ** What is expirable *)

Definition retained_timestamp (oldest_ms : option Z) : option Z :=
  ms ← oldest_ms; if 0 <? ms then Some ms else None.

Definition maybe_expirable (hint : option Z) (threshold_ms : Z) : bool :=
  match hint with None => true | Some oldest => oldest <? threshold_ms end.

(** The newest record of a segment, or the time of its PUT. *)
Definition segment_age (c : CachedSegment) : Z :=
  let newest := default i64_MIN (max_key (map Entry.max_timestamp (entries (footer c)))) in
  if 0 <? newest then newest else last_modified_ms c.

(** [(substream, topic, partition)] *)
Abbreviation Slice := (Substream * bytes * Z)%type.

Definition entry_slice (e : SubstreamEntry) : Slice :=
  (Entry.substream e, Entry.topic e, Entry.partition e).

(** [SegmentExpirySnapshot] *)
Record Snapshot := mkSnapshot { snap_seq : Z; snap_age : Z; snap_ends : list (Slice * Z) }.

Definition snapshot_of (seq : Z) (c : CachedSegment) : Snapshot :=
  mkSnapshot seq (segment_age c) (map (fun e => (entry_slice e, Entry.end_ e)) (entries (footer c))).

Definition segments_snapshot (ix : PrefixIndex) : list Snapshot :=
  omap (fun seq => snapshot_of seq <$> Index.segments ix !! seq) (sorted_keys (Index.segments ix)).

Definition slice_topition (s : Slice) : Topition := Topition.mk s.1.2 s.2.

Definition slice_truncated (cached_truncate : Topition -> option Z) (x : Slice * Z) : bool :=
  match cached_truncate (slice_topition x.1) with
  | None => false
  | Some floor => negb (floor <? x.2)
  end.

Definition fully_truncated (cached_truncate : Topition -> option Z) (ends : list (Slice * Z)) : bool :=
  match ends with [] => false | _ => forallb (slice_truncated cached_truncate) ends end.

(** The two sets of the first loop: [(aged, truncated)]. *)
Definition classify (cached_truncate : Topition -> option Z) (threshold_ms : Z)
    (snaps : list Snapshot) : gset Z * gset Z :=
  fold_left (fun '(aged, truncated) s =>
    if fully_truncated cached_truncate (snap_ends s) then (aged, {[snap_seq s]} ∪ truncated)
    else if snap_age s <? threshold_ms then ({[snap_seq s]} ∪ aged, truncated)
    else (aged, truncated)) snaps (∅, ∅).

(** ** The demotion *)

(** One sub-stream's fenced order: past a segment that is kept, nothing expires
    by age.  The flag is [demoted]. *)
Fixpoint demote_order (truncated : gset Z) (blocked : bool) (order : list Z) (aged : gset Z)
    (demoted : bool) : gset Z * bool :=
  match order with
  | [] => (aged, demoted)
  | seq :: order =>
      if blocked then
        demote_order truncated true order (aged ∖ {[seq]}) (demoted || bool_decide (seq ∈ aged))
      else
        demote_order truncated (bool_decide (seq ∉ aged) && bool_decide (seq ∉ truncated)) order aged
          demoted
  end.

Definition demote_pass (truncated : gset Z) (orders : list (list Z)) (aged : gset Z)
    : gset Z * bool :=
  fold_left (fun '(aged, demoted) order => demote_order truncated false order aged demoted) orders
    (aged, false).

(** The loop; a pass that demotes takes an element of [aged] away. *)
Fixpoint demote_loop (fuel : nat) (truncated : gset Z) (orders : list (list Z)) (aged : gset Z)
    : option (gset Z) :=
  match fuel with
  | O => None
  | S fuel =>
      let '(aged, demoted) := demote_pass truncated orders aged in
      if demoted then demote_loop fuel truncated orders aged else Some aged
  end.

Definition substream_keys (snaps : list Snapshot) : gset SubstreamKey :=
  list_to_set (flat_map (fun s => map (fun x => (x.1.1.1, x.1.2)) (snap_ends s)) snaps).

Definition fenced_orders (ix : PrefixIndex) (snaps : list Snapshot) : list (list Z) :=
  map (fun '(s, p) => map fenced_seq (valid_substream_segments ix s p)) (elements (substream_keys snaps)).

Definition demote (ix : PrefixIndex) (snaps : list Snapshot) (aged truncated : gset Z)
    : option (gset Z) :=
  if bool_decide (aged = ∅) then Some aged
  else demote_loop (S (size aged)) truncated (fenced_orders ix snaps) aged.

(** The segments to delete, the sub-streams that lose one, and the oldest of
    what stays. *)
Definition is_expirable (aged truncated : gset Z) (s : Snapshot) : bool :=
  bool_decide (snap_seq s ∈ aged) || bool_decide (snap_seq s ∈ truncated).

Definition expirable_seqs (aged truncated : gset Z) (snaps : list Snapshot) : list Z :=
  map snap_seq (List.filter (is_expirable aged truncated) snaps).

Definition affected_slices (aged truncated : gset Z) (snaps : list Snapshot) : gset Slice :=
  list_to_set (flat_map (fun s => map fst (snap_ends s)) (List.filter (is_expirable aged truncated) snaps)).

Definition min_opt (o : option Z) (x : Z) : option Z :=
  Some (match o with None => x | Some o => Z.min o x end).

Definition surviving_oldest (aged truncated : gset Z) (snaps : list Snapshot) : option Z :=
  fold_left (fun o s => if is_expirable aged truncated s then o else min_opt o (snap_age s)) snaps None.

(** ** The run *)

Record ExpiryEnv := mkExpiryEnv {
  env_refresh : PrefixIndex -> PrefixIndex * result unit;
  env_truncate : Topition -> option Z;
  env_lease : bool;
  env_current : bytes -> result Substream;
  env_live : bytes -> result bool;
  env_watermark : Topition -> option error;
  env_remove : Topition -> option error;
  env_floor : option error;
  env_delete : list Z -> option (error * gset Z);
}.

(** What a run changes: this process's index and hint, and in the store the
    watermarks, the sequence floor and the segment objects. *)
Record Prefix := mkPrefix {
  px_index : PrefixIndex;
  px_hint : option Z;
  px_watermarks : gmap Topition Watermark;
  px_floor : Z;
  px_objects : gset Z;
}.

Definition px_set_index (px : Prefix) (ix : PrefixIndex) : Prefix :=
  mkPrefix ix (px_hint px) (px_watermarks px) (px_floor px) (px_objects px).
Definition px_set_hint (px : Prefix) (h : option Z) : Prefix :=
  mkPrefix (px_index px) h (px_watermarks px) (px_floor px) (px_objects px).
Definition px_set_watermarks (px : Prefix) (w : gmap Topition Watermark) : Prefix :=
  mkPrefix (px_index px) (px_hint px) w (px_floor px) (px_objects px).

(** The closure of the watermark write. *)
Definition expire_closure (tail : Z) (surviving : option Z) (w : Watermark) : Watermark :=
  let high := Z.max (default 0 (Watermark.high w)) tail in
  Watermark.mk (Some high) (Watermark.truncate w) (Some (mkServedEnd (default high surviving) high)).

Definition surviving_end (expirable : list Z) (view : list FencedRef) : option Z :=
  max_key (map fenced_end (List.filter (fun r => negb (bool_decide (fenced_seq r ∈ expirable))) view)).

(** One sub-stream that is to lose a segment. *)
Definition write_floor (env : ExpiryEnv) (ix : PrefixIndex) (current : bytes -> option Substream)
    (expirable : list Z) (ws : gmap Topition Watermark) (s : Slice)
    : gmap Topition Watermark * result unit :=
  let '(substream, topic, partition) := s in
  if negb (bool_decide (current topic = Some substream)) then (ws, Ok tt)
  else
  let view := valid_substream_segments ix substream partition in
  let tail := fenced_end <$> last view in
  let surviving := surviving_end expirable view in
  let tp := slice_topition s in
  let write :=
    match tail with
    | None => (ws, Ok tt)
    | Some tail =>
        match env_watermark env tp with
        | Some _ => (ws, Ok tt)
        | None =>
            (<[tp := expire_closure tail surviving (default Watermark.empty (ws !! tp))]> ws, Ok tt)
        end
    end in
  match surviving with
  | Some _ => write
  | None =>
      match env_live env topic with
      | Err e => (ws, Err e)
      | Panic p => (ws, Panic p)
      | Ok true => write
      | Ok false =>
          match env_remove env tp with
          | Some e => (ws, Err e)
          | None => (delete tp ws, Ok tt)
          end
      end
  end.

Fixpoint write_floors (env : ExpiryEnv) (ix : PrefixIndex) (current : bytes -> option Substream)
    (expirable : list Z) (ws : gmap Topition Watermark) (affected : list Slice)
    : gmap Topition Watermark * result unit :=
  match affected with
  | [] => (ws, Ok tt)
  | s :: affected =>
      match write_floor env ix current expirable ws s with
      | (ws, Ok _) => write_floors env ix current expirable ws affected
      | (ws, r) => (ws, r)
      end
  end.

(** [current_substream_of] of every affected topic: the first error ends it. *)
Fixpoint resolve_current (env : ExpiryEnv) (affected : list Slice) : result unit :=
  match affected with
  | [] => Ok tt
  | (_, topic, _) :: affected =>
      match env_current env topic with
      | Ok _ => resolve_current env affected
      | Err e => Err e
      | Panic p => Panic p
      end
  end.

Definition current_of (env : ExpiryEnv) (topic : bytes) : option Substream :=
  match env_current env topic with Ok s => Some s | _ => None end.

Definition RETIRE_DELETE_CHUNK : nat := 1000.

(** The chunked deletes: a chunk that fails may have removed some of its keys. *)
Fixpoint delete_chunks (fuel : nat) (env : ExpiryEnv) (seqs : list Z) (objects : gset Z) (deleted : Z)
    : gset Z * result Z :=
  match fuel, seqs with
  | _, [] => (objects, Ok deleted)
  | O, _ => (objects, Panic OutOfFuel)
  | S fuel, _ =>
      let chunk := take RETIRE_DELETE_CHUNK seqs in
      match env_delete env chunk with
      | Some (e, gone) => (objects ∖ (list_to_set chunk ∩ gone), Err e)
      | None =>
          delete_chunks fuel env (drop RETIRE_DELETE_CHUNK seqs) (objects ∖ list_to_set chunk)
            (deleted + Z.of_nat (length chunk))
      end
  end.

(** [retire_segments]: the sequence floor, the objects, the index. *)
Definition retire_segments (env : ExpiryEnv) (px : Prefix) (seqs : list Z) : Prefix * result Z :=
  match max_key seqs with
  | None => (px, Ok 0)
  | Some max_seq =>
      match env_floor env with
      | Some e => (px, Err e)
      | None =>
          let floor := Z.max (px_floor px) (max_seq + 1) in
          let '(objects, r) := delete_chunks (length seqs) env seqs (px_objects px) 0 in
          match r with
          | Ok deleted =>
              (mkPrefix (index_prune (px_index px) seqs) (px_hint px) (px_watermarks px) floor objects,
               Ok deleted)
          | r => (mkPrefix (px_index px) (px_hint px) (px_watermarks px) floor objects, r)
          end
      end
  end.

(** The pass between the refresh and the lease: what to delete. *)
Definition decide_expiry (cached_truncate : Topition -> option Z) (threshold_ms : Z)
    (ix : PrefixIndex) : option (gset Z * gset Z) :=
  let snaps := segments_snapshot ix in
  let '(aged, truncated) := classify cached_truncate threshold_ms snaps in
  aged ← demote ix snaps aged truncated;
  Some (aged, truncated).

(** From the lease on. *)
Definition delete_expired (env : ExpiryEnv) (px : Prefix) (aged truncated : gset Z)
    : Prefix * result Z :=
  let snaps := segments_snapshot (px_index px) in
  let expirable := expirable_seqs aged truncated snaps in
  let affected := elements (affected_slices aged truncated snaps) in
  match resolve_current env affected with
  | Err e => (px, Err e)
  | Panic p => (px, Panic p)
  | Ok _ =>
      match write_floors env (px_index px) (current_of env) expirable (px_watermarks px) affected with
      | (ws, Err e) => (px_set_watermarks px ws, Err e)
      | (ws, Panic p) => (px_set_watermarks px ws, Panic p)
      | (ws, Ok _) => retire_segments env (px_set_watermarks px ws) expirable
      end
  end.

Definition expire_prefix_segments (env : ExpiryEnv) (threshold_ms : Z) (px : Prefix)
    : Prefix * result Z :=
  let '(ix, refreshed) := env_refresh env (px_index px) in
  let px := px_set_index px ix in
  match refreshed with
  | Err e => (px, Err e)
  | Panic p => (px, Panic p)
  | Ok _ =>
      match decide_expiry (env_truncate env) threshold_ms ix with
      | None => (px, Panic OutOfFuel)
      | Some (aged, truncated) =>
          let snaps := segments_snapshot ix in
          let px := px_set_hint px (surviving_oldest aged truncated snaps) in
          match expirable_seqs aged truncated snaps with
          | [] => (px, Ok 0)
          | _ => if env_lease env then delete_expired env px aged truncated else (px, Ok 0)
          end
      end
  end.

Definition expire_prefix_segments_if_due (env : ExpiryEnv) (threshold_ms : Z) (px : Prefix)
    : Prefix * result Z :=
  if maybe_expirable (px_hint px) threshold_ms then expire_prefix_segments env threshold_ms px
  else (px, Ok 0).

(** ** [certify_prefix_served_ends] *)

(** The closure: only under the [high] the decision was taken at. *)
Definition certify_closure (high tail : Z) (w : Watermark) : Watermark * bool :=
  if default 0 (Watermark.high w) =? high then
    (Watermark.mk (Watermark.high w) (Watermark.truncate w) (Some (mkServedEnd tail high)), true)
  else (w, false).

(** [read] is what the conditional read before the write saw of the watermark;
    an error skips the sub-stream. *)
Definition certify_slice (read : Topition -> option Watermark) (fault : Topition -> option error)
    (current : bytes -> option Substream) (ix : PrefixIndex) (ws : gmap Topition Watermark) (s : Slice)
    : gmap Topition Watermark * bool :=
  let '(substream, topic, partition) := s in
  if negb (bool_decide (current topic = Some substream)) then (ws, false)
  else
  match fenced_end <$> last (valid_substream_segments ix substream partition) with
  | None => (ws, false)
  | Some tail =>
      let tp := slice_topition s in
      match read tp with
      | None => (ws, false)
      | Some w =>
          let high := default 0 (Watermark.high w) in
          let done_ := match Watermark.served w with
                       | Some s => certifies s high && (end_ s =? tail)
                       | None => false
                       end in
          if (high <=? tail) || done_ then (ws, false)
          else match fault tp with
               | Some _ => (ws, false)
               | None =>
                   let '(w', wrote) := certify_closure high tail (default Watermark.empty (ws !! tp)) in
                   (<[tp := w']> ws, wrote)
               end
      end
  end.

Fixpoint certify_slices (read : Topition -> option Watermark) (fault : Topition -> option error)
    (current : bytes -> option Substream) (ix : PrefixIndex) (ws : gmap Topition Watermark)
    (slices : list Slice) (certified : Z) : gmap Topition Watermark * Z :=
  match slices with
  | [] => (ws, certified)
  | s :: slices =>
      let '(ws, wrote) := certify_slice read fault current ix ws s in
      certify_slices read fault current ix ws slices (if wrote then certified + 1 else certified)
  end.

Definition all_slices (ix : PrefixIndex) : gset Slice :=
  list_to_set (flat_map (fun s => map fst (snap_ends s)) (segments_snapshot ix)).

(** [reconciled] is this process's mark of the prefix: set before the work. *)
Definition certify_prefix_served_ends (env : ExpiryEnv) (read : Topition -> option Watermark)
    (reconciled : bool) (px : Prefix) : Prefix * bool * result Z :=
  if reconciled then (px, reconciled, Ok 0)
  else if negb (env_lease env) then (px, reconciled, Ok 0)
  else
  let '(ix, refreshed) := env_refresh env (px_index px) in
  let px := px_set_index px ix in
  match refreshed with
  | Err e => (px, true, Err e)
  | Panic p => (px, true, Panic p)
  | Ok _ =>
      let slices := elements (all_slices ix) in
      match resolve_current env slices with
      | Err e => (px, true, Err e)
      | Panic p => (px, true, Panic p)
      | Ok _ =>
          let '(ws, n) :=
            certify_slices read (env_watermark env) (current_of env) ix (px_watermarks px) slices 0 in
          (px_set_watermarks px ws, true, Ok n)
      end
  end.

(** ** [delete_records_before] *)

Definition OffsetOutOfRange : error := Api 1.

Definition truncate_closure (before : Z) (w : Watermark) : Watermark * Z :=
  let floor := match Watermark.truncate w with None => before | Some t => Z.max t before end in
  (Watermark.mk (Watermark.high w) (Some floor) (Watermark.served w), floor).

(** The offset asked for: [-1] is the log end, any other must be in the log. *)
Definition before_offset (high before : Z) : result Z :=
  if before =? -1 then Ok high
  else if (before <? 0) || (high <? before) then Err OffsetOutOfRange
  else Ok before.

(** [high] and [routed] are the answers of [high_watermark] and
    [routed_prefix_of]; the memo only rises. *)
Definition delete_records_before (high : result Z) (routed : result unit) (env : ExpiryEnv)
    (tp : Topition) (before : Z) (memo : gmap Topition Z) (px : Prefix)
    : Prefix * gmap Topition Z * result Z :=
  match high with
  | Err e => (px, memo, Err e)
  | Panic p => (px, memo, Panic p)
  | Ok high =>
      match before_offset high before with
      | Err e => (px, memo, Err e)
      | Panic p => (px, memo, Panic p)
      | Ok before =>
          match env_watermark env tp with
          | Some e => (px, memo, Err e)
          | None =>
              let '(w, floor) := truncate_closure before (default Watermark.empty (px_watermarks px !! tp)) in
              let px := px_set_watermarks px (<[tp := w]> (px_watermarks px)) in
              let memo := <[tp := Z.max (default floor (memo !! tp)) floor]> memo in
              match routed with
              | Ok _ => (px_set_hint px None, memo, Ok floor)
              | Err e => (px, memo, Err e)
              | Panic p => (px, memo, Panic p)
              end
          end
      end
  end.

(** ** The demotion reaches the greatest head-closed set *)

(** In an order, a member of [keep] has only members of [keep] and truncated
    segments before it. *)
Definition head_closed (truncated keep : gset Z) (order : list Z) : Prop :=
  StronglySorted (fun y x => x ∈ keep -> y ∈ keep \/ y ∈ truncated) order.

Section demotion.
Context (truncated : gset Z).

Lemma demote_order_blocked order aged d :
  demote_order truncated true order aged d =
  (aged ∖ list_to_set order, d || negb (bool_decide (aged ## list_to_set order))).
Proof.
  revert aged d. induction order as [|seq order IH]; intros aged d; cbn [demote_order list_to_set].
  - f_equal; [set_solver|]. rewrite bool_decide_eq_true_2 by set_solver. by rewrite orb_false_r.
  - rewrite IH, <- orb_assoc. f_equal; [set_solver|]. f_equal. apply eq_true_iff_eq.
    rewrite orb_true_iff, !negb_true_iff, !bool_decide_eq_false, bool_decide_eq_true.
    destruct (decide (seq ∈ aged)); set_solver.
Qed.

(** One order: what is taken away, that the flag says whether anything was, that
    nothing a head-closed set has is taken, and that an order nothing is taken
    from is head-closed. *)
Lemma demote_order_spec order aged d :
  let '(aged', d') := demote_order truncated false order aged d in
  aged' ⊆ aged /\
  (d' = false <-> d = false /\ aged' = aged) /\
  (d' = false -> head_closed truncated aged order) /\
  (forall keep, keep ⊆ aged -> head_closed truncated keep order -> keep ⊆ aged').
Proof.
  induction order as [|seq order IH]; cbn [demote_order].
  { split_and!; [done|naive_solver|constructor|done]. }
  destruct (bool_decide (seq ∉ aged) && bool_decide (seq ∉ truncated)) eqn:E.
  - apply andb_true_iff in E as [Ha%bool_decide_eq_true Ht%bool_decide_eq_true].
    rewrite demote_order_blocked. split_and!; [set_solver| | |].
    + rewrite orb_false_iff, negb_false_iff, bool_decide_eq_true. split; intros [-> H]; split; set_solver.
    + rewrite orb_false_iff, negb_false_iff, bool_decide_eq_true. intros [_ H].
      assert (Hn : forall x, x ∈ order -> x ∉ aged) by set_solver.
      constructor; [|apply Forall_forall; intros x Hx Hin; by apply Hn in Hin].
      clear Ha Ht H IH. induction order as [|y order IH]; [constructor|].
      constructor; [apply IH; set_solver|]. apply Forall_forall. intros x Hx Hin. set_solver.
    + intros keep Hk Hc. inversion Hc as [|? ? _ Hall]; subst. rewrite Forall_forall in Hall. set_solver.
  - destruct (demote_order truncated false order aged d) as [aged' d'].
    destruct IH as (H1 & H2 & H3 & H4). split_and!; [done|done| |].
    + intros Hd. constructor; [by apply H3|]. apply Forall_forall. intros x _ _.
      apply andb_false_iff in E as [E|E]; apply bool_decide_eq_false in E; apply dec_stable in E; auto.
    + intros keep Hk Hc. inversion Hc; subst. by apply H4.
Qed.

Lemma demote_pass_spec orders aged :
  let '(aged', d) := demote_pass truncated orders aged in
  aged' ⊆ aged /\
  (d = false <-> aged' = aged) /\
  (d = false -> Forall (head_closed truncated aged) orders) /\
  (forall keep, keep ⊆ aged -> Forall (head_closed truncated keep) orders -> keep ⊆ aged').
Proof.
  unfold demote_pass. induction orders as [|order orders IH] using rev_ind.
  { cbn. split_and!; [done|done|by constructor|done]. }
  rewrite fold_left_app. cbn [fold_left]. destruct (fold_left _ orders _) as [aged1 d1].
  destruct IH as (H1 & H2 & H3 & H4).
  pose proof (demote_order_spec order aged1 d1) as H.
  destruct (demote_order truncated false order aged1 d1) as [aged2 d2].
  destruct H as (G1 & G2 & G3 & G4). split_and!; [by transitivity aged1| | |].
  - rewrite G2, H2. split; [by intros [-> ->]|]. intros ->.
    assert (aged1 = aged) as -> by (by apply (anti_symm (⊆))). done.
  - intros Hd. apply Forall_app. pose proof (proj1 G2 Hd) as [Hd1 ->].
    specialize (H3 Hd1). apply H2 in Hd1 as ->. split; [done|]. constructor; [by apply G3|constructor].
  - intros keep Hk [Hc1 Hc2]%Forall_app. inversion Hc2; subst. auto.
Qed.

Lemma demote_loop_spec fuel orders aged :
  (size aged < fuel)%nat ->
  exists aged', demote_loop fuel truncated orders aged = Some aged' /\
    aged' ⊆ aged /\ Forall (head_closed truncated aged') orders /\
    (forall keep, keep ⊆ aged -> Forall (head_closed truncated keep) orders -> keep ⊆ aged').
Proof.
  revert aged. induction fuel as [|fuel IH]; intros aged Hf; [lia|]. cbn [demote_loop].
  pose proof (demote_pass_spec orders aged) as H.
  destruct (demote_pass truncated orders aged) as [aged1 [|]]; destruct H as (H1 & H2 & H3 & H4).
  - assert (Hne : aged1 ≠ aged) by (intros ?%H2; done).
    destruct (IH aged1) as (aged' & -> & G1 & G2 & G3).
    { assert (size aged1 < size aged)%nat; [|lia]. apply subset_size. split; [done|].
      intros Hs. apply Hne. by apply (anti_symm (⊆)). }
    exists aged'. split_and!; [done|by etransitivity|done|]. auto.
  - assert (aged1 = aged) as -> by (by apply H2). exists aged. by split_and!; [|done|apply H3|].
Qed.
End demotion.

(** ** The snapshot is the index *)

Lemma elem_snapshot ix s :
  s ∈ segments_snapshot ix <->
  exists seq c, Index.segments ix !! seq = Some c /\ s = snapshot_of seq c.
Proof.
  unfold segments_snapshot. rewrite list_elem_of_omap. split.
  - intros (seq & _ & H). apply fmap_Some in H as (c & Hc & ->). by exists seq, c.
  - intros (seq & c & Hc & ->). exists seq. split; [|by rewrite Hc].
    apply sorted_keys_spec. by exists c.
Qed.

Lemma classify_spec trunc threshold snaps seq :
  (seq ∈ (classify trunc threshold snaps).1 <->
   Exists (fun s => snap_seq s = seq /\ fully_truncated trunc (snap_ends s) = false /\
                    snap_age s < threshold) snaps) /\
  (seq ∈ (classify trunc threshold snaps).2 <->
   Exists (fun s => snap_seq s = seq /\ fully_truncated trunc (snap_ends s) = true) snaps).
Proof.
  unfold classify. induction snaps as [|s snaps IH] using rev_ind.
  { cbn. rewrite !Exists_nil. set_solver. }
  rewrite fold_left_app. cbn [fold_left]. destruct (fold_left _ snaps _) as [aged tr].
  cbn [fst snd] in *. destruct IH as [IH1 IH2].
  rewrite !Exists_app, !Exists_cons, !Exists_nil.
  destruct (fully_truncated trunc (snap_ends s)) eqn:Ef;
    [|destruct (Z.ltb_spec (snap_age s) threshold)]; cbn [fst snd];
    rewrite ?elem_of_union, ?elem_of_singleton, IH1, IH2;
    split; intuition (congruence || lia).
Qed.

Lemma elem_substream_entries ix s p seq epoch e :
  index_ok ix ->
  (seq, epoch, e) ∈ substream_entries ix s p <->
  exists c, Index.segments ix !! seq = Some c /\ writer_epoch (footer c) = epoch /\
            e ∈ entries (footer c) /\ entry_key e = (s, p).
Proof.
  intros Hok. rewrite (index_ok_walk _ _ _ Hok). unfold walk. rewrite list_elem_of_In, in_flat_map.
  setoid_rewrite <- list_elem_of_In. split.
  - intros (seq' & _ & Hin). destruct (Index.segments ix !! seq') as [c|] eqn:Hc;
      [|by apply not_elem_of_nil in Hin].
    apply list_elem_of_fmap in Hin as (e' & [= -> -> ->] & [Hk He]%list_elem_of_filter).
    exists c. by rewrite entry_key_eq.
  - intros (c & Hc & <- & He & Hk%entry_key_eq). exists seq. split.
    + apply sorted_keys_spec. by exists c.
    + rewrite Hc. apply list_elem_of_fmap. exists e. split; [done|]. by apply list_elem_of_filter.
Qed.

(** Every entry holds a record, at an offset an [i64] can carry. *)
Definition counted (ix : PrefixIndex) : Prop :=
  forall s p, Forall (fun x => 1 <= Entry.record_count x.2 /\ i64_MIN <= Entry.base_offset x.2)
                (substream_entries ix s p).

Lemma view_segment ix s p r :
  index_ok ix -> counted ix -> r ∈ valid_substream_segments ix s p ->
  exists c, Index.segments ix !! fenced_seq r = Some c /\
            fenced_entry r ∈ entries (footer c) /\ entry_key (fenced_entry r) = (s, p).
Proof.
  intros Hok Hcount Hr. destruct (view_exact ix s p (Hcount s p)) as (_ & _ & Hall).
  rewrite Forall_forall in Hall. destruct (Hall r Hr) as (_ & _ & epoch & Hin).
  apply elem_substream_entries in Hin as (c & Hc & _ & He); [by exists c|done].
Qed.

Lemma view_order ix s p r :
  index_ok ix -> counted ix -> r ∈ valid_substream_segments ix s p ->
  map fenced_seq (valid_substream_segments ix s p) ∈ fenced_orders ix (segments_snapshot ix).
Proof.
  intros Hok Hcount Hr. destruct (view_segment _ _ _ _ Hok Hcount Hr) as (c & Hc & He & [= <- <-]).
  unfold fenced_orders. apply list_elem_of_fmap. eexists (_, _). split; [done|].
  apply elem_of_elements. unfold substream_keys. rewrite elem_of_list_to_set, list_elem_of_In, in_flat_map.
  exists (snapshot_of (fenced_seq r) c). rewrite <- !list_elem_of_In. split.
  - apply elem_snapshot. by exists (fenced_seq r), c.
  - cbn. apply list_elem_of_fmap. eexists (entry_slice (fenced_entry r), _). split; [done|].
    apply list_elem_of_fmap. by exists (fenced_entry r).
Qed.

(** What the decision is, before and after the demotion. *)
Lemma decide_expiry_spec trunc threshold ix :
  let snaps := segments_snapshot ix in
  let '(old, truncated) := classify trunc threshold snaps in
  exists aged, decide_expiry trunc threshold ix = Some (aged, truncated) /\ aged ⊆ old /\
    Forall (head_closed truncated aged) (fenced_orders ix snaps) /\
    (forall keep, keep ⊆ old -> Forall (head_closed truncated keep) (fenced_orders ix snaps) ->
                  keep ⊆ aged).
Proof.
  unfold decide_expiry. cbn zeta. destruct (classify _ _ _) as [old truncated]. unfold demote.
  case_bool_decide as He.
  - exists old. subst old. split_and!; [done|done| |done]. apply Forall_forall. intros order _.
    unfold head_closed. induction order; constructor; [done|]. apply Forall_forall. set_solver.
  - destruct (demote_loop_spec truncated (S (size old)) (fenced_orders ix (segments_snapshot ix)) old)
      as (aged & -> & H); [lia|]. by exists aged.
Qed.

Lemma sorted_pairs {A} (R S : A -> A -> Prop) l x y :
  StronglySorted R l -> StronglySorted S l -> x ∈ l -> y ∈ l -> x = y \/ (R x y /\ S x y) \/ (R y x /\ S y x).
Proof.
  intros HR. induction HR as [|a l HR IH Ha]; intros HS Hx Hy; [by apply not_elem_of_nil in Hx|].
  inversion HS as [|? ? HS' Ha']; subst. rewrite Forall_forall in Ha, Ha'.
  apply elem_of_cons in Hx as [->|Hx], Hy as [->|Hy]; auto.
Qed.

Lemma StronglySorted_map {A B} (f : A -> B) (R : B -> B -> Prop) l :
  StronglySorted R (map f l) <-> StronglySorted (fun a b => R (f a) (f b)) l.
Proof.
  induction l as [|a l IH]; cbn; [by split; constructor|].
  split; inversion 1 as [|? ? Hs Ha]; subst; (constructor; [by apply IH|]).
  - apply Forall_forall. intros b Hb. rewrite Forall_forall in Ha. apply Ha.
    apply list_elem_of_fmap. by exists b.
  - apply Forall_forall. intros b (b' & -> & Hb)%list_elem_of_fmap. rewrite Forall_forall in Ha. by apply Ha.
Qed.

(** ** Properties of the decision *)

(** C19 Age never opens a hole in a log, and takes all it may.  The decision
    terminates; a segment it expires by age has its newest record (its PUT,
    when no record is stamped) before the threshold; one it expires regardless of age has every slice below the
    truncation floor known for it; in every sub-stream, whatever stays is wholly
    above whatever age takes; and every set of old segments with that last
    property is part of what is taken. *)
Theorem expiry_takes_a_head (trunc : Topition -> option Z) (threshold : Z) (ix : PrefixIndex)
    (Hreach : reachable ix) (Hcount : counted ix) :
  exists aged truncated,
    decide_expiry trunc threshold ix = Some (aged, truncated) /\
    (forall seq, seq ∈ aged -> exists c, Index.segments ix !! seq = Some c /\ segment_age c < threshold) /\
    (forall seq, seq ∈ truncated -> exists c, Index.segments ix !! seq = Some c /\
       fully_truncated trunc (snap_ends (snapshot_of seq c)) = true) /\
    (forall s p r kept,
       r ∈ valid_substream_segments ix s p -> kept ∈ valid_substream_segments ix s p ->
       fenced_seq r ∈ aged -> fenced_seq kept ∉ aged -> fenced_seq kept ∉ truncated ->
       fenced_end r <= served_from kept) /\
    (forall keep : gset Z,
       (forall seq, seq ∈ keep -> seq ∉ truncated /\
          exists c, Index.segments ix !! seq = Some c /\ segment_age c < threshold) ->
       (forall s p, head_closed truncated keep (map fenced_seq (valid_substream_segments ix s p))) ->
       keep ⊆ aged).
Proof.
  pose proof (reachable_ok _ Hreach) as Hok. pose proof (decide_expiry_spec trunc threshold ix) as H.
  cbn zeta in H. pose proof (classify_spec trunc threshold (segments_snapshot ix)) as Hc.
  destruct (classify _ _ _) as [old truncated]. destruct H as (aged & Hd & Hsub & Hclosed & Hmax).
  cbn [fst snd] in Hc. exists aged, truncated. split; [done|]. split; [|split; [|split]].
  - intros seq Hin. apply Hsub, Hc, Exists_exists in Hin as (s & Hs & <- & _ & Hage).
    apply elem_snapshot in Hs as (seq & c & Hc' & ->). by exists c.
  - intros seq Hin. apply Hc, Exists_exists in Hin as (s & Hs & <- & Hage).
    apply elem_snapshot in Hs as (seq & c & Hc' & ->). by exists c.
  - intros s p r kept Hr Hkept Hra Hk1 Hk2. rewrite Forall_forall in Hclosed.
    specialize (Hclosed _ (view_order _ _ _ _ Hok Hcount Hr)). apply StronglySorted_map in Hclosed.
    destruct (view_exact ix s p (Hcount s p)) as (_ & Hsort & _).
    destruct (sorted_pairs _ _ _ r kept Hsort Hclosed Hr Hkept) as [->|[[Ho _]|[_ Ho]]];
      [done|done|]. destruct (Ho Hra); done.
  - intros keep Hkeep Horders. apply Hmax.
    + intros seq Hin. destruct (Hkeep seq Hin) as (Hnt & c & Hc' & Hage). apply Hc, Exists_exists.
      exists (snapshot_of seq c). split; [apply elem_snapshot; by exists seq, c|]. split_and!; [done| |done].
      apply not_true_is_false. intros Ht. apply Hnt, Hc, Exists_exists.
      exists (snapshot_of seq c). split; [apply elem_snapshot; by exists seq, c|done].
    + apply Forall_forall. intros order Ho. unfold fenced_orders in Ho.
      apply list_elem_of_fmap in Ho as ([s p] & -> & _). apply Horders.
Qed.

(** ** The floors are written before anything is deleted *)

Definition floor_of (ws : gmap Topition Watermark) (tp : Topition) : Z :=
  default 0 (ws !! tp ≫= Watermark.high).

Section floors.
Context (env : ExpiryEnv) (ix : PrefixIndex) (expirable : list Z).
Context (topic : bytes) (s : Substream) (p : Z).
Hypothesis no_fault : forall tp, env_watermark env tp = None.
Hypothesis is_current : current_of env topic = Some s.
Hypothesis is_live : env_live env topic = Ok true.

Let tp := Topition.mk topic p.
Let view := valid_substream_segments ix s p.

(** The watermark after the write for this sub-stream. *)
Definition floored (w : option Watermark) : option Watermark :=
  match last view with
  | None => w
  | Some r => Some (expire_closure (fenced_end r) (surviving_end expirable view) (default Watermark.empty w))
  end.

Lemma write_floor_own ws :
  write_floor env ix (current_of env) expirable ws (s, topic, p) =
  (match last view, floored (ws !! tp) with Some _, Some w => <[tp := w]> ws | _, _ => ws end, Ok tt).
Proof.
  unfold write_floor. rewrite is_current, bool_decide_eq_true_2 by done. cbn [negb].
  rewrite is_live, no_fault. fold view. unfold floored.
  change (slice_topition (s, topic, p)) with tp.
  destruct (last view) as [r|]; cbn; destruct (surviving_end expirable view); done.
Qed.

Lemma write_floor_other ws x :
  x <> (s, topic, p) -> (write_floor env ix (current_of env) expirable ws x).1 !! tp = ws !! tp.
Proof.
  destruct x as [[s' topic'] p']. intros Hne. unfold write_floor.
  case_bool_decide as Hcur; cbn [negb]; [|done].
  assert (Htp : slice_topition (s', topic', p') <> tp) by (intros [= -> ->]; congruence).
  rewrite no_fault. repeat case_match; cbn [fst]; try done.
  all: by rewrite ?lookup_insert_ne, ?lookup_delete_ne.
Qed.

Lemma write_floors_lookup ws l :
  NoDup l ->
  let '(ws', r) := write_floors env ix (current_of env) expirable ws l in
  (ws' !! tp = ws !! tp /\ (r = Ok tt -> (s, topic, p) ∉ l)) \/
  (ws' !! tp = floored (ws !! tp) /\ (s, topic, p) ∈ l).
Proof.
  intros Hnd. revert ws. induction Hnd as [|x l Hx Hnd IH]; intros ws; cbn [write_floors].
  { left. split; [done|]. intros _. apply not_elem_of_nil. }
  destruct (decide (x = (s, topic, p))) as [->|Hne].
  - rewrite write_floor_own. match goal with |- context [write_floors _ _ _ _ ?ws' l] => specialize (IH ws') end.
    destruct (write_floors _ _ _ _ _ l) as [ws' r]. right.
    destruct IH as [[-> _]|[_ Hin]]; [|done]. split; [|by left].
    unfold floored. destruct (last view); [|done]. by rewrite lookup_insert_eq.
  - pose proof (write_floor_other ws x Hne) as Ho.
    destruct (write_floor _ _ _ _ _ x) as [ws1 [[]|e|pn]]; cbn [fst] in Ho; [|by left..].
    specialize (IH ws1). destruct (write_floors _ _ _ _ ws1 l) as [ws' r]. rewrite <- Ho.
    destruct IH as [[H1 H2]|[H1 H2]]; [left|right]; (split; [done|]).
    + intros Hr [?|?]%elem_of_cons; [done|]. by apply H2.
    + by right.
Qed.

Lemma floored_floor w :
  default 0 (floored w ≫= Watermark.high) =
  match last view with
  | None => default 0 (w ≫= Watermark.high)
  | Some r => Z.max (default 0 (w ≫= Watermark.high)) (fenced_end r)
  end.
Proof. unfold floored. destruct (last view), w as [w|]; done. Qed.
End floors.

(** ** The next offset *)

Lemma elem_prune ix seqs s p x :
  index_ok ix ->
  x ∈ substream_entries (index_prune ix seqs) s p <-> x ∈ substream_entries ix s p /\ x.1.1 ∉ seqs.
Proof.
  intros Hok. destruct x as [[seq epoch] e]. cbn [fst].
  rewrite !elem_substream_entries by (try done; by eapply index_step_ok, step_prune).
  assert (Index.segments (index_prune ix seqs) =
          filter (fun kv => negb (bool_decide (kv.1 ∈ seqs)) = true) (Index.segments ix)) as ->.
  { unfold index_prune, retain_segments. by destruct (_ <? _)%nat. }
  setoid_rewrite map_lookup_filter_Some. cbn [fst].
  setoid_rewrite negb_true_iff. setoid_rewrite bool_decide_eq_false. naive_solver.
Qed.

Lemma substream_tail_prune ix seqs s p :
  index_ok ix ->
  match substream_tail (index_prune ix seqs) s p with
  | Some t => exists t', substream_tail ix s p = Some t' /\ t <= t'
  | None => True
  end.
Proof.
  intros Hok. unfold substream_tail. destruct (max_key (map _ (substream_entries (index_prune _ _) _ _))) as [t|] eqn:E; [|done].
  apply max_key_spec in E as [Hin _]. apply list_elem_of_fmap in Hin as (x & -> & Hx).
  apply elem_prune in Hx as [Hx _]; [|done].
  destruct (max_key (map (fun x => Entry.end_ x.2) (substream_entries ix s p))) as [t'|] eqn:E'.
  - exists t'. split; [done|]. apply max_key_spec in E' as [_ Hall]. rewrite Forall_forall in Hall.
    apply Hall, list_elem_of_fmap. by exists x.
  - destruct (substream_entries ix s p); [by apply not_elem_of_nil in Hx|done].
Qed.

Lemma substream_tail_untouched ix seqs s p :
  index_ok ix -> Forall (fun x => x.1.1 ∉ seqs) (substream_entries ix s p) ->
  substream_tail (index_prune ix seqs) s p = substream_tail ix s p.
Proof.
  intros Hok Hall. rewrite Forall_forall in Hall. unfold substream_tail.
  destruct (max_key (map _ (substream_entries ix s p))) as [t|] eqn:E.
  - apply max_key_spec in E as [(x & -> & Hx)%list_elem_of_fmap Hle]. apply max_key_spec.
    rewrite Forall_forall in Hle. split.
    + apply list_elem_of_fmap. exists x. split; [done|]. apply elem_prune; auto.
    + apply Forall_forall. intros t (y & -> & Hy)%list_elem_of_fmap. apply elem_prune in Hy as [Hy _]; [|done].
      apply Hle, list_elem_of_fmap. by exists y.
  - destruct (substream_entries ix s p) eqn:En; [|done].
    destruct (substream_entries (index_prune ix seqs) s p) as [|x l] eqn:E'; [done|]. exfalso.
    assert (Hx : x ∈ substream_entries (index_prune ix seqs) s p) by (rewrite E'; by left).
    apply elem_prune in Hx as [Hx _]; [|done]. rewrite En in Hx. by apply not_elem_of_nil in Hx.
Qed.

Lemma recover_pruned ix seqs s p f f' :
  index_ok ix -> 0 <= f ->
  (f' = f /\ Forall (fun x => x.1.1 ∉ seqs) (substream_entries ix s p)) \/
  f' = match substream_tail ix s p with None => f | Some t => Z.max f t end ->
  recover_substream_next_offset (index_prune ix seqs) s p f' = recover_substream_next_offset ix s p f.
Proof.
  intros Hok Hf H. unfold recover_substream_next_offset. destruct H as [[-> Hall]| ->].
  { by rewrite substream_tail_untouched. }
  pose proof (substream_tail_prune ix seqs s p Hok) as Ht.
  destruct (substream_tail (index_prune ix seqs) s p) as [t|].
  - destruct Ht as (t' & -> & Hle). cbn. lia.
  - destruct (substream_tail ix s p); cbn; lia.
Qed.

Lemma delete_chunks_spec fuel env seqs objects deleted :
  let '(objects', r) := delete_chunks fuel env seqs objects deleted in
  objects' ⊆ objects /\ objects ∖ objects' ⊆ list_to_set seqs /\
  ((length seqs <= fuel)%nat -> r <> Panic OutOfFuel) /\
  (forall n, r = Ok n -> objects' = objects ∖ list_to_set seqs /\ n = deleted + Z.of_nat (length seqs)).
Proof.
  revert seqs objects deleted. induction fuel as [|fuel IH]; intros seqs objects deleted.
  { destruct seqs; cbn; split_and!; try set_solver; try lia. intros n [= ->]. split; [set_solver|lia]. }
  destruct seqs as [|x seqs]; [cbn; split_and!; try set_solver; intros n [= ->]; split; [set_solver|lia]|].
  cbn [delete_chunks]. set (all := x :: seqs).
  assert (Hl : (length (drop RETIRE_DELETE_CHUNK all) < length all)%nat)
    by (rewrite length_drop; unfold RETIRE_DELETE_CHUNK; cbn; lia).
  pose proof (take_drop RETIRE_DELETE_CHUNK all) as Hall.
  set (chunk := take _ all) in *. set (rest := drop _ all) in *. clearbody chunk rest all. subst all.
  rewrite length_app in *. rewrite list_to_set_app_L.
  destruct (env_delete env chunk) as [[e gone]|].
  { split_and!; [set_solver| |done|done]. intros y Hy.
    destruct (decide (y ∈@{gset Z} list_to_set chunk)); set_solver. }
  specialize (IH rest (objects ∖ list_to_set chunk) (deleted + Z.of_nat (length chunk))).
  destruct (delete_chunks fuel env _ _ _) as [objects' r]. destruct IH as (H1 & H2 & H3 & H4).
  split_and!; [set_solver| |intros; apply H3; lia|].
  - intros y Hy. destruct (decide (y ∈@{gset Z} list_to_set chunk)); set_solver.
  - intros n Hn. apply H4 in Hn as [-> ->]. split; [set_solver|lia].
Qed.

Lemma retire_segments_spec env px seqs :
  let '(px', r) := retire_segments env px seqs in
  px_watermarks px' = px_watermarks px /\
  px_objects px ∖ px_objects px' ⊆ list_to_set seqs /\ r <> Panic OutOfFuel /\
  (forall n, r = Ok n -> seqs <> [] ->
     px_index px' = index_prune (px_index px) seqs /\ px_objects px' = px_objects px ∖ list_to_set seqs /\
     n = Z.of_nat (length seqs) /\ Forall (fun x => x < px_floor px') seqs).
Proof.
  unfold retire_segments. destruct (max_key seqs) as [m|] eqn:Em.
  - destruct (env_floor env) as [e|]; [split_and!; [done|set_solver|done|done]|].
    pose proof (delete_chunks_spec (length seqs) env seqs (px_objects px) 0) as H.
    destruct (delete_chunks _ _ _ _ _) as [objects r]. destruct H as (_ & H2 & H3 & H4).
    assert (Hm : Forall (fun x => x < Z.max (px_floor px) (m + 1)) seqs).
    { apply max_key_spec in Em as [_ Hall]. eapply Forall_impl; [exact Hall|]. cbn. lia. }
    destruct r as [n|e|pn]; cbn; (split_and!; [done|done|try done; auto|]); intros k [= <-] _.
    destruct (H4 n eq_refl) as [-> ->]. done.
  - split_and!; [done|set_solver|done|]. intros n _ Hne. by destruct seqs.
Qed.

Lemma elem_affected ix aged truncated s p seq epoch e :
  index_ok ix -> (seq, epoch, e) ∈ substream_entries ix s p ->
  seq ∈ expirable_seqs aged truncated (segments_snapshot ix) ->
  (s, Entry.topic e, p) ∈ affected_slices aged truncated (segments_snapshot ix).
Proof.
  intros Hok Hin Hexp. apply elem_substream_entries in Hin as (c & Hc & _ & He & [= <- <-]); [|done].
  unfold expirable_seqs in Hexp. apply list_elem_of_fmap in Hexp as (sn & -> & Hsn).
  unfold affected_slices. rewrite elem_of_list_to_set, list_elem_of_In, in_flat_map. exists sn.
  apply list_elem_of_In in Hsn. split; [done|]. apply filter_In in Hsn as [Hsn _].
  apply list_elem_of_In, elem_snapshot in Hsn as (seq & c' & Hc' & ->). cbn in Hc.
  rewrite Hc in Hc'. injection Hc' as <-. apply list_elem_of_In, list_elem_of_fmap.
  eexists (entry_slice e, _). split; [done|]. cbn. apply list_elem_of_fmap. by exists e.
Qed.

Lemma surviving_end_above expirable view kept x :
  kept ∈ view -> fenced_seq kept ∉ expirable -> in_served kept x ->
  exists t, surviving_end expirable view = Some t /\ x < t.
Proof.
  intros Hin Hk Hx. unfold surviving_end.
  assert (Hm : fenced_end kept ∈ map fenced_end (List.filter (fun r => negb (bool_decide (fenced_seq r ∈ expirable))) view)).
  { apply list_elem_of_fmap. exists kept. split; [done|]. apply list_elem_of_In, filter_In.
    rewrite <- list_elem_of_In, bool_decide_eq_false_2; done. }
  destruct (max_key _) as [t|] eqn:E; [|by destruct (map _ _); [apply not_elem_of_nil in Hm|]].
  exists t. split; [done|]. apply max_key_spec in E as [_ Hall]. rewrite Forall_forall in Hall.
  specialize (Hall _ Hm). unfold in_served in Hx. lia.
Qed.

(** What a run owes the sub-stream [s] of [tp]: the next offset a process that
    lists the store afterwards derives is the one derived before; and a
    watermark that was moved certifies a gap no segment left in the index
    serves. *)
Definition expiry_sound (ix : PrefixIndex) (s : Substream) (tp : Topition) (px px' : Prefix)
    (r : result Z) : Prop :=
  let p := Topition.partition tp in
  recover_substream_next_offset (index_prune ix (elements (px_objects px ∖ px_objects px'))) s p
    (floor_of (px_watermarks px') tp) =
  recover_substream_next_offset ix s p (floor_of (px_watermarks px) tp) /\
  (px_watermarks px' !! tp <> px_watermarks px !! tp -> forall n, r = Ok n ->
   exists w c, px_watermarks px' !! tp = Some w /\ Watermark.served w = Some c /\
     certifies c (floor_of (px_watermarks px') tp) = true /\
     forall x kept, gap_contains c x = true -> kept ∈ valid_substream_segments ix s p ->
       is_Some (Index.segments (px_index px') !! fenced_seq kept) -> ~ in_served kept x).

Lemma expiry_sound_same ix s tp px px' r :
  index_ok ix -> 0 <= floor_of (px_watermarks px) tp ->
  px_objects px' = px_objects px -> px_watermarks px' = px_watermarks px ->
  expiry_sound ix s tp px px' r.
Proof.
  intros Hok Hf Ho Hw. unfold expiry_sound. rewrite Ho, Hw, difference_diag_L, elements_empty.
  split; [|done]. apply recover_pruned; [done|done|]. left. split; [done|].
  apply Forall_forall. intros x _. apply not_elem_of_nil.
Qed.

Section deletion.
Context (env : ExpiryEnv) (px : Prefix) (topic : bytes) (s : Substream) (p : Z).
Let tp := Topition.mk topic p.
Let ix := px_index px.
Hypothesis ix_ok : index_ok ix.
Hypothesis ix_counted : counted ix.
Hypothesis no_fault : forall tp, env_watermark env tp = None.
Hypothesis is_current : env_current env topic = Ok s.
Hypothesis is_live : env_live env topic = Ok true.
Hypothesis names : Forall (fun x => Entry.topic x.2 = topic) (substream_entries ix s p).
Hypothesis floor_pos : 0 <= floor_of (px_watermarks px) tp.

Lemma view_tail : substream_tail ix s p = fenced_end <$> last (valid_substream_segments ix s p).
Proof. by apply substream_tail_is_view_end. Qed.

(** A pass whose deletions stay within [expirable], after the floors. *)
Lemma floors_then_delete aged truncated ws gone :
  let expirable := expirable_seqs aged truncated (segments_snapshot ix) in
  let affected := elements (affected_slices aged truncated (segments_snapshot ix)) in
  forall r, write_floors env ix (current_of env) expirable (px_watermarks px) affected = (ws, r) ->
  (r <> Ok tt -> gone = []) -> (forall seq, seq ∈ gone -> seq ∈ expirable) ->
  recover_substream_next_offset (index_prune ix gone) s p (floor_of ws tp) =
  recover_substream_next_offset ix s p (floor_of (px_watermarks px) tp).
Proof.
  intros expirable affected r Hw Hbad Hgone. apply recover_pruned; [done|done|].
  assert (Hcur : current_of env topic = Some s) by (unfold current_of; by rewrite is_current).
  pose proof (write_floors_lookup env ix expirable topic s p no_fault Hcur is_live (px_watermarks px)
    affected (NoDup_elements _)) as H.
  rewrite Hw in H. fold tp in H. unfold floor_of. destruct H as [[-> Hn]|[-> _]].
  - left. split; [done|]. apply Forall_forall. intros [[seq epoch] e] Hin Hg. cbn in Hg.
    destruct (decide (r = Ok tt)) as [Hr|Hr].
    + apply (Hn Hr), elem_of_elements. rewrite Forall_forall in names. rewrite <- (names _ Hin).
      eapply elem_affected; [done|done|]. by apply Hgone.
    + rewrite (Hbad Hr) in Hg. by apply not_elem_of_nil in Hg.
  - right. rewrite floored_floor, view_tail. by destruct (last _).
Qed.

Lemma delete_expired_sound aged truncated :
  expirable_seqs aged truncated (segments_snapshot ix) <> [] ->
  let '(px', r) := delete_expired env px aged truncated in
  expiry_sound ix s tp px px' r.
Proof.
  intros Hne. unfold delete_expired. fold ix.
  set (expirable := expirable_seqs _ _ _) in *. set (affected := elements _).
  destruct (resolve_current env affected) as [[]|e|q] eqn:Hr; [|by apply expiry_sound_same..].
  destruct (write_floors _ _ _ _ _ _) as [ws r] eqn:Hw.
  pose proof (floors_then_delete aged truncated ws) as Hfl.
  destruct r as [[]|e|q].
  - pose proof (retire_segments_spec env (px_set_watermarks px ws) expirable) as H.
    destruct (retire_segments _ _ _) as [px' r]. cbn in H. destruct H as (Hws & Hgone & _ & Hok).
    unfold expiry_sound. rewrite Hws. split.
    + eapply Hfl; [exact Hw|done|]. intros seq Hseq%elem_of_elements. apply Hgone in Hseq.
      by apply elem_of_list_to_set in Hseq.
    + intros Hch n ->. destruct (Hok n eq_refl Hne) as (Hix & _ & _ & _).
      assert (Hcur : current_of env topic = Some s) by (unfold current_of; by rewrite is_current).
      pose proof (write_floors_lookup env ix expirable topic s p no_fault Hcur is_live (px_watermarks px)
        affected (NoDup_elements _)) as H. rewrite Hw in H. fold tp in H.
      destruct H as [[Hsame _]|[Hnew _]]; [done|].
      unfold floored in Hnew. destruct (last _) as [r|] eqn:El; [|done].
      eexists _, _. split; [exact Hnew|]. split; [done|]. unfold floor_of. rewrite Hnew. cbn.
      split; [apply Z.eqb_refl|]. intros x kept Hg Hk [c Hc] Hx.
      rewrite Hix in Hc. assert (Hnk : fenced_seq kept ∉ expirable).
      { intros Hin. unfold index_prune, retain_segments in Hc.
        assert (Hc' : filter (fun kv => negb (bool_decide (kv.1 ∈ expirable)) = true) (Index.segments ix)
                  !! fenced_seq kept = Some c) by (by destruct (_ <? _)%nat in Hc).
        apply map_lookup_filter_Some in Hc' as [_ Hf]. cbn in Hf.
        by rewrite bool_decide_eq_true_2 in Hf. }
      destruct (surviving_end_above expirable _ kept x Hk Hnk Hx) as (t & Ht & Hlt).
      rewrite Ht in Hg. unfold gap_contains in Hg. cbn in Hg. lia.
  - unfold expiry_sound. cbn. rewrite difference_diag_L, elements_empty. split; [|done].
    eapply Hfl; [exact Hw|done|]. intros seq Hseq. by apply not_elem_of_nil in Hseq.
  - unfold expiry_sound. cbn. rewrite difference_diag_L, elements_empty. split; [|done].
    eapply Hfl; [exact Hw|done|]. intros seq Hseq. by apply not_elem_of_nil in Hseq.
Qed.
End deletion.

(** ** Floors only rise *)

Definition truncation_of (ws : gmap Topition Watermark) (tp : Topition) : option Z :=
  ws !! tp ≫= Watermark.truncate.

(** [None] is below every floor. *)
Definition option_le (a b : option Z) : Prop :=
  match a, b with
  | None, _ => True
  | Some x, Some y => x <= y
  | Some _, None => False
  end.

#[export] Instance option_le_refl : Reflexive option_le.
Proof. intros [x|]; cbn; lia. Qed.
#[export] Instance option_le_trans : Transitive option_le.
Proof. intros [x|] [y|] [z|]; cbn; try done; lia. Qed.

(** The durable floors of [tp] have not gone back. *)
Definition risen (tp : Topition) (ws ws' : gmap Topition Watermark) : Prop :=
  floor_of ws tp <= floor_of ws' tp /\ option_le (truncation_of ws tp) (truncation_of ws' tp).

#[export] Instance risen_preorder tp : PreOrder (risen tp).
Proof.
  split; [intros ws; by split|]. intros a b c [H1 H2] [H3 H4]. split; [lia|by etransitivity].
Qed.

Lemma risen_insert tp tp' ws w :
  (tp' = tp -> default 0 (Watermark.high (default Watermark.empty (ws !! tp))) <= default 0 (Watermark.high w) /\
               option_le (Watermark.truncate (default Watermark.empty (ws !! tp))) (Watermark.truncate w)) ->
  risen tp ws (<[tp' := w]> ws).
Proof.
  intros H. unfold risen, floor_of, truncation_of. destruct (decide (tp' = tp)) as [->|Hne].
  - rewrite lookup_insert_eq. destruct (H eq_refl) as [H1 H2]. by destruct (ws !! tp).
  - by rewrite lookup_insert_ne.
Qed.

Lemma write_floor_risen env ix current expirable ws s tp :
  (forall e, env_live env (Topition.topic tp) = e -> e <> Ok false) ->
  risen tp ws (write_floor env ix current expirable ws s).1.
Proof.
  intros Hlive. destruct s as [[s topic] p]. unfold write_floor.
  destruct (negb _); [done|]. cbn [slice_topition fst snd].
  set (view := valid_substream_segments ix s p).
  assert (Hwrite : forall w, risen tp ws
    (match fenced_end <$> last view with
     | None => (ws, Ok tt)
     | Some tail => match env_watermark env (Topition.mk topic p) with
                    | Some _ => (ws, Ok tt)
                    | None => (<[Topition.mk topic p := expire_closure tail w
                         (default Watermark.empty (ws !! Topition.mk topic p))]> ws, @Ok unit tt)
                    end
     end).1).
  { intros w. destruct (_ <$> _), (env_watermark env (Topition.mk topic p)); cbn [fst]; try reflexivity.
    apply risen_insert. intros <-. cbn. split; [lia|done]. }
  destruct (surviving_end expirable view); [apply Hwrite|].
  destruct (env_live env topic) as [[|]|e|q] eqn:El; [apply Hwrite| |reflexivity..].
  destruct (env_remove env _); [reflexivity|]. cbn. unfold risen, floor_of, truncation_of.
  rewrite lookup_delete_ne; [done|]. intros <-. by eapply Hlive.
Qed.

Lemma write_floors_risen env ix current expirable ws l tp :
  (forall e, env_live env (Topition.topic tp) = e -> e <> Ok false) ->
  risen tp ws (write_floors env ix current expirable ws l).1.
Proof.
  intros Hlive. revert ws. induction l as [|s l IH]; intros ws; cbn [write_floors]; [done|].
  pose proof (write_floor_risen env ix current expirable ws s tp Hlive) as H.
  destruct (write_floor _ _ _ _ _ s) as [ws1 [[]|e|q]]; cbn [fst] in *; [|done..].
  etransitivity; [exact H|apply IH].
Qed.

Lemma retire_segments_watermarks env px seqs :
  px_watermarks (retire_segments env px seqs).1 = px_watermarks px.
Proof.
  pose proof (retire_segments_spec env px seqs) as H. by destruct (retire_segments _ _ _), H.
Qed.

Lemma expire_risen env threshold px tp :
  (forall e, env_live env (Topition.topic tp) = e -> e <> Ok false) ->
  risen tp (px_watermarks px) (px_watermarks (expire_prefix_segments env threshold px).1).
Proof.
  intros Hlive. unfold expire_prefix_segments.
  destruct (env_refresh env (px_index px)) as [ix [[]|e|q]]; cbn [fst]; [|done..].
  destruct (decide_expiry _ _ _) as [[aged truncated]|]; [|done].
  destruct (expirable_seqs _ _ _); [done|]. destruct (env_lease env); [|done].
  unfold delete_expired. destruct (resolve_current _ _) as [[]|e|q]; [|done..].
  match goal with |- context [write_floors ?e ?i ?c ?x ?w ?l] =>
    pose proof (write_floors_risen e i c x w l tp Hlive) as H;
    destruct (write_floors e i c x w l) as [ws [[]|e'|q]] end; [|done..].
  by rewrite retire_segments_watermarks.
Qed.

Lemma certify_slice_risen read fault current ix ws s tp :
  risen tp ws (certify_slice read fault current ix ws s).1.
Proof.
  destruct s as [[s topic] p]. unfold certify_slice. destruct (negb _); [done|].
  destruct (_ <$> _) as [tail|]; [|done]. destruct (read _) as [w|]; [|done].
  destruct (_ || _); [done|]. destruct (fault _); [done|]. unfold certify_closure.
  destruct (_ =? _); cbn; apply risen_insert; intros <-; cbn; split; done.
Qed.

Lemma certify_slices_risen read fault current ix ws l n tp :
  risen tp ws (certify_slices read fault current ix ws l n).1.
Proof.
  revert ws n. induction l as [|s l IH]; intros ws n; cbn [certify_slices]; [done|].
  pose proof (certify_slice_risen read fault current ix ws s tp) as H.
  destruct (certify_slice _ _ _ _ _ _) as [ws1 wrote]. etransitivity; [exact H|apply IH].
Qed.

(** The operations on a prefix, in any order, while the topic of [tp] exists. *)
Inductive prefix_step (tp : Topition) : Prefix -> Prefix -> Prop :=
  | step_expire env threshold px :
      (forall e, env_live env (Topition.topic tp) = e -> e <> Ok false) ->
      prefix_step tp px (expire_prefix_segments_if_due env threshold px).1
  | step_certify env read reconciled px :
      prefix_step tp px (certify_prefix_served_ends env read reconciled px).1.1
  | step_delete_records high routed env tp' before memo px :
      prefix_step tp px (delete_records_before high routed env tp' before memo px).1.1.

Lemma prefix_step_risen tp px px' :
  prefix_step tp px px' -> risen tp (px_watermarks px) (px_watermarks px').
Proof.
  destruct 1 as [env threshold px Hlive|env read reconciled px|high routed env tp' before memo px].
  - unfold expire_prefix_segments_if_due. destruct (maybe_expirable _ _); [|done]. by apply expire_risen.
  - unfold certify_prefix_served_ends. destruct reconciled; [done|]. destruct (negb _); [done|].
    destruct (env_refresh _ _) as [ix [[]|e|q]]; [|done..].
    destruct (resolve_current _ _) as [[]|e|q]; [|done..].
    match goal with |- context [certify_slices ?r ?f ?c ?i ?w ?l 0] =>
      pose proof (certify_slices_risen r f c i w l 0 tp) as H; by destruct (certify_slices r f c i w l 0) end.
  - unfold delete_records_before. destruct high as [high|e|q]; [|done..].
    destruct (before_offset high before) as [b|e|q]; [|done..]. destruct (env_watermark env tp'); [done|].
    cbn [truncate_closure]. assert (H : forall f, option_le (truncation_of (px_watermarks px) tp') (Some f) ->
      risen tp (px_watermarks px) (<[tp' := Watermark.mk (Watermark.high (default Watermark.empty (px_watermarks px !! tp')))
         (Some f) (Watermark.served (default Watermark.empty (px_watermarks px !! tp')))]> (px_watermarks px))).
    { intros f Hf. apply risen_insert. intros ->. cbn. split; [done|].
      unfold truncation_of in Hf. by destruct (px_watermarks px !! tp). }
    destruct routed; cbn; apply H; unfold truncation_of;
      destruct (px_watermarks px !! tp') as [[? [t|] ?]|]; cbn; lia.
Qed.

(** ** Properties of a run *)

(** C8 Retention never lets an offset be assigned twice, and certifies only
    what it destroyed.  When every watermark write of a run succeeds, then
    whatever segments its deletes removed, all of them or a part before a
    failure, a process that lists the store afterwards derives the same next
    offset for a live topic's partition as was derived before; and a watermark
    the run moved certifies a gap in which no segment left in the index serves
    an offset. *)
Theorem expiry_keeps_next_offset (env : ExpiryEnv) (threshold : Z) (px : Prefix) (ix : PrefixIndex)
    (topic : bytes) (s : Substream) (p : Z)
    (Hrefresh : env_refresh env (px_index px) = (ix, Ok tt))
    (Hreach : reachable ix) (Hcount : counted ix)
    (Hwrites : forall tp, env_watermark env tp = None)
    (Hcurrent : env_current env topic = Ok s) (Hlive : env_live env topic = Ok true)
    (Hnames : Forall (fun x => Entry.topic x.2 = topic) (substream_entries ix s p))
    (Hfloor : 0 <= floor_of (px_watermarks px) (Topition.mk topic p)) :
  let '(px', r) := expire_prefix_segments env threshold px in
  expiry_sound ix s (Topition.mk topic p) px px' r.
Proof.
  apply reachable_ok in Hreach as Hok. unfold expire_prefix_segments. rewrite Hrefresh.
  destruct (decide_expiry _ _ _) as [[aged truncated]|]; [|by apply expiry_sound_same].
  destruct (expirable_seqs _ _ _) eqn:Ex; [by apply expiry_sound_same|].
  destruct (env_lease env); [|by apply expiry_sound_same].
  apply (delete_expired_sound env
    (px_set_hint (px_set_index px ix) (surviving_oldest aged truncated (segments_snapshot ix))));
    try done. cbn. by rewrite Ex.
Qed.

(** C38 The durable floors of a live topic's partition only rise: whatever
    order expiries, certifications and [DeleteRecords] calls of any broker run
    in, with whatever faults, the offset floor and the truncation floor of its
    watermark never go back, so a truncated record stays hidden. *)
Theorem floors_only_rise (tp : Topition) (px px' : Prefix) :
  rtc (prefix_step tp) px px' ->
  floor_of (px_watermarks px) tp <= floor_of (px_watermarks px') tp /\
  option_le (truncation_of (px_watermarks px) tp) (truncation_of (px_watermarks px') tp).
Proof.
  change (rtc (prefix_step tp) px px' -> risen tp (px_watermarks px) (px_watermarks px')).
  induction 1 as [|a b c H _ IH]; [done|]. etransitivity; [by apply prefix_step_risen|exact IH].
Qed.

(** [DeleteRecords] truncates where it says or not at all: an offset outside
    the log, [-1] apart, is refused and changes nothing; otherwise the answer is
    the floor that holds, at or above the offset asked for, never below the
    floor before, and the partition's watermark has it. *)
Theorem delete_records_exact (high : Z) (env : ExpiryEnv) (tp : Topition) (before : Z)
    (memo : gmap Topition Z) (px : Prefix) :
  let '(px', _, r) := delete_records_before (Ok high) (Ok tt) env tp before memo px in
  if negb (before =? -1) && ((before <? 0) || (high <? before)) then px' = px /\ r = Err OffsetOutOfRange
  else
    match env_watermark env tp with
    | Some e => px' = px /\ r = Err e
    | None =>
        exists floor, r = Ok floor /\ truncation_of (px_watermarks px') tp = Some floor /\
          (if before =? -1 then high else before) <= floor /\
          option_le (truncation_of (px_watermarks px) tp) (Some floor) /\
          (floor = (if before =? -1 then high else before) \/
           truncation_of (px_watermarks px) tp = Some floor) /\
          px_hint px' = None /\
          forall tp', tp' <> tp -> px_watermarks px' !! tp' = px_watermarks px !! tp'
    end.
Proof.
  unfold delete_records_before, before_offset. destruct (before =? -1); cbn [negb andb];
    [|destruct (_ || _); [done|]]; (destruct (env_watermark env tp); [done|]); cbn;
    unfold truncation_of; (eexists; split; [done|]); rewrite lookup_insert_eq;
    (destruct (px_watermarks px !! tp) as [[? [t|] ?]|]; cbn);
    (split_and!; [done|lia|lia| |done|intros; by rewrite lookup_insert_ne]); auto.
  all: match goal with |- Z.max ?a ?b = _ \/ _ => destruct (Z.max_spec a b) as [[? ->]|[? ->]] end; auto.
Qed.

(** ** One partition, two segments *)

Module TwoSegments.

(** A topic keyed by its id. *)
Definition topic : bytes := ascii_bytes "a".
Definition tp : Topition := Topition.mk topic 0.

Definition slice (base count newest : Z) : SubstreamEntry :=
  Entry.mk topic (Some 2) 0 base count 0 65 newest [].

(** Segment 1 holds [0, 10), last stamped at 10; segment 2 holds [10, 14),
    last stamped at 500. *)
Definition index : PrefixIndex :=
  index_insert (index_insert Index.empty 0 1 (mkFooter 5 7 [slice 0 10 10]) 0)
    1 2 (mkFooter 5 8 [slice 10 4 500]) 0.

Definition start : Prefix := mkPrefix index None ∅ 0 {[1; 2]}.

(** A store that answers every call, with the given truncation cache and
    answers of the watermark writes. *)
Definition store (truncate : Topition -> option Z) (watermark : Topition -> option error) : ExpiryEnv :=
  mkExpiryEnv (fun ix => (ix, Ok tt)) truncate true (fun _ => Ok (Id 2)) (fun _ => Ok true)
    watermark (fun _ => None) None (fun _ => None).

Definition calm : ExpiryEnv := store (fun _ => None) (fun _ => None).

Definition next_offset (px : Prefix) : Z :=
  recover_substream_next_offset (px_index px) (Id 2) 0 (floor_of (px_watermarks px) tp).

Lemma index_reachable : reachable index.
Proof. eapply rtc_l; [apply step_insert|]. eapply rtc_l; [apply step_insert|]. apply rtc_refl. Qed.

Lemma index_counted : counted index.
Proof.
  intros s p. apply Forall_forall. intros [[seq epoch] e] Hin.
  apply elem_substream_entries in Hin as (c & Hc & _ & He & _);
    [|apply reachable_ok, index_reachable].
  assert (H : map_Forall (fun _ c => Forall (fun e => 1 <= Entry.record_count e /\ i64_MIN <= Entry.base_offset e)
                (entries (footer c))) (Index.segments index)).
  { apply (bool_decide_unpack _). vm_compute. exact I. }
  specialize (H _ _ Hc). rewrite Forall_forall in H. by apply H.
Qed.

End TwoSegments.

Lemma expiry_takes_a_head_witness :
  exists aged truncated,
    decide_expiry (fun _ => None) 100 TwoSegments.index = Some (aged, truncated) /\
    forall s p r kept,
      r ∈ valid_substream_segments TwoSegments.index s p ->
      kept ∈ valid_substream_segments TwoSegments.index s p ->
      fenced_seq r ∈ aged -> fenced_seq kept ∉ aged -> fenced_seq kept ∉ truncated ->
      fenced_end r <= served_from kept.
Proof.
  destruct (expiry_takes_a_head (fun _ => None) 100 TwoSegments.index TwoSegments.index_reachable
              TwoSegments.index_counted) as (aged & truncated & H1 & _ & _ & H2 & _).
  exists aged, truncated. by split.
Defined.

Lemma expiry_keeps_next_offset_witness :
  (expire_prefix_segments TwoSegments.calm 100 TwoSegments.start).2 = Ok 1 /\
  let '(px', r) := expire_prefix_segments TwoSegments.calm 100 TwoSegments.start in
  expiry_sound TwoSegments.index (Id 2) TwoSegments.tp TwoSegments.start px' r.
Proof.
  split; [by vm_compute|].
  apply (expiry_keeps_next_offset TwoSegments.calm 100 TwoSegments.start TwoSegments.index
           TwoSegments.topic (Id 2) 0 eq_refl TwoSegments.index_reachable
           TwoSegments.index_counted (fun _ => eq_refl) eq_refl eq_refl);
    [|by vm_compute].
  apply (bool_decide_unpack _). vm_compute. exact I.
Defined.

(** [DeleteRecords] to 5, then an expiry. *)
Lemma floors_only_rise_witness :
  let px1 := (delete_records_before (Ok 14) (Ok tt) TwoSegments.calm TwoSegments.tp 5 ∅ TwoSegments.start).1.1 in
  let px2 := (expire_prefix_segments_if_due TwoSegments.calm 100 px1).1 in
  truncation_of (px_watermarks px1) TwoSegments.tp = Some 5 /\
  option_le (Some 5) (truncation_of (px_watermarks px2) TwoSegments.tp).
Proof.
  intros px1 px2. split; [by vm_compute|].
  refine (proj2 (floors_only_rise TwoSegments.tp px1 px2 _)).
  eapply rtc_l; [|apply rtc_refl]. apply step_expire. by intros e <-.
Defined.

(** ** Where the floors fail *)

(** A watermark write that fails does not stop the delete: a run in which
    the store refuses the watermark of a partition still deletes its segments
    and reports them, no floor is left, and the next offset derived goes back
    from 14 to 0. *)
Example unwritten_floor_reuses_offsets :
  let run := expire_prefix_segments
               (TwoSegments.store (fun _ => None) (fun _ => Some (Message "unavailable"))) 1000
               TwoSegments.start in
  TwoSegments.next_offset TwoSegments.start = 14 /\ run.2 = Ok 2 /\
  elements (px_objects run.1) = [] /\ TwoSegments.next_offset run.1 = 0.
Proof. split_and!; by vm_compute. Qed.

(** The truncation floor is looked up by name in this process's cache: a
    floor of 100 still cached from a topic of the same name deleted and made
    anew elsewhere deletes the new topic's segments, although the partition's
    watermark has no floor and no record is older than the threshold. *)
Example stale_floor_deletes_live :
  let run := expire_prefix_segments (TwoSegments.store (fun _ => Some 100) (fun _ => None)) 5
               TwoSegments.start in
  truncation_of (px_watermarks TwoSegments.start) TwoSegments.tp = None /\
  classify (fun _ => None) 5 (segments_snapshot TwoSegments.index) = (∅, ∅) /\
  run.2 = Ok 2 /\ elements (px_objects run.1) = [].
Proof. split_and!; by vm_compute. Qed.
