(* ===== verification/Compaction.v ===== *)
(** * Compaction: merging the oldest segments of a prefix

    [tansu-storage/src/dynostore/compaction.rs] with [RunCoverage] and
    [decode_fenced_regions] of [dynostore/fetch.rs] and the quarantine and seam
    memos of [dynostore/retention.rs]: which run of segments is merged, when the
    merge is refused and what the merged segment holds.

    The store is the set of live sequences and the body of every segment ever
    created (a name is written once); what the refresh, the lease, each GET, the
    create and the deletes answer is a [CompactEnv].  The class of a tiling
    break only chooses a log level and a metric label, so [TilingBreak] stands
    beside the pass.  The per-key pass of compacted topics is in [PerKey]. *)

From S2P Require Export Retention.

(** ** Offset arithmetic *)

(** The highest offset of [lo, hi) that none of the spans serve. *)
Fixpoint unserved_loop (hi : Z) (spans : list (Z * Z)) (cursor : Z) (highest : option Z)
    : Z * option Z :=
  match spans with
  | [] => (cursor, highest)
  | (from, to) :: spans =>
      if hi <=? cursor then (cursor, highest)
      else unserved_loop hi spans (Z.max cursor to)
             (if cursor <? from then Some (Z.min from hi - 1) else highest)
  end.

Definition highest_unserved (lo hi : Z) (spans : list (Z * Z)) : option Z :=
  let '(cursor, highest) := unserved_loop hi (merge_sort key_le spans) lo None in
  if cursor <? hi then Some (hi - 1) else highest.

(** In ascending severity. *)
Inductive TilingBreak := OutsideRun | BelowLogStart | CompactedTopic | Straddle | Missing.

Definition TilingBreak_of (expected region_base : Z) (outside : list (Z * Z)) (log_start : Z)
    (compacted : bool) : TilingBreak :=
  if region_base <? expected then Straddle
  else
    match highest_unserved expected region_base outside with
    | None => OutsideRun
    | Some offset =>
        if offset <? log_start then BelowLogStart
        else if compacted then CompactedTopic else Missing
    end.

(** The offsets a run holds, per sub-stream, as sorted disjoint intervals. *)
Abbreviation RunUnion := (gmap SubstreamKey (list (Z * Z))).

(** [spans.retain(..)]: the intervals kept, and the widened one. *)
Fixpoint absorb (spans : list (Z * Z)) (from to : Z) : list (Z * Z) * (Z * Z) :=
  match spans with
  | [] => ([], (from, to))
  | (held_from, held_to) :: spans =>
      if (held_from <=? to) && (from <=? held_to)
      then absorb spans (Z.min from held_from) (Z.max to held_to)
      else let '(kept, widened) := absorb spans from to in ((held_from, held_to) :: kept, widened)
  end.

(** [partition_point] then [insert]. *)
Fixpoint insert_span (spans : list (Z * Z)) (x : Z * Z) : list (Z * Z) :=
  match spans with
  | [] => [x]
  | s :: rest => if s.1 <? x.1 then s :: insert_span rest x else x :: spans
  end.

Definition union_spans (spans : list (Z * Z)) (from to : Z) : list (Z * Z) :=
  let '(kept, widened) := absorb spans from to in insert_span kept widened.

Definition union_insert (u : RunUnion) (key : SubstreamKey) (from to : Z) : RunUnion :=
  if to <=? from then u else <[key := union_spans (default [] (u !! key)) from to]> u.

Definition is_connected (u : RunUnion) : bool :=
  forallb (fun '(_, spans) => (length spans <=? 1)%nat) (map_to_list u).

Fixpoint span_gaps (spans : list (Z * Z)) : list (Z * Z) :=
  match spans with
  | a :: (b :: _) as rest => (a.2, b.1) :: span_gaps rest
  | _ => []
  end.

(** ** Coverage of a run by raw entries *)

Record OffsetSpan := mkSpan { span_base : Z; span_end : Z; span_records : Z }.

Definition is_contiguous (s : OffsetSpan) : bool := span_records s =? span_end s - span_base s.

Abbreviation RunCoverage := (gmap SubstreamKey OffsetSpan).

Definition cover (held : RunCoverage) (e : SubstreamEntry) : OffsetSpan :=
  match held !! entry_key e with
  | Some h => mkSpan (Z.min (span_base h) (Entry.base_offset e)) (Z.max (span_end h) (Entry.end_ e))
                (span_records h + Entry.record_count e)
  | None => mkSpan (Entry.base_offset e) (Entry.end_ e) (Entry.record_count e)
  end.

(** [RunCoverage::extend]: [None] is the answer [false]. *)
Definition coverage_extend (held : RunCoverage) (es : list SubstreamEntry) : option RunCoverage :=
  if forallb (fun e => is_contiguous (cover held e)) es
  then Some (fold_left (fun c e => <[entry_key e := cover held e]> c) es held)
  else None.

(** ** Divergence *)

Record BatchSpan := mkBatchSpan { bs_from : Z; bs_to : Z; bs_seq : Z; bs_crc : Z }.

Definition span_key (s : BatchSpan) : Z * Z * Z := (bs_from s, bs_to s, bs_seq s).

Definition span_le (a b : BatchSpan) : Prop := key_le (span_key a) (span_key b).
#[export] Instance span_le_dec : RelDecision span_le.
Proof. intros a b. unfold span_le. apply _. Defined.
#[export] Instance span_le_total : Total span_le.
Proof. intros a b. apply key_le_total. Qed.
#[export] Instance span_le_trans : Transitive span_le.
Proof. intros a b c. apply key_le_trans. Qed.

Definition same_batch (a b : BatchSpan) : bool :=
  (bs_from a =? bs_from b) && (bs_to a =? bs_to b) && (bs_crc a =? bs_crc b).

Fixpoint divergence_loop (spans : list BatchSpan) (reach : option BatchSpan)
    : option (BatchSpan * BatchSpan) :=
  match spans with
  | [] => None
  | s :: spans =>
      match reach with
      | None => divergence_loop spans (Some s)
      | Some held =>
          if bs_from s <? bs_to held then
            if same_batch s held then divergence_loop spans reach else Some (held, s)
          else divergence_loop spans (if bs_to held <? bs_to s then Some s else reach)
      end
  end.

Definition first_divergence (spans : list BatchSpan) : option (BatchSpan * BatchSpan) :=
  divergence_loop (merge_sort span_le spans) None.

(** ** Tiling *)

(** [(sequence, base, batches)] *)
Abbreviation Region := (Z * Z * list Deflated.Batch)%type.

Fixpoint tiling_loop (in_run : list Region) (expected : Z) : list (Z * Z * Z) :=
  match in_run with
  | [] => []
  | (seq, region_base, region) :: in_run =>
      if region_base =? expected then tiling_loop in_run (expected + total_records region)
      else (seq, expected, region_base) :: tiling_loop in_run (region_base + total_records region)
  end.

Definition tiling_breaks (in_run : list Region) : list (Z * Z * Z) :=
  match in_run with
  | [] => []
  | (_, base, _) :: _ => tiling_loop in_run base
  end.

(** ** Reading the run *)

(** The batches below [served_from] are shed, whole. *)
Fixpoint shed (served_from base : Z) (batches : list Deflated.Batch) : Z * list Deflated.Batch :=
  match batches with
  | [] => (base, [])
  | b :: rest =>
      let span := Deflated.last_offset_delta b + 1 in
      if served_from <? base + span then (base, batches) else shed served_from (base + span) rest
  end.

(** One region of an object, when the object has the extent. *)
Definition read_region (e : SubstreamEntry) (object : bytes) : result (list Deflated.Batch) :=
  if Z.of_nat (length object) <? Entry.byte_start e + Entry.byte_len e
  then Err (CorruptSegment "region extent runs past the object")
  else decode_region e (region_bytes_of e object).

Fixpoint fenced_regions (view : list FencedRef) (objects : gmap Z bytes) : result (list Region) :=
  match view with
  | [] => Ok []
  | r :: view =>
      match objects !! fenced_seq r with
      | None => fenced_regions view objects
      | Some object =>
          let! batches := read_region (fenced_entry r) object in
          let base := Entry.base_offset (fenced_entry r) in
          let '(base, batches) :=
            if is_clipped r then shed (served_from r) base batches else (base, batches) in
          let! rest := fenced_regions view objects in
          Ok ((fenced_seq r, base, batches) :: rest)
      end
  end.

Definition decode_fenced_regions (ix : PrefixIndex) (s : Substream) (p : Z) (objects : gmap Z bytes)
    : result (list Region) :=
  fenced_regions (valid_substream_segments ix s p) objects.

(** ** What a pass knows *)

Record Tuning := mkTuning {
  min_segments : nat;
  keep_hot : nat;
  target_bytes : Z;
  region_bytes : Z;
  format_version : Z;
}.

Record CompactEnv := mkCompactEnv {
  ce_store : ExpiryEnv;
  ce_tuning : Tuning;
  ce_get : Z -> option error;
  ce_create : PrefixIndex -> bytes -> result Z * PrefixIndex;
  ce_nonce : Z;
  ce_now : Z;
}.

(** The prefix, the bodies of its segments, and the two memos. *)
Record Compactor := mkCompactor {
  cp_prefix : Prefix;
  cp_bodies : gmap Z bytes;
  cp_quarantined : gset Z;
  cp_seams : gset Z;
}.

Definition cp_set_prefix (cp : Compactor) (px : Prefix) : Compactor :=
  mkCompactor px (cp_bodies cp) (cp_quarantined cp) (cp_seams cp).
Definition cp_set_index (cp : Compactor) (ix : PrefixIndex) : Compactor :=
  cp_set_prefix cp (px_set_index (cp_prefix cp) ix).

Definition PREFIX_QUARANTINE_CAP : nat := 4096.

Definition quarantine_seq (cp : Compactor) (seq : Z) : Compactor * bool :=
  if negb (bool_decide (seq ∈ cp_quarantined cp))
     && (PREFIX_QUARANTINE_CAP <=? size (cp_quarantined cp))%nat then (cp, false)
  else if bool_decide (seq ∈ cp_quarantined cp) then (cp, false)
  else (mkCompactor (cp_prefix cp) (cp_bodies cp) ({[seq]} ∪ cp_quarantined cp) (cp_seams cp), true).

(** [memo_compact_seams]: stops at the cap. *)
Fixpoint memo_seams (held : gset Z) (seams : list Z) (learned : bool) : gset Z * bool :=
  match seams with
  | [] => (held, learned)
  | seam :: seams =>
      if bool_decide (seam ∈ held) then memo_seams held seams learned
      else if (PREFIX_QUARANTINE_CAP <=? size held)%nat then (held, learned)
      else memo_seams ({[seam]} ∪ held) seams true
  end.

Definition memo_compact_seams (cp : Compactor) (seams : gset Z) : Compactor * bool :=
  let '(held, learned) := memo_seams (cp_seams cp) (set_list seams) false in
  (mkCompactor (cp_prefix cp) (cp_bodies cp) (cp_quarantined cp) held, learned).

(** ** Selection *)

Record Seg := mkSeg { seg_seq : Z; seg_modified : Z; seg_bytes : Z }.

Definition seg_of (seq : Z) (c : CachedSegment) : Seg :=
  mkSeg seq (last_modified_ms c) (foldr Z.add 0 (map Entry.byte_len (entries (footer c)))).

Definition segs_of (ix : PrefixIndex) : list Seg :=
  omap (fun seq => seg_of seq <$> Index.segments ix !! seq) (sorted_keys (Index.segments ix)).

(** The footers coverage is checked against: none on an undamaged prefix. *)
Definition coverage_entries (cp : Compactor) (seq : Z) : option (list SubstreamEntry) :=
  if bool_decide (cp_quarantined cp = ∅) && bool_decide (cp_seams cp = ∅) then None
  else (fun c => entries (footer c)) <$> Index.segments (px_index (cp_prefix cp)) !! seq.

(** The inner loop: how many segments of [segs] the run takes. *)
Fixpoint grow (t : Tuning) (cp : Compactor) (first : bool) (bytes_ : Z) (cov : RunCoverage)
    (segs : list Seg) : nat :=
  match segs with
  | [] => 0
  | s :: segs =>
      if (seg_bytes s <? target_bytes t) && negb (bool_decide (seg_seq s ∈ cp_quarantined cp))
         && (first || negb (bool_decide (seg_seq s ∈ cp_seams cp)))
         && (first || (bytes_ + seg_bytes s <=? target_bytes t))
      then
        match coverage_entries cp (seg_seq s) with
        | None => S (grow t cp false (bytes_ + seg_bytes s) cov segs)
        | Some es =>
            match coverage_extend cov es with
            | Some cov => S (grow t cp false (bytes_ + seg_bytes s) cov segs)
            | None => 0
            end
        end
      else 0
  end.

Definition add_entries (ix : PrefixIndex) (u : RunUnion) (seq : Z) : RunUnion :=
  match Index.segments ix !! seq with
  | None => u
  | Some c => fold_left (fun u e => union_insert u (entry_key e) (Entry.base_offset e) (Entry.end_ e))
                (entries (footer c)) u
  end.

(** The longest leading stretch that is connected, and the union of all. *)
Fixpoint connected_len (ix : PrefixIndex) (run : list Z) (n connected : nat) (u : RunUnion)
    : nat * RunUnion :=
  match run with
  | [] => (connected, u)
  | seq :: run =>
      let u := add_entries ix u seq in
      connected_len ix run (S n) (if is_connected u then S n else connected) u
  end.

Definition outside_spans (ix : PrefixIndex) (s : Substream) (p : Z) (run : list Z) : list (Z * Z) :=
  map (fun r => (served_from r, fenced_end r))
    (List.filter (fun r => negb (bool_decide (fenced_seq r ∈ run))) (valid_substream_segments ix s p)).

Definition straddle_free_len (ix : PrefixIndex) (run : list Z) : nat :=
  let '(connected, u) := connected_len ix run 0 0 ∅ in
  if (connected =? length run)%nat then length run
  else if existsb (fun '((s, p), spans) =>
                     existsb (fun '(lo, hi) => bool_decide (highest_unserved lo hi (outside_spans ix s p run) = None))
                       (span_gaps spans)) (map_to_list u)
       then connected
  else length run.

(** The outer loop, at most one turn per segment. *)
Fixpoint choose (fuel : nat) (t : Tuning) (cp : Compactor) (segs : list Seg) : list Seg :=
  match fuel, segs with
  | O, _ => []
  | _, [] => []
  | S fuel, s :: rest =>
      if (target_bytes t <=? seg_bytes s) || bool_decide (seg_seq s ∈ cp_quarantined cp)
      then choose fuel t cp rest
      else
        let n := grow t cp true 0 ∅ segs in
        if (2 <=? n)%nat then
          let take_ := straddle_free_len (px_index (cp_prefix cp)) (map seg_seq (take n segs)) in
          if (take_ <? 2)%nat then choose fuel t cp rest else take take_ segs
        else choose fuel t cp (drop (Nat.max n 1) segs)
  end.

(** The run of a pass, oldest first; empty when there is none. *)
Definition select_run (t : Tuning) (cp : Compactor) : list Seg :=
  let segs := segs_of (px_index (cp_prefix cp)) in
  if (length segs <=? min_segments t)%nat then []
  else
    let eligible := take (length segs - keep_hot t) segs in
    if (length eligible <? 2)%nat then []
    else choose (length eligible) t cp eligible.

(** ** The pass *)

Inductive CompactRun := Merged (n : Z) | Drained | Retry.

(** [fetch_segment_objects]: the bodies, and the names already gone. *)
Fixpoint fetch_segment_objects (env : CompactEnv) (cp : Compactor) (seqs : list Z)
    (objects : gmap Z bytes) (vanished : list Z) : result (gmap Z bytes * list Z) :=
  match seqs with
  | [] => Ok (objects, vanished)
  | seq :: seqs =>
      match ce_get env seq with
      | Some e => Err e
      | None =>
          match (if bool_decide (seq ∈ px_objects (cp_prefix cp)) then cp_bodies cp !! seq else None) with
          | Some body => fetch_segment_objects env cp seqs (<[seq := body]> objects) vanished
          | None => fetch_segment_objects env cp seqs objects (vanished ++ [seq])
          end
      end
  end.

Definition run_footers (ix : PrefixIndex) (run : list Z) : list (Z * SegmentFooter) :=
  omap (fun seq => (fun c => (seq, footer c)) <$> Index.segments ix !! seq) run.

(** [Ord] of [Substream]: names before ids. *)
Definition substream_cmp (a b : Substream) : comparison :=
  match a, b with
  | Name x, Name y => key_cmp x y
  | Name _, Id _ => Lt
  | Id _, Name _ => Gt
  | Id x, Id y => key_cmp x y
  end.

#[export, program] Instance substream_order : KeyOrder Substream := { key_cmp := substream_cmp }.
Next Obligation.
  intros [x|x] [y|y]; unfold substream_cmp; rewrite ?key_cmp_eq; split; congruence.
Qed.
Next Obligation. intros [x|x] [y|y]; unfold substream_cmp; try done; apply key_cmp_sym. Qed.
Next Obligation. intros [x|x] [y|y] [z|z]; unfold substream_cmp; try done; apply key_cmp_trans. Qed.

Definition run_slices (footers : list (Z * SegmentFooter)) : list Slice :=
  set_list (list_to_set (flat_map (fun '(_, f) => map entry_slice (entries f)) footers)).

(** The raw batches of one region, at the offsets its entry gives them. *)
Fixpoint batch_spans (seq running : Z) (batches : list Deflated.Batch) : list BatchSpan :=
  match batches with
  | [] => []
  | b :: batches =>
      let to := running + (Deflated.last_offset_delta b + 1) in
      mkBatchSpan running to seq (Deflated.crc b) :: batch_spans seq to batches
  end.

(** [(writer epoch, span)] of one sub-stream's entries of a footer. *)
Fixpoint entry_spans (seq epoch : Z) (object : bytes) (es : list SubstreamEntry)
    : result (list (Z * BatchSpan)) :=
  match es with
  | [] => Ok []
  | e :: es =>
      if Z.of_nat (length object) <? Entry.byte_start e + Entry.byte_len e
      then entry_spans seq epoch object es
      else
        let! batches := decode_region e (region_bytes_of e object) in
        let! rest := entry_spans seq epoch object es in
        Ok (map (fun x => (epoch, x)) (batch_spans seq (Entry.base_offset e) batches) ++ rest)
  end.

Definition slice_entries (s : Slice) (f : SegmentFooter) : list SubstreamEntry :=
  List.filter (fun e => (Entry.partition e =? s.2) && Entry.is_ e s.1.1) (entries f).

Fixpoint slice_spans (s : Slice) (footers : list (Z * SegmentFooter)) (objects : gmap Z bytes)
    : result (list (Z * BatchSpan)) :=
  match footers with
  | [] => Ok []
  | (seq, f) :: footers =>
      match objects !! seq with
      | None => slice_spans s footers objects
      | Some object =>
          let! here := entry_spans seq (writer_epoch f) object (slice_entries s f) in
          let! rest := slice_spans s footers objects in
          Ok (here ++ rest)
      end
  end.

Definition epochs_of (spans : list (Z * BatchSpan)) : list Z := set_list (list_to_set (map fst spans)).

Definition of_epoch (epoch : Z) (spans : list (Z * BatchSpan)) : list BatchSpan :=
  map snd (List.filter (fun x => x.1 =? epoch) spans).

(** [spans.into_values().find_map(first_divergence)] *)
Fixpoint find_divergence (epochs : list Z) (spans : list (Z * BatchSpan))
    : option (BatchSpan * BatchSpan) :=
  match epochs with
  | [] => None
  | epoch :: epochs =>
      match first_divergence (of_epoch epoch spans) with
      | Some d => Some d
      | None => find_divergence epochs spans
      end
  end.

(** The loop of [refuse_divergent_run]: [(state, learned, divergent)]. *)
Fixpoint divergence_slices (cp : Compactor) (slices : list Slice) (footers : list (Z * SegmentFooter))
    (objects : gmap Z bytes) (learned divergent : bool) : Compactor * result (bool * bool) :=
  match slices with
  | [] => (cp, Ok (learned, divergent))
  | s :: slices =>
      match slice_spans s footers objects with
      | Err e => (cp, Err e)
      | Panic p => (cp, Panic p)
      | Ok spans =>
          match find_divergence (epochs_of spans) spans with
          | None => divergence_slices cp slices footers objects learned divergent
          | Some (kept, other) =>
              let '(cp, l1) := quarantine_seq cp (bs_seq kept) in
              let '(cp, l2) := quarantine_seq cp (bs_seq other) in
              divergence_slices cp slices footers objects (learned || l1 || l2) true
          end
      end
  end.

(** What the loop over the sub-streams gathers. *)
Record Gathered := mkGathered { g_writes : list SubstreamWrite; g_epoch : Z; g_seams : gset Z }.

Definition region_epoch (footers : list (Z * SegmentFooter)) (epoch : Z) (r : Region) : Z :=
  match List.find (fun x => x.1 =? r.1.1) footers with
  | Some (_, f) => Z.max epoch (writer_epoch f)
  | None => epoch
  end.

Definition gather_slice (footers : list (Z * SegmentFooter)) (g : Gathered) (s : Slice)
    (in_run : list Region) : Gathered :=
  match in_run with
  | [] => g
  | (_, base, _) :: _ =>
      match tiling_breaks in_run with
      | [] =>
          mkGathered
            (g_writes g ++ [SWrite.mk s.1.2 s.2 s.1.1 base (flat_map snd in_run)])
            (fold_left (region_epoch footers) in_run (g_epoch g)) (g_seams g)
      | breaks => mkGathered (g_writes g) (g_epoch g) (list_to_set (map (fun x => x.1.1) breaks) ∪ g_seams g)
      end
  end.

Fixpoint gather (ix : PrefixIndex) (footers : list (Z * SegmentFooter)) (objects : gmap Z bytes)
    (slices : list Slice) (g : Gathered) : result Gathered :=
  match slices with
  | [] => Ok g
  | s :: slices =>
      let! in_run := decode_fenced_regions ix s.1.1 s.2 objects in
      gather ix footers objects slices (gather_slice footers g s in_run)
  end.

(** Encoding a segment, creating it, and indexing it under the append time
    [modified]. *)
Definition create_segment (env : CompactEnv) (cp : Compactor) (writes : list SubstreamWrite)
    (epoch nonce modified : Z) : Compactor * result unit :=
  match encode_segment_indexed (capped_regions writes (region_bytes (ce_tuning env)))
          (Z.max epoch 0) nonce (format_version (ce_tuning env)) with
  | Err e => (cp, Err e)
  | Panic p => (cp, Panic p)
  | Ok (payload, f) =>
      let px := cp_prefix cp in
      match ce_create env (px_index px) payload with
      | (Ok seq, ix) =>
          let px := mkPrefix (index_insert ix (ce_now env) seq f modified) (px_hint px)
                      (px_watermarks px) (px_floor px) ({[seq]} ∪ px_objects px) in
          (mkCompactor px (<[seq := payload]> (cp_bodies cp)) (cp_quarantined cp) (cp_seams cp), Ok tt)
      | (Err e, ix) => (cp_set_index cp ix, Err e)
      | (Panic p, ix) => (cp_set_index cp ix, Panic p)
      end
  end.

(** Writing the merged segment, when there is anything to write. *)
Definition write_merged (env : CompactEnv) (cp : Compactor) (g : Gathered) (modified : Z)
    : Compactor * result unit :=
  match g_writes g with
  | [] => (cp, Ok tt)
  | writes => create_segment env cp writes (g_epoch g) (ce_nonce env) modified
  end.

(** From the lease to the deletes, for the run selected. *)
Definition merge_run (env : CompactEnv) (cp : Compactor) (chosen : list Seg) : Compactor * result CompactRun :=
  let run := map seg_seq chosen in
  let footers := run_footers (px_index (cp_prefix cp)) run in
  match fetch_segment_objects env cp run ∅ [] with
  | Err e => (cp, Err e)
  | Panic p => (cp, Panic p)
  | Ok (_, (_ :: _) as vanished) =>
      (cp_set_index cp (index_invalidate (index_prune (px_index (cp_prefix cp)) vanished)), Ok Retry)
  | Ok (objects, []) =>
      let slices := run_slices footers in
      match divergence_slices cp slices footers objects false false with
      | (cp, Err e) => (cp, Err e)
      | (cp, Panic p) => (cp, Panic p)
      | (cp, Ok (learned, true)) => (cp, Ok (if learned then Retry else Drained))
      | (cp, Ok (_, false)) =>
          match gather (px_index (cp_prefix cp)) footers objects slices (mkGathered [] i64_MIN ∅) with
          | Err e => (cp, Err e)
          | Panic p => (cp, Panic p)
          | Ok g =>
              if negb (bool_decide (g_seams g = ∅)) then
                let '(cp, learned) := memo_compact_seams cp (g_seams g) in
                (cp, Ok (if learned then Retry else Drained))
              else
                match write_merged env cp g (default i64_MIN (max_key (map seg_modified chosen))) with
                | (cp, Err e) => (cp, Err e)
                | (cp, Panic p) => (cp, Panic p)
                | (cp, Ok _) =>
                    match retire_segments (ce_store env) (cp_prefix cp) run with
                    | (px, Ok _) => (cp_set_prefix cp px, Ok (Merged (Z.of_nat (length run))))
                    | (px, Err e) => (cp_set_prefix cp px, Err e)
                    | (px, Panic p) => (cp_set_prefix cp px, Panic p)
                    end
                end
          end
      end
  end.

Definition compact_prefix_segments (env : CompactEnv) (cp : Compactor) : Compactor * result CompactRun :=
  if (min_segments (ce_tuning env) =? 0)%nat then (cp, Ok Drained)
  else
    let '(ix, refreshed) := env_refresh (ce_store env) (px_index (cp_prefix cp)) in
    let cp := cp_set_index cp ix in
    match refreshed with
    | Err e => (cp, Err e)
    | Panic p => (cp, Panic p)
    | Ok _ =>
        let chosen := select_run (ce_tuning env) cp in
        if (length chosen <? 2)%nat then (cp, Ok Drained)
        else if negb (env_lease (ce_store env)) then (cp, Ok Drained)
        else merge_run env cp chosen
    end.

(** ** Batches at their offsets *)

Fixpoint located (base : Z) (bs : list Deflated.Batch) : list (Z * Deflated.Batch) :=
  match bs with
  | [] => []
  | b :: bs => (base, b) :: located (base + (Deflated.last_offset_delta b + 1)) bs
  end.

Lemma located_app base a b : located base (a ++ b) = located base a ++ located (base + total_records a) b.
Proof.
  revert base. induction a as [|x a IH]; intros base; cbn; [by rewrite Z.add_0_r|].
  rewrite IH. f_equal. f_equal. f_equal. lia.
Qed.

Definition region_log (r : Region) : list (Z * Deflated.Batch) := located r.1.2 r.2.

(** Regions that do not break tile: read end to end from the first base, every
    batch is where its own region has it. *)
Lemma tiling_located regions seq base bs :
  tiling_breaks ((seq, base, bs) :: regions) = [] ->
  located base (flat_map snd ((seq, base, bs) :: regions)) = flat_map region_log ((seq, base, bs) :: regions).
Proof.
  unfold tiling_breaks. generalize ((seq, base, bs) :: regions) as l. clear. intros l. revert base.
  induction l as [|[[seq b] bs] l IH]; intros base H; [done|]. cbn [tiling_loop] in H.
  destruct (Z.eqb_spec b base) as [->|]; [|done]. cbn [flat_map]. rewrite located_app, IH by done. done.
Qed.

Lemma shed_spec from base bs :
  let '(base', bs') := shed from base bs in
  (exists dropped, bs = dropped ++ bs' /\ base' = base + total_records dropped) /\
  (base <= from -> base' <= from).
Proof.
  revert base. induction bs as [|b bs IH]; intros base; cbn [shed].
  { split; [exists []; cbn; split; [done|lia]|done]. }
  destruct (Z.ltb_spec from (base + (Deflated.last_offset_delta b + 1))).
  - split; [|done]. exists []. cbn. split; [done|lia].
  - specialize (IH (base + (Deflated.last_offset_delta b + 1))). destruct (shed _ _ bs) as [base' bs'].
    destruct IH as [(dropped & -> & ->) Hle]. split; [|intros _; by apply Hle].
    exists (b :: dropped). cbn. split; [done|lia].
Qed.

(** ** The merged segment *)

Definition piece_log (w : SubstreamWrite) : list (Z * Deflated.Batch) :=
  located (SWrite.base_offset w) (SWrite.batches w).

Definition write_key (w : SubstreamWrite) : SubstreamKey := (SWrite.substream w, SWrite.partition w).

Lemma cap_region_log w cap base next bytes region batches :
  next = base + total_records region ->
  flat_map piece_log (cap_region w cap base next bytes region batches) = located base (region ++ batches) /\
  Forall (fun p => SWrite.topic p = SWrite.topic w /\ write_key p = write_key w)
    (cap_region w cap base next bytes region batches).
Proof.
  revert base next bytes region. induction batches as [|b batches IH]; intros base next bytes region Hn;
    cbn [cap_region].
  { cbn. rewrite !app_nil_r. split; [done|]. by repeat constructor. }
  destruct (_ && _).
  - destruct (IH next (next + (Deflated.last_offset_delta b + 1)) (Deflated.wire_size b) [b]) as [H1 H2];
      [cbn; lia|]. cbn [flat_map]. rewrite H1. split.
    + rewrite (located_app base region (b :: batches)), <- Hn. done.
    + by constructor.
  - destruct (IH base (next + (Deflated.last_offset_delta b + 1)) (bytes + Deflated.wire_size b) (region ++ [b]))
      as [H1 H2]; [rewrite total_records_app; cbn; lia|].
    rewrite H1, <- app_assoc. by split.
Qed.

(** Splitting writes to the cap moves no batch and renames no sub-stream. *)
Lemma capped_regions_log ws cap key :
  flat_map piece_log (List.filter (fun p => bool_decide (write_key p = key)) (capped_regions ws cap)) =
  flat_map piece_log (List.filter (fun w => bool_decide (write_key w = key)) ws).
Proof.
  unfold capped_regions. destruct (cap =? 0); [done|]. induction ws as [|w ws IH]; [done|].
  cbn [flat_map]. rewrite List.filter_app, flat_map_app, IH. cbn [List.filter].
  destruct (cap_region_log w cap (SWrite.base_offset w) (SWrite.base_offset w) 0 [] (SWrite.batches w))
    as [H1 H2]; [cbn; lia|]. cbn [app] in H1. set (l := cap_region _ _ _ _ _ _ _) in *.
  assert (Hf : List.filter (fun p => bool_decide (write_key p = key)) l =
               if bool_decide (write_key w = key) then l else []).
  { clear H1. induction H2 as [|p l [_ Hp] _ IHl]; [by case_bool_decide|]. cbn. rewrite Hp, IHl.
    by case_bool_decide. }
  rewrite Hf. case_bool_decide; [|done]. cbn [flat_map]. by rewrite H1.
Qed.

Definition entry_log (payload : bytes) (e : SubstreamEntry) : list (Z * Deflated.Batch) :=
  match read_region e payload with Ok bs => located (Entry.base_offset e) bs | _ => [] end.

(** What a segment's entries of one sub-stream hold, batch by batch. *)
Definition segment_log (payload : bytes) (es : list SubstreamEntry) (key : SubstreamKey)
    : list (Z * Deflated.Batch) :=
  flat_map (entry_log payload) (List.filter (fun e => bool_decide (entry_key e = key)) es).

Definition own_name (s : Substream) (topic : bytes) : Prop :=
  match s with Name n => n = topic | Id _ => True end.

Lemma slice_extent (s n : Z) (l : bytes) :
  0 < n -> Z.of_nat (length (slice (Z.to_nat s) (Z.to_nat (s + n)) l)) = n -> s + n <= Z.of_nat (length l).
Proof. intros Hn H. unfold slice in H. rewrite length_take, length_drop in H. lia. Qed.

Lemma encode_frame_pos bs : bs <> [] -> 0 < Z.of_nat (length (encode_frame bs)).
Proof.
  destruct bs as [|b bs]; [done|]. intros _. unfold encode_frame. cbn [flat_map].
  rewrite length_app, length_to_bytes. lia.
Qed.

Lemma described_reads payload w e :
  describes payload w e -> SWrite.batches w <> [] -> forallb batch_ok (SWrite.batches w) = true ->
  own_name (SWrite.substream w) (SWrite.topic w) ->
  read_region e payload = Ok (SWrite.batches w) /\ entry_key e = write_key w /\
  Entry.base_offset e = SWrite.base_offset w /\ Entry.end_ e = SWrite.base_offset w + total_records (SWrite.batches w).
Proof.
  intros (Ht & Hid & Hp & Hb & Hc & Hl & Hr) Hne Hok Hn. unfold read_region.
  pose proof (encode_frame_pos _ Hne) as Hpos. split_and!.
  - assert (Entry.byte_start e + Entry.byte_len e <= Z.of_nat (length payload)).
    { apply slice_extent; [lia|]. fold (region_bytes_of e payload). rewrite Hr. lia. }
    rewrite (proj2 (Z.ltb_ge _ _)) by lia. rewrite Hr. unfold decode_region, read_truncated.
    rewrite decode_encode_frame by done. by rewrite Hl, Z.ltb_irrefl.
  - unfold entry_key, write_key, Entry.substream. rewrite Hid, Hp, Ht.
    by destruct (SWrite.substream w) as [n|]; cbn in *; subst.
  - done.
  - unfold Entry.end_. lia.
Qed.

(** The segment the writer encodes holds the batches it was given, where it was
    given them. *)
Lemma encoded_log ws we nc version payload f key :
  encode_segment_indexed ws we nc version = Ok (payload, f) ->
  Forall (fun w => forallb batch_ok (SWrite.batches w) = true /\ own_name (SWrite.substream w) (SWrite.topic w)) ws ->
  segment_log payload (entries f) key =
  flat_map piece_log (List.filter (fun w => bool_decide (write_key w = key)) ws).
Proof.
  intros H Hws. unfold encode_segment_indexed in H. apply rbind_Ok in H as ([body es] & E & H).
  apply Ok_inj, pair_eq in H as [<- <-].
  apply encode_substreams_Ok in E as (ext & new & _ & -> & Hall & _). cbn [app entries].
  match goal with |- segment_log (body ++ ?tail) _ _ = _ =>
    specialize (Hall tail); revert Hall; generalize (body ++ tail) as payload end.
  intros payload Hall. revert new Hall.
  induction Hws as [|w ws [Hok Hn] _ IH]; intros new Hall; [by inversion Hall|].
  rewrite nonempty_cons in Hall. cbn [List.filter].
  destruct (SWrite.batches w) as [|b bs] eqn:Eb.
  - rewrite (IH new Hall). case_bool_decide; [|done]. cbn [flat_map]. unfold piece_log at 2. by rewrite Eb.
  - inversion Hall as [|? e ? new' Hd Hall']; subst. unfold segment_log. cbn [List.filter].
    destruct (described_reads payload w e Hd) as (Hr & Hk & Hbase & _);
      [by rewrite Eb|by rewrite Eb|done|]. rewrite Hk.
    case_bool_decide; cbn [flat_map]; [|by apply IH].
    f_equal; [|by apply IH]. unfold entry_log, piece_log. by rewrite Hr, Hbase.
Qed.

(** ** Intact segments *)

Definition dense (b : Deflated.Batch) : Prop := batch_ok b = true /\ 0 <= Deflated.last_offset_delta b.

(** Every entry of the footer reads back whole batches that fill its range. *)
Definition intact (body : bytes) (f : SegmentFooter) : Prop :=
  Forall (fun e => i64_MIN <= Entry.base_offset e /\
                   exists bs, read_region e body = Ok bs /\ bs <> [] /\ Forall dense bs /\
                              Entry.record_count e = total_records bs) (entries f).

Definition batch_at (o : Z) (x : Z * Deflated.Batch) : Prop :=
  x.1 <= o < x.1 + (Deflated.last_offset_delta x.2 + 1).

Lemma dense_ok bs : Forall dense bs -> forallb batch_ok bs = true.
Proof. induction 1 as [|b bs [Hb _] _ IH]; cbn; [done|by rewrite Hb]. Qed.

Lemma dense_total bs : Forall dense bs -> Z.of_nat (length bs) <= total_records bs.
Proof. induction 1 as [|b bs [_ Hb] _ IH]; cbn; [done|lia]. Qed.

Lemma located_covers base bs o :
  Forall dense bs -> Exists (batch_at o) (located base bs) <-> base <= o < base + total_records bs.
Proof.
  intros H. revert base. induction H as [|b bs [_ Hb] Hbs IH]; intros base; cbn.
  { rewrite Exists_nil. lia. }
  rewrite Exists_cons, IH. unfold batch_at. cbn [fst snd].
  pose proof (dense_total bs Hbs). lia.
Qed.

Lemma Exists_flat_map {A B} (P : B -> Prop) (f : A -> list B) l :
  Exists P (flat_map f l) <-> Exists (fun x => Exists P (f x)) l.
Proof. induction l as [|x l IH]; cbn; [by rewrite !Exists_nil|]. by rewrite Exists_app, Exists_cons, IH. Qed.

(** An intact segment's entries of a sub-stream hold an offset when its log
    does. *)
Lemma intact_covers body f key o :
  intact body f ->
  Exists (batch_at o) (segment_log body (entries f) key) <->
  Exists (fun e => entry_key e = key /\ in_entry e o) (entries f).
Proof.
  intros H. unfold segment_log. rewrite Exists_flat_map.
  unfold intact in H. induction H as [|e es [_ (bs & Hr & _ & Hd & Hc)] _ IH]; [by rewrite !Exists_nil|].
  cbn [List.filter]. rewrite Exists_cons, <- IH.
  case_bool_decide as Hk; [|tauto]. rewrite Exists_cons. unfold entry_log at 1. rewrite Hr.
  rewrite located_covers by done. unfold in_entry, Entry.end_. rewrite Hc. tauto.
Qed.

Lemma intact_counts body f e :
  intact body f -> e ∈ entries f -> 1 <= Entry.record_count e /\ i64_MIN <= Entry.base_offset e.
Proof.
  unfold intact. rewrite Forall_forall. intros H (Hb & bs & _ & Hne & Hd & ->)%H. split; [|done].
  pose proof (dense_total bs Hd). destruct bs; [done|]. cbn [length] in *. lia.
Qed.

(** A segment encoded from dense writes is intact. *)
Lemma encoded_intact ws we nc version payload f :
  encode_segment_indexed ws we nc version = Ok (payload, f) ->
  Forall (fun w => Forall dense (SWrite.batches w) /\ own_name (SWrite.substream w) (SWrite.topic w) /\
                   i64_MIN <= SWrite.base_offset w) ws ->
  intact payload f.
Proof.
  intros H Hws. unfold encode_segment_indexed in H. apply rbind_Ok in H as ([body es] & E & H).
  apply Ok_inj, pair_eq in H as [<- <-].
  apply encode_substreams_Ok in E as (ext & new & _ & -> & Hall & _). unfold intact. cbn [app entries].
  match goal with |- Forall (fun e => _ /\ exists bs, read_region e (body ++ ?tail) = _ /\ _) _ =>
    specialize (Hall tail); revert Hall; generalize (body ++ tail) as payload end.
  intros payload Hall. apply Forall_forall. intros e He.
  apply list_elem_of_lookup in He as [i Hi].
  destruct (Forall2_lookup_r _ _ _ _ _ Hall Hi) as (w & Hw & Hd).
  apply list_elem_of_lookup_2, list_elem_of_filter in Hw as [Hne Hw].
  rewrite Forall_forall in Hws. destruct (Hws w Hw) as (Hdense & Hn & Hb).
  destruct (described_reads payload w e Hd Hne) as (Hr & _ & Hbase & _); [|done|].
  { by apply dense_ok. }
  rewrite Hbase. split; [done|]. exists (SWrite.batches w). split_and!; try done. apply Hd.
Qed.

Definition sound_write (w : SubstreamWrite) : Prop :=
  Forall dense (SWrite.batches w) /\ own_name (SWrite.substream w) (SWrite.topic w) /\
  i64_MIN <= SWrite.base_offset w.

Lemma cap_region_sound w cap base next bytes region batches :
  own_name (SWrite.substream w) (SWrite.topic w) -> Forall dense (region ++ batches) ->
  i64_MIN <= base -> next = base + total_records region ->
  Forall sound_write (cap_region w cap base next bytes region batches).
Proof.
  intros Hn. revert base next bytes region.
  induction batches as [|b batches IH]; intros base next bytes region Hd Hb Hnext; cbn [cap_region].
  { rewrite app_nil_r in Hd. by repeat constructor. }
  destruct (_ && _).
  - apply Forall_app in Hd as [Hr Hd]. pose proof (dense_total _ Hr).
    constructor; [by split|]. apply IH; [done|lia|cbn; lia].
  - apply IH; [by rewrite <- app_assoc|done|]. rewrite total_records_app. cbn. lia.
Qed.

Lemma capped_regions_sound ws cap : Forall sound_write ws -> Forall sound_write (capped_regions ws cap).
Proof.
  intros H. unfold capped_regions. destruct (cap =? 0); [done|].
  induction H as [|w ws (Hd & Hn & Hb) _ IH]; cbn [flat_map]; [done|].
  apply Forall_app. split; [|done]. apply cap_region_sound; [done..|cbn; lia].
Qed.

(** ** Gathering the run *)

Lemma fetch_spec env cp seqs held objects :
  fetch_segment_objects env cp seqs held [] = Ok (objects, []) ->
  (forall seq, seq ∈ seqs -> seq ∈ px_objects (cp_prefix cp) /\ objects !! seq = cp_bodies cp !! seq /\
               is_Some (cp_bodies cp !! seq)) /\
  (forall seq, seq ∉ seqs -> objects !! seq = held !! seq).
Proof.
  assert (Hgone : forall seqs held gone objects, gone <> [] ->
            fetch_segment_objects env cp seqs held gone <> Ok (objects, [])).
  { clear. induction seqs as [|seq seqs IH]; intros held gone objects Hne; cbn; [congruence|].
    destruct (ce_get env seq); [done|]. destruct (if bool_decide _ then _ else _); apply IH; [done|].
    by destruct gone. }
  revert held. induction seqs as [|seq seqs IH]; intros held H; cbn [fetch_segment_objects] in H.
  { injection H as <-. split; [|done]. by intros ? ?%not_elem_of_nil. }
  destruct (ce_get env seq); [done|]. case_bool_decide as Hlive; [|by apply Hgone in H].
  destruct (cp_bodies cp !! seq) as [body|] eqn:Eb; [|by apply Hgone in H].
  destruct (IH _ H) as [H1 H2]. split; intros x.
  - intros Hx. destruct (decide (x ∈ seqs)) as [Hin|Hout]; [by apply H1|].
    apply elem_of_cons in Hx as [->|]; [|done]. rewrite (H2 seq Hout), lookup_insert_eq, Eb. by split_and!.
  - intros [Hne Hout]%not_elem_of_cons. rewrite (H2 x Hout), lookup_insert_ne; [done|congruence].
Qed.

Lemma quarantine_keeps cp seq cp' b :
  quarantine_seq cp seq = (cp', b) -> cp_prefix cp' = cp_prefix cp /\ cp_bodies cp' = cp_bodies cp.
Proof. unfold quarantine_seq. intros H. by repeat case_match; simplify_eq. Qed.

Lemma divergence_keeps cp slices footers objects learned divergent cp' r :
  divergence_slices cp slices footers objects learned divergent = (cp', r) ->
  cp_prefix cp' = cp_prefix cp /\ cp_bodies cp' = cp_bodies cp.
Proof.
  revert cp learned divergent. induction slices as [|s slices IH]; intros cp learned divergent H; cbn in H.
  { by simplify_eq. }
  destruct (slice_spans s footers objects) as [spans| |]; [|by simplify_eq..].
  destruct (find_divergence _ _) as [[kept other]|]; [|by eapply IH].
  destruct (quarantine_seq cp (bs_seq kept)) as [cp1 b1] eqn:E1.
  destruct (quarantine_seq cp1 (bs_seq other)) as [cp2 b2] eqn:E2.
  apply quarantine_keeps in E1 as [P1 B1], E2 as [P2 B2]. apply IH in H as [P B].
  by rewrite P, B, P2, B2, P1, B1.
Qed.

(** What the sub-stream [s] contributes to the merge. *)
Definition slice_write (s : Slice) (regions : list Region) : list SubstreamWrite :=
  match regions with
  | [] => []
  | (_, base, _) :: _ => [SWrite.mk s.1.2 s.2 s.1.1 base (flat_map snd regions)]
  end.

Lemma gather_seams ix footers objects slices g g' :
  gather ix footers objects slices g = Ok g' -> g_seams g ⊆ g_seams g'.
Proof.
  revert g. induction slices as [|s slices IH]; intros g H; cbn [gather] in H; [by simplify_eq|].
  apply rbind_Ok in H as (regions & _ & H). apply IH in H. transitivity (g_seams (gather_slice footers g s regions)); [|done].
  unfold gather_slice. destruct regions as [|[[seq base] bs] regions]; [done|].
  destruct (tiling_breaks _); cbn [g_seams]; [done|]. apply union_subseteq_r.
Qed.

(** With no seam, every sub-stream of the run is carried whole. *)
Lemma gather_spec ix footers objects slices g g' :
  gather ix footers objects slices g = Ok g' -> g_seams g' = ∅ ->
  exists served : Slice -> list Region,
    Forall (fun s => decode_fenced_regions ix s.1.1 s.2 objects = Ok (served s) /\
                     tiling_breaks (served s) = []) slices /\
    g_writes g' = g_writes g ++ flat_map (fun s => slice_write s (served s)) slices.
Proof.
  intros H He. exists (fun s => match decode_fenced_regions ix s.1.1 s.2 objects with Ok r => r | _ => [] end).
  revert g H. induction slices as [|s slices IH]; intros g H; cbn [gather] in H.
  { simplify_eq. split; [constructor|]. cbn. by rewrite app_nil_r. }
  apply rbind_Ok in H as (regions & Hr & H). pose proof (gather_seams _ _ _ _ _ _ H) as Hs.
  destruct (IH _ H) as [HF HW]. cbn [flat_map]. rewrite HW, Hr. unfold gather_slice in *.
  destruct regions as [|[[seq base] bs] regions]; cbn [slice_write].
  { split; [constructor; [by rewrite Hr|done]|done]. }
  destruct (tiling_breaks ((seq, base, bs) :: regions)) as [|br brs] eqn:Et; cbn [g_writes g_seams] in *.
  - split; [constructor; [by rewrite Hr|done]|]. by rewrite <- app_assoc.
  - exfalso. rewrite He in Hs. cbn in Hs. assert (br.1.1 ∈@{gset Z} ∅) as []%not_elem_of_empty.
    apply Hs, elem_of_union_l, elem_of_union_l, elem_of_singleton. done.
Qed.

(** The region a reference of the view leaves in the merge. *)
Definition ref_region (objects : gmap Z bytes) (r : FencedRef) (region : Region) : Prop :=
  exists object bs, objects !! fenced_seq r = Some object /\ read_region (fenced_entry r) object = Ok bs /\
    region.1.1 = fenced_seq r /\
    (region.1.2, region.2) = (if is_clipped r then shed (served_from r) (Entry.base_offset (fenced_entry r)) bs
                              else (Entry.base_offset (fenced_entry r), bs)).

Lemma fenced_regions_spec view objects regions :
  fenced_regions view objects = Ok regions ->
  (forall region, region ∈ regions -> exists r, r ∈ view /\ ref_region objects r region) /\
  (forall r, r ∈ view -> is_Some (objects !! fenced_seq r) ->
     exists region, region ∈ regions /\ ref_region objects r region).
Proof.
  revert regions. induction view as [|r view IH]; intros regions H; cbn [fenced_regions] in H.
  { simplify_eq. split; by intros ? ?%not_elem_of_nil. }
  destruct (objects !! fenced_seq r) as [object|] eqn:Eo.
  - apply rbind_Ok in H as (bs & Hread & H).
    destruct (if is_clipped r then _ else _) as [base bs'] eqn:Eshed.
    apply rbind_Ok in H as (rest & Hrest & H). injection H as <-. destruct (IH _ Hrest) as [H1 H2].
    assert (Hr : ref_region objects r (fenced_seq r, base, bs')) by (exists object, bs; by rewrite Eshed).
    split.
    + intros region [->|Hin]%elem_of_cons; [exists r; split; [by left|done]|].
      destruct (H1 _ Hin) as (r' & ? & ?). exists r'. split; [by right|done].
    + intros r' [->|Hin]%elem_of_cons Hs; [eexists; split; [by left|done]|].
      destruct (H2 _ Hin Hs) as (region & ? & ?). exists region. split; [by right|done].
  - destruct (IH _ H) as [H1 H2]. split.
    + intros region Hin. destruct (H1 _ Hin) as (r' & ? & ?). exists r'. split; [by right|done].
    + intros r' [->|Hin]%elem_of_cons Hs; [rewrite Eo in Hs; by destruct Hs|by apply H2].
Qed.

(** It starts no later than what the reference serves, on a batch boundary, and
    ends where it ends. *)
Lemma ref_region_extent objects r region object f :
  ref_region objects r region -> objects !! fenced_seq r = Some object -> intact object f ->
  fenced_entry r ∈ entries f -> Entry.base_offset (fenced_entry r) <= served_from r ->
  Forall dense region.2 /\ i64_MIN <= region.1.2 <= served_from r /\
  region.1.2 + total_records region.2 = fenced_end r.
Proof.
  intros (object' & bs & Ho' & Hread & _ & Hreg) Ho Hint He Hle. rewrite Ho in Ho'. injection Ho' as <-.
  unfold intact in Hint. rewrite Forall_forall in Hint.
  destruct (Hint _ He) as (Hmin & bs' & Hr' & _ & Hd & Hc). rewrite Hread in Hr'. injection Hr' as <-.
  unfold fenced_end, Entry.end_. rewrite Hc. destruct (is_clipped r).
  - pose proof (shed_spec (served_from r) (Entry.base_offset (fenced_entry r)) bs) as Hs.
    rewrite <- Hreg in Hs. destruct Hs as [(dropped & Hbs & Hbase) Hfrom].
    rewrite Hbs in Hd |- *. apply Forall_app in Hd as [Hd1 Hd2]. pose proof (dense_total _ Hd1).
    rewrite total_records_app. split; [done|]. split; [|lia]. split; [lia|by apply Hfrom].
  - injection Hreg as -> ->. split; [done|]. split; [lia|done].
Qed.

(** ** What the merge keeps *)

Definition slice_key (s : Slice) : SubstreamKey := (s.1.1, s.2).

Lemma slice_write_log s regions :
  tiling_breaks regions = [] -> flat_map piece_log (slice_write s regions) = flat_map region_log regions.
Proof.
  destruct regions as [|[[seq base] bs] regions]; [done|]. intros Ht. cbn [slice_write flat_map].
  rewrite app_nil_r. unfold piece_log. cbn [SWrite.base_offset SWrite.batches].
  by apply (tiling_located regions seq base bs).
Qed.

Lemma slice_write_key s regions key :
  List.filter (fun w => bool_decide (write_key w = key)) (slice_write s regions) =
  if bool_decide (slice_key s = key) then slice_write s regions else [].
Proof.
  destruct regions as [|[[seq base] bs] regions]; cbn [slice_write List.filter]; [by case_bool_decide|].
  unfold write_key, slice_key. cbn [SWrite.substream SWrite.partition]. by case_bool_decide.
Qed.

Lemma slices_without_key (served : Slice -> list Region) slices key :
  Forall (fun s => slice_key s <> key) slices ->
  List.filter (fun w => bool_decide (write_key w = key)) (flat_map (fun s => slice_write s (served s)) slices) = [].
Proof.
  induction 1 as [|s slices Hs _ IH]; cbn [flat_map]; [done|].
  by rewrite List.filter_app, IH, slice_write_key, bool_decide_eq_false_2.
Qed.

Lemma slice_writes_log (served : Slice -> list Region) slices key regions :
  NoDup slices ->
  (forall s s', s ∈ slices -> s' ∈ slices -> slice_key s = slice_key s' -> s = s') ->
  Forall (fun s => tiling_breaks (served s) = []) slices ->
  (forall s, s ∈ slices -> slice_key s = key -> served s = regions) ->
  (Forall (fun s => slice_key s <> key) slices -> regions = []) ->
  flat_map piece_log (List.filter (fun w => bool_decide (write_key w = key))
    (flat_map (fun s => slice_write s (served s)) slices)) = flat_map region_log regions.
Proof.
  intros Hnd Huniq Ht Hs Hnone. destruct (decide (Exists (fun s => slice_key s = key) slices)) as [Hex|Hno].
  - apply Exists_exists in Hex as (s & Hin & Hk). rewrite <- (Hs s Hin Hk).
    apply list_elem_of_split in Hin as (l1 & l2 & ->).
    rewrite Forall_app, Forall_cons in Ht. destruct Ht as (_ & Hts & _).
    apply NoDup_app in Hnd as (_ & H1 & [H2 _]%NoDup_cons).
    assert (Hother : forall x, x ∈ l1 ++ l2 -> slice_key x <> key).
    { intros x Hx Hkx. assert (x = s) as ->.
      { apply Huniq; [|apply elem_of_app; right; by left|congruence].
        apply elem_of_app. apply elem_of_app in Hx as [|]; [by left|right; by right]. }
      apply elem_of_app in Hx as [Hx|Hx]; [|done]. apply (H1 _ Hx). by left. }
    rewrite flat_map_app. cbn [flat_map]. rewrite !List.filter_app.
    rewrite !slices_without_key, slice_write_key, bool_decide_eq_true_2, app_nil_r by
      (try done; apply Forall_forall; intros x Hx; apply Hother, elem_of_app; by (left + right)).
    by apply slice_write_log.
  - rewrite <- Forall_Exists_neg in Hno. by rewrite slices_without_key, (Hnone Hno).
Qed.

(** What the merge relies on: a consistent index, whose entries hold records;
    bodies that are what their footers say; and one name per sub-stream. *)
Record sound_run (cp : Compactor) (run : list Z) : Prop := {
  sr_index : index_ok (px_index (cp_prefix cp));
  sr_counted : counted (px_index (cp_prefix cp));
  sr_intact seq c body : seq ∈ run -> Index.segments (px_index (cp_prefix cp)) !! seq = Some c ->
    cp_bodies cp !! seq = Some body -> intact body (footer c);
  sr_names seq seq' c c' e e' : seq ∈ run -> seq' ∈ run ->
    Index.segments (px_index (cp_prefix cp)) !! seq = Some c ->
    Index.segments (px_index (cp_prefix cp)) !! seq' = Some c' ->
    e ∈ entries (footer c) -> e' ∈ entries (footer c') -> entry_key e = entry_key e' ->
    Entry.topic e = Entry.topic e';
}.

Lemma elem_run_slices ix run s :
  s ∈ run_slices (run_footers ix run) <->
  exists seq c e, seq ∈ run /\ Index.segments ix !! seq = Some c /\ e ∈ entries (footer c) /\ s = entry_slice e.
Proof.
  unfold run_slices, run_footers. rewrite elem_of_set_list, elem_of_list_to_set, list_elem_of_In, in_flat_map.
  setoid_rewrite <- list_elem_of_In. split.
  - intros ([seq f] & Hf & (e & -> & He)%list_elem_of_fmap).
    apply list_elem_of_omap in Hf as (seq' & Hin & Hf). apply fmap_Some in Hf as (c & Hc & [= -> ->]). eauto 10.
  - intros (seq & c & e & Hin & Hc & He & ->). exists (seq, footer c). split.
    + apply list_elem_of_omap. exists seq. by rewrite Hc.
    + apply list_elem_of_fmap. eauto.
Qed.

Section merge.
Context (cp : Compactor) (run : list Z) (objects : gmap Z bytes).
Let ix := px_index (cp_prefix cp).
Let slices := run_slices (run_footers ix run).

Context (Hsound : sound_run cp run).
Context (Hin : forall seq, seq ∈ run -> objects !! seq = cp_bodies cp !! seq /\ is_Some (cp_bodies cp !! seq)).
Context (Hout : forall seq, seq ∉ run -> objects !! seq = None).

Lemma run_slice_unique s s' : s ∈ slices -> s' ∈ slices -> slice_key s = slice_key s' -> s = s'.
Proof.
  intros (seq & c & e & Hs & Hc & He & ->)%elem_run_slices (seq' & c' & e' & Hs' & Hc' & He' & ->)%elem_run_slices Hk.
  pose proof (sr_names _ _ Hsound seq seq' c c' e e' Hs Hs' Hc Hc' He He' Hk) as Ht.
  unfold slice_key, entry_slice in *. cbn in Hk. injection Hk as H1 H2. congruence.
Qed.

(** What a reference into the run is read from. *)
Lemma view_in_run s p r :
  r ∈ valid_substream_segments ix s p -> is_Some (objects !! fenced_seq r) ->
  exists c body, fenced_seq r ∈ run /\ Index.segments ix !! fenced_seq r = Some c /\
    objects !! fenced_seq r = Some body /\ intact body (footer c) /\
    fenced_entry r ∈ entries (footer c) /\ entry_key (fenced_entry r) = (s, p) /\
    Entry.base_offset (fenced_entry r) <= served_from r.
Proof.
  intros Hr [body Hbody]. destruct Hsound as [Hok Hcount Hint _].
  destruct (view_segment ix s p r Hok Hcount Hr) as (c & Hc & He & Hk).
  destruct (view_exact ix s p (Hcount s p)) as (_ & _ & Hall). rewrite Forall_forall in Hall.
  destruct (Hall r Hr) as (_ & Hle & _).
  destruct (decide (fenced_seq r ∈ run)) as [Hrun|Hrun]; [|by rewrite (Hout _ Hrun) in Hbody].
  destruct (Hin _ Hrun) as [Heq _]. rewrite Hbody in Heq.
  exists c, body. split_and!; try done. by apply (Hint (fenced_seq r)).
Qed.

Lemma unread_view view :
  (forall r, r ∈ view -> objects !! fenced_seq r = None) -> fenced_regions view objects = Ok [].
Proof.
  induction view as [|r view IH]; intros H; cbn [fenced_regions]; [done|].
  rewrite (H r) by (by left). apply IH. intros r' Hr'. apply H. by right.
Qed.

Lemma no_slice_no_region s p :
  Forall (fun x => slice_key x <> (s, p)) slices -> decode_fenced_regions ix s p objects = Ok [].
Proof.
  intros Hno. apply unread_view. intros r Hr. destruct (objects !! fenced_seq r) eqn:Eo; [|done].
  destruct (view_in_run s p r Hr) as (c & body & Hrun & Hc & _ & _ & He & Hk & _); [by eauto|].
  rewrite Forall_forall in Hno. exfalso. apply (Hno (entry_slice (fenced_entry r))); [|done].
  apply elem_run_slices. eauto 10.
Qed.

Lemma regions_sound s p regions :
  decode_fenced_regions ix s p objects = Ok regions ->
  Forall (fun region => Forall dense region.2 /\ i64_MIN <= region.1.2) regions /\
  (forall r o, r ∈ valid_substream_segments ix s p -> fenced_seq r ∈ run -> in_served r o ->
     Exists (batch_at o) (flat_map region_log regions)).
Proof.
  intros Hdec. destruct (fenced_regions_spec _ _ _ Hdec) as [H1 H2]. split.
  - apply Forall_forall. intros region Hreg. destruct (H1 _ Hreg) as (r & Hr & Hof).
    assert (Hs : is_Some (objects !! fenced_seq r)) by (destruct Hof as (? & ? & ? & _); by eexists).
    destruct (view_in_run s p r Hr Hs) as (c & body & _ & _ & Hb & Hint & He & _ & Hle).
    destruct (ref_region_extent objects r region body (footer c) Hof Hb Hint He Hle) as (? & ? & _).
    split; [done|lia].
  - intros r o Hr Hrun Ho. assert (Hs : is_Some (objects !! fenced_seq r)).
    { destruct (Hin _ Hrun) as [-> ?]. done. }
    destruct (H2 r Hr Hs) as (region & Hreg & Hof). apply Exists_flat_map, Exists_exists. exists region.
    split; [done|]. destruct (view_in_run s p r Hr Hs) as (c & body & _ & _ & Hb & Hint & He & _ & Hle).
    destruct (ref_region_extent objects r region body (footer c) Hof Hb Hint He Hle) as (Hd & Hbase & Hend).
    unfold region_log. apply located_covers; [done|]. unfold in_served in Ho. lia.
Qed.

(** The writes gathered from a run that broke nowhere carry, per sub-stream,
    the batches its fenced view reads from the run. *)
Lemma gathered_log g :
  gather ix (run_footers ix run) objects slices (mkGathered [] i64_MIN ∅) = Ok g -> g_seams g = ∅ ->
  Forall sound_write (g_writes g) /\
  forall s p, exists regions, decode_fenced_regions ix s p objects = Ok regions /\
    flat_map piece_log (List.filter (fun w => bool_decide (write_key w = (s, p))) (g_writes g)) =
    flat_map region_log regions.
Proof.
  intros Hg He. destruct (gather_spec _ _ _ _ _ _ Hg He) as (served & Hserved & Hw). cbn [g_writes app] in Hw.
  rewrite Hw. split.
  - apply Forall_flat_map. eapply Forall_impl; [apply Forall_and; split; [exact Hserved|]|].
    { apply Forall_forall. intros s Hs. exact Hs. }
    intros s [[Hdec _] Hs]. destruct (regions_sound _ _ _ Hdec) as [Hreg _].
    apply elem_run_slices in Hs as (seq & c & e & _ & _ & _ & ->).
    destruct (served (entry_slice e)) as [|[[sq base] bs] regions]; cbn [slice_write]; [done|].
    apply Forall_singleton. split; [|split].
    + cbn [SWrite.batches]. apply Forall_flat_map. eapply Forall_impl; [exact Hreg|]. by intros ? [? _].
    + cbn. unfold Entry.substream, own_name. by destruct (Entry.topic_id e).
    + by apply Forall_cons in Hreg as [[_ ?] _].
  - intros s p. rewrite Forall_forall in Hserved.
    assert (exists regions, decode_fenced_regions ix s p objects = Ok regions) as [regions Hdec].
    { destruct (decide (Exists (fun x => slice_key x = (s, p)) slices)) as [Hex|Hno%Forall_Exists_neg];
        [|eexists; by apply no_slice_no_region].
      apply Exists_exists in Hex as (x & Hx & [= <- <-]). eexists. by apply Hserved. }
    exists regions. split; [done|]. apply slice_writes_log.
    + apply set_list_NoDup.
    + apply run_slice_unique.
    + apply Forall_forall. intros x Hx. by apply Hserved.
    + intros x Hx [= <- <-]. destruct (Hserved x Hx) as [Hd _]. congruence.
    + intros Hno%no_slice_no_region. congruence.
Qed.
End merge.

(** The create takes a name nothing holds, and only adds to the cache. *)
Definition create_fresh (env : CompactEnv) (px : Prefix) : Prop :=
  forall ix payload seq ix', ce_create env ix payload = (Ok seq, ix') -> index_ok ix -> counted ix ->
    seq ∉ px_objects px /\ Index.segments ix !! seq = None /\ index_ok ix' /\ counted ix' /\
    Index.segments ix ⊆ Index.segments ix'.

(** What the segment a pass wrote holds, none when it wrote none. *)
Definition merged_log (cp : Compactor) (new : option Z) (key : SubstreamKey) : list (Z * Deflated.Batch) :=
  match new with
  | None => []
  | Some seq =>
      match Index.segments (px_index (cp_prefix cp)) !! seq, cp_bodies cp !! seq with
      | Some c, Some body => segment_log body (entries (footer c)) key
      | _, _ => []
      end
  end.

Definition intact_at (cp : Compactor) (seq : Z) : Prop :=
  exists c body, Index.segments (px_index (cp_prefix cp)) !! seq = Some c /\
                 cp_bodies cp !! seq = Some body /\ intact body (footer c).

(** The copy the index keeps. *)
Definition resident_footer (f : SegmentFooter) : SegmentFooter :=
  mkFooter (writer_epoch f) (nonce f) (map resident (entries f)).

Lemma intact_resident body f : intact body f -> intact body (resident_footer f).
Proof. intros H. by apply Forall_fmap. Qed.

Lemma segment_log_resident body f key :
  segment_log body (entries (resident_footer f)) key = segment_log body (entries f) key.
Proof.
  unfold segment_log, resident_footer. cbn [entries]. induction (entries f) as [|e es IH]; [done|].
  cbn [map List.filter]. rewrite entry_key_resident. case_bool_decide; cbn [flat_map]; by rewrite IH.
Qed.

Lemma index_insert_segment ix now seq f modified :
  Index.segments (index_insert ix now seq f modified) =
  <[seq := mkCached (resident_footer f) modified]> (Index.segments ix).
Proof. cbn. unfold unindex_segment. by destruct (Index.segments ix !! seq). Qed.

Lemma counted_insert ix now seq f modified body :
  index_ok ix -> counted ix -> intact body f -> counted (index_insert ix now seq f modified).
Proof.
  intros Hok Hcount Hint s p. apply Forall_forall. intros [[seq' epoch] e] Hin.
  apply elem_substream_entries in Hin as (c & Hc & He & Hin & Hk); [|eapply index_step_ok, step_insert; done].
  rewrite index_insert_segment in Hc. cbn [snd]. apply lookup_insert_Some in Hc as [[<- <-]|[_ Hc]].
  - apply (intact_counts body (resident_footer f)); [by apply intact_resident|done].
  - pose proof (Hcount s p) as H. rewrite Forall_forall in H. apply (H (seq', epoch, e)).
    apply elem_substream_entries; eauto.
Qed.

(** A segment created from sound writes is intact, holds what was written where
    it was written, and hides nothing of the cache. *)
Lemma create_segment_spec env px cp writes epoch nonce modified cp' :
  create_segment env cp writes epoch nonce modified = (cp', Ok tt) -> Forall sound_write writes ->
  index_ok (px_index (cp_prefix cp)) -> counted (px_index (cp_prefix cp)) -> create_fresh env px ->
  exists seq,
    seq ∉ px_objects px /\ Index.segments (px_index (cp_prefix cp)) !! seq = None /\ intact_at cp' seq /\
    (forall key, merged_log cp' (Some seq) key =
       flat_map piece_log (List.filter (fun w => bool_decide (write_key w = key)) writes)) /\
    index_ok (px_index (cp_prefix cp')) /\ counted (px_index (cp_prefix cp')) /\
    Index.segments (px_index (cp_prefix cp)) ⊆ Index.segments (px_index (cp_prefix cp')) /\
    (forall x, x <> seq -> cp_bodies cp' !! x = cp_bodies cp !! x).
Proof.
  unfold create_segment. intros H Hw Hok Hcount Hfresh.
  destruct (encode_segment_indexed _ _ _ _) as [[payload f]| |] eqn:Eenc; [|done..].
  destruct (ce_create env _ payload) as [[seq| |] ix'] eqn:Ecreate; [|done..]. injection H as <-.
  destruct (Hfresh _ _ _ _ Ecreate Hok Hcount) as (Hlive & Hnew & Hok' & Hcount' & Hsub).
  pose proof (capped_regions_sound _ (region_bytes (ce_tuning env)) Hw) as Hcap.
  pose proof (encoded_intact _ _ _ _ _ _ Eenc Hcap) as Hint.
  exists seq. cbn [cp_prefix px_index]. split_and!; [done|done|..].
  - exists (mkCached (resident_footer f) modified), payload.
    cbn [cp_prefix px_index cp_bodies]. rewrite index_insert_segment, !lookup_insert_eq.
    split_and!; [done..|]. by apply intact_resident.
  - intros key. unfold merged_log. cbn [cp_prefix px_index cp_bodies].
    rewrite index_insert_segment, !lookup_insert_eq. cbn [footer].
    rewrite segment_log_resident, (encoded_log _ _ _ _ _ _ key Eenc); [apply capped_regions_log|].
    eapply Forall_impl; [exact Hcap|]. intros p (Hd & Hn & _). split; [by apply dense_ok|done].
  - by eapply index_step_ok, step_insert.
  - by eapply counted_insert.
  - apply map_subseteq_spec. intros x c Hx. rewrite index_insert_segment, lookup_insert_ne; [|congruence].
    by apply (proj1 (map_subseteq_spec _ _) Hsub).
  - intros x Hx. cbn. by rewrite lookup_insert_ne.
Qed.

Lemma write_merged_spec env cp g modified cp' :
  write_merged env cp g modified = (cp', Ok tt) -> Forall sound_write (g_writes g) ->
  index_ok (px_index (cp_prefix cp)) -> counted (px_index (cp_prefix cp)) -> create_fresh env (cp_prefix cp) ->
  exists new : option Z,
    (forall seq, new = Some seq -> seq ∉ px_objects (cp_prefix cp) /\ intact_at cp' seq) /\
    (forall key, merged_log cp' new key =
       flat_map piece_log (List.filter (fun w => bool_decide (write_key w = key)) (g_writes g))) /\
    index_ok (px_index (cp_prefix cp')) /\ counted (px_index (cp_prefix cp')) /\
    Index.segments (px_index (cp_prefix cp)) ⊆ Index.segments (px_index (cp_prefix cp')).
Proof.
  unfold write_merged. intros H Hw Hok Hcount Hfresh. destruct (g_writes g) as [|w ws] eqn:Ew.
  { injection H as <-. exists None. by split_and!. }
  destruct (create_segment_spec _ _ _ _ _ _ _ _ H Hw Hok Hcount Hfresh)
    as (seq & Hlive & _ & Hint & Hlog & Hok' & Hcount' & Hsub & _).
  exists (Some seq). split_and!; try done. by intros ? [= <-].
Qed.

Definition run_bodies (cp : Compactor) (run : list Z) : gmap Z bytes :=
  filter (fun kv => kv.1 ∈ run) (cp_bodies cp).

Lemma fetched_bodies env cp run objects :
  fetch_segment_objects env cp run ∅ [] = Ok (objects, []) -> objects = run_bodies cp run.
Proof.
  intros [H1 H2]%fetch_spec. apply map_eq. intros seq. unfold run_bodies.
  destruct (decide (seq ∈ run)) as [Hin|Hout].
  - destruct (H1 seq Hin) as (_ & -> & _). destruct (cp_bodies cp !! seq) as [b|] eqn:E; symmetry.
    + by apply map_lookup_filter_Some.
    + apply map_lookup_filter_None. by left.
  - rewrite (H2 seq Hout), lookup_empty. symmetry. apply map_lookup_filter_None. right. by intros b _.
Qed.

Lemma prune_segments ix seqs seq :
  Index.segments (index_prune ix seqs) !! seq = if decide (seq ∈ seqs) then None else Index.segments ix !! seq.
Proof.
  assert (Index.segments (index_prune ix seqs) =
          filter (fun kv => negb (bool_decide (kv.1 ∈ seqs)) = true) (Index.segments ix)) as ->.
  { unfold index_prune, retain_segments. by destruct (_ <? _)%nat. }
  destruct (Index.segments ix !! seq) as [c|] eqn:E.
  - destruct (decide (seq ∈ seqs)).
    + apply map_lookup_filter_None. right. intros c' _. cbn. by rewrite bool_decide_eq_true_2.
    + apply map_lookup_filter_Some. cbn. by rewrite bool_decide_eq_false_2.
  - rewrite (proj2 (map_lookup_filter_None _ _ _)) by (by left). by destruct (decide _).
Qed.

Lemma prune_counted ix seqs : index_ok ix -> counted ix -> counted (index_prune ix seqs).
Proof.
  intros Hok Hcount s p. apply Forall_forall. intros x [Hx _]%elem_prune; [|done].
  pose proof (Hcount s p) as H. rewrite Forall_forall in H. by apply H.
Qed.

Lemma served_if_held ix s p o seq c e :
  index_ok ix -> counted ix -> Index.segments ix !! seq = Some c -> e ∈ entries (footer c) ->
  entry_key e = (s, p) -> in_entry e o -> Exists (fun r => in_served r o) (valid_substream_segments ix s p).
Proof.
  intros Hok Hcount Hc He Hk Ho. apply (view_exact ix s p (Hcount s p)), Exists_exists.
  exists (seq, writer_epoch (footer c), e). split; [|done]. apply elem_substream_entries; eauto.
Qed.

(** A reference whose segment is still cached still serves. *)
Lemma still_served ix ix' s p r o :
  index_ok ix -> counted ix -> index_ok ix' -> counted ix' ->
  (forall c, Index.segments ix !! fenced_seq r = Some c -> Index.segments ix' !! fenced_seq r = Some c) ->
  r ∈ valid_substream_segments ix s p -> in_served r o ->
  Exists (fun r => in_served r o) (valid_substream_segments ix' s p).
Proof.
  intros Hok Hcount Hok' Hcount' Hkept Hr Ho. destruct (view_segment _ s p r Hok Hcount Hr) as (c & Hc & He & Hk).
  destruct (view_exact _ s p (Hcount s p)) as (_ & _ & Hall). rewrite Forall_forall in Hall.
  destruct (Hall r Hr) as (_ & Hle & _). apply (served_if_held _ s p o (fenced_seq r) c (fenced_entry r)); auto.
  unfold in_served, in_entry, fenced_end in *. lia.
Qed.

Lemma merged_log_retired cp px run new key :
  px_index px = index_prune (px_index (cp_prefix cp)) run -> (forall seq, new = Some seq -> seq ∉ run) ->
  merged_log (cp_set_prefix cp px) new key = merged_log cp new key.
Proof.
  intros Hix Hnew. destruct new as [seq|]; [|done]. cbn. rewrite Hix, prune_segments.
  rewrite decide_False; [done|]. by apply Hnew.
Qed.

(** A segment that holds a batch at an offset serves the offset. *)
Lemma merged_serves cp new s p o :
  index_ok (px_index (cp_prefix cp)) -> counted (px_index (cp_prefix cp)) ->
  (forall seq, new = Some seq -> intact_at cp seq) -> Exists (batch_at o) (merged_log cp new (s, p)) ->
  Exists (fun r => in_served r o) (valid_substream_segments (px_index (cp_prefix cp)) s p).
Proof.
  intros Hok Hcount Hint Ho. destruct new as [seq|]; [|by apply Exists_nil in Ho].
  destruct (Hint seq eq_refl) as (c & body & Hc & Hb & Hi). cbn in Ho. rewrite Hc, Hb in Ho.
  apply intact_covers in Ho; [|done]. apply Exists_exists in Ho as (e & He & Hk & Ho).
  by eapply served_if_held.
Qed.

(** Every offset served before is served after: from the merged segment when it
    was read from the run, from where it was otherwise. *)
Lemma serves_after cp cp' run objects new s p o
    (Hsound : sound_run cp run)
    (Hin : forall seq, seq ∈ run -> objects !! seq = cp_bodies cp !! seq /\ is_Some (cp_bodies cp !! seq))
    (Hout : forall seq, seq ∉ run -> objects !! seq = None)
    (Hok : index_ok (px_index (cp_prefix cp'))) (Hcount : counted (px_index (cp_prefix cp')))
    (Hkept : forall seq c, seq ∉ run -> Index.segments (px_index (cp_prefix cp)) !! seq = Some c ->
                           Index.segments (px_index (cp_prefix cp')) !! seq = Some c)
    (Hnew : forall seq, new = Some seq -> intact_at cp' seq)
    (Hlog : exists regions, decode_fenced_regions (px_index (cp_prefix cp)) s p objects = Ok regions /\
                            merged_log cp' new (s, p) = flat_map region_log regions) :
  Exists (fun r => in_served r o) (valid_substream_segments (px_index (cp_prefix cp)) s p) ->
  Exists (fun r => in_served r o) (valid_substream_segments (px_index (cp_prefix cp')) s p).
Proof.
  intros (r & Hr & Ho)%Exists_exists. destruct (decide (fenced_seq r ∈ run)) as [Hrun|Hrun].
  - destruct Hlog as (regions & Hdec & Heq). apply (merged_serves cp' new); [done..|]. rewrite Heq.
    destruct (regions_sound cp run objects Hsound Hin Hout s p regions Hdec) as [_ Hcov]. by apply (Hcov r).
  - apply (still_served (px_index (cp_prefix cp)) _ s p r o); try done; [apply Hsound..|]. intros c. by apply Hkept.
Qed.

(** The branches [merge_run] takes on its way to a merge. *)
Lemma merge_run_Merged env cp chosen cp' n :
  merge_run env cp chosen = (cp', Ok (Merged n)) ->
  let run := map seg_seq chosen in
  let ix := px_index (cp_prefix cp) in
  n = Z.of_nat (length run) /\
  exists objects cp1 g cp2 px k,
    fetch_segment_objects env cp run ∅ [] = Ok (objects, []) /\
    cp_prefix cp1 = cp_prefix cp /\ cp_bodies cp1 = cp_bodies cp /\
    gather ix (run_footers ix run) objects (run_slices (run_footers ix run)) (mkGathered [] i64_MIN ∅) = Ok g /\
    g_seams g = ∅ /\
    write_merged env cp1 g (default i64_MIN (max_key (map seg_modified chosen))) = (cp2, Ok tt) /\
    retire_segments (ce_store env) (cp_prefix cp2) run = (px, Ok k) /\ cp' = cp_set_prefix cp2 px.
Proof.
  unfold merge_run. cbn zeta.
  destruct (fetch_segment_objects _ _ _ _ _) as [[objects [|]]| |] eqn:Ef; [|by intros [=]..].
  destruct (divergence_slices _ _ _ _ _ _) as [cp1 r] eqn:Ed. apply divergence_keeps in Ed as [P B].
  destruct r as [[learned []]| |]; [by destruct learned; intros [=]| |by intros [=]..].
  rewrite P. destruct (gather _ _ _ _ _) as [g| |] eqn:Eg; [|by intros [=]..].
  destruct (bool_decide (g_seams g = ∅)) eqn:Es; cbn [negb];
    [|destruct (memo_compact_seams _ _) as [? []]; by intros [=]].
  apply bool_decide_eq_true in Es.
  destruct (write_merged _ _ _ _) as [cp2 [[]| |]] eqn:Ew; [|by intros [=]..].
  destruct (retire_segments _ _ _) as [px [k| |]] eqn:Er; [|by intros [=]..].
  intros [= <- <-]. split; [done|]. eauto 20.
Qed.

(** C7 A merge loses nothing.  When the pass answers that it merged a run, the
    segment it wrote holds for every sub-stream exactly the batches the
    epoch-fenced view was serving from the run, each at the offset it had, and
    is as readable as its inputs were; every offset a reader could read before
    is still served; and the run's segments are gone from the cache and the
    store. *)
Theorem compaction_keeps_records (env : CompactEnv) (cp cp' : Compactor) (chosen : list Seg) (n : Z)
    (Hsound : sound_run cp (map seg_seq chosen)) (Hfresh : create_fresh env (cp_prefix cp))
    (Hne : chosen <> []) (Hrun : merge_run env cp chosen = (cp', Ok (Merged n))) :
  let run := map seg_seq chosen in
  let ix := px_index (cp_prefix cp) in
  let ix' := px_index (cp_prefix cp') in
  exists new : option Z,
    (forall seq, new = Some seq -> seq ∉ run /\ intact_at cp' seq) /\
    (forall s p, exists regions, decode_fenced_regions ix s p (run_bodies cp run) = Ok regions /\
                                 merged_log cp' new (s, p) = flat_map region_log regions) /\
    (forall s p o, Exists (fun r => in_served r o) (valid_substream_segments ix s p) ->
                   Exists (fun r => in_served r o) (valid_substream_segments ix' s p)) /\
    (forall seq, seq ∈ run -> Index.segments ix' !! seq = None /\ seq ∉ px_objects (cp_prefix cp')).
Proof.
  cbn zeta. apply merge_run_Merged in Hrun
    as (_ & objects & cp1 & g & cp2 & px & k & Hfetch & P & B & Hg & Hs & Hw & Hr & ->).
  pose proof (fetched_bodies _ _ _ _ Hfetch) as Hobj.
  destruct (fetch_spec _ _ _ _ _ Hfetch) as [Hin Hout].
  assert (Hin' : forall seq, seq ∈ map seg_seq chosen ->
            objects !! seq = cp_bodies cp !! seq /\ is_Some (cp_bodies cp !! seq)) by (by intros ? []%Hin).
  destruct (gathered_log cp _ objects Hsound Hin' Hout g Hg Hs) as [Hsw Hlog].
  destruct (write_merged_spec _ _ _ _ _ Hw Hsw) as (new & Hnew & Hmlog & Hok2 & Hc2 & Hsub);
    [rewrite P; apply Hsound..|by rewrite P|]. rewrite P in Hnew, Hsub.
  pose proof (retire_segments_spec (ce_store env) (cp_prefix cp2) (map seg_seq chosen)) as Hret.
  rewrite Hr in Hret. destruct Hret as (_ & _ & _ & Hret).
  destruct (Hret k eq_refl) as (Hix & Hobjs & _ & _); [by destruct chosen|].
  assert (Hfree : forall seq, new = Some seq -> seq ∉ map seg_seq chosen).
  { intros seq Hseq Hrun. destruct (Hnew seq Hseq) as [Hlive _]. by destruct (Hin seq Hrun). }
  assert (Hix' : px_index (cp_prefix (cp_set_prefix cp2 px)) =
                 index_prune (px_index (cp_prefix cp2)) (map seg_seq chosen)) by exact Hix.
  assert (Hint : forall seq, new = Some seq -> intact_at (cp_set_prefix cp2 px) seq).
  { intros seq Hseq. destruct (Hnew seq Hseq) as [_ (c & body & Hc & Hb & Hint)]. exists c, body.
    rewrite Hix', prune_segments, decide_False by (by apply Hfree). done. }
  assert (Hlog' : forall s p, exists regions,
            decode_fenced_regions (px_index (cp_prefix cp)) s p objects = Ok regions /\
            merged_log (cp_set_prefix cp2 px) new (s, p) = flat_map region_log regions).
  { intros s p. destruct (Hlog s p) as (regions & Hdec & Heq). exists regions. split; [done|].
    by rewrite (merged_log_retired _ _ _ _ _ Hix Hfree), Hmlog. }
  exists new. split_and!.
  - intros seq Hseq. split; [by apply Hfree|by apply Hint].
  - by rewrite <- Hobj.
  - intros s p o. apply (serves_after cp _ (map seg_seq chosen) objects new); try done; rewrite Hix'.
    + by eapply index_step_ok, step_prune.
    + by apply prune_counted.
    + intros seq c Hrun Hc. rewrite prune_segments, decide_False by done.
      by apply (proj1 (map_subseteq_spec _ _) Hsub).
  - intros seq Hseq. rewrite Hix', prune_segments, decide_True by done. split; [done|].
    cbn [cp_set_prefix cp_prefix]. rewrite Hobjs, elem_of_difference, elem_of_list_to_set. tauto.
Qed.

(** ** Offset arithmetic, exactly *)

Definition in_span (o : Z) (s : Z * Z) : Prop := s.1 <= o < s.2.

Definition served_by (spans : list (Z * Z)) (o : Z) : Prop := Exists (in_span o) spans.

(** [o] is the highest offset of [lo, hi) that no span holds. *)
Definition highest_hole (spans : list (Z * Z)) (lo hi o : Z) : Prop :=
  lo <= o < hi /\ ~ served_by spans o /\ forall o', o < o' < hi -> served_by spans o'.

Lemma served_by_cons s spans o : served_by (s :: spans) o <-> in_span o s \/ served_by spans o.
Proof. apply Exists_cons. Qed.

Lemma unserved_below (spans : list (Z * Z)) from o :
  Forall (fun s => from <= s.1) spans -> o < from -> ~ served_by spans o.
Proof.
  intros H Ho (s & Hs & Hin)%Exists_exists. rewrite Forall_forall in H. specialize (H _ Hs).
  unfold in_span in Hin. lia.
Qed.

Lemma StronglySorted_weaken {A} (R S : A -> A -> Prop) l :
  (forall a b, R a b -> S a b) -> StronglySorted R l -> StronglySorted S l.
Proof.
  intros HRS. induction 1 as [|a l _ IH Ha]; constructor; [done|].
  eapply Forall_impl; [exact Ha|]. intros b. apply HRS.
Qed.

Lemma key_le_pair {A B} `{KeyOrder A, KeyOrder B} (a b : A * B) : key_le a b -> key_le a.1 b.1.
Proof.
  destruct a as [x x'], b as [y y']. unfold key_le. cbn. unfold pair_cmp. cbn. by destruct (key_cmp x y).
Qed.

Lemma key_le_fst {B} `{KeyOrder B} (a b : Z * B) : key_le a b -> a.1 <= b.1.
Proof. intros Hle%key_le_pair. unfold key_le in Hle. cbn in Hle. by destruct (Z.compare_spec a.1 b.1); [lia|lia|]. Qed.

Lemma unserved_loop_spec hi spans :
  StronglySorted (fun a b : Z * Z => a.1 <= b.1) spans ->
  forall cursor highest,
  let '(cursor', highest') := unserved_loop hi spans cursor highest in
  let answer := if cursor' <? hi then Some (hi - 1) else highest' in
  (exists top, answer = Some top /\ highest_hole spans cursor hi top) \/
  (answer = highest /\ forall o, cursor <= o < hi -> served_by spans o).
Proof.
  unfold highest_hole. induction 1 as [|[from to] spans _ IH Hfrom]; intros cursor highest; cbn [unserved_loop].
  { destruct (Z.ltb_spec cursor hi); [left|right; split; [done|lia]].
    exists (hi - 1). split_and!; [done|lia..|intros ?%Exists_nil; done|lia]. }
  destruct (Z.leb_spec hi cursor).
  { rewrite (proj2 (Z.ltb_ge _ _)) by done. right. split; [done|lia]. }
  specialize (IH (Z.max cursor to) (if cursor <? from then Some (Z.min from hi - 1) else highest)).
  destruct (unserved_loop hi spans _ _) as [c' h']. setoid_rewrite served_by_cons. unfold in_span. cbn [fst snd] in *.
  destruct IH as [(top & -> & Hr & Hun & Hall)|[-> Hall]].
  - left. exists top. split_and!; [done|lia..| |]; [intros [?|?]; [lia|done]|]. intros o Ho. right. by apply Hall.
  - destruct (Z.ltb_spec cursor from); [left|right].
    + exists (Z.min from hi - 1). split_and!; [done|lia..| |].
      * intros [?|Hs]; [lia|]. revert Hs. apply (unserved_below _ from); [done|lia].
      * intros o Ho. destruct (decide (o < to)); [left; lia|right; apply Hall; lia].
    + split; [done|]. intros o Ho. destruct (decide (o < to)); [left; lia|right; apply Hall; lia].
Qed.

(** The highest offset of [lo, hi) nothing serves, when there is one. *)
Lemma highest_unserved_exact lo hi spans :
  match highest_unserved lo hi spans with
  | Some o => highest_hole spans lo hi o
  | None => forall o, lo <= o < hi -> served_by spans o
  end.
Proof.
  unfold highest_unserved. set (sorted := merge_sort key_le spans).
  assert (Hperm : forall o, served_by sorted o <-> served_by spans o).
  { intros o. unfold served_by, sorted. by rewrite merge_sort_Permutation. }
  assert (Hsort : StronglySorted (fun a b : Z * Z => a.1 <= b.1) sorted).
  { eapply StronglySorted_weaken; [apply key_le_fst|apply (StronglySorted_merge_sort key_le)]. }
  pose proof (unserved_loop_spec hi sorted Hsort lo None) as H.
  destruct (unserved_loop hi sorted lo None) as [c h]. unfold highest_hole in *.
  setoid_rewrite Hperm in H. destruct H as [(top & -> & H)|[-> H]]; done.
Qed.

(** Ascending, non-empty and never touching. *)
Definition apart (spans : list (Z * Z)) : Prop :=
  StronglySorted (fun a b : Z * Z => a.2 < b.1) spans /\ Forall (fun s => s.1 < s.2) spans.

Lemma apart_cons s spans :
  apart (s :: spans) <-> s.1 < s.2 /\ Forall (fun t => s.2 < t.1) spans /\ apart spans.
Proof.
  unfold apart. rewrite Forall_cons. split.
  - intros [[]%StronglySorted_inv ?]. tauto.
  - intros (? & ? & ? & ?). split; [by constructor|done].
Qed.

Lemma absorb_spec spans : apart spans -> forall from to, from < to ->
  let '(kept, (f, t)) := absorb spans from to in
  apart kept /\ kept ⊆ spans /\ f <= from /\ to <= t /\ Forall (fun s => s.2 < f \/ t < s.1) kept /\
  (forall b, b < from -> Forall (fun s => b < s.1) spans -> b < f) /\
  (Forall (fun s => to < s.1) spans -> t = to) /\
  (forall o, served_by kept o \/ f <= o < t <-> served_by spans o \/ from <= o < to).
Proof.
  induction spans as [|[hf ht] spans IH]; intros Ha from to Hft; cbn [absorb].
  { split_and!; [done|done|lia..|by constructor|by intros|done|done]. }
  apply apart_cons in Ha as (Hne & Hgap & Ha). cbn [fst snd] in *.
  destruct ((hf <=? to) && (from <=? ht)) eqn:E; bool_prop.
  - specialize (IH Ha (Z.min from hf) (Z.max to ht)). destruct (absorb spans _ _) as [kept [f t]].
    destruct IH as (H1 & Hsub & H2 & H3 & H4 & H5 & _ & H6); [lia|].
    split_and!; [done|by intros x Hx; right; apply Hsub|lia..|done| | |].
    + intros b Hb [Hbf Hbs]%Forall_cons. cbn [fst] in Hbf. apply H5; [lia|done].
    + intros [Hto _]%Forall_cons. cbn [fst] in Hto. lia.
    + intros o. rewrite H6, served_by_cons. unfold in_span. cbn [fst snd].
      assert (Z.min from hf <= o < Z.max to ht <-> hf <= o < ht \/ from <= o < to) by lia. tauto.
  - specialize (IH Ha from to Hft). destruct (absorb spans from to) as [kept [f t]].
    destruct IH as (H1 & Hsub & H2 & H3 & H4 & H5 & H5' & H6).
    assert (Hside : ht < from \/ to < hf) by (destruct (Z.leb_spec hf to), (Z.leb_spec from ht); try lia; done).
    assert (Hkept : Forall (fun s => ht < s.1) kept).
    { rewrite Forall_forall in Hgap |- *. intros x Hx. by apply Hgap, Hsub. }
    assert (Hclear : ht < f \/ t < hf).
    { destruct Hside; [left; by apply H5|right]. rewrite H5'; [done|].
      eapply Forall_impl; [exact Hgap|]. cbn. lia. }
    split_and!; [by apply apart_cons| |lia..|by constructor| | |].
    + intros x [->|Hx]%elem_of_cons; [by left|right; by apply Hsub].
    + intros b Hb [_ Hbs]%Forall_cons. by apply H5.
    + intros [_ Hto]%Forall_cons. by apply H5'.
    + intros o. rewrite !served_by_cons. specialize (H6 o). tauto.
Qed.

Lemma insert_span_spec spans x :
  apart spans -> x.1 < x.2 -> Forall (fun s => s.2 < x.1 \/ x.2 < s.1) spans ->
  apart (insert_span spans x) /\ (forall o, served_by (insert_span spans x) o <-> served_by (x :: spans) o) /\
  (forall b, b < x.1 -> Forall (fun s => b < s.1) spans -> Forall (fun s => b < s.1) (insert_span spans x)).
Proof.
  intros Ha Hx. induction spans as [|s spans IH]; intros Hside; cbn [insert_span].
  { split_and!; [|done|by constructor]. apply apart_cons. by split_and!. }
  apply Forall_cons in Hside as [Hs Hside]. pose proof Ha as Ha'. apply apart_cons in Ha' as (Hne & Hgap & Ht).
  destruct (Z.ltb_spec s.1 x.1).
  - destruct (IH Ht Hside) as (I1 & I2 & I3). split_and!.
    + apply apart_cons. split_and!; [done| |done]. apply I3; [lia|done].
    + intros o. rewrite served_by_cons, I2, !served_by_cons. tauto.
    + intros b Hb [? ?]%Forall_cons. constructor; [done|by apply I3].
  - split_and!; [|done|by constructor]. apply apart_cons. split_and!; [done| |done].
    constructor; [lia|]. eapply Forall_impl; [exact Hgap|]. cbn. lia.
Qed.

(** A sub-stream's intervals stay apart, and hold what they held and the new
    one. *)
Lemma union_spans_spec spans from to :
  apart spans -> from < to ->
  apart (union_spans spans from to) /\
  forall o, served_by (union_spans spans from to) o <-> served_by spans o \/ from <= o < to.
Proof.
  intros Ha Hft. unfold union_spans. pose proof (absorb_spec spans Ha from to Hft) as H.
  destruct (absorb spans from to) as [kept [f t]]. destruct H as (H1 & _ & H2 & H3 & H4 & _ & _ & H6).
  destruct (insert_span_spec kept (f, t)) as (I1 & I2 & _); [done|cbn; lia|done|]. split; [done|].
  intros o. rewrite I2, served_by_cons, <- H6. unfold in_span. cbn. tauto.
Qed.

Definition union_ok (u : RunUnion) : Prop := map_Forall (fun _ spans => apart spans /\ spans <> []) u.

(** The union is one interval per sub-stream exactly when no sub-stream has an
    offset missing between two it holds. *)
Lemma is_connected_exact u :
  union_ok u ->
  is_connected u = true <->
  forall key spans a b o, u !! key = Some spans -> served_by spans a -> served_by spans b -> a <= o <= b ->
                          served_by spans o.
Proof.
  intros Hok. unfold is_connected. rewrite forallb_forall. split.
  - intros H key spans a b o Hu Ha Hb Ho.
    assert (Hlen : (length spans <=? 1)%nat = true).
    { apply (H (key, spans)). by apply list_elem_of_In, elem_of_map_to_list. }
    apply Nat.leb_le in Hlen. destruct spans as [|s [|]]; cbn in Hlen; [by apply Exists_nil in Ha| |lia].
    unfold served_by in *. rewrite Exists_cons, Exists_nil in *. unfold in_span in *. lia.
  - intros H [key spans] Hin. apply list_elem_of_In, elem_of_map_to_list in Hin.
    destruct spans as [|s [|s' spans]]; [done..|exfalso].
    destruct (Hok key _ Hin) as [Ha _]. apply apart_cons in Ha as (H1 & H2 & Ha). apply Forall_cons in H2 as [H2 H3].
    pose proof Ha as Ha'. apply apart_cons in Ha' as (H4 & _ & _).
    assert (Hmid : served_by (s :: s' :: spans) s.2).
    { apply (H key _ (s.2 - 1) s'.1 s.2 Hin); [left; unfold in_span; lia|right; left; unfold in_span; lia|lia]. }
    apply served_by_cons in Hmid as [Hm|Hm]; [unfold in_span in Hm; lia|]. revert Hm.
    apply (unserved_below _ s'.1); [|done]. constructor; [done|]. apply apart_cons in Ha as (_ & Hg & _).
    eapply Forall_impl; [exact Hg|]. cbn. lia.
Qed.

Lemma union_insert_ok u key from to : union_ok u -> union_ok (union_insert u key from to).
Proof.
  intros H. unfold union_insert. destruct (Z.leb_spec to from); [done|].
  apply map_Forall_insert_2; [|done].
  assert (Ha : apart (default [] (u !! key))).
  { destruct (u !! key) as [l|] eqn:E; [by apply (H key l)|]. split; constructor. }
  destruct (union_spans_spec _ from to Ha) as [H1 H2]; [done|]. split; [done|]. intros Hnil.
  specialize (H2 from). rewrite Hnil in H2. assert (served_by [] from) as []%Exists_nil by (apply H2; right; lia).
Qed.

(** ** Divergence, exactly *)

Definition overlap (a b : BatchSpan) : Prop := bs_from a < bs_to b /\ bs_from b < bs_to a.

Lemma same_batch_spec a b :
  same_batch a b = true <-> bs_from a = bs_from b /\ bs_to a = bs_to b /\ bs_crc a = bs_crc b.
Proof. unfold same_batch. rewrite !andb_true_iff, !Z.eqb_eq. tauto. Qed.

(** [held] reaches furthest of the spans seen, and what overlaps it is a copy. *)
Definition reaches (seen : list BatchSpan) (held : BatchSpan) : Prop :=
  held ∈ seen /\
  forall x, x ∈ seen -> bs_to x <= bs_to held /\ (overlap x held -> same_batch x held = true).

Definition copies (spans : list BatchSpan) : Prop :=
  forall a b, a ∈ spans -> b ∈ spans -> overlap a b -> same_batch a b = true.

Lemma divergence_loop_spec spans :
  StronglySorted (fun a b => bs_from a <= bs_from b) spans -> Forall (fun s => bs_from s < bs_to s) spans ->
  forall seen held, reaches seen held -> copies seen -> bs_from held < bs_to held ->
    Forall (fun x => Forall (fun s => bs_from x <= bs_from s) spans) seen ->
  match divergence_loop spans (Some held) with
  | None => copies (seen ++ spans)
  | Some (a, b) => a ∈ seen ++ spans /\ b ∈ seen ++ spans /\ overlap a b /\ same_batch b a = false
  end.
Proof.
  induction 1 as [|s spans _ IH Hs]; intros Hne seen held [Hheld Hr] Hcopies Hh Hbelow; cbn [divergence_loop].
  { by rewrite app_nil_r. }
  apply Forall_cons in Hne as [Hs' Hne]. rewrite cons_middle, app_assoc.
  assert (Hfrom : forall x, x ∈ seen -> bs_from x <= bs_from s).
  { intros x Hx. rewrite Forall_forall in Hbelow. by apply Hbelow in Hx as [? _]%Forall_cons. }
  assert (Hbelow' : Forall (fun x => Forall (fun s => bs_from x <= bs_from s) spans) (seen ++ [s])).
  { apply Forall_app. split; [|by constructor]. eapply Forall_impl; [exact Hbelow|]. by intros x [_ ?]%Forall_cons. }
  destruct (Z.ltb_spec (bs_from s) (bs_to held)) as [Hlt|Hge].
  - destruct (same_batch s held) eqn:Esame.
    + apply same_batch_spec in Esame as (Ef & Et & Ec).
      apply IH; try done.
      * split; [apply elem_of_app; by left|]. intros x [Hx|Hx%list_elem_of_singleton]%elem_of_app; [by apply Hr|].
        subst x. split; [lia|]. intros _. by apply same_batch_spec.
      * intros a b Ha Hb. rewrite elem_of_app, list_elem_of_singleton in Ha, Hb.
        rewrite same_batch_spec. unfold overlap. intros Ho.
        assert (Hcopy : forall x, x ∈ seen -> bs_from x < bs_to s /\ bs_from s < bs_to x ->
                  bs_from x = bs_from s /\ bs_to x = bs_to s /\ bs_crc x = bs_crc s).
        { intros x Hx Hox. destruct (Hr x Hx) as [_ H]. rewrite same_batch_spec in H.
          destruct H as (? & ? & ?); [unfold overlap; lia|]. lia. }
        destruct Ha as [Ha| ->], Hb as [Hb| ->].
        -- apply same_batch_spec. by apply Hcopies.
        -- by apply Hcopy.
        -- destruct (Hcopy b Hb) as (-> & -> & ->); [lia|done].
        -- done.
    + rewrite <- app_assoc. split_and!; [apply elem_of_app; by left| |split; [|done]|done].
      * apply elem_of_app; right; by left.
      * specialize (Hfrom held Hheld). lia.
  - rewrite (proj2 (Z.ltb_lt _ _)) by lia. apply IH; try done.
    + split; [apply elem_of_app; right; by left|].
      intros x [Hx|Hx%list_elem_of_singleton]%elem_of_app; [|subst x; split; [lia|]; intros _; by apply same_batch_spec].
      destruct (Hr x Hx). split; [lia|]. unfold overlap. lia.
    + intros a b Ha Hb. rewrite elem_of_app, list_elem_of_singleton in Ha, Hb.
      destruct Ha as [Ha| ->], Hb as [Hb| ->]; unfold overlap; intros Ho.
      * by apply Hcopies.
      * destruct (Hr a Ha). lia.
      * destruct (Hr b Hb). lia.
      * by apply same_batch_spec.
Qed.

(** Refused exactly when two batches overlap without being copies, and the two
    own_name are such. *)
Lemma first_divergence_exact spans :
  Forall (fun s => bs_from s < bs_to s) spans ->
  match first_divergence spans with
  | None => copies spans
  | Some (a, b) => a ∈ spans /\ b ∈ spans /\ overlap a b /\ same_batch b a = false
  end.
Proof.
  intros Hne. unfold first_divergence. pose proof (merge_sort_Permutation span_le spans) as Hp.
  assert (Hsort : StronglySorted (fun a b => bs_from a <= bs_from b) (merge_sort span_le spans)).
  { eapply StronglySorted_weaken; [|apply (StronglySorted_merge_sort span_le)].
    intros a b H. by apply key_le_pair, key_le_fst in H. }
  assert (Hin : forall x, x ∈ spans <-> x ∈ merge_sort span_le spans) by (intros; by rewrite Hp).
  rewrite <- Hp in Hne. revert Hsort Hne Hin. clear Hp.
  generalize (merge_sort span_le spans) as l. intros l Hsort Hne Hin.
  assert (H : match divergence_loop l None with
              | None => copies l
              | Some (a, b) => a ∈ l /\ b ∈ l /\ overlap a b /\ same_batch b a = false
              end).
  { destruct l as [|s l]; cbn [divergence_loop]; [by intros a b ?%not_elem_of_nil|].
    apply StronglySorted_inv in Hsort as [Hsort Hs]. apply Forall_cons in Hne as [Hs' Hne].
    apply (divergence_loop_spec l Hsort Hne [s] s); try done; [| |by constructor].
    - split; [by left|]. intros x ->%list_elem_of_singleton. split; [done|]. intros _. by apply same_batch_spec.
    - intros a b ->%list_elem_of_singleton ->%list_elem_of_singleton _. by apply same_batch_spec. }
  destruct (divergence_loop l None) as [[a b]|]; [by rewrite !Hin|].
  intros a b. rewrite !Hin. apply H.
Qed.

(** ** Selection *)

Definition bytes_of (segs : list Seg) : Z := foldr Z.add 0 (map seg_bytes segs).

(** A segment a run may hold. *)
Definition mergeable (t : Tuning) (cp : Compactor) (s : Seg) : Prop :=
  seg_bytes s < target_bytes t /\ seg_seq s ∉ cp_quarantined cp.

Definition no_seam (cp : Compactor) (segs : list Seg) : Prop := Forall (fun s => seg_seq s ∉ cp_seams cp) segs.

Lemma grow_spec t cp first bytes_ cov segs :
  let n := grow t cp first bytes_ cov segs in
  let run := take n segs in
  (n <= length segs)%nat /\ Forall (mergeable t cp) run /\
  no_seam cp (if first then tail run else run) /\
  (bytes_ <= target_bytes t -> (first = true -> bytes_ = 0) -> bytes_ + bytes_of run <= target_bytes t).
Proof.
  revert first bytes_ cov. induction segs as [|s segs IH]; intros first bytes_ cov; cbn [grow].
  { cbn. split_and!; [lia|constructor|destruct first; constructor|lia]. }
  assert (Hnil : (0 <= length (s :: segs))%nat /\ Forall (mergeable t cp) (take 0 (s :: segs)) /\
            no_seam cp (if first then tail (take 0 (s :: segs)) else take 0 (s :: segs)) /\
            (bytes_ <= target_bytes t -> (first = true -> bytes_ = 0) ->
             bytes_ + bytes_of (take 0 (s :: segs)) <= target_bytes t)).
  { cbn. split_and!; [lia|constructor|destruct first; constructor|lia]. }
  destruct (_ && _ && _ && _) eqn:E; [|exact Hnil]. bool_prop.
  repeat match goal with H : _ || _ = true |- _ => apply orb_true_iff in H end.
  assert (Hs : mergeable t cp s) by done.
  assert (Hstep : forall cov, let n := S (grow t cp false (bytes_ + seg_bytes s) cov segs) in
            (n <= length (s :: segs))%nat /\ Forall (mergeable t cp) (take n (s :: segs)) /\
            no_seam cp (if first then tail (take n (s :: segs)) else take n (s :: segs)) /\
            (bytes_ <= target_bytes t -> (first = true -> bytes_ = 0) ->
             bytes_ + bytes_of (take n (s :: segs)) <= target_bytes t)).
  { intros cov'. destruct (IH false (bytes_ + seg_bytes s) cov') as (I1 & I2 & I3 & I4).
    cbn [take length tail]. split_and!; [lia|by constructor| |].
    - destruct first; [done|]. constructor; [|done].
      match goal with H : false = true \/ negb (bool_decide (_ ∈ cp_seams cp)) = true |- _ =>
        destruct H as [|H]; [done|]; by apply negb_true_iff, bool_decide_eq_false in H end.
    - intros Hb Hf. unfold bytes_of in *. cbn [map foldr]. rewrite Z.add_assoc. apply I4; [|done].
      destruct Hs as [Hs _]. destruct first; [rewrite Hf by done; lia|].
      match goal with H : false = true \/ (_ <=? _) = true |- _ => destruct H as [|H]; [done|]; lia end. }
  destruct (coverage_entries cp (seg_seq s)) as [es|]; [|by apply Hstep].
  destruct (coverage_extend cov es); [by apply Hstep|exact Hnil].
Qed.

(** What a run holds, per sub-stream. *)
Definition union_of (ix : PrefixIndex) (run : list Z) : RunUnion := fold_left (add_entries ix) run ∅.

Lemma connected_len_spec ix done run connected :
  (connected = 0 \/ (connected <= length done)%nat /\ is_connected (union_of ix (take connected done)) = true)%nat ->
  let '(n, u) := connected_len ix run (length done) connected (union_of ix done) in
  u = union_of ix (done ++ run) /\
  (n = 0 \/ (n <= length (done ++ run))%nat /\ is_connected (union_of ix (take n (done ++ run))) = true)%nat.
Proof.
  revert done connected. induction run as [|seq run IH]; intros done connected Hc; cbn [connected_len].
  { by rewrite app_nil_r. }
  assert (Hu : add_entries ix (union_of ix done) seq = union_of ix (done ++ [seq])).
  { unfold union_of. by rewrite fold_left_app. }
  specialize (IH (done ++ [seq])). rewrite <- !app_assoc, length_app in IH. cbn [length app] in IH.
  rewrite Nat.add_1_r in IH. rewrite Hu. apply IH.
  destruct (is_connected (union_of ix (done ++ [seq]))) eqn:E.
  - right. split; [lia|]. rewrite take_ge; [done|]. rewrite length_app. cbn. lia.
  - destruct Hc as [->|[Hle Hc]]; [by left|right]. split; [lia|]. by rewrite take_app_le.
Qed.

(** Nothing outside the run fills a gap inside it. *)
Definition straddle_free (ix : PrefixIndex) (run : list Z) : Prop :=
  is_connected (union_of ix run) = true \/
  forall s p spans lo hi, union_of ix run !! (s, p) = Some spans -> (lo, hi) ∈ span_gaps spans ->
    exists o, highest_hole (outside_spans ix s p run) lo hi o.

Lemma straddle_free_len_spec ix run :
  let n := straddle_free_len ix run in
  (n <= length run)%nat /\ (n = 0%nat \/ straddle_free ix (take n run)).
Proof.
  cbn zeta. unfold straddle_free_len.
  pose proof (connected_len_spec ix [] run 0 (or_introl eq_refl)) as H. cbn [length app] in H.
  change (union_of ix []) with (∅ : RunUnion) in H.
  destruct (connected_len ix run 0 0 ∅) as [n u]. destruct H as [-> Hn].
  assert (Hconn : (n <= length run)%nat /\ (n = 0%nat \/ straddle_free ix (take n run))).
  { destruct Hn as [->|[? ?]]; (split; [lia|]); [by left|right; by left]. }
  destruct (Nat.eqb_spec n (length run)) as [Heq|]; [rewrite <- Heq; split; [lia|apply Hconn]|].
  destruct (existsb _ _) eqn:E; [done|]. split; [lia|]. right. rewrite take_ge by done. right.
  intros s p spans lo hi Hu Hgap. pose proof (highest_unserved_exact lo hi (outside_spans ix s p run)) as H.
  destruct (highest_unserved lo hi _) as [o|] eqn:Eh; [by exists o|exfalso].
  apply not_true_iff_false in E. apply E, existsb_exists. exists ((s, p), spans).
  split; [by apply list_elem_of_In, elem_of_map_to_list|]. apply existsb_exists. exists (lo, hi).
  split; [by apply list_elem_of_In|]. by apply bool_decide_eq_true.
Qed.

(** What selection promises of a run. *)
Definition good_run (t : Tuning) (cp : Compactor) (run : list Seg) : Prop :=
  (2 <= length run)%nat /\ Forall (mergeable t cp) run /\ no_seam cp (tail run) /\
  bytes_of run <= target_bytes t /\ straddle_free (px_index (cp_prefix cp)) (map seg_seq run).

Lemma no_seam_take cp n segs : no_seam cp (tail segs) -> no_seam cp (tail (take n segs)).
Proof. destruct n, segs; cbn; [by constructor..|done|]. apply Forall_take. Qed.

Lemma bytes_of_take n segs : Forall (fun s => 0 <= seg_bytes s) segs -> bytes_of (take n segs) <= bytes_of segs.
Proof.
  unfold bytes_of. intros H. revert n. induction H as [|s segs Hs H IH]; intros [|n]; cbn; [lia..| |].
  - clear IH. induction H as [|x l Hx _ IH]; cbn in *; lia.
  - specialize (IH n). lia.
Qed.

Lemma choose_spec fuel t cp segs :
  0 <= target_bytes t -> Forall (fun s => 0 <= seg_bytes s) segs ->
  choose fuel t cp segs = [] \/
  exists before after, segs = before ++ choose fuel t cp segs ++ after /\ good_run t cp (choose fuel t cp segs).
Proof.
  intros Ht. revert segs. induction fuel as [|fuel IH]; intros segs Hpos; [by left|].
  destruct segs as [|s rest]; [by left|]. cbn [choose].
  assert (Hskip : forall n, (1 <= n)%nat -> choose fuel t cp (drop n (s :: rest)) = [] \/
            exists before after, s :: rest = before ++ choose fuel t cp (drop n (s :: rest)) ++ after /\
              good_run t cp (choose fuel t cp (drop n (s :: rest)))).
  { intros n _. destruct (IH (drop n (s :: rest))) as [|(before & after & Heq & Hgood)]; [by apply Forall_drop|by left|].
    right. exists (take n (s :: rest) ++ before), after. rewrite <- app_assoc, <- Heq, take_drop. done. }
  destruct (_ || _); [apply (Hskip 1%nat); lia|].
  destruct (grow_spec t cp true 0 ∅ (s :: rest)) as (Hle & Hm & Hseam & Hb).
  set (n := grow t cp true 0 ∅ (s :: rest)) in *.
  destruct (Nat.leb_spec 2 n); [|apply Hskip; lia].
  destruct (straddle_free_len_spec (px_index (cp_prefix cp)) (map seg_seq (take n (s :: rest)))) as [Hk Hfree].
  set (k := straddle_free_len _ _) in *.
  destruct (Nat.ltb_spec k 2); [apply (Hskip 1%nat); lia|right].
  rewrite length_map, length_take in Hk.
  assert (Htake : take k (s :: rest) = take k (take n (s :: rest))) by (rewrite take_take; f_equal; lia).
  exists [], (drop k (s :: rest)). rewrite take_drop. split; [done|]. rewrite Htake. split_and!.
  - rewrite !length_take. lia.
  - by apply Forall_take.
  - by apply no_seam_take.
  - transitivity (bytes_of (take n (s :: rest))); [apply bytes_of_take; by apply Forall_take|lia].
  - destruct Hfree as [|Hfree]; [lia|]. by rewrite <- firstn_map.
Qed.

(** C20 A pass only takes a run it may merge.  The run selected is empty or a
    stretch of the prefix's segments in sequence order that leaves the newest
    [keep_hot] alone, has at least two segments, fits the target size, holds no
    quarantined or already full segment and no seam but at its start, and of
    each sub-stream either has one unbroken range of offsets or no gap that the
    segments outside the run fill. *)
Theorem select_run_sound (t : Tuning) (cp : Compactor)
    (Htarget : 0 <= target_bytes t)
    (Hpos : Forall (fun s => 0 <= seg_bytes s) (segs_of (px_index (cp_prefix cp)))) :
  let segs := segs_of (px_index (cp_prefix cp)) in
  let run := select_run t cp in
  run = [] \/
  ((min_segments t < length segs)%nat /\
   exists before after, segs = before ++ run ++ after /\ (keep_hot t <= length after)%nat /\
     good_run t cp run).
Proof.
  cbn zeta. unfold select_run. set (segs := segs_of _) in *.
  destruct (Nat.leb_spec (length segs) (min_segments t)); [by left|].
  destruct (Nat.ltb_spec (length (take (length segs - keep_hot t) segs)) 2) as [|Hlen]; [by left|].
  rewrite length_take in Hlen.
  destruct (choose_spec (length (take (length segs - keep_hot t) segs)) t cp
    (take (length segs - keep_hot t) segs)) as [|(before & after & Heq & Hgood)]; [done|by apply Forall_take|by left|].
  right. split; [done|]. set (run := choose _ _ _ _) in *.
  exists before, (after ++ drop (length segs - keep_hot t) segs). split_and!; [| |done].
  - rewrite !app_assoc, <- (app_assoc before), <- Heq, take_drop. done.
  - rewrite length_app, length_drop. lia.
Qed.

(** One turn per segment is enough: more change nothing. *)
Lemma choose_fuel fuel t cp segs :
  (length segs <= fuel)%nat -> choose (S fuel) t cp segs = choose fuel t cp segs.
Proof.
  revert segs. induction fuel as [|fuel IH]; intros segs Hf; [destruct segs; [done|cbn in Hf; lia]|].
  destruct segs as [|s rest]; [done|]. cbn [length] in Hf.
  assert (Hrest : choose (S fuel) t cp rest = choose fuel t cp rest) by (apply IH; lia).
  assert (Hdrop : forall n, choose (S fuel) t cp (drop (Nat.max n 1) (s :: rest)) =
                            choose fuel t cp (drop (Nat.max n 1) (s :: rest))).
  { intros n. apply IH. rewrite length_drop. cbn. lia. }
  change (choose (S (S fuel)) t cp (s :: rest)) with
    (if (target_bytes t <=? seg_bytes s) || bool_decide (seg_seq s ∈ cp_quarantined cp)
     then choose (S fuel) t cp rest
     else
       let n := grow t cp true 0 ∅ (s :: rest) in
       if (2 <=? n)%nat then
         let take_ := straddle_free_len (px_index (cp_prefix cp)) (map seg_seq (take n (s :: rest))) in
         if (take_ <? 2)%nat then choose (S fuel) t cp rest else take take_ (s :: rest)
       else choose (S fuel) t cp (drop (Nat.max n 1) (s :: rest))).
  cbn zeta. by rewrite Hrest, Hdrop.
Qed.

(** ** Two small segments *)

Module TwoSmall.

Definition topic : bytes := ascii_bytes "a".

Definition writes (base : Z) : list SubstreamWrite := [SWrite.mk topic 0 (Name topic) base [sample_batch]].

Definition encoded (base nonce : Z) : bytes * SegmentFooter :=
  match encode_segment_indexed (writes base) 1 nonce 3 with Ok x => x | _ => ([], mkFooter 0 0 []) end.

Definition index : PrefixIndex :=
  index_insert (index_insert Index.empty 0 1 (encoded 0 7).2 10) 1 2 (encoded (total_records [sample_batch]) 8).2 20.

Definition start : Compactor :=
  mkCompactor (mkPrefix index None ∅ 0 {[1; 2]})
    {[1 := (encoded 0 7).1; 2 := (encoded (total_records [sample_batch]) 8).1]} ∅ ∅.

Definition tuning : Tuning := mkTuning 1 0 1000 0 3.

(** The create takes the name after every one it knows. *)
Definition next_seq (ix : PrefixIndex) : Z := default 0 (max_key (sorted_keys (Index.segments ix))) + 1.

Definition env : CompactEnv :=
  mkCompactEnv TwoSegments.calm tuning (fun _ => None) (fun ix _ => (Ok (Z.max 3 (next_seq ix)), ix)) 9 2.

Lemma small_reachable : reachable index.
Proof. eapply rtc_l; [apply step_insert|]. eapply rtc_l; [apply step_insert|]. apply rtc_refl. Qed.

Lemma encoded_ok :
  encode_segment_indexed (writes 0) 1 7 3 = Ok (encoded 0 7) /\
  encode_segment_indexed (writes (total_records [sample_batch])) 1 8 3 = Ok (encoded (total_records [sample_batch]) 8).
Proof. split; vm_compute; reflexivity. Qed.

Lemma encoded_sound base nonce :
  encode_segment_indexed (writes base) 1 nonce 3 = Ok (encoded base nonce) -> i64_MIN <= base ->
  intact (encoded base nonce).1 (resident_footer (encoded base nonce).2).
Proof.
  intros He Hb. apply intact_resident. apply (encoded_intact (writes base) 1 nonce 3).
  - rewrite He. by destruct (encoded base nonce).
  - apply Forall_singleton. split_and!; [|done|done]. apply Forall_singleton. split; [by vm_compute|by vm_compute].
Qed.

Lemma entries_plain :
  map_Forall (fun _ c => Forall (fun e => (1 <= Entry.record_count e /\ i64_MIN <= Entry.base_offset e) /\
                Entry.topic e = topic) (entries (footer c))) (Index.segments index).
Proof. apply (bool_decide_unpack _). vm_compute. exact I. Qed.

Lemma start_sound : sound_run start [1; 2].
Proof.
  split.
  - apply reachable_ok, small_reachable.
  - intros s p. apply Forall_forall. intros [[seq epoch] e] Hin.
    apply elem_substream_entries in Hin as (c & Hc & _ & He & _); [|apply reachable_ok, small_reachable].
    pose proof (entries_plain _ _ Hc) as H. rewrite Forall_forall in H. by apply H.
  - intros seq c body _ Hc Hb. cbn [start cp_prefix px_index cp_bodies] in *. unfold index in Hc.
    rewrite !index_insert_segment in Hc.
    apply lookup_insert_Some in Hc as [[<- <-]|[_ Hc]]; [|apply lookup_insert_Some in Hc as [[<- <-]|[_ Hc]]; [|done]];
      cbn [footer].
    + assert (body = (encoded (total_records [sample_batch]) 8).1) as -> by (vm_compute in Hb |- *; congruence).
      apply encoded_sound; [apply encoded_ok|by vm_compute].
    + assert (body = (encoded 0 7).1) as -> by (vm_compute in Hb |- *; congruence).
      apply encoded_sound; [apply encoded_ok|by vm_compute].
  - intros seq seq' c c' e e' _ _ Hc Hc' He He' _.
    pose proof (entries_plain _ _ Hc) as H. pose proof (entries_plain _ _ Hc') as H'.
    rewrite Forall_forall in H, H'. destruct (H _ He) as [_ ->], (H' _ He') as [_ ->]. done.
Qed.

Lemma env_fresh px : (forall x, x ∈ px_objects px -> x < 3) -> create_fresh env px.
Proof.
  intros Hlow ix payload seq ix' [= <- <-] Hok Hcount. split_and!; try done.
  - intros Hx%Hlow. lia.
  - destruct (Index.segments ix !! _) as [c|] eqn:E; [|done]. exfalso.
    assert (Hin : Z.max 3 (next_seq ix) ∈ sorted_keys (Index.segments ix)) by (apply sorted_keys_spec; by exists c).
    unfold next_seq in Hin. destruct (max_key _) as [m|] eqn:Em.
    + apply max_key_spec in Em as [_ Hall]. rewrite Forall_forall in Hall. apply Hall in Hin. cbn in Hin. lia.
    + destruct (sorted_keys (Index.segments ix)); [by apply not_elem_of_nil in Hin|done].
Qed.

Lemma start_low x : x ∈ px_objects (cp_prefix start) -> x < 3.
Proof. cbn. rewrite elem_of_union, !elem_of_singleton. lia. Qed.

End TwoSmall.

Lemma compaction_keeps_records_witness :
  let chosen := select_run TwoSmall.tuning TwoSmall.start in
  let '(cp', r) := merge_run TwoSmall.env TwoSmall.start chosen in
  map seg_seq chosen = [1; 2] /\ r = Ok (Merged 2) /\ elements (px_objects (cp_prefix cp')) = [3] /\
  exists new, merged_log cp' new (Name TwoSmall.topic, 0) = [(0, sample_batch); (1, sample_batch)].
Proof.
  cbn zeta. assert (Hc : map seg_seq (select_run TwoSmall.tuning TwoSmall.start) = [1; 2]) by (by vm_compute).
  destruct (merge_run _ _ _) as [cp' r] eqn:E.
  assert (Hr : (merge_run TwoSmall.env TwoSmall.start (select_run TwoSmall.tuning TwoSmall.start)).2 = Ok (Merged 2) /\
    elements (px_objects (cp_prefix (merge_run TwoSmall.env TwoSmall.start (select_run TwoSmall.tuning TwoSmall.start)).1)) = [3])
    by (split; by vm_compute).
  rewrite E in Hr. destruct Hr as [Hr Ho]. cbn [fst snd] in Hr, Ho. subst r.
  split_and!; [done..|].
  assert (Hs : sound_run TwoSmall.start (map seg_seq (select_run TwoSmall.tuning TwoSmall.start)))
    by (rewrite Hc; exact TwoSmall.start_sound).
  assert (Hne : select_run TwoSmall.tuning TwoSmall.start <> []) by (intros Hn; rewrite Hn in Hc; discriminate Hc).
  destruct (compaction_keeps_records TwoSmall.env TwoSmall.start cp' _ 2 Hs
              (TwoSmall.env_fresh _ TwoSmall.start_low) Hne E)
    as (new & _ & Hlog & _). exists new. destruct (Hlog (Name TwoSmall.topic) 0) as (regions & Hd & ->).
  rewrite Hc in Hd. vm_compute in Hd. injection Hd as <-. by vm_compute.
Defined.

Lemma select_run_sound_witness :
  map seg_seq (select_run TwoSmall.tuning TwoSmall.start) = [1; 2] /\
  good_run TwoSmall.tuning TwoSmall.start (select_run TwoSmall.tuning TwoSmall.start).
Proof.
  assert (Hc : map seg_seq (select_run TwoSmall.tuning TwoSmall.start) = [1; 2]) by (by vm_compute).
  split; [done|].
  destruct (select_run_sound TwoSmall.tuning TwoSmall.start) as [Hnil|(_ & before & after & _ & _ & H)];
    [by vm_compute|apply (bool_decide_unpack _); vm_compute; exact I| |exact H].
  rewrite Hnil in Hc. discriminate Hc.
Defined.

(** [RunCoverage::extend] reads the coverage as it was before the segment, so
    of two regions of one sub-stream only the last is counted: after [0, 5) and
    [5, 10) in one segment the coverage is [5, 10).  A segment that holds
    [0, 5) again is then taken as unbroken, and one whose two regions continue
    the run is refused. *)
Theorem coverage_forgets_regions :
  let region base := Entry.mk TwoSmall.topic None 0 base 5 0 65 0 [] in
  let span (c : option RunCoverage) := c ≫= lookup (Name TwoSmall.topic, 0) in
  let two := coverage_extend ∅ [region 0; region 5] in
  let one := coverage_extend ∅ [region 0] in
  span two = Some (mkSpan 5 10 5) /\
  span (two ≫= fun c => coverage_extend c [region 0]) = Some (mkSpan 0 10 10) /\
  span one = Some (mkSpan 0 5 5) /\
  (one ≫= fun c => coverage_extend c [region 5; region 10]) = None.
Proof. split_and!; vm_compute; reflexivity. Qed.
