(* ===== verification/PerKey.v ===== *)
(** * PerKey: the per-key pass over a compacted topic's prefix

    [compact_prefix_per_key] of [tansu-storage/src/dynostore/compaction.rs], with
    [inflated::Batch::compact] of [tansu-sans-io] ([Batch]): every sub-stream of
    the prefix is read through the fenced view, walked newest batch first, and
    each record whose key reappears later is dropped; the segments that lost a
    record are rewritten under a new name and the old ones retired.

    The codecs are parameters, as in [Batch].  Metrics and log lines are left
    out, and so is the count of repaired frames, which only they use. *)

From S2P Require Export Compaction.

(** Markers and transactional data are carried whole. *)
Definition exempt (b : Deflated.Batch) : bool := Deflated.is_control b || Deflated.is_transactional b.

(** One region after the transform: [(region, removed, repaired)]. *)
Abbreviation Staged := (Region * Z * Z)%type.

Section codecs.
Context (crc32c : bytes -> Z) (inflate deflate : Compression -> bytes -> result bytes) (checks : bool).

(** The batches of one region, newest first; [out] is what was pushed so far,
    already reversed.  [None] when more than [cap] keys were seen. *)
Fixpoint transform_batches (cap : nat) (seen : gset bytes) (newest_first out : list Deflated.Batch)
    (removed repaired : Z) : result (option (gset bytes * (list Deflated.Batch * Z * Z))) :=
  match newest_first with
  | [] => Ok (Some (seen, (out, removed, repaired)))
  | b :: rest =>
      if exempt b then transform_batches cap seen rest (b :: out) removed repaired
      else
        let repair_frame := Deflated.has_dependent_lz4_blocks b in
        let! batch := Inflated.try_from_ref inflate checks b in
        let! (kept, records) := Inflated.compact crc32c batch seen in
        let seen := seen ∪ Inflated.keys kept in
        if (cap <? size seen)%nat then Ok None
        else if (0 <? records)%nat then
          let! d := Inflated.into_deflated crc32c deflate kept in
          transform_batches cap seen rest (d :: out) (removed + Z.of_nat records) repaired
        else if repair_frame then
          let! d := Inflated.into_deflated crc32c deflate kept in
          transform_batches cap seen rest (d :: out) removed (repaired + 1)
        else transform_batches cap seen rest (b :: out) removed repaired
  end.

(** The regions of one sub-stream, newest first. *)
Fixpoint transform_regions (cap : nat) (seen : gset bytes) (regions : list Region)
    : result (option (list Staged)) :=
  match regions with
  | [] => Ok (Some [])
  | (seq, base, region) :: regions =>
      let! walked := transform_batches cap seen (rev region) [] 0 0 in
      match walked with
      | None => Ok None
      | Some (seen, (out, removed, repaired)) =>
          let! rest := transform_regions cap seen regions in
          Ok ((fun staged => (seq, base, out, removed, repaired) :: staged) <$> rest)
      end
  end.

(** What the walk over the sub-streams gathers. *)
Record Outputs := mkOutputs {
  outputs : gmap Z (list SubstreamWrite);
  dirty : gset Z;
  removed_total : Z;
}.

Definition region_write (s : Slice) (r : Region) : SubstreamWrite := SWrite.mk s.1.2 s.2 s.1.1 r.1.2 r.2.

(** [outputs.entry(seq).or_default().push(..)] *)
Definition push (o : gmap Z (list SubstreamWrite)) (s : Slice) (r : Region) : gmap Z (list SubstreamWrite) :=
  <[r.1.1 := default [] (o !! r.1.1) ++ [region_write s r]]> o.

Definition stage (s : Slice) (g : Outputs) (x : Staged) : Outputs :=
  let '(r, removed, repaired) := x in
  let rewritten := (0 <? removed) || (0 <? repaired) in
  mkOutputs (push (outputs g) s r)
    (if rewritten then {[r.1.1]} ∪ dirty g else dirty g)
    (if rewritten then removed_total g + removed else removed_total g).

Definition transform_slice (ix : PrefixIndex) (objects : gmap Z bytes) (cap : nat) (g : Outputs) (s : Slice)
    : result Outputs :=
  let! decoded := decode_fenced_regions ix s.1.1 s.2 objects in
  let regions := rev decoded in
  let! staged := transform_regions cap ∅ regions in
  Ok (match staged with
      | None => fold_left (fun g r => mkOutputs (push (outputs g) s r) (dirty g) (removed_total g)) regions g
      | Some staged => fold_left (stage s) staged g
      end).

Fixpoint transform_slices (ix : PrefixIndex) (objects : gmap Z bytes) (cap : nat) (slices : list Slice)
    (g : Outputs) : result Outputs :=
  match slices with
  | [] => Ok g
  | s :: slices =>
      let! g := transform_slice ix objects cap g s in
      transform_slices ix objects cap slices g
  end.

(** The segments the pass reads: the cached ones that are not quarantined. *)
Definition readable (cp : Compactor) : list Z :=
  List.filter (fun seq => negb (bool_decide (seq ∈ cp_quarantined cp)))
    (sorted_keys (Index.segments (px_index (cp_prefix cp)))).

(** [segments_meta.get(seq).copied().unwrap_or((0, i64::MIN))] *)
Definition segment_meta (ix : PrefixIndex) (seq : Z) : Z * Z :=
  match Index.segments ix !! seq with
  | Some c => (writer_epoch (footer c), last_modified_ms c)
  | None => (0, i64_MIN)
  end.

(** Rewriting the dirty segments, in sequence order; [meta] is the snapshot the
    pass took. *)
Fixpoint rewrite_dirty (env : CompactEnv) (nonces : Z -> Z) (meta : Z -> Z * Z)
    (o : gmap Z (list SubstreamWrite)) (cp : Compactor) (dirty : list Z) : Compactor * result unit :=
  match dirty with
  | [] => (cp, Ok tt)
  | seq :: dirty =>
      match o !! seq with
      | None => rewrite_dirty env nonces meta o cp dirty
      | Some writes =>
          let '(epoch, modified) := meta seq in
          match create_segment env cp writes epoch (nonces seq) modified with
          | (cp, Ok _) => rewrite_dirty env nonces meta o cp dirty
          | (cp, Err e) => (cp, Err e)
          | (cp, Panic p) => (cp, Panic p)
          end
      end
  end.

(** After the lease: the read walk, the rewrites and the retirement. *)
Definition rewrite_prefix (env : CompactEnv) (nonces : Z -> Z) (cap : nat) (cp : Compactor)
    : Compactor * result Z :=
  let ix := px_index (cp_prefix cp) in
  let seqs := readable cp in
  match fetch_segment_objects env cp seqs ∅ [] with
  | Err e => (cp, Err e)
  | Panic p => (cp, Panic p)
  | Ok (_, (_ :: _) as vanished) => (cp_set_index cp (index_invalidate (index_prune ix vanished)), Ok 0)
  | Ok (objects, []) =>
      match transform_slices ix objects cap (run_slices (run_footers ix seqs)) (mkOutputs ∅ ∅ 0) with
      | Err e => (cp, Err e)
      | Panic p => (cp, Panic p)
      | Ok g =>
          if bool_decide (dirty g = ∅) then (cp, Ok 0)
          else
            match rewrite_dirty env nonces (segment_meta ix) (outputs g) cp (set_list (dirty g)) with
            | (cp, Err e) => (cp, Err e)
            | (cp, Panic p) => (cp, Panic p)
            | (cp, Ok _) =>
                match retire_segments (ce_store env) (cp_prefix cp) (set_list (dirty g)) with
                | (px, Ok _) => (cp_set_prefix cp px, Ok (removed_total g))
                | (px, Err e) => (cp_set_prefix cp px, Err e)
                | (px, Panic p) => (cp_set_prefix cp px, Panic p)
                end
            end
      end
  end.

Definition compact_prefix_per_key (env : CompactEnv) (nonces : Z -> Z) (cap : nat) (cp : Compactor)
    : Compactor * result Z :=
  let '(ix, refreshed) := env_refresh (ce_store env) (px_index (cp_prefix cp)) in
  let cp := cp_set_index cp ix in
  match refreshed with
  | Err e => (cp, Err e)
  | Panic p => (cp, Panic p)
  | Ok _ =>
      match readable cp with
      | [] => (cp, Ok 0)
      | _ => if negb (env_lease (ce_store env)) then (cp, Ok 0) else rewrite_prefix env nonces cap cp
      end
  end.

(** ** What survives *)

(** The keys a batch puts in the way of older ones. *)
Definition keys_of (b : Deflated.Batch) : gset bytes :=
  if exempt b then ∅
  else match Inflated.try_from_ref inflate checks b with Ok batch => Inflated.keys batch | _ => ∅ end.

(** What becomes of [b] when the keys [head] occur in newer batches. *)
Definition kept (head : gset bytes) (b b' : Deflated.Batch) : Prop :=
  if exempt b then b' = b
  else exists batch, Inflated.try_from_ref inflate checks b = Ok batch /\
    if decide (length (survivors head (Inflated.records batch)) = length (keyed (Inflated.records batch)))
    then b' = b \/ (Deflated.has_dependent_lz4_blocks b = true /\ Inflated.into_deflated crc32c deflate batch = Ok b')
    else exists cleaned, Inflated.into_deflated crc32c deflate cleaned = Ok b' /\
           Inflated.rebuild_all (survivors head (Inflated.records batch)) = Ok (Inflated.records cleaned) /\
           Inflated.last_offset_delta cleaned = Inflated.last_offset_delta batch.

(** Newest first. *)
Fixpoint kept_all (head : gset bytes) (bs bs' : list Deflated.Batch) : Prop :=
  match bs, bs' with
  | [], [] => True
  | b :: bs, b' :: bs' => kept head b b' /\ kept_all (head ∪ keys_of b) bs bs'
  | _, _ => False
  end.

(** Offset deltas tell the records of a batch apart. *)
Definition distinct (b : Deflated.Batch) : Prop :=
  forall batch, Inflated.try_from_ref inflate checks b = Ok batch ->
                NoDup (Record.offset_delta <$> Inflated.records batch).

Lemma elem_keys batch k : k ∈ Inflated.keys batch <-> has_key k (Inflated.records batch) = true.
Proof.
  unfold Inflated.keys. enough (H : forall acc : gset bytes, k ∈ fold_left (fun acc r => match Record.key r with
    | Some k => {[k]} ∪ acc | None => acc end) (Inflated.records batch) acc <->
    k ∈ acc \/ has_key k (Inflated.records batch) = true).
  { rewrite H. rewrite elem_of_empty. tauto. }
  induction (Inflated.records batch) as [|r rs IH]; intros acc; cbn [fold_left]; [cbn; intuition congruence|].
  rewrite IH, has_key_cons, orb_true_iff, bool_decide_eq_true.
  destruct (Record.key r) as [k'|]; [|intuition congruence].
  rewrite elem_of_union, elem_of_singleton. intuition congruence.
Qed.

Lemma has_key_survivors head rs k :
  k ∉ head -> has_key k (survivors head rs) = has_key k rs.
Proof.
  intros Hk. induction rs as [|r rs IH]; [done|]. cbn [survivors]. rewrite has_key_cons.
  destruct (Record.key r) as [k'|] eqn:E; [|by rewrite IH, bool_decide_eq_false_2 by done].
  destruct (decide (k' = k)) as [->|Hne].
  - rewrite (bool_decide_eq_true_2 (Some k = Some k)), (bool_decide_eq_false_2 (k ∈ head)) by done. cbn [orb].
    destruct (has_key k rs) eqn:Eh; [done|]. by rewrite has_key_cons, E, bool_decide_eq_true_2.
  - rewrite (bool_decide_eq_false_2 (Some k' = Some k)) by congruence. cbn [orb].
    destruct (_ || _); [done|]. by rewrite has_key_cons, E, bool_decide_eq_false_2 by congruence.
Qed.

Lemma has_key_rebuilt rs rs' k : Inflated.rebuild_all rs = Ok rs' -> has_key k rs' = has_key k rs.
Proof.
  revert rs'. induction rs as [|r rs IH]; intros rs' H; cbn in H; [by injection H as <-|].
  apply rbind_Ok in H as (r' & Hr & H). apply rbind_Ok in H as (rs'' & Hrs & [= <-]).
  apply rebuild_Ok in Hr as (sz & _ & _ & _ & ->). by rewrite !has_key_cons, (IH _ Hrs).
Qed.

Lemma compact_header batch head b' n :
  Inflated.compact crc32c batch head = Ok (b', n) ->
  exists c size rs, b' = Inflated.mk (Inflated.base_offset batch) size (Inflated.partition_leader_epoch batch)
    (Inflated.magic batch) c (Inflated.attributes batch) (Inflated.last_offset_delta batch)
    (Inflated.base_timestamp batch) (Inflated.max_timestamp batch) (Inflated.producer_id batch)
    (Inflated.producer_epoch batch) (Inflated.base_sequence batch) rs.
Proof.
  unfold Inflated.compact. destruct (Inflated.compact_scan _ _) as [last removed].
  destruct (0 <? removed)%nat; intros H; inv_ok.
  - unfold Inflated.build in E. inv_ok. case_match; [done|]. inv_ok. eauto.
  - exists (Inflated.crc batch), (Inflated.batch_length batch), (Inflated.records batch). by destruct batch.
Qed.

(** The keys seen are those of every newer batch, cleaned or not. *)
Lemma compact_keys batch head b' n :
  NoDup (Record.offset_delta <$> Inflated.records batch) ->
  Inflated.compact crc32c batch head = Ok (b', n) -> head ∪ Inflated.keys b' = head ∪ Inflated.keys batch.
Proof.
  intros Hnd H. destruct (compact_keeps_latest crc32c batch head b' n Hnd H) as (_ & Hzero & Hpos).
  destruct (decide (n = 0%nat)) as [Hn|Hn]; [by rewrite Hzero|]. apply set_eq. intros k.
  rewrite !elem_of_union, !elem_keys. destruct (decide (k ∈ head)) as [Hk|Hk]; [tauto|].
  rewrite (has_key_rebuilt _ _ k (Hpos ltac:(lia))), has_key_survivors by done. tauto.
Qed.

(** A re-encoded batch spans the offsets it did. *)
Definition same_span (b b' : Deflated.Batch) : Prop :=
  Deflated.last_offset_delta b' = Deflated.last_offset_delta b /\ (dense b -> dense b').

Lemma reencoded_span b batch head cleaned n d :
  Inflated.try_from_ref inflate checks b = Ok batch -> Inflated.compact crc32c batch head = Ok (cleaned, n) ->
  Inflated.into_deflated crc32c deflate cleaned = Ok d -> same_span b d.
Proof.
  intros Hb (c & size & rs & ->)%compact_header Hd.
  unfold Inflated.try_from_ref in Hb. apply rbind_Ok in Hb as (rs0 & _ & [= <-]).
  pose proof Hd as Hd'. apply into_deflated_Ok in Hd' as (_ & _ & _ & _ & Hown & _).
  unfold Inflated.into_deflated in Hd. destruct (negb _) eqn:En; [done|]. apply negb_false_iff in En.
  apply rbind_Ok in Hd as (comp & _ & Hd). apply rbind_Ok in Hd as (data & _ & Hd).
  unfold Deflated.into_batch in Hd. destruct (in_i32 _) eqn:Ei; [|done]. injection Hd as <-.
  cbn in *. split; [done|]. unfold dense, batch_ok. rewrite Hown, !andb_true_iff.
  unfold Deflated.typed, Deflated.is_record_batch_v2. cbn -[s_range u_range]. rewrite !andb_true_iff.
  rewrite Ei, En. intros [Hb Hz]. split; [|done]. destruct_and!. split_and!; try done. by apply wrap_u_range.
Qed.

(** The walk keeps every batch's span, and with nothing counted every batch. *)
Lemma transform_batches_span cap bs : forall seen out removed repaired seen' out' removed' repaired',
  transform_batches cap seen bs out removed repaired = Ok (Some (seen', (out', removed', repaired'))) ->
  exists news, out' = rev news ++ out /\ Forall2 same_span bs news /\ removed <= removed' /\ repaired <= repaired' /\
    (removed' = removed -> repaired' = repaired -> news = bs).
Proof.
  induction bs as [|b bs IH]; intros seen out removed repaired seen' out' removed' repaired' H;
    cbn [transform_batches] in H.
  { injection H as <- <- <- <-. exists []. by split_and!. }
  assert (Hgo : forall b' seen r q, same_span b b' -> removed <= r -> repaired <= q ->
            (r = removed -> q = repaired -> b' = b) ->
            transform_batches cap seen bs (b' :: out) r q = Ok (Some (seen', (out', removed', repaired'))) ->
            exists news, out' = rev news ++ out /\ Forall2 same_span (b :: bs) news /\
              removed <= removed' /\ repaired <= repaired' /\ (removed' = removed -> repaired' = repaired -> news = b :: bs)).
  { intros b' sn r q Hs Hr Hq Hsame Hrest. destruct (IH _ _ _ _ _ _ _ _ Hrest) as (news & -> & H1 & H2 & H3 & H4).
    exists (b' :: news). split; [cbn; by rewrite <- app_assoc|]. split; [by constructor|].
    split; [lia|]. split; [lia|]. intros ? ?. rewrite Hsame, H4 by lia. done. }
  assert (Hself : same_span b b) by done.
  destruct (exempt b); [by eapply (Hgo b)|].
  apply rbind_Ok in H as (batch & Hb & H). apply rbind_Ok in H as ([cleaned n] & Hc & H).
  destruct (cap <? _)%nat; [done|]. destruct (Nat.ltb_spec 0 n) as [Hn|Hn].
  - apply rbind_Ok in H as (d & Hd & H). refine (Hgo d _ _ _ _ _ _ _ H); [by eapply reencoded_span|lia..].
  - destruct (Deflated.has_dependent_lz4_blocks b); [|by eapply (Hgo b)].
    apply rbind_Ok in H as (d & Hd & H). refine (Hgo d _ _ _ _ _ _ _ H); [by eapply reencoded_span|lia..].
Qed.

Lemma kept_cleaned seen b batch cleaned n b' :
  exempt b = false -> Inflated.try_from_ref inflate checks b = Ok batch ->
  NoDup (Record.offset_delta <$> Inflated.records batch) -> Inflated.compact crc32c batch seen = Ok (cleaned, n) ->
  (if (0 <? n)%nat then Inflated.into_deflated crc32c deflate cleaned = Ok b'
   else if Deflated.has_dependent_lz4_blocks b then Inflated.into_deflated crc32c deflate cleaned = Ok b'
   else b' = b) ->
  kept seen b b'.
Proof.
  intros Ex Hb Hnd Hc H. destruct (compact_keeps_latest crc32c batch seen cleaned n Hnd Hc) as (Hcount & Hzero & Hpos).
  unfold kept. rewrite Ex. exists batch. split; [done|]. destruct (Nat.ltb_spec 0 n) as [Hn|Hn].
  - rewrite decide_False by lia. exists cleaned. split_and!; [done|by apply Hpos|].
    by destruct (compact_header _ _ _ _ Hc) as (? & ? & ? & ->).
  - rewrite decide_True by lia. rewrite (Hzero ltac:(lia)) in H.
    destruct (Deflated.has_dependent_lz4_blocks b); [by right|by left].
Qed.

(** What the walk of one region keeps, newest first. *)
Lemma transform_batches_kept cap bs : forall seen out removed repaired seen' out' removed' repaired',
  Forall distinct bs ->
  transform_batches cap seen bs out removed repaired = Ok (Some (seen', (out', removed', repaired'))) ->
  exists news, out' = rev news ++ out /\ kept_all seen bs news /\
    seen' = fold_left (fun seen b => seen ∪ keys_of b) bs seen.
Proof.
  induction bs as [|b bs IH]; intros seen out removed repaired seen' out' removed' repaired' Hd H;
    cbn [transform_batches] in H.
  { injection H as <- <- <- <-. exists []. by split_and!. }
  apply Forall_cons in Hd as [Hdb Hd]. cbn [fold_left].
  assert (Hgo : forall b' r q, kept seen b b' ->
            transform_batches cap (seen ∪ keys_of b) bs (b' :: out) r q = Ok (Some (seen', (out', removed', repaired'))) ->
            exists news, out' = rev news ++ out /\ kept_all seen (b :: bs) news /\
              seen' = fold_left (fun seen b => seen ∪ keys_of b) bs (seen ∪ keys_of b)).
  { intros b' r q Hk Hrest. destruct (IH _ _ _ _ _ _ _ _ Hd Hrest) as (news & -> & H1 & H2).
    exists (b' :: news). split; [cbn; by rewrite <- app_assoc|]. split; [by split|done]. }
  destruct (exempt b) eqn:Ex.
  { apply (Hgo b removed repaired); unfold kept, keys_of; rewrite Ex; [done|by rewrite union_empty_r_L]. }
  apply rbind_Ok in H as (batch & Hb & H). apply rbind_Ok in H as ([cleaned n] & Hc & H).
  pose proof (compact_keys _ _ _ _ (Hdb batch Hb) Hc) as Hkeys.
  assert (Hk : keys_of b = Inflated.keys batch) by (unfold keys_of; by rewrite Ex, Hb).
  rewrite Hkeys, <- Hk in H. destruct (cap <? _)%nat; [done|].
  pose proof (fun b' => kept_cleaned seen b batch cleaned n b' Ex Hb (Hdb batch Hb) Hc) as Hkept.
  destruct (0 <? n)%nat; [|destruct (Deflated.has_dependent_lz4_blocks b)].
  - apply rbind_Ok in H as (d & Hd' & H). by eapply Hgo; [apply Hkept|].
  - apply rbind_Ok in H as (d & Hd' & H). by eapply Hgo; [apply Hkept|].
  - by eapply Hgo; [apply Hkept|].
Qed.

Lemma kept_all_app head a b a' b' :
  kept_all head a a' -> kept_all (fold_left (fun seen b => seen ∪ keys_of b) a head) b b' ->
  kept_all head (a ++ b) (a' ++ b').
Proof.
  revert head a'. induction a as [|x a IH]; intros head [|x' a'] Ha Hb; try done.
  destruct Ha as [Hx Ha]. split; [done|]. by apply IH.
Qed.

Definition newest_first (regions : list Region) : list Deflated.Batch := flat_map (fun r => rev r.2) regions.

Definition staged_region (x : Staged) : Region := x.1.1.

(** A staged region stands where the region did and spans what it did; one that
    is not to be rewritten is the region. *)
Definition stages (r : Region) (x : Staged) : Prop :=
  (staged_region x).1 = r.1 /\ Forall2 same_span r.2 (staged_region x).2 /\
  ((0 <? x.1.2) || (0 <? x.2) = false -> staged_region x = r).

Lemma transform_regions_span cap regions : forall seen staged,
  transform_regions cap seen regions = Ok (Some staged) -> Forall2 stages regions staged.
Proof.
  induction regions as [|[[seq base] bs] regions IH]; intros seen staged H; cbn [transform_regions] in H.
  { by injection H as <-. }
  apply rbind_Ok in H as ([[seen' [[out removed] repaired]]|] & Hw & H); [|done].
  apply rbind_Ok in H as ([rest|] & Hrest & H); [|done]. injection H as <-.
  destruct (transform_batches_span cap (rev bs) _ _ _ _ _ _ _ _ Hw) as (news & -> & Hs & Hr & Hq & Hsame).
  rewrite app_nil_r. constructor; [|by eapply IH]. split; [done|]. cbn. split.
  - apply Forall2_reverse in Hs. unfold reverse in Hs. rewrite <- !rev_alt, rev_involutive in Hs. done.
  - rewrite orb_false_iff, !Z.ltb_ge. intros [? ?]. by rewrite Hsame, rev_involutive by lia.
Qed.

Lemma transform_regions_kept cap regions : forall seen staged,
  Forall (fun r => Forall distinct r.2) regions ->
  transform_regions cap seen regions = Ok (Some staged) ->
  kept_all seen (newest_first regions) (newest_first (map staged_region staged)).
Proof.
  induction regions as [|[[seq base] bs] regions IH]; intros seen staged Hd H; cbn [transform_regions] in H.
  { by injection H as <-. }
  apply Forall_cons in Hd as [Hdb Hd]. cbn [snd] in Hdb. apply rbind_Ok in H as ([[seen' [[out removed] repaired]]|] & Hw & H); [|done].
  apply rbind_Ok in H as ([rest|] & Hrest & H); [|done]. injection H as <-.
  destruct (transform_batches_kept cap (rev bs) _ _ _ _ _ _ _ _ ltac:(by apply Forall_rev) Hw) as (news & -> & Hk & ->).
  cbn. rewrite app_nil_r, rev_involutive. apply kept_all_app; [done|by apply IH].
Qed.

(** ** What is written back *)

Definition holds_write (o : gmap Z (list SubstreamWrite)) (seq : Z) (w : SubstreamWrite) : Prop :=
  exists ws, o !! seq = Some ws /\ w ∈ ws.

Lemma push_holds o s r seq w :
  holds_write (push o s r) seq w <-> holds_write o seq w \/ (seq = r.1.1 /\ w = region_write s r).
Proof.
  unfold holds_write, push. destruct (decide (seq = r.1.1)) as [->|Hne].
  - rewrite lookup_insert_eq. destruct (o !! r.1.1) as [ws|]; cbn [default]; split.
    + intros (? & [= <-] & [Hw|Hw%list_elem_of_singleton]%elem_of_app); [left; eauto|by right].
    + intros [(? & [= <-] & Hw)|[_ ->]]; eexists; (split; [done|]); apply elem_of_app; [by left|right; by left].
    + intros (? & [= <-] & Hw%list_elem_of_singleton). by right.
    + intros [(? & [=] & _)|[_ ->]]. eexists. split; [done|]. by left.
  - rewrite lookup_insert_ne by done. split; [by left|]. by intros [?|[? _]].
Qed.

Lemma pushed_holds s rs o seq w :
  holds_write (fold_left (fun o r => push o s r) rs o) seq w <->
  holds_write o seq w \/ exists r, r ∈ rs /\ seq = r.1.1 /\ w = region_write s r.
Proof.
  revert o. induction rs as [|r rs IH]; intros o; cbn [fold_left].
  { split; [by left|]. intros [?|(r & Hr & _)]; [done|by apply not_elem_of_nil in Hr]. }
  rewrite IH, push_holds. setoid_rewrite elem_of_cons. split.
  - intros [[?|[-> ->]]|(r' & Hr' & ?)]; [by left|right; exists r; auto|right; exists r'; auto].
  - intros [?|(r' & [->|Hr'] & ?)]; [by left; left|by left; right|right; eauto].
Qed.

Lemma staged_outputs s staged g :
  outputs (fold_left (stage s) staged g) = fold_left (fun o r => push o s r) (map staged_region staged) (outputs g).
Proof.
  revert g. induction staged as [|[[r removed] repaired] staged IH]; intros g; [done|]. cbn [fold_left map]. by rewrite IH.
Qed.

Lemma carried_outputs s regions g :
  outputs (fold_left (fun g r => mkOutputs (push (outputs g) s r) (dirty g) (removed_total g)) regions g) =
  fold_left (fun o r => push o s r) regions (outputs g).
Proof. revert g. induction regions as [|r regions IH]; intros g; [done|]. cbn [fold_left]. by rewrite IH. Qed.

(** What is to be rewritten has something to be rewritten with. *)
Definition dirty_held (g : Outputs) : Prop := forall seq, seq ∈ dirty g -> exists w, holds_write (outputs g) seq w.

Lemma stage_dirty s g x : dirty_held g -> dirty_held (stage s g x).
Proof.
  destruct x as [[r removed] repaired]. intros Hg seq. unfold stage. cbn [dirty outputs].
  setoid_rewrite push_holds. destruct (_ || _); [|intros Hs; destruct (Hg seq Hs) as [w Hw]; exists w; by left].
  intros [->%elem_of_singleton|Hs]%elem_of_union; [eexists; by right|destruct (Hg seq Hs) as [w Hw]; exists w; by left].
Qed.

Lemma carry_dirty s g r :
  dirty_held g -> dirty_held (mkOutputs (push (outputs g) s r) (dirty g) (removed_total g)).
Proof.
  intros Hg seq Hs. cbn in *. destruct (Hg seq Hs) as [w Hw]. exists w. apply push_holds. by left.
Qed.

Lemma fold_held {A} (f : Outputs -> A -> Outputs) l g :
  (forall g x, dirty_held g -> dirty_held (f g x)) -> dirty_held g -> dirty_held (fold_left f l g).
Proof. intros Hf. revert g. induction l as [|x l IH]; intros g Hg; cbn; auto. Qed.

Lemma transform_slices_held ix objects cap slices : forall g g',
  transform_slices ix objects cap slices g = Ok g' -> dirty_held g -> dirty_held g'.
Proof.
  induction slices as [|s slices IH]; intros g g' H Hg; cbn in H; [by injection H as <-|].
  apply rbind_Ok in H as (g1 & H1 & H). eapply IH; [exact H|]. unfold transform_slice in H1.
  apply rbind_Ok in H1 as (decoded & _ & H1). apply rbind_Ok in H1 as ([staged|] & _ & [= <-]);
    apply fold_held; auto using stage_dirty, carry_dirty.
Qed.

Definition spans_region (r r' : Region) : Prop := r'.1 = r.1 /\ Forall2 same_span r.2 r'.2.

(** Every sub-stream puts back a region for each it was read from, where it was
    and spanning what it did. *)
Lemma transform_slices_spec ix objects cap slices : forall g g',
  transform_slices ix objects cap slices g = Ok g' ->
  exists written : Slice -> list Region,
    (forall s, s ∈ slices -> exists decoded, decode_fenced_regions ix s.1.1 s.2 objects = Ok decoded /\
       Forall2 spans_region (rev decoded) (written s)) /\
    forall seq w, holds_write (outputs g') seq w <->
      holds_write (outputs g) seq w \/
      exists s r, s ∈ slices /\ r ∈ written s /\ seq = r.1.1 /\ w = region_write s r.
Proof.
  intros g g' H. exists (fun s => match decode_fenced_regions ix s.1.1 s.2 objects with
    | Ok decoded => match transform_regions cap ∅ (rev decoded) with
                    | Ok (Some staged) => map staged_region staged
                    | _ => rev decoded
                    end
    | _ => [] end).
  revert g H. induction slices as [|s slices IH]; intros g H; cbn [transform_slices] in H.
  { injection H as <-. split; [by intros ? ?%not_elem_of_nil|]. intros seq w. split; [by left|].
    intros [?|(? & ? & Hs & _)]; [done|by apply not_elem_of_nil in Hs]. }
  apply rbind_Ok in H as (g1 & H1 & H). destruct (IH _ H) as [IHs IHw]. clear IH.
  unfold transform_slice in H1. apply rbind_Ok in H1 as (decoded & Hdec & H1).
  apply rbind_Ok in H1 as (staged & Hst & [= <-]). split.
  - intros s' [->|Hs']%elem_of_cons; [|by apply IHs]. exists decoded. rewrite Hdec, Hst. split; [done|].
    destruct staged as [staged|].
    + apply transform_regions_span in Hst. apply Forall2_fmap_r. eapply Forall2_impl; [exact Hst|].
      intros r x (? & ? & _). by split.
    + apply Forall_Forall2_diag, Forall_true. intros r. split; [done|]. by apply Forall_Forall2_diag, Forall_true.
  - intros seq w. rewrite IHw.
    assert (Hout : forall rs, (holds_write (fold_left (fun o r => push o s r) rs (outputs g)) seq w) <->
              holds_write (outputs g) seq w \/ exists r, r ∈ rs /\ seq = r.1.1 /\ w = region_write s r)
      by (intros; apply pushed_holds).
    assert (Hg1 : holds_write (outputs match staged with
        | Some staged => fold_left (stage s) staged g
        | None => fold_left (fun g r => mkOutputs (push (outputs g) s r) (dirty g) (removed_total g)) (rev decoded) g
        end) seq w <-> holds_write (outputs g) seq w \/
        exists r, r ∈ (match staged with Some staged => map staged_region staged | None => rev decoded end) /\
                  seq = r.1.1 /\ w = region_write s r).
    { destruct staged; [rewrite staged_outputs|rewrite carried_outputs]; apply Hout. }
    rewrite Hg1. setoid_rewrite elem_of_cons. split.
    + intros [[?|(r & Hr & Heq)]|(s' & r & Hs' & Hr & Heq)]; [by left|right|right].
      * exists s, r. split; [by left|]. by rewrite Hdec, Hst.
      * exists s', r. split; [by right|]. done.
    + intros [?|(s' & r & [->|Hs'] & Hr & Heq)]; [by left; left|left; right|right].
      * exists r. by rewrite Hdec, Hst in Hr.
      * exists s', r. done.
Qed.

Lemma rewrite_dirty_spec env px nonces meta o dirty :
  create_fresh env px -> (forall seq ws, o !! seq = Some ws -> Forall sound_write ws) ->
  forall cp cp', rewrite_dirty env nonces meta o cp dirty = (cp', Ok tt) ->
  index_ok (px_index (cp_prefix cp)) -> counted (px_index (cp_prefix cp)) ->
  (index_ok (px_index (cp_prefix cp')) /\ counted (px_index (cp_prefix cp'))) /\
  Index.segments (px_index (cp_prefix cp)) ⊆ Index.segments (px_index (cp_prefix cp')) /\
  (forall x c, Index.segments (px_index (cp_prefix cp)) !! x = Some c -> cp_bodies cp' !! x = cp_bodies cp !! x) /\
  (forall seq ws, seq ∈ dirty -> o !! seq = Some ws ->
     exists new, new ∉ px_objects px /\ intact_at cp' new /\
       forall key, merged_log cp' (Some new) key =
         flat_map piece_log (List.filter (fun w => bool_decide (write_key w = key)) ws)).
Proof.
  intros Hfresh Hsound. induction dirty as [|seq dirty IH]; intros cp cp' H Hok Hcount; cbn [rewrite_dirty] in H.
  { injection H as <-. split_and!; try done. by intros ? ? ?%not_elem_of_nil. }
  destruct (o !! seq) as [ws|] eqn:Eo.
  - destruct (meta seq) as [epoch modified].
    destruct (create_segment env cp ws epoch (nonces seq) modified) as [cp1 [[]| |]] eqn:Ec; [|done..].
    destruct (create_segment_spec _ px _ _ _ _ _ _ Ec (Hsound _ _ Eo) Hok Hcount Hfresh)
      as (new & Hlive & Hnew & Hint & Hlog & Hok1 & Hc1 & Hsub1 & Hb1).
    destruct (IH _ _ H Hok1 Hc1) as (Hgood & Hsub & Hb & Hrest). split_and!; [by apply Hgood..| | |].
    + by transitivity (Index.segments (px_index (cp_prefix cp1))).
    + intros x c Hx. rewrite (Hb x c), Hb1; [done|congruence|]. by apply (proj1 (map_subseteq_spec _ _) Hsub1).
    + intros seq' ws' Hin Hws. apply elem_of_cons in Hin as [->|Hin]; [|by eapply Hrest].
      rewrite Eo in Hws. injection Hws as <-. exists new. split; [done|].
      destruct Hint as (c & body & Hcn & Hbn & Hi).
      assert (Hc' : Index.segments (px_index (cp_prefix cp')) !! new = Some c)
        by (by apply (proj1 (map_subseteq_spec _ _) Hsub)).
      assert (Hb' : cp_bodies cp' !! new = Some body) by (by rewrite (Hb new c Hcn)).
      split; [by exists c, body|]. intros key. rewrite <- Hlog. cbn. by rewrite Hcn, Hbn, Hc', Hb'.
  - destruct (IH _ _ H Hok Hcount) as (Hgood & Hsub & Hb & Hrest). split_and!; try done; [by apply Hgood..|].
    intros seq' ws' [->|Hin]%elem_of_cons Hws; [congruence|by eapply Hrest].
Qed.

Lemma same_span_located base bs bs' o :
  Forall2 same_span bs bs' -> Exists (batch_at o) (located base bs) -> Exists (batch_at o) (located base bs').
Proof.
  intros H. revert base. induction H as [|b b' bs bs' [Hd _] _ IH]; intros base; cbn; [done|].
  rewrite !Exists_cons, Hd. intros [?|?]; [left|right; by apply IH]. unfold batch_at in *. cbn in *. by rewrite Hd.
Qed.

Lemma spans_region_dense r r' : spans_region r r' -> Forall dense r.2 -> Forall dense r'.2.
Proof.
  intros [_ H] Hd. induction H as [|b b' bs bs' [_ Hb] _ IH]; [constructor|].
  apply Forall_cons in Hd as [? ?]. constructor; auto.
Qed.

Lemma filter_holds (ws : list SubstreamWrite) w key o :
  w ∈ ws -> write_key w = key -> Exists (batch_at o) (piece_log w) ->
  Exists (batch_at o) (flat_map piece_log (List.filter (fun w => bool_decide (write_key w = key)) ws)).
Proof.
  intros Hw Hk Ho. apply Exists_flat_map, Exists_exists. exists w. split; [|done].
  apply list_elem_of_In, filter_In. split; [by apply list_elem_of_In|]. by apply bool_decide_eq_true.
Qed.

Section pass.
Context (cp : Compactor) (seqs : list Z) (objects : gmap Z bytes) (cap : nat) (g : Outputs).
Let ix := px_index (cp_prefix cp).

Context (Hsound : sound_run cp seqs).
Context (Hin : forall seq, seq ∈ seqs -> objects !! seq = cp_bodies cp !! seq /\ is_Some (cp_bodies cp !! seq)).
Context (Hout : forall seq, seq ∉ seqs -> objects !! seq = None).
Context (Hg : transform_slices ix objects cap (run_slices (run_footers ix seqs)) (mkOutputs ∅ ∅ 0) = Ok g).

Lemma outputs_sound seq ws : outputs g !! seq = Some ws -> Forall sound_write ws.
Proof.
  intros Hws. apply Forall_forall. intros w Hw.
  destruct (transform_slices_spec _ _ _ _ _ _ Hg) as (written & Hwritten & Hholds).
  assert (Hh : holds_write (outputs g) seq w) by (by exists ws).
  apply Hholds in Hh as [(? & Hnone & _)|(s & r & Hs & Hr & -> & ->)]; [cbn in Hnone; by rewrite lookup_empty in Hnone|].
  destruct (Hwritten s Hs) as (decoded & Hdec & HF).
  destruct (regions_sound cp seqs objects Hsound Hin Hout _ _ _ Hdec) as [Hreg _].
  apply list_elem_of_lookup in Hr as [i Hi]. destruct (Forall2_lookup_r _ _ _ _ _ HF Hi) as (r0 & Hr0 & Hspan).
  rewrite Forall_forall in Hreg. destruct (Hreg r0) as [Hd Hbase].
  { apply list_elem_of_lookup_2 in Hr0. by apply list_elem_of_In, in_rev, list_elem_of_In. }
  apply elem_run_slices in Hs as (? & c & e & _ & _ & _ & ->). split_and!.
  - by eapply spans_region_dense.
  - cbn. unfold Entry.substream, own_name. by destruct (Entry.topic_id e).
  - cbn. by destruct Hspan as [-> _].
Qed.

(** An offset read from a segment of the prefix is in what is put back for that
    segment. *)
Lemma outputs_cover s p r o :
  r ∈ valid_substream_segments ix s p -> fenced_seq r ∈ seqs -> in_served r o ->
  exists ws w, outputs g !! fenced_seq r = Some ws /\ w ∈ ws /\ write_key w = (s, p) /\
               Exists (batch_at o) (piece_log w).
Proof.
  intros Hr Hseq Ho. destruct (Hin _ Hseq) as [Hobj Hbody].
  assert (Hs : is_Some (objects !! fenced_seq r)) by (by rewrite Hobj).
  destruct (view_in_run cp seqs objects Hsound Hin Hout s p r Hr Hs)
    as (c & body & _ & Hc & Hb & Hint & He & Hk & Hle).
  destruct (transform_slices_spec _ _ _ _ _ _ Hg) as (written & Hwritten & Hholds).
  set (sl := entry_slice (fenced_entry r)).
  assert (Hsl : sl ∈ run_slices (run_footers ix seqs)) by (apply elem_run_slices; eauto 10).
  assert (Hsk : sl.1.1 = s /\ sl.2 = p) by (unfold entry_key in Hk; by injection Hk as <- <-).
  destruct Hsk as [Hs1 Hs2].
  destruct (Hwritten sl Hsl) as (decoded & Hdec & HF). pose proof Hdec as Hdec'. rewrite Hs1, Hs2 in Hdec'.
  destruct (fenced_regions_spec _ _ _ Hdec') as [_ H2]. destruct (H2 r Hr Hs) as (region & Hregion & Hof).
  destruct (ref_region_extent objects r region body (footer c) Hof Hb Hint He Hle) as (Hd & Hbase & Hend).
  assert (Hrev : region ∈ rev decoded) by (by apply list_elem_of_In, in_rev; rewrite rev_involutive; apply list_elem_of_In).
  apply list_elem_of_lookup in Hrev as [i Hi]. destruct (Forall2_lookup_l _ _ _ _ _ HF Hi) as (r' & Hr' & Hspan).
  destruct (proj2 (Hholds (fenced_seq r) (region_write sl r'))) as (ws & Hws & Hw).
  { right. exists sl, r'. split_and!; [done|by eapply list_elem_of_lookup_2| |done].
    destruct Hspan as [-> _]. by destruct Hof as (? & ? & _ & _ & -> & _). }
  exists ws, (region_write sl r'). split_and!; [done|done|exact Hk|].
  unfold piece_log. cbn. destruct Hspan as [Hb' Hspan]. rewrite Hb'. apply (same_span_located _ region.2); [done|].
  apply located_covers; [done|]. unfold in_served in Ho. lia.
Qed.

Lemma dirty_read seq : seq ∈ dirty g -> seq ∈ seqs.
Proof.
  intros Hd. assert (Hheld : dirty_held g).
  { apply (transform_slices_held _ _ _ _ _ _ Hg). by intros ? ?%not_elem_of_empty. }
  destruct (Hheld seq Hd) as [w Hw].
  destruct (transform_slices_spec _ _ _ _ _ _ Hg) as (written & Hwritten & Hholds).
  destruct (proj1 (Hholds seq w) Hw) as [(? & Hnone & _)|(s & r & Hs & Hr & Hseq & _)];
    [cbn in Hnone; by rewrite lookup_empty in Hnone|]. rewrite Hseq.
  destruct (Hwritten s Hs) as (decoded & Hdec & HF). apply list_elem_of_lookup in Hr as [i Hi].
  destruct (Forall2_lookup_r _ _ _ _ _ HF Hi) as (r0 & Hr0 & [Heq _]). rewrite Heq.
  apply list_elem_of_lookup_2, list_elem_of_In, in_rev, list_elem_of_In in Hr0.
  destruct (fenced_regions_spec _ _ _ Hdec) as [H1 _]. destruct (H1 _ Hr0) as (ref & _ & object & bs & Ho & _ & -> & _).
  destruct (decide (fenced_seq ref ∈ seqs)) as [|Hn]; [done|]. by rewrite (Hout _ Hn) in Ho.
Qed.
End pass.

(** Segments that are all there are all read. *)
Lemma fetch_live env cp seqs : forall held gone objects gone',
  (forall seq, seq ∈ seqs -> seq ∈ px_objects (cp_prefix cp) /\ is_Some (cp_bodies cp !! seq)) ->
  fetch_segment_objects env cp seqs held gone = Ok (objects, gone') -> gone' = gone.
Proof.
  induction seqs as [|seq seqs IH]; intros held gone objects gone' Hlive H; cbn in H; [by injection H as _ <-|].
  destruct (ce_get env seq); [done|]. destruct (Hlive seq) as [Hin [body Hb]]; [by left|].
  rewrite bool_decide_eq_true_2, Hb in H by done. eapply IH; [|exact H]. intros x Hx. apply Hlive. by right.
Qed.

(** The branches of a pass that answers. *)
Lemma rewrite_prefix_Ok env nonces cap cp cp' n :
  (forall seq, seq ∈ readable cp -> seq ∈ px_objects (cp_prefix cp) /\ is_Some (cp_bodies cp !! seq)) ->
  rewrite_prefix env nonces cap cp = (cp', Ok n) ->
  let ix := px_index (cp_prefix cp) in
  (cp' = cp /\ n = 0) \/
  exists objects g cp1 px k,
    fetch_segment_objects env cp (readable cp) ∅ [] = Ok (objects, []) /\
    transform_slices ix objects cap (run_slices (run_footers ix (readable cp))) (mkOutputs ∅ ∅ 0) = Ok g /\
    dirty g <> ∅ /\ n = removed_total g /\
    rewrite_dirty env nonces (segment_meta ix) (outputs g) cp (set_list (dirty g)) = (cp1, Ok tt) /\
    retire_segments (ce_store env) (cp_prefix cp1) (set_list (dirty g)) = (px, Ok k) /\ cp' = cp_set_prefix cp1 px.
Proof.
  unfold rewrite_prefix. intros Hlive. cbn zeta.
  destruct (fetch_segment_objects _ _ _ _ _) as [[objects gone]| |] eqn:Ef; [|by intros [=]..].
  pose proof (fetch_live _ _ _ _ _ _ _ Hlive Ef) as ->.
  destruct (transform_slices _ _ _ _ _) as [g| |] eqn:Eg; [|by intros [=]..].
  case_bool_decide as Hd; [by intros [= <- <-]; left|].
  destruct (rewrite_dirty _ _ _ _ _ _) as [cp1 [[]| |]] eqn:Er; [|by intros [=]..].
  destruct (retire_segments _ _ _) as [px [k| |]] eqn:Et; [|by intros [=]..].
  intros [= <- <-]. right. eauto 20.
Qed.

(** C14 Cleaning by key is exact, for batches whose records have distinct offset
    deltas.  Of the batches of a sub-stream, walked newest first through every
    region, one that is a marker or transactional is carried as it is; any other
    whose records are all the last of their key among itself and the newer ones is
    carried as it is or, if its LZ4 frame has dependent blocks, re-encoded with the
    same records; and any other is replaced by a batch of exactly those of its
    records that are the last of their key, over the same offsets.  Regions keep
    their place and their span, and one that lost no record and had no frame
    repaired is untouched. *)
Theorem per_key_keeps_latest (cap : nat) (regions : list Region) (staged : list Staged)
    (Hdistinct : Forall (fun r => Forall distinct r.2) regions)
    (Hrun : transform_regions cap ∅ regions = Ok (Some staged)) :
  Forall2 stages regions staged /\
  kept_all ∅ (newest_first regions) (newest_first (map staged_region staged)).
Proof. split; [by eapply transform_regions_span|by eapply transform_regions_kept]. Qed.

(** C15 Cleaning by key takes no offset away: after a pass that answers, however
    many segments it rewrote, every offset a reader was served is still
    served. *)
Theorem per_key_keeps_offsets (env : CompactEnv) (nonces : Z -> Z) (cap : nat) (cp cp' : Compactor) (n : Z)
    (Hsound : sound_run cp (readable cp)) (Hfresh : create_fresh env (cp_prefix cp))
    (Hlive : forall seq, seq ∈ readable cp -> seq ∈ px_objects (cp_prefix cp) /\ is_Some (cp_bodies cp !! seq))
    (Hrun : rewrite_prefix env nonces cap cp = (cp', Ok n)) :
  forall s p o,
    Exists (fun r => in_served r o) (valid_substream_segments (px_index (cp_prefix cp)) s p) ->
    Exists (fun r => in_served r o) (valid_substream_segments (px_index (cp_prefix cp')) s p).
Proof.
  intros s p o (r & Hr & Ho)%Exists_exists. apply rewrite_prefix_Ok in Hrun; [|done]. cbn zeta in Hrun.
  destruct Hrun as [[-> _]|(objects & g & cp1 & px & k & Hf & Hg & Hd & _ & Hw & Ht & ->)].
  { apply Exists_exists. by exists r. }
  destruct (fetch_spec _ _ _ _ _ Hf) as [Hin Hout].
  assert (Hin' : forall seq, seq ∈ readable cp ->
            objects !! seq = cp_bodies cp !! seq /\ is_Some (cp_bodies cp !! seq)) by (by intros ? []%Hin).
  destruct (rewrite_dirty_spec _ (cp_prefix cp) _ _ _ _ Hfresh (outputs_sound cp _ _ _ _ Hsound Hin' Hout Hg) _ _ Hw
              (sr_index _ _ Hsound) (sr_counted _ _ Hsound)) as ([Hok1 Hc1] & Hsub & _ & Hnew).
  pose proof (retire_segments_spec (ce_store env) (cp_prefix cp1) (set_list (dirty g))) as Hret.
  rewrite Ht in Hret. destruct Hret as (_ & _ & _ & Hret).
  destruct (Hret k eq_refl) as (Hix & _ & _ & _).
  { intros Hnil. apply Hd, set_eq. intros x. rewrite <- elem_of_set_list, Hnil. set_solver. }
  assert (Hix' : px_index (cp_prefix (cp_set_prefix cp1 px)) =
                 index_prune (px_index (cp_prefix cp1)) (set_list (dirty g))) by exact Hix.
  assert (Hok' : index_ok (px_index (cp_prefix (cp_set_prefix cp1 px)))) by (rewrite Hix'; by eapply index_step_ok, step_prune).
  assert (Hc' : counted (px_index (cp_prefix (cp_set_prefix cp1 px)))) by (rewrite Hix'; by apply prune_counted).
  destruct (decide (fenced_seq r ∈ dirty g)) as [Hdirty|Hclean].
  - destruct (outputs_cover cp _ _ _ _ Hsound Hin' Hout Hg s p r o Hr (dirty_read cp _ _ _ _ Hout Hg _ Hdirty) Ho)
      as (ws & w & Hws & Hw' & Hk & Hcov).
    destruct (Hnew (fenced_seq r) ws) as (new & Hfree & (c & body & Hcn & Hb & Hint) & Hlog); [by apply elem_of_set_list|done|].
    assert (Hnd : new ∉ set_list (dirty g)).
    { rewrite elem_of_set_list. intros Hnew'. by destruct (Hlive new (dirty_read cp _ _ _ _ Hout Hg _ Hnew')). }
    apply (merged_serves _ (Some new)); [done|done| |].
    + intros ? [= <-]. exists c, body. by rewrite Hix', prune_segments, decide_False.
    + rewrite (merged_log_retired _ _ _ _ _ Hix) by (by intros ? [= <-]). rewrite Hlog. by eapply filter_holds.
  - apply (still_served (px_index (cp_prefix cp)) _ s p r o); try done; [apply Hsound..|]. intros c Hc.
    rewrite Hix', prune_segments, decide_False by (by rewrite elem_of_set_list).
    by apply (proj1 (map_subseteq_spec _ _) Hsub).
Qed.

(** A batch compressed with Snappy can be read and not written: the walk of a
    sub-stream that has to drop one of its records does not come to an
    answer. *)
Theorem snappy_stops_the_walk cap seen b batch cleaned n rest out removed repaired
    (Hexempt : exempt b = false) (Hcodec : Deflated.compression b = Ok Snappy)
    (Hread : Inflated.try_from_ref inflate checks b = Ok batch)
    (Hclean : Inflated.compact crc32c batch seen = Ok (cleaned, S n))
    (Hcap : (size (seen ∪ Inflated.keys cleaned) <= cap)%nat) :
  forall answer, transform_batches cap seen (b :: rest) out removed repaired <> Ok answer.
Proof.
  intros answer H. cbn [transform_batches] in H. rewrite Hexempt, Hread in H. cbn [rbind] in H.
  rewrite Hclean in H. cbn [rbind] in H. rewrite (proj2 (Nat.ltb_ge _ _)) in H by done. cbn [Nat.ltb Nat.leb] in H.
  apply rbind_Ok in H as (d & Hd & _). apply into_deflated_Ok in Hd as (c & data & Hc & Hdata & _).
  destruct (compact_header _ _ _ _ Hclean) as (? & ? & ? & ->). cbn in Hc.
  unfold Inflated.try_from_ref in Hread. apply rbind_Ok in Hread as (rs & _ & [= <-]). cbn in Hc.
  unfold Deflated.compression in Hcodec. rewrite Hcodec in Hc. injection Hc as <-.
  unfold Inflated.into_record_data in Hdata. by apply rbind_Ok in Hdata as (? & _ & ?).
Qed.
End codecs.

(** ** One segment with a key written twice *)

Module Duplicate.

Definition topic : bytes := ascii_bytes "a".

(** [a], [b], then [a] again. *)
Definition written : Inflated.Batch :=
  let r k v d := Record.mk 9 0 0 d (Some [k]) (Some [v]) [] in
  Inflated.mk 0 0 (-1) 2 0 0 2 1000 1000 (-1) (-1) (-1) [r x61 x01 0; r x62 x02 1; r x61 x03 2].

Definition crc (_ : bytes) : Z := 0.
Definition codec (_ : Compression) (bs : bytes) : result bytes := Ok bs.

Definition batch : Deflated.Batch :=
  match Inflated.into_deflated crc codec written with Ok b => b | _ => sample_batch end.

Definition writes : list SubstreamWrite := [SWrite.mk topic 0 (Name topic) 0 [batch]].

Definition encoded : bytes * SegmentFooter :=
  match encode_segment_indexed writes 1 7 3 with Ok x => x | _ => ([], mkFooter 0 0 []) end.

Definition index : PrefixIndex := index_insert Index.empty 0 1 encoded.2 10.

Definition start : Compactor := mkCompactor (mkPrefix index None ∅ 0 {[1]}) {[1 := encoded.1]} ∅ ∅.

Definition pass : Compactor * result Z := rewrite_prefix crc codec codec true TwoSmall.env (fun _ => 9) 10 start.

Lemma duplicate_reachable : reachable index.
Proof. eapply rtc_l; [apply step_insert|]. apply rtc_refl. Qed.

Lemma duplicate_entries :
  map_Forall (fun _ c => Forall (fun e => (1 <= Entry.record_count e /\ i64_MIN <= Entry.base_offset e) /\
                Entry.topic e = topic) (entries (footer c))) (Index.segments index).
Proof. apply (bool_decide_unpack _). vm_compute. exact I. Qed.

Lemma duplicate_intact : intact encoded.1 (resident_footer encoded.2).
Proof.
  apply intact_resident, (encoded_intact writes 1 7 3).
  - vm_compute. reflexivity.
  - apply Forall_singleton. split_and!; [|done|by vm_compute]. apply Forall_singleton. split; by vm_compute.
Qed.

Lemma duplicate_readable : readable start = [1].
Proof. vm_compute. reflexivity. Qed.

Lemma duplicate_sound : sound_run start (readable start).
Proof.
  split.
  - apply reachable_ok, duplicate_reachable.
  - intros s p. apply Forall_forall. intros [[seq epoch] e] Hin.
    apply elem_substream_entries in Hin as (c & Hc & _ & He & _); [|apply reachable_ok, duplicate_reachable].
    pose proof (duplicate_entries _ _ Hc) as H. rewrite Forall_forall in H. by apply H.
  - intros seq c body _ Hc Hb. cbn [start cp_prefix px_index cp_bodies] in *. unfold index in Hc.
    rewrite index_insert_segment in Hc. apply lookup_insert_Some in Hc as [[<- <-]|[_ Hc]]; [|done].
    rewrite lookup_singleton_eq in Hb. injection Hb as <-. apply duplicate_intact.
  - intros seq seq' c c' e e' _ _ Hc Hc' He He' _.
    pose proof (duplicate_entries _ _ Hc) as H. pose proof (duplicate_entries _ _ Hc') as H'.
    rewrite Forall_forall in H, H'. destruct (H _ He) as [_ ->], (H' _ He') as [_ ->]. done.
Qed.

End Duplicate.

Lemma per_key_keeps_latest_witness :
  exists staged,
    transform_regions Duplicate.crc Duplicate.codec Duplicate.codec true 10 ∅ [(1, 0, [Duplicate.batch])] = Ok (Some staged) /\
    map snd staged = [0] /\ map (fun x => x.1.2) staged = [1] /\
    kept_all Duplicate.crc Duplicate.codec Duplicate.codec true ∅ [Duplicate.batch]
      (newest_first (map staged_region staged)).
Proof.
  destruct (transform_regions Duplicate.crc Duplicate.codec Duplicate.codec true 10 ∅ [(1, 0, [Duplicate.batch])])
    as [[staged|]| |] eqn:E; [|vm_compute in E; discriminate E..].
  exists staged. split; [done|].
  assert (Hc : map snd staged = [0] /\ map (fun x => x.1.2) staged = [1])
    by (vm_compute in E; injection E as <-; split; reflexivity).
  split; [apply Hc|]. split; [apply Hc|].
  refine (proj2 (per_key_keeps_latest Duplicate.crc Duplicate.codec Duplicate.codec true 10 [(1, 0, [Duplicate.batch])]
           staged _ E)).
  apply Forall_singleton, Forall_singleton. intros batch Hb. vm_compute in Hb. injection Hb as <-.
  apply (bool_decide_unpack _). vm_compute. exact I.
Defined.

Lemma per_key_keeps_offsets_witness :
  Duplicate.pass.2 = Ok 1 /\ elements (px_objects (cp_prefix Duplicate.pass.1)) = [3] /\
  Exists (fun r => in_served r 2)
    (valid_substream_segments (px_index (cp_prefix Duplicate.pass.1)) (Name Duplicate.topic) 0).
Proof.
  assert (Hr : Duplicate.pass.2 = Ok 1) by (vm_compute; reflexivity).
  split; [exact Hr|]. split; [vm_compute; reflexivity|].
  eapply (per_key_keeps_offsets Duplicate.crc Duplicate.codec Duplicate.codec true TwoSmall.env (fun _ => 9) 10
           Duplicate.start Duplicate.pass.1 1 Duplicate.duplicate_sound).
  - apply TwoSmall.env_fresh. cbn. intros x ->%elem_of_singleton. lia.
  - rewrite Duplicate.duplicate_readable. intros seq ->%list_elem_of_singleton.
    split; [|by eexists]. apply (bool_decide_unpack _). vm_compute. exact I.
  - rewrite <- Hr. unfold Duplicate.pass. apply surjective_pairing.
  - apply (bool_decide_unpack _). vm_compute. exact I.
Defined.
