(* ===== verification/TxnMeta.v ===== *)
(** * TxnMeta: the cluster's transactions document

    [Meta] of [tansu-storage/src/dynostore.rs] and the closures that
    [tansu-storage/src/dynostore/txn.rs] and [dynostore/storage.rs] run on it
    with [with_mut]: [InitProducerId], [AddPartitionsToTxn], the registration of
    a transactional batch, [TxnOffsetCommit] and the two halves of [EndTxn].

    A closure is a function from the document to the document it leaves and its
    outcome.  Machine arithmetic wraps, as in the release profile. *)

From S2P Require Export Flush OptiCon.

(** ** Ordered maps *)

#[export, program] Instance topition_order : KeyOrder Topition := { key_cmp := topition_cmp }.
Next Obligation.
  intros [t p] [t' p']. transitivity (key_cmp (t, p) (t', p') = Eq); [done|].
  rewrite key_cmp_eq. naive_solver.
Qed.
Next Obligation. intros [t p] [t' p']. exact (key_cmp_sym (t, p) (t', p')). Qed.
Next Obligation.
  intros [t p] [t' p'] [t'' p'']. exact (key_cmp_trans (t, p) (t', p') (t'', p'')).
Qed.

(** [last_entry] and [last_key_value] of a [BTreeMap]. *)
Definition last_entry {V} (m : gmap Z V) : option (Z * V) := last (entries_of m).

Lemma last_entry_Some {V} (m : gmap Z V) k v :
  last_entry m = Some (k, v) -> m !! k = Some v /\ forall k', is_Some (m !! k') -> k' <= k.
Proof.
  unfold last_entry. intros Hl.
  destruct (last_snoc_inv _ _ Hl) as [l El].
  assert (Hk : (k, v) ∈ entries_of m) by (rewrite El; set_solver).
  split; [by apply elem_of_entries|]. intros k' [v' Hv'].
  assert (Hk' : (k', v') ∈ entries_of m) by (by apply elem_of_entries).
  pose proof (entries_of_sorted m) as Hs. rewrite El in Hk', Hs.
  apply elem_of_app in Hk' as [Hk'|Hk'%list_elem_of_singleton]; [|by simplify_eq].
  apply StronglySorted_app in Hs as (Hs & _ & _).
  specialize (Hs (k', v') (k, v) Hk' ltac:(set_solver)). unfold entry_le, key_le in Hs. cbn in Hs.
  destruct (Z.compare_spec k' k); lia || done.
Qed.

Lemma last_entry_None {V} (m : gmap Z V) : last_entry m = None <-> m = ∅.
Proof.
  unfold last_entry. rewrite last_None. split.
  - intros He. apply map_to_list_empty_iff. apply Permutation_nil. by rewrite <- He, entries_of_perm.
  - intros ->. apply Permutation_nil. by rewrite entries_of_perm, map_to_list_empty.
Qed.

Lemma last_entry_insert {V} (m : gmap Z V) k v :
  (forall k', is_Some (m !! k') -> k' <= k) -> last_entry (<[k := v]> m) = Some (k, v).
Proof.
  intros Hk. destruct (last_entry (<[k := v]> m)) as [[k' v']|] eqn:El.
  - apply last_entry_Some in El as [H1 H2]. specialize (H2 k). rewrite lookup_insert_eq in H2.
    specialize (H2 ltac:(done)). rewrite lookup_insert in H1. case_decide as Hc; [by simplify_eq|].
    specialize (Hk k' ltac:(done)). lia.
  - apply last_entry_None, (f_equal (lookup k)) in El. by rewrite lookup_insert_eq in El.
Qed.

(** ** The document *)

Inductive TxnState := Begin | PrepareCommit | PrepareAbort | Committed | Aborted.

#[export] Instance txn_state_eq_dec : EqDecision TxnState.
Proof. solve_decision. Defined.

Definition is_prepared (s : TxnState) : bool :=
  match s with PrepareAbort | PrepareCommit => true | _ => false end.

Definition txn_state_to_string (s : TxnState) : string :=
  match s with
  | Begin => "BEGIN"
  | PrepareCommit => "PREPARE_COMMIT"
  | PrepareAbort => "PREPARE_ABORT"
  | Committed => "COMMITTED"
  | Aborted => "ABORTED"
  end.

Definition txn_state_from_str (s : string) : option TxnState :=
  if decide (s = "ABORTED"%string) then Some Aborted
  else if decide (s = "BEGIN"%string) then Some Begin
  else if decide (s = "COMMITTED"%string) then Some Committed
  else if decide (s = "PREPARE_ABORT"%string) then Some PrepareAbort
  else if decide (s = "PREPARE_COMMIT"%string) then Some PrepareCommit
  else None.

Lemma txn_state_roundtrip s : txn_state_from_str (txn_state_to_string s) = Some s.
Proof. by destruct s. Qed.

Record TxnProduceOffset := mkRange { offset_start : Z; offset_end : Z }.
Record TxnCommitOffset := mkCommitOffset {
  committed_offset : Z;
  co_leader_epoch : option Z;
  co_metadata : option bytes;
}.

#[export] Instance txn_range_eq_dec : EqDecision TxnProduceOffset.
Proof. solve_decision. Defined.
#[export] Instance txn_commit_offset_eq_dec : EqDecision TxnCommitOffset.
Proof. solve_decision. Defined.

(** [BTreeMap<Topic, BTreeMap<Partition, ..>>] and the groups' offsets. *)
Abbreviation Produces := (gmap bytes (gmap Z (option TxnProduceOffset))).
Abbreviation GroupOffsetsToCommit := (gmap bytes (gmap bytes (gmap Z TxnCommitOffset))).

Module TxnDetail.
Record TxnDetail := mk {
  transaction_timeout_ms : Z;
  started_at : option Z;
  state : option TxnState;
  produces : Produces;
  offsets : GroupOffsetsToCommit;
}.
Definition new (timeout : Z) : TxnDetail := mk timeout None None ∅ ∅.
End TxnDetail.
Export TxnDetail (TxnDetail).

#[export] Instance txn_detail_eq_dec : EqDecision TxnDetail.
Proof. solve_decision. Defined.

Module Txn.
Record Txn := mk { producer : Z; epochs : gmap Z TxnDetail }.
End Txn.
Export Txn (Txn).

#[export] Instance txn_eq_dec : EqDecision Txn.
Proof. solve_decision. Defined.

Record ProducerDetail := mkProducerDetail { sequences : gmap Z (gmap bytes (gmap Z Z)) }.

#[export] Instance producer_detail_eq_dec : EqDecision ProducerDetail.
Proof. solve_decision. Defined.

Module Meta.
Record Meta := mk { producers : gmap Z ProducerDetail; transactions : gmap bytes Txn }.
Definition empty : Meta := mk ∅ ∅.
End Meta.
Export Meta (Meta).

#[export] Instance meta_eq_dec : EqDecision Meta.
Proof. solve_decision. Defined.

Module TxnId.
Record TxnId := mk { transaction : bytes; producer_id : Z; producer_epoch : Z; state : TxnState }.
End TxnId.
Export TxnId (TxnId).

(** [ErrorCode] *)
Definition NONE : Z := 0.
Definition UnknownServerError : Z := -1.
Definition UnsupportedVersion : Z := 35.
Definition UnknownProducerId : Z := 59.
Definition ProducerFenced : Z := 90.
Definition TransactionalIdNotFound : Z := 105.

(** ** Ranges *)

(** The loop over [produces] that skips a partition without a range. *)
Definition ranges (p : Produces) : list (Topition * TxnProduceOffset) :=
  flat_map (fun '(topic, partitions) =>
    omap (fun '(partition, range) => pair (Topition.mk topic partition) <$> range) (entries_of partitions))
    (entries_of p).

(** [assert_eq!(None, map.insert(k, v))] along a loop. *)
Fixpoint insert_new {A} (l : list (Topition * A)) (m : gmap Topition A) : result (gmap Topition A) :=
  match l with
  | [] => Ok m
  | (k, v) :: l =>
      match m !! k with None => insert_new l (<[k := v]> m) | Some _ => Panic AssertionFailed end
  end.

(** [BTreeMap::<Topition, Offset>::from(&TxnDetail)] *)
Definition detail_starts (d : TxnDetail) : result (gmap Topition Z) :=
  insert_new (prod_map id offset_start <$> ranges (TxnDetail.produces d)) ∅.

(** Every transaction's epochs, in the order the loops visit them. *)
Definition details (m : Meta) : list (bytes * Txn * Z * TxnDetail) :=
  flat_map (fun '(id, txn) => (fun '(epoch, d) => (id, txn, epoch, d)) <$> entries_of (Txn.epochs txn))
    (entries_of (Meta.transactions m)).

Definition unresolved (d : TxnDetail) : bool :=
  match TxnDetail.state d with
  | Some s => negb (bool_decide (s = Committed)) && negb (bool_decide (s = Aborted))
  | None => false
  end.

(** One entry of [floors]. *)
Definition lower_floor (floors : gmap Topition Z) (x : Topition * Z) : gmap Topition Z :=
  match floors !! x.1 with
  | Some existing => if x.2 <? existing then <[x.1 := x.2]> floors else floors
  | None => <[x.1 := x.2]> floors
  end.

Definition open_transaction_floors (m : Meta) : result (gmap Topition Z) :=
  foldl (fun floors d =>
    let! floors := floors in
    let! starts := detail_starts d in
    Ok (foldl lower_floor floors (entries_of starts)))
    (Ok ∅) (filter (fun d => unresolved d = true) (snd <$> details m)).

Definition produced (m : Meta) (transaction_id : bytes) (producer_id producer_epoch : Z)
    : result (gmap Topition TxnProduceOffset) :=
  match Meta.transactions m !! transaction_id with
  | None => Err (Api TransactionalIdNotFound)
  | Some txn =>
      if negb (Txn.producer txn =? producer_id) then Err (Api UnknownProducerId)
      else
        match Txn.epochs txn !! producer_epoch with
        | None => Err (Api ProducerFenced)
        | Some d => insert_new (ranges (TxnDetail.produces d)) ∅
        end
  end.

(** A range that begins before the end of the candidate's range on the same
    partition. *)
Definition overlaps_range (candidates : gmap Topition TxnProduceOffset) (x : Topition * TxnProduceOffset) : bool :=
  match candidates !! x.1 with
  | Some candidate => offset_start x.2 <? offset_end candidate
  | None => false
  end.

(** The first epoch of a transaction that overlaps the candidates. *)
Fixpoint first_overlap (own : bytes * Z * Z) (candidates : gmap Topition TxnProduceOffset)
    (candidate_id : bytes) (txn : Txn) (epochs : list (Z * TxnDetail)) : option TxnId :=
  match epochs with
  | [] => None
  | (epoch, d) :: epochs =>
      if bool_decide (own = (candidate_id, Txn.producer txn, epoch))
      then first_overlap own candidates candidate_id txn epochs
      else
        match TxnDetail.state d with
        | None => first_overlap own candidates candidate_id txn epochs
        | Some state =>
            if existsb (overlaps_range candidates) (ranges (TxnDetail.produces d))
            then Some (TxnId.mk candidate_id (Txn.producer txn) epoch state)
            else first_overlap own candidates candidate_id txn epochs
        end
  end.

Definition overlapping_transactions (m : Meta) (transaction_id : bytes) (producer_id producer_epoch : Z)
    : result (list TxnId) :=
  let! candidates := produced m transaction_id producer_id producer_epoch in
  Ok (omap (fun '(candidate_id, txn) =>
    first_overlap (transaction_id, producer_id, producer_epoch) candidates candidate_id txn
      (entries_of (Txn.epochs txn))) (entries_of (Meta.transactions m))).

(** ** Fencing and updates *)

(** The checks each closure opens with: the detail of the producer's epoch when
    it is the current one, or the code the request is refused with. *)
Definition current_detail (m : Meta) (transaction_id : bytes) (producer_id producer_epoch : Z)
    : Z + TxnDetail :=
  match Meta.transactions m !! transaction_id with
  | None => inl TransactionalIdNotFound
  | Some txn =>
      if negb (Txn.producer txn =? producer_id) then inl UnknownProducerId
      else
        match last_entry (Txn.epochs txn) with
        | None => inl ProducerFenced
        | Some (epoch, d) => if negb (producer_epoch =? epoch) then inl ProducerFenced else inr d
        end
  end.

(** A mutation through [transactions.get_mut(id)] and [epochs.get_mut(epoch)]. *)
Definition alter_detail (g : TxnDetail -> TxnDetail) (id : bytes) (epoch : Z) (m : Meta) : Meta :=
  Meta.mk (Meta.producers m)
    (alter (fun txn => Txn.mk (Txn.producer txn) (alter g epoch (Txn.epochs txn))) id (Meta.transactions m)).

Definition set_state (s : TxnState) (d : TxnDetail) : TxnDetail :=
  TxnDetail.mk (TxnDetail.transaction_timeout_ms d) (TxnDetail.started_at d) (Some s)
    (TxnDetail.produces d) (TxnDetail.offsets d).

(** ** InitProducerId *)

Module ProducerIdResponse.
Record ProducerIdResponse := mk { id : Z; epoch : Z; error : Z }.
Definition refused : ProducerIdResponse := mk (-1) (-1) UnknownServerError.
End ProducerIdResponse.
Export ProducerIdResponse (ProducerIdResponse).

Inductive InitProducer :=
  | Completed (r : ProducerIdResponse)
  | NeedToRollback (producer_id producer_epoch : Z).

(** One past the last producer, or 1. *)
Definition next_producer (m : Meta) : Z :=
  match last_entry (Meta.producers m) with None => 1 | Some (k, _) => wrap_s 64 (k + 1) end.

Definition insert_producer (m : Meta) (id : Z) : result (gmap Z ProducerDetail) :=
  match Meta.producers m !! id with
  | None => Ok (<[id := mkProducerDetail {[0 := ∅]}]> (Meta.producers m))
  | Some _ => Panic AssertionFailed
  end.

(** A document and an outcome; a panic leaves the document as it was found,
    since nothing is written. *)
Definition closing {A} (m : Meta) (r : result (Meta * A)) : Meta * result A :=
  match r with Ok (m', a) => (m', Ok a) | Err e => (m, Err e) | Panic p => (m, Panic p) end.

Definition init_vacant (tid : bytes) (timeout : Z) (m : Meta) : result (Meta * InitProducer) :=
  let id := next_producer m in
  let! producers := insert_producer m id in
  Ok (Meta.mk producers
        (<[tid := Txn.mk id {[0 := TxnDetail.new timeout]}]> (Meta.transactions m)),
      Completed (ProducerIdResponse.mk id 0 NONE)).

(** [producers.entry(id).and_modify(..)]: a producer the document does not have
    is left absent. *)
Definition bump_sequences (m : Meta) (id epoch : Z) : result (gmap Z ProducerDetail) :=
  match Meta.producers m !! id with
  | None => Ok (Meta.producers m)
  | Some pd =>
      match sequences pd !! epoch with
      | None => Ok (<[id := mkProducerDetail (<[epoch := ∅]> (sequences pd))]> (Meta.producers m))
      | Some _ => Panic AssertionFailed
      end
  end.

Definition init_occupied (tid : bytes) (timeout : Z) (txn : Txn) (m : Meta) : result (Meta * InitProducer) :=
  match last_entry (Txn.epochs txn) with
  | None => Ok (m, Completed ProducerIdResponse.refused)
  | Some (current_epoch, d) =>
      if bool_decide (TxnDetail.state d = Some Begin)
      then Ok (m, NeedToRollback (Txn.producer txn) current_epoch)
      else
        let epoch := wrap_s 16 (current_epoch + 1) in
        let! producers := bump_sequences m (Txn.producer txn) epoch in
        match Txn.epochs txn !! epoch with
        | None =>
            Ok (Meta.mk producers
                  (<[tid := Txn.mk (Txn.producer txn) (<[epoch := TxnDetail.new timeout]> (Txn.epochs txn))]>
                     (Meta.transactions m)),
                Completed (ProducerIdResponse.mk (Txn.producer txn) epoch NONE))
        | Some _ => Panic AssertionFailed
        end
  end.

(** The closure of [init_producer_id] with a transactional id. *)
Definition init_transactional (tid : bytes) (timeout : Z) (producer_id producer_epoch : option Z) (m : Meta)
    : Meta * result InitProducer :=
  closing m
    (if bool_decide (producer_id = Some (-1) /\ producer_epoch = Some (-1))
     then
       match Meta.transactions m !! tid with
       | None => init_vacant tid timeout m
       | Some txn => init_occupied tid timeout txn m
       end
     else Ok (m, Completed ProducerIdResponse.refused)).

(** The closure of [init_producer_id] without one. *)
Definition init_idempotent (producer_id producer_epoch : option Z) (m : Meta)
    : Meta * result ProducerIdResponse :=
  closing m
    (if bool_decide (producer_id = Some (-1) /\ producer_epoch = Some (-1))
     then
       let id := next_producer m in
       let! producers := insert_producer m id in
       Ok (Meta.mk producers (Meta.transactions m), ProducerIdResponse.mk id 0 NONE)
     else Ok (m, ProducerIdResponse.refused)).

(** [seed_producer], on the producer's own document. *)
Definition seed_producer (r : ProducerIdResponse) (pd : ProducerDetail) : ProducerDetail :=
  if negb (ProducerIdResponse.error r =? NONE) || (ProducerIdResponse.id r <? 0) then pd
  else
    match sequences pd !! ProducerIdResponse.epoch r with
    | Some _ => pd
    | None => mkProducerDetail (<[ProducerIdResponse.epoch r := ∅]> (sequences pd))
    end.

(** ** AddPartitionsToTxn *)

(** [topic.partitions] may be null. *)
Record AddTopic := mkAddTopic { add_name : bytes; add_partitions : option (list Z) }.

Inductive TxnAddPartitionsRequest :=
  | VersionZeroToThree (transaction_id : bytes) (producer_id producer_epoch : Z) (topics : list AddTopic)
  | VersionFourPlus.

(** A result per topic: its name, and a code per partition. *)
Abbreviation TopicCodes := (list (bytes * list (Z * Z))).

Definition add_codes (code : Z) (topics : list AddTopic) : TopicCodes :=
  (fun t => (add_name t, (fun p => (p, code)) <$> default [] (add_partitions t))) <$> topics.

(** [produces.entry(topic).or_default().entry(partition).or_default()] *)
Definition add_partition (topic : bytes) (p : Produces) (partition : Z) : Produces :=
  let partitions := default ∅ (p !! topic) in
  <[topic := match partitions !! partition with
             | Some _ => partitions
             | None => <[partition := None]> partitions
             end]> p.

Definition add_topics (topics : list AddTopic) (p : Produces) : Produces :=
  foldl (fun p t => foldl (add_partition (add_name t)) p (default [] (add_partitions t))) p topics.

Definition begin_detail (now : Z) (topics : list AddTopic) (d : TxnDetail) : TxnDetail :=
  TxnDetail.mk (TxnDetail.transaction_timeout_ms d) (Some now) (Some Begin)
    (add_topics topics (TxnDetail.produces d)) (TxnDetail.offsets d).

Definition add_txn_partitions_closure (tid : bytes) (producer_id producer_epoch : Z) (topics : list AddTopic)
    (now : Z) (m : Meta) : Meta * result TopicCodes :=
  match current_detail m tid producer_id producer_epoch with
  | inl code => (m, Ok (add_codes code topics))
  | inr _ => (alter_detail (begin_detail now topics) tid producer_epoch m, Ok (add_codes NONE topics))
  end.

(** ** Registering a batch *)

(** The entry of a partition a batch at [offset .. offset_end] was written to. *)
Definition widen (offset last : Z) (entry : option (option TxnProduceOffset)) : option TxnProduceOffset :=
  match entry with
  | Some range =>
      let range := default (mkRange offset last) range in
      Some (mkRange (Z.min (offset_start range) offset)
              (if offset_end range <? last then last else offset_end range))
  | None => Some (mkRange offset last)
  end.

Definition register_range (t : Topition) (offset last : Z) (p : Produces) : Produces :=
  let partitions := default ∅ (p !! Topition.topic t) in
  <[Topition.topic t :=
      <[Topition.partition t := widen offset last (partitions !! Topition.partition t)]> partitions]> p.

Definition register_detail (t : Topition) (offset last : Z) (d : TxnDetail) : TxnDetail :=
  TxnDetail.mk (TxnDetail.transaction_timeout_ms d) (TxnDetail.started_at d) (TxnDetail.state d)
    (register_range t offset last (TxnDetail.produces d)) (TxnDetail.offsets d).

(** The closure [admit] runs once a transactional batch is durable. *)
Definition register (tid : bytes) (producer_epoch : Z) (t : Topition) (offset last_offset_delta : Z) (m : Meta)
    : Meta * result unit :=
  (alter_detail (register_detail t offset (wrap_s 64 (offset + last_offset_delta))) tid producer_epoch m, Ok tt).

(** ** TxnOffsetCommit *)

Record OffsetTopic := mkOffsetTopic { ot_name : bytes; ot_partitions : option (list (Z * TxnCommitOffset)) }.

Module TxnOffsetCommitRequest.
Record TxnOffsetCommitRequest := mk {
  transaction_id : bytes;
  group_id : bytes;
  producer_id : Z;
  producer_epoch : Z;
  topics : list OffsetTopic;
}.
End TxnOffsetCommitRequest.
Export TxnOffsetCommitRequest (TxnOffsetCommitRequest).

(** [entry(group).or_default().entry(topic).or_default().insert(partition, ..)] *)
Definition put_offset (group topic : bytes) (o : GroupOffsetsToCommit) (x : Z * TxnCommitOffset)
    : GroupOffsetsToCommit :=
  let topics := default ∅ (o !! group) in
  <[group := <[topic := <[x.1 := x.2]> (default ∅ (topics !! topic))]> topics]> o.

Definition txn_offset_commit_response_error (r : TxnOffsetCommitRequest) (code : Z) : TopicCodes :=
  (fun t => (ot_name t, (fun x => (x.1, code)) <$> default [] (ot_partitions t)))
    <$> TxnOffsetCommitRequest.topics r.

Definition pend_offsets (r : TxnOffsetCommitRequest) (o : GroupOffsetsToCommit) : GroupOffsetsToCommit :=
  foldl (fun o t => foldl (put_offset (TxnOffsetCommitRequest.group_id r) (ot_name t)) o
                      (default [] (ot_partitions t)))
    o (TxnOffsetCommitRequest.topics r).

Definition pend_detail (r : TxnOffsetCommitRequest) (d : TxnDetail) : TxnDetail :=
  TxnDetail.mk (TxnDetail.transaction_timeout_ms d) (TxnDetail.started_at d) (TxnDetail.state d)
    (TxnDetail.produces d) (pend_offsets r (TxnDetail.offsets d)).

Definition txn_offset_commit (r : TxnOffsetCommitRequest) (m : Meta) : Meta * result TopicCodes :=
  match current_detail m (TxnOffsetCommitRequest.transaction_id r) (TxnOffsetCommitRequest.producer_id r)
          (TxnOffsetCommitRequest.producer_epoch r) with
  | inl code => (m, Ok (txn_offset_commit_response_error r code))
  | inr _ =>
      (alter_detail (pend_detail r) (TxnOffsetCommitRequest.transaction_id r)
         (TxnOffsetCommitRequest.producer_epoch r) m,
       Ok (txn_offset_commit_response_error r NONE))
  end.

(** ** EndTxn *)

(** The first closure of [end_txn]: the decision is recorded, and the partitions
    to mark are returned. *)
Definition prepare (tid : bytes) (producer_id producer_epoch : Z) (committed : bool) (m : Meta)
    : Meta * result (list Topition) :=
  match current_detail m tid producer_id producer_epoch with
  | inl code => (m, Err (Api code))
  | inr d =>
      if bool_decide (TxnDetail.state d = Some Begin)
      then (alter_detail (set_state (if committed then PrepareCommit else PrepareAbort)) tid producer_epoch m,
            Ok (ranges (TxnDetail.produces d)).*1)
      else (m, Ok [])
  end.

(** The loops that copy a transaction's offsets. *)
Definition copy_offsets (from o : GroupOffsetsToCommit) : GroupOffsetsToCommit :=
  foldl (fun o '(group, topics) =>
    foldl (fun o '(topic, partitions) => foldl (put_offset group topic) o (entries_of partitions))
      o (entries_of topics)) o (entries_of from).

Definition resolved_detail (s : TxnState) (d : TxnDetail) : TxnDetail :=
  TxnDetail.mk (TxnDetail.transaction_timeout_ms d) None (Some s)
    (if bool_decide (s = Aborted) then TxnDetail.produces d else ∅) ∅.

(** What a transaction's state becomes; [None] is the arm that only warns. *)
Definition resolution (s : option TxnState) : option TxnState :=
  match s with
  | None | Some PrepareCommit => Some Committed
  | Some PrepareAbort => Some Aborted
  | _ => None
  end.

Definition find_detail (m : Meta) (id : bytes) (epoch : Z) : option TxnDetail :=
  Meta.transactions m !! id ≫= fun txn => Txn.epochs txn !! epoch.

(** One turn of the loop over [txn_ids]. *)
Definition resolve_one (acc : Meta * GroupOffsetsToCommit) (x : TxnId) : Meta * GroupOffsetsToCommit :=
  let '(m, o) := acc in
  match find_detail m (TxnId.transaction x) (TxnId.producer_epoch x) with
  | None => (m, o)
  | Some d =>
      match resolution (TxnDetail.state d) with
      | None => (m, o)
      | Some s =>
          (alter_detail (resolved_detail s) (TxnId.transaction x) (TxnId.producer_epoch x) m,
           if bool_decide (TxnId.state x = PrepareCommit) then copy_offsets (TxnDetail.offsets d) o else o)
      end
  end.

(** The second closure of [end_txn]: when every overlapping transaction is
    prepared, all of them and this one are resolved. *)
Definition resolve (tid : bytes) (producer_id producer_epoch : Z) (committed : bool) (m : Meta)
    : Meta * result GroupOffsetsToCommit :=
  match current_detail m tid producer_id producer_epoch with
  | inl code => (m, Err (Api code))
  | inr _ =>
      match overlapping_transactions m tid producer_id producer_epoch with
      | Err e => (m, Err e)
      | Panic p => (m, Panic p)
      | Ok overlaps =>
          if forallb (fun x => is_prepared (TxnId.state x)) overlaps
          then
            let '(m', o) :=
              foldl resolve_one (m, ∅)
                (overlaps ++ [TxnId.mk tid producer_id producer_epoch
                                (if committed then PrepareCommit else PrepareAbort)]) in
            (m', Ok o)
          else (m, Ok ∅)
      end
  end.

(** ** Ranges, by partition *)

(** The range a detail holds on a partition. *)
Definition range_of (d : TxnDetail) (t : Topition) : option TxnProduceOffset :=
  mjoin (TxnDetail.produces d !! Topition.topic t ≫= lookup (Topition.partition t)).

Lemma elem_of_ranges (d : TxnDetail) t r :
  (t, r) ∈ ranges (TxnDetail.produces d) <-> range_of d t = Some r.
Proof.
  unfold ranges, range_of. rewrite list_elem_of_In, in_flat_map. split.
  - intros ([topic partitions] & Hx & Hin). apply list_elem_of_In in Hx, Hin.
    apply elem_of_entries in Hx. apply list_elem_of_omap in Hin as ([p o] & Hp & Ho).
    apply elem_of_entries in Hp. destruct o as [r'|]; [|done]. injection Ho as <- <-.
    cbn [Topition.topic Topition.partition]. rewrite Hx. cbn [mbind option_bind]. by rewrite Hp.
  - intros H. destruct (TxnDetail.produces d !! Topition.topic t) as [partitions|] eqn:Et; [|done].
    cbn [mbind option_bind] in H. destruct (partitions !! Topition.partition t) as [[r'|]|] eqn:Ep; [|done..].
    injection H as ->. exists (Topition.topic t, partitions).
    split; [by apply list_elem_of_In, elem_of_entries|].
    apply list_elem_of_In, list_elem_of_omap. exists (Topition.partition t, Some r). split; [by apply elem_of_entries|].
    by destruct t.
Qed.

Lemma omap_fst_sublist {A B} (f : Z * A -> option (Topition * B)) (g : Z -> Topition) (l : list (Z * A)) :
  (forall p a x, f (p, a) = Some x -> x.1 = g p) -> (omap f l).*1 `sublist_of` (g <$> l.*1).
Proof.
  intros Hf. induction l as [|[p a] l IH]; cbn; [done|].
  destruct (f (p, a)) as [x|] eqn:E; cbn.
  - rewrite (Hf _ _ _ E). by apply sublist_skip.
  - by apply sublist_cons.
Qed.

Lemma ranges_NoDup (p : Produces) : NoDup (ranges p).*1.
Proof.
  unfold ranges. pose proof (entries_of_NoDup p) as Hn. revert Hn.
  generalize (entries_of p). intros l. induction l as [|[topic partitions] l IH]; cbn; [by constructor|].
  intros (Hx & Hn)%NoDup_cons. rewrite fmap_app. apply NoDup_app.
  assert (Hs : (omap (fun '(partition, range) => pair (Topition.mk topic partition) <$> range)
                  (entries_of partitions)).*1 `sublist_of` (Topition.mk topic <$> (entries_of partitions).*1)).
  { apply omap_fst_sublist. intros q o x. destruct o; [|done]. by intros [= <-]. }
  split; [|split; [|by apply IH]].
  - eapply sublist_NoDup; [|exact Hs]. apply NoDup_fmap_2; [by intros ?? [= ->]|]. apply entries_of_NoDup.
  - intros t Ht Ht'. eapply elem_of_sublist in Ht; [|exact Hs].
    apply list_elem_of_fmap in Ht as (q & -> & _).
    apply list_elem_of_fmap in Ht' as ([t' r] & Et & Hin).
    apply list_elem_of_In, in_flat_map in Hin as ([topic' ps] & Hin' & Hin).
    apply list_elem_of_In in Hin, Hin'. apply list_elem_of_omap in Hin as ([q' o] & _ & Ho).
    destruct o; [|done]. injection Ho as <- <-. injection Et as -> ->.
    apply Hx, list_elem_of_fmap. by exists (topic', ps).
Qed.

Lemma insert_new_ok {A} (l : list (Topition * A)) (m : gmap Topition A) :
  NoDup l.*1 -> (forall k, k ∈ l.*1 -> m !! k = None) ->
  exists m', insert_new l m = Ok m' /\
    forall k v, m' !! k = Some v <-> (k, v) ∈ l \/ m !! k = Some v.
Proof.
  revert m. induction l as [|[k v] l IH]; intros m Hn Hm; cbn in *.
  { exists m. split; [done|]. set_solver. }
  apply NoDup_cons in Hn as [Hk Hn]. rewrite (Hm k) by set_solver.
  destruct (IH (<[k := v]> m) Hn) as (m' & -> & H).
  { intros k' Hk'. rewrite lookup_insert_ne by (intros ->; done). apply Hm. set_solver. }
  exists m'. split; [done|]. intros k' v'. rewrite H, elem_of_cons, lookup_insert_Some.
  split.
  - intros [Hin|[[-> ->]|[_ Hin]]]; auto.
  - intros [[[= -> ->]|Hin]|Hin]; [by auto|by auto|].
    right. right. split; [|done]. intros ->. rewrite Hm in Hin; [done|]. set_solver.
Qed.

Lemma detail_starts_ok d :
  exists starts, detail_starts d = Ok starts /\ forall t, starts !! t = offset_start <$> range_of d t.
Proof.
  unfold detail_starts.
  destruct (insert_new_ok (prod_map id offset_start <$> ranges (TxnDetail.produces d)) ∅) as (starts & -> & H).
  - rewrite <- list_fmap_compose. apply ranges_NoDup.
  - intros k _. apply lookup_empty.
  - exists starts. split; [done|]. intros t. apply option_eq. intros o. rewrite H, fmap_Some, lookup_empty.
    rewrite list_elem_of_fmap. split.
    + intros [([t' r] & [= -> ->] & Hr)|Hn]; [|done]. exists r. split; [by apply elem_of_ranges|done].
    + intros (r & Hr & ->). left. exists (t, r). split; [done|]. by apply elem_of_ranges.
Qed.

Lemma produced_ok m tid pid ep d :
  current_detail m tid pid ep = inr d ->
  exists p, produced m tid pid ep = Ok p /\ forall t, p !! t = range_of d t.
Proof.
  unfold current_detail, produced. destruct (Meta.transactions m !! tid) as [txn|]; [|done].
  destruct (Txn.producer txn =? pid); [|done]. cbn [negb].
  destruct (last_entry (Txn.epochs txn)) as [[e d']|] eqn:El; [|done].
  destruct (Z.eqb_spec ep e) as [->|]; [|done]. intros [= ->].
  apply last_entry_Some in El as [-> _].
  destruct (insert_new_ok (ranges (TxnDetail.produces d)) ∅) as (p & -> & H).
  - apply ranges_NoDup.
  - intros k _. apply lookup_empty.
  - exists p. split; [done|]. intros t. apply option_eq. intros r. rewrite H, lookup_empty, elem_of_ranges.
    naive_solver.
Qed.

Lemma elem_of_details m id txn e d :
  (id, txn, e, d) ∈ details m <-> Meta.transactions m !! id = Some txn /\ Txn.epochs txn !! e = Some d.
Proof.
  unfold details. rewrite list_elem_of_In, in_flat_map. split.
  - intros ([id' txn'] & Hx & Hin). apply list_elem_of_In in Hx, Hin.
    apply list_elem_of_fmap in Hin as ([e' d'] & [= -> -> -> ->] & He).
    apply elem_of_entries in Hx, He. done.
  - intros [H1 H2]. exists (id, txn). split; [by apply list_elem_of_In, elem_of_entries|].
    apply list_elem_of_In, list_elem_of_fmap. exists (e, d). split; [done|]. by apply elem_of_entries.
Qed.

(** An unresolved transaction wrote to [t] from [o] on. *)
Definition open_start (m : Meta) (t : Topition) (o : Z) : Prop :=
  exists id e d r, find_detail m id e = Some d /\ unresolved d = true /\ range_of d t = Some r /\ offset_start r = o.

(** [o] is the least of the offsets [P], or there are none. *)
Definition least (P : Z -> Prop) (o : option Z) : Prop :=
  match o with Some o => P o /\ forall o', P o' -> o <= o' | None => forall o', ~ P o' end.

Lemma lower_floor_lookup floors t o k :
  lower_floor floors (t, o) !! k =
    if decide (k = t) then Some (match floors !! t with Some e => Z.min e o | None => o end) else floors !! k.
Proof.
  unfold lower_floor. cbn. destruct (floors !! t) as [e|] eqn:Ef; [destruct (Z.ltb_spec o e)|].
  all: case_decide; subst; rewrite ?lookup_insert_eq, ?Ef, ?lookup_insert_ne by done; repeat f_equal; lia || done.
Qed.

Lemma foldl_lower_floor l floors k :
  NoDup l.*1 ->
  foldl lower_floor floors l !! k =
    match (list_to_map l : gmap Topition Z) !! k, floors !! k with
    | Some o, Some e => Some (Z.min e o) | Some o, None => Some o | None, e => e
    end.
Proof.
  revert floors. induction l as [|[t o] l IH]; intros floors Hn; cbn [foldl].
  { cbn. rewrite lookup_empty. done. }
  apply NoDup_cons in Hn as [Ht Hn]. rewrite IH by done. cbn [list_to_map foldr]. rewrite lower_floor_lookup.
  case_decide as Hk; subst.
  - cbn. rewrite lookup_insert_eq, not_elem_of_list_to_map_1 by done. by destruct (floors !! t).
  - cbn. by rewrite lookup_insert_ne.
Qed.

Lemma entries_of_to_map {K V} `{Countable K} `{!KeyOrder K} (m : gmap K V) : list_to_map (entries_of m) = m.
Proof.
  transitivity (list_to_map (map_to_list m) : gmap K V); [|apply list_to_map_to_list].
  apply list_to_map_proper; [apply entries_of_NoDup|apply entries_of_perm].
Qed.

Definition starts_in (ds : list TxnDetail) (t : Topition) (o : Z) : Prop :=
  exists d r, d ∈ ds /\ range_of d t = Some r /\ offset_start r = o.

Lemma starts_in_cons d ds t o :
  starts_in (d :: ds) t o <-> (exists r, range_of d t = Some r /\ offset_start r = o) \/ starts_in ds t o.
Proof.
  unfold starts_in. split.
  - intros (d' & r & [->|Hd]%elem_of_cons & H); [left|right]; eauto.
  - intros [(r & H)|(d' & r & Hd & H)].
    + exists d, r. split; [by left|done].
    + exists d', r. split; [by right|done].
Qed.

Lemma least_iff (P Q : Z -> Prop) o : (forall x, P x <-> Q x) -> least P o -> least Q o.
Proof. intros H. destruct o; cbn; setoid_rewrite H; done. Qed.

Lemma floors_fold ds floors (P : Topition -> Z -> Prop) :
  (forall t, least (P t) (floors !! t)) ->
  exists floors', foldl (fun floors d =>
      let! floors := floors in let! starts := detail_starts d in Ok (foldl lower_floor floors (entries_of starts)))
      (Ok floors) ds = Ok floors' /\
    forall t, least (fun o => P t o \/ starts_in ds t o) (floors' !! t).
Proof.
  revert floors P. induction ds as [|d ds IH]; intros floors P HP; cbn [foldl].
  { exists floors. split; [done|]. intros t. eapply least_iff; [|apply HP]. intros o.
    split; [by left|]. intros [?|(d & r & Hd & _)]; [done|by apply elem_of_nil in Hd]. }
  destruct (detail_starts_ok d) as (starts & -> & Hs). cbn [rbind].
  destruct (IH (foldl lower_floor floors (entries_of starts)) (fun t o => P t o \/ exists r, range_of d t = Some r /\ offset_start r = o))
    as (floors' & -> & H).
  - intros t. rewrite foldl_lower_floor by apply entries_of_NoDup. rewrite entries_of_to_map, Hs.
    specialize (HP t).
    destruct (range_of d t) as [r|] eqn:Er, (floors !! t) as [e|] eqn:Ef; cbn in *.
    + destruct HP as [H1 H2]. split.
      * destruct (Z.min_spec e (offset_start r)) as [[_ ->]|[_ ->]]; eauto.
      * intros o' [?%H2|(r' & [= <-] & <-)]; lia.
    + split; [eauto|]. intros o' [Ho|(r' & [= <-] & <-)]; [by apply HP in Ho|done].
    + split; [left; apply HP|]. intros o' [?|(r' & ? & _)]; [by apply HP|done].
    + intros o' [?%HP|(r' & ? & _)]; done.
  - exists floors'. split; [done|]. intros t. eapply least_iff; [|apply H]. intros o.
    rewrite starts_in_cons. tauto.
Qed.

Lemma floors_least m :
  exists floors, open_transaction_floors m = Ok floors /\ forall t, least (open_start m t) (floors !! t).
Proof.
  destruct (floors_fold (filter (fun d => unresolved d = true) (snd <$> details m)) ∅ (fun _ _ => False))
    as (floors & Hf & H).
  { intros t. rewrite lookup_empty. cbn. tauto. }
  exists floors. split; [exact Hf|]. intros t. eapply least_iff; [|apply H]. intros o.
  unfold starts_in, open_start, find_detail. split.
  - intros [[]|(d & r & Hd & Hr & Ho)].
    apply list_elem_of_filter in Hd as [Hu Hd]. apply list_elem_of_fmap in Hd as ([[[id txn] e] d'] & -> & Hd).
    apply elem_of_details in Hd as [H1 H2]. exists id, e, d', r. by rewrite H1.
  - intros (id & e & d & r & Hd & Hu & Hr & Ho). right. exists d, r. split; [|done].
    apply list_elem_of_filter. split; [done|]. apply list_elem_of_fmap.
    destruct (Meta.transactions m !! id) as [txn|] eqn:Et; [|done].
    exists (id, txn, e, d). split; [done|]. by apply elem_of_details.
Qed.

(** ** Details, one at a time *)

Lemma last_entry_iff {V} (m : gmap Z V) k v :
  last_entry m = Some (k, v) <-> m !! k = Some v /\ forall k', is_Some (m !! k') -> k' <= k.
Proof.
  split; [apply last_entry_Some|]. intros [Hv Hk]. rewrite <- (insert_id m k v) by done.
  by apply last_entry_insert.
Qed.

Lemma last_entry_alter {V} (g : V -> V) k (m : gmap Z V) :
  last_entry (alter g k m) = (fun x => (x.1, if decide (x.1 = k) then g x.2 else x.2)) <$> last_entry m.
Proof.
  destruct (last_entry m) as [[e v]|] eqn:El; cbn.
  - apply last_entry_iff in El as [Hv He]. apply last_entry_iff. split.
    + rewrite lookup_alter. case_decide as Hk; case_decide; subst; try done; by rewrite Hv.
    + intros k' Hk'. apply He. rewrite lookup_alter in Hk'. case_decide as Hk; [|done].
      subst. by destruct (m !! k').
  - apply last_entry_None in El as ->. apply last_entry_None. apply map_eq. intros k'.
    rewrite lookup_alter, lookup_empty. by case_decide.
Qed.

Lemma find_alter g id e m id' e' :
  find_detail (alter_detail g id e m) id' e' =
    (if decide (id' = id /\ e' = e) then g else (fun d => d)) <$> find_detail m id' e'.
Proof.
  unfold find_detail, alter_detail. cbn. rewrite lookup_alter.
  case_decide as Hid; [subst id'|].
  - destruct (Meta.transactions m !! id) as [txn|]; cbn; [|done].
    rewrite lookup_alter. case_decide as He; [subst e'; by rewrite decide_True|].
    rewrite decide_False by naive_solver. by rewrite option_fmap_id.
  - rewrite decide_False by naive_solver. by rewrite option_fmap_id.
Qed.

Lemma find_alter_eq g id e m : find_detail (alter_detail g id e m) id e = g <$> find_detail m id e.
Proof. rewrite find_alter. by rewrite decide_True. Qed.

Lemma find_alter_ne g id e m id' e' :
  (id', e') <> (id, e) -> find_detail (alter_detail g id e m) id' e' = find_detail m id' e'.
Proof. intros H. rewrite find_alter, decide_False by naive_solver. apply option_fmap_id. Qed.

Lemma current_find m tid pid ep d : current_detail m tid pid ep = inr d -> find_detail m tid ep = Some d.
Proof.
  unfold current_detail, find_detail. destruct (Meta.transactions m !! tid) as [txn|]; [|done].
  destruct (Txn.producer txn =? pid); [|done]. cbn.
  destruct (last_entry (Txn.epochs txn)) as [[e d']|] eqn:El; [|done].
  destruct (Z.eqb_spec ep e) as [->|]; [|done]. intros [= ->]. by apply last_entry_Some in El as [-> _].
Qed.

(** Changing details moves nobody's epoch. *)
Lemma current_alter g id e m tid pid ep :
  current_detail (alter_detail g id e m) tid pid ep =
    match current_detail m tid pid ep with
    | inl code => inl code
    | inr d => inr (if decide (tid = id /\ ep = e) then g d else d)
    end.
Proof.
  unfold current_detail, alter_detail. cbn. rewrite lookup_alter.
  destruct (decide (id = tid)) as [->|Hid].
  - destruct (Meta.transactions m !! tid) as [txn|]; cbn; [|done].
    destruct (Txn.producer txn =? pid); [|done]. cbn. rewrite last_entry_alter.
    destruct (last_entry (Txn.epochs txn)) as [[k d]|]; cbn; [|done].
    destruct (Z.eqb_spec ep k) as [->|]; [|done]. cbn. repeat case_decide; naive_solver.
  - destruct (Meta.transactions m !! tid) as [txn|]; [|done].
    destruct (Txn.producer txn =? pid); [|done]. cbn.
    destruct (last_entry (Txn.epochs txn)) as [[k d]|]; [|done].
    destruct (Z.eqb_spec ep k) as [->|]; [|done]. cbn. by rewrite decide_False by naive_solver.
Qed.

(** ** Offsets, one at a time *)

Definition offset_at (o : GroupOffsetsToCommit) (group topic : bytes) (partition : Z) : option TxnCommitOffset :=
  o !! group ≫= fun topics => topics !! topic ≫= fun partitions => partitions !! partition.

Lemma offset_at_put group topic o x g t p :
  offset_at (put_offset group topic o x) g t p =
    if decide (g = group /\ t = topic /\ p = x.1) then Some x.2 else offset_at o g t p.
Proof.
  unfold offset_at, put_offset. rewrite lookup_insert. destruct (decide (group = g)) as [->|Hg]; cbn.
  - rewrite lookup_insert. destruct (decide (topic = t)) as [->|Ht]; cbn.
    + rewrite lookup_insert. destruct (decide (x.1 = p)) as [<-|Hp]; cbn.
      * by rewrite decide_True.
      * rewrite decide_False by naive_solver.
        destruct (o !! g) as [topics|]; cbn; [|by rewrite lookup_empty].
        destruct (topics !! t); cbn; [done|by rewrite lookup_empty].
    + rewrite decide_False by naive_solver. destruct (o !! g); cbn; [done|by rewrite lookup_empty].
  - by rewrite decide_False by naive_solver.
Qed.

Lemma offset_at_partitions group topic l o g t p :
  NoDup l.*1 ->
  offset_at (foldl (put_offset group topic) o l) g t p =
    match (if decide (g = group /\ t = topic) then (list_to_map l : gmap Z TxnCommitOffset) !! p else None) with
    | Some c => Some c | None => offset_at o g t p
    end.
Proof.
  revert o. induction l as [|[q c] l IH]; intros o Hn; cbn [foldl].
  { case_decide; [cbn; by rewrite lookup_empty|done]. }
  apply NoDup_cons in Hn as [Hq Hn]. rewrite IH by done. rewrite offset_at_put. cbn [fst snd].
  destruct (decide (g = group /\ t = topic)) as [[-> ->]|Hgt]; [|by rewrite decide_False by naive_solver].
  cbn [list_to_map foldr]. cbn. rewrite lookup_insert. destruct (decide (q = p)) as [->|Hp].
  - rewrite not_elem_of_list_to_map_1 by done. by rewrite decide_True.
  - by rewrite decide_False by naive_solver.
Qed.

Lemma offset_at_topics group l o g t p :
  NoDup l.*1 ->
  offset_at (foldl (fun o '(topic, partitions) => foldl (put_offset group topic) o (entries_of partitions)) o l) g t p =
    match (if decide (g = group) then
             (list_to_map l : gmap bytes (gmap Z TxnCommitOffset)) !! t ≫= lookup p else None) with
    | Some c => Some c | None => offset_at o g t p
    end.
Proof.
  revert o. induction l as [|[topic ps] l IH]; intros o Hn; cbn [foldl].
  { case_decide; [cbn; by rewrite lookup_empty|done]. }
  apply NoDup_cons in Hn as [Hq Hn]. rewrite IH by done.
  rewrite offset_at_partitions by apply entries_of_NoDup. rewrite entries_of_to_map.
  destruct (decide (g = group)) as [->|Hg]; [|by rewrite decide_False by naive_solver].
  cbn [list_to_map foldr]. cbn. rewrite lookup_insert. destruct (decide (topic = t)) as [->|Ht].
  - rewrite not_elem_of_list_to_map_1 by done. by rewrite decide_True.
  - by rewrite decide_False by naive_solver.
Qed.

(** What is copied wins over what was there. *)
Lemma offset_at_copy from o g t p :
  offset_at (copy_offsets from o) g t p =
    match offset_at from g t p with Some c => Some c | None => offset_at o g t p end.
Proof.
  unfold copy_offsets, offset_at at 2. rewrite <- (entries_of_to_map from) at 2.
  pose proof (entries_of_NoDup from) as Hn. revert o Hn. generalize (entries_of from). intros l.
  induction l as [|[group topics] l IH]; intros o Hn; cbn [foldl].
  { cbn. by rewrite lookup_empty. }
  apply NoDup_cons in Hn as [Hq Hn]. rewrite IH by done.
  rewrite offset_at_topics by apply entries_of_NoDup. rewrite entries_of_to_map.
  cbn [list_to_map foldr]. cbn. rewrite lookup_insert. destruct (decide (group = g)) as [->|Hg].
  - rewrite not_elem_of_list_to_map_1 by done. cbn. by rewrite decide_True.
  - by rewrite decide_False by naive_solver.
Qed.
