(* ===== verification/Transactions.v ===== *)
(** * Transactions: the transactional requests and what readers see

    [end_txn], [init_producer_id] and [add_txn_partitions] of
    [tansu-storage/src/dynostore/txn.rs] over the closures of [TxnMeta], the
    read-committed half of [offset_stage] and [list_offsets] of
    [dynostore/storage.rs], and the [EndTxn] service.

    The first part is one request at a time, against any failures of the store;
    the second is every history of closures that any number of brokers can
    produce, through [OptiCon]. *)

From S2P Require Export TxnMeta.

(** ** EndTxn *)

(** What an [OffsetCommit] is asked to store for a partition. *)
Module OffsetCommitRequest.
Record OffsetCommitRequest := mk {
  offset : Z;
  leader_epoch : option Z;
  timestamp : option Z;
  metadata : option bytes;
}.
End OffsetCommitRequest.
Export OffsetCommitRequest (OffsetCommitRequest).

#[export] Instance offset_commit_request_eq_dec : EqDecision OffsetCommitRequest.
Proof. solve_decision. Defined.

Definition to_commit_request (c : TxnCommitOffset) : OffsetCommitRequest :=
  OffsetCommitRequest.mk (committed_offset c) (co_leader_epoch c) None (co_metadata c).

(** The list handed to [offset_commit] for one group. *)
Definition group_commits (topics : gmap bytes (gmap Z TxnCommitOffset)) : list (Topition * OffsetCommitRequest) :=
  flat_map (fun '(topic, partitions) =>
    (fun '(partition, c) => (Topition.mk topic partition, to_commit_request c)) <$> entries_of partitions)
    (entries_of topics).

(** What a request meets: whether each write of the document is answered, the
    offset the append of a marker is acknowledged with, whether its registration
    is, what [offset_commit] answers (its codes are not looked at), and whether
    the write of a producer's own document is answered. *)
Record Env := mkEnv {
  prepare_fault : option error;
  append_marker : Topition -> result Z;
  register_fault : Topition -> option error;
  resolve_fault : option error;
  offset_commit : bytes -> list (Topition * OffsetCommitRequest) -> result (list (Topition * Z));
  seed_fault : Z -> option error;
}.

(** The document, and what the request did besides: the partitions it appended a
    marker to, and the commits it made. *)
Record Run := mkRun {
  doc : Meta;
  markers : list Topition;
  commits : list (bytes * list (Topition * OffsetCommitRequest));
}.

#[export] Instance run_eq_dec : EqDecision Run.
Proof. solve_decision. Defined.

(** A [with_mut] whose write may fail. *)
Definition guarded {A} (fault : option error) (closure : Meta -> Meta * result A) (m : Meta) : Meta * result A :=
  match fault with
  | Some e => (m, Err e)
  | None => closure m
  end.

(** The markers: one record each, so the batch ends at its base offset. *)
Fixpoint write_markers (env : Env) (tid : bytes) (epoch : Z) (ts : list Topition) (s : Run) : Run * result unit :=
  match ts with
  | [] => (s, Ok tt)
  | t :: ts =>
      match append_marker env t with
      | Ok offset =>
          let s := mkRun (doc s) (markers s ++ [t]) (commits s) in
          match guarded (register_fault env t) (register tid epoch t offset 0) (doc s) with
          | (m, Ok _) => write_markers env tid epoch ts (mkRun m (markers s) (commits s))
          | (m, Err e) => (mkRun m (markers s) (commits s), Err e)
          | (m, Panic p) => (mkRun m (markers s) (commits s), Panic p)
          end
      | Err e => (s, Err e)
      | Panic p => (s, Panic p)
      end
  end.

Fixpoint commit_groups (env : Env) (l : list (bytes * gmap bytes (gmap Z TxnCommitOffset))) (s : Run)
    : Run * result unit :=
  match l with
  | [] => (s, Ok tt)
  | (group, topics) :: l =>
      let offsets := group_commits topics in
      match offset_commit env group offsets with
      | Ok _ => commit_groups env l (mkRun (doc s) (markers s) (commits s ++ [(group, offsets)]))
      | Err e => (s, Err e)
      | Panic p => (s, Panic p)
      end
  end.

Definition end_txn (env : Env) (tid : bytes) (producer_id producer_epoch : Z) (committed : bool) (m : Meta)
    : Run * result Z :=
  match guarded (prepare_fault env) (prepare tid producer_id producer_epoch committed) m with
  | (m, Err e) => (mkRun m [] [], Err e)
  | (m, Panic p) => (mkRun m [] [], Panic p)
  | (m, Ok produced) =>
      match write_markers env tid producer_epoch produced (mkRun m [] []) with
      | (s, Err e) => (s, Err e)
      | (s, Panic p) => (s, Panic p)
      | (s, Ok _) =>
          match guarded (resolve_fault env) (resolve tid producer_id producer_epoch committed) (doc s) with
          | (m, Err e) => (mkRun m (markers s) (commits s), Err e)
          | (m, Panic p) => (mkRun m (markers s) (commits s), Panic p)
          | (m, Ok o) =>
              let '(s, r) := commit_groups env (entries_of o) (mkRun m (markers s) (commits s)) in
              (s, let! _ := r in Ok NONE)
          end
      end
  end.

(** [storage_error_code]; an object-store error is [NotFound] or [Transport]. *)
Definition KafkaStorageError : Z := 56.
Definition CorruptMessage : Z := 2.
Definition storage_error_code (e : error) : Z :=
  match e with
  | NotFound | Transport => KafkaStorageError
  | CorruptSegment _ | DivergentBatch _ => CorruptMessage
  | _ => UnknownServerError
  end.

(** [EndService]: every error is an answer. *)
Definition end_service (r : result Z) : result Z :=
  match r with
  | Ok code => Ok code
  | Err (Api code) => Ok code
  | Err e => Ok (storage_error_code e)
  | Panic p => Panic p
  end.

(** ** InitProducerId *)

(** The producers' own documents. *)
Abbreviation Producers := (gmap Z ProducerDetail).

(** [self.seed_producer(&response).await?] before an answer. *)
Definition seeded (env : Env) (r : ProducerIdResponse) (m : Meta) (ps : Producers)
    : Meta * Producers * result ProducerIdResponse :=
  if negb (ProducerIdResponse.error r =? NONE) || (ProducerIdResponse.id r <? 0) then (m, ps, Ok r)
  else
    match seed_fault env (ProducerIdResponse.id r) with
    | Some e => (m, ps, Err e)
    | None =>
        (m, <[ProducerIdResponse.id r :=
                seed_producer r (default (mkProducerDetail ∅) (ps !! ProducerIdResponse.id r))]> ps, Ok r)
    end.

(** [fuel] bounds the rollbacks; one is enough when nobody begins a transaction
    in between ([restart_takes_over]). *)
Fixpoint init_producer_id (fuel : nat) (env : Env) (tid : option bytes) (timeout : Z)
    (producer_id producer_epoch : option Z) (m : Meta) (ps : Producers)
    : Meta * Producers * result ProducerIdResponse :=
  match tid with
  | Some id =>
      match init_transactional id timeout producer_id producer_epoch m with
      | (m, Ok (Completed r)) => seeded env r m ps
      | (m, Ok (NeedToRollback rollback_id rollback_epoch)) =>
          match fuel with
          | O => (m, ps, Panic OutOfFuel)
          | S fuel =>
              match end_txn env id rollback_id rollback_epoch false m with
              | (s, Ok code) =>
                  if code =? NONE
                  then init_producer_id fuel env tid timeout producer_id producer_epoch (doc s) ps
                  else (doc s, ps, Ok ProducerIdResponse.refused)
              | (s, Err e) => (doc s, ps, Err e)
              | (s, Panic p) => (doc s, ps, Panic p)
              end
          end
      | (m, Err e) => (m, ps, Err e)
      | (m, Panic p) => (m, ps, Panic p)
      end
  | None =>
      match init_idempotent producer_id producer_epoch m with
      | (m, Ok r) => seeded env r m ps
      | (m, Err e) => (m, ps, Err e)
      | (m, Panic p) => (m, ps, Panic p)
      end
  end.

(** ** AddPartitionsToTxn *)

Definition add_txn_partitions (r : TxnAddPartitionsRequest) (now : Z) (m : Meta) : Meta * result TopicCodes :=
  match r with
  | VersionZeroToThree tid producer_id producer_epoch topics =>
      add_txn_partitions_closure tid producer_id producer_epoch topics now m
  | VersionFourPlus => (m, Err (Api UnsupportedVersion))
  end.

Definition txn_add_offsets (tid : bytes) (producer_id producer_epoch : Z) (group : bytes) : result Z := Ok NONE.

(** ** What a read-committed reader is told *)

Module OffsetStage.
Record OffsetStage := mk {
  last_stable : Z;
  high_watermark : Z;
  log_start : Z;
  aborted : list (Z * Z);
}.
End OffsetStage.
Export OffsetStage (OffsetStage).

(** The aborted ranges on a partition: producer, first and last offset. *)
Definition aborted_raw (m : Meta) (t : Topition) : list (Z * Z * Z) :=
  omap (fun '(_, txn, _, d) =>
    if bool_decide (TxnDetail.state d = Some Aborted)
    then
      match TxnDetail.produces d !! Topition.topic t ≫= lookup (Topition.partition t) with
      | Some (Some range) => Some (Txn.producer txn, offset_start range, offset_end range)
      | _ => None
      end
    else None) (details m).

Definition by_first_offset (a b : Z * Z) : Prop := a.2 <= b.2.
#[export] Instance by_first_offset_dec : RelDecision by_first_offset.
Proof. intros a b. unfold by_first_offset. apply _. Defined.
#[export] Instance by_first_offset_total : Total by_first_offset.
Proof. intros a b. unfold by_first_offset. lia. Qed.
#[export] Instance by_first_offset_trans : Transitive by_first_offset.
Proof. intros a b c. unfold by_first_offset. lia. Qed.

Definition aborted_from (log_start : Z) (raw : list (Z * Z * Z)) : list (Z * Z) :=
  merge_sort by_first_offset (fst <$> filter (fun x => log_start <= x.2) raw).

(** [offset_stage], given the watermark and the log start it reads besides. *)
Definition offset_stage (m : Meta) (t : Topition) (high_watermark log_start : Z) : result OffsetStage :=
  let! stable := open_transaction_floors m in
  Ok (OffsetStage.mk (default high_watermark (stable !! t)) high_watermark log_start
        (aborted_from log_start (aborted_raw m t))).

Inductive IsolationLevel := ReadUncommitted | ReadCommitted.
#[export] Instance isolation_eq_dec : EqDecision IsolationLevel.
Proof. solve_decision. Defined.

Definition offset_stage_at (m : Meta) (t : Topition) (isolation : IsolationLevel) (high_watermark log_start : Z)
    : result OffsetStage :=
  match isolation with
  | ReadCommitted => offset_stage m t high_watermark log_start
  | ReadUncommitted => Ok (OffsetStage.mk high_watermark high_watermark log_start [])
  end.

(** [list_offset_response] for [ListOffset::Latest], under [list_offsets]. *)
Definition list_latest (m : Meta) (t : Topition) (isolation : IsolationLevel) (high_watermark : Z) : result Z :=
  let! stable :=
    match isolation with ReadCommitted => open_transaction_floors m | ReadUncommitted => Ok ∅ end in
  Ok match stable !! t with Some last_stable => last_stable | None => high_watermark end.

(** ** Histories

    Every write of the document is one of these closures. *)

Inductive TxnEvent :=
  | InitTransactional (tid : bytes) (timeout : Z) (producer_id producer_epoch : option Z)
  | InitIdempotent (producer_id producer_epoch : option Z)
  | AddPartitions (tid : bytes) (producer_id producer_epoch : Z) (topics : list AddTopic) (now : Z)
  | Register (tid : bytes) (producer_epoch : Z) (t : Topition) (offset last_offset_delta : Z)
  | OffsetCommit (r : TxnOffsetCommitRequest)
  | Prepare (tid : bytes) (producer_id producer_epoch : Z) (committed : bool)
  | Resolve (tid : bytes) (producer_id producer_epoch : Z) (committed : bool).

Inductive TxnAnswer :=
  | Initialised (i : InitProducer)
  | Identified (r : ProducerIdResponse)
  | Codes (c : TopicCodes)
  | Registered
  | ToMark (l : list Topition)
  | ToCommit (o : GroupOffsetsToCommit).

Definition apply_event (e : TxnEvent) (m : Meta) : Meta * result TxnAnswer :=
  match e with
  | InitTransactional tid timeout pid ep => prod_map id (rmap Initialised) (init_transactional tid timeout pid ep m)
  | InitIdempotent pid ep => prod_map id (rmap Identified) (init_idempotent pid ep m)
  | AddPartitions tid pid ep topics now =>
      prod_map id (rmap Codes) (add_txn_partitions_closure tid pid ep topics now m)
  | Register tid ep t offset delta => prod_map id (rmap (fun _ => Registered)) (register tid ep t offset delta m)
  | OffsetCommit r => prod_map id (rmap Codes) (txn_offset_commit r m)
  | Prepare tid pid ep committed => prod_map id (rmap ToMark) (prepare tid pid ep committed m)
  | Resolve tid pid ep committed => prod_map id (rmap ToCommit) (resolve tid pid ep committed m)
  end.

(** ** What no closure takes back *)

(** The producer was given this epoch. *)
Definition handed (m : Meta) (id epoch : Z) : Prop :=
  exists pd, Meta.producers m !! id = Some pd /\ is_Some (sequences pd !! epoch).

(** Producers, their epochs, and the transactions' producers and epochs stay. *)
Record grows (m m' : Meta) : Prop := mkGrows {
  grows_handed id epoch : handed m id epoch -> handed m' id epoch;
  grows_txn tid txn : Meta.transactions m !! tid = Some txn ->
    exists txn', Meta.transactions m' !! tid = Some txn' /\ Txn.producer txn' = Txn.producer txn /\
      forall e, is_Some (Txn.epochs txn !! e) -> is_Some (Txn.epochs txn' !! e);
}.

#[export] Instance grows_refl : Reflexive grows.
Proof. intros m. split; [done|]. eauto. Qed.
#[export] Instance grows_trans : Transitive grows.
Proof.
  intros m1 m2 m3 [H1 T1] [H2 T2]. split; [auto|]. intros tid txn Ht.
  destruct (T1 _ _ Ht) as (txn' & Ht' & Hp & He). destruct (T2 _ _ Ht') as (txn'' & Ht'' & Hp' & He').
  exists txn''. split; [done|]. split; [congruence|auto].
Qed.

(** The document as [InitProducerId] leaves it: a transactional id has a producer
    of its own, known with the same epochs. *)
Record meta_ok (m : Meta) : Prop := mkMetaOk {
  mok_producer tid txn : Meta.transactions m !! tid = Some txn ->
    exists pd, Meta.producers m !! Txn.producer txn = Some pd /\
      forall e, is_Some (sequences pd !! e) <-> is_Some (Txn.epochs txn !! e);
  mok_own tid tid' txn txn' : Meta.transactions m !! tid = Some txn -> Meta.transactions m !! tid' = Some txn' ->
    Txn.producer txn = Txn.producer txn' -> tid = tid';
  mok_epochs tid txn : Meta.transactions m !! tid = Some txn -> Txn.epochs txn <> ∅;
  mok_range tid txn e : Meta.transactions m !! tid = Some txn -> is_Some (Txn.epochs txn !! e) -> in_i16 e = true;
}.

Lemma alter_detail_grows g id e m : grows m (alter_detail g id e m).
Proof.
  split; [done|]. intros tid txn Ht. unfold alter_detail. cbn. rewrite lookup_alter.
  case_decide as Hid; [|by exists txn]. subst. rewrite Ht. cbn.
  eexists. split; [done|]. split; [done|]. cbn. intros e' [d Hd]. rewrite lookup_alter.
  case_decide; [subst; by rewrite Hd|by rewrite Hd].
Qed.

Lemma alter_detail_ok g id e m : meta_ok m -> meta_ok (alter_detail g id e m).
Proof.
  intros [H1 H2 H3 H4].
  assert (Hx : forall tid txn', Meta.transactions (alter_detail g id e m) !! tid = Some txn' ->
    exists txn, Meta.transactions m !! tid = Some txn /\ Txn.producer txn' = Txn.producer txn /\
      forall e, is_Some (Txn.epochs txn' !! e) <-> is_Some (Txn.epochs txn !! e)).
  { intros tid txn'. unfold alter_detail. cbn. rewrite lookup_alter. case_decide; [|by exists txn'].
    intros (txn & Ht & ->)%fmap_Some. subst. exists txn. split; [done|]. split; [done|]. cbn. intros e'.
    rewrite lookup_alter. case_decide; [subst|done]. by destruct (Txn.epochs txn !! e'). }
  split.
  - intros tid txn' (txn & Ht & Hp & He)%Hx. destruct (H1 _ _ Ht) as (pd & Hpd & Hs).
    exists pd. rewrite Hp. split; [done|]. intros e'. by rewrite He.
  - intros tid tid' t1 t2 (x1 & E1 & P1 & _)%Hx (x2 & E2 & P2 & _)%Hx Hp. eapply H2; [done|done|congruence].
  - intros tid txn' (txn & Ht & Hp & He)%Hx Hemp. destruct (map_choose _ (H3 _ _ Ht)) as (k & d & Hk).
    assert (is_Some (Txn.epochs txn' !! k)) as [d' Hd'] by (apply He; eauto).
    by rewrite Hemp, lookup_empty in Hd'.
  - intros tid txn' e' (txn & Ht & Hp & He)%Hx Hs. eapply H4; [done|]. by apply He.
Qed.

(** A document some details of which were changed. *)
Inductive altered (m : Meta) : Meta -> Prop :=
  | altered_none : altered m m
  | altered_one g id e m' : altered m m' -> altered m (alter_detail g id e m').

Lemma altered_grows m m' : altered m m' -> grows m m'.
Proof. induction 1; [done|]. etransitivity; [done|]. apply alter_detail_grows. Qed.

Lemma altered_ok m m' : altered m m' -> meta_ok m -> meta_ok m'.
Proof. induction 1; [done|]. intros Hok. by apply alter_detail_ok, IHaltered. Qed.

Lemma resolve_one_altered m acc x : altered m acc.1 -> altered m (resolve_one acc x).1.
Proof.
  destruct acc as [m' o]. intros H. unfold resolve_one. destruct (find_detail _ _ _); [|done].
  destruct (resolution _); [|done]. by constructor.
Qed.

Lemma foldl_resolve_altered m l acc : altered m acc.1 -> altered m (foldl resolve_one acc l).1.
Proof. revert acc. induction l as [|x l IH]; intros acc H; cbn; [done|]. by apply IH, resolve_one_altered. Qed.

Lemma resolve_altered tid pid ep committed m : altered m (resolve tid pid ep committed m).1.
Proof.
  unfold resolve. destruct (current_detail _ _ _ _); [constructor|].
  destruct (overlapping_transactions _ _ _ _) as [xs|e|p]; [|constructor..].
  destruct (forallb _ _); [|constructor].
  pose proof (foldl_resolve_altered m (xs ++ [TxnId.mk tid pid ep (if committed then PrepareCommit else PrepareAbort)])
    (m, ∅) (altered_none m)) as H.
  by destruct (foldl resolve_one _ _) as [m' o].
Qed.

(** Every closure but [InitProducerId]'s changes details only. *)
Definition initialises (e : TxnEvent) : bool :=
  match e with InitTransactional _ _ _ _ | InitIdempotent _ _ => true | _ => false end.

Lemma event_altered e m : initialises e = false -> altered m (apply_event e m).1.
Proof.
  destruct e; try done; intros _; cbn.
  - unfold add_txn_partitions_closure. destruct (current_detail _ _ _ _); repeat constructor.
  - repeat constructor.
  - unfold txn_offset_commit. destruct (current_detail _ _ _ _); repeat constructor.
  - unfold prepare. destruct (current_detail _ _ _ _); [constructor|]. case_bool_decide; repeat constructor.
  - pose proof (resolve_altered tid producer_id producer_epoch committed m) as H.
    by destruct (resolve _ _ _ _ _).
Qed.

(** ** InitProducerId *)

Lemma next_producer_fresh m :
  forall ps, insert_producer m (next_producer m) = Ok ps ->
  Meta.producers m !! next_producer m = None /\ ps = <[next_producer m := mkProducerDetail {[0 := ∅]}]> (Meta.producers m).
Proof. unfold insert_producer. intros ps. destruct (Meta.producers m !! _); [done|]. by intros [= <-]. Qed.

Lemma insert_fresh_handed m id pd ts :
  Meta.producers m !! id = None ->
  forall k e, handed m k e -> handed (Meta.mk (<[id := pd]> (Meta.producers m)) ts) k e.
Proof.
  intros Hn k e (pd' & Hk & He). exists pd'. cbn. split; [|done].
  rewrite lookup_insert_ne; [done|]. intros ->. congruence.
Qed.

(** What [InitProducerId] gives out is new, and remembered. *)
Record issues (m m' : Meta) (id epoch : Z) : Prop := mkIssues {
  issues_fresh : ~ handed m id epoch;
  issues_handed : handed m' id epoch;
}.

Lemma fresh_issues m id ts :
  Meta.producers m !! id = None ->
  issues m (Meta.mk (<[id := mkProducerDetail {[0 := ∅]}]> (Meta.producers m)) ts) id 0.
Proof.
  intros Hn. split.
  - intros (pd & Hpd & _). congruence.
  - eexists. cbn. rewrite lookup_insert_eq. split; [done|]. cbn. by rewrite lookup_singleton_eq.
Qed.

Lemma init_vacant_spec tid timeout m m' i :
  meta_ok m -> Meta.transactions m !! tid = None -> init_vacant tid timeout m = Ok (m', i) ->
  grows m m' /\ meta_ok m' /\ exists id, i = Completed (ProducerIdResponse.mk id 0 NONE) /\ issues m m' id 0 /\
    Meta.transactions m' !! tid = Some (Txn.mk id {[0 := TxnDetail.new timeout]}).
Proof.
  intros Hok Ht. unfold init_vacant.
  destruct (insert_producer m (next_producer m)) as [ps|e|p] eqn:Ei; [|done..]. cbn.
  apply next_producer_fresh in Ei as [Hn ->]. intros [= <- <-].
  split; [|split].
  - split; [by apply insert_fresh_handed|]. intros tid' txn Ht'. cbn. exists txn. split; [|done].
    rewrite lookup_insert_ne; [done|]. intros ->. congruence.
  - destruct Hok as [H1 H2 H3 H4].
    assert (Hne : forall tid' txn, Meta.transactions m !! tid' = Some txn -> Txn.producer txn <> next_producer m).
    { intros tid' txn Ht' Hp. destruct (H1 _ _ Ht') as (pd & Hpd & _). congruence. }
    split; cbn.
    + intros tid' txn. rewrite lookup_insert. case_decide as Hd.
      * intros [= <-]. cbn. rewrite lookup_insert_eq. eexists. split; [done|]. cbn. intros e.
        destruct (decide (e = 0)) as [->|]; [by rewrite !lookup_singleton_eq|by rewrite !lookup_singleton_ne].
      * intros Ht'. destruct (H1 _ _ Ht') as (pd & Hpd & Hs). exists pd. split; [|done].
        rewrite lookup_insert_ne; [done|]. intros Hp. by apply (Hne _ _ Ht').
    + intros t1 t2 x1 x2. rewrite !lookup_insert.
      repeat case_decide; subst; try done; intros E1 E2 Ep; simplify_eq/=; [..|by eapply H2].
      * by destruct (Hne _ _ E2).
      * by destruct (Hne _ _ E1).
    + intros tid' txn. rewrite lookup_insert. case_decide; [|by apply H3]. intros [= <-]. cbn. apply map_non_empty_singleton.
    + intros tid' txn e. rewrite lookup_insert. case_decide; [|by apply H4]. intros [= <-]. cbn.
      rewrite lookup_singleton. case_decide; [by subst|]. by intros [].
  - exists (next_producer m). split; [done|]. split; [by apply fresh_issues|]. cbn. apply lookup_insert_eq.
Qed.

Lemma bump_sequences_spec m id epoch ps :
  bump_sequences m id epoch = Ok ps ->
  match Meta.producers m !! id with
  | None => ps = Meta.producers m
  | Some pd => sequences pd !! epoch = None /\
      ps = <[id := mkProducerDetail (<[epoch := ∅]> (sequences pd))]> (Meta.producers m)
  end.
Proof.
  unfold bump_sequences. destruct (Meta.producers m !! id) as [pd|]; [|by intros [= <-]].
  destruct (sequences pd !! epoch); [done|]. by intros [= <-].
Qed.

(** The document with an epoch more for a transaction. *)
Definition with_epoch (m : Meta) (tid : bytes) (txn : Txn) (pd : ProducerDetail) (epoch timeout : Z) : Meta :=
  Meta.mk (<[Txn.producer txn := mkProducerDetail (<[epoch := ∅]> (sequences pd))]> (Meta.producers m))
    (<[tid := Txn.mk (Txn.producer txn) (<[epoch := TxnDetail.new timeout]> (Txn.epochs txn))]>
       (Meta.transactions m)).

Lemma with_epoch_grows m tid txn pd epoch timeout :
  Meta.transactions m !! tid = Some txn -> Meta.producers m !! Txn.producer txn = Some pd ->
  grows m (with_epoch m tid txn pd epoch timeout).
Proof.
  intros Ht Hpd. split.
  - intros id e (pd' & Hid & He). unfold handed. cbn. rewrite lookup_insert. case_decide as Hd; [|by exists pd'].
    subst. simplify_eq. eexists. split; [done|]. cbn. rewrite lookup_insert. by case_decide.
  - intros tid' txn' Ht'. cbn. rewrite lookup_insert. case_decide as Hd; [|by exists txn'].
    subst. simplify_eq. eexists. split; [done|]. split; [done|]. cbn. intros e He.
    rewrite lookup_insert. by case_decide.
Qed.

Lemma with_epoch_ok m tid txn pd epoch timeout :
  meta_ok m -> Meta.transactions m !! tid = Some txn -> Meta.producers m !! Txn.producer txn = Some pd ->
  in_i16 epoch = true -> meta_ok (with_epoch m tid txn pd epoch timeout).
Proof.
  intros [H1 H2 H3 H4] Ht Hpd Hr. split; cbn.
  - intros tid' txn'. rewrite lookup_insert. case_decide as Hd.
    + intros [= <-]. cbn. rewrite lookup_insert_eq. eexists. split; [done|]. cbn. intros e.
      destruct (H1 _ _ Ht) as (pd' & Hpd' & Hs). simplify_eq.
      rewrite !lookup_insert. case_decide; [|apply Hs]. split; intros _; by eexists.
    + intros Ht'. destruct (H1 _ _ Ht') as (pd' & Hpd' & Hs). exists pd'. split; [|done].
      rewrite lookup_insert_ne; [done|]. intros Hp. apply Hd. by eapply H2.
  - intros t1 t2 x1 x2. rewrite !lookup_insert.
    repeat case_decide; subst; try done; intros E1 E2 Ep; simplify_eq/=; by eapply H2.
  - intros tid' txn'. rewrite lookup_insert. case_decide; [|by apply H3]. intros [= <-]. cbn. apply insert_non_empty.
  - intros tid' txn' e. rewrite lookup_insert. case_decide as Hd; [|by apply H4]. intros [= <-]. cbn.
    rewrite lookup_insert. case_decide; [by subst|]. by apply (H4 tid).
Qed.

Lemma init_occupied_spec tid timeout txn m m' i :
  meta_ok m -> Meta.transactions m !! tid = Some txn -> init_occupied tid timeout txn m = Ok (m', i) ->
  exists current d, last_entry (Txn.epochs txn) = Some (current, d) /\
  ((TxnDetail.state d = Some Begin /\ m' = m /\ i = NeedToRollback (Txn.producer txn) current) \/
   exists pd, Meta.producers m !! Txn.producer txn = Some pd /\
     let epoch := wrap_s 16 (current + 1) in
     Txn.epochs txn !! epoch = None /\ sequences pd !! epoch = None /\
     TxnDetail.state d <> Some Begin /\
     m' = with_epoch m tid txn pd epoch timeout /\
     i = Completed (ProducerIdResponse.mk (Txn.producer txn) epoch NONE)).
Proof.
  intros Hok Ht. unfold init_occupied.
  destruct (last_entry (Txn.epochs txn)) as [[current d]|] eqn:El.
  2: { apply last_entry_None in El. by apply (mok_epochs _ Hok) in Ht. }
  intros Hi. exists current, d. split; [done|]. case_bool_decide as Hb; [left; naive_solver|]. right.
  destruct (mok_producer _ Hok _ _ Ht) as (pd & Hpd & _). exists pd. split; [done|]. cbn zeta in *.
  destruct (bump_sequences m (Txn.producer txn) (wrap_s 16 (current + 1))) as [ps|e|p] eqn:Eb; [|done..].
  apply bump_sequences_spec in Eb. rewrite Hpd in Eb. destruct Eb as [Hs ->]. cbn [rbind] in Hi.
  destruct (Txn.epochs txn !! wrap_s 16 (current + 1)) eqn:Ee; [done|]. injection Hi as <- <-. done.
Qed.

(** The id and epoch an answer carries. *)
Definition issued (a : TxnAnswer) : option (Z * Z) :=
  match a with
  | Initialised (Completed r) | Identified r =>
      if ProducerIdResponse.error r =? NONE
      then Some (ProducerIdResponse.id r, ProducerIdResponse.epoch r) else None
  | _ => None
  end.

Lemma init_transactional_spec tid timeout pid ep m :
  meta_ok m ->
  let '(m', r) := init_transactional tid timeout pid ep m in
  grows m m' /\ meta_ok m' /\
  forall x, r = Ok (Completed x) -> ProducerIdResponse.error x = NONE ->
    issues m m' (ProducerIdResponse.id x) (ProducerIdResponse.epoch x) /\
    exists txn, Meta.transactions m' !! tid = Some txn /\ Txn.producer txn = ProducerIdResponse.id x /\
      is_Some (Txn.epochs txn !! ProducerIdResponse.epoch x).
Proof.
  intros Hok. unfold init_transactional. case_bool_decide; [|cbn; naive_solver].
  destruct (Meta.transactions m !! tid) as [txn|] eqn:Et.
  - destruct (init_occupied tid timeout txn m) as [[m' i]|e|p] eqn:Ei; cbn; [|naive_solver..].
    destruct (init_occupied_spec _ _ _ _ _ _ Hok Et Ei) as (current & d & El & [(_ & -> & ->)|(pd & Hpd & Hx)]).
    { naive_solver. }
    cbn zeta in Hx. destruct Hx as (He & Hs & _ & -> & ->).
    assert (Hr : in_i16 (wrap_s 16 (current + 1)) = true) by (by apply wrap_s_range).
    split; [by apply with_epoch_grows|]. split; [by apply with_epoch_ok|].
    intros x [= <-] _. cbn. split; [split|].
    + intros (pd' & Hpd' & [y Hy]). congruence.
    + eexists. cbn. rewrite lookup_insert_eq. split; [done|]. cbn. by rewrite lookup_insert_eq.
    + eexists. rewrite lookup_insert_eq. split; [done|]. split; [done|]. cbn. by rewrite lookup_insert_eq.
  - destruct (init_vacant tid timeout m) as [[m' i]|e|p] eqn:Ei; cbn; [|naive_solver..].
    destruct (init_vacant_spec _ _ _ _ _ Hok Et Ei) as (Hg & Hok' & id & -> & Hi & Ht').
    split; [done|]. split; [done|]. intros x [= <-] _. cbn. split; [done|].
    eexists. split; [done|]. split; [done|]. cbn. by rewrite lookup_singleton_eq.
Qed.

Lemma init_idempotent_spec pid ep m :
  meta_ok m ->
  let '(m', r) := init_idempotent pid ep m in
  grows m m' /\ meta_ok m' /\
  forall x, r = Ok x -> ProducerIdResponse.error x = NONE ->
    issues m m' (ProducerIdResponse.id x) (ProducerIdResponse.epoch x).
Proof.
  intros Hok. unfold init_idempotent. case_bool_decide; [|cbn; naive_solver].
  destruct (insert_producer m (next_producer m)) as [ps|e|p] eqn:Ei; cbn; [|naive_solver..].
  apply next_producer_fresh in Ei as [Hn ->].
  split; [|split].
  - split; [by apply insert_fresh_handed|]. eauto.
  - destruct Hok as [H1 H2 H3 H4]. split; cbn; try done.
    intros tid txn Ht. destruct (H1 _ _ Ht) as (pd & Hpd & Hs). exists pd. split; [|done].
    rewrite lookup_insert_ne; [done|]. intros Hp. congruence.
  - intros x [= <-] _. by apply fresh_issues.
Qed.

Lemma event_keeps e m : meta_ok m -> grows m (apply_event e m).1 /\ meta_ok (apply_event e m).1.
Proof.
  intros Hok. destruct (initialises e) eqn:Ei.
  - destruct e; try done; cbn.
    + pose proof (init_transactional_spec tid timeout producer_id producer_epoch m Hok) as H.
      by destruct (init_transactional _ _ _ _ _) as [m' r]; destruct H as (? & ? & _).
    + pose proof (init_idempotent_spec producer_id producer_epoch m Hok) as H.
      by destruct (init_idempotent _ _ _) as [m' r]; destruct H as (? & ? & _).
  - apply event_altered with (m := m) in Ei. split; [by apply altered_grows|by eapply altered_ok].
Qed.

Lemma event_issues e m a id epoch :
  meta_ok m -> (apply_event e m).2 = Ok a -> issued a = Some (id, epoch) ->
  issues m (apply_event e m).1 id epoch.
Proof.
  intros Hok. destruct e; cbn.
  - pose proof (init_transactional_spec tid timeout producer_id producer_epoch m Hok) as H.
    destruct (init_transactional _ _ _ _ _) as [m' r]. destruct H as (_ & _ & H). cbn.
    destruct r as [i| |]; [|done..]. cbn. intros [= <-]. destruct i as [x|]; cbn; [|done].
    destruct (Z.eqb_spec (ProducerIdResponse.error x) NONE); [|done]. intros [= <- <-]. by apply H.
  - pose proof (init_idempotent_spec producer_id producer_epoch m Hok) as H.
    destruct (init_idempotent _ _ _) as [m' r]. destruct H as (_ & _ & H). cbn.
    destruct r as [x| |]; [|done..]. cbn. intros [= <-]. cbn.
    destruct (Z.eqb_spec (ProducerIdResponse.error x) NONE); [|done]. intros [= <- <-]. by apply H.
  - destruct (add_txn_partitions_closure _ _ _ _ _ _) as [m' [c| |]]; cbn; [|done..]. by intros [= <-].
  - by intros [= <-].
  - destruct (txn_offset_commit _ _) as [m' [c| |]]; cbn; [|done..]. by intros [= <-].
  - destruct (prepare _ _ _ _ _) as [m' [c| |]]; cbn; [|done..]. by intros [= <-].
  - destruct (resolve _ _ _ _ _) as [m' [c| |]]; cbn; [|done..]. by intros [= <-].
Qed.

(** ** Across brokers *)

(** Nothing creates the document but [with_mut]. *)
Definition no_create (k : Empty_set) : Meta := match k with end.
Abbreviation TxnWorld := (@World Meta Z TxnEvent Empty_set TxnAnswer).
Abbreviation txn_reach := (@opticon_reach Meta Z TxnEvent Empty_set TxnAnswer _ Meta.empty apply_event no_create).

(** The document a log leaves. *)
Definition txn_doc (l : list (@Entry TxnEvent Empty_set TxnAnswer)) : Meta :=
  default Meta.empty (replay Meta.empty apply_event no_create l).

Lemma meta_ok_empty : meta_ok Meta.empty.
Proof. by split; cbn; intros *; rewrite lookup_empty. Qed.

Lemma txn_doc_ok l : meta_ok (txn_doc l).
Proof.
  unfold txn_doc. destruct (replay Meta.empty apply_event no_create l) as [m|] eqn:El; cbn; [|apply meta_ok_empty].
  revert El. apply replay_invariant; [apply meta_ok_empty|done|]. intros c e o _ d Hd. by apply event_keeps.
Qed.

Lemma txn_doc_grows newer older : Removed ∉ newer -> grows (txn_doc older) (txn_doc (newer ++ older)).
Proof.
  induction newer as [|[c e o|c []|] newer IH]; cbn [app]; [done| |set_solver].
  intros Hn. etransitivity; [apply IH; set_solver|]. apply event_keeps, txn_doc_ok.
Qed.

(** What a write answered, and the document around it. *)
Lemma txn_entry newer c e o older :
  legal Meta.empty apply_event no_create (newer ++ Applied c e o :: older) ->
  o = (apply_event e (txn_doc older)).2 /\ txn_doc (Applied c e o :: older) = (apply_event e (txn_doc older)).1.
Proof.
  intros H. split; [|done]. induction newer as [|[|? []|] newer IH]; cbn in H; [by apply H|by apply IH, H|by apply IH].
Qed.

Lemma list_two {A} (l : list A) x y :
  x ∈ l -> y ∈ l -> x <> y ->
  exists a b c, l = a ++ x :: b ++ y :: c \/ l = a ++ y :: b ++ x :: c.
Proof.
  intros Hx Hy Hne. apply list_elem_of_split in Hx as (a & b & ->).
  apply elem_of_app in Hy as [Hy|[->|Hy]%elem_of_cons]; [|done|].
  - apply list_elem_of_split in Hy as (a1 & a2 & ->). exists a1, a2, b. right. by rewrite <- app_assoc.
  - apply list_elem_of_split in Hy as (b1 & b2 & ->). exists a, b1, b2. by left.
Qed.

(** The later of two writes that gave out an id gave out another one. *)
Lemma issued_twice a c e o mid c' e' o' older ans ans' id epoch :
  legal Meta.empty apply_event no_create (a ++ Applied c e o :: mid ++ Applied c' e' o' :: older) ->
  Removed ∉ mid -> o = Ok ans -> o' = Ok ans' -> issued ans = Some (id, epoch) ->
  issued ans' <> Some (id, epoch).
Proof.
  intros Hl Hr -> -> Hi Hi'.
  destruct (txn_entry _ _ _ _ _ Hl) as [Ho _].
  assert (Hl' : legal Meta.empty apply_event no_create ((a ++ Applied c e (Ok ans) :: mid) ++ Applied c' e' (Ok ans') :: older))
    by (by rewrite <- app_assoc).
  destruct (txn_entry _ _ _ _ _ Hl') as [Ho' Hd'].
  pose proof (event_issues e' _ _ _ _ (txn_doc_ok older) (eq_sym Ho') Hi') as [_ Hh].
  rewrite <- Hd' in Hh.
  pose proof (event_issues e _ _ _ _ (txn_doc_ok _) (eq_sym Ho) Hi) as [Hf _].
  apply Hf. eapply grows_handed; [|exact Hh]. by apply txn_doc_grows.
Qed.

(** C22 No producer id and epoch is given out twice, whichever brokers the
    [InitProducerId] requests reach and however their writes interleave, as long
    as the document is not deleted. *)
Theorem producer_ids_unique (w : TxnWorld) c c' a a' x x' :
  txn_reach w -> Removed ∉ log w -> c <> c' ->
  (c, Done (Ok a)) ∈ replies w -> (c', Done (Ok a')) ∈ replies w ->
  issued a = Some x -> issued a' = Some x' -> x <> x'.
Proof.
  intros Hw%opticon_reach_ok Hr Hne Hc Hc' Hi Hi' <-. destruct x as [id epoch].
  destruct (wok_replies _ _ _ _ Hw _ Hc) as [e He]. destruct (wok_replies _ _ _ _ Hw _ Hc') as [e' He']. cbn in He, He'.
  pose proof (wok_legal _ _ _ _ Hw) as Hl.
  destruct (list_two _ _ _ He He') as (l1 & l2 & l3 & [El|El]); [congruence|..]; rewrite El in Hl, Hr.
  - eapply (issued_twice _ _ _ _ _ _ _ _ _ _ _ id epoch Hl); [set_solver|done..].
  - eapply (issued_twice _ _ _ _ _ _ _ _ _ _ _ id epoch Hl); [set_solver|done..].
Qed.

(** ** Fencing *)

(** Who a request says it comes from. *)
Definition requester (e : TxnEvent) : option (bytes * Z * Z) :=
  match e with
  | AddPartitions tid pid ep _ _ | Prepare tid pid ep _ | Resolve tid pid ep _ => Some (tid, pid, ep)
  | OffsetCommit r =>
      Some (TxnOffsetCommitRequest.transaction_id r, TxnOffsetCommitRequest.producer_id r,
            TxnOffsetCommitRequest.producer_epoch r)
  | _ => None
  end.

(** How a request is refused with a code. *)
Definition refusal (e : TxnEvent) (code : Z) : result TxnAnswer :=
  match e with
  | AddPartitions _ _ _ topics _ => Ok (Codes (add_codes code topics))
  | OffsetCommit r => Ok (Codes (txn_offset_commit_response_error r code))
  | _ => Err (Api code)
  end.

Lemma event_refused e m tid pid ep code :
  requester e = Some (tid, pid, ep) -> current_detail m tid pid ep = inl code ->
  apply_event e m = (m, refusal e code).
Proof.
  destruct e; cbn; try done; intros [= <- <- <-] Hc.
  - unfold add_txn_partitions_closure. by rewrite Hc.
  - unfold txn_offset_commit. by rewrite Hc.
  - unfold prepare. by rewrite Hc.
  - unfold resolve. by rewrite Hc.
Qed.

Lemma later_epoch_fences m tid txn epoch pid ep :
  Meta.transactions m !! tid = Some txn -> is_Some (Txn.epochs txn !! epoch) ->
  pid <> Txn.producer txn \/ ep < epoch ->
  current_detail m tid pid ep = inl (if pid =? Txn.producer txn then ProducerFenced else UnknownProducerId).
Proof.
  intros Ht He Hx. unfold current_detail. rewrite Ht, (Z.eqb_sym pid).
  destruct (Z.eqb_spec (Txn.producer txn) pid) as [Hp|Hp]; [|done]. cbn.
  destruct (last_entry (Txn.epochs txn)) as [[k d]|] eqn:El; [|done].
  apply last_entry_Some in El as [_ Hk]. apply Hk in He.
  destruct (Z.eqb_spec ep k); [|done]. exfalso. destruct Hx; [done|lia].
Qed.

(** An [InitProducerId] that answered left the id and epoch in the document. *)
Lemma init_entry_held newer c tid timeout pid ep a older id epoch :
  legal Meta.empty apply_event no_create (newer ++ Applied c (InitTransactional tid timeout pid ep) (Ok a) :: older) ->
  issued a = Some (id, epoch) ->
  exists txn, Meta.transactions (txn_doc (Applied c (InitTransactional tid timeout pid ep) (Ok a) :: older)) !! tid =
      Some txn /\ Txn.producer txn = id /\ is_Some (Txn.epochs txn !! epoch).
Proof.
  intros [Ha ->]%txn_entry Hi. cbn [apply_event] in *.
  pose proof (init_transactional_spec tid timeout pid ep (txn_doc older) (txn_doc_ok older)) as H.
  destruct (init_transactional tid timeout pid ep (txn_doc older)) as [m' r]. cbn in Ha |- *.
  destruct H as (_ & _ & H). destruct r as [i| |]; [|done..]. injection Ha as ->.
  cbn in Hi. destruct i as [x|]; [|done].
  destruct (Z.eqb_spec (ProducerIdResponse.error x) NONE) as [En|]; [|done]. injection Hi as <- <-.
  by destruct (H x eq_refl En) as (_ & Hx).
Qed.

(** C13 A producer that lost its transactional id is fenced on every broker: once
    [InitProducerId] has given the id to epoch [epoch] of producer [id], an
    [AddPartitionsToTxn], [TxnOffsetCommit] or [EndTxn] of another producer or of
    an earlier epoch is refused, and leaves the document as it is. *)
Theorem zombie_fenced (w : TxnWorld) newer c e o mid c' tid timeout pid' ep' a older id epoch pid ep :
  txn_reach w -> Removed ∉ mid ->
  log w = newer ++ Applied c e o :: mid ++ Applied c' (InitTransactional tid timeout pid' ep') (Ok a) :: older ->
  issued a = Some (id, epoch) -> requester e = Some (tid, pid, ep) -> pid <> id \/ ep < epoch ->
  o = refusal e (if pid =? id then ProducerFenced else UnknownProducerId) /\
  txn_doc (Applied c e o :: mid ++ Applied c' (InitTransactional tid timeout pid' ep') (Ok a) :: older) =
  txn_doc (mid ++ Applied c' (InitTransactional tid timeout pid' ep') (Ok a) :: older).
Proof.
  intros Hw%opticon_reach_ok Hr El Hi Hq Hx.
  pose proof (wok_legal _ _ _ _ Hw) as Hl. rewrite El in Hl.
  destruct (txn_entry _ _ _ _ _ Hl) as [Ho Hd0].
  destruct (init_entry_held (newer ++ Applied c e o :: mid) c' tid timeout pid' ep' a older id epoch)
    as (txn & Ht & Hp & He); [by rewrite <- app_assoc|done|].
  destruct (grows_txn _ _ (txn_doc_grows mid _ Hr) _ _ Ht) as (txn' & Ht' & Hp' & He').
  subst id. rewrite <- Hp' in *. rewrite Hd0.
  by rewrite (event_refused e _ tid pid ep _ Hq (later_epoch_fences _ _ _ _ pid ep Ht' (He' _ He) Hx)) in Ho |- *.
Qed.

(** ** What readers are told *)

Lemma elem_of_aborted_raw m t p first last :
  (p, first, last) ∈ aborted_raw m t <->
  exists id txn e d r, Meta.transactions m !! id = Some txn /\ Txn.epochs txn !! e = Some d /\
    TxnDetail.state d = Some Aborted /\ range_of d t = Some r /\
    p = Txn.producer txn /\ first = offset_start r /\ last = offset_end r.
Proof.
  unfold aborted_raw. rewrite list_elem_of_omap. split.
  - intros ([[[id txn] e] d] & Hd & Hx). apply elem_of_details in Hd as [H1 H2].
    case_bool_decide as Hs; [|done]. exists id, txn, e, d. unfold range_of.
    destruct (TxnDetail.produces d !! Topition.topic t ≫= lookup (Topition.partition t)) as [[r|]|]; [|done..].
    injection Hx as <- <- <-. by exists r.
  - intros (id & txn & e & d & r & H1 & H2 & Hs & Hr & -> & -> & ->). exists (id, txn, e, d).
    split; [by apply elem_of_details|]. rewrite bool_decide_eq_true_2 by done. unfold range_of in Hr.
    destruct (TxnDetail.produces d !! Topition.topic t ≫= lookup (Topition.partition t)) as [[r'|]|]; [|done..].
    by injection Hr as ->.
Qed.

(** C30 Read-committed consumers are held at the first offset of the earliest
    unresolved transaction of the partition and, when there is none, at the high
    watermark; Fetch and ListOffsets agree on it; and the aborted transactions a
    fetch reports are exactly the aborted ranges that reach the log, in the order
    of their first offsets. *)
Theorem read_committed_stage m t high_watermark log_start :
  exists stage, offset_stage m t high_watermark log_start = Ok stage /\
    list_latest m t ReadCommitted high_watermark = Ok (OffsetStage.last_stable stage) /\
    (forall o, open_start m t o -> OffsetStage.last_stable stage <= o) /\
    (open_start m t (OffsetStage.last_stable stage) \/
     OffsetStage.last_stable stage = high_watermark /\ forall o, ~ open_start m t o) /\
    StronglySorted by_first_offset (OffsetStage.aborted stage) /\
    forall p first, (p, first) ∈ OffsetStage.aborted stage <->
      exists id txn e d r, Meta.transactions m !! id = Some txn /\ Txn.epochs txn !! e = Some d /\
        TxnDetail.state d = Some Aborted /\ range_of d t = Some r /\
        p = Txn.producer txn /\ first = offset_start r /\ log_start <= offset_end r.
Proof.
  unfold offset_stage, list_latest. destruct (floors_least m) as (floors & -> & Hf). specialize (Hf t). cbn [rbind].
  eexists. split; [done|]. cbn [OffsetStage.last_stable OffsetStage.aborted].
  split; [by destruct (floors !! t)|].
  destruct (floors !! t) as [o|] eqn:Ef; cbn in Hf |- *.
  all: split; [naive_solver|]; split; [naive_solver|].
  all: split; [apply StronglySorted_merge_sort; apply _|].
  all: intros p first; unfold aborted_from; rewrite merge_sort_Permutation, list_elem_of_fmap.
  all: setoid_rewrite list_elem_of_filter; split.
  all: try (intros ([[p' f'] l'] & [= -> ->] & Hl & Hx); apply elem_of_aborted_raw in Hx as (id & txn & e & d & r & Hx);
    exists id, txn, e, d, r; cbn in Hl; naive_solver).
  all: intros (id & txn & e & d & r & H1 & H2 & H3 & H4 & -> & -> & H5);
    exists (Txn.producer txn, offset_start r, offset_end r); split; [done|]; split; [done|];
    apply elem_of_aborted_raw; exists id, txn, e, d, r; done.
Qed.

(** ** Resolving *)

Lemma first_overlap_sound own cs id txn l x :
  first_overlap own cs id txn l = Some x ->
  exists e d t r c, (e, d) ∈ l /\ x = TxnId.mk id (Txn.producer txn) e (TxnId.state x) /\
    own <> (id, Txn.producer txn, e) /\ TxnDetail.state d = Some (TxnId.state x) /\
    range_of d t = Some r /\ cs !! t = Some c /\ offset_start r < offset_end c.
Proof.
  induction l as [|[e d] l IH]; cbn; [done|].
  assert (Hstep : first_overlap own cs id txn l = Some x -> exists e' d' t r c, (e', d') ∈ (e, d) :: l /\
    x = TxnId.mk id (Txn.producer txn) e' (TxnId.state x) /\ own <> (id, Txn.producer txn, e') /\
    TxnDetail.state d' = Some (TxnId.state x) /\ range_of d' t = Some r /\ cs !! t = Some c /\
    offset_start r < offset_end c).
  { intros Hx. destruct (IH Hx) as (e' & d' & t & r & c & Hin & H). exists e', d', t, r, c. split; [by right|done]. }
  case_bool_decide as Ho; [done|].
  destruct (TxnDetail.state d) as [s|] eqn:Es; [|done].
  destruct (existsb _ _) eqn:Ex; [|done]. intros [= <-].
  apply existsb_exists in Ex as ([t r] & Hin & Hov). apply list_elem_of_In, elem_of_ranges in Hin.
  unfold overlaps_range in Hov. cbn in Hov. destruct (cs !! t) as [c|] eqn:Ec; [|done].
  exists e, d, t, r, c. cbn. apply Z.ltb_lt in Hov. split; [by left|]. done.
Qed.

Lemma overlap_sound m tid pid ep xs x :
  overlapping_transactions m tid pid ep = Ok xs -> x ∈ xs ->
  exists txn d t r c cs, Meta.transactions m !! TxnId.transaction x = Some txn /\
    Txn.epochs txn !! TxnId.producer_epoch x = Some d /\ TxnDetail.state d = Some (TxnId.state x) /\
    (tid, pid, ep) <> (TxnId.transaction x, Txn.producer txn, TxnId.producer_epoch x) /\
    produced m tid pid ep = Ok cs /\ cs !! t = Some c /\ range_of d t = Some r /\ offset_start r < offset_end c.
Proof.
  unfold overlapping_transactions. destruct (produced m tid pid ep) as [cs| |]; [|done..]. cbn. intros [= <-].
  intros ([id txn] & Hin & Hx)%list_elem_of_omap. apply elem_of_entries in Hin.
  apply first_overlap_sound in Hx as (e & d & t & r & c & He & Ex & Ho & Hs & Hr & Hc & Hlt).
  apply elem_of_entries in He. rewrite Ex. cbn. rewrite Ex in Hs. exists txn, d, t, r, c, cs. done.
Qed.

Definition txn_key (x : TxnId) : bytes * Z := (TxnId.transaction x, TxnId.producer_epoch x).

(** What resolving makes of a detail. *)
Definition settle (d : TxnDetail) : TxnDetail :=
  match resolution (TxnDetail.state d) with Some s => resolved_detail s d | None => d end.

Lemma resolve_one_find m o x id e :
  find_detail (resolve_one (m, o) x).1 id e =
    (if decide ((id, e) = txn_key x) then settle else (fun d => d)) <$> find_detail m id e.
Proof.
  unfold resolve_one, txn_key. destruct (find_detail m (TxnId.transaction x) (TxnId.producer_epoch x)) as [d|] eqn:Ed; cbn.
  - unfold settle. destruct (resolution (TxnDetail.state d)) as [s|] eqn:Er; cbn.
    + rewrite find_alter. destruct (decide ((id, e) = _)) as [[= -> ->]|Hne].
      * rewrite decide_True by done. rewrite Ed. cbn. by rewrite Er.
      * rewrite decide_False by naive_solver. done.
    + case_decide as Hk; [|by rewrite option_fmap_id]. injection Hk as -> ->. rewrite Ed. cbn. by rewrite Er.
  - case_decide as Hk; [|by rewrite option_fmap_id]. injection Hk as -> ->. by rewrite Ed.
Qed.

Lemma foldl_resolve_find xs acc id e :
  NoDup (txn_key <$> xs) ->
  find_detail (foldl resolve_one acc xs).1 id e =
    (if decide ((id, e) ∈ txn_key <$> xs) then settle else (fun d => d)) <$> find_detail acc.1 id e.
Proof.
  revert acc. induction xs as [|x xs IH]; intros [m o] Hn; cbn [foldl].
  { cbn. rewrite decide_False by apply not_elem_of_nil. by rewrite option_fmap_id. }
  rewrite fmap_cons in *. apply NoDup_cons in Hn as [Hx Hn]. rewrite IH by done. rewrite resolve_one_find. cbn [fst].
  destruct (decide ((id, e) = txn_key x)) as [Hk|Hk].
  - rewrite Hk, decide_False, option_fmap_id by done. rewrite decide_True; [done|left].
  - rewrite option_fmap_id. destruct (decide ((id, e) ∈ txn_key <$> xs)).
    + rewrite decide_True; [done|by right].
    + rewrite decide_False; [done|]. by intros [?|?]%elem_of_cons.
Qed.

(** The offset a resolved transaction contributes for a group's partition. *)
Definition contribution (m : Meta) (g topic : bytes) (p : Z) (x : TxnId) : option TxnCommitOffset :=
  match find_detail m (TxnId.transaction x) (TxnId.producer_epoch x) with
  | Some d =>
      if bool_decide (TxnId.state x = PrepareCommit) && bool_decide (is_Some (resolution (TxnDetail.state d)))
      then offset_at (TxnDetail.offsets d) g topic p else None
  | None => None
  end.

Definition last_of {A B} (f : A -> option B) (o : option B) (l : list A) : option B :=
  foldl (fun acc x => match f x with Some c => Some c | None => acc end) o l.

Lemma last_of_snoc {A B} (f : A -> option B) o l x :
  last_of f o (l ++ [x]) = match f x with Some c => Some c | None => last_of f o l end.
Proof. unfold last_of. by rewrite foldl_app. Qed.

Lemma last_of_elem {A B} (f : A -> option B) l c :
  last_of f None l = Some c -> exists x, x ∈ l /\ f x = Some c.
Proof.
  induction l as [|x l IH] using rev_ind; [done|]. rewrite last_of_snoc. destruct (f x) eqn:Ef.
  - intros [= ->]. exists x. set_solver.
  - intros (y & Hy & Hc)%IH. exists y. set_solver.
Qed.

Lemma resolve_one_offsets m o x g topic p :
  offset_at (resolve_one (m, o) x).2 g topic p =
    match contribution m g topic p x with Some c => Some c | None => offset_at o g topic p end.
Proof.
  unfold resolve_one, contribution. destruct (find_detail m _ _) as [d|]; [|done].
  destruct (resolution (TxnDetail.state d)) as [s|]; cbn.
  - case_bool_decide; cbn; [|done]. by rewrite offset_at_copy.
  - by rewrite andb_false_r.
Qed.

Lemma last_of_ext {A B} (f h : A -> option B) o l : (forall x, x ∈ l -> f x = h x) -> last_of f o l = last_of h o l.
Proof.
  revert o. induction l as [|x l IH]; intros o Hf; [done|]. unfold last_of in *. cbn.
  rewrite (Hf x) by set_solver. apply IH. set_solver.
Qed.

Lemma foldl_resolve_offsets xs m o g topic p :
  NoDup (txn_key <$> xs) ->
  offset_at (foldl resolve_one (m, o) xs).2 g topic p =
    last_of (contribution m g topic p) (offset_at o g topic p) xs.
Proof.
  revert m o. induction xs as [|x xs IH]; intros m o Hn; [done|].
  rewrite fmap_cons in Hn. apply NoDup_cons in Hn as [Hx Hn]. cbn [foldl].
  destruct (resolve_one (m, o) x) as [m' o'] eqn:Er. rewrite IH by done.
  unfold last_of at 2. cbn [foldl]. rewrite <- resolve_one_offsets, Er. cbn [snd].
  apply last_of_ext. intros y Hy. unfold contribution.
  assert (Hk : (TxnId.transaction y, TxnId.producer_epoch y) <> txn_key x).
  { intros Hk. apply Hx. apply list_elem_of_fmap. by exists y. }
  pose proof (resolve_one_find m o x (TxnId.transaction y) (TxnId.producer_epoch y)) as Hf.
  rewrite Er, decide_False, option_fmap_id in Hf by done. cbn in Hf. by rewrite Hf.
Qed.

Lemma overlap_ids_sublist own cs (l : list (bytes * Txn)) :
  TxnId.transaction <$> omap (fun '(id, txn) => first_overlap own cs id txn (entries_of (Txn.epochs txn))) l
    `sublist_of` l.*1.
Proof.
  induction l as [|[id txn] l IH]; cbn; [done|].
  destruct (first_overlap own cs id txn _) as [x|] eqn:Ex; cbn; [|by apply sublist_cons].
  apply first_overlap_sound in Ex as (e & d & t & r & c & _ & -> & _). cbn. by apply sublist_skip.
Qed.

Lemma overlap_keys_NoDup m tid pid ep d xs s :
  current_detail m tid pid ep = inr d -> overlapping_transactions m tid pid ep = Ok xs ->
  NoDup (txn_key <$> (xs ++ [TxnId.mk tid pid ep s])).
Proof.
  intros Hc Ho. rewrite fmap_app. apply NoDup_app. split; [|split; [|apply NoDup_singleton]].
  - apply (NoDup_fmap_1 fst). rewrite <- list_fmap_compose.
    unfold overlapping_transactions in Ho. destruct (produced m tid pid ep) as [cs| |]; [|done..].
    injection Ho as <-. eapply sublist_NoDup; [apply (entries_of_NoDup (Meta.transactions m))|].
    apply overlap_ids_sublist.
  - intros k (x & -> & Hx)%list_elem_of_fmap Hk%list_elem_of_singleton. unfold txn_key in Hk. cbn in Hk.
    destruct (overlap_sound _ _ _ _ _ _ Ho Hx) as (txn & d' & t & r & c & cs & Ht & _ & _ & Hne & _).
    unfold current_detail in Hc. injection Hk as Hk1 Hk2. rewrite Hk1 in Ht. rewrite Ht in Hc.
    destruct (Z.eqb_spec (Txn.producer txn) pid) as [Hp|]; [|done]. apply Hne. congruence.
Qed.

(** ** Markers *)

Lemma range_of_register t o l d t' :
  range_of (register_detail t o l d) t' =
    if decide (t' = t) then
      widen o l (TxnDetail.produces d !! Topition.topic t ≫= lookup (Topition.partition t))
    else range_of d t'.
Proof.
  unfold range_of, register_detail, register_range. cbn. rewrite lookup_insert.
  destruct (decide (Topition.topic t = Topition.topic t')) as [Et|Et]; cbn.
  - rewrite lookup_insert. destruct (decide (Topition.partition t = Topition.partition t')) as [Ep|Ep]; cbn.
    + assert (t' = t) as -> by (destruct t, t'; cbn in *; congruence). rewrite decide_True by done.
      by destruct (TxnDetail.produces d !! Topition.topic t).
    + rewrite decide_False by (intros ->; done). rewrite <- Et.
      destruct (TxnDetail.produces d !! Topition.topic t); cbn; [done|by rewrite lookup_empty].
  - by rewrite decide_False by (intros ->; done).
Qed.

Lemma alter_detail_compose g h id e m :
  alter_detail g id e (alter_detail h id e m) = alter_detail (fun d => g (h d)) id e m.
Proof.
  unfold alter_detail. cbn. f_equal. apply map_eq. intros i.
  destruct (decide (id = i)) as [->|Hi]; [rewrite !lookup_alter_eq|by rewrite !lookup_alter_ne].
  destruct (Meta.transactions m !! i) as [txn|]; cbn; [|done]. do 2 f_equal. apply map_eq. intros j.
  destruct (decide (e = j)) as [->|Hj]; [rewrite !lookup_alter_eq|by rewrite !lookup_alter_ne].
  by destruct (Txn.epochs txn !! j).
Qed.

Lemma alter_detail_id id e m : alter_detail (fun d => d) id e m = m.
Proof.
  unfold alter_detail. destruct m as [ps ts]. cbn. f_equal. apply map_eq. intros i.
  destruct (decide (id = i)) as [->|Hi]; [rewrite lookup_alter_eq|by rewrite lookup_alter_ne].
  destruct (ts !! i) as [[p es]|]; cbn; [|done]. do 2 f_equal. apply map_eq. intros j.
  destruct (decide (e = j)) as [->|Hj]; [rewrite lookup_alter_eq|by rewrite lookup_alter_ne].
  by destruct (es !! j).
Qed.

(** A detail with markers appended. *)
Record marked (d d' : TxnDetail) : Prop := mkMarked {
  marked_state : TxnDetail.state d' = TxnDetail.state d;
  marked_offsets : TxnDetail.offsets d' = TxnDetail.offsets d;
  marked_ranges t : is_Some (range_of d' t) <-> is_Some (range_of d t);
  marked_wider t r r' : range_of d t = Some r -> range_of d' t = Some r' ->
    offset_start r' <= offset_start r /\ offset_end r <= offset_end r';
}.

Lemma marked_refl d : marked d d.
Proof. split; try done. intros t r r' H1 H2. simplify_eq. lia. Qed.

Lemma marked_trans d1 d2 d3 : marked d1 d2 -> marked d2 d3 -> marked d1 d3.
Proof.
  intros [A1 A2 A3 A4] [B1 B2 B3 B4]. split; [congruence|congruence| |].
  - intros t. by rewrite B3.
  - intros t r r'' H1 H3. destruct (proj2 (A3 t) (mk_is_Some _ _ H1)) as [r' H2].
    specialize (A4 _ _ _ H1 H2). specialize (B4 _ _ _ H2 H3). lia.
Qed.

Lemma marked_register t o l d : is_Some (range_of d t) -> marked d (register_detail t o l d).
Proof.
  intros Hr. split; [done|done| |].
  - intros t'. rewrite range_of_register. case_decide; [subst|done].
    split; [done|]. intros _. by destruct (_ ≫= _).
  - intros t' r r' H1. rewrite range_of_register. case_decide as Ht; [subst t'|intros; simplify_eq; lia].
    unfold range_of in H1. destruct (TxnDetail.produces d !! Topition.topic t ≫= lookup (Topition.partition t))
      as [[r0|]|]; [|done..]. cbn in H1 |- *. intros [= <-]. simplify_eq. cbn.
    destruct (Z.ltb_spec (offset_end r) l); lia.
Qed.

(** Nothing fails. *)
Record calm (env : Env) : Prop := mkCalm {
  calm_prepare : prepare_fault env = None;
  calm_append t : exists o, append_marker env t = Ok o;
  calm_register t : register_fault env t = None;
  calm_resolve : resolve_fault env = None;
  calm_commit g l : exists r, offset_commit env g l = Ok r;
}.

Lemma write_markers_calm env tid ep ts s d :
  calm env -> find_detail (doc s) tid ep = Some d -> (forall t, t ∈ ts -> is_Some (range_of d t)) ->
  exists h, write_markers env tid ep ts s = (mkRun (alter_detail h tid ep (doc s)) (markers s ++ ts) (commits s), Ok tt) /\
    marked d (h d).
Proof.
  intros He. revert s d. induction ts as [|t ts IH]; intros s d Hd Ht; cbn [write_markers].
  { exists (fun d => d). split; [|apply marked_refl]. rewrite app_nil_r. destruct s as [m a b]. cbn. by rewrite alter_detail_id. }
  destruct (calm_append _ He t) as [o ->]. cbn [doc markers commits]. rewrite (calm_register _ He). cbn [guarded register].
  set (g := register_detail t o _).
  destruct (IH (mkRun (alter_detail g tid ep (doc s)) (markers s ++ [t]) (commits s)) (g d)) as (h & -> & Hm).
  - cbn. by rewrite find_alter_eq, Hd.
  - intros t' Ht'. apply marked_register; set_solver.
  - cbn. exists (fun d => h (g d)). rewrite alter_detail_compose, <- app_assoc. split; [done|].
    eapply marked_trans; [|done]. apply marked_register. set_solver.
Qed.

Lemma commit_groups_calm env l s :
  calm env -> commit_groups env l s = (mkRun (doc s) (markers s) (commits s ++ (prod_map id group_commits <$> l)), Ok tt).
Proof.
  intros He. revert s. induction l as [|[g ts] l IH]; intros s; cbn.
  { rewrite app_nil_r. by destruct s. }
  destruct (calm_commit _ He g (group_commits ts)) as [r ->]. rewrite IH. cbn. by rewrite <- app_assoc.
Qed.

Lemma elem_of_group_commits topics t r :
  (t, r) ∈ group_commits topics <->
  exists c, topics !! Topition.topic t ≫= lookup (Topition.partition t) = Some c /\ r = to_commit_request c.
Proof.
  unfold group_commits. rewrite list_elem_of_In, in_flat_map. split.
  - intros ([topic ps] & Hx & Hin). apply list_elem_of_In in Hx, Hin. apply elem_of_entries in Hx.
    apply list_elem_of_fmap in Hin as ([p c] & [= -> ->] & Hp). apply elem_of_entries in Hp.
    exists c. cbn [Topition.topic Topition.partition]. rewrite Hx. by cbn [mbind option_bind]; rewrite Hp.
  - intros (c & Hc & ->). destruct (topics !! Topition.topic t) as [ps|] eqn:Et; [|done].
    cbn [mbind option_bind] in Hc. exists (Topition.topic t, ps).
    split; [by apply list_elem_of_In, elem_of_entries|]. apply list_elem_of_In, list_elem_of_fmap.
    exists (Topition.partition t, c). split; [by destruct t|]. by apply elem_of_entries.
Qed.

(** A commit is made for exactly the offsets of the map. *)
Lemma elem_of_commits o g t r :
  (exists l, (g, l) ∈ (prod_map id group_commits <$> entries_of o) /\ (t, r) ∈ l) <->
  exists c, offset_at o g (Topition.topic t) (Topition.partition t) = Some c /\ r = to_commit_request c.
Proof.
  unfold offset_at. split.
  - intros (l & Hl & Ht). apply list_elem_of_fmap in Hl as ([g' ts] & [= -> ->] & Hg). apply elem_of_entries in Hg.
    apply elem_of_group_commits in Ht as (c & Hc & ->). exists c. by rewrite Hg.
  - intros (c & Hc & ->). destruct (o !! g) as [ts|] eqn:Eg; [|done]. exists (group_commits ts).
    split; [|apply elem_of_group_commits; by exists c].
    apply list_elem_of_fmap. exists (g, ts). split; [done|]. by apply elem_of_entries.
Qed.

Definition prepared_as (committed : bool) : TxnState := if committed then PrepareCommit else PrepareAbort.
Definition resolved_as (committed : bool) : TxnState := if committed then Committed else Aborted.

Lemma resolution_prepared committed : resolution (Some (prepared_as committed)) = Some (resolved_as committed).
Proof. by destruct committed. Qed.

Lemma end_txn_prepares env tid pid ep committed m d :
  calm env -> current_detail m tid pid ep = inr d -> TxnDetail.state d = Some Begin ->
  exists h, marked (set_state (prepared_as committed) d) (h d) /\
    end_txn env tid pid ep committed m =
      let m1 := alter_detail h tid ep m in
      let ts := (ranges (TxnDetail.produces d)).*1 in
      match resolve tid pid ep committed m1 with
      | (m2, Ok o) => (mkRun m2 ts (prod_map id group_commits <$> entries_of o), Ok NONE)
      | (m2, Err e) => (mkRun m2 ts [], Err e)
      | (m2, Panic p) => (mkRun m2 ts [], Panic p)
      end.
Proof.
  intros He Hc Hs. unfold end_txn. rewrite (calm_prepare _ He). cbn [guarded].
  unfold prepare. rewrite Hc, bool_decide_eq_true_2 by done.
  fold (prepared_as committed).
  destruct (write_markers_calm env tid ep (ranges (TxnDetail.produces d)).*1
    (mkRun (alter_detail (set_state (prepared_as committed)) tid ep m) [] []) (set_state (prepared_as committed) d))
    as (h & -> & Hm); [done|..].
  - cbn. by rewrite find_alter_eq, (current_find _ _ _ _ _ Hc).
  - intros t ([t' r] & -> & Ht)%list_elem_of_fmap. cbn. exists r. by apply (elem_of_ranges d).
  - exists (fun d => h (set_state (prepared_as committed) d)). split; [done|].
    cbn [doc markers commits app]. rewrite alter_detail_compose, (calm_resolve _ He). cbn [guarded].
    destruct (resolve _ _ _ _ _) as [m2 [o|e|p]]; [|done..]. rewrite commit_groups_calm by done. done.
Qed.

(** No other transaction that wrote to a partition of [d] is still open, or
    aborted. *)
Definition quiet (m : Meta) (tid : bytes) (ep : Z) (d : TxnDetail) : Prop :=
  forall id e d' t s, (id, e) <> (tid, ep) -> find_detail m id e = Some d' ->
    is_Some (range_of d t) -> is_Some (range_of d' t) -> TxnDetail.state d' = Some s -> is_prepared s = true.

Lemma quiet_resolves tid pid ep committed m d h :
  current_detail m tid pid ep = inr d -> quiet m tid ep d ->
  marked (set_state (prepared_as committed) d) (h d) ->
  let m1 := alter_detail h tid ep m in
  exists xs, overlapping_transactions m1 tid pid ep = Ok xs /\
    Forall (fun x => is_prepared (TxnId.state x) = true) xs /\
    let acc := foldl resolve_one (m1, ∅) (xs ++ [TxnId.mk tid pid ep (prepared_as committed)]) in
    resolve tid pid ep committed m1 = (acc.1, Ok acc.2).
Proof.
  intros Hc Hq Hm m1.
  assert (Hc1 : current_detail m1 tid pid ep = inr (h d)).
  { unfold m1. rewrite current_alter, Hc. by rewrite decide_True. }
  destruct (produced_ok _ _ _ _ _ Hc1) as (cs & Hcs & Hr).
  destruct (overlapping_transactions m1 tid pid ep) as [xs| |] eqn:Eo;
    [|unfold overlapping_transactions in Eo; by rewrite Hcs in Eo..].
  assert (Hp : Forall (fun x => is_prepared (TxnId.state x) = true) xs).
  { apply Forall_forall. intros x Hx.
    destruct (overlap_sound _ _ _ _ _ _ Eo Hx) as (txn & d' & t & r & c & cs' & Ht & He & Hs & Hne & Hcs' & Hct & Hrt & _).
    assert (cs' = cs) as -> by congruence.
    assert (Hk : (TxnId.transaction x, TxnId.producer_epoch x) <> (tid, ep)).
    { intros [= Hk1 Hk2]. apply Hne. rewrite Hk1 in Ht. unfold current_detail in Hc1. rewrite Ht in Hc1.
      destruct (Z.eqb_spec (Txn.producer txn) pid); [congruence|done]. }
    eapply (Hq _ _ d' t _ Hk); [|..|done].
    - rewrite <- (find_alter_ne h tid ep m) by done. unfold find_detail. fold m1. by rewrite Ht.
    - rewrite Hr in Hct. apply (marked_ranges _ _ Hm t). by exists c.
    - by exists r. }
  exists xs. split; [done|]. split; [done|]. unfold resolve. rewrite Hc1, Eo.
  rewrite (proj2 (forallb_forall _ xs)).
  - fold (prepared_as committed). by destruct (foldl resolve_one _ _).
  - intros x Hx%list_elem_of_In. by apply (proj1 (Forall_forall _ _) Hp).
Qed.

(** The detail of the transaction that ended. *)
Lemma ended_detail committed d d1 :
  marked (set_state (prepared_as committed) d) d1 ->
  TxnDetail.state (settle d1) = Some (resolved_as committed) /\ TxnDetail.offsets (settle d1) = ∅ /\
  forall t, is_Some (range_of (settle d1) t) <-> committed = false /\ is_Some (range_of d t).
Proof.
  intros [Hs Ho Hr _]. unfold settle. rewrite Hs. cbn [set_state TxnDetail.state]. rewrite resolution_prepared.
  split; [done|]. split; [done|]. intros t. unfold range_of, resolved_detail. cbn [TxnDetail.produces].
  destruct committed; cbn.
  - split; [by intros []|by intros []].
  - specialize (Hr t). unfold range_of in Hr. rewrite Hr. naive_solver.
Qed.

Lemma settle_open d : unresolved (settle d) = true -> settle d = d.
Proof. unfold settle. by destruct (resolution (TxnDetail.state d)) as [[| | | |]|] eqn:E; destruct (TxnDetail.state d) as [[| | | |]|]. Qed.

(** Where a committed offset comes from. *)
Lemma contribution_source m tid pid ep committed d h xs g topic p x c :
  current_detail m tid pid ep = inr d -> marked (set_state (prepared_as committed) d) (h d) ->
  overlapping_transactions (alter_detail h tid ep m) tid pid ep = Ok xs ->
  x ∈ xs ++ [TxnId.mk tid pid ep (prepared_as committed)] ->
  contribution (alter_detail h tid ep m) g topic p x = Some c ->
  exists id e d' c', find_detail m id e = Some d' /\ offset_at (TxnDetail.offsets d') g topic p = Some c' /\
    to_commit_request c = to_commit_request c' /\
    ((id, e) = (tid, ep) /\ committed = true \/ TxnDetail.state d' = Some PrepareCommit).
Proof.
  intros Hc Hm Eo Hx Hcx. unfold contribution in Hcx.
  destruct (find_detail (alter_detail h tid ep m) _ _) as [d1|] eqn:Ed; [|done].
  case_bool_decide as Hst; [|done]. case_bool_decide; [|done]. cbn in Hcx.
  apply elem_of_app in Hx as [Hx|Hx%list_elem_of_singleton].
  - destruct (overlap_sound _ _ _ _ _ _ Eo Hx) as (txn & d' & t & r & c0 & cs & Ht & He & Hs & Hne & _).
    assert (Hk : (TxnId.transaction x, TxnId.producer_epoch x) <> (tid, ep)).
    { intros [= Hk1 Hk2]. apply Hne. rewrite Hk1 in Ht.
      assert (Hc1 : current_detail (alter_detail h tid ep m) tid pid ep = inr (h d))
        by (rewrite current_alter, Hc; by rewrite decide_True).
      unfold current_detail in Hc1. rewrite Ht in Hc1. destruct (Z.eqb_spec (Txn.producer txn) pid); [congruence|done]. }
    unfold find_detail in Ed. rewrite Ht in Ed. cbn in Ed. rewrite He in Ed. injection Ed as ->.
    exists (TxnId.transaction x), (TxnId.producer_epoch x), d1, c. split.
    + rewrite <- (find_alter_ne h tid ep m) by done. unfold find_detail. by rewrite Ht.
    + split; [done|]. split; [done|]. right. congruence.
  - subst x. cbn in Hst, Ed. rewrite find_alter_eq, (current_find _ _ _ _ _ Hc) in Ed. injection Ed as <-.
    rewrite (marked_offsets _ _ Hm) in Hcx. exists tid, ep, d, c.
    split; [by eapply current_find|]. split; [done|]. split; [done|]. left. split; [done|]. by destruct committed.
Qed.

(** C12 A transaction nobody else is in the way of is ended by [EndTxn]: the
    request answers no error, has written a marker to exactly the partitions the
    transaction wrote to, and leaves it committed or aborted as asked, holding no
    reader back; its ranges stay on record only when it aborted.  The group
    offsets committed include all of the transaction's own when it commits, and
    come from it, then, or from a prepared commit it overlapped. *)
Theorem end_txn_resolves env tid pid ep committed m d :
  calm env -> current_detail m tid pid ep = inr d -> TxnDetail.state d = Some Begin -> quiet m tid ep d ->
  exists s, end_txn env tid pid ep committed m = (s, Ok NONE) /\
    markers s = (ranges (TxnDetail.produces d)).*1 /\
    (exists d', find_detail (doc s) tid ep = Some d' /\ TxnDetail.state d' = Some (resolved_as committed) /\
       TxnDetail.offsets d' = ∅ /\
       forall t, is_Some (range_of d' t) <-> committed = false /\ is_Some (range_of d t)) /\
    (forall t o, open_start (doc s) t o -> exists id e d' r, (id, e) <> (tid, ep) /\
       find_detail m id e = Some d' /\ unresolved d' = true /\ range_of d' t = Some r /\ offset_start r = o) /\
    (forall g t c, committed = true -> offset_at (TxnDetail.offsets d) g (Topition.topic t) (Topition.partition t) = Some c ->
       exists l, (g, l) ∈ commits s /\ (t, to_commit_request c) ∈ l) /\
    (forall g l t r, (g, l) ∈ commits s -> (t, r) ∈ l -> exists id e d' c, find_detail m id e = Some d' /\
       offset_at (TxnDetail.offsets d') g (Topition.topic t) (Topition.partition t) = Some c /\
       r = to_commit_request c /\
       ((id, e) = (tid, ep) /\ committed = true \/ TxnDetail.state d' = Some PrepareCommit)).
Proof.
  intros He Hc Hs Hq. destruct (end_txn_prepares env tid pid ep committed m d He Hc Hs) as (h & Hm & ->).
  destruct (quiet_resolves tid pid ep committed m d h Hc Hq Hm) as (xs & Eo & Hp & Er). cbn zeta in Er |- *.
  rewrite Er. clear Er.
  set (m1 := alter_detail h tid ep m) in *. set (self := TxnId.mk tid pid ep (prepared_as committed)).
  set (acc := foldl resolve_one (m1, ∅) (xs ++ [self])).
  assert (Hc1 : current_detail m1 tid pid ep = inr (h d)).
  { unfold m1. rewrite current_alter, Hc. by rewrite decide_True. }
  pose proof (overlap_keys_NoDup m1 tid pid ep (h d) xs (prepared_as committed) Hc1 Eo) as Hn. fold self in Hn.
  assert (Hf : forall id e, find_detail acc.1 id e =
    (if decide ((id, e) ∈ txn_key <$> (xs ++ [self])) then settle else (fun d => d)) <$> find_detail m1 id e).
  { intros id e. apply (foldl_resolve_find _ (m1, ∅) id e Hn). }
  assert (Hself : find_detail m1 tid ep = Some (h d)) by (by apply current_find in Hc1).
  assert (Hown : find_detail acc.1 tid ep = Some (settle (h d))).
  { rewrite Hf, Hself, decide_True; [done|]. rewrite fmap_app. apply elem_of_app. right. by left. }
  eexists. split; [done|]. split; [done|]. cbn [doc commits]. split; [|split; [|split]].
  - exists (settle (h d)). split; [done|]. by apply ended_detail.
  - intros t o (id & e & d' & r & Hd & Hu & Hr & Ho).
    destruct (decide ((id, e) = (tid, ep))) as [[= -> ->]|Hne].
    { rewrite Hown in Hd. injection Hd as <-. destruct (ended_detail committed d (h d) Hm) as [Hst _].
      unfold unresolved in Hu. rewrite Hst in Hu. by destruct committed. }
    rewrite Hf in Hd. unfold m1 in Hd. rewrite find_alter_ne in Hd by done.
    apply fmap_Some in Hd as (d0 & Hd0 & ->). exists id, e, d0, r. split; [done|]. split; [done|].
    case_decide; [|done]. pose proof (settle_open _ Hu) as Es. by rewrite Es in Hu, Hr.
  - intros g t c -> Hc'. apply elem_of_commits. exists c. split; [|done].
    unfold acc. rewrite foldl_resolve_offsets by done. rewrite last_of_snoc. unfold contribution, self. cbn.
    rewrite Hself, (marked_state _ _ Hm), (marked_offsets _ _ Hm). cbn. by rewrite Hc'.
  - intros g l t r Hl Ht. destruct (proj1 (elem_of_commits acc.2 g t r)) as (c & Hc' & ->); [by exists l|].
    unfold acc in Hc'. rewrite foldl_resolve_offsets in Hc' by done.
    apply last_of_elem in Hc' as (x & Hx & Hcx). by eapply (contribution_source m tid pid ep committed d h xs).
Qed.

(** ** InitProducerId answers *)

Lemma resolve_answers tid pid ep committed m d :
  current_detail m tid pid ep = inr d -> TxnDetail.state d <> Some Begin ->
  exists m' o d', resolve tid pid ep committed m = (m', Ok o) /\ altered m m' /\
    current_detail m' tid pid ep = inr d' /\ TxnDetail.state d' <> Some Begin.
Proof.
  intros Hc Hs. pose proof (resolve_altered tid pid ep committed m) as Ha. unfold resolve in *. rewrite Hc in *.
  destruct (produced_ok _ _ _ _ _ Hc) as (cs & Hcs & _). unfold overlapping_transactions in *. rewrite Hcs in *.
  cbn [rbind] in *. set (xs := omap _ _) in *. destruct (forallb _ xs); [|exists m, ∅, d; by repeat constructor].
  assert (H : forall l acc d0, current_detail acc.1 tid pid ep = inr d0 -> TxnDetail.state d0 <> Some Begin ->
    exists d1, current_detail (foldl resolve_one acc l).1 tid pid ep = inr d1 /\ TxnDetail.state d1 <> Some Begin).
  { clear. induction l as [|x l IH]; intros [m o] d0 H1 H2; cbn [foldl]; [by exists d0|].
    unfold resolve_one. destruct (find_detail m _ _) as [d|]; [|by eapply IH].
    destruct (resolution (TxnDetail.state d)) as [s|] eqn:Er; [|by eapply IH].
    eapply IH; cbn [fst] in *; [rewrite current_alter, H1; done|].
    case_decide; [|done]. cbn. intros [= ->]. by destruct (TxnDetail.state d) as [[]|]. }
  set (l := xs ++ _) in *. destruct (H l (m, ∅) d Hc Hs) as (d1 & H1 & H2).
  destruct (foldl resolve_one (m, ∅) l) as [m' o]. by exists m', o, d1.
Qed.

(** [EndTxn] of the current epoch always answers, and ends what was begun, or
    leaves it prepared. *)
Lemma end_txn_answers env tid pid ep committed m d :
  calm env -> current_detail m tid pid ep = inr d ->
  exists s d', end_txn env tid pid ep committed m = (s, Ok NONE) /\ altered m (doc s) /\
    current_detail (doc s) tid pid ep = inr d' /\ TxnDetail.state d' <> Some Begin.
Proof.
  intros He Hc. destruct (decide (TxnDetail.state d = Some Begin)) as [Hb|Hb].
  - destruct (end_txn_prepares env tid pid ep committed m d He Hc Hb) as (h & Hm & ->). cbn zeta.
    destruct (resolve_answers tid pid ep committed (alter_detail h tid ep m) (h d)) as (m' & o & d' & -> & Ha & Hc' & Hs).
    + rewrite current_alter, Hc. by rewrite decide_True.
    + rewrite (marked_state _ _ Hm). cbn. by destruct committed.
    + exists (mkRun m' (ranges (TxnDetail.produces d)).*1 (prod_map id group_commits <$> entries_of o)), d'.
      split; [done|]. split; [|done]. clear - Ha. cbn. induction Ha as [|g id e m' _ IH]; [repeat constructor|by constructor].
  - unfold end_txn. rewrite (calm_prepare _ He). cbn [guarded]. unfold prepare.
    rewrite Hc, bool_decide_eq_false_2 by done. cbn [write_markers doc]. rewrite (calm_resolve _ He). cbn [guarded].
    destruct (resolve_answers tid pid ep committed m d Hc Hb) as (m' & o & d' & -> & Ha & Hc' & Hs).
    rewrite commit_groups_calm by done. cbn. by eexists _, d'.
Qed.

Lemma init_bumps tid timeout m txn current d :
  meta_ok m -> Meta.transactions m !! tid = Some txn -> last_entry (Txn.epochs txn) = Some (current, d) ->
  TxnDetail.state d <> Some Begin -> current < 32767 ->
  exists pd, init_transactional tid timeout (Some (-1)) (Some (-1)) m =
      (with_epoch m tid txn pd (current + 1) timeout,
       Ok (Completed (ProducerIdResponse.mk (Txn.producer txn) (current + 1) NONE))) /\
    current_detail (with_epoch m tid txn pd (current + 1) timeout) tid (Txn.producer txn) (current + 1) =
      inr (TxnDetail.new timeout).
Proof.
  intros Hok Ht El Hs Hlt. destruct (mok_producer _ Hok _ _ Ht) as (pd & Hpd & Hseq). exists pd.
  apply last_entry_Some in El as El'. destruct El' as [Hcur Hmax].
  assert (Hr : in_i16 current = true) by (eapply mok_range; [done..|by exists d]).
  apply s_range_spec in Hr.
  assert (Hw : wrap_s 16 (current + 1) = current + 1).
  { apply wrap_s_small; [lia|]. apply s_range_spec. change (2 ^ (16 - 1)) with 32768 in *. lia. }
  assert (Hn : Txn.epochs txn !! (current + 1) = None).
  { apply eq_None_not_Some. intros Hx%Hmax. lia. }
  assert (Hns : sequences pd !! (current + 1) = None).
  { apply eq_None_not_Some. intros Hx%Hseq. by rewrite Hn in Hx; destruct Hx. }
  split.
  - unfold init_transactional. rewrite bool_decide_eq_true_2 by done. rewrite Ht. unfold init_occupied.
    rewrite El, bool_decide_eq_false_2 by done. cbn zeta. rewrite Hw. unfold bump_sequences. rewrite Hpd, Hns.
    cbn [rbind]. by rewrite Hn.
  - unfold current_detail, with_epoch. cbn. rewrite lookup_insert_eq. cbn. rewrite Z.eqb_refl. cbn.
    rewrite last_entry_insert by (intros k Hk; apply Hmax in Hk; lia). by rewrite Z.eqb_refl.
Qed.

Lemma current_entry m tid pid ep d :
  current_detail m tid pid ep = inr d <->
  exists txn, Meta.transactions m !! tid = Some txn /\ Txn.producer txn = pid /\ last_entry (Txn.epochs txn) = Some (ep, d).
Proof.
  unfold current_detail. destruct (Meta.transactions m !! tid) as [txn|]; [|split; [done|by intros (? & ? & _)]].
  split.
  - destruct (Z.eqb_spec (Txn.producer txn) pid); cbn; [|done].
    destruct (last_entry (Txn.epochs txn)) as [[k d']|] eqn:El; [|done].
    destruct (Z.eqb_spec ep k); cbn; [|done]. intros [= ->]. exists txn. by subst.
  - intros (txn' & [= <-] & -> & ->). rewrite Z.eqb_refl. cbn. by rewrite Z.eqb_refl.
Qed.

(** The transactional id belongs to the epoch after [current]. *)
Record taken_over (m : Meta) (tid : bytes) (id current timeout : Z) : Prop := mkTakenOver {
  taken_ok : meta_ok m;
  taken_ended : exists d, find_detail m tid current = Some d /\ TxnDetail.state d <> Some Begin;
  taken_current : current_detail m tid id (current + 1) = inr (TxnDetail.new timeout);
  taken_fenced pid ep : (pid, ep) <> (id, current + 1) -> exists code, current_detail m tid pid ep = inl code;
}.

Lemma bump_takes_over tid timeout m txn current d :
  meta_ok m -> Meta.transactions m !! tid = Some txn -> last_entry (Txn.epochs txn) = Some (current, d) ->
  TxnDetail.state d <> Some Begin -> current < 32767 ->
  exists m', init_transactional tid timeout (Some (-1)) (Some (-1)) m =
      (m', Ok (Completed (ProducerIdResponse.mk (Txn.producer txn) (current + 1) NONE))) /\
    taken_over m' tid (Txn.producer txn) current timeout.
Proof.
  intros Hok Ht El Hs Hlt. destruct (init_bumps tid timeout m txn current d Hok Ht El Hs Hlt) as (pd & Hi & Hc).
  eexists. split; [done|]. split; [| |done|].
  - pose proof (init_transactional_spec tid timeout (Some (-1)) (Some (-1)) m Hok) as H. rewrite Hi in H. apply H.
  - exists d. unfold find_detail, with_epoch. cbn. rewrite lookup_insert_eq. cbn. rewrite lookup_insert_ne by lia.
    by apply last_entry_Some in El as [-> _].
  - intros pid ep Hne. destruct (current_detail _ tid pid ep) as [code|d'] eqn:Ec; [by exists code|].
    apply current_entry in Ec as (x & Hx & <- & Hl), Hc as (y & Hy & Hp & Hl'). destruct Hne. congruence.
Qed.

(** The answer to the epoch taken over: it is given once the producer's own document
    has the epoch, and the request fails with the store's error otherwise. *)
Lemma seeded_answer env id epoch m ps :
  exists ps', seeded env (ProducerIdResponse.mk id epoch NONE) m ps =
    (m, ps', match (if id <? 0 then None else seed_fault env id) with
             | None => Ok (ProducerIdResponse.mk id epoch NONE) | Some e => Err e end) /\
    (0 <= id -> seed_fault env id = None ->
     exists pd, ps' !! id = Some pd /\ is_Some (sequences pd !! epoch)).
Proof.
  unfold seeded. cbn [ProducerIdResponse.error ProducerIdResponse.id]. rewrite Z.eqb_refl. cbn [negb orb].
  destruct (Z.ltb_spec id 0) as [Hn|Hn]; [exists ps; split; [done|lia]|].
  destruct (seed_fault env id) as [e|] eqn:Ef; [by exists ps|]. eexists. split; [done|]. intros _ _.
  rewrite lookup_insert_eq. eexists. split; [done|]. unfold seed_producer. cbn.
  rewrite (proj2 (Z.ltb_ge id 0)) by lia. set (pd := default _ _).
  destruct (sequences pd !! epoch) eqn:Es; [by rewrite Es|]. cbn. by rewrite lookup_insert_eq.
Qed.


(** ** An aborted transaction in the way *)

(** It is found by every transaction that wrote to its partition up to it. *)
Lemma first_overlap_finds own cs id txn l e d' t r' c :
  own.1.1 <> id -> (e, d') ∈ l -> NoDup l.*1 -> TxnDetail.state d' = Some Aborted -> range_of d' t = Some r' ->
  cs !! t = Some c -> offset_start r' < offset_end c ->
  (forall e2 d2, (e2, d2) ∈ l -> e2 <> e -> forall t', range_of d2 t' = None) ->
  first_overlap own cs id txn l = Some (TxnId.mk id (Txn.producer txn) e Aborted).
Proof.
  intros Hne Hin Hn Hs Hr Hc Hlt Hother. induction l as [|[e2 d2] l IH]; [by apply elem_of_nil in Hin|].
  cbn [first_overlap]. rewrite bool_decide_eq_false_2 by (intros ->; done).
  apply NoDup_cons in Hn as [Hx Hn].
  apply elem_of_cons in Hin as [[= <- <-]|Hin].
  - rewrite Hs. rewrite (proj2 (existsb_exists _ _)); [done|]. exists (t, r').
    split; [by apply list_elem_of_In, elem_of_ranges|]. unfold overlaps_range. cbn. rewrite Hc. by apply Z.ltb_lt.
  - assert (He : e2 <> e).
    { intros ->. apply Hx, list_elem_of_fmap. by exists (e, d'). }
    assert (Hnone : ranges (TxnDetail.produces d2) = []).
    { destruct (ranges (TxnDetail.produces d2)) as [|[t2 r2] rs] eqn:Er; [done|].
      assert (H2 : (t2, r2) ∈ ranges (TxnDetail.produces d2)) by (rewrite Er; left).
      apply elem_of_ranges in H2. rewrite (Hother e2 d2) in H2; [done|left|done]. }
    rewrite Hnone. cbn [existsb].
    assert (IH' : first_overlap own cs id txn l = Some (TxnId.mk id (Txn.producer txn) e Aborted)).
    { apply IH; [done|done|]. intros e3 d3 H3. apply Hother. by right. }
    by destruct (TxnDetail.state d2).
Qed.

(** The aborted epoch [e] of another id, the only one with ranges on record, began
    before [d] ended on [t]. *)
Record in_the_way (m : Meta) (tid : bytes) (d : TxnDetail) (t : Topition) (id : bytes) (e : Z) : Prop := mkInTheWay {
  way_other : id <> tid;
  way_aborted : exists d', find_detail m id e = Some d' /\ TxnDetail.state d' = Some Aborted /\
    exists r r', range_of d t = Some r /\ range_of d' t = Some r' /\ offset_start r' < offset_end r;
  way_only e2 d2 : e2 <> e -> find_detail m id e2 = Some d2 -> forall t', range_of d2 t' = None;
}.

(** So [resolve] leaves the document as it is. *)
Lemma way_blocks m tid pid ep d t id e committed :
  current_detail m tid pid ep = inr d -> in_the_way m tid d t id e ->
  resolve tid pid ep committed m = (m, Ok ∅).
Proof.
  intros Hc [Hne (d' & Hd & Hs & r & r' & Hr & Hr' & Hlt) Ho]. unfold resolve. rewrite Hc.
  destruct (produced_ok _ _ _ _ _ Hc) as (cs & Hcs & Hcr). unfold overlapping_transactions. rewrite Hcs. cbn [rbind].
  unfold find_detail in Hd. destruct (Meta.transactions m !! id) as [txn|] eqn:Et; [|done]. cbn in Hd.
  assert (Hx : TxnId.mk id (Txn.producer txn) e Aborted ∈ omap (fun '(candidate_id, txn) =>
    first_overlap (tid, pid, ep) cs candidate_id txn (entries_of (Txn.epochs txn))) (entries_of (Meta.transactions m))).
  { apply list_elem_of_omap. exists (id, txn). split; [by apply elem_of_entries|].
    eapply (first_overlap_finds _ _ _ _ _ e d' t r' r); try done.
    - by apply elem_of_entries.
    - apply entries_of_NoDup.
    - by rewrite Hcr.
    - intros e2 d2 H2%elem_of_entries He. apply (Ho e2); [done|]. unfold find_detail. by rewrite Et. }
  destruct (forallb _ _) eqn:Ef; [|done]. exfalso.
  apply list_elem_of_In in Hx. by eapply forallb_forall in Ef; [|exact Hx].
Qed.

(** An open transaction holds the reader back. *)
Lemma stage_held m t o high_watermark log_start stage :
  open_start m t o -> offset_stage m t high_watermark log_start = Ok stage -> OffsetStage.last_stable stage <= o.
Proof.
  intros Ho. unfold offset_stage. destruct (floors_least m) as (floors & -> & Hf). specialize (Hf t). cbn [rbind].
  intros H%Ok_inj. subst stage. cbn. destruct (floors !! t) as [f|]; cbn; [by apply Hf|by apply Hf in Ho].
Qed.

(** C40 A transaction that aborted blocks the partitions it wrote to for everybody
    after it.  Let an aborted transaction of another id, the only epoch of the id
    with ranges on record, have begun on a partition before this transaction
    ended there.  Then [EndTxn] writes this transaction's markers and answers no
    error, but leaves it prepared; every repeated [EndTxn] answers no error and
    changes nothing, writes no marker and commits no offset; and a read-committed
    reader of the partition is held at or before the transaction's first offset. *)
Theorem aborted_blocks_commit env tid pid ep committed m d t id e r :
  calm env -> current_detail m tid pid ep = inr d -> TxnDetail.state d = Some Begin ->
  in_the_way m tid d t id e -> range_of d t = Some r ->
  exists m' d', end_txn env tid pid ep committed m = (mkRun m' (ranges (TxnDetail.produces d)).*1 [], Ok NONE) /\
    find_detail m' tid ep = Some d' /\ TxnDetail.state d' = Some (prepared_as committed) /\
    (forall env' committed', calm env' -> end_txn env' tid pid ep committed' m' = (mkRun m' [] [], Ok NONE)) /\
    (forall high_watermark log_start stage, offset_stage m' t high_watermark log_start = Ok stage ->
       OffsetStage.last_stable stage <= offset_start r).
Proof.
  intros He Hc Hs Hw Hr. destruct (end_txn_prepares env tid pid ep committed m d He Hc Hs) as (h & Hm & ->).
  set (m1 := alter_detail h tid ep m). cbn zeta.
  assert (Hc1 : current_detail m1 tid pid ep = inr (h d)).
  { unfold m1. rewrite current_alter, Hc. by rewrite decide_True. }
  destruct (proj2 (marked_ranges _ _ Hm t) (mk_is_Some _ _ Hr)) as [r1 Hr1].
  destruct (marked_wider _ _ Hm t r r1 Hr Hr1) as [Hlo Hhi].
  assert (Hst : TxnDetail.state (h d) = Some (prepared_as committed)) by (by rewrite (marked_state _ _ Hm)).
  assert (Hw1 : in_the_way m1 tid (h d) t id e).
  { destruct Hw as [Hne (d' & Hd & Hs' & r0 & r' & Hr0 & Hr' & Hlt) Ho].
    assert (Hf : forall e2, find_detail m1 id e2 = find_detail m id e2) by (intros e2; apply find_alter_ne; congruence).
    split; [done| |intros e2 d2 H2; rewrite Hf; by apply Ho]. exists d'. rewrite Hf. split; [done|]. split; [done|].
    exists r1, r'. split; [done|]. split; [done|]. assert (r0 = r) as -> by congruence. lia. }
  rewrite (way_blocks m1 tid pid ep (h d) t id e committed Hc1 Hw1). exists m1, (h d).
  split; [done|]. split; [by apply current_find in Hc1|]. split; [done|]. split.
  - intros env' committed' He'. unfold end_txn. rewrite (calm_prepare _ He'). cbn [guarded]. unfold prepare.
    rewrite Hc1, Hst, bool_decide_eq_false_2 by (by destruct committed). cbn [write_markers doc].
    rewrite (calm_resolve _ He'). cbn [guarded]. by rewrite (way_blocks m1 tid pid ep (h d) t id e committed' Hc1 Hw1).
  - intros hw ls stage Hstage. transitivity (offset_start r1); [|done]. eapply stage_held; [|exact Hstage].
    exists tid, ep, (h d), r1. split; [by apply current_find in Hc1|]. split; [|done].
    unfold unresolved. rewrite Hst. by destruct committed.
Qed.

(** ** Where it goes wrong *)

Module Scenario.
Definition t0 : Topition := Topition.mk [x74] 0.
Definition group : bytes := [x67].
Definition alice : bytes := [x61].
Definition bob : bytes := [x62].

(** Markers are appended at [o]. *)
Definition env_at (o : Z) : Env :=
  mkEnv None (fun _ => Ok o) (fun _ => None) None (fun _ l => Ok ((fun x => (x.1, NONE)) <$> l)) (fun _ => None).
(** The append of a marker fails. *)
Definition env_broken : Env :=
  mkEnv None (fun _ => Err Transport) (fun _ => None) None (fun _ l => Ok ((fun x => (x.1, NONE)) <$> l)) (fun _ => None).

Lemma env_at_calm o : calm (env_at o).
Proof. split; cbn; eauto. Qed.

Definition init (tid : bytes) (m : Meta) : Meta := (init_transactional tid 60000 (Some (-1)) (Some (-1)) m).1.

(** One record to [t0] at [o], in a transaction begun for it. *)
Definition write (tid : bytes) (pid o : Z) (m : Meta) : Meta :=
  (register tid 0 t0 o 0 (add_txn_partitions_closure tid pid 0 [mkAddTopic [x74] (Some [0])] 100 m).1).1.

Definition ended (r : Run * result Z) : Meta := doc r.1.

(** Alice writes offset 0 and aborts: the marker is offset 1. *)
Definition alice_aborted : Meta := ended (end_txn (env_at 1) alice 1 0 false (write alice 1 0 (init alice Meta.empty))).

(** Bob writes offset 2 and commits: the marker is offset 3. *)
Definition bob_begun : Meta := write bob 2 2 (init bob alice_aborted).
Definition bob_ended : Meta := ended (end_txn (env_at 3) bob 2 0 true bob_begun).

(** Alice goes on in her epoch: offset 2, then the commit marker, offset 3. *)
Definition alice_begun : Meta := write alice 1 2 alice_aborted.
Definition alice_ended : Meta := ended (end_txn (env_at 3) alice 1 0 true alice_begun).

(** Alice commits a write, then only consumes. *)
Definition alice_committed : Meta := ended (end_txn (env_at 1) alice 1 0 true (write alice 1 0 (init alice Meta.empty))).
Definition consumed : TxnOffsetCommitRequest :=
  TxnOffsetCommitRequest.mk alice group 1 0 [mkOffsetTopic [x74] (Some [(0, mkCommitOffset 7 None None)])].

Definition state_of (m : Meta) (tid : bytes) : option TxnState := find_detail m tid 0 ≫= TxnDetail.state.
End Scenario.

(** Aborted records come back: a producer that commits a transaction after
    aborting one in the same epoch, as clients do, has the aborted range erased
    with the committed one, so that a read-committed fetch no longer reports it;
    and while the second transaction is open the last stable offset is back at the
    start of the aborted one. *)
Theorem aborted_range_forgotten :
  rmap OffsetStage.aborted (offset_stage Scenario.alice_aborted Scenario.t0 2 0) = Ok [(1, 0)] /\
  rmap OffsetStage.last_stable (offset_stage Scenario.alice_aborted Scenario.t0 2 0) = Ok 2 /\
  rmap OffsetStage.last_stable (offset_stage Scenario.alice_begun Scenario.t0 3 0) = Ok 0 /\
  Scenario.state_of Scenario.alice_ended Scenario.alice = Some Committed /\
  offset_stage Scenario.alice_ended Scenario.t0 4 0 = Ok (OffsetStage.mk 4 4 0 []).
Proof. vm_compute. done. Qed.

(** A transaction that only commits offsets, after one that wrote, loses them:
    [AddOffsetsToTxn] does not begin it, and [EndTxn] finds it committed. *)
Lemma consumed_offsets_lost :
  let pending := (txn_offset_commit Scenario.consumed Scenario.alice_committed).1 in
  (txn_offset_commit Scenario.consumed Scenario.alice_committed).2 = Ok [([x74], [(0, NONE)])] /\
  (end_txn (Scenario.env_at 3) Scenario.alice 1 0 true pending).1 = mkRun pending [] [] /\
  (end_txn (Scenario.env_at 3) Scenario.alice 1 0 true pending).2 = Ok NONE /\
  offset_at (default ∅ (TxnDetail.offsets <$> find_detail pending Scenario.alice 0)) Scenario.group [x74] 0 =
    Some (mkCommitOffset 7 None None).
Proof.
  intros pending. split; [vm_compute; reflexivity|].
  split; [apply (bool_decide_unpack _); vm_compute; exact I|]. split; vm_compute; reflexivity.
Qed.

(** An [EndTxn] that failed on its first marker is answered with a retriable code,
    and the retry writes none: the transaction is aborted in the document while
    the log has no marker for it. *)
Lemma retried_end_writes_no_marker :
  let begun := Scenario.write Scenario.alice 1 0 (Scenario.init Scenario.alice Meta.empty) in
  let failed := end_txn Scenario.env_broken Scenario.alice 1 0 false begun in
  let retried := end_txn (Scenario.env_at 1) Scenario.alice 1 0 false (doc failed.1) in
  end_service failed.2 = Ok KafkaStorageError /\ retried.2 = Ok NONE /\
  markers failed.1 ++ markers retried.1 = [] /\
  Scenario.state_of (doc retried.1) Scenario.alice = Some Aborted.
Proof. vm_compute. done. Qed.

(** After epoch 32767 the next one wraps to one that is fenced from the start, and
    the one after that panics with the document's lock held. *)
Lemma epochs_run_out :
  let m := Meta.mk {[1 := mkProducerDetail {[32767 := ∅]}]}
             {[Scenario.alice := Txn.mk 1 {[32767 := TxnDetail.new 60000]}]} in
  let '(m', r) := init_transactional Scenario.alice 60000 (Some (-1)) (Some (-1)) m in
  r = Ok (Completed (ProducerIdResponse.mk 1 (-32768) NONE)) /\
  current_detail m' Scenario.alice 1 (-32768) = inl ProducerFenced /\
  (init_transactional Scenario.alice 60000 (Some (-1)) (Some (-1)) m').2 = Panic AssertionFailed.
Proof. vm_compute. done. Qed.

(** ** Witnesses *)

Module Brokers.
Definition add : TxnEvent := AddPartitions Scenario.alice 1 0 [mkAddTopic [x74] (Some [0])] 100.
Definition init : TxnEvent := InitTransactional Scenario.alice 60000 (Some (-1)) (Some (-1)).

(** Broker 0 initialises Alice while broker 1 hands out an idempotent id, and is
    refused until it has read broker 0's write; broker 1 then initialises Alice
    again, and broker 0, which has not seen it, is asked for the first epoch. *)
Definition schedule : list (@Action Z TxnEvent Empty_set) :=
  [DoCall 0 0 init; DoRun 0; DoCall 1 1 (InitIdempotent (Some (-1)) (Some (-1))); DoRun 1;
   DoPut 0 100; DoAck 0; DoRefuse 1; DoFetch 1; DoLand 1; DoRun 1; DoPut 1 101; DoAck 1;
   DoCall 2 1 init; DoRun 2; DoPut 2 102; DoAck 2;
   DoCall 3 0 add; DoRun 3; DoRefuse 3; DoFetch 3; DoLand 3; DoRun 3; DoPut 3 103; DoAck 3].

Definition final : TxnWorld := default world0 (run_schedule Meta.empty apply_event no_create schedule).

Lemma brokers_reach : txn_reach final.
Proof. apply schedule_reach. vm_compute. reflexivity. Qed.

Definition given (id epoch : Z) : ProducerIdResponse := ProducerIdResponse.mk id epoch NONE.

Lemma final_log :
  log final =
    [Applied 3 add (Ok (Codes [([x74], [(0, ProducerFenced)])]));
     Applied 2 init (Ok (Initialised (Completed (given 1 1))));
     Applied 1 (InitIdempotent (Some (-1)) (Some (-1))) (Ok (Identified (given 2 0)));
     Applied 0 init (Ok (Initialised (Completed (given 1 0))))].
Proof. vm_compute. reflexivity. Qed.

Lemma brokers_replies :
  replies final =
    [(3%nat, Done (Ok (Codes [([x74], [(0, ProducerFenced)])])));
     (2%nat, Done (Ok (Initialised (Completed (given 1 1)))));
     (1%nat, Done (Ok (Identified (given 2 0))));
     (0%nat, Done (Ok (Initialised (Completed (given 1 0)))))].
Proof. vm_compute. reflexivity. Qed.

Lemma final_kept : Removed ∉ log final.
Proof. rewrite final_log. rewrite !not_elem_of_cons. repeat split; try discriminate. apply not_elem_of_nil. Qed.
End Brokers.

Lemma producer_ids_unique_witness : (1, 1) <> (1, 0).
Proof.
  apply (producer_ids_unique Brokers.final 2 0 (Initialised (Completed (Brokers.given 1 1)))
    (Initialised (Completed (Brokers.given 1 0)))).
  - exact Brokers.brokers_reach.
  - exact Brokers.final_kept.
  - discriminate.
  - rewrite Brokers.brokers_replies. right. left.
  - rewrite Brokers.brokers_replies. do 3 right. left.
  - reflexivity.
  - reflexivity.
Defined.

Lemma zombie_fenced_witness :
  Ok (Codes [([x74], [(0, ProducerFenced)])]) = refusal Brokers.add ProducerFenced.
Proof.
  refine (proj1 (zombie_fenced Brokers.final [] 3 Brokers.add (Ok (Codes [([x74], [(0, ProducerFenced)])])) [] 2
    Scenario.alice 60000 (Some (-1)) (Some (-1)) (Initialised (Completed (Brokers.given 1 1))) _ 1 1 1 0
    Brokers.brokers_reach _ Brokers.final_log _ _ _)).
  - apply not_elem_of_nil.
  - reflexivity.
  - reflexivity.
  - right. lia.
Defined.

(** Alice's transaction, with nobody else around. *)
Module Alone.
Definition begun : Meta := Scenario.write Scenario.alice 1 0 (Scenario.init Scenario.alice Meta.empty).
Definition detail : TxnDetail := default (TxnDetail.new 0) (find_detail begun Scenario.alice 0).

Lemma begun_txn : Meta.transactions begun = {[Scenario.alice := Txn.mk 1 {[0 := detail]}]}.
Proof. apply (bool_decide_unpack _). vm_compute. exact I. Qed.

Lemma begun_current : current_detail begun Scenario.alice 1 0 = inr detail.
Proof.
  apply current_entry. exists (Txn.mk 1 {[0 := detail]}). rewrite begun_txn, lookup_singleton_eq.
  split; [done|]. split; [done|]. apply last_entry_insert. intros k [? Hk]. by rewrite lookup_empty in Hk.
Qed.

Lemma begun_quiet : quiet begun Scenario.alice 0 detail.
Proof.
  intros id e d' t s Hne Hd. exfalso. apply Hne. revert Hd.
  unfold find_detail. rewrite begun_txn. destruct (decide (id = Scenario.alice)) as [->|Hid].
  - rewrite lookup_singleton_eq. cbn. by intros (<- & _)%lookup_singleton_Some.
  - by rewrite lookup_singleton_ne by congruence.
Qed.
End Alone.

Lemma end_txn_resolves_witness :
  exists s, end_txn (Scenario.env_at 1) Scenario.alice 1 0 true Alone.begun = (s, Ok NONE) /\ markers s = [Scenario.t0].
Proof.
  destruct (end_txn_resolves (Scenario.env_at 1) Scenario.alice 1 0 true Alone.begun Alone.detail) as (s & H1 & H2 & _).
  - apply Scenario.env_at_calm.
  - exact Alone.begun_current.
  - vm_compute. reflexivity.
  - apply Alone.begun_quiet.
  - exists s. split; [exact H1|]. rewrite H2. vm_compute. reflexivity.
Defined.

Lemma begun_ok : meta_ok Alone.begun.
Proof.
  change Alone.begun with (apply_event (Register Scenario.alice 0 Scenario.t0 0 0)
    (apply_event (AddPartitions Scenario.alice 1 0 [mkAddTopic [x74] (Some [0])] 100)
      (apply_event (InitTransactional Scenario.alice 60000 (Some (-1)) (Some (-1))) Meta.empty).1).1).1.
  by do 3 apply event_keeps; apply meta_ok_empty.
Qed.


(** Alice aborted at offset 0; Bob wrote offset 2 after her and commits. *)
Module Blocked.
Definition alice_detail : TxnDetail := default (TxnDetail.new 0) (find_detail Scenario.bob_begun Scenario.alice 0).
Definition bob_detail : TxnDetail := default (TxnDetail.new 0) (find_detail Scenario.bob_begun Scenario.bob 0).

Lemma alice_found : Meta.transactions Scenario.bob_begun !! Scenario.alice = Some (Txn.mk 1 {[0 := alice_detail]}).
Proof. apply (bool_decide_unpack _). vm_compute. exact I. Qed.

Lemma bob_blocked : in_the_way Scenario.bob_begun Scenario.bob bob_detail Scenario.t0 Scenario.alice 0.
Proof.
  split.
  - discriminate.
  - exists alice_detail. split; [unfold find_detail; rewrite alice_found; exact (lookup_singleton_eq 0 alice_detail)|].
    split; [vm_compute; reflexivity|]. exists (mkRange 2 2), (mkRange 0 1).
    split; [vm_compute; reflexivity|]. split; [vm_compute; reflexivity|]. reflexivity.
  - intros e2 d2 Hne Hd. exfalso. apply Hne. unfold find_detail in Hd. rewrite alice_found in Hd. cbn in Hd.
    by apply lookup_singleton_Some in Hd as [-> _].
Qed.
End Blocked.

Lemma aborted_blocks_commit_witness :
  exists m' d', end_txn (Scenario.env_at 3) Scenario.bob 2 0 true Scenario.bob_begun =
      (mkRun m' [Scenario.t0] [], Ok NONE) /\
    find_detail m' Scenario.bob 0 = Some d' /\ TxnDetail.state d' = Some PrepareCommit.
Proof.
  assert (Hc : current_detail Scenario.bob_begun Scenario.bob 2 0 = inr Blocked.bob_detail) by (vm_compute; reflexivity).
  assert (Hb : TxnDetail.state Blocked.bob_detail = Some Begin) by (vm_compute; reflexivity).
  assert (Hr : range_of Blocked.bob_detail Scenario.t0 = Some (mkRange 2 2)) by (vm_compute; reflexivity).
  assert (Ht : (ranges (TxnDetail.produces Blocked.bob_detail)).*1 = [Scenario.t0]) by (vm_compute; reflexivity).
  destruct (aborted_blocks_commit (Scenario.env_at 3) Scenario.bob 2 0 true Scenario.bob_begun Blocked.bob_detail
    Scenario.t0 Scenario.alice 0 (mkRange 2 2) (Scenario.env_at_calm 3) Hc Hb Blocked.bob_blocked Hr)
    as (m' & d' & H1 & H2 & H3 & _).
  rewrite Ht in H1. exists m', d'. exact (conj H1 (conj H2 H3)).
Defined.
