(* ===== verification/Acl.v ===== *)
(** * Acl: access-control rules and the decision taken against them

    [tansu-storage/src/acl.rs] (bindings, filters and the decision),
    [authorizer.rs] (the snapshot each broker decides from), the three
    operations of [dynostore/storage.rs] and [dynostore/principals.rs] on the
    rules' document, the [CreateAcls], [DeleteAcls] and [DescribeAcls] services,
    and the enums of [tansu-sans-io/src/acl.rs] and [resource.rs]. *)

From S2P Require Export Ordered Cas.

(** ** The enums, with their wire codes *)

Module Permission.
Inductive Permission := Unknown | Any | Deny | Allow.
Definition to_i8 (p : Permission) : Z := match p with Unknown => 0 | Any => 1 | Deny => 2 | Allow => 3 end.
Definition from_i8 (z : Z) : Permission :=
  if z =? to_i8 Allow then Allow else if z =? to_i8 Any then Any else if z =? to_i8 Deny then Deny else Unknown.
End Permission.
Export Permission (Permission).

Module Operation.
Inductive Operation :=
  | Unknown | Any | All | Read | Write | Create | Delete | Alter | Describe | ClusterAction
  | DescribeConfigs | AlterConfigs | IdempotentWrite | CreateTokens | DescribeTokens | TwoPhaseCommit.
Definition to_i8 (o : Operation) : Z :=
  match o with
  | Unknown => 0 | Any => 1 | All => 2 | Read => 3 | Write => 4 | Create => 5 | Delete => 6 | Alter => 7
  | Describe => 8 | ClusterAction => 9 | DescribeConfigs => 10 | AlterConfigs => 11 | IdempotentWrite => 12
  | CreateTokens => 13 | DescribeTokens => 14 | TwoPhaseCommit => 15
  end.
Definition from_i8 (z : Z) : Operation :=
  if z =? to_i8 All then All else if z =? to_i8 Alter then Alter
  else if z =? to_i8 AlterConfigs then AlterConfigs else if z =? to_i8 Any then Any
  else if z =? to_i8 ClusterAction then ClusterAction else if z =? to_i8 Create then Create
  else if z =? to_i8 CreateTokens then CreateTokens else if z =? to_i8 Delete then Delete
  else if z =? to_i8 Describe then Describe else if z =? to_i8 DescribeConfigs then DescribeConfigs
  else if z =? to_i8 DescribeTokens then DescribeTokens else if z =? to_i8 IdempotentWrite then IdempotentWrite
  else if z =? to_i8 Read then Read else if z =? to_i8 TwoPhaseCommit then TwoPhaseCommit
  else if z =? to_i8 Write then Write else Unknown.
End Operation.
Export Operation (Operation).

Module Resource.
Inductive Resource := Unknown | Any | Topic | Group | Cluster | TransactionalId | DelegationToken | User.
Definition to_i8 (r : Resource) : Z :=
  match r with
  | Unknown => 0 | Any => 1 | Topic => 2 | Group => 3 | Cluster => 4 | TransactionalId => 5
  | DelegationToken => 6 | User => 7
  end.
Definition from_i8 (z : Z) : Resource :=
  if z =? to_i8 Any then Any else if z =? to_i8 Cluster then Cluster
  else if z =? to_i8 DelegationToken then DelegationToken else if z =? to_i8 Group then Group
  else if z =? to_i8 Topic then Topic else if z =? to_i8 TransactionalId then TransactionalId
  else if z =? to_i8 User then User else Unknown.
End Resource.
Export Resource (Resource).

Module Pattern.
Inductive Pattern := Unknown | Any | Match | Literal | Prefixed.
Definition to_i8 (p : Pattern) : Z :=
  match p with Unknown => 0 | Any => 1 | Match => 2 | Literal => 3 | Prefixed => 4 end.
Definition from_i8 (z : Z) : Pattern :=
  if z =? to_i8 Any then Any else if z =? to_i8 Literal then Literal
  else if z =? to_i8 Match then Match else if z =? to_i8 Prefixed then Prefixed else Unknown.
End Pattern.
Export Pattern (Pattern).

#[export] Instance permission_eq_dec : EqDecision Permission.
Proof. solve_decision. Defined.
#[export] Instance operation_eq_dec : EqDecision Operation.
Proof. solve_decision. Defined.
#[export] Instance resource_eq_dec : EqDecision Resource.
Proof. solve_decision. Defined.
#[export] Instance pattern_eq_dec : EqDecision Pattern.
Proof. solve_decision. Defined.

Lemma permission_wire p : Permission.from_i8 (Permission.to_i8 p) = p.
Proof. by destruct p. Qed.
Lemma operation_wire o : Operation.from_i8 (Operation.to_i8 o) = o.
Proof. by destruct o. Qed.
Lemma resource_wire r : Resource.from_i8 (Resource.to_i8 r) = r.
Proof. by destruct r. Qed.
Lemma pattern_wire p : Pattern.from_i8 (Pattern.to_i8 p) = p.
Proof. by destruct p. Qed.

(** ** Rules *)

Definition WILDCARD_PRINCIPAL : bytes := ascii_bytes "User:*".
Definition WILDCARD_HOST : bytes := ascii_bytes "*".
Definition WILDCARD_RESOURCE : bytes := ascii_bytes "*".
Definition CLUSTER_RESOURCE : bytes := ascii_bytes "kafka-cluster".

Module AclBinding.
Record AclBinding := mk {
  resource_type : Resource;
  resource_name : bytes;
  pattern : Pattern;
  principal : bytes;
  host : bytes;
  operation : Operation;
  permission : Permission;
}.
End AclBinding.
Export AclBinding (AclBinding).

(** The derived order compares the fields in turn, an enum by its discriminant. *)
Definition binding_key (b : AclBinding) : Z * (bytes * (Z * (bytes * (bytes * (Z * Z))))) :=
  (Resource.to_i8 (AclBinding.resource_type b), (AclBinding.resource_name b, (Pattern.to_i8 (AclBinding.pattern b),
    (AclBinding.principal b, (AclBinding.host b, (Operation.to_i8 (AclBinding.operation b),
      Permission.to_i8 (AclBinding.permission b))))))).

Definition binding_of_key (k : Z * (bytes * (Z * (bytes * (bytes * (Z * Z)))))) : AclBinding :=
  let '(r, (n, (p, (u, (h, (o, a)))))) := k in
  AclBinding.mk (Resource.from_i8 r) n (Pattern.from_i8 p) u h (Operation.from_i8 o) (Permission.from_i8 a).

Lemma binding_key_inv b : binding_of_key (binding_key b) = b.
Proof. destruct b. cbn. by rewrite resource_wire, pattern_wire, operation_wire, permission_wire. Qed.

#[export] Instance binding_key_inj : Inj (=) (=) binding_key.
Proof. intros a b H. by rewrite <- (binding_key_inv a), H, binding_key_inv. Qed.

#[export] Instance binding_eq_dec : EqDecision AclBinding.
Proof. solve_decision. Defined.
#[export] Instance binding_countable : Countable AclBinding.
Proof. apply (inj_countable' binding_key binding_of_key). exact binding_key_inv. Defined.

#[export, program] Instance binding_order : KeyOrder AclBinding :=
  { key_cmp a b := key_cmp (binding_key a) (binding_key b) }.
Next Obligation. intros a b. rewrite key_cmp_eq. split; [apply (inj binding_key)|by intros ->]. Qed.
Next Obligation. intros a b. apply key_cmp_sym. Qed.
Next Obligation. intros a b c. apply key_cmp_trans. Qed.

Definition selects (b : AclBinding) (resource_type : Resource) (name : bytes) : bool :=
  if negb (bool_decide (AclBinding.resource_type b = resource_type)) then false
  else
    match AclBinding.pattern b with
    | Pattern.Literal =>
        bool_decide (AclBinding.resource_name b = name) ||
        bool_decide (AclBinding.resource_name b = WILDCARD_RESOURCE)
    | Pattern.Prefixed => starts_with name (AclBinding.resource_name b)
    | Pattern.Match | Pattern.Any | Pattern.Unknown => false
    end.

Definition applies_to (b : AclBinding) (principal : bytes) : bool :=
  bool_decide (AclBinding.principal b = principal) || bool_decide (AclBinding.principal b = WILDCARD_PRINCIPAL).

Definition applies_at (b : AclBinding) (host : bytes) : bool :=
  bool_decide (AclBinding.host b = host) || bool_decide (AclBinding.host b = WILDCARD_HOST).

Definition covers (b : AclBinding) (operation : Operation) : bool :=
  bool_decide (AclBinding.operation b = Operation.All) || bool_decide (AclBinding.operation b = operation).

Definition implied_by (operation : Operation) : list Operation :=
  match operation with
  | Operation.Describe => [Operation.Read; Operation.Write; Operation.Delete; Operation.Alter]
  | Operation.DescribeConfigs => [Operation.AlterConfigs]
  | _ => []
  end.

Definition grants (b : AclBinding) (operation : Operation) : bool :=
  covers b operation || bool_decide (AclBinding.operation b ∈ implied_by operation).

(** ** Filters *)

Module AclFilter.
Record AclFilter := mk {
  resource_type : Resource;
  resource_name : option bytes;
  pattern : Pattern;
  principal : option bytes;
  host : option bytes;
  operation : Operation;
  permission : Permission;
}.
Definition any : AclFilter := mk Resource.Any None Pattern.Any None None Operation.Any Permission.Any.
End AclFilter.
Export AclFilter (AclFilter).

Definition name_matches_any (f : AclFilter) (b : AclBinding) : bool :=
  match AclFilter.resource_name f with
  | None => true
  | Some name => bool_decide (name = AclBinding.resource_name b)
  end.

Definition matches (f : AclFilter) (b : AclBinding) : bool :=
  if negb (bool_decide (AclFilter.resource_type f = Resource.Any)) &&
     negb (bool_decide (AclFilter.resource_type f = AclBinding.resource_type b)) then false
  else if negb (bool_decide (AclFilter.operation f = Operation.Any)) &&
          negb (bool_decide (AclFilter.operation f = AclBinding.operation b)) then false
  else if negb (bool_decide (AclFilter.permission f = Permission.Any)) &&
          negb (bool_decide (AclFilter.permission f = AclBinding.permission b)) then false
  else if match AclFilter.principal f with
          | Some principal => negb (bool_decide (principal = AclBinding.principal b))
          | None => false
          end then false
  else if match AclFilter.host f with
          | Some host => negb (bool_decide (host = AclBinding.host b))
          | None => false
          end then false
  else
    match AclFilter.pattern f with
    | Pattern.Any => name_matches_any f b
    | Pattern.Match =>
        match AclFilter.resource_name f with
        | None => true
        | Some name => selects b (AclBinding.resource_type b) name
        end
    | pattern => if bool_decide (pattern = AclBinding.pattern b) then name_matches_any f b else false
    end.

(** ** The decision *)

Record Acls := mkAcls { bindings : gset AclBinding }.

Definition matching (a : Acls) (f : AclFilter) : list AclBinding :=
  filter (fun b => matches f b = true) (set_list (bindings a)).

Definition applicable (a : Acls) (principal host : bytes) (resource_type : Resource) (name : bytes)
    : list AclBinding :=
  filter (fun b => applies_to b principal && applies_at b host && selects b resource_type name = true)
    (set_list (bindings a)).

Definition acls_allow (a : Acls) (principal host : bytes) (resource_type : Resource) (name : bytes)
    (operation : Operation) : bool :=
  let l := applicable a principal host resource_type name in
  if existsb (fun b => bool_decide (AclBinding.permission b = Permission.Deny) && covers b operation) l then false
  else existsb (fun b => bool_decide (AclBinding.permission b = Permission.Allow) && grants b operation) l.

(** ** The document *)

Definition create_closure (new : list AclBinding) (a : Acls) : Acls :=
  mkAcls (foldl (fun s b => {[b]} ∪ s) (bindings a) new).

(** One filter: what it selected, and the rules without it. *)
Definition delete_one (a : Acls) (f : AclFilter) : Acls * list AclBinding :=
  let selected := matching a f in
  (mkAcls (foldl (fun s b => s ∖ {[b]}) (bindings a) selected), selected).

Fixpoint delete_closure (filters : list AclFilter) (a : Acls) : Acls * list (list AclBinding) :=
  match filters with
  | [] => (a, [])
  | f :: filters =>
      let '(a, selected) := delete_one a f in
      let '(a, deleted) := delete_closure filters a in (a, selected :: deleted)
  end.

(** [update_acls] and its sixteen attempts: each reads the document, applies the
    change to it, and writes it back under the version read. *)
Definition ATTEMPTS : nat := 16.

Section update.
Context {V : Type} `{EqDecision V}.

Record AclAttempt := mkAclAttempt {
  acl_read : result (cell Acls V);
  acl_at_write : cell Acls V;
  acl_minted : V;
  acl_reread : cell Acls V;
  acl_fault : option error;
}.

(** [read_acls] *)
Definition read_acls (r : result (cell Acls V)) : result (Acls * option V) :=
  let! c := r in
  Ok match c with Some (a, version) => (a, Some version) | None => (mkAcls ∅, None) end.

Fixpoint update_acls {R} (apply : Acls -> Acls * R) (budget : nat) (attempts : list AclAttempt)
    : result (R * Acls) :=
  match budget, attempts with
  | O, _ => Err (Message "could not write the acls")
  | S _, [] => Panic OutOfFuel
  | S budget, x :: attempts =>
      let! (a, version) := read_acls (acl_read x) in
      let '(a, answer) := apply a in
      match (cas_put (acl_at_write x) a version (acl_minted x) (acl_reread x) (acl_fault x)).2 with
      | inl _ => Ok (answer, a)
      | inr (Outdated _ _ | Vanished) => update_acls apply budget attempts
      | inr (StoreError e) => Err e
      end
  end.

(** An answer is the change applied to what one of the attempts read. *)
Lemma update_acls_answers {R} (apply : Acls -> Acls * R) budget attempts answer written :
  update_acls apply budget attempts = Ok (answer, written) ->
  exists x c, x ∈ attempts /\ acl_read x = Ok c /\ accepted (acl_at_write x) (snd <$> c) = true /\
    acl_fault x = None /\ apply (from_option fst (mkAcls ∅) c) = (written, answer).
Proof.
  revert attempts. induction budget as [|budget IH]; intros attempts; [by destruct attempts|].
  destruct attempts as [|x attempts]; cbn; [done|].
  assert (Hnext : update_acls apply budget attempts = Ok (answer, written) ->
    exists x' c, x' ∈ x :: attempts /\ acl_read x' = Ok c /\ accepted (acl_at_write x') (snd <$> c) = true /\
      acl_fault x' = None /\ apply (from_option fst (mkAcls ∅) c) = (written, answer)).
  { intros (x' & c & Hx & H)%IH. exists x', c. split; [by right|done]. }
  destruct (acl_read x) as [c| |] eqn:Er; cbn; [|done..].
  destruct (match c with Some (a, version) => (a, Some version) | None => (mkAcls ∅, None) end) as [a version] eqn:Ec.
  destruct (apply a) as [a' answer'] eqn:Ea. unfold cas_put.
  destruct (acl_fault x) eqn:Ef; cbn; [done|].
  destruct (accepted (acl_at_write x) version) eqn:Eacc; cbn.
  - intros [= -> ->]. exists x, c. split; [by left|]. split; [done|].
    destruct c as [[a0 v0]|]; cbn in Ec; injection Ec as <- <-; done.
  - by destruct (acl_reread x) as [[]|].
Qed.
End update.
Arguments AclAttempt V : clear implicits.

Definition NONE : Z := 0.
Definition SecurityDisabled : Z := 54.
Definition ClusterAuthorizationFailed : Z := 31.
Definition UnknownServerError : Z := -1.

Definition create_acls {V} `{EqDecision V} (new : list AclBinding) (attempts : list (AclAttempt V)) : result (list Z) :=
  match new with
  | [] => Ok []
  | _ =>
      let! _ := update_acls (fun a => (create_closure new a, tt)) ATTEMPTS attempts in
      Ok (replicate (length new) NONE)
  end.

Definition describe_acls {V} (f : AclFilter) (r : result (cell Acls V)) : result (list AclBinding) :=
  let! (a, _) := read_acls r in Ok (matching a f).

Definition delete_acls {V} `{EqDecision V} (filters : list AclFilter) (attempts : list (AclAttempt V))
    : result (list (list AclBinding)) :=
  match filters with
  | [] => Ok []
  | _ => let! (deleted, _) := update_acls (delete_closure filters) ATTEMPTS attempts in Ok deleted
  end.

(** ** The authorizer *)

Definition ACL_SNAPSHOT_TTL : Z := 5000.

(** The rules as last read, and when, in milliseconds. *)
Abbreviation Snapshot := (option (Acls * Z)).

Definition snapshot_cached (ttl : Z) (fresh_only : bool) (now : Z) (s : Snapshot) : option Acls :=
  match s with
  | Some (a, read_at) => if negb fresh_only || (now - read_at <? ttl) then Some a else None
  | None => None
  end.

(** [acls]: [before] is the snapshot the request finds at [now]; when it has to
    read, [after] is the snapshot it finds on its return at [landed], which other
    requests may have replaced. *)
Definition authorizer_acls (ttl : Z) (before after : Snapshot) (now landed : Z) (read : result (list AclBinding))
    : option Acls * Snapshot :=
  match snapshot_cached ttl true now before with
  | Some fresh => (Some fresh, after)
  | None =>
      match read with
      | Ok l => let a := mkAcls (list_to_set l) in (Some a, Some (a, landed))
      | _ => (snapshot_cached ttl false landed after, after)
      end
  end.

Record Question := mkQuestion {
  q_host : bytes;
  q_resource_type : Resource;
  q_resource_name : bytes;
  q_operation : Operation;
}.

Definition answers (a : Acls) (principal : bytes) (q : Question) : bool :=
  acls_allow a principal (q_host q) (q_resource_type q) (q_resource_name q) (q_operation q).

Record Authorizer := mkAuthorizer { super_users : gset bytes; ttl : Z }.

Definition authorizer_allows (z : Authorizer) (acls : option Acls) (principal : bytes) (q : Question) : bool :=
  if bool_decide (principal ∈ super_users z) then true
  else match acls with None => false | Some a => answers a principal q end.

Record Requester := mkRequester { requester_principal : option bytes; requester_host : bytes }.

Definition enforcing (z : option Authorizer) : bool := match z with Some _ => true | None => false end.

Definition authorized (z : option Authorizer) (r : option Requester) (acls : option Acls) (resource_type : Resource)
    (name : bytes) (operation : Operation) : bool :=
  match z with
  | None => true
  | Some z =>
      match r with
      | None => false
      | Some r =>
          match requester_principal r with
          | None => false
          | Some principal =>
              authorizer_allows z acls principal (mkQuestion (requester_host r) resource_type name operation)
          end
      end
  end.

Definition authorized_cluster (z : option Authorizer) (r : option Requester) (acls : option Acls)
    (operation : Operation) : bool :=
  authorized z r acls Resource.Cluster CLUSTER_RESOURCE operation.

(** ** The services *)

Record AclCreation := mkAclCreation {
  c_resource_type : Z; c_resource_name : bytes; c_pattern_type : option Z; c_principal : bytes; c_host : bytes;
  c_operation : Z; c_permission_type : Z;
}.

Definition creation_binding (c : AclCreation) : AclBinding :=
  AclBinding.mk (Resource.from_i8 (c_resource_type c)) (c_resource_name c)
    (Pattern.from_i8 (default 3 (c_pattern_type c))) (c_principal c) (c_host c)
    (Operation.from_i8 (c_operation c)) (Permission.from_i8 (c_permission_type c)).

Definition NO_AUTHORIZER : string := "No Authorizer is configured.".
Definition NO_AUTHORIZER_DESCRIBE : string := "No Authorizer is configured on the broker".

Definition create_refused (creations : nat) (code : Z) (message : option string) : list (Z * option string) :=
  replicate creations (code, message).

(** [store] is [create_acls] on what the request asks. *)
Definition create_acls_service (z : option Authorizer) (r : option Requester) (acls : option Acls)
    (store : list AclBinding -> result (list Z)) (creations : option (list AclCreation)) : list (Z * option string) :=
  let creations := default [] creations in
  if negb (enforcing z) then create_refused (length creations) SecurityDisabled (Some NO_AUTHORIZER)
  else if negb (authorized_cluster z r acls Operation.Alter)
  then create_refused (length creations) ClusterAuthorizationFailed None
  else
    match store (creation_binding <$> creations) with
    | Ok outcomes => (fun code => (code, None)) <$> outcomes
    | _ => create_refused (length creations) UnknownServerError (Some "could not create acls"%string)
    end.

Record AclFilterRequest := mkAclFilterRequest {
  f_resource_type : Z; f_resource_name : option bytes; f_pattern_type : option Z; f_principal : option bytes;
  f_host : option bytes; f_operation : Z; f_permission_type : Z;
}.

Definition request_filter (f : AclFilterRequest) : AclFilter :=
  AclFilter.mk (Resource.from_i8 (f_resource_type f)) (f_resource_name f)
    (Pattern.from_i8 (default 3 (f_pattern_type f))) (f_principal f) (f_host f)
    (Operation.from_i8 (f_operation f)) (Permission.from_i8 (f_permission_type f)).

(** A result per filter: its code, message and the rules it removed. *)
Definition delete_acls_service (z : option Authorizer) (r : option Requester) (acls : option Acls)
    (store : list AclFilter -> result (list (list AclBinding))) (filters : option (list AclFilterRequest))
    : list (Z * option string * list AclBinding) :=
  let requested := default [] filters in
  let refused code message := replicate (length requested) (code, message, []) in
  if negb (enforcing z) then refused SecurityDisabled (Some NO_AUTHORIZER)
  else if negb (authorized_cluster z r acls Operation.Alter) then refused ClusterAuthorizationFailed None
  else
    match store (request_filter <$> requested) with
    | Ok deleted => (fun l => (NONE, None, l)) <$> deleted
    | _ => refused UnknownServerError (Some "could not delete acls"%string)
    end.

(** The rules grouped by the resource they are on. *)
Record AclResource := mkAclResource {
  ar_resource_type : Z; ar_resource_name : bytes; ar_pattern_type : Z; ar_acls : list (bytes * bytes * Z * Z);
}.

Definition acl_description (b : AclBinding) : bytes * bytes * Z * Z :=
  (AclBinding.principal b, AclBinding.host b, Operation.to_i8 (AclBinding.operation b),
   Permission.to_i8 (AclBinding.permission b)).

Definition on_resource (b : AclBinding) (x : AclResource) : bool :=
  (ar_resource_type x =? Resource.to_i8 (AclBinding.resource_type b)) &&
  bool_decide (ar_resource_name x = AclBinding.resource_name b) &&
  (ar_pattern_type x =? Pattern.to_i8 (AclBinding.pattern b)).

Fixpoint push_resource (b : AclBinding) (l : list AclResource) : list AclResource :=
  match l with
  | [] =>
      [mkAclResource (Resource.to_i8 (AclBinding.resource_type b)) (AclBinding.resource_name b)
         (Pattern.to_i8 (AclBinding.pattern b)) [acl_description b]]
  | x :: l =>
      if on_resource b x
      then mkAclResource (ar_resource_type x) (ar_resource_name x) (ar_pattern_type x)
             (ar_acls x ++ [acl_description b]) :: l
      else x :: push_resource b l
  end.

Definition resources (l : list AclBinding) : list AclResource := foldl (fun acc b => push_resource b acc) [] l.

Definition describe_acls_service (z : option Authorizer) (r : option Requester) (acls : option Acls)
    (store : AclFilter -> result (list AclBinding)) (f : AclFilterRequest)
    : Z * option string * list AclResource :=
  if negb (enforcing z) then (SecurityDisabled, Some NO_AUTHORIZER_DESCRIBE, [])
  else if negb (authorized_cluster z r acls Operation.Describe) then (ClusterAuthorizationFailed, None, [])
  else
    match store (request_filter f) with
    | Ok l => (NONE, None, resources l)
    | _ => (UnknownServerError, Some "could not describe acls"%string, [])
    end.

(** ** What the decision means *)

Definition applies (b : AclBinding) (principal : bytes) (q : Question) : bool :=
  applies_to b principal && applies_at b (q_host q) && selects b (q_resource_type q) (q_resource_name q).

Definition denies (b : AclBinding) (principal : bytes) (q : Question) : Prop :=
  applies b principal q = true /\ AclBinding.permission b = Permission.Deny /\ covers b (q_operation q) = true.
Definition permits (b : AclBinding) (principal : bytes) (q : Question) : Prop :=
  applies b principal q = true /\ AclBinding.permission b = Permission.Allow /\ grants b (q_operation q) = true.

Lemma existsb_applicable a principal q p perm (f : AclBinding -> bool) :
  p = AclBinding.permission ->
  existsb (fun b => bool_decide (p b = perm) && f b)
    (applicable a principal (q_host q) (q_resource_type q) (q_resource_name q)) = true <->
  exists b, b ∈ bindings a /\ applies b principal q = true /\ AclBinding.permission b = perm /\ f b = true.
Proof.
  intros ->. rewrite existsb_exists. setoid_rewrite <- list_elem_of_In. unfold applicable.
  setoid_rewrite list_elem_of_filter. setoid_rewrite elem_of_set_list.
  setoid_rewrite andb_true_iff. setoid_rewrite bool_decide_eq_true. unfold applies. naive_solver.
Qed.

Lemma answers_spec a principal q :
  answers a principal q = true <->
  (forall b, b ∈ bindings a -> ~ denies b principal q) /\ exists b, b ∈ bindings a /\ permits b principal q.
Proof.
  unfold answers, acls_allow.
  destruct (existsb (fun b => bool_decide (AclBinding.permission b = Permission.Deny) && covers b (q_operation q)) _) eqn:Ed.
  - apply existsb_applicable in Ed as (b & Hb & H); [|done]. split; [done|]. intros [Hn _]. by destruct (Hn b Hb).
  - rewrite (existsb_applicable a principal q AclBinding.permission Permission.Allow (fun b => grants b (q_operation q))) by done.
    split; [|intros [_ H]; exact H]. intros H. split; [|exact H]. intros b Hb Hd.
    apply not_true_iff_false in Ed. apply Ed. apply existsb_applicable; [done|]. by exists b.
Qed.

(** C31 The decision is deny by default, and a denial wins: a request is allowed
    exactly when some rule that applies to it grants the operation and no rule that
    applies to it denies it, so rules that only deny never allow, adding a rule
    that denies never allows more, and removing a rule that grants never does. *)
Theorem decision_denies_by_default a principal q :
  (answers a principal q = true <->
   (forall b, b ∈ bindings a -> ~ denies b principal q) /\ exists b, b ∈ bindings a /\ permits b principal q) /\
  answers (mkAcls ∅) principal q = false /\
  (forall b, AclBinding.permission b <> Permission.Allow -> answers (create_closure [b] a) principal q = true ->
     answers a principal q = true) /\
  (forall b, AclBinding.permission b <> Permission.Deny -> answers (mkAcls (bindings a ∖ {[b]})) principal q = true ->
     answers a principal q = true).
Proof.
  split; [apply answers_spec|]. split; [|split].
  - apply not_true_iff_false. rewrite answers_spec. intros (_ & b & Hb & _). cbn in Hb. set_solver.
  - intros b Hb. rewrite !answers_spec. cbn. intros (H1 & b' & H2 & H3). split; [set_solver|].
    exists b'. split; [|done]. apply elem_of_union in H2 as [->%elem_of_singleton|H2]; [|done].
    by destruct H3 as (_ & H3 & _).
  - intros b Hb. rewrite !answers_spec. cbn. intros (H1 & b' & H2 & H3). split; [|set_solver].
    intros b'' Hb''. destruct (decide (b'' = b)) as [->|Hne]; [by intros (_ & H & _)|]. apply H1. set_solver.
Qed.

(** Tenants do not see each other: a principal whose grants on a kind of
    resource are all prefixed with its tenant's name, the wildcard principal's
    among them, is allowed nothing whose name does not begin with that prefix. *)
Theorem tenant_confined a principal q tenant :
  (forall b, b ∈ bindings a -> AclBinding.permission b = Permission.Allow -> applies_to b principal = true ->
     AclBinding.resource_type b = q_resource_type q ->
     tenant `prefix_of` AclBinding.resource_name b /\ AclBinding.resource_name b <> WILDCARD_RESOURCE) ->
  answers a principal q = true -> tenant `prefix_of` q_resource_name q.
Proof.
  intros Ht. rewrite answers_spec. intros (_ & b & Hb & Ha & Hp & _). unfold applies in Ha.
  apply andb_prop in Ha as [Ha Hs]. apply andb_prop in Ha as [Ha _]. unfold selects in Hs.
  destruct (bool_decide_reflect (AclBinding.resource_type b = q_resource_type q)) as [Hr|]; [|done]. cbn in Hs.
  destruct (Ht b Hb Hp Ha Hr) as [Hpre Hw].
  destruct (AclBinding.pattern b); [done|done|done| |].
  - apply orb_prop in Hs as [Hs|Hs]; apply bool_decide_eq_true in Hs; [by rewrite <- Hs|done].
  - apply starts_with_spec in Hs. by etransitivity.
Qed.

(** ** Rules that do nothing *)

(** A rule no question can be about. *)
Definition inert (b : AclBinding) : bool :=
  negb (bool_decide (AclBinding.pattern b = Pattern.Literal \/ AclBinding.pattern b = Pattern.Prefixed)) ||
  negb (bool_decide (AclBinding.permission b = Permission.Deny \/ AclBinding.permission b = Permission.Allow)).

Lemma inert_silent b principal q : inert b = true -> ~ denies b principal q /\ ~ permits b principal q.
Proof.
  unfold inert, denies, permits, applies, selects. intros H.
  destruct (AclBinding.pattern b), (AclBinding.permission b); try done;
    split; intros ([Ha Hs]%andb_prop & Hp & _); try done; by destruct (negb _) in Hs.
Qed.

(** A creation that means nothing is acknowledged: a rule with a filter's
    pattern or permission is stored with no error, though it changes no decision,
    when the service refuses to store rules nothing will consult. *)
Theorem inert_rule_acknowledged {V} `{EqDecision V} (c : AclCreation) (a : Acls) (v : V) (z : Authorizer) (r : Requester)
    (acls : option Acls) :
  inert (creation_binding c) = true ->
  authorized_cluster (Some z) (Some r) acls Operation.Alter = true ->
  create_acls_service (Some z) (Some r) acls
    (fun l => create_acls l [mkAclAttempt (Ok (Some (a, v))) (Some (a, v)) v None None]) (Some [c]) = [(NONE, None)] /\
  (creation_binding c ∈ bindings (create_closure [creation_binding c] a)) /\
  forall principal q, answers (create_closure [creation_binding c] a) principal q = answers a principal q.
Proof.
  intros Hi Ha. split; [|split].
  - unfold create_acls_service. cbn [enforcing negb]. rewrite Ha. cbn.
    by rewrite bool_decide_eq_true_2.
  - cbn. set_solver.
  - intros principal q. destruct (inert_silent _ principal q Hi) as [Hd Hp].
    apply eq_true_iff_eq. rewrite !answers_spec. cbn. set_solver.
Qed.

(** ** The document under concurrent administrators *)

Inductive AclEvent :=
  | CreateRules (new : list AclBinding)
  | DeleteRules (filters : list AclFilter).

Definition acl_apply (e : AclEvent) (a : Acls) : Acls * list (list AclBinding) :=
  match e with
  | CreateRules new => (create_closure new a, [])
  | DeleteRules filters => delete_closure filters a
  end.

(** An attempt of [update_acls] as a transition of the document. *)
Definition acl_step (held : option Acls) (e : AclEvent) : result (Acls * bool * list (list AclBinding)) :=
  let '(a, answer) := acl_apply e (default (mkAcls ∅) held) in Ok (a, true, answer).

Lemma elem_of_create new a b : b ∈ bindings (create_closure new a) <-> b ∈ new \/ b ∈ bindings a.
Proof.
  unfold create_closure. destruct a as [s]. cbn. revert s. induction new as [|x new IH]; intros s; cbn; [set_solver|].
  rewrite IH. set_solver.
Qed.

Lemma elem_of_removed (l : list AclBinding) (s : gset AclBinding) b :
  b ∈ foldl (fun s b => s ∖ {[b]}) s l <-> b ∈ s /\ b ∉ l.
Proof. revert s. induction l as [|x l IH]; intros s; cbn; [set_solver|]. rewrite IH. set_solver. Qed.

Lemma elem_of_matching a f b : b ∈ matching a f <-> b ∈ bindings a /\ matches f b = true.
Proof. unfold matching. rewrite list_elem_of_filter, elem_of_set_list. tauto. Qed.

(** A deletion removes what its filters select and nothing else, and reports each
    removed rule once, under the first filter that selects it. *)
Lemma delete_closure_exact filters a :
  let '(a', deleted) := delete_closure filters a in
  (forall b, b ∈ bindings a' <-> b ∈ bindings a /\ forall f, f ∈ filters -> matches f b = false) /\
  length deleted = length filters /\ NoDup (concat deleted) /\
  (forall b, b ∈ concat deleted <-> b ∈ bindings a /\ exists f, f ∈ filters /\ matches f b = true).
Proof.
  revert a. induction filters as [|f filters IH]; intros a; cbn.
  { split; [set_solver|]. split; [done|]. split; [constructor|]. set_solver. }
  set (a1 := mkAcls (foldl (fun s b => s ∖ {[b]}) (bindings a) (matching a f))). specialize (IH a1).
  destruct (delete_closure filters a1) as [a' deleted]. destruct IH as (H1 & H2 & H3 & H4).
  assert (Ha1 : forall b, b ∈ bindings a1 <-> b ∈ bindings a /\ matches f b = false).
  { intros b. unfold a1. cbn. rewrite elem_of_removed, elem_of_matching. rewrite <- not_true_iff_false. tauto. }
  split; [|split; [cbn; by rewrite H2|split]].
  - intros b. rewrite H1, Ha1. setoid_rewrite elem_of_cons. naive_solver.
  - cbn. apply NoDup_app. split; [|split; [|done]].
    + apply NoDup_filter, set_list_NoDup.
    + intros b Hb Hb'. apply elem_of_matching in Hb as [_ Hb]. apply H4 in Hb' as [Hb' _].
      apply Ha1 in Hb' as [_ Hb']. congruence.
  - intros b. cbn. rewrite elem_of_app, elem_of_matching, H4, Ha1. setoid_rewrite elem_of_cons.
    split.
    + intros [[Hb Hm]|[[Hb _] (f' & Hf & Hm)]]; [by eauto|]. split; [done|]. exists f'. auto.
    + intros (Hb & f' & [->|Hf] & Hm); [by auto|]. destruct (matches f b) eqn:Em; [by auto|]. right. eauto.
Qed.

(** A write that does not take rule [b] away. *)
Definition spares (b : AclBinding) (x : Cas.Entry AclEvent (list (list AclBinding))) : Prop :=
  match x with
  | Cas.Wrote (DeleteRules filters) _ => forall f, f ∈ filters -> matches f b = false
  | Cas.Wrote (CreateRules _) _ => True
  | Cas.Deleted => False
  end.

(** A creation of [b] is among the writes, newest first, and none after it took it
    away. *)
Definition standing (b : AclBinding) (log : list (Cas.Entry AclEvent (list (list AclBinding)))) : Prop :=
  exists newer new answer older,
    log = newer ++ Cas.Wrote (CreateRules new) answer :: older /\ b ∈ new /\ Forall (spares b) newer.

Lemma standing_cons b x log :
  standing b (x :: log) <->
  (exists new answer, x = Cas.Wrote (CreateRules new) answer /\ b ∈ new) \/ (spares b x /\ standing b log).
Proof.
  split.
  - intros (newer & new & answer & older & E & Hb & Hn). destruct newer as [|y newer]; cbn in E; injection E as -> ->.
    + left. by exists new, answer.
    + apply Forall_cons in Hn as [Hy Hn]. right. split; [done|]. by exists newer, new, answer, older.
  - intros [(new & answer & -> & Hb)|(Hx & newer & new & answer & older & -> & Hb & Hn)].
    + by exists [], new, answer, log.
    + exists (x :: newer), new, answer, older. split; [done|]. split; [done|]. by constructor.
Qed.

(** What the writes leave is what they left standing. *)
Lemma sequential_standing log held b :
  Cas.sequential acl_step id log held -> b ∈ bindings (default (mkAcls ∅) held) <-> standing b log.
Proof.
  induction 1 as [|log held e next answer _ IH Hs|log held _ _]; cbn [default].
  - split; [by intros ?%elem_of_empty|]. intros (newer & new & answer & older & E & _). by destruct newer.
  - rewrite standing_cons, <- IH. unfold acl_step in Hs.
    destruct (acl_apply e (default (mkAcls ∅) held)) as [a ans] eqn:Ea. injection Hs as -> ->. unfold id.
    replace next with (acl_apply e (default (mkAcls ∅) held)).1 by (by rewrite Ea).
    destruct e as [new|filters]; cbn [acl_apply fst].
    + rewrite elem_of_create. cbn. naive_solver.
    + pose proof (delete_closure_exact filters (default (mkAcls ∅) held)) as H.
      destruct (delete_closure filters _) as [a' deleted]. cbn [fst]. rewrite (proj1 H). cbn. naive_solver.
  - rewrite standing_cons. cbn. split; [by intros ?%elem_of_empty|]. naive_solver.
Qed.

(** C33 However many administrators write at once, on however many brokers, no write
    undoes another's.  The document holds a rule exactly if, in the one order the
    writes took effect, a creation asked for it and no later deletion selected it
    (nor was the document deleted); and every request that was acknowledged is one
    of those writes, so an acknowledged rule stays until a deletion takes effect. *)
Theorem rule_stays_until_deleted {V} `{EqDecision V} (s : @Replicas Acls V AclEvent (list (list AclBinding))) b :
  replicas_reach acl_step id eq s ->
  (b ∈ bindings (default (mkAcls ∅) (fst <$> key s)) <-> standing b (log s)) /\
  (forall x answer, x ∈ answered s -> outcome x = Ok answer -> Cas.Wrote (question x) answer ∈ log s).
Proof.
  intros Hr%replicas_reach_ok. split; [by apply sequential_standing, Hr|]. intros x answer Hx Ho.
  pose proof (ok_served _ _ _ _ Hr) as Hs. rewrite Forall_forall in Hs. destruct (Hs x Hx) as [_ Hsame Ha].
  rewrite Ho in Ha. rewrite Hsame. destruct (wrote x).
  - destruct Ha as [_ Ha]. assert (Hin : Cas.Wrote (tried x) answer ∈ oldest (point x) (log s)) by (rewrite Ha; by left).
    unfold oldest in Hin. by eapply subseteq_drop.
  - destruct Ha as (held & next & _ & Hst). unfold acl_step in Hst.
    by destruct (acl_apply (tried x) (default (mkAcls ∅) held)).
Qed.

(** ** What a broker decides from *)

(** A read of the rules that came back. *)
Record RuleRead := mkRuleRead { landed_at : Z; rules : Acls }.

(** The clock, the snapshot, and the reads that came back so far: requests of one
    broker read whenever they find the snapshot old, and land in any order. *)
Inductive authorizer_reach : Z -> Snapshot -> list RuleRead -> Prop :=
  | authorizer_start now : authorizer_reach now None []
  | authorizer_ticks now now' s reads : authorizer_reach now s reads -> now <= now' -> authorizer_reach now' s reads
  | authorizer_lands now s reads before read now0 ttl a s' :
      authorizer_reach now s reads ->
      authorizer_acls ttl before s now0 now (Ok read) = (Some a, s') -> snapshot_cached ttl true now0 before = None ->
      authorizer_reach now s' (mkRuleRead now a :: reads).

Lemma snapshot_was_read now s reads a t :
  authorizer_reach now s reads -> s = Some (a, t) -> mkRuleRead t a ∈ reads /\ t <= now.
Proof.
  intros Hr. revert a t. induction Hr as [now|now now' s reads Hr IH Hle|now s reads before read now0 ttl a s' Hr IH Ha Hc];
    intros a0 t0 Hs; [done| |].
  - destruct (IH _ _ Hs). split; [done|lia].
  - unfold authorizer_acls in Ha. rewrite Hc in Ha. injection Ha as <- <-. injection Hs as <- <-. split; [by left|lia].
Qed.

(** C32 A broker's decision is one the cluster's rules gave it: whatever it allows a
    principal that is not a super user was allowed by rules read within the TTL, or
    by those it reads now; older rules are used only when that read fails, and a
    broker that has never read the rules allows such a principal nothing. *)
Theorem authorizer_decision_fresh z now s reads landed after since read principal q :
  authorizer_reach now s reads -> authorizer_reach landed after (since ++ reads) -> now <= landed ->
  authorizer_allows z (authorizer_acls (ttl z) s after now landed read).1 principal q = true ->
  principal ∈ super_users z \/
  exists a, answers a principal q = true /\
    ((exists l, read = Ok l /\ a = mkAcls (list_to_set l)) \/
     exists t, mkRuleRead t a ∈ since ++ reads /\ t <= landed /\ (now - t < ttl z \/ (forall l, read <> Ok l))).
Proof.
  intros Hr Hr' Hle. unfold authorizer_allows. case_bool_decide as Hs; [by left|]. intros Ha. right.
  unfold authorizer_acls in Ha. destruct (snapshot_cached (ttl z) true now s) as [fresh|] eqn:Ec; cbn in Ha.
  - exists fresh. split; [done|]. right. destruct s as [[a t]|]; [|done]. cbn in Ec.
    destruct (Z.ltb_spec (now - t) (ttl z)); [|done]. injection Ec as ->.
    destruct (snapshot_was_read _ _ _ _ _ Hr eq_refl). exists t. split; [set_solver|]. split; [lia|by left].
  - destruct read as [l|e|p]; cbn in Ha.
    + eexists. split; [exact Ha|]. left. by exists l.
    + destruct after as [[a t]|]; [|done]. cbn in Ha. exists a. split; [done|]. right.
      destruct (snapshot_was_read _ _ _ _ _ Hr' eq_refl). exists t. split; [done|]. split; [lia|by right].
    + destruct after as [[a t]|]; [|done]. cbn in Ha. exists a. split; [done|]. right.
      destruct (snapshot_was_read _ _ _ _ _ Hr' eq_refl). exists t. split; [done|]. split; [lia|by right].
Qed.

(** A revoked grant is gone everywhere a TTL after the first read without it. *)
Lemma revocation_bounded z now s reads landed after l principal q since :
  authorizer_reach now s reads ->
  principal ∉ super_users z -> since + ttl z <= now ->
  (forall r, r ∈ reads -> since <= landed_at r -> answers (rules r) principal q = false) ->
  answers (mkAcls (list_to_set l)) principal q = false ->
  authorizer_allows z (authorizer_acls (ttl z) s after now landed (Ok l)).1 principal q = false.
Proof.
  intros Hr Hs Hold Hreads Hl. unfold authorizer_allows. rewrite bool_decide_eq_false_2 by done.
  unfold authorizer_acls. destruct (snapshot_cached (ttl z) true now s) as [fresh|] eqn:Ec; cbn; [|done].
  destruct s as [[a t]|]; [|done]. cbn in Ec. destruct (Z.ltb_spec (now - t) (ttl z)); [|done]. injection Ec as <-.
  destruct (snapshot_was_read _ _ _ _ _ Hr eq_refl) as [Hin _]. apply (Hreads _ Hin). cbn. lia.
Qed.

(** ** Describing *)

Definition described (x : AclResource) : list (Z * bytes * Z * (bytes * bytes * Z * Z)) :=
  pair (ar_resource_type x, ar_resource_name x, ar_pattern_type x) <$> ar_acls x.

Definition resource_key (b : AclBinding) : Z * bytes * Z :=
  (Resource.to_i8 (AclBinding.resource_type b), AclBinding.resource_name b, Pattern.to_i8 (AclBinding.pattern b)).

Definition ar_key (x : AclResource) : Z * bytes * Z := (ar_resource_type x, ar_resource_name x, ar_pattern_type x).

Lemma on_resource_spec b x : on_resource b x = true <-> ar_key x = resource_key b.
Proof.
  unfold on_resource, ar_key, resource_key. rewrite !andb_true_iff, bool_decide_eq_true, !Z.eqb_eq.
  split; [by intros [[-> ->] ->]|]. by intros [= -> -> ->].
Qed.

Lemma push_resource_described b l :
  flat_map described (push_resource b l) ≡ₚ (resource_key b, acl_description b) :: flat_map described l.
Proof.
  induction l as [|x l IH]; cbn; [done|]. destruct (on_resource b x) eqn:Eo; cbn.
  - apply on_resource_spec in Eo. unfold described at 1. cbn. rewrite fmap_app. cbn.
    change (ar_resource_type x, ar_resource_name x, ar_pattern_type x) with (ar_key x) at 2. rewrite Eo.
    rewrite <- app_assoc. cbn. symmetry. apply Permutation_middle.
  - rewrite IH. symmetry. apply Permutation_middle.
Qed.

Lemma push_resource_keys b l :
  NoDup (ar_key <$> l) -> NoDup (ar_key <$> push_resource b l) /\
  forall k, k ∈ ar_key <$> push_resource b l -> k = resource_key b \/ k ∈ ar_key <$> l.
Proof.
  induction l as [|x l IH]; cbn.
  { intros _. split; [apply NoDup_singleton|]. intros k Hk%list_elem_of_singleton. by left. }
  intros (Hx & Hn)%NoDup_cons. destruct (IH Hn) as [H1 H2]. destruct (on_resource b x) eqn:Eo; cbn.
  - split; [by constructor|]. intros k Hk. by right.
  - split.
    + constructor; [|done]. intros [Hk|Hk]%H2; [|done]. apply not_true_iff_false in Eo. apply Eo.
      by apply on_resource_spec.
    + intros k [->|Hk]%elem_of_cons; [right; by left|]. apply H2 in Hk as [->|Hk]; [by left|]. right. by right.
Qed.

(** Every rule is shown once, under the one heading of its resource. *)
Lemma resources_exact l :
  flat_map described (resources l) ≡ₚ (fun b => (resource_key b, acl_description b)) <$> l /\
  NoDup (ar_key <$> resources l).
Proof.
  unfold resources. induction l as [|b l IH] using rev_ind; cbn; [split; [done|constructor]|].
  rewrite foldl_app, fmap_app. cbn. destruct IH as [H1 H2]. split.
  - rewrite push_resource_described, H1. apply Permutation_cons_append.
  - by apply push_resource_keys.
Qed.

(** ** Witnesses *)

Module Tenants.
Definition alice : bytes := ascii_bytes "User:alice".
Definition rule : AclBinding :=
  AclBinding.mk Resource.Topic (ascii_bytes "acme.") Pattern.Prefixed alice WILDCARD_HOST Operation.Read Permission.Allow.
Definition rules : Acls := mkAcls {[rule]}.
Definition question : Question :=
  mkQuestion (ascii_bytes "10.0.0.1") Resource.Topic (ascii_bytes "acme.orders") Operation.Describe.

Definition admin : Authorizer := mkAuthorizer {[ascii_bytes "User:root"]} ACL_SNAPSHOT_TTL.
Definition root : Requester := mkRequester (Some (ascii_bytes "User:root")) (ascii_bytes "10.0.0.1").
Definition pointless : AclCreation :=
  mkAclCreation 2 (ascii_bytes "acme.") (Some 2) alice WILDCARD_HOST 3 2.

(** Bob's rule, created by a second administrator who read the first one's. *)
Definition bob : AclBinding :=
  AclBinding.mk Resource.Group (ascii_bytes "g") Pattern.Literal (ascii_bytes "User:bob") WILDCARD_HOST Operation.Read
    Permission.Allow.
Definition first : @Replicas Acls Z AclEvent (list (list AclBinding)) :=
  serve acl_step id replicas_none 0 (CreateRules [rule]) 1.
Definition second : @Replicas Acls Z AclEvent (list (list AclBinding)) := serve acl_step id first 1 (CreateRules [bob]) 2.

Lemma second_reach : replicas_reach acl_step id eq second.
Proof. apply serve_reach; [done|]. apply serve_reach; [done|]. constructor. Qed.
End Tenants.

Lemma tenant_confined_witness : ascii_bytes "acme." `prefix_of` q_resource_name Tenants.question.
Proof.
  apply (tenant_confined Tenants.rules Tenants.alice Tenants.question (ascii_bytes "acme.")).
  - intros b Hb _ _ _. cbn in Hb. apply elem_of_singleton in Hb as ->. split; [reflexivity|]. discriminate.
  - vm_compute. reflexivity.
Defined.

Lemma inert_rule_acknowledged_witness :
  create_acls_service (Some Tenants.admin) (Some Tenants.root) None
    (fun l => create_acls l [mkAclAttempt (Ok (Some (Tenants.rules, 1))) (Some (Tenants.rules, 1)) 1 None None])
    (Some [Tenants.pointless]) = [(NONE, None)].
Proof.
  refine (proj1 (inert_rule_acknowledged Tenants.pointless Tenants.rules 1 Tenants.admin Tenants.root None _ _)).
  - vm_compute. reflexivity.
  - vm_compute. reflexivity.
Defined.

Lemma rule_stays_until_deleted_witness :
  Tenants.rule ∈ bindings (default (mkAcls ∅) (fst <$> key Tenants.second)).
Proof.
  apply (rule_stays_until_deleted Tenants.second Tenants.rule Tenants.second_reach).
  exists [Cas.Wrote (CreateRules [Tenants.bob]) []], [Tenants.rule], [], []. split; [vm_compute; reflexivity|].
  split; [by left|]. apply Forall_singleton. exact I.
Defined.

Lemma authorizer_decision_fresh_witness :
  Tenants.alice ∈ super_users Tenants.admin \/
  exists a, answers a Tenants.alice Tenants.question = true /\
    ((exists l, Err Transport = Ok l /\ a = mkAcls (list_to_set l)) \/
     exists t, mkRuleRead t a ∈ [] ++ [mkRuleRead 100 (mkAcls (list_to_set [Tenants.rule]))] /\ t <= 9001 /\
       (9000 - t < ttl Tenants.admin \/ (forall l : list AclBinding, Err Transport <> Ok l))).
Proof.
  assert (Hr : authorizer_reach 100 (Some (mkAcls (list_to_set [Tenants.rule]), 100))
    [mkRuleRead 100 (mkAcls (list_to_set [Tenants.rule]))]).
  { eapply (authorizer_lands 100 None [] None [Tenants.rule] 90 ACL_SNAPSHOT_TTL); [constructor|reflexivity|reflexivity]. }
  apply (authorizer_decision_fresh Tenants.admin 9000 (Some (mkAcls (list_to_set [Tenants.rule]), 100))
    [mkRuleRead 100 (mkAcls (list_to_set [Tenants.rule]))] 9001 (Some (mkAcls (list_to_set [Tenants.rule]), 100)) []
    (Err Transport) Tenants.alice Tenants.question).
  - apply (authorizer_ticks 100); [exact Hr|lia].
  - apply (authorizer_ticks 100); [exact Hr|lia].
  - lia.
  - vm_compute. reflexivity.
Defined.
