(* ===== verification/MessageModel.v ===== *)
(** * MessageModel: descriptions of the Kafka messages and what is generated from them

    [tansu-model/src/lib.rs]: version ranges, kinds, the [Field] and [Message] of
    a JSON description, and the [MessageMeta] and [FieldMeta] the codec consults
    at run time.  [tansu-sans-io/build.rs]: the metadata ([each_field_meta],
    [each_message_meta]) and the Rust types ([kind], [message_struct],
    [common_struct]) it generates from a description.

    A generated Rust type is a [Shape]: what serde's derived implementations ask
    of a serializer, and are driven by in a deserializer. *)

From Stdlib Require Import Ascii.
From S2P Require Export Bytes.

Module Model.

Definition i16_MAX : Z := 2 ^ 15 - 1.

(** ** Version ranges *)

Record VersionRange := mkRange { start : Z; end_ : Z }.

Definition within (r : VersionRange) (version : Z) : bool :=
  (start r <=? version) && (version <=? end_ r).

Definition is_mandatory (self : VersionRange) (parent : option VersionRange) : bool :=
  match parent with
  | None => (start self =? 0) && (end_ self =? i16_MAX)
  | Some p =>
      if start self <? start p then end_ self =? end_ p
      else (start self =? start p) && (end_ self =? end_ p)
  end.

(** [str::parse::<i16>] on the digits the regular expression admits. *)
Definition digit (c : Ascii.ascii) : option Z :=
  let n := Z.of_nat (Ascii.nat_of_ascii c) in
  if (48 <=? n) && (n <=? 57) then Some (n - 48) else None.

(** The longest run of digits at the front, its value, and what follows. *)
Fixpoint digits (acc : Z) (s : string) : Z * string :=
  match s with
  | EmptyString => (acc, s)
  | String c rest =>
      match digit c with
      | Some d => digits (acc * 10 + d) rest
      | None => (acc, s)
      end
  end.

Definition starts_with_digit (s : string) : bool :=
  match s with
  | String c _ => match digit c with Some _ => true | None => false end
  | EmptyString => false
  end.

Definition i16_checked (z : Z) : result Z := if z <=? i16_MAX then Ok z else Err TryFromInt.

(** [VersionRange::from_str]: [none], [n], [n+] or [n-m]. *)
Definition VersionRange_from_str (s : string) : result VersionRange :=
  if bool_decide (s = "none"%string) then Ok (mkRange (-2) (-1))
  else if negb (starts_with_digit s) then Err (Message "invalid version range format")
  else
    let (n, rest) := digits 0 s in
    match rest with
    | EmptyString => let! start := i16_checked n in Ok (mkRange start start)
    | String "+"%char EmptyString => let! start := i16_checked n in Ok (mkRange start i16_MAX)
    | String "-"%char more =>
        if starts_with_digit more then
          let (m, tail) := digits 0 more in
          match tail with
          | EmptyString =>
              let! start := i16_checked n in let! end_ := i16_checked m in
              Ok (mkRange start end_)
          | _ => Err (Message "invalid version range format")
          end
        else Err (Message "invalid version range format")
    | _ => Err (Message "invalid version range format")
    end.

Record Version := mkVersion {
  valid : VersionRange;
  deprecated : option VersionRange;
  flexible : VersionRange;
}.

(** ** Kinds: the types of the descriptions, by name *)

Definition PRIMITIVE : list string :=
  ["bool"; "bytes"; "float64"; "int16"; "int32"; "int64"; "int8"; "records"; "string";
   "uint16"; "uuid"]%string.

Definition is_primitive (kind : string) : bool := bool_decide (kind ∈ PRIMITIVE).

(** The kind of the elements, when the name starts with []. *)
Definition kind_of_sequence (kind : string) : option string :=
  match kind with
  | String "["%char (String "]"%char rest) => Some rest
  | _ => None
  end.

Definition is_sequence (kind : string) : bool :=
  match kind_of_sequence kind with Some _ => true | None => false end.

Definition is_string (kind : string) : bool := bool_decide (kind = "string"%string).
Definition is_records (kind : string) : bool := bool_decide (kind = "records"%string).

(** The Rust type a kind is mapped to. *)
Inductive RustType :=
  | TBytes | TF64 | TI16 | TI32 | TI64 | TI8 | TString | TU16 | TUuid | TRecordBatch | TBool
  | TNamed (name : string).

Fixpoint type_mapping (kind : string) : RustType :=
  match kind with
  | String "["%char (String "]"%char rest) => type_mapping rest
  | _ =>
      if bool_decide (kind = "bytes"%string) then TBytes
      else if bool_decide (kind = "float64"%string) then TF64
      else if bool_decide (kind = "int16"%string) then TI16
      else if bool_decide (kind = "int32"%string) then TI32
      else if bool_decide (kind = "int64"%string) then TI64
      else if bool_decide (kind = "int8"%string) then TI8
      else if bool_decide (kind = "string"%string) then TString
      else if bool_decide (kind = "uint16"%string) then TU16
      else if bool_decide (kind = "uuid"%string) then TUuid
      else if bool_decide (kind = "records"%string) then TRecordBatch
      else if bool_decide (kind = "bool"%string) then TBool
      else TNamed kind
  end.

(** ** Descriptions *)

Inductive MessageKind := Request | Response.
Inductive Listener := ZkBroker | Broker | Controller.

Inductive Field := mkField {
  f_name : string;
  f_kind : string;
  f_versions : VersionRange;
  f_nullable : option VersionRange;
  f_tag : option Z;
  f_tagged : option VersionRange;
  f_fields : option (list Field);
}.

Record CommonStruct := mkCommon { cs_name : string; cs_fields : list Field }.

Record Message := mkMessage {
  m_api_key : Z;
  m_kind : MessageKind;
  m_listeners : option (list Listener);
  m_name : string;
  m_versions : Version;
  m_fields : list Field;
  m_common_structs : option (list CommonStruct);
}.

(** ** Run-time metadata *)

Inductive FieldMeta := mkFieldMeta {
  version : VersionRange;
  nullable : option VersionRange;
  kind : string;
  tag : option Z;
  tagged : option VersionRange;
  fields : list (string * FieldMeta);
}.

Record MessageMeta := mkMessageMeta {
  mm_name : string;
  mm_api_key : Z;
  mm_version : Version;
  mm_kind : MessageKind;
  mm_fields : list (string * FieldMeta);
}.

(** [FieldLookup::field], [MessageMeta::field] and [FieldMeta::field]: the first
    entry of that name. *)
Fixpoint lookup_field (l : list (string * FieldMeta)) (name : string) : option FieldMeta :=
  match l with
  | [] => None
  | (found, fm) :: l => if bool_decide (name = found) then Some fm else lookup_field l name
  end.

Definition is_flexible (mm : MessageMeta) (v : Z) : bool := within (flexible (mm_version mm)) v.

Definition is_nullable (fm : FieldMeta) (v : Z) : bool :=
  match nullable fm with Some range => within range v | None => false end.

Definition is_structure (fm : FieldMeta) : bool :=
  match kind_of_sequence (kind fm) with
  | Some k => negb (is_primitive k)
  | None => false
  end || negb (bool_decide (length (fields fm) = 0%nat)).

(** What [FieldMeta::structures] appends after a field's own children: sequences
    of structures only. *)
Definition nested_structure (fm : FieldMeta) : list (string * FieldMeta) :=
  match kind_of_sequence (kind fm) with
  | Some k => if is_primitive k then [] else [(k, fm)]
  | None => []
  end.

Fixpoint structures (fm : FieldMeta) : list (string * FieldMeta) :=
  (fix go (l : list (string * FieldMeta)) : list (string * FieldMeta) :=
     match l with
     | [] => []
     | (_, fm) :: l =>
         (if is_structure fm then structures fm ++ nested_structure fm else []) ++ go l
     end) (fields fm).

(** [MessageMeta::structures] also keeps structures that are not sequences. *)
Definition root_structure (fm : FieldMeta) : list (string * FieldMeta) :=
  match kind_of_sequence (kind fm) with
  | Some k => if is_primitive k then [] else [(k, fm)]
  | None => [(kind fm, fm)]
  end.

Definition message_structures (mm : MessageMeta) : list (string * FieldMeta) :=
  flat_map (fun '(_, fm) =>
    if is_structure fm then structures fm ++ root_structure fm else []) (mm_fields mm).

(** [RootMessageMeta::new]: by api key, a later entry replacing an earlier one. *)
Record RootMessageMeta := mkRoot {
  requests : gmap Z MessageMeta;
  responses : gmap Z MessageMeta;
}.

Definition RootMessageMeta_new (metas : list MessageMeta) : RootMessageMeta :=
  fold_left (fun root mm =>
    match mm_kind mm with
    | Request => mkRoot (<[mm_api_key mm := mm]> (requests root)) (responses root)
    | Response => mkRoot (requests root) (<[mm_api_key mm := mm]> (responses root))
    end) metas (mkRoot ∅ ∅).

(** ** Generated types *)

Inductive Shape :=
  | SBool
  | SInt (t : ity)                     (** i8, i16, i32, i64, u16 *)
  | SF64                               (** f64, by its bits *)
  | SString
  | SBytes                             (** bytes::Bytes *)
  | SUuid                              (** [u8; 16] *)
  | SRecords                           (** deflated::Frame *)
  | STagBuffer
  | SOption (s : Shape)
  | SVec (s : Shape)
  | SStruct (name : string) (fields : list (string * Shape)).

(** [kind] of build.rs: how a field's base type is wrapped. *)
Definition field_shape (parent : option VersionRange) (f : Field) (base : Shape) : Shape :=
  match f_tag f with
  | Some _ => SOption (if is_sequence (f_kind f) then SVec base else base)
  | None =>
      if is_sequence (f_kind f) then SOption (SVec base)
      else if bool_decide (f_nullable f = None) && is_mandatory (f_versions f) parent then base
      else SOption base
  end.

(** [m.get(&field.kind().type_name())] on a map built with [from_iter]: the last
    structure of that name. *)
Definition common_fields (common : option (list CommonStruct)) (name : string)
    : option (list Field) :=
  match common with
  | None => None
  | Some l => cs_fields <$> List.find (fun cs => bool_decide (cs_name cs = name)) (rev l)
  end.

Section Generated.
(** [convert_case]'s [to_case(Case::Snake)]. *)
Variable snake : string -> string.

(** [each_field_meta]; [fuel] bounds the nesting, common structures included. *)
Fixpoint each_field_meta (fuel : nat) (common : option (list CommonStruct)) (f : Field)
    : string * FieldMeta :=
  let children :=
    match fuel with
    | O => []
    | S fuel =>
        match f_fields f with
        | Some l => map (each_field_meta fuel common) l
        | None =>
            match type_mapping (f_kind f) with
            | TNamed name =>
                match common_fields common name with
                | Some l => map (each_field_meta fuel common) l
                | None => []
                end
            | _ => []
            end
        end
    end in
  (snake (f_name f),
   mkFieldMeta (f_versions f) (f_nullable f) (f_kind f) (f_tag f) (f_tagged f) children).

Definition each_message_meta (fuel : nat) (m : Message) : MessageMeta :=
  mkMessageMeta (m_name m) (m_api_key m) (m_versions m) (m_kind m)
    (map (each_field_meta fuel (m_common_structs m)) (m_fields m)).

(** The mezzanine type of a field: [kind] over the base type its name resolves
    to, the structure generated from the field's own children ([message_struct])
    or the common structure ([common_struct], whose fields have no parent).
    Fields with a tag are left out of the structure, which ends with its tag
    buffer. *)
Fixpoint field_type (fuel : nat) (common : option (list CommonStruct))
    (parent : option VersionRange) (f : Field) : Shape :=
  let structure (fuel : nat) (name : string) (parent : option VersionRange) (l : list Field) :=
    SStruct name
      (map (fun g => (snake (f_name g), field_type fuel common parent g))
         (List.filter (fun g => bool_decide (f_tag g = None)) l)
       ++ [("tag_buffer"%string, SOption STagBuffer)]) in
  field_shape parent f
    match type_mapping (f_kind f) with
    | TBytes => SBytes
    | TF64 => SF64
    | TI16 => SInt I16
    | TI32 => SInt I32
    | TI64 => SInt I64
    | TI8 => SInt I8
    | TString => SString
    | TU16 => SInt U16
    | TUuid => SUuid
    | TRecordBatch => SRecords
    | TBool => SBool
    | TNamed name =>
        match fuel with
        | O => SStruct name []
        | S fuel =>
            match f_fields f with
            | Some l => structure fuel name (Some (f_versions f)) l
            | None =>
                match common_fields common name with
                | Some l => structure fuel name None l
                | None => SStruct name []
                end
            end
        end
    end.

(** The mezzanine structure of a message. *)
Definition message_struct (fuel : nat) (m : Message) : Shape :=
  SStruct (m_name m)
    (map (fun g => (snake (f_name g), field_type fuel (m_common_structs m) None g))
       (List.filter (fun g => bool_decide (f_tag g = None)) (m_fields m))
     ++ [("tag_buffer"%string, SOption STagBuffer)]).

End Generated.

(** [main]: the messages the codec is generated for, those of an api key some
    message of which a broker listens to, and which have a field. *)
Definition listens (m : Message) : bool :=
  match m_listeners m with Some l => existsb (fun x => match x with Broker => true | _ => false end) l | None => false end.

Definition broker_api_keys (messages : list Message) : list Z :=
  map m_api_key (List.filter listens messages).

Definition broker_messages (messages : list Message) : list Message :=
  List.filter (fun m => bool_decide (m_api_key m ∈ broker_api_keys messages)
                        && negb (bool_decide (length (m_fields m) = 0%nat))) messages.

End Model.
