(* ===== verification/Schemas.v ===== *)
(** * Schemas: the message descriptions

    [tansu-sans-io/message/]: the JSON descriptions [build.rs] reads, those its
    pattern selects, as values of [Message]: names, kinds, versions, nullable
    and tagged versions, tags and nested fields as the files have them.  The
    comments, defaults and the keys the generator does not use for the codec
    are left out. *)

From S2P Require Export MessageModel.
Import Model.

(** A version range as it is written in a description. *)
Notation vr s :=
  ltac:(let r := eval vm_compute in (VersionRange_from_str s%string) in
        match r with Ok ?x => exact x end) (only parsing).

Module Schemas.

#[local] Open Scope string_scope.

Definition AddOffsetsToTxnRequest : Message :=
  mkMessage 25 Request (Some [ZkBroker; Broker]) "AddOffsetsToTxnRequest"
    (mkVersion (vr "0-4") None (vr "3+")) [
    mkField "TransactionalId" "string" (vr "0+") None None None None;
    mkField "ProducerId" "int64" (vr "0+") None None None None;
    mkField "ProducerEpoch" "int16" (vr "0+") None None None None;
    mkField "GroupId" "string" (vr "0+") None None None None]
    None.

Definition AddOffsetsToTxnResponse : Message :=
  mkMessage 25 Response None "AddOffsetsToTxnResponse"
    (mkVersion (vr "0-4") None (vr "3+")) [
    mkField "ThrottleTimeMs" "int32" (vr "0+") None None None None;
    mkField "ErrorCode" "int16" (vr "0+") None None None None]
    None.

Definition AddPartitionsToTxnRequest : Message :=
  mkMessage 24 Request (Some [ZkBroker; Broker]) "AddPartitionsToTxnRequest"
    (mkVersion (vr "0-5") None (vr "3+")) [
    mkField "Transactions" "[]AddPartitionsToTxnTransaction" (vr "4+") None None None (Some [
      mkField "TransactionalId" "string" (vr "4+") None None None None;
      mkField "ProducerId" "int64" (vr "4+") None None None None;
      mkField "ProducerEpoch" "int16" (vr "4+") None None None None;
      mkField "VerifyOnly" "bool" (vr "4+") None None None None;
      mkField "Topics" "[]AddPartitionsToTxnTopic" (vr "4+") None None None None]);
    mkField "V3AndBelowTransactionalId" "string" (vr "0-3") None None None None;
    mkField "V3AndBelowProducerId" "int64" (vr "0-3") None None None None;
    mkField "V3AndBelowProducerEpoch" "int16" (vr "0-3") None None None None;
    mkField "V3AndBelowTopics" "[]AddPartitionsToTxnTopic" (vr "0-3") None None None None]
    (Some [
    mkCommon "AddPartitionsToTxnTopic" [
      mkField "Name" "string" (vr "0+") None None None None;
      mkField "Partitions" "[]int32" (vr "0+") None None None None]]).

Definition AddPartitionsToTxnResponse : Message :=
  mkMessage 24 Response None "AddPartitionsToTxnResponse"
    (mkVersion (vr "0-5") None (vr "3+")) [
    mkField "ThrottleTimeMs" "int32" (vr "0+") None None None None;
    mkField "ErrorCode" "int16" (vr "4+") None None None None;
    mkField "ResultsByTransaction" "[]AddPartitionsToTxnResult" (vr "4+") None None None (Some [
      mkField "TransactionalId" "string" (vr "4+") None None None None;
      mkField "TopicResults" "[]AddPartitionsToTxnTopicResult" (vr "4+") None None None None]);
    mkField "ResultsByTopicV3AndBelow" "[]AddPartitionsToTxnTopicResult" (vr "0-3") None None None None]
    (Some [
    mkCommon "AddPartitionsToTxnTopicResult" [
      mkField "Name" "string" (vr "0+") None None None None;
      mkField "ResultsByPartition" "[]AddPartitionsToTxnPartitionResult" (vr "0+") None None None None];
    mkCommon "AddPartitionsToTxnPartitionResult" [
      mkField "PartitionIndex" "int32" (vr "0+") None None None None;
      mkField "PartitionErrorCode" "int16" (vr "0+") None None None None]]).

Definition AddRaftVoterRequest : Message :=
  mkMessage 80 Request (Some [Controller; Broker]) "AddRaftVoterRequest"
    (mkVersion (vr "0") None (vr "0+")) [
    mkField "ClusterId" "string" (vr "0+") (Some (vr "0+")) None None None;
    mkField "TimeoutMs" "int32" (vr "0+") None None None None;
    mkField "VoterId" "int32" (vr "0+") None None None None;
    mkField "VoterDirectoryId" "uuid" (vr "0+") None None None None;
    mkField "Listeners" "[]Listener" (vr "0+") None None None (Some [
      mkField "Name" "string" (vr "0+") None None None None;
      mkField "Host" "string" (vr "0+") None None None None;
      mkField "Port" "uint16" (vr "0+") None None None None])]
    None.

Definition AddRaftVoterResponse : Message :=
  mkMessage 80 Response None "AddRaftVoterResponse"
    (mkVersion (vr "0") None (vr "0+")) [
    mkField "ThrottleTimeMs" "int32" (vr "0+") None None None None;
    mkField "ErrorCode" "int16" (vr "0+") None None None None;
    mkField "ErrorMessage" "string" (vr "0+") (Some (vr "0+")) None None None]
    None.

Definition AllocateProducerIdsRequest : Message :=
  mkMessage 67 Request (Some [ZkBroker; Controller]) "AllocateProducerIdsRequest"
    (mkVersion (vr "0") None (vr "0+")) [
    mkField "BrokerId" "int32" (vr "0+") None None None None;
    mkField "BrokerEpoch" "int64" (vr "0+") None None None None]
    None.

Definition AllocateProducerIdsResponse : Message :=
  mkMessage 67 Response None "AllocateProducerIdsResponse"
    (mkVersion (vr "0") None (vr "0+")) [
    mkField "ThrottleTimeMs" "int32" (vr "0+") None None None None;
    mkField "ErrorCode" "int16" (vr "0+") None None None None;
    mkField "ProducerIdStart" "int64" (vr "0+") None None None None;
    mkField "ProducerIdLen" "int32" (vr "0+") None None None None]
    None.

Definition AlterClientQuotasRequest : Message :=
  mkMessage 49 Request (Some [ZkBroker; Broker; Controller]) "AlterClientQuotasRequest"
    (mkVersion (vr "0-1") None (vr "1+")) [
    mkField "Entries" "[]EntryData" (vr "0+") None None None (Some [
      mkField "Entity" "[]EntityData" (vr "0+") None None None (Some [
        mkField "EntityType" "string" (vr "0+") None None None None;
        mkField "EntityName" "string" (vr "0+") (Some (vr "0+")) None None None]);
      mkField "Ops" "[]OpData" (vr "0+") None None None (Some [
        mkField "Key" "string" (vr "0+") None None None None;
        mkField "Value" "float64" (vr "0+") None None None None;
        mkField "Remove" "bool" (vr "0+") None None None None])]);
    mkField "ValidateOnly" "bool" (vr "0+") None None None None]
    None.

Definition AlterClientQuotasResponse : Message :=
  mkMessage 49 Response None "AlterClientQuotasResponse"
    (mkVersion (vr "0-1") None (vr "1+")) [
    mkField "ThrottleTimeMs" "int32" (vr "0+") None None None None;
    mkField "Entries" "[]EntryData" (vr "0+") None None None (Some [
      mkField "ErrorCode" "int16" (vr "0+") None None None None;
      mkField "ErrorMessage" "string" (vr "0+") (Some (vr "0+")) None None None;
      mkField "Entity" "[]EntityData" (vr "0+") None None None (Some [
        mkField "EntityType" "string" (vr "0+") None None None None;
        mkField "EntityName" "string" (vr "0+") (Some (vr "0+")) None None None])])]
    None.

Definition AlterConfigsRequest : Message :=
  mkMessage 33 Request (Some [ZkBroker; Broker; Controller]) "AlterConfigsRequest"
    (mkVersion (vr "0-2") None (vr "2+")) [
    mkField "Resources" "[]AlterConfigsResource" (vr "0+") None None None (Some [
      mkField "ResourceType" "int8" (vr "0+") None None None None;
      mkField "ResourceName" "string" (vr "0+") None None None None;
      mkField "Configs" "[]AlterableConfig" (vr "0+") None None None (Some [
        mkField "Name" "string" (vr "0+") None None None None;
        mkField "Value" "string" (vr "0+") (Some (vr "0+")) None None None])]);
    mkField "ValidateOnly" "bool" (vr "0+") None None None None]
    None.

Definition AlterConfigsResponse : Message :=
  mkMessage 33 Response None "AlterConfigsResponse"
    (mkVersion (vr "0-2") None (vr "2+")) [
    mkField "ThrottleTimeMs" "int32" (vr "0+") None None None None;
    mkField "Responses" "[]AlterConfigsResourceResponse" (vr "0+") None None None (Some [
      mkField "ErrorCode" "int16" (vr "0+") None None None None;
      mkField "ErrorMessage" "string" (vr "0+") (Some (vr "0+")) None None None;
      mkField "ResourceType" "int8" (vr "0+") None None None None;
      mkField "ResourceName" "string" (vr "0+") None None None None])]
    None.

Definition AlterPartitionReassignmentsRequest : Message :=
  mkMessage 45 Request (Some [Broker; Controller; ZkBroker]) "AlterPartitionReassignmentsRequest"
    (mkVersion (vr "0") None (vr "0+")) [
    mkField "TimeoutMs" "int32" (vr "0+") None None None None;
    mkField "Topics" "[]ReassignableTopic" (vr "0+") None None None (Some [
      mkField "Name" "string" (vr "0+") None None None None;
      mkField "Partitions" "[]ReassignablePartition" (vr "0+") None None None (Some [
        mkField "PartitionIndex" "int32" (vr "0+") None None None None;
        mkField "Replicas" "[]int32" (vr "0+") (Some (vr "0+")) None None None])])]
    None.

Definition AlterPartitionReassignmentsResponse : Message :=
  mkMessage 45 Response None "AlterPartitionReassignmentsResponse"
    (mkVersion (vr "0") None (vr "0+")) [
    mkField "ThrottleTimeMs" "int32" (vr "0+") None None None None;
    mkField "ErrorCode" "int16" (vr "0+") None None None None;
    mkField "ErrorMessage" "string" (vr "0+") (Some (vr "0+")) None None None;
    mkField "Responses" "[]ReassignableTopicResponse" (vr "0+") None None None (Some [
      mkField "Name" "string" (vr "0+") None None None None;
      mkField "Partitions" "[]ReassignablePartitionResponse" (vr "0+") None None None (Some [
        mkField "PartitionIndex" "int32" (vr "0+") None None None None;
        mkField "ErrorCode" "int16" (vr "0+") None None None None;
        mkField "ErrorMessage" "string" (vr "0+") (Some (vr "0+")) None None None])])]
    None.

Definition AlterPartitionRequest : Message :=
  mkMessage 56 Request (Some [ZkBroker; Controller]) "AlterPartitionRequest"
    (mkVersion (vr "0-3") None (vr "0+")) [
    mkField "BrokerId" "int32" (vr "0+") None None None None;
    mkField "BrokerEpoch" "int64" (vr "0+") None None None None;
    mkField "Topics" "[]TopicData" (vr "0+") None None None (Some [
      mkField "TopicName" "string" (vr "0-1") None None None None;
      mkField "TopicId" "uuid" (vr "2+") None None None None;
      mkField "Partitions" "[]PartitionData" (vr "0+") None None None (Some [
        mkField "PartitionIndex" "int32" (vr "0+") None None None None;
        mkField "LeaderEpoch" "int32" (vr "0+") None None None None;
        mkField "NewIsr" "[]int32" (vr "0-2") None None None None;
        mkField "NewIsrWithEpochs" "[]BrokerState" (vr "3+") None None None (Some [
          mkField "BrokerId" "int32" (vr "3+") None None None None;
          mkField "BrokerEpoch" "int64" (vr "3+") None None None None]);
        mkField "LeaderRecoveryState" "int8" (vr "1+") None None None None;
        mkField "PartitionEpoch" "int32" (vr "0+") None None None None])])]
    None.

Definition AlterPartitionResponse : Message :=
  mkMessage 56 Response None "AlterPartitionResponse"
    (mkVersion (vr "0-3") None (vr "0+")) [
    mkField "ThrottleTimeMs" "int32" (vr "0+") None None None None;
    mkField "ErrorCode" "int16" (vr "0+") None None None None;
    mkField "Topics" "[]TopicData" (vr "0+") None None None (Some [
      mkField "TopicName" "string" (vr "0-1") None None None None;
      mkField "TopicId" "uuid" (vr "2+") None None None None;
      mkField "Partitions" "[]PartitionData" (vr "0+") None None None (Some [
        mkField "PartitionIndex" "int32" (vr "0+") None None None None;
        mkField "ErrorCode" "int16" (vr "0+") None None None None;
        mkField "LeaderId" "int32" (vr "0+") None None None None;
        mkField "LeaderEpoch" "int32" (vr "0+") None None None None;
        mkField "Isr" "[]int32" (vr "0+") None None None None;
        mkField "LeaderRecoveryState" "int8" (vr "1+") None None None None;
        mkField "PartitionEpoch" "int32" (vr "0+") None None None None])])]
    None.

Definition AlterReplicaLogDirsRequest : Message :=
  mkMessage 34 Request (Some [ZkBroker; Broker]) "AlterReplicaLogDirsRequest"
    (mkVersion (vr "0-2") (Some (vr "0")) (vr "2+")) [
    mkField "Dirs" "[]AlterReplicaLogDir" (vr "0+") None None None (Some [
      mkField "Path" "string" (vr "0+") None None None None;
      mkField "Topics" "[]AlterReplicaLogDirTopic" (vr "0+") None None None (Some [
        mkField "Name" "string" (vr "0+") None None None None;
        mkField "Partitions" "[]int32" (vr "0+") None None None None])])]
    None.

Definition AlterReplicaLogDirsResponse : Message :=
  mkMessage 34 Response None "AlterReplicaLogDirsResponse"
    (mkVersion (vr "0-2") None (vr "2+")) [
    mkField "ThrottleTimeMs" "int32" (vr "0+") None None None None;
    mkField "Results" "[]AlterReplicaLogDirTopicResult" (vr "0+") None None None (Some [
      mkField "TopicName" "string" (vr "0+") None None None None;
      mkField "Partitions" "[]AlterReplicaLogDirPartitionResult" (vr "0+") None None None (Some [
        mkField "PartitionIndex" "int32" (vr "0+") None None None None;
        mkField "ErrorCode" "int16" (vr "0+") None None None None])])]
    None.

Definition AlterUserScramCredentialsRequest : Message :=
  mkMessage 51 Request (Some [ZkBroker; Broker; Controller]) "AlterUserScramCredentialsRequest"
    (mkVersion (vr "0") None (vr "0+")) [
    mkField "Deletions" "[]ScramCredentialDeletion" (vr "0+") None None None (Some [
      mkField "Name" "string" (vr "0+") None None None None;
      mkField "Mechanism" "int8" (vr "0+") None None None None]);
    mkField "Upsertions" "[]ScramCredentialUpsertion" (vr "0+") None None None (Some [
      mkField "Name" "string" (vr "0+") None None None None;
      mkField "Mechanism" "int8" (vr "0+") None None None None;
      mkField "Iterations" "int32" (vr "0+") None None None None;
      mkField "Salt" "bytes" (vr "0+") None None None None;
      mkField "SaltedPassword" "bytes" (vr "0+") None None None None])]
    None.

Definition AlterUserScramCredentialsResponse : Message :=
  mkMessage 51 Response None "AlterUserScramCredentialsResponse"
    (mkVersion (vr "0") None (vr "0+")) [
    mkField "ThrottleTimeMs" "int32" (vr "0+") None None None None;
    mkField "Results" "[]AlterUserScramCredentialsResult" (vr "0+") None None None (Some [
      mkField "User" "string" (vr "0+") None None None None;
      mkField "ErrorCode" "int16" (vr "0+") None None None None;
      mkField "ErrorMessage" "string" (vr "0+") (Some (vr "0+")) None None None])]
    None.

Definition ApiVersionsRequest : Message :=
  mkMessage 18 Request (Some [ZkBroker; Broker; Controller]) "ApiVersionsRequest"
    (mkVersion (vr "0-4") None (vr "3+")) [
    mkField "ClientSoftwareName" "string" (vr "3+") None None None None;
    mkField "ClientSoftwareVersion" "string" (vr "3+") None None None None]
    None.

Definition ApiVersionsResponse : Message :=
  mkMessage 18 Response None "ApiVersionsResponse"
    (mkVersion (vr "0-4") None (vr "3+")) [
    mkField "ErrorCode" "int16" (vr "0+") None None None None;
    mkField "ApiKeys" "[]ApiVersion" (vr "0+") None None None (Some [
      mkField "ApiKey" "int16" (vr "0+") None None None None;
      mkField "MinVersion" "int16" (vr "0+") None None None None;
      mkField "MaxVersion" "int16" (vr "0+") None None None None]);
    mkField "ThrottleTimeMs" "int32" (vr "1+") None None None None;
    mkField "SupportedFeatures" "[]SupportedFeatureKey" (vr "3+") None (Some 0) (Some (vr "3+")) (Some [
      mkField "Name" "string" (vr "3+") None None None None;
      mkField "MinVersion" "int16" (vr "3+") None None None None;
      mkField "MaxVersion" "int16" (vr "3+") None None None None]);
    mkField "FinalizedFeaturesEpoch" "int64" (vr "3+") None (Some 1) (Some (vr "3+")) None;
    mkField "FinalizedFeatures" "[]FinalizedFeatureKey" (vr "3+") None (Some 2) (Some (vr "3+")) (Some [
      mkField "Name" "string" (vr "3+") None None None None;
      mkField "MaxVersionLevel" "int16" (vr "3+") None None None None;
      mkField "MinVersionLevel" "int16" (vr "3+") None None None None]);
    mkField "ZkMigrationReady" "bool" (vr "3+") None (Some 3) (Some (vr "3+")) None]
    None.

Definition AssignReplicasToDirsRequest : Message :=
  mkMessage 73 Request (Some [Controller]) "AssignReplicasToDirsRequest"
    (mkVersion (vr "0") None (vr "0+")) [
    mkField "BrokerId" "int32" (vr "0+") None None None None;
    mkField "BrokerEpoch" "int64" (vr "0+") None None None None;
    mkField "Directories" "[]DirectoryData" (vr "0+") None None None (Some [
      mkField "Id" "uuid" (vr "0+") None None None None;
      mkField "Topics" "[]TopicData" (vr "0+") None None None (Some [
        mkField "TopicId" "uuid" (vr "0+") None None None None;
        mkField "Partitions" "[]PartitionData" (vr "0+") None None None (Some [
          mkField "PartitionIndex" "int32" (vr "0+") None None None None])])])]
    None.

Definition AssignReplicasToDirsResponse : Message :=
  mkMessage 73 Response None "AssignReplicasToDirsResponse"
    (mkVersion (vr "0") None (vr "0+")) [
    mkField "ThrottleTimeMs" "int32" (vr "0+") None None None None;
    mkField "ErrorCode" "int16" (vr "0+") None None None None;
    mkField "Directories" "[]DirectoryData" (vr "0+") None None None (Some [
      mkField "Id" "uuid" (vr "0+") None None None None;
      mkField "Topics" "[]TopicData" (vr "0+") None None None (Some [
        mkField "TopicId" "uuid" (vr "0+") None None None None;
        mkField "Partitions" "[]PartitionData" (vr "0+") None None None (Some [
          mkField "PartitionIndex" "int32" (vr "0+") None None None None;
          mkField "ErrorCode" "int16" (vr "0+") None None None None])])])]
    None.

Definition BeginQuorumEpochRequest : Message :=
  mkMessage 53 Request (Some [Controller]) "BeginQuorumEpochRequest"
    (mkVersion (vr "0-1") None (vr "1+")) [
    mkField "ClusterId" "string" (vr "0+") (Some (vr "0+")) None None None;
    mkField "VoterId" "int32" (vr "1+") None None None None;
    mkField "Topics" "[]TopicData" (vr "0+") None None None (Some [
      mkField "TopicName" "string" (vr "0+") None None None None;
      mkField "Partitions" "[]PartitionData" (vr "0+") None None None (Some [
        mkField "PartitionIndex" "int32" (vr "0+") None None None None;
        mkField "VoterDirectoryId" "uuid" (vr "1+") None None None None;
        mkField "LeaderId" "int32" (vr "0+") None None None None;
        mkField "LeaderEpoch" "int32" (vr "0+") None None None None])]);
    mkField "LeaderEndpoints" "[]LeaderEndpoint" (vr "1+") None None None (Some [
      mkField "Name" "string" (vr "1+") None None None None;
      mkField "Host" "string" (vr "1+") None None None None;
      mkField "Port" "uint16" (vr "1+") None None None None])]
    None.

Definition BeginQuorumEpochResponse : Message :=
  mkMessage 53 Response None "BeginQuorumEpochResponse"
    (mkVersion (vr "0-1") None (vr "1+")) [
    mkField "ErrorCode" "int16" (vr "0+") None None None None;
    mkField "Topics" "[]TopicData" (vr "0+") None None None (Some [
      mkField "TopicName" "string" (vr "0+") None None None None;
      mkField "Partitions" "[]PartitionData" (vr "0+") None None None (Some [
        mkField "PartitionIndex" "int32" (vr "0+") None None None None;
        mkField "ErrorCode" "int16" (vr "0+") None None None None;
        mkField "LeaderId" "int32" (vr "0+") None None None None;
        mkField "LeaderEpoch" "int32" (vr "0+") None None None None])]);
    mkField "NodeEndpoints" "[]NodeEndpoint" (vr "1+") None (Some 0) (Some (vr "1+")) (Some [
      mkField "NodeId" "int32" (vr "1+") None None None None;
      mkField "Host" "string" (vr "1+") None None None None;
      mkField "Port" "uint16" (vr "1+") None None None None])]
    None.

Definition BrokerHeartbeatRequest : Message :=
  mkMessage 63 Request (Some [Controller]) "BrokerHeartbeatRequest"
    (mkVersion (vr "0-1") None (vr "0+")) [
    mkField "BrokerId" "int32" (vr "0+") None None None None;
    mkField "BrokerEpoch" "int64" (vr "0+") None None None None;
    mkField "CurrentMetadataOffset" "int64" (vr "0+") None None None None;
    mkField "WantFence" "bool" (vr "0+") None None None None;
    mkField "WantShutDown" "bool" (vr "0+") None None None None;
    mkField "OfflineLogDirs" "[]uuid" (vr "1+") None (Some 0) (Some (vr "1+")) None]
    None.

Definition BrokerHeartbeatResponse : Message :=
  mkMessage 63 Response None "BrokerHeartbeatResponse"
    (mkVersion (vr "0-1") None (vr "0+")) [
    mkField "ThrottleTimeMs" "int32" (vr "0+") None None None None;
    mkField "ErrorCode" "int16" (vr "0+") None None None None;
    mkField "IsCaughtUp" "bool" (vr "0+") None None None None;
    mkField "IsFenced" "bool" (vr "0+") None None None None;
    mkField "ShouldShutDown" "bool" (vr "0+") None None None None]
    None.

Definition BrokerRegistrationRequest : Message :=
  mkMessage 62 Request (Some [Controller]) "BrokerRegistrationRequest"
    (mkVersion (vr "0-4") None (vr "0+")) [
    mkField "BrokerId" "int32" (vr "0+") None None None None;
    mkField "ClusterId" "string" (vr "0+") None None None None;
    mkField "IncarnationId" "uuid" (vr "0+") None None None None;
    mkField "Listeners" "[]Listener" (vr "0+") None None None (Some [
      mkField "Name" "string" (vr "0+") None None None None;
      mkField "Host" "string" (vr "0+") None None None None;
      mkField "Port" "uint16" (vr "0+") None None None None;
      mkField "SecurityProtocol" "int16" (vr "0+") None None None None]);
    mkField "Features" "[]Feature" (vr "0+") None None None (Some [
      mkField "Name" "string" (vr "0+") None None None None;
      mkField "MinSupportedVersion" "int16" (vr "0+") None None None None;
      mkField "MaxSupportedVersion" "int16" (vr "0+") None None None None]);
    mkField "Rack" "string" (vr "0+") (Some (vr "0+")) None None None;
    mkField "IsMigratingZkBroker" "bool" (vr "1+") None None None None;
    mkField "LogDirs" "[]uuid" (vr "2+") None None None None;
    mkField "PreviousBrokerEpoch" "int64" (vr "3+") None None None None]
    None.

Definition BrokerRegistrationResponse : Message :=
  mkMessage 62 Response None "BrokerRegistrationResponse"
    (mkVersion (vr "0-4") None (vr "0+")) [
    mkField "ThrottleTimeMs" "int32" (vr "0+") None None None None;
    mkField "ErrorCode" "int16" (vr "0+") None None None None;
    mkField "BrokerEpoch" "int64" (vr "0+") None None None None]
    None.

Definition ConsumerGroupDescribeRequest : Message :=
  mkMessage 69 Request (Some [Broker]) "ConsumerGroupDescribeRequest"
    (mkVersion (vr "0-1") None (vr "0+")) [
    mkField "GroupIds" "[]string" (vr "0+") None None None None;
    mkField "IncludeAuthorizedOperations" "bool" (vr "0+") None None None None]
    None.

Definition ConsumerGroupDescribeResponse : Message :=
  mkMessage 69 Response None "ConsumerGroupDescribeResponse"
    (mkVersion (vr "0-1") None (vr "0+")) [
    mkField "ThrottleTimeMs" "int32" (vr "0+") None None None None;
    mkField "Groups" "[]DescribedGroup" (vr "0+") None None None (Some [
      mkField "ErrorCode" "int16" (vr "0+") None None None None;
      mkField "ErrorMessage" "string" (vr "0+") (Some (vr "0+")) None None None;
      mkField "GroupId" "string" (vr "0+") None None None None;
      mkField "GroupState" "string" (vr "0+") None None None None;
      mkField "GroupEpoch" "int32" (vr "0+") None None None None;
      mkField "AssignmentEpoch" "int32" (vr "0+") None None None None;
      mkField "AssignorName" "string" (vr "0+") None None None None;
      mkField "Members" "[]Member" (vr "0+") None None None (Some [
        mkField "MemberId" "string" (vr "0+") None None None None;
        mkField "InstanceId" "string" (vr "0+") (Some (vr "0+")) None None None;
        mkField "RackId" "string" (vr "0+") (Some (vr "0+")) None None None;
        mkField "MemberEpoch" "int32" (vr "0+") None None None None;
        mkField "ClientId" "string" (vr "0+") None None None None;
        mkField "ClientHost" "string" (vr "0+") None None None None;
        mkField "SubscribedTopicNames" "[]string" (vr "0+") None None None None;
        mkField "SubscribedTopicRegex" "string" (vr "0+") (Some (vr "0+")) None None None;
        mkField "Assignment" "Assignment" (vr "0+") None None None None;
        mkField "TargetAssignment" "Assignment" (vr "0+") None None None None;
        mkField "MemberType" "int8" (vr "1+") None None None None]);
      mkField "AuthorizedOperations" "int32" (vr "0+") None None None None])]
    (Some [
    mkCommon "TopicPartitions" [
      mkField "TopicId" "uuid" (vr "0+") None None None None;
      mkField "TopicName" "string" (vr "0+") None None None None;
      mkField "Partitions" "[]int32" (vr "0+") None None None None];
    mkCommon "Assignment" [
      mkField "TopicPartitions" "[]TopicPartitions" (vr "0+") None None None None]]).

Definition ConsumerGroupHeartbeatRequest : Message :=
  mkMessage 68 Request (Some [Broker]) "ConsumerGroupHeartbeatRequest"
    (mkVersion (vr "0-1") None (vr "0+")) [
    mkField "GroupId" "string" (vr "0+") None None None None;
    mkField "MemberId" "string" (vr "0+") None None None None;
    mkField "MemberEpoch" "int32" (vr "0+") None None None None;
    mkField "InstanceId" "string" (vr "0+") (Some (vr "0+")) None None None;
    mkField "RackId" "string" (vr "0+") (Some (vr "0+")) None None None;
    mkField "RebalanceTimeoutMs" "int32" (vr "0+") None None None None;
    mkField "SubscribedTopicNames" "[]string" (vr "0+") (Some (vr "0+")) None None None;
    mkField "SubscribedTopicRegex" "string" (vr "1+") (Some (vr "1+")) None None None;
    mkField "ServerAssignor" "string" (vr "0+") (Some (vr "0+")) None None None;
    mkField "TopicPartitions" "[]TopicPartitions" (vr "0+") (Some (vr "0+")) None None (Some [
      mkField "TopicId" "uuid" (vr "0+") None None None None;
      mkField "Partitions" "[]int32" (vr "0+") None None None None])]
    None.

Definition ConsumerGroupHeartbeatResponse : Message :=
  mkMessage 68 Response None "ConsumerGroupHeartbeatResponse"
    (mkVersion (vr "0-1") None (vr "0+")) [
    mkField "ThrottleTimeMs" "int32" (vr "0+") None None None None;
    mkField "ErrorCode" "int16" (vr "0+") None None None None;
    mkField "ErrorMessage" "string" (vr "0+") (Some (vr "0+")) None None None;
    mkField "MemberId" "string" (vr "0+") (Some (vr "0+")) None None None;
    mkField "MemberEpoch" "int32" (vr "0+") None None None None;
    mkField "HeartbeatIntervalMs" "int32" (vr "0+") None None None None;
    mkField "Assignment" "Assignment" (vr "0+") (Some (vr "0+")) None None (Some [
      mkField "TopicPartitions" "[]TopicPartitions" (vr "0+") None None None None])]
    (Some [
    mkCommon "TopicPartitions" [
      mkField "TopicId" "uuid" (vr "0+") None None None None;
      mkField "Partitions" "[]int32" (vr "0+") None None None None]]).

Definition ControlledShutdownRequest : Message :=
  mkMessage 7 Request (Some [ZkBroker; Controller]) "ControlledShutdownRequest"
    (mkVersion (vr "0-3") None (vr "3+")) [
    mkField "BrokerId" "int32" (vr "0+") None None None None;
    mkField "BrokerEpoch" "int64" (vr "2+") None None None None]
    None.

Definition ControlledShutdownResponse : Message :=
  mkMessage 7 Response None "ControlledShutdownResponse"
    (mkVersion (vr "0-3") None (vr "3+")) [
    mkField "ErrorCode" "int16" (vr "0+") None None None None;
    mkField "RemainingPartitions" "[]RemainingPartition" (vr "0+") None None None (Some [
      mkField "TopicName" "string" (vr "0+") None None None None;
      mkField "PartitionIndex" "int32" (vr "0+") None None None None])]
    None.

Definition ControllerRegistrationRequest : Message :=
  mkMessage 70 Request (Some [Controller]) "ControllerRegistrationRequest"
    (mkVersion (vr "0") None (vr "0+")) [
    mkField "ControllerId" "int32" (vr "0+") None None None None;
    mkField "IncarnationId" "uuid" (vr "0+") None None None None;
    mkField "ZkMigrationReady" "bool" (vr "0+") None None None None;
    mkField "Listeners" "[]Listener" (vr "0+") None None None (Some [
      mkField "Name" "string" (vr "0+") None None None None;
      mkField "Host" "string" (vr "0+") None None None None;
      mkField "Port" "uint16" (vr "0+") None None None None;
      mkField "SecurityProtocol" "int16" (vr "0+") None None None None]);
    mkField "Features" "[]Feature" (vr "0+") None None None (Some [
      mkField "Name" "string" (vr "0+") None None None None;
      mkField "MinSupportedVersion" "int16" (vr "0+") None None None None;
      mkField "MaxSupportedVersion" "int16" (vr "0+") None None None None])]
    None.

Definition ControllerRegistrationResponse : Message :=
  mkMessage 70 Response None "ControllerRegistrationResponse"
    (mkVersion (vr "0") None (vr "0+")) [
    mkField "ThrottleTimeMs" "int32" (vr "0+") None None None None;
    mkField "ErrorCode" "int16" (vr "0+") None None None None;
    mkField "ErrorMessage" "string" (vr "0+") (Some (vr "0+")) None None None]
    None.

Definition CreateAclsRequest : Message :=
  mkMessage 30 Request (Some [ZkBroker; Broker; Controller]) "CreateAclsRequest"
    (mkVersion (vr "0-3") (Some (vr "0")) (vr "2+")) [
    mkField "Creations" "[]AclCreation" (vr "0+") None None None (Some [
      mkField "ResourceType" "int8" (vr "0+") None None None None;
      mkField "ResourceName" "string" (vr "0+") None None None None;
      mkField "ResourcePatternType" "int8" (vr "1+") None None None None;
      mkField "Principal" "string" (vr "0+") None None None None;
      mkField "Host" "string" (vr "0+") None None None None;
      mkField "Operation" "int8" (vr "0+") None None None None;
      mkField "PermissionType" "int8" (vr "0+") None None None None])]
    None.

Definition CreateAclsResponse : Message :=
  mkMessage 30 Response None "CreateAclsResponse"
    (mkVersion (vr "0-3") None (vr "2+")) [
    mkField "ThrottleTimeMs" "int32" (vr "0+") None None None None;
    mkField "Results" "[]AclCreationResult" (vr "0+") None None None (Some [
      mkField "ErrorCode" "int16" (vr "0+") None None None None;
      mkField "ErrorMessage" "string" (vr "0+") (Some (vr "0+")) None None None])]
    None.

Definition CreateDelegationTokenRequest : Message :=
  mkMessage 38 Request (Some [ZkBroker; Broker; Controller]) "CreateDelegationTokenRequest"
    (mkVersion (vr "0-3") (Some (vr "0")) (vr "2+")) [
    mkField "OwnerPrincipalType" "string" (vr "3+") (Some (vr "3+")) None None None;
    mkField "OwnerPrincipalName" "string" (vr "3+") (Some (vr "3+")) None None None;
    mkField "Renewers" "[]CreatableRenewers" (vr "0+") None None None (Some [
      mkField "PrincipalType" "string" (vr "0+") None None None None;
      mkField "PrincipalName" "string" (vr "0+") None None None None]);
    mkField "MaxLifetimeMs" "int64" (vr "0+") None None None None]
    None.

Definition CreateDelegationTokenResponse : Message :=
  mkMessage 38 Response None "CreateDelegationTokenResponse"
    (mkVersion (vr "0-3") None (vr "2+")) [
    mkField "ErrorCode" "int16" (vr "0+") None None None None;
    mkField "PrincipalType" "string" (vr "0+") None None None None;
    mkField "PrincipalName" "string" (vr "0+") None None None None;
    mkField "TokenRequesterPrincipalType" "string" (vr "3+") None None None None;
    mkField "TokenRequesterPrincipalName" "string" (vr "3+") None None None None;
    mkField "IssueTimestampMs" "int64" (vr "0+") None None None None;
    mkField "ExpiryTimestampMs" "int64" (vr "0+") None None None None;
    mkField "MaxTimestampMs" "int64" (vr "0+") None None None None;
    mkField "TokenId" "string" (vr "0+") None None None None;
    mkField "Hmac" "bytes" (vr "0+") None None None None;
    mkField "ThrottleTimeMs" "int32" (vr "0+") None None None None]
    None.

Definition CreatePartitionsRequest : Message :=
  mkMessage 37 Request (Some [ZkBroker; Broker; Controller]) "CreatePartitionsRequest"
    (mkVersion (vr "0-3") None (vr "2+")) [
    mkField "Topics" "[]CreatePartitionsTopic" (vr "0+") None None None (Some [
      mkField "Name" "string" (vr "0+") None None None None;
      mkField "Count" "int32" (vr "0+") None None None None;
      mkField "Assignments" "[]CreatePartitionsAssignment" (vr "0+") (Some (vr "0+")) None None (Some [
        mkField "BrokerIds" "[]int32" (vr "0+") None None None None])]);
    mkField "TimeoutMs" "int32" (vr "0+") None None None None;
    mkField "ValidateOnly" "bool" (vr "0+") None None None None]
    None.

Definition CreatePartitionsResponse : Message :=
  mkMessage 37 Response None "CreatePartitionsResponse"
    (mkVersion (vr "0-3") None (vr "2+")) [
    mkField "ThrottleTimeMs" "int32" (vr "0+") None None None None;
    mkField "Results" "[]CreatePartitionsTopicResult" (vr "0+") None None None (Some [
      mkField "Name" "string" (vr "0+") None None None None;
      mkField "ErrorCode" "int16" (vr "0+") None None None None;
      mkField "ErrorMessage" "string" (vr "0+") (Some (vr "0+")) None None None])]
    None.

Definition CreateTopicsRequest : Message :=
  mkMessage 19 Request (Some [ZkBroker; Broker; Controller]) "CreateTopicsRequest"
    (mkVersion (vr "0-7") (Some (vr "0-1")) (vr "5+")) [
    mkField "Topics" "[]CreatableTopic" (vr "0+") None None None (Some [
      mkField "Name" "string" (vr "0+") None None None None;
      mkField "NumPartitions" "int32" (vr "0+") None None None None;
      mkField "ReplicationFactor" "int16" (vr "0+") None None None None;
      mkField "Assignments" "[]CreatableReplicaAssignment" (vr "0+") None None None (Some [
        mkField "PartitionIndex" "int32" (vr "0+") None None None None;
        mkField "BrokerIds" "[]int32" (vr "0+") None None None None]);
      mkField "Configs" "[]CreatableTopicConfig" (vr "0+") None None None (Some [
        mkField "Name" "string" (vr "0+") None None None None;
        mkField "Value" "string" (vr "0+") (Some (vr "0+")) None None None])]);
    mkField "timeoutMs" "int32" (vr "0+") None None None None;
    mkField "validateOnly" "bool" (vr "1+") None None None None]
    None.

Definition CreateTopicsResponse : Message :=
  mkMessage 19 Response None "CreateTopicsResponse"
    (mkVersion (vr "0-7") None (vr "5+")) [
    mkField "ThrottleTimeMs" "int32" (vr "2+") None None None None;
    mkField "Topics" "[]CreatableTopicResult" (vr "0+") None None None (Some [
      mkField "Name" "string" (vr "0+") None None None None;
      mkField "TopicId" "uuid" (vr "7+") None None None None;
      mkField "ErrorCode" "int16" (vr "0+") None None None None;
      mkField "ErrorMessage" "string" (vr "1+") (Some (vr "0+")) None None None;
      mkField "TopicConfigErrorCode" "int16" (vr "5+") None (Some 0) (Some (vr "5+")) None;
      mkField "NumPartitions" "int32" (vr "5+") None None None None;
      mkField "ReplicationFactor" "int16" (vr "5+") None None None None;
      mkField "Configs" "[]CreatableTopicConfigs" (vr "5+") (Some (vr "5+")) None None (Some [
        mkField "Name" "string" (vr "5+") None None None None;
        mkField "Value" "string" (vr "5+") (Some (vr "5+")) None None None;
        mkField "ReadOnly" "bool" (vr "5+") None None None None;
        mkField "ConfigSource" "int8" (vr "5+") None None None None;
        mkField "IsSensitive" "bool" (vr "5+") None None None None])])]
    None.

Definition DeleteAclsRequest : Message :=
  mkMessage 31 Request (Some [ZkBroker; Broker; Controller]) "DeleteAclsRequest"
    (mkVersion (vr "0-3") (Some (vr "0")) (vr "2+")) [
    mkField "Filters" "[]DeleteAclsFilter" (vr "0+") None None None (Some [
      mkField "ResourceTypeFilter" "int8" (vr "0+") None None None None;
      mkField "ResourceNameFilter" "string" (vr "0+") (Some (vr "0+")) None None None;
      mkField "PatternTypeFilter" "int8" (vr "1+") None None None None;
      mkField "PrincipalFilter" "string" (vr "0+") (Some (vr "0+")) None None None;
      mkField "HostFilter" "string" (vr "0+") (Some (vr "0+")) None None None;
      mkField "Operation" "int8" (vr "0+") None None None None;
      mkField "PermissionType" "int8" (vr "0+") None None None None])]
    None.

Definition DeleteAclsResponse : Message :=
  mkMessage 31 Response None "DeleteAclsResponse"
    (mkVersion (vr "0-3") None (vr "2+")) [
    mkField "ThrottleTimeMs" "int32" (vr "0+") None None None None;
    mkField "FilterResults" "[]DeleteAclsFilterResult" (vr "0+") None None None (Some [
      mkField "ErrorCode" "int16" (vr "0+") None None None None;
      mkField "ErrorMessage" "string" (vr "0+") (Some (vr "0+")) None None None;
      mkField "MatchingAcls" "[]DeleteAclsMatchingAcl" (vr "0+") None None None (Some [
        mkField "ErrorCode" "int16" (vr "0+") None None None None;
        mkField "ErrorMessage" "string" (vr "0+") (Some (vr "0+")) None None None;
        mkField "ResourceType" "int8" (vr "0+") None None None None;
        mkField "ResourceName" "string" (vr "0+") None None None None;
        mkField "PatternType" "int8" (vr "1+") None None None None;
        mkField "Principal" "string" (vr "0+") None None None None;
        mkField "Host" "string" (vr "0+") None None None None;
        mkField "Operation" "int8" (vr "0+") None None None None;
        mkField "PermissionType" "int8" (vr "0+") None None None None])])]
    None.

Definition DeleteGroupsRequest : Message :=
  mkMessage 42 Request (Some [ZkBroker; Broker]) "DeleteGroupsRequest"
    (mkVersion (vr "0-2") None (vr "2+")) [
    mkField "GroupsNames" "[]string" (vr "0+") None None None None]
    None.

Definition DeleteGroupsResponse : Message :=
  mkMessage 42 Response None "DeleteGroupsResponse"
    (mkVersion (vr "0-2") None (vr "2+")) [
    mkField "ThrottleTimeMs" "int32" (vr "0+") None None None None;
    mkField "Results" "[]DeletableGroupResult" (vr "0+") None None None (Some [
      mkField "GroupId" "string" (vr "0+") None None None None;
      mkField "ErrorCode" "int16" (vr "0+") None None None None])]
    None.

Definition DeleteRecordsRequest : Message :=
  mkMessage 21 Request (Some [ZkBroker; Broker]) "DeleteRecordsRequest"
    (mkVersion (vr "0-2") None (vr "2+")) [
    mkField "Topics" "[]DeleteRecordsTopic" (vr "0+") None None None (Some [
      mkField "Name" "string" (vr "0+") None None None None;
      mkField "Partitions" "[]DeleteRecordsPartition" (vr "0+") None None None (Some [
        mkField "PartitionIndex" "int32" (vr "0+") None None None None;
        mkField "Offset" "int64" (vr "0+") None None None None])]);
    mkField "TimeoutMs" "int32" (vr "0+") None None None None]
    None.

Definition DeleteRecordsResponse : Message :=
  mkMessage 21 Response None "DeleteRecordsResponse"
    (mkVersion (vr "0-2") None (vr "2+")) [
    mkField "ThrottleTimeMs" "int32" (vr "0+") None None None None;
    mkField "Topics" "[]DeleteRecordsTopicResult" (vr "0+") None None None (Some [
      mkField "Name" "string" (vr "0+") None None None None;
      mkField "Partitions" "[]DeleteRecordsPartitionResult" (vr "0+") None None None (Some [
        mkField "PartitionIndex" "int32" (vr "0+") None None None None;
        mkField "LowWatermark" "int64" (vr "0+") None None None None;
        mkField "ErrorCode" "int16" (vr "0+") None None None None])])]
    None.

Definition DeleteShareGroupStateRequest : Message :=
  mkMessage 86 Request (Some [Broker]) "DeleteShareGroupStateRequest"
    (mkVersion (vr "0") None (vr "0+")) [
    mkField "GroupId" "string" (vr "0+") None None None None;
    mkField "Topics" "[]DeleteStateData" (vr "0+") None None None (Some [
      mkField "TopicId" "uuid" (vr "0+") None None None None;
      mkField "Partitions" "[]PartitionData" (vr "0+") None None None (Some [
        mkField "Partition" "int32" (vr "0+") None None None None])])]
    None.

Definition DeleteShareGroupStateResponse : Message :=
  mkMessage 86 Response None "DeleteShareGroupStateResponse"
    (mkVersion (vr "0") None (vr "0+")) [
    mkField "Results" "[]DeleteStateResult" (vr "0+") None None None (Some [
      mkField "TopicId" "uuid" (vr "0+") None None None None;
      mkField "Partitions" "[]PartitionResult" (vr "0+") None None None (Some [
        mkField "Partition" "int32" (vr "0+") None None None None;
        mkField "ErrorCode" "int16" (vr "0+") None None None None;
        mkField "ErrorMessage" "string" (vr "0+") (Some (vr "0+")) None None None])])]
    None.

Definition DeleteTopicsRequest : Message :=
  mkMessage 20 Request (Some [ZkBroker; Broker; Controller]) "DeleteTopicsRequest"
    (mkVersion (vr "0-6") (Some (vr "0")) (vr "4+")) [
    mkField "Topics" "[]DeleteTopicState" (vr "6+") None None None (Some [
      mkField "Name" "string" (vr "6+") (Some (vr "6+")) None None None;
      mkField "TopicId" "uuid" (vr "6+") None None None None]);
    mkField "TopicNames" "[]string" (vr "0-5") None None None None;
    mkField "TimeoutMs" "int32" (vr "0+") None None None None]
    None.

Definition DeleteTopicsResponse : Message :=
  mkMessage 20 Response None "DeleteTopicsResponse"
    (mkVersion (vr "0-6") None (vr "4+")) [
    mkField "ThrottleTimeMs" "int32" (vr "1+") None None None None;
    mkField "Responses" "[]DeletableTopicResult" (vr "0+") None None None (Some [
      mkField "Name" "string" (vr "0+") (Some (vr "6+")) None None None;
      mkField "TopicId" "uuid" (vr "6+") None None None None;
      mkField "ErrorCode" "int16" (vr "0+") None None None None;
      mkField "ErrorMessage" "string" (vr "5+") (Some (vr "5+")) None None None])]
    None.

Definition DescribeAclsRequest : Message :=
  mkMessage 29 Request (Some [ZkBroker; Broker; Controller]) "DescribeAclsRequest"
    (mkVersion (vr "0-3") (Some (vr "0")) (vr "2+")) [
    mkField "ResourceTypeFilter" "int8" (vr "0+") None None None None;
    mkField "ResourceNameFilter" "string" (vr "0+") (Some (vr "0+")) None None None;
    mkField "PatternTypeFilter" "int8" (vr "1+") None None None None;
    mkField "PrincipalFilter" "string" (vr "0+") (Some (vr "0+")) None None None;
    mkField "HostFilter" "string" (vr "0+") (Some (vr "0+")) None None None;
    mkField "Operation" "int8" (vr "0+") None None None None;
    mkField "PermissionType" "int8" (vr "0+") None None None None]
    None.

Definition DescribeAclsResponse : Message :=
  mkMessage 29 Response None "DescribeAclsResponse"
    (mkVersion (vr "0-3") None (vr "2+")) [
    mkField "ThrottleTimeMs" "int32" (vr "0+") None None None None;
    mkField "ErrorCode" "int16" (vr "0+") None None None None;
    mkField "ErrorMessage" "string" (vr "0+") (Some (vr "0+")) None None None;
    mkField "Resources" "[]DescribeAclsResource" (vr "0+") None None None (Some [
      mkField "ResourceType" "int8" (vr "0+") None None None None;
      mkField "ResourceName" "string" (vr "0+") None None None None;
      mkField "PatternType" "int8" (vr "1+") None None None None;
      mkField "Acls" "[]AclDescription" (vr "0+") None None None (Some [
        mkField "Principal" "string" (vr "0+") None None None None;
        mkField "Host" "string" (vr "0+") None None None None;
        mkField "Operation" "int8" (vr "0+") None None None None;
        mkField "PermissionType" "int8" (vr "0+") None None None None])])]
    None.

Definition DescribeClientQuotasRequest : Message :=
  mkMessage 48 Request (Some [ZkBroker; Broker]) "DescribeClientQuotasRequest"
    (mkVersion (vr "0-1") None (vr "1+")) [
    mkField "Components" "[]ComponentData" (vr "0+") None None None (Some [
      mkField "EntityType" "string" (vr "0+") None None None None;
      mkField "MatchType" "int8" (vr "0+") None None None None;
      mkField "Match" "string" (vr "0+") (Some (vr "0+")) None None None]);
    mkField "Strict" "bool" (vr "0+") None None None None]
    None.

Definition DescribeClientQuotasResponse : Message :=
  mkMessage 48 Response None "DescribeClientQuotasResponse"
    (mkVersion (vr "0-1") None (vr "1+")) [
    mkField "ThrottleTimeMs" "int32" (vr "0+") None None None None;
    mkField "ErrorCode" "int16" (vr "0+") None None None None;
    mkField "ErrorMessage" "string" (vr "0+") (Some (vr "0+")) None None None;
    mkField "Entries" "[]EntryData" (vr "0+") (Some (vr "0+")) None None (Some [
      mkField "Entity" "[]EntityData" (vr "0+") None None None (Some [
        mkField "EntityType" "string" (vr "0+") None None None None;
        mkField "EntityName" "string" (vr "0+") (Some (vr "0+")) None None None]);
      mkField "Values" "[]ValueData" (vr "0+") None None None (Some [
        mkField "Key" "string" (vr "0+") None None None None;
        mkField "Value" "float64" (vr "0+") None None None None])])]
    None.

Definition DescribeClusterRequest : Message :=
  mkMessage 60 Request (Some [ZkBroker; Broker; Controller]) "DescribeClusterRequest"
    (mkVersion (vr "0-1") None (vr "0+")) [
    mkField "IncludeClusterAuthorizedOperations" "bool" (vr "0+") None None None None;
    mkField "EndpointType" "int8" (vr "1+") None None None None]
    None.

Definition DescribeClusterResponse : Message :=
  mkMessage 60 Response None "DescribeClusterResponse"
    (mkVersion (vr "0-1") None (vr "0+")) [
    mkField "ThrottleTimeMs" "int32" (vr "0+") None None None None;
    mkField "ErrorCode" "int16" (vr "0+") None None None None;
    mkField "ErrorMessage" "string" (vr "0+") (Some (vr "0+")) None None None;
    mkField "EndpointType" "int8" (vr "1+") None None None None;
    mkField "ClusterId" "string" (vr "0+") None None None None;
    mkField "ControllerId" "int32" (vr "0+") None None None None;
    mkField "Brokers" "[]DescribeClusterBroker" (vr "0+") None None None (Some [
      mkField "BrokerId" "int32" (vr "0+") None None None None;
      mkField "Host" "string" (vr "0+") None None None None;
      mkField "Port" "int32" (vr "0+") None None None None;
      mkField "Rack" "string" (vr "0+") (Some (vr "0+")) None None None]);
    mkField "ClusterAuthorizedOperations" "int32" (vr "0+") None None None None]
    None.

Definition DescribeConfigsRequest : Message :=
  mkMessage 32 Request (Some [ZkBroker; Broker; Controller]) "DescribeConfigsRequest"
    (mkVersion (vr "0-4") (Some (vr "0")) (vr "4+")) [
    mkField "Resources" "[]DescribeConfigsResource" (vr "0+") None None None (Some [
      mkField "ResourceType" "int8" (vr "0+") None None None None;
      mkField "ResourceName" "string" (vr "0+") None None None None;
      mkField "ConfigurationKeys" "[]string" (vr "0+") (Some (vr "0+")) None None None]);
    mkField "IncludeSynonyms" "bool" (vr "1+") None None None None;
    mkField "IncludeDocumentation" "bool" (vr "3+") None None None None]
    None.

Definition DescribeConfigsResponse : Message :=
  mkMessage 32 Response None "DescribeConfigsResponse"
    (mkVersion (vr "0-4") None (vr "4+")) [
    mkField "ThrottleTimeMs" "int32" (vr "0+") None None None None;
    mkField "Results" "[]DescribeConfigsResult" (vr "0+") None None None (Some [
      mkField "ErrorCode" "int16" (vr "0+") None None None None;
      mkField "ErrorMessage" "string" (vr "0+") (Some (vr "0+")) None None None;
      mkField "ResourceType" "int8" (vr "0+") None None None None;
      mkField "ResourceName" "string" (vr "0+") None None None None;
      mkField "Configs" "[]DescribeConfigsResourceResult" (vr "0+") None None None (Some [
        mkField "Name" "string" (vr "0+") None None None None;
        mkField "Value" "string" (vr "0+") (Some (vr "0+")) None None None;
        mkField "ReadOnly" "bool" (vr "0+") None None None None;
        mkField "IsDefault" "bool" (vr "0") None None None None;
        mkField "ConfigSource" "int8" (vr "1+") None None None None;
        mkField "IsSensitive" "bool" (vr "0+") None None None None;
        mkField "Synonyms" "[]DescribeConfigsSynonym" (vr "1+") None None None (Some [
          mkField "Name" "string" (vr "1+") None None None None;
          mkField "Value" "string" (vr "1+") (Some (vr "0+")) None None None;
          mkField "Source" "int8" (vr "1+") None None None None]);
        mkField "ConfigType" "int8" (vr "3+") None None None None;
        mkField "Documentation" "string" (vr "3+") (Some (vr "0+")) None None None])])]
    None.

Definition DescribeDelegationTokenRequest : Message :=
  mkMessage 41 Request (Some [ZkBroker; Broker; Controller]) "DescribeDelegationTokenRequest"
    (mkVersion (vr "0-3") (Some (vr "0")) (vr "2+")) [
    mkField "Owners" "[]DescribeDelegationTokenOwner" (vr "0+") (Some (vr "0+")) None None (Some [
      mkField "PrincipalType" "string" (vr "0+") None None None None;
      mkField "PrincipalName" "string" (vr "0+") None None None None])]
    None.

Definition DescribeDelegationTokenResponse : Message :=
  mkMessage 41 Response None "DescribeDelegationTokenResponse"
    (mkVersion (vr "0-3") None (vr "2+")) [
    mkField "ErrorCode" "int16" (vr "0+") None None None None;
    mkField "Tokens" "[]DescribedDelegationToken" (vr "0+") None None None (Some [
      mkField "PrincipalType" "string" (vr "0+") None None None None;
      mkField "PrincipalName" "string" (vr "0+") None None None None;
      mkField "TokenRequesterPrincipalType" "string" (vr "3+") None None None None;
      mkField "TokenRequesterPrincipalName" "string" (vr "3+") None None None None;
      mkField "IssueTimestamp" "int64" (vr "0+") None None None None;
      mkField "ExpiryTimestamp" "int64" (vr "0+") None None None None;
      mkField "MaxTimestamp" "int64" (vr "0+") None None None None;
      mkField "TokenId" "string" (vr "0+") None None None None;
      mkField "Hmac" "bytes" (vr "0+") None None None None;
      mkField "Renewers" "[]DescribedDelegationTokenRenewer" (vr "0+") None None None (Some [
        mkField "PrincipalType" "string" (vr "0+") None None None None;
        mkField "PrincipalName" "string" (vr "0+") None None None None])]);
    mkField "ThrottleTimeMs" "int32" (vr "0+") None None None None]
    None.

Definition DescribeGroupsRequest : Message :=
  mkMessage 15 Request (Some [ZkBroker; Broker]) "DescribeGroupsRequest"
    (mkVersion (vr "0-5") None (vr "5+")) [
    mkField "Groups" "[]string" (vr "0+") None None None None;
    mkField "IncludeAuthorizedOperations" "bool" (vr "3+") None None None None]
    None.

Definition DescribeGroupsResponse : Message :=
  mkMessage 15 Response None "DescribeGroupsResponse"
    (mkVersion (vr "0-5") None (vr "5+")) [
    mkField "ThrottleTimeMs" "int32" (vr "1+") None None None None;
    mkField "Groups" "[]DescribedGroup" (vr "0+") None None None (Some [
      mkField "ErrorCode" "int16" (vr "0+") None None None None;
      mkField "GroupId" "string" (vr "0+") None None None None;
      mkField "GroupState" "string" (vr "0+") None None None None;
      mkField "ProtocolType" "string" (vr "0+") None None None None;
      mkField "ProtocolData" "string" (vr "0+") None None None None;
      mkField "Members" "[]DescribedGroupMember" (vr "0+") None None None (Some [
        mkField "MemberId" "string" (vr "0+") None None None None;
        mkField "GroupInstanceId" "string" (vr "4+") (Some (vr "4+")) None None None;
        mkField "ClientId" "string" (vr "0+") None None None None;
        mkField "ClientHost" "string" (vr "0+") None None None None;
        mkField "MemberMetadata" "bytes" (vr "0+") None None None None;
        mkField "MemberAssignment" "bytes" (vr "0+") None None None None]);
      mkField "AuthorizedOperations" "int32" (vr "3+") None None None None])]
    None.

Definition DescribeLogDirsRequest : Message :=
  mkMessage 35 Request (Some [ZkBroker; Broker]) "DescribeLogDirsRequest"
    (mkVersion (vr "0-4") (Some (vr "0")) (vr "2+")) [
    mkField "Topics" "[]DescribableLogDirTopic" (vr "0+") (Some (vr "0+")) None None (Some [
      mkField "Topic" "string" (vr "0+") None None None None;
      mkField "Partitions" "[]int32" (vr "0+") None None None None])]
    None.

Definition DescribeLogDirsResponse : Message :=
  mkMessage 35 Response None "DescribeLogDirsResponse"
    (mkVersion (vr "0-4") None (vr "2+")) [
    mkField "ThrottleTimeMs" "int32" (vr "0+") None None None None;
    mkField "ErrorCode" "int16" (vr "3+") None None None None;
    mkField "Results" "[]DescribeLogDirsResult" (vr "0+") None None None (Some [
      mkField "ErrorCode" "int16" (vr "0+") None None None None;
      mkField "LogDir" "string" (vr "0+") None None None None;
      mkField "Topics" "[]DescribeLogDirsTopic" (vr "0+") None None None (Some [
        mkField "Name" "string" (vr "0+") None None None None;
        mkField "Partitions" "[]DescribeLogDirsPartition" (vr "0+") None None None (Some [
          mkField "PartitionIndex" "int32" (vr "0+") None None None None;
          mkField "PartitionSize" "int64" (vr "0+") None None None None;
          mkField "OffsetLag" "int64" (vr "0+") None None None None;
          mkField "IsFutureKey" "bool" (vr "0+") None None None None])]);
      mkField "TotalBytes" "int64" (vr "4+") None None None None;
      mkField "UsableBytes" "int64" (vr "4+") None None None None])]
    None.

Definition DescribeProducersRequest : Message :=
  mkMessage 61 Request (Some [ZkBroker; Broker]) "DescribeProducersRequest"
    (mkVersion (vr "0") None (vr "0+")) [
    mkField "Topics" "[]TopicRequest" (vr "0+") None None None (Some [
      mkField "Name" "string" (vr "0+") None None None None;
      mkField "PartitionIndexes" "[]int32" (vr "0+") None None None None])]
    None.

Definition DescribeProducersResponse : Message :=
  mkMessage 61 Response None "DescribeProducersResponse"
    (mkVersion (vr "0") None (vr "0+")) [
    mkField "ThrottleTimeMs" "int32" (vr "0+") None None None None;
    mkField "Topics" "[]TopicResponse" (vr "0+") None None None (Some [
      mkField "Name" "string" (vr "0+") None None None None;
      mkField "Partitions" "[]PartitionResponse" (vr "0+") None None None (Some [
        mkField "PartitionIndex" "int32" (vr "0+") None None None None;
        mkField "ErrorCode" "int16" (vr "0+") None None None None;
        mkField "ErrorMessage" "string" (vr "0+") (Some (vr "0+")) None None None;
        mkField "ActiveProducers" "[]ProducerState" (vr "0+") None None None (Some [
          mkField "ProducerId" "int64" (vr "0+") None None None None;
          mkField "ProducerEpoch" "int32" (vr "0+") None None None None;
          mkField "LastSequence" "int32" (vr "0+") None None None None;
          mkField "LastTimestamp" "int64" (vr "0+") None None None None;
          mkField "CoordinatorEpoch" "int32" (vr "0+") None None None None;
          mkField "CurrentTxnStartOffset" "int64" (vr "0+") None None None None])])])]
    None.

Definition DescribeQuorumRequest : Message :=
  mkMessage 55 Request (Some [Broker; Controller]) "DescribeQuorumRequest"
    (mkVersion (vr "0-2") None (vr "0+")) [
    mkField "Topics" "[]TopicData" (vr "0+") None None None (Some [
      mkField "TopicName" "string" (vr "0+") None None None None;
      mkField "Partitions" "[]PartitionData" (vr "0+") None None None (Some [
        mkField "PartitionIndex" "int32" (vr "0+") None None None None])])]
    None.

Definition DescribeQuorumResponse : Message :=
  mkMessage 55 Response None "DescribeQuorumResponse"
    (mkVersion (vr "0-2") None (vr "0+")) [
    mkField "ErrorCode" "int16" (vr "0+") None None None None;
    mkField "ErrorMessage" "string" (vr "2+") (Some (vr "2+")) None None None;
    mkField "Topics" "[]TopicData" (vr "0+") None None None (Some [
      mkField "TopicName" "string" (vr "0+") None None None None;
      mkField "Partitions" "[]PartitionData" (vr "0+") None None None (Some [
        mkField "PartitionIndex" "int32" (vr "0+") None None None None;
        mkField "ErrorCode" "int16" (vr "0+") None None None None;
        mkField "ErrorMessage" "string" (vr "2+") (Some (vr "2+")) None None None;
        mkField "LeaderId" "int32" (vr "0+") None None None None;
        mkField "LeaderEpoch" "int32" (vr "0+") None None None None;
        mkField "HighWatermark" "int64" (vr "0+") None None None None;
        mkField "CurrentVoters" "[]ReplicaState" (vr "0+") None None None None;
        mkField "Observers" "[]ReplicaState" (vr "0+") None None None None])]);
    mkField "Nodes" "[]Node" (vr "2+") None None None (Some [
      mkField "NodeId" "int32" (vr "2+") None None None None;
      mkField "Listeners" "[]Listener" (vr "2+") None None None (Some [
        mkField "Name" "string" (vr "2+") None None None None;
        mkField "Host" "string" (vr "2+") None None None None;
        mkField "Port" "uint16" (vr "2+") None None None None])])]
    (Some [
    mkCommon "ReplicaState" [
      mkField "ReplicaId" "int32" (vr "0+") None None None None;
      mkField "ReplicaDirectoryId" "uuid" (vr "2+") None None None None;
      mkField "LogEndOffset" "int64" (vr "0+") None None None None;
      mkField "LastFetchTimestamp" "int64" (vr "1+") None None None None;
      mkField "LastCaughtUpTimestamp" "int64" (vr "1+") None None None None]]).

Definition DescribeTopicPartitionsRequest : Message :=
  mkMessage 75 Request (Some [Broker]) "DescribeTopicPartitionsRequest"
    (mkVersion (vr "0") None (vr "0+")) [
    mkField "Topics" "[]TopicRequest" (vr "0+") None None None (Some [
      mkField "Name" "string" (vr "0+") None None None None]);
    mkField "ResponsePartitionLimit" "int32" (vr "0+") None None None None;
    mkField "Cursor" "Cursor" (vr "0+") (Some (vr "0+")) None None (Some [
      mkField "TopicName" "string" (vr "0+") None None None None;
      mkField "PartitionIndex" "int32" (vr "0+") None None None None])]
    None.

Definition DescribeTopicPartitionsResponse : Message :=
  mkMessage 75 Response None "DescribeTopicPartitionsResponse"
    (mkVersion (vr "0") None (vr "0+")) [
    mkField "ThrottleTimeMs" "int32" (vr "0+") None None None None;
    mkField "Topics" "[]DescribeTopicPartitionsResponseTopic" (vr "0+") None None None (Some [
      mkField "ErrorCode" "int16" (vr "0+") None None None None;
      mkField "Name" "string" (vr "0+") (Some (vr "0+")) None None None;
      mkField "TopicId" "uuid" (vr "0+") None None None None;
      mkField "IsInternal" "bool" (vr "0+") None None None None;
      mkField "Partitions" "[]DescribeTopicPartitionsResponsePartition" (vr "0+") None None None (Some [
        mkField "ErrorCode" "int16" (vr "0+") None None None None;
        mkField "PartitionIndex" "int32" (vr "0+") None None None None;
        mkField "LeaderId" "int32" (vr "0+") None None None None;
        mkField "LeaderEpoch" "int32" (vr "0+") None None None None;
        mkField "ReplicaNodes" "[]int32" (vr "0+") None None None None;
        mkField "IsrNodes" "[]int32" (vr "0+") None None None None;
        mkField "EligibleLeaderReplicas" "[]int32" (vr "0+") (Some (vr "0+")) None None None;
        mkField "LastKnownElr" "[]int32" (vr "0+") (Some (vr "0+")) None None None;
        mkField "OfflineReplicas" "[]int32" (vr "0+") None None None None]);
      mkField "TopicAuthorizedOperations" "int32" (vr "0+") None None None None]);
    mkField "NextCursor" "Cursor" (vr "0+") (Some (vr "0+")) None None (Some [
      mkField "TopicName" "string" (vr "0+") None None None None;
      mkField "PartitionIndex" "int32" (vr "0+") None None None None])]
    None.

Definition DescribeTransactionsRequest : Message :=
  mkMessage 65 Request (Some [ZkBroker; Broker]) "DescribeTransactionsRequest"
    (mkVersion (vr "0") None (vr "0+")) [
    mkField "TransactionalIds" "[]string" (vr "0+") None None None None]
    None.

Definition DescribeTransactionsResponse : Message :=
  mkMessage 65 Response None "DescribeTransactionsResponse"
    (mkVersion (vr "0") None (vr "0+")) [
    mkField "ThrottleTimeMs" "int32" (vr "0+") None None None None;
    mkField "TransactionStates" "[]TransactionState" (vr "0+") None None None (Some [
      mkField "ErrorCode" "int16" (vr "0+") None None None None;
      mkField "TransactionalId" "string" (vr "0+") None None None None;
      mkField "TransactionState" "string" (vr "0+") None None None None;
      mkField "TransactionTimeoutMs" "int32" (vr "0+") None None None None;
      mkField "TransactionStartTimeMs" "int64" (vr "0+") None None None None;
      mkField "ProducerId" "int64" (vr "0+") None None None None;
      mkField "ProducerEpoch" "int16" (vr "0+") None None None None;
      mkField "Topics" "[]TopicData" (vr "0+") None None None (Some [
        mkField "Topic" "string" (vr "0+") None None None None;
        mkField "Partitions" "[]int32" (vr "0+") None None None None])])]
    None.

Definition DescribeUserScramCredentialsRequest : Message :=
  mkMessage 50 Request (Some [ZkBroker; Broker; Controller]) "DescribeUserScramCredentialsRequest"
    (mkVersion (vr "0") None (vr "0+")) [
    mkField "Users" "[]UserName" (vr "0+") (Some (vr "0+")) None None (Some [
      mkField "Name" "string" (vr "0+") None None None None])]
    None.

Definition DescribeUserScramCredentialsResponse : Message :=
  mkMessage 50 Response None "DescribeUserScramCredentialsResponse"
    (mkVersion (vr "0") None (vr "0+")) [
    mkField "ThrottleTimeMs" "int32" (vr "0+") None None None None;
    mkField "ErrorCode" "int16" (vr "0+") None None None None;
    mkField "ErrorMessage" "string" (vr "0+") (Some (vr "0+")) None None None;
    mkField "Results" "[]DescribeUserScramCredentialsResult" (vr "0+") None None None (Some [
      mkField "User" "string" (vr "0+") None None None None;
      mkField "ErrorCode" "int16" (vr "0+") None None None None;
      mkField "ErrorMessage" "string" (vr "0+") (Some (vr "0+")) None None None;
      mkField "CredentialInfos" "[]CredentialInfo" (vr "0+") None None None (Some [
        mkField "Mechanism" "int8" (vr "0+") None None None None;
        mkField "Iterations" "int32" (vr "0+") None None None None])])]
    None.

Definition ElectLeadersRequest : Message :=
  mkMessage 43 Request (Some [ZkBroker; Broker; Controller]) "ElectLeadersRequest"
    (mkVersion (vr "0-2") None (vr "2+")) [
    mkField "ElectionType" "int8" (vr "1+") None None None None;
    mkField "TopicPartitions" "[]TopicPartitions" (vr "0+") (Some (vr "0+")) None None (Some [
      mkField "Topic" "string" (vr "0+") None None None None;
      mkField "Partitions" "[]int32" (vr "0+") None None None None]);
    mkField "TimeoutMs" "int32" (vr "0+") None None None None]
    None.

Definition ElectLeadersResponse : Message :=
  mkMessage 43 Response None "ElectLeadersResponse"
    (mkVersion (vr "0-2") None (vr "2+")) [
    mkField "ThrottleTimeMs" "int32" (vr "0+") None None None None;
    mkField "ErrorCode" "int16" (vr "1+") None None None None;
    mkField "ReplicaElectionResults" "[]ReplicaElectionResult" (vr "0+") None None None (Some [
      mkField "Topic" "string" (vr "0+") None None None None;
      mkField "PartitionResult" "[]PartitionResult" (vr "0+") None None None (Some [
        mkField "PartitionId" "int32" (vr "0+") None None None None;
        mkField "ErrorCode" "int16" (vr "0+") None None None None;
        mkField "ErrorMessage" "string" (vr "0+") (Some (vr "0+")) None None None])])]
    None.

Definition EndQuorumEpochRequest : Message :=
  mkMessage 54 Request (Some [Controller]) "EndQuorumEpochRequest"
    (mkVersion (vr "0-1") None (vr "1+")) [
    mkField "ClusterId" "string" (vr "0+") (Some (vr "0+")) None None None;
    mkField "Topics" "[]TopicData" (vr "0+") None None None (Some [
      mkField "TopicName" "string" (vr "0+") None None None None;
      mkField "Partitions" "[]PartitionData" (vr "0+") None None None (Some [
        mkField "PartitionIndex" "int32" (vr "0+") None None None None;
        mkField "LeaderId" "int32" (vr "0+") None None None None;
        mkField "LeaderEpoch" "int32" (vr "0+") None None None None;
        mkField "PreferredSuccessors" "[]int32" (vr "0") None None None None;
        mkField "PreferredCandidates" "[]ReplicaInfo" (vr "1+") None None None (Some [
          mkField "CandidateId" "int32" (vr "1+") None None None None;
          mkField "CandidateDirectoryId" "uuid" (vr "1+") None None None None])])]);
    mkField "LeaderEndpoints" "[]LeaderEndpoint" (vr "1+") None None None (Some [
      mkField "Name" "string" (vr "1+") None None None None;
      mkField "Host" "string" (vr "1+") None None None None;
      mkField "Port" "uint16" (vr "1+") None None None None])]
    None.

Definition EndQuorumEpochResponse : Message :=
  mkMessage 54 Response None "EndQuorumEpochResponse"
    (mkVersion (vr "0-1") None (vr "1+")) [
    mkField "ErrorCode" "int16" (vr "0+") None None None None;
    mkField "Topics" "[]TopicData" (vr "0+") None None None (Some [
      mkField "TopicName" "string" (vr "0+") None None None None;
      mkField "Partitions" "[]PartitionData" (vr "0+") None None None (Some [
        mkField "PartitionIndex" "int32" (vr "0+") None None None None;
        mkField "ErrorCode" "int16" (vr "0+") None None None None;
        mkField "LeaderId" "int32" (vr "0+") None None None None;
        mkField "LeaderEpoch" "int32" (vr "0+") None None None None])]);
    mkField "NodeEndpoints" "[]NodeEndpoint" (vr "1+") None (Some 0) (Some (vr "1+")) (Some [
      mkField "NodeId" "int32" (vr "1+") None None None None;
      mkField "Host" "string" (vr "1+") None None None None;
      mkField "Port" "uint16" (vr "1+") None None None None])]
    None.

Definition EndTxnRequest : Message :=
  mkMessage 26 Request (Some [ZkBroker; Broker]) "EndTxnRequest"
    (mkVersion (vr "0-4") None (vr "3+")) [
    mkField "TransactionalId" "string" (vr "0+") None None None None;
    mkField "ProducerId" "int64" (vr "0+") None None None None;
    mkField "ProducerEpoch" "int16" (vr "0+") None None None None;
    mkField "Committed" "bool" (vr "0+") None None None None]
    None.

Definition EndTxnResponse : Message :=
  mkMessage 26 Response None "EndTxnResponse"
    (mkVersion (vr "0-4") None (vr "3+")) [
    mkField "ThrottleTimeMs" "int32" (vr "0+") None None None None;
    mkField "ErrorCode" "int16" (vr "0+") None None None None]
    None.

Definition EnvelopeRequest : Message :=
  mkMessage 58 Request (Some [Controller; ZkBroker]) "EnvelopeRequest"
    (mkVersion (vr "0") None (vr "0+")) [
    mkField "RequestData" "bytes" (vr "0+") None None None None;
    mkField "RequestPrincipal" "bytes" (vr "0+") (Some (vr "0+")) None None None;
    mkField "ClientHostAddress" "bytes" (vr "0+") None None None None]
    None.

Definition EnvelopeResponse : Message :=
  mkMessage 58 Response None "EnvelopeResponse"
    (mkVersion (vr "0") None (vr "0+")) [
    mkField "ResponseData" "bytes" (vr "0+") (Some (vr "0+")) None None None;
    mkField "ErrorCode" "int16" (vr "0+") None None None None]
    None.

Definition ExpireDelegationTokenRequest : Message :=
  mkMessage 40 Request (Some [ZkBroker; Broker; Controller]) "ExpireDelegationTokenRequest"
    (mkVersion (vr "0-2") (Some (vr "0")) (vr "2+")) [
    mkField "Hmac" "bytes" (vr "0+") None None None None;
    mkField "ExpiryTimePeriodMs" "int64" (vr "0+") None None None None]
    None.

Definition ExpireDelegationTokenResponse : Message :=
  mkMessage 40 Response None "ExpireDelegationTokenResponse"
    (mkVersion (vr "0-2") None (vr "2+")) [
    mkField "ErrorCode" "int16" (vr "0+") None None None None;
    mkField "ExpiryTimestampMs" "int64" (vr "0+") None None None None;
    mkField "ThrottleTimeMs" "int32" (vr "0+") None None None None]
    None.

Definition FetchRequest : Message :=
  mkMessage 1 Request (Some [ZkBroker; Broker; Controller]) "FetchRequest"
    (mkVersion (vr "0-17") (Some (vr "0-3")) (vr "12+")) [
    mkField "ClusterId" "string" (vr "12+") (Some (vr "12+")) (Some 0) (Some (vr "12+")) None;
    mkField "ReplicaId" "int32" (vr "0-14") None None None None;
    mkField "ReplicaState" "ReplicaState" (vr "15+") None (Some 1) (Some (vr "15+")) (Some [
      mkField "ReplicaId" "int32" (vr "15+") None None None None;
      mkField "ReplicaEpoch" "int64" (vr "15+") None None None None]);
    mkField "MaxWaitMs" "int32" (vr "0+") None None None None;
    mkField "MinBytes" "int32" (vr "0+") None None None None;
    mkField "MaxBytes" "int32" (vr "3+") None None None None;
    mkField "IsolationLevel" "int8" (vr "4+") None None None None;
    mkField "SessionId" "int32" (vr "7+") None None None None;
    mkField "SessionEpoch" "int32" (vr "7+") None None None None;
    mkField "Topics" "[]FetchTopic" (vr "0+") None None None (Some [
      mkField "Topic" "string" (vr "0-12") None None None None;
      mkField "TopicId" "uuid" (vr "13+") None None None None;
      mkField "Partitions" "[]FetchPartition" (vr "0+") None None None (Some [
        mkField "Partition" "int32" (vr "0+") None None None None;
        mkField "CurrentLeaderEpoch" "int32" (vr "9+") None None None None;
        mkField "FetchOffset" "int64" (vr "0+") None None None None;
        mkField "LastFetchedEpoch" "int32" (vr "12+") None None None None;
        mkField "LogStartOffset" "int64" (vr "5+") None None None None;
        mkField "PartitionMaxBytes" "int32" (vr "0+") None None None None;
        mkField "ReplicaDirectoryId" "uuid" (vr "17+") None (Some 0) (Some (vr "17+")) None])]);
    mkField "ForgottenTopicsData" "[]ForgottenTopic" (vr "7+") None None None (Some [
      mkField "Topic" "string" (vr "7-12") None None None None;
      mkField "TopicId" "uuid" (vr "13+") None None None None;
      mkField "Partitions" "[]int32" (vr "7+") None None None None]);
    mkField "RackId" "string" (vr "11+") None None None None]
    None.

Definition FetchResponse : Message :=
  mkMessage 1 Response None "FetchResponse"
    (mkVersion (vr "0-17") None (vr "12+")) [
    mkField "ThrottleTimeMs" "int32" (vr "1+") None None None None;
    mkField "ErrorCode" "int16" (vr "7+") None None None None;
    mkField "SessionId" "int32" (vr "7+") None None None None;
    mkField "Responses" "[]FetchableTopicResponse" (vr "0+") None None None (Some [
      mkField "Topic" "string" (vr "0-12") None None None None;
      mkField "TopicId" "uuid" (vr "13+") None None None None;
      mkField "Partitions" "[]PartitionData" (vr "0+") None None None (Some [
        mkField "PartitionIndex" "int32" (vr "0+") None None None None;
        mkField "ErrorCode" "int16" (vr "0+") None None None None;
        mkField "HighWatermark" "int64" (vr "0+") None None None None;
        mkField "LastStableOffset" "int64" (vr "4+") None None None None;
        mkField "LogStartOffset" "int64" (vr "5+") None None None None;
        mkField "DivergingEpoch" "EpochEndOffset" (vr "12+") None (Some 0) (Some (vr "12+")) (Some [
          mkField "Epoch" "int32" (vr "12+") None None None None;
          mkField "EndOffset" "int64" (vr "12+") None None None None]);
        mkField "CurrentLeader" "LeaderIdAndEpoch" (vr "12+") None (Some 1) (Some (vr "12+")) (Some [
          mkField "LeaderId" "int32" (vr "12+") None None None None;
          mkField "LeaderEpoch" "int32" (vr "12+") None None None None]);
        mkField "SnapshotId" "SnapshotId" (vr "12+") None (Some 2) (Some (vr "12+")) (Some [
          mkField "EndOffset" "int64" (vr "0+") None None None None;
          mkField "Epoch" "int32" (vr "0+") None None None None]);
        mkField "AbortedTransactions" "[]AbortedTransaction" (vr "4+") (Some (vr "4+")) None None (Some [
          mkField "ProducerId" "int64" (vr "4+") None None None None;
          mkField "FirstOffset" "int64" (vr "4+") None None None None]);
        mkField "PreferredReadReplica" "int32" (vr "11+") None None None None;
        mkField "Records" "records" (vr "0+") (Some (vr "0+")) None None None])]);
    mkField "NodeEndpoints" "[]NodeEndpoint" (vr "16+") None (Some 0) (Some (vr "16+")) (Some [
      mkField "NodeId" "int32" (vr "16+") None None None None;
      mkField "Host" "string" (vr "16+") None None None None;
      mkField "Port" "int32" (vr "16+") None None None None;
      mkField "Rack" "string" (vr "16+") (Some (vr "16+")) None None None])]
    None.

Definition FetchSnapshotRequest : Message :=
  mkMessage 59 Request (Some [Controller]) "FetchSnapshotRequest"
    (mkVersion (vr "0-1") None (vr "0+")) [
    mkField "ClusterId" "string" (vr "0+") (Some (vr "0+")) (Some 0) (Some (vr "0+")) None;
    mkField "ReplicaId" "int32" (vr "0+") None None None None;
    mkField "MaxBytes" "int32" (vr "0+") None None None None;
    mkField "Topics" "[]TopicSnapshot" (vr "0+") None None None (Some [
      mkField "Name" "string" (vr "0+") None None None None;
      mkField "Partitions" "[]PartitionSnapshot" (vr "0+") None None None (Some [
        mkField "Partition" "int32" (vr "0+") None None None None;
        mkField "CurrentLeaderEpoch" "int32" (vr "0+") None None None None;
        mkField "SnapshotId" "SnapshotId" (vr "0+") None None None (Some [
          mkField "EndOffset" "int64" (vr "0+") None None None None;
          mkField "Epoch" "int32" (vr "0+") None None None None]);
        mkField "Position" "int64" (vr "0+") None None None None;
        mkField "ReplicaDirectoryId" "uuid" (vr "1+") None (Some 0) (Some (vr "1+")) None])])]
    None.

Definition FetchSnapshotResponse : Message :=
  mkMessage 59 Response None "FetchSnapshotResponse"
    (mkVersion (vr "0-1") None (vr "0+")) [
    mkField "ThrottleTimeMs" "int32" (vr "0+") None None None None;
    mkField "ErrorCode" "int16" (vr "0+") None None None None;
    mkField "Topics" "[]TopicSnapshot" (vr "0+") None None None (Some [
      mkField "Name" "string" (vr "0+") None None None None;
      mkField "Partitions" "[]PartitionSnapshot" (vr "0+") None None None (Some [
        mkField "Index" "int32" (vr "0+") None None None None;
        mkField "ErrorCode" "int16" (vr "0+") None None None None;
        mkField "SnapshotId" "SnapshotId" (vr "0+") None None None (Some [
          mkField "EndOffset" "int64" (vr "0+") None None None None;
          mkField "Epoch" "int32" (vr "0+") None None None None]);
        mkField "CurrentLeader" "LeaderIdAndEpoch" (vr "0+") None (Some 0) (Some (vr "0+")) (Some [
          mkField "LeaderId" "int32" (vr "0+") None None None None;
          mkField "LeaderEpoch" "int32" (vr "0+") None None None None]);
        mkField "Size" "int64" (vr "0+") None None None None;
        mkField "Position" "int64" (vr "0+") None None None None;
        mkField "UnalignedRecords" "records" (vr "0+") None None None None])]);
    mkField "NodeEndpoints" "[]NodeEndpoint" (vr "1+") None (Some 0) (Some (vr "1+")) (Some [
      mkField "NodeId" "int32" (vr "1+") None None None None;
      mkField "Host" "string" (vr "1+") None None None None;
      mkField "Port" "uint16" (vr "1+") None None None None])]
    None.

Definition FindCoordinatorRequest : Message :=
  mkMessage 10 Request (Some [ZkBroker; Broker]) "FindCoordinatorRequest"
    (mkVersion (vr "0-6") None (vr "3+")) [
    mkField "Key" "string" (vr "0-3") None None None None;
    mkField "KeyType" "int8" (vr "1+") None None None None;
    mkField "CoordinatorKeys" "[]string" (vr "4+") None None None None]
    None.

Definition FindCoordinatorResponse : Message :=
  mkMessage 10 Response None "FindCoordinatorResponse"
    (mkVersion (vr "0-6") None (vr "3+")) [
    mkField "ThrottleTimeMs" "int32" (vr "1+") None None None None;
    mkField "ErrorCode" "int16" (vr "0-3") None None None None;
    mkField "ErrorMessage" "string" (vr "1-3") (Some (vr "1-3")) None None None;
    mkField "NodeId" "int32" (vr "0-3") None None None None;
    mkField "Host" "string" (vr "0-3") None None None None;
    mkField "Port" "int32" (vr "0-3") None None None None;
    mkField "Coordinators" "[]Coordinator" (vr "4+") None None None (Some [
      mkField "Key" "string" (vr "4+") None None None None;
      mkField "NodeId" "int32" (vr "4+") None None None None;
      mkField "Host" "string" (vr "4+") None None None None;
      mkField "Port" "int32" (vr "4+") None None None None;
      mkField "ErrorCode" "int16" (vr "4+") None None None None;
      mkField "ErrorMessage" "string" (vr "4+") (Some (vr "4+")) None None None])]
    None.

Definition GetTelemetrySubscriptionsRequest : Message :=
  mkMessage 71 Request (Some [Broker]) "GetTelemetrySubscriptionsRequest"
    (mkVersion (vr "0") None (vr "0+")) [
    mkField "ClientInstanceId" "uuid" (vr "0+") None None None None]
    None.

Definition GetTelemetrySubscriptionsResponse : Message :=
  mkMessage 71 Response None "GetTelemetrySubscriptionsResponse"
    (mkVersion (vr "0") None (vr "0+")) [
    mkField "ThrottleTimeMs" "int32" (vr "0+") None None None None;
    mkField "ErrorCode" "int16" (vr "0+") None None None None;
    mkField "ClientInstanceId" "uuid" (vr "0+") None None None None;
    mkField "SubscriptionId" "int32" (vr "0+") None None None None;
    mkField "AcceptedCompressionTypes" "[]int8" (vr "0+") None None None None;
    mkField "PushIntervalMs" "int32" (vr "0+") None None None None;
    mkField "TelemetryMaxBytes" "int32" (vr "0+") None None None None;
    mkField "DeltaTemporality" "bool" (vr "0+") None None None None;
    mkField "RequestedMetrics" "[]string" (vr "0+") None None None None]
    None.

Definition HeartbeatRequest : Message :=
  mkMessage 12 Request (Some [ZkBroker; Broker]) "HeartbeatRequest"
    (mkVersion (vr "0-4") None (vr "4+")) [
    mkField "GroupId" "string" (vr "0+") None None None None;
    mkField "GenerationId" "int32" (vr "0+") None None None None;
    mkField "MemberId" "string" (vr "0+") None None None None;
    mkField "GroupInstanceId" "string" (vr "3+") (Some (vr "3+")) None None None]
    None.

Definition HeartbeatResponse : Message :=
  mkMessage 12 Response None "HeartbeatResponse"
    (mkVersion (vr "0-4") None (vr "4+")) [
    mkField "ThrottleTimeMs" "int32" (vr "1+") None None None None;
    mkField "ErrorCode" "int16" (vr "0+") None None None None]
    None.

Definition IncrementalAlterConfigsRequest : Message :=
  mkMessage 44 Request (Some [ZkBroker; Broker; Controller]) "IncrementalAlterConfigsRequest"
    (mkVersion (vr "0-1") None (vr "1+")) [
    mkField "Resources" "[]AlterConfigsResource" (vr "0+") None None None (Some [
      mkField "ResourceType" "int8" (vr "0+") None None None None;
      mkField "ResourceName" "string" (vr "0+") None None None None;
      mkField "Configs" "[]AlterableConfig" (vr "0+") None None None (Some [
        mkField "Name" "string" (vr "0+") None None None None;
        mkField "ConfigOperation" "int8" (vr "0+") None None None None;
        mkField "Value" "string" (vr "0+") (Some (vr "0+")) None None None])]);
    mkField "ValidateOnly" "bool" (vr "0+") None None None None]
    None.

Definition IncrementalAlterConfigsResponse : Message :=
  mkMessage 44 Response None "IncrementalAlterConfigsResponse"
    (mkVersion (vr "0-1") None (vr "1+")) [
    mkField "ThrottleTimeMs" "int32" (vr "0+") None None None None;
    mkField "Responses" "[]AlterConfigsResourceResponse" (vr "0+") None None None (Some [
      mkField "ErrorCode" "int16" (vr "0+") None None None None;
      mkField "ErrorMessage" "string" (vr "0+") (Some (vr "0+")) None None None;
      mkField "ResourceType" "int8" (vr "0+") None None None None;
      mkField "ResourceName" "string" (vr "0+") None None None None])]
    None.

Definition InitProducerIdRequest : Message :=
  mkMessage 22 Request (Some [ZkBroker; Broker]) "InitProducerIdRequest"
    (mkVersion (vr "0-5") None (vr "2+")) [
    mkField "TransactionalId" "string" (vr "0+") (Some (vr "0+")) None None None;
    mkField "TransactionTimeoutMs" "int32" (vr "0+") None None None None;
    mkField "ProducerId" "int64" (vr "3+") None None None None;
    mkField "ProducerEpoch" "int16" (vr "3+") None None None None]
    None.

Definition InitProducerIdResponse : Message :=
  mkMessage 22 Response None "InitProducerIdResponse"
    (mkVersion (vr "0-5") None (vr "2+")) [
    mkField "ThrottleTimeMs" "int32" (vr "0+") None None None None;
    mkField "ErrorCode" "int16" (vr "0+") None None None None;
    mkField "ProducerId" "int64" (vr "0+") None None None None;
    mkField "ProducerEpoch" "int16" (vr "0+") None None None None]
    None.

Definition InitializeShareGroupStateRequest : Message :=
  mkMessage 83 Request (Some [Broker]) "InitializeShareGroupStateRequest"
    (mkVersion (vr "0") None (vr "0+")) [
    mkField "GroupId" "string" (vr "0+") None None None None;
    mkField "Topics" "[]InitializeStateData" (vr "0+") None None None (Some [
      mkField "TopicId" "uuid" (vr "0+") None None None None;
      mkField "Partitions" "[]PartitionData" (vr "0+") None None None (Some [
        mkField "Partition" "int32" (vr "0+") None None None None;
        mkField "StateEpoch" "int32" (vr "0+") None None None None;
        mkField "StartOffset" "int64" (vr "0+") None None None None])])]
    None.

Definition InitializeShareGroupStateResponse : Message :=
  mkMessage 83 Response None "InitializeShareGroupStateResponse"
    (mkVersion (vr "0") None (vr "0+")) [
    mkField "Results" "[]InitializeStateResult" (vr "0+") None None None (Some [
      mkField "TopicId" "uuid" (vr "0+") None None None None;
      mkField "Partitions" "[]PartitionResult" (vr "0+") None None None (Some [
        mkField "Partition" "int32" (vr "0+") None None None None;
        mkField "ErrorCode" "int16" (vr "0+") None None None None;
        mkField "ErrorMessage" "string" (vr "0+") (Some (vr "0+")) None None None])])]
    None.

Definition JoinGroupRequest : Message :=
  mkMessage 11 Request (Some [ZkBroker; Broker]) "JoinGroupRequest"
    (mkVersion (vr "0-9") (Some (vr "0-1")) (vr "6+")) [
    mkField "GroupId" "string" (vr "0+") None None None None;
    mkField "SessionTimeoutMs" "int32" (vr "0+") None None None None;
    mkField "RebalanceTimeoutMs" "int32" (vr "1+") None None None None;
    mkField "MemberId" "string" (vr "0+") None None None None;
    mkField "GroupInstanceId" "string" (vr "5+") (Some (vr "5+")) None None None;
    mkField "ProtocolType" "string" (vr "0+") None None None None;
    mkField "Protocols" "[]JoinGroupRequestProtocol" (vr "0+") None None None (Some [
      mkField "Name" "string" (vr "0+") None None None None;
      mkField "Metadata" "bytes" (vr "0+") None None None None]);
    mkField "Reason" "string" (vr "8+") (Some (vr "8+")) None None None]
    None.

Definition JoinGroupResponse : Message :=
  mkMessage 11 Response None "JoinGroupResponse"
    (mkVersion (vr "0-9") None (vr "6+")) [
    mkField "ThrottleTimeMs" "int32" (vr "2+") None None None None;
    mkField "ErrorCode" "int16" (vr "0+") None None None None;
    mkField "GenerationId" "int32" (vr "0+") None None None None;
    mkField "ProtocolType" "string" (vr "7+") (Some (vr "7+")) None None None;
    mkField "ProtocolName" "string" (vr "0+") (Some (vr "7+")) None None None;
    mkField "Leader" "string" (vr "0+") None None None None;
    mkField "SkipAssignment" "bool" (vr "9+") None None None None;
    mkField "MemberId" "string" (vr "0+") None None None None;
    mkField "Members" "[]JoinGroupResponseMember" (vr "0+") None None None (Some [
      mkField "MemberId" "string" (vr "0+") None None None None;
      mkField "GroupInstanceId" "string" (vr "5+") (Some (vr "5+")) None None None;
      mkField "Metadata" "bytes" (vr "0+") None None None None])]
    None.

Definition LeaderAndIsrRequest : Message :=
  mkMessage 4 Request (Some [ZkBroker]) "LeaderAndIsrRequest"
    (mkVersion (vr "0-7") None (vr "4+")) [
    mkField "ControllerId" "int32" (vr "0+") None None None None;
    mkField "isKRaftController" "bool" (vr "7+") None None None None;
    mkField "ControllerEpoch" "int32" (vr "0+") None None None None;
    mkField "BrokerEpoch" "int64" (vr "2+") None None None None;
    mkField "Type" "int8" (vr "5+") None None None None;
    mkField "UngroupedPartitionStates" "[]LeaderAndIsrPartitionState" (vr "0-1") None None None None;
    mkField "TopicStates" "[]LeaderAndIsrTopicState" (vr "2+") None None None (Some [
      mkField "TopicName" "string" (vr "2+") None None None None;
      mkField "TopicId" "uuid" (vr "5+") None None None None;
      mkField "PartitionStates" "[]LeaderAndIsrPartitionState" (vr "2+") None None None None]);
    mkField "LiveLeaders" "[]LeaderAndIsrLiveLeader" (vr "0+") None None None (Some [
      mkField "BrokerId" "int32" (vr "0+") None None None None;
      mkField "HostName" "string" (vr "0+") None None None None;
      mkField "Port" "int32" (vr "0+") None None None None])]
    (Some [
    mkCommon "LeaderAndIsrPartitionState" [
      mkField "TopicName" "string" (vr "0-1") None None None None;
      mkField "PartitionIndex" "int32" (vr "0+") None None None None;
      mkField "ControllerEpoch" "int32" (vr "0+") None None None None;
      mkField "Leader" "int32" (vr "0+") None None None None;
      mkField "LeaderEpoch" "int32" (vr "0+") None None None None;
      mkField "Isr" "[]int32" (vr "0+") None None None None;
      mkField "PartitionEpoch" "int32" (vr "0+") None None None None;
      mkField "Replicas" "[]int32" (vr "0+") None None None None;
      mkField "AddingReplicas" "[]int32" (vr "3+") None None None None;
      mkField "RemovingReplicas" "[]int32" (vr "3+") None None None None;
      mkField "IsNew" "bool" (vr "1+") None None None None;
      mkField "LeaderRecoveryState" "int8" (vr "6+") None None None None]]).

Definition LeaderAndIsrResponse : Message :=
  mkMessage 4 Response None "LeaderAndIsrResponse"
    (mkVersion (vr "0-7") None (vr "4+")) [
    mkField "ErrorCode" "int16" (vr "0+") None None None None;
    mkField "PartitionErrors" "[]LeaderAndIsrPartitionError" (vr "0-4") None None None None;
    mkField "Topics" "[]LeaderAndIsrTopicError" (vr "5+") None None None (Some [
      mkField "TopicId" "uuid" (vr "5+") None None None None;
      mkField "PartitionErrors" "[]LeaderAndIsrPartitionError" (vr "5+") None None None None])]
    (Some [
    mkCommon "LeaderAndIsrPartitionError" [
      mkField "TopicName" "string" (vr "0-4") None None None None;
      mkField "PartitionIndex" "int32" (vr "0+") None None None None;
      mkField "ErrorCode" "int16" (vr "0+") None None None None]]).

Definition LeaveGroupRequest : Message :=
  mkMessage 13 Request (Some [ZkBroker; Broker]) "LeaveGroupRequest"
    (mkVersion (vr "0-5") None (vr "4+")) [
    mkField "GroupId" "string" (vr "0+") None None None None;
    mkField "MemberId" "string" (vr "0-2") None None None None;
    mkField "Members" "[]MemberIdentity" (vr "3+") None None None (Some [
      mkField "MemberId" "string" (vr "3+") None None None None;
      mkField "GroupInstanceId" "string" (vr "3+") (Some (vr "3+")) None None None;
      mkField "Reason" "string" (vr "5+") (Some (vr "5+")) None None None])]
    None.

Definition LeaveGroupResponse : Message :=
  mkMessage 13 Response None "LeaveGroupResponse"
    (mkVersion (vr "0-5") None (vr "4+")) [
    mkField "ThrottleTimeMs" "int32" (vr "1+") None None None None;
    mkField "ErrorCode" "int16" (vr "0+") None None None None;
    mkField "Members" "[]MemberResponse" (vr "3+") None None None (Some [
      mkField "MemberId" "string" (vr "3+") None None None None;
      mkField "GroupInstanceId" "string" (vr "3+") (Some (vr "3+")) None None None;
      mkField "ErrorCode" "int16" (vr "3+") None None None None])]
    None.

Definition ListClientMetricsResourcesRequest : Message :=
  mkMessage 74 Request (Some [Broker]) "ListClientMetricsResourcesRequest"
    (mkVersion (vr "0") None (vr "0+")) [
]
    None.

Definition ListClientMetricsResourcesResponse : Message :=
  mkMessage 74 Response None "ListClientMetricsResourcesResponse"
    (mkVersion (vr "0") None (vr "0+")) [
    mkField "ThrottleTimeMs" "int32" (vr "0+") None None None None;
    mkField "ErrorCode" "int16" (vr "0+") None None None None;
    mkField "ClientMetricsResources" "[]ClientMetricsResource" (vr "0+") None None None (Some [
      mkField "Name" "string" (vr "0+") None None None None])]
    None.

Definition ListGroupsRequest : Message :=
  mkMessage 16 Request (Some [ZkBroker; Broker]) "ListGroupsRequest"
    (mkVersion (vr "0-5") None (vr "3+")) [
    mkField "StatesFilter" "[]string" (vr "4+") None None None None;
    mkField "TypesFilter" "[]string" (vr "5+") None None None None]
    None.

Definition ListGroupsResponse : Message :=
  mkMessage 16 Response None "ListGroupsResponse"
    (mkVersion (vr "0-5") None (vr "3+")) [
    mkField "ThrottleTimeMs" "int32" (vr "1+") None None None None;
    mkField "ErrorCode" "int16" (vr "0+") None None None None;
    mkField "Groups" "[]ListedGroup" (vr "0+") None None None (Some [
      mkField "GroupId" "string" (vr "0+") None None None None;
      mkField "ProtocolType" "string" (vr "0+") None None None None;
      mkField "GroupState" "string" (vr "4+") None None None None;
      mkField "GroupType" "string" (vr "5+") None None None None])]
    None.

Definition ListOffsetsRequest : Message :=
  mkMessage 2 Request (Some [ZkBroker; Broker]) "ListOffsetsRequest"
    (mkVersion (vr "0-9") (Some (vr "0")) (vr "6+")) [
    mkField "ReplicaId" "int32" (vr "0+") None None None None;
    mkField "IsolationLevel" "int8" (vr "2+") None None None None;
    mkField "Topics" "[]ListOffsetsTopic" (vr "0+") None None None (Some [
      mkField "Name" "string" (vr "0+") None None None None;
      mkField "Partitions" "[]ListOffsetsPartition" (vr "0+") None None None (Some [
        mkField "PartitionIndex" "int32" (vr "0+") None None None None;
        mkField "CurrentLeaderEpoch" "int32" (vr "4+") None None None None;
        mkField "Timestamp" "int64" (vr "0+") None None None None;
        mkField "MaxNumOffsets" "int32" (vr "0") None None None None])])]
    None.

Definition ListOffsetsResponse : Message :=
  mkMessage 2 Response None "ListOffsetsResponse"
    (mkVersion (vr "0-9") None (vr "6+")) [
    mkField "ThrottleTimeMs" "int32" (vr "2+") None None None None;
    mkField "Topics" "[]ListOffsetsTopicResponse" (vr "0+") None None None (Some [
      mkField "Name" "string" (vr "0+") None None None None;
      mkField "Partitions" "[]ListOffsetsPartitionResponse" (vr "0+") None None None (Some [
        mkField "PartitionIndex" "int32" (vr "0+") None None None None;
        mkField "ErrorCode" "int16" (vr "0+") None None None None;
        mkField "OldStyleOffsets" "[]int64" (vr "0") None None None None;
        mkField "Timestamp" "int64" (vr "1+") None None None None;
        mkField "Offset" "int64" (vr "1+") None None None None;
        mkField "LeaderEpoch" "int32" (vr "4+") None None None None])])]
    None.

Definition ListPartitionReassignmentsRequest : Message :=
  mkMessage 46 Request (Some [Broker; Controller; ZkBroker]) "ListPartitionReassignmentsRequest"
    (mkVersion (vr "0") None (vr "0+")) [
    mkField "TimeoutMs" "int32" (vr "0+") None None None None;
    mkField "Topics" "[]ListPartitionReassignmentsTopics" (vr "0+") (Some (vr "0+")) None None (Some [
      mkField "Name" "string" (vr "0+") None None None None;
      mkField "PartitionIndexes" "[]int32" (vr "0+") None None None None])]
    None.

Definition ListPartitionReassignmentsResponse : Message :=
  mkMessage 46 Response None "ListPartitionReassignmentsResponse"
    (mkVersion (vr "0") None (vr "0+")) [
    mkField "ThrottleTimeMs" "int32" (vr "0+") None None None None;
    mkField "ErrorCode" "int16" (vr "0+") None None None None;
    mkField "ErrorMessage" "string" (vr "0+") (Some (vr "0+")) None None None;
    mkField "Topics" "[]OngoingTopicReassignment" (vr "0+") None None None (Some [
      mkField "Name" "string" (vr "0+") None None None None;
      mkField "Partitions" "[]OngoingPartitionReassignment" (vr "0+") None None None (Some [
        mkField "PartitionIndex" "int32" (vr "0+") None None None None;
        mkField "Replicas" "[]int32" (vr "0+") None None None None;
        mkField "AddingReplicas" "[]int32" (vr "0+") None None None None;
        mkField "RemovingReplicas" "[]int32" (vr "0+") None None None None])])]
    None.

Definition ListTransactionsRequest : Message :=
  mkMessage 66 Request (Some [ZkBroker; Broker]) "ListTransactionsRequest"
    (mkVersion (vr "0-1") None (vr "0+")) [
    mkField "StateFilters" "[]string" (vr "0+") None None None None;
    mkField "ProducerIdFilters" "[]int64" (vr "0+") None None None None;
    mkField "DurationFilter" "int64" (vr "1+") None None None None]
    None.

Definition ListTransactionsResponse : Message :=
  mkMessage 66 Response None "ListTransactionsResponse"
    (mkVersion (vr "0-1") None (vr "0+")) [
    mkField "ThrottleTimeMs" "int32" (vr "0+") None None None None;
    mkField "ErrorCode" "int16" (vr "0+") None None None None;
    mkField "UnknownStateFilters" "[]string" (vr "0+") None None None None;
    mkField "TransactionStates" "[]TransactionState" (vr "0+") None None None (Some [
      mkField "TransactionalId" "string" (vr "0+") None None None None;
      mkField "ProducerId" "int64" (vr "0+") None None None None;
      mkField "TransactionState" "string" (vr "0+") None None None None])]
    None.

Definition MetadataRequest : Message :=
  mkMessage 3 Request (Some [ZkBroker; Broker]) "MetadataRequest"
    (mkVersion (vr "0-12") (Some (vr "0-3")) (vr "9+")) [
    mkField "Topics" "[]MetadataRequestTopic" (vr "0+") (Some (vr "1+")) None None (Some [
      mkField "TopicId" "uuid" (vr "10+") None None None None;
      mkField "Name" "string" (vr "0+") (Some (vr "10+")) None None None]);
    mkField "AllowAutoTopicCreation" "bool" (vr "4+") None None None None;
    mkField "IncludeClusterAuthorizedOperations" "bool" (vr "8-10") None None None None;
    mkField "IncludeTopicAuthorizedOperations" "bool" (vr "8+") None None None None]
    None.

Definition MetadataResponse : Message :=
  mkMessage 3 Response None "MetadataResponse"
    (mkVersion (vr "0-12") None (vr "9+")) [
    mkField "ThrottleTimeMs" "int32" (vr "3+") None None None None;
    mkField "Brokers" "[]MetadataResponseBroker" (vr "0+") None None None (Some [
      mkField "NodeId" "int32" (vr "0+") None None None None;
      mkField "Host" "string" (vr "0+") None None None None;
      mkField "Port" "int32" (vr "0+") None None None None;
      mkField "Rack" "string" (vr "1+") (Some (vr "1+")) None None None]);
    mkField "ClusterId" "string" (vr "2+") (Some (vr "2+")) None None None;
    mkField "ControllerId" "int32" (vr "1+") None None None None;
    mkField "Topics" "[]MetadataResponseTopic" (vr "0+") None None None (Some [
      mkField "ErrorCode" "int16" (vr "0+") None None None None;
      mkField "Name" "string" (vr "0+") (Some (vr "12+")) None None None;
      mkField "TopicId" "uuid" (vr "10+") None None None None;
      mkField "IsInternal" "bool" (vr "1+") None None None None;
      mkField "Partitions" "[]MetadataResponsePartition" (vr "0+") None None None (Some [
        mkField "ErrorCode" "int16" (vr "0+") None None None None;
        mkField "PartitionIndex" "int32" (vr "0+") None None None None;
        mkField "LeaderId" "int32" (vr "0+") None None None None;
        mkField "LeaderEpoch" "int32" (vr "7+") None None None None;
        mkField "ReplicaNodes" "[]int32" (vr "0+") None None None None;
        mkField "IsrNodes" "[]int32" (vr "0+") None None None None;
        mkField "OfflineReplicas" "[]int32" (vr "5+") None None None None]);
      mkField "TopicAuthorizedOperations" "int32" (vr "8+") None None None None]);
    mkField "ClusterAuthorizedOperations" "int32" (vr "8-10") None None None None]
    None.

Definition OffsetCommitRequest : Message :=
  mkMessage 8 Request (Some [ZkBroker; Broker]) "OffsetCommitRequest"
    (mkVersion (vr "0-9") (Some (vr "0-1")) (vr "8+")) [
    mkField "GroupId" "string" (vr "0+") None None None None;
    mkField "GenerationIdOrMemberEpoch" "int32" (vr "1+") None None None None;
    mkField "MemberId" "string" (vr "1+") None None None None;
    mkField "GroupInstanceId" "string" (vr "7+") (Some (vr "7+")) None None None;
    mkField "RetentionTimeMs" "int64" (vr "2-4") None None None None;
    mkField "Topics" "[]OffsetCommitRequestTopic" (vr "0+") None None None (Some [
      mkField "Name" "string" (vr "0+") None None None None;
      mkField "Partitions" "[]OffsetCommitRequestPartition" (vr "0+") None None None (Some [
        mkField "PartitionIndex" "int32" (vr "0+") None None None None;
        mkField "CommittedOffset" "int64" (vr "0+") None None None None;
        mkField "CommittedLeaderEpoch" "int32" (vr "6+") None None None None;
        mkField "CommitTimestamp" "int64" (vr "1") None None None None;
        mkField "CommittedMetadata" "string" (vr "0+") (Some (vr "0+")) None None None])])]
    None.

Definition OffsetCommitResponse : Message :=
  mkMessage 8 Response None "OffsetCommitResponse"
    (mkVersion (vr "0-9") None (vr "8+")) [
    mkField "ThrottleTimeMs" "int32" (vr "3+") None None None None;
    mkField "Topics" "[]OffsetCommitResponseTopic" (vr "0+") None None None (Some [
      mkField "Name" "string" (vr "0+") None None None None;
      mkField "Partitions" "[]OffsetCommitResponsePartition" (vr "0+") None None None (Some [
        mkField "PartitionIndex" "int32" (vr "0+") None None None None;
        mkField "ErrorCode" "int16" (vr "0+") None None None None])])]
    None.

Definition OffsetDeleteRequest : Message :=
  mkMessage 47 Request (Some [ZkBroker; Broker]) "OffsetDeleteRequest"
    (mkVersion (vr "0") None (vr "none")) [
    mkField "GroupId" "string" (vr "0+") None None None None;
    mkField "Topics" "[]OffsetDeleteRequestTopic" (vr "0+") None None None (Some [
      mkField "Name" "string" (vr "0+") None None None None;
      mkField "Partitions" "[]OffsetDeleteRequestPartition" (vr "0+") None None None (Some [
        mkField "PartitionIndex" "int32" (vr "0+") None None None None])])]
    None.

Definition OffsetDeleteResponse : Message :=
  mkMessage 47 Response None "OffsetDeleteResponse"
    (mkVersion (vr "0") None (vr "none")) [
    mkField "ErrorCode" "int16" (vr "0+") None None None None;
    mkField "ThrottleTimeMs" "int32" (vr "0+") None None None None;
    mkField "Topics" "[]OffsetDeleteResponseTopic" (vr "0+") None None None (Some [
      mkField "Name" "string" (vr "0+") None None None None;
      mkField "Partitions" "[]OffsetDeleteResponsePartition" (vr "0+") None None None (Some [
        mkField "PartitionIndex" "int32" (vr "0+") None None None None;
        mkField "ErrorCode" "int16" (vr "0+") None None None None])])]
    None.

Definition OffsetFetchRequest : Message :=
  mkMessage 9 Request (Some [ZkBroker; Broker]) "OffsetFetchRequest"
    (mkVersion (vr "0-9") (Some (vr "0")) (vr "6+")) [
    mkField "GroupId" "string" (vr "0-7") None None None None;
    mkField "Topics" "[]OffsetFetchRequestTopic" (vr "0-7") (Some (vr "2-7")) None None (Some [
      mkField "Name" "string" (vr "0-7") None None None None;
      mkField "PartitionIndexes" "[]int32" (vr "0-7") None None None None]);
    mkField "Groups" "[]OffsetFetchRequestGroup" (vr "8+") None None None (Some [
      mkField "GroupId" "string" (vr "8+") None None None None;
      mkField "MemberId" "string" (vr "9+") (Some (vr "9+")) None None None;
      mkField "MemberEpoch" "int32" (vr "9+") None None None None;
      mkField "Topics" "[]OffsetFetchRequestTopics" (vr "8+") (Some (vr "8+")) None None (Some [
        mkField "Name" "string" (vr "8+") None None None None;
        mkField "PartitionIndexes" "[]int32" (vr "8+") None None None None])]);
    mkField "RequireStable" "bool" (vr "7+") None None None None]
    None.

Definition OffsetFetchResponse : Message :=
  mkMessage 9 Response None "OffsetFetchResponse"
    (mkVersion (vr "0-9") None (vr "6+")) [
    mkField "ThrottleTimeMs" "int32" (vr "3+") None None None None;
    mkField "Topics" "[]OffsetFetchResponseTopic" (vr "0-7") None None None (Some [
      mkField "Name" "string" (vr "0-7") None None None None;
      mkField "Partitions" "[]OffsetFetchResponsePartition" (vr "0-7") None None None (Some [
        mkField "PartitionIndex" "int32" (vr "0-7") None None None None;
        mkField "CommittedOffset" "int64" (vr "0-7") None None None None;
        mkField "CommittedLeaderEpoch" "int32" (vr "5-7") None None None None;
        mkField "Metadata" "string" (vr "0-7") (Some (vr "0-7")) None None None;
        mkField "ErrorCode" "int16" (vr "0-7") None None None None])]);
    mkField "ErrorCode" "int16" (vr "2-7") None None None None;
    mkField "Groups" "[]OffsetFetchResponseGroup" (vr "8+") None None None (Some [
      mkField "GroupId" "string" (vr "8+") None None None None;
      mkField "Topics" "[]OffsetFetchResponseTopics" (vr "8+") None None None (Some [
        mkField "Name" "string" (vr "8+") None None None None;
        mkField "Partitions" "[]OffsetFetchResponsePartitions" (vr "8+") None None None (Some [
          mkField "PartitionIndex" "int32" (vr "8+") None None None None;
          mkField "CommittedOffset" "int64" (vr "8+") None None None None;
          mkField "CommittedLeaderEpoch" "int32" (vr "8+") None None None None;
          mkField "Metadata" "string" (vr "8+") (Some (vr "8+")) None None None;
          mkField "ErrorCode" "int16" (vr "8+") None None None None])]);
      mkField "ErrorCode" "int16" (vr "8+") None None None None])]
    None.

Definition OffsetForLeaderEpochRequest : Message :=
  mkMessage 23 Request (Some [ZkBroker; Broker]) "OffsetForLeaderEpochRequest"
    (mkVersion (vr "0-4") (Some (vr "0-1")) (vr "4+")) [
    mkField "ReplicaId" "int32" (vr "3+") None None None None;
    mkField "Topics" "[]OffsetForLeaderTopic" (vr "0+") None None None (Some [
      mkField "Topic" "string" (vr "0+") None None None None;
      mkField "Partitions" "[]OffsetForLeaderPartition" (vr "0+") None None None (Some [
        mkField "Partition" "int32" (vr "0+") None None None None;
        mkField "CurrentLeaderEpoch" "int32" (vr "2+") None None None None;
        mkField "LeaderEpoch" "int32" (vr "0+") None None None None])])]
    None.

Definition OffsetForLeaderEpochResponse : Message :=
  mkMessage 23 Response None "OffsetForLeaderEpochResponse"
    (mkVersion (vr "0-4") None (vr "4+")) [
    mkField "ThrottleTimeMs" "int32" (vr "2+") None None None None;
    mkField "Topics" "[]OffsetForLeaderTopicResult" (vr "0+") None None None (Some [
      mkField "Topic" "string" (vr "0+") None None None None;
      mkField "Partitions" "[]EpochEndOffset" (vr "0+") None None None (Some [
        mkField "ErrorCode" "int16" (vr "0+") None None None None;
        mkField "Partition" "int32" (vr "0+") None None None None;
        mkField "LeaderEpoch" "int32" (vr "1+") None None None None;
        mkField "EndOffset" "int64" (vr "0+") None None None None])])]
    None.

Definition ProduceRequest : Message :=
  mkMessage 0 Request (Some [ZkBroker; Broker]) "ProduceRequest"
    (mkVersion (vr "0-11") (Some (vr "0-2")) (vr "9+")) [
    mkField "TransactionalId" "string" (vr "3+") (Some (vr "3+")) None None None;
    mkField "Acks" "int16" (vr "0+") None None None None;
    mkField "TimeoutMs" "int32" (vr "0+") None None None None;
    mkField "TopicData" "[]TopicProduceData" (vr "0+") None None None (Some [
      mkField "Name" "string" (vr "0+") None None None None;
      mkField "PartitionData" "[]PartitionProduceData" (vr "0+") None None None (Some [
        mkField "Index" "int32" (vr "0+") None None None None;
        mkField "Records" "records" (vr "0+") (Some (vr "0+")) None None None])])]
    None.

Definition ProduceResponse : Message :=
  mkMessage 0 Response None "ProduceResponse"
    (mkVersion (vr "0-11") None (vr "9+")) [
    mkField "Responses" "[]TopicProduceResponse" (vr "0+") None None None (Some [
      mkField "Name" "string" (vr "0+") None None None None;
      mkField "PartitionResponses" "[]PartitionProduceResponse" (vr "0+") None None None (Some [
        mkField "Index" "int32" (vr "0+") None None None None;
        mkField "ErrorCode" "int16" (vr "0+") None None None None;
        mkField "BaseOffset" "int64" (vr "0+") None None None None;
        mkField "LogAppendTimeMs" "int64" (vr "2+") None None None None;
        mkField "LogStartOffset" "int64" (vr "5+") None None None None;
        mkField "RecordErrors" "[]BatchIndexAndErrorMessage" (vr "8+") None None None (Some [
          mkField "BatchIndex" "int32" (vr "8+") None None None None;
          mkField "BatchIndexErrorMessage" "string" (vr "8+") (Some (vr "8+")) None None None]);
        mkField "ErrorMessage" "string" (vr "8+") (Some (vr "8+")) None None None;
        mkField "CurrentLeader" "LeaderIdAndEpoch" (vr "10+") None (Some 0) (Some (vr "10+")) (Some [
          mkField "LeaderId" "int32" (vr "10+") None None None None;
          mkField "LeaderEpoch" "int32" (vr "10+") None None None None])])]);
    mkField "ThrottleTimeMs" "int32" (vr "1+") None None None None;
    mkField "NodeEndpoints" "[]NodeEndpoint" (vr "10+") None (Some 0) (Some (vr "10+")) (Some [
      mkField "NodeId" "int32" (vr "10+") None None None None;
      mkField "Host" "string" (vr "10+") None None None None;
      mkField "Port" "int32" (vr "10+") None None None None;
      mkField "Rack" "string" (vr "10+") (Some (vr "10+")) None None None])]
    None.

Definition PushTelemetryRequest : Message :=
  mkMessage 72 Request (Some [Broker]) "PushTelemetryRequest"
    (mkVersion (vr "0") None (vr "0+")) [
    mkField "ClientInstanceId" "uuid" (vr "0+") None None None None;
    mkField "SubscriptionId" "int32" (vr "0+") None None None None;
    mkField "Terminating" "bool" (vr "0+") None None None None;
    mkField "CompressionType" "int8" (vr "0+") None None None None;
    mkField "Metrics" "bytes" (vr "0+") None None None None]
    None.

Definition PushTelemetryResponse : Message :=
  mkMessage 72 Response None "PushTelemetryResponse"
    (mkVersion (vr "0") None (vr "0+")) [
    mkField "ThrottleTimeMs" "int32" (vr "0+") None None None None;
    mkField "ErrorCode" "int16" (vr "0+") None None None None]
    None.

Definition ReadShareGroupStateRequest : Message :=
  mkMessage 84 Request (Some [Broker]) "ReadShareGroupStateRequest"
    (mkVersion (vr "0") None (vr "0+")) [
    mkField "GroupId" "string" (vr "0+") None None None None;
    mkField "Topics" "[]ReadStateData" (vr "0+") None None None (Some [
      mkField "TopicId" "uuid" (vr "0+") None None None None;
      mkField "Partitions" "[]PartitionData" (vr "0+") None None None (Some [
        mkField "Partition" "int32" (vr "0+") None None None None;
        mkField "LeaderEpoch" "int32" (vr "0+") None None None None])])]
    None.

Definition ReadShareGroupStateResponse : Message :=
  mkMessage 84 Response None "ReadShareGroupStateResponse"
    (mkVersion (vr "0") None (vr "0+")) [
    mkField "Results" "[]ReadStateResult" (vr "0+") None None None (Some [
      mkField "TopicId" "uuid" (vr "0+") None None None None;
      mkField "Partitions" "[]PartitionResult" (vr "0+") None None None (Some [
        mkField "Partition" "int32" (vr "0+") None None None None;
        mkField "ErrorCode" "int16" (vr "0+") None None None None;
        mkField "ErrorMessage" "string" (vr "0+") (Some (vr "0+")) None None None;
        mkField "StateEpoch" "int32" (vr "0+") None None None None;
        mkField "StartOffset" "int64" (vr "0+") None None None None;
        mkField "StateBatches" "[]StateBatch" (vr "0+") None None None (Some [
          mkField "FirstOffset" "int64" (vr "0+") None None None None;
          mkField "LastOffset" "int64" (vr "0+") None None None None;
          mkField "DeliveryState" "int8" (vr "0+") None None None None;
          mkField "DeliveryCount" "int16" (vr "0+") None None None None])])])]
    None.

Definition ReadShareGroupStateSummaryRequest : Message :=
  mkMessage 87 Request (Some [Broker]) "ReadShareGroupStateSummaryRequest"
    (mkVersion (vr "0") None (vr "0+")) [
    mkField "GroupId" "string" (vr "0+") None None None None;
    mkField "Topics" "[]ReadStateSummaryData" (vr "0+") None None None (Some [
      mkField "TopicId" "uuid" (vr "0+") None None None None;
      mkField "Partitions" "[]PartitionData" (vr "0+") None None None (Some [
        mkField "Partition" "int32" (vr "0+") None None None None;
        mkField "LeaderEpoch" "int32" (vr "0+") None None None None])])]
    None.

Definition ReadShareGroupStateSummaryResponse : Message :=
  mkMessage 87 Response None "ReadShareGroupStateSummaryResponse"
    (mkVersion (vr "0") None (vr "0+")) [
    mkField "Results" "[]ReadStateSummaryResult" (vr "0+") None None None (Some [
      mkField "TopicId" "uuid" (vr "0+") None None None None;
      mkField "Partitions" "[]PartitionResult" (vr "0+") None None None (Some [
        mkField "Partition" "int32" (vr "0+") None None None None;
        mkField "ErrorCode" "int16" (vr "0+") None None None None;
        mkField "ErrorMessage" "string" (vr "0+") (Some (vr "0+")) None None None;
        mkField "StateEpoch" "int32" (vr "0+") None None None None;
        mkField "StartOffset" "int64" (vr "0+") None None None None])])]
    None.

Definition RemoveRaftVoterRequest : Message :=
  mkMessage 81 Request (Some [Controller; Broker]) "RemoveRaftVoterRequest"
    (mkVersion (vr "0") None (vr "0+")) [
    mkField "ClusterId" "string" (vr "0+") (Some (vr "0+")) None None None;
    mkField "VoterId" "int32" (vr "0+") None None None None;
    mkField "VoterDirectoryId" "uuid" (vr "0+") None None None None]
    None.

Definition RemoveRaftVoterResponse : Message :=
  mkMessage 81 Response None "RemoveRaftVoterResponse"
    (mkVersion (vr "0") None (vr "0+")) [
    mkField "ThrottleTimeMs" "int32" (vr "0+") None None None None;
    mkField "ErrorCode" "int16" (vr "0+") None None None None;
    mkField "ErrorMessage" "string" (vr "0+") (Some (vr "0+")) None None None]
    None.

Definition RenewDelegationTokenRequest : Message :=
  mkMessage 39 Request (Some [ZkBroker; Broker; Controller]) "RenewDelegationTokenRequest"
    (mkVersion (vr "0-2") (Some (vr "0")) (vr "2+")) [
    mkField "Hmac" "bytes" (vr "0+") None None None None;
    mkField "RenewPeriodMs" "int64" (vr "0+") None None None None]
    None.

Definition RenewDelegationTokenResponse : Message :=
  mkMessage 39 Response None "RenewDelegationTokenResponse"
    (mkVersion (vr "0-2") None (vr "2+")) [
    mkField "ErrorCode" "int16" (vr "0+") None None None None;
    mkField "ExpiryTimestampMs" "int64" (vr "0+") None None None None;
    mkField "ThrottleTimeMs" "int32" (vr "0+") None None None None]
    None.

Definition SaslAuthenticateRequest : Message :=
  mkMessage 36 Request (Some [ZkBroker; Broker; Controller]) "SaslAuthenticateRequest"
    (mkVersion (vr "0-2") None (vr "2+")) [
    mkField "AuthBytes" "bytes" (vr "0+") None None None None]
    None.

Definition SaslAuthenticateResponse : Message :=
  mkMessage 36 Response None "SaslAuthenticateResponse"
    (mkVersion (vr "0-2") None (vr "2+")) [
    mkField "ErrorCode" "int16" (vr "0+") None None None None;
    mkField "ErrorMessage" "string" (vr "0+") (Some (vr "0+")) None None None;
    mkField "AuthBytes" "bytes" (vr "0+") None None None None;
    mkField "SessionLifetimeMs" "int64" (vr "1+") None None None None]
    None.

Definition SaslHandshakeRequest : Message :=
  mkMessage 17 Request (Some [ZkBroker; Broker; Controller]) "SaslHandshakeRequest"
    (mkVersion (vr "0-1") None (vr "none")) [
    mkField "Mechanism" "string" (vr "0+") None None None None]
    None.

Definition SaslHandshakeResponse : Message :=
  mkMessage 17 Response None "SaslHandshakeResponse"
    (mkVersion (vr "0-1") None (vr "none")) [
    mkField "ErrorCode" "int16" (vr "0+") None None None None;
    mkField "Mechanisms" "[]string" (vr "0+") None None None None]
    None.

Definition ShareAcknowledgeRequest : Message :=
  mkMessage 79 Request (Some [Broker]) "ShareAcknowledgeRequest"
    (mkVersion (vr "0") None (vr "0+")) [
    mkField "GroupId" "string" (vr "0+") (Some (vr "0+")) None None None;
    mkField "MemberId" "string" (vr "0+") (Some (vr "0+")) None None None;
    mkField "ShareSessionEpoch" "int32" (vr "0+") None None None None;
    mkField "Topics" "[]AcknowledgeTopic" (vr "0+") None None None (Some [
      mkField "TopicId" "uuid" (vr "0+") None None None None;
      mkField "Partitions" "[]AcknowledgePartition" (vr "0+") None None None (Some [
        mkField "PartitionIndex" "int32" (vr "0+") None None None None;
        mkField "AcknowledgementBatches" "[]AcknowledgementBatch" (vr "0+") None None None (Some [
          mkField "FirstOffset" "int64" (vr "0+") None None None None;
          mkField "LastOffset" "int64" (vr "0+") None None None None;
          mkField "AcknowledgeTypes" "[]int8" (vr "0+") None None None None])])])]
    None.

Definition ShareAcknowledgeResponse : Message :=
  mkMessage 79 Response None "ShareAcknowledgeResponse"
    (mkVersion (vr "0") None (vr "0+")) [
    mkField "ThrottleTimeMs" "int32" (vr "0+") None None None None;
    mkField "ErrorCode" "int16" (vr "0+") None None None None;
    mkField "ErrorMessage" "string" (vr "0+") (Some (vr "0+")) None None None;
    mkField "Responses" "[]ShareAcknowledgeTopicResponse" (vr "0+") None None None (Some [
      mkField "TopicId" "uuid" (vr "0+") None None None None;
      mkField "Partitions" "[]PartitionData" (vr "0+") None None None (Some [
        mkField "PartitionIndex" "int32" (vr "0+") None None None None;
        mkField "ErrorCode" "int16" (vr "0+") None None None None;
        mkField "ErrorMessage" "string" (vr "0+") (Some (vr "0+")) None None None;
        mkField "CurrentLeader" "LeaderIdAndEpoch" (vr "0+") None None None (Some [
          mkField "LeaderId" "int32" (vr "0+") None None None None;
          mkField "LeaderEpoch" "int32" (vr "0+") None None None None])])]);
    mkField "NodeEndpoints" "[]NodeEndpoint" (vr "0+") None None None (Some [
      mkField "NodeId" "int32" (vr "0+") None None None None;
      mkField "Host" "string" (vr "0+") None None None None;
      mkField "Port" "int32" (vr "0+") None None None None;
      mkField "Rack" "string" (vr "0+") (Some (vr "0+")) None None None])]
    None.

Definition ShareFetchRequest : Message :=
  mkMessage 78 Request (Some [Broker]) "ShareFetchRequest"
    (mkVersion (vr "0") None (vr "0+")) [
    mkField "GroupId" "string" (vr "0+") (Some (vr "0+")) None None None;
    mkField "MemberId" "string" (vr "0+") (Some (vr "0+")) None None None;
    mkField "ShareSessionEpoch" "int32" (vr "0+") None None None None;
    mkField "MaxWaitMs" "int32" (vr "0+") None None None None;
    mkField "MinBytes" "int32" (vr "0+") None None None None;
    mkField "MaxBytes" "int32" (vr "0+") None None None None;
    mkField "Topics" "[]FetchTopic" (vr "0+") None None None (Some [
      mkField "TopicId" "uuid" (vr "0+") None None None None;
      mkField "Partitions" "[]FetchPartition" (vr "0+") None None None (Some [
        mkField "PartitionIndex" "int32" (vr "0+") None None None None;
        mkField "PartitionMaxBytes" "int32" (vr "0+") None None None None;
        mkField "AcknowledgementBatches" "[]AcknowledgementBatch" (vr "0+") None None None (Some [
          mkField "FirstOffset" "int64" (vr "0+") None None None None;
          mkField "LastOffset" "int64" (vr "0+") None None None None;
          mkField "AcknowledgeTypes" "[]int8" (vr "0+") None None None None])])]);
    mkField "ForgottenTopicsData" "[]ForgottenTopic" (vr "0+") None None None (Some [
      mkField "TopicId" "uuid" (vr "0+") None None None None;
      mkField "Partitions" "[]int32" (vr "0+") None None None None])]
    None.

Definition ShareFetchResponse : Message :=
  mkMessage 78 Response None "ShareFetchResponse"
    (mkVersion (vr "0") None (vr "0+")) [
    mkField "ThrottleTimeMs" "int32" (vr "0+") None None None None;
    mkField "ErrorCode" "int16" (vr "0+") None None None None;
    mkField "ErrorMessage" "string" (vr "0+") (Some (vr "0+")) None None None;
    mkField "Responses" "[]ShareFetchableTopicResponse" (vr "0+") None None None (Some [
      mkField "TopicId" "uuid" (vr "0+") None None None None;
      mkField "Partitions" "[]PartitionData" (vr "0+") None None None (Some [
        mkField "PartitionIndex" "int32" (vr "0+") None None None None;
        mkField "ErrorCode" "int16" (vr "0+") None None None None;
        mkField "ErrorMessage" "string" (vr "0+") (Some (vr "0+")) None None None;
        mkField "AcknowledgeErrorCode" "int16" (vr "0+") None None None None;
        mkField "AcknowledgeErrorMessage" "string" (vr "0+") (Some (vr "0+")) None None None;
        mkField "CurrentLeader" "LeaderIdAndEpoch" (vr "0+") None None None (Some [
          mkField "LeaderId" "int32" (vr "0+") None None None None;
          mkField "LeaderEpoch" "int32" (vr "0+") None None None None]);
        mkField "Records" "records" (vr "0+") (Some (vr "0+")) None None None;
        mkField "AcquiredRecords" "[]AcquiredRecords" (vr "0+") None None None (Some [
          mkField "FirstOffset" "int64" (vr "0+") None None None None;
          mkField "LastOffset" "int64" (vr "0+") None None None None;
          mkField "DeliveryCount" "int16" (vr "0+") None None None None])])]);
    mkField "NodeEndpoints" "[]NodeEndpoint" (vr "0+") None None None (Some [
      mkField "NodeId" "int32" (vr "0+") None None None None;
      mkField "Host" "string" (vr "0+") None None None None;
      mkField "Port" "int32" (vr "0+") None None None None;
      mkField "Rack" "string" (vr "0+") (Some (vr "0+")) None None None])]
    None.

Definition ShareGroupDescribeRequest : Message :=
  mkMessage 77 Request (Some [Broker]) "ShareGroupDescribeRequest"
    (mkVersion (vr "0") None (vr "0+")) [
    mkField "GroupIds" "[]string" (vr "0+") None None None None;
    mkField "IncludeAuthorizedOperations" "bool" (vr "0+") None None None None]
    None.

Definition ShareGroupDescribeResponse : Message :=
  mkMessage 77 Response None "ShareGroupDescribeResponse"
    (mkVersion (vr "0") None (vr "0+")) [
    mkField "ThrottleTimeMs" "int32" (vr "0+") None None None None;
    mkField "Groups" "[]DescribedGroup" (vr "0+") None None None (Some [
      mkField "ErrorCode" "int16" (vr "0+") None None None None;
      mkField "ErrorMessage" "string" (vr "0+") (Some (vr "0+")) None None None;
      mkField "GroupId" "string" (vr "0+") None None None None;
      mkField "GroupState" "string" (vr "0+") None None None None;
      mkField "GroupEpoch" "int32" (vr "0+") None None None None;
      mkField "AssignmentEpoch" "int32" (vr "0+") None None None None;
      mkField "AssignorName" "string" (vr "0+") None None None None;
      mkField "Members" "[]Member" (vr "0+") None None None (Some [
        mkField "MemberId" "string" (vr "0+") None None None None;
        mkField "RackId" "string" (vr "0+") (Some (vr "0+")) None None None;
        mkField "MemberEpoch" "int32" (vr "0+") None None None None;
        mkField "ClientId" "string" (vr "0+") None None None None;
        mkField "ClientHost" "string" (vr "0+") None None None None;
        mkField "SubscribedTopicNames" "[]string" (vr "0+") None None None None;
        mkField "Assignment" "Assignment" (vr "0+") None None None None]);
      mkField "AuthorizedOperations" "int32" (vr "0+") None None None None])]
    (Some [
    mkCommon "TopicPartitions" [
      mkField "TopicId" "uuid" (vr "0+") None None None None;
      mkField "TopicName" "string" (vr "0+") None None None None;
      mkField "Partitions" "[]int32" (vr "0+") None None None None];
    mkCommon "Assignment" [
      mkField "TopicPartitions" "[]TopicPartitions" (vr "0+") None None None None]]).

Definition ShareGroupHeartbeatRequest : Message :=
  mkMessage 76 Request (Some [Broker]) "ShareGroupHeartbeatRequest"
    (mkVersion (vr "0") None (vr "0+")) [
    mkField "GroupId" "string" (vr "0+") None None None None;
    mkField "MemberId" "string" (vr "0+") None None None None;
    mkField "MemberEpoch" "int32" (vr "0+") None None None None;
    mkField "RackId" "string" (vr "0+") (Some (vr "0+")) None None None;
    mkField "SubscribedTopicNames" "[]string" (vr "0+") (Some (vr "0+")) None None None]
    None.

Definition ShareGroupHeartbeatResponse : Message :=
  mkMessage 76 Response None "ShareGroupHeartbeatResponse"
    (mkVersion (vr "0") None (vr "0+")) [
    mkField "ThrottleTimeMs" "int32" (vr "0+") None None None None;
    mkField "ErrorCode" "int16" (vr "0+") None None None None;
    mkField "ErrorMessage" "string" (vr "0+") (Some (vr "0+")) None None None;
    mkField "MemberId" "string" (vr "0+") (Some (vr "0+")) None None None;
    mkField "MemberEpoch" "int32" (vr "0+") None None None None;
    mkField "HeartbeatIntervalMs" "int32" (vr "0+") None None None None;
    mkField "Assignment" "Assignment" (vr "0+") (Some (vr "0+")) None None (Some [
      mkField "TopicPartitions" "[]TopicPartitions" (vr "0+") None None None None])]
    (Some [
    mkCommon "TopicPartitions" [
      mkField "TopicId" "uuid" (vr "0+") None None None None;
      mkField "Partitions" "[]int32" (vr "0+") None None None None]]).

Definition StopReplicaRequest : Message :=
  mkMessage 5 Request (Some [ZkBroker]) "StopReplicaRequest"
    (mkVersion (vr "0-4") None (vr "2+")) [
    mkField "ControllerId" "int32" (vr "0+") None None None None;
    mkField "isKRaftController" "bool" (vr "4+") None None None None;
    mkField "ControllerEpoch" "int32" (vr "0+") None None None None;
    mkField "BrokerEpoch" "int64" (vr "1+") None None None None;
    mkField "DeletePartitions" "bool" (vr "0-2") None None None None;
    mkField "UngroupedPartitions" "[]StopReplicaPartitionV0" (vr "0") None None None (Some [
      mkField "TopicName" "string" (vr "0") None None None None;
      mkField "PartitionIndex" "int32" (vr "0") None None None None]);
    mkField "Topics" "[]StopReplicaTopicV1" (vr "1-2") None None None (Some [
      mkField "Name" "string" (vr "1-2") None None None None;
      mkField "PartitionIndexes" "[]int32" (vr "1-2") None None None None]);
    mkField "TopicStates" "[]StopReplicaTopicState" (vr "3+") None None None (Some [
      mkField "TopicName" "string" (vr "3+") None None None None;
      mkField "PartitionStates" "[]StopReplicaPartitionState" (vr "3+") None None None (Some [
        mkField "PartitionIndex" "int32" (vr "3+") None None None None;
        mkField "LeaderEpoch" "int32" (vr "3+") None None None None;
        mkField "DeletePartition" "bool" (vr "3+") None None None None])])]
    None.

Definition StopReplicaResponse : Message :=
  mkMessage 5 Response None "StopReplicaResponse"
    (mkVersion (vr "0-4") None (vr "2+")) [
    mkField "ErrorCode" "int16" (vr "0+") None None None None;
    mkField "PartitionErrors" "[]StopReplicaPartitionError" (vr "0+") None None None (Some [
      mkField "TopicName" "string" (vr "0+") None None None None;
      mkField "PartitionIndex" "int32" (vr "0+") None None None None;
      mkField "ErrorCode" "int16" (vr "0+") None None None None])]
    None.

Definition SyncGroupRequest : Message :=
  mkMessage 14 Request (Some [ZkBroker; Broker]) "SyncGroupRequest"
    (mkVersion (vr "0-5") None (vr "4+")) [
    mkField "GroupId" "string" (vr "0+") None None None None;
    mkField "GenerationId" "int32" (vr "0+") None None None None;
    mkField "MemberId" "string" (vr "0+") None None None None;
    mkField "GroupInstanceId" "string" (vr "3+") (Some (vr "3+")) None None None;
    mkField "ProtocolType" "string" (vr "5+") (Some (vr "5+")) None None None;
    mkField "ProtocolName" "string" (vr "5+") (Some (vr "5+")) None None None;
    mkField "Assignments" "[]SyncGroupRequestAssignment" (vr "0+") None None None (Some [
      mkField "MemberId" "string" (vr "0+") None None None None;
      mkField "Assignment" "bytes" (vr "0+") None None None None])]
    None.

Definition SyncGroupResponse : Message :=
  mkMessage 14 Response None "SyncGroupResponse"
    (mkVersion (vr "0-5") None (vr "4+")) [
    mkField "ThrottleTimeMs" "int32" (vr "1+") None None None None;
    mkField "ErrorCode" "int16" (vr "0+") None None None None;
    mkField "ProtocolType" "string" (vr "5+") (Some (vr "5+")) None None None;
    mkField "ProtocolName" "string" (vr "5+") (Some (vr "5+")) None None None;
    mkField "Assignment" "bytes" (vr "0+") None None None None]
    None.

Definition TxnOffsetCommitRequest : Message :=
  mkMessage 28 Request (Some [ZkBroker; Broker]) "TxnOffsetCommitRequest"
    (mkVersion (vr "0-4") None (vr "3+")) [
    mkField "TransactionalId" "string" (vr "0+") None None None None;
    mkField "GroupId" "string" (vr "0+") None None None None;
    mkField "ProducerId" "int64" (vr "0+") None None None None;
    mkField "ProducerEpoch" "int16" (vr "0+") None None None None;
    mkField "GenerationId" "int32" (vr "3+") None None None None;
    mkField "MemberId" "string" (vr "3+") None None None None;
    mkField "GroupInstanceId" "string" (vr "3+") (Some (vr "3+")) None None None;
    mkField "Topics" "[]TxnOffsetCommitRequestTopic" (vr "0+") None None None (Some [
      mkField "Name" "string" (vr "0+") None None None None;
      mkField "Partitions" "[]TxnOffsetCommitRequestPartition" (vr "0+") None None None (Some [
        mkField "PartitionIndex" "int32" (vr "0+") None None None None;
        mkField "CommittedOffset" "int64" (vr "0+") None None None None;
        mkField "CommittedLeaderEpoch" "int32" (vr "2+") None None None None;
        mkField "CommittedMetadata" "string" (vr "0+") (Some (vr "0+")) None None None])])]
    None.

Definition TxnOffsetCommitResponse : Message :=
  mkMessage 28 Response None "TxnOffsetCommitResponse"
    (mkVersion (vr "0-4") None (vr "3+")) [
    mkField "ThrottleTimeMs" "int32" (vr "0+") None None None None;
    mkField "Topics" "[]TxnOffsetCommitResponseTopic" (vr "0+") None None None (Some [
      mkField "Name" "string" (vr "0+") None None None None;
      mkField "Partitions" "[]TxnOffsetCommitResponsePartition" (vr "0+") None None None (Some [
        mkField "PartitionIndex" "int32" (vr "0+") None None None None;
        mkField "ErrorCode" "int16" (vr "0+") None None None None])])]
    None.

Definition UnregisterBrokerRequest : Message :=
  mkMessage 64 Request (Some [Broker; Controller]) "UnregisterBrokerRequest"
    (mkVersion (vr "0") None (vr "0+")) [
    mkField "BrokerId" "int32" (vr "0+") None None None None]
    None.

Definition UnregisterBrokerResponse : Message :=
  mkMessage 64 Response None "UnregisterBrokerResponse"
    (mkVersion (vr "0") None (vr "0+")) [
    mkField "ThrottleTimeMs" "int32" (vr "0+") None None None None;
    mkField "ErrorCode" "int16" (vr "0+") None None None None;
    mkField "ErrorMessage" "string" (vr "0+") (Some (vr "0+")) None None None]
    None.

Definition UpdateFeaturesRequest : Message :=
  mkMessage 57 Request (Some [ZkBroker; Broker; Controller]) "UpdateFeaturesRequest"
    (mkVersion (vr "0-1") None (vr "0+")) [
    mkField "timeoutMs" "int32" (vr "0+") None None None None;
    mkField "FeatureUpdates" "[]FeatureUpdateKey" (vr "0+") None None None (Some [
      mkField "Feature" "string" (vr "0+") None None None None;
      mkField "MaxVersionLevel" "int16" (vr "0+") None None None None;
      mkField "AllowDowngrade" "bool" (vr "0") None None None None;
      mkField "UpgradeType" "int8" (vr "1+") None None None None]);
    mkField "ValidateOnly" "bool" (vr "1+") None None None None]
    None.

Definition UpdateFeaturesResponse : Message :=
  mkMessage 57 Response None "UpdateFeaturesResponse"
    (mkVersion (vr "0-1") None (vr "0+")) [
    mkField "ThrottleTimeMs" "int32" (vr "0+") None None None None;
    mkField "ErrorCode" "int16" (vr "0+") None None None None;
    mkField "ErrorMessage" "string" (vr "0+") (Some (vr "0+")) None None None;
    mkField "Results" "[]UpdatableFeatureResult" (vr "0+") None None None (Some [
      mkField "Feature" "string" (vr "0+") None None None None;
      mkField "ErrorCode" "int16" (vr "0+") None None None None;
      mkField "ErrorMessage" "string" (vr "0+") (Some (vr "0+")) None None None])]
    None.

Definition UpdateMetadataRequest : Message :=
  mkMessage 6 Request (Some [ZkBroker]) "UpdateMetadataRequest"
    (mkVersion (vr "0-8") None (vr "6+")) [
    mkField "ControllerId" "int32" (vr "0+") None None None None;
    mkField "isKRaftController" "bool" (vr "8+") None None None None;
    mkField "Type" "int8" (vr "8+") None (Some 0) (Some (vr "8+")) None;
    mkField "ControllerEpoch" "int32" (vr "0+") None None None None;
    mkField "BrokerEpoch" "int64" (vr "5+") None None None None;
    mkField "UngroupedPartitionStates" "[]UpdateMetadataPartitionState" (vr "0-4") None None None None;
    mkField "TopicStates" "[]UpdateMetadataTopicState" (vr "5+") None None None (Some [
      mkField "TopicName" "string" (vr "5+") None None None None;
      mkField "TopicId" "uuid" (vr "7+") None None None None;
      mkField "PartitionStates" "[]UpdateMetadataPartitionState" (vr "5+") None None None None]);
    mkField "LiveBrokers" "[]UpdateMetadataBroker" (vr "0+") None None None (Some [
      mkField "Id" "int32" (vr "0+") None None None None;
      mkField "V0Host" "string" (vr "0") None None None None;
      mkField "V0Port" "int32" (vr "0") None None None None;
      mkField "Endpoints" "[]UpdateMetadataEndpoint" (vr "1+") None None None (Some [
        mkField "Port" "int32" (vr "1+") None None None None;
        mkField "Host" "string" (vr "1+") None None None None;
        mkField "Listener" "string" (vr "3+") None None None None;
        mkField "SecurityProtocol" "int16" (vr "1+") None None None None]);
      mkField "Rack" "string" (vr "2+") (Some (vr "0+")) None None None])]
    (Some [
    mkCommon "UpdateMetadataPartitionState" [
      mkField "TopicName" "string" (vr "0-4") None None None None;
      mkField "PartitionIndex" "int32" (vr "0+") None None None None;
      mkField "ControllerEpoch" "int32" (vr "0+") None None None None;
      mkField "Leader" "int32" (vr "0+") None None None None;
      mkField "LeaderEpoch" "int32" (vr "0+") None None None None;
      mkField "Isr" "[]int32" (vr "0+") None None None None;
      mkField "ZkVersion" "int32" (vr "0+") None None None None;
      mkField "Replicas" "[]int32" (vr "0+") None None None None;
      mkField "OfflineReplicas" "[]int32" (vr "4+") None None None None]]).

Definition UpdateMetadataResponse : Message :=
  mkMessage 6 Response None "UpdateMetadataResponse"
    (mkVersion (vr "0-8") None (vr "6+")) [
    mkField "ErrorCode" "int16" (vr "0+") None None None None]
    None.

Definition UpdateRaftVoterRequest : Message :=
  mkMessage 82 Request (Some [Controller]) "UpdateRaftVoterRequest"
    (mkVersion (vr "0") None (vr "0+")) [
    mkField "ClusterId" "string" (vr "0+") (Some (vr "0+")) None None None;
    mkField "CurrentLeaderEpoch" "int32" (vr "0+") None None None None;
    mkField "VoterId" "int32" (vr "0+") None None None None;
    mkField "VoterDirectoryId" "uuid" (vr "0+") None None None None;
    mkField "Listeners" "[]Listener" (vr "0+") None None None (Some [
      mkField "Name" "string" (vr "0+") None None None None;
      mkField "Host" "string" (vr "0+") None None None None;
      mkField "Port" "uint16" (vr "0+") None None None None]);
    mkField "KRaftVersionFeature" "KRaftVersionFeature" (vr "0+") None None None (Some [
      mkField "MinSupportedVersion" "int16" (vr "0+") None None None None;
      mkField "MaxSupportedVersion" "int16" (vr "0+") None None None None])]
    None.

Definition UpdateRaftVoterResponse : Message :=
  mkMessage 82 Response None "UpdateRaftVoterResponse"
    (mkVersion (vr "0") None (vr "0+")) [
    mkField "ThrottleTimeMs" "int32" (vr "0+") None None None None;
    mkField "ErrorCode" "int16" (vr "0+") None None None None;
    mkField "CurrentLeader" "CurrentLeader" (vr "0+") None (Some 0) (Some (vr "0+")) (Some [
      mkField "LeaderId" "int32" (vr "0+") None None None None;
      mkField "LeaderEpoch" "int32" (vr "0+") None None None None;
      mkField "Host" "string" (vr "0+") None None None None;
      mkField "Port" "int32" (vr "0+") None None None None])]
    None.

Definition VoteRequest : Message :=
  mkMessage 52 Request (Some [Controller]) "VoteRequest"
    (mkVersion (vr "0-1") None (vr "0+")) [
    mkField "ClusterId" "string" (vr "0+") (Some (vr "0+")) None None None;
    mkField "VoterId" "int32" (vr "1+") None None None None;
    mkField "Topics" "[]TopicData" (vr "0+") None None None (Some [
      mkField "TopicName" "string" (vr "0+") None None None None;
      mkField "Partitions" "[]PartitionData" (vr "0+") None None None (Some [
        mkField "PartitionIndex" "int32" (vr "0+") None None None None;
        mkField "CandidateEpoch" "int32" (vr "0+") None None None None;
        mkField "CandidateId" "int32" (vr "0+") None None None None;
        mkField "CandidateDirectoryId" "uuid" (vr "1+") None None None None;
        mkField "VoterDirectoryId" "uuid" (vr "1+") None None None None;
        mkField "LastOffsetEpoch" "int32" (vr "0+") None None None None;
        mkField "LastOffset" "int64" (vr "0+") None None None None])])]
    None.

Definition VoteResponse : Message :=
  mkMessage 52 Response None "VoteResponse"
    (mkVersion (vr "0-1") None (vr "0+")) [
    mkField "ErrorCode" "int16" (vr "0+") None None None None;
    mkField "Topics" "[]TopicData" (vr "0+") None None None (Some [
      mkField "TopicName" "string" (vr "0+") None None None None;
      mkField "Partitions" "[]PartitionData" (vr "0+") None None None (Some [
        mkField "PartitionIndex" "int32" (vr "0+") None None None None;
        mkField "ErrorCode" "int16" (vr "0+") None None None None;
        mkField "LeaderId" "int32" (vr "0+") None None None None;
        mkField "LeaderEpoch" "int32" (vr "0+") None None None None;
        mkField "VoteGranted" "bool" (vr "0+") None None None None])]);
    mkField "NodeEndpoints" "[]NodeEndpoint" (vr "1+") None (Some 0) (Some (vr "1+")) (Some [
      mkField "NodeId" "int32" (vr "1+") None None None None;
      mkField "Host" "string" (vr "1+") None None None None;
      mkField "Port" "uint16" (vr "1+") None None None None])]
    None.

Definition WriteShareGroupStateRequest : Message :=
  mkMessage 85 Request (Some [Broker]) "WriteShareGroupStateRequest"
    (mkVersion (vr "0") None (vr "0+")) [
    mkField "GroupId" "string" (vr "0+") None None None None;
    mkField "Topics" "[]WriteStateData" (vr "0+") None None None (Some [
      mkField "TopicId" "uuid" (vr "0+") None None None None;
      mkField "Partitions" "[]PartitionData" (vr "0+") None None None (Some [
        mkField "Partition" "int32" (vr "0+") None None None None;
        mkField "StateEpoch" "int32" (vr "0+") None None None None;
        mkField "LeaderEpoch" "int32" (vr "0+") None None None None;
        mkField "StartOffset" "int64" (vr "0+") None None None None;
        mkField "StateBatches" "[]StateBatch" (vr "0+") None None None (Some [
          mkField "FirstOffset" "int64" (vr "0+") None None None None;
          mkField "LastOffset" "int64" (vr "0+") None None None None;
          mkField "DeliveryState" "int8" (vr "0+") None None None None;
          mkField "DeliveryCount" "int16" (vr "0+") None None None None])])])]
    None.

Definition WriteShareGroupStateResponse : Message :=
  mkMessage 85 Response None "WriteShareGroupStateResponse"
    (mkVersion (vr "0") None (vr "0+")) [
    mkField "Results" "[]WriteStateResult" (vr "0+") None None None (Some [
      mkField "TopicId" "uuid" (vr "0+") None None None None;
      mkField "Partitions" "[]PartitionResult" (vr "0+") None None None (Some [
        mkField "Partition" "int32" (vr "0+") None None None None;
        mkField "ErrorCode" "int16" (vr "0+") None None None None;
        mkField "ErrorMessage" "string" (vr "0+") (Some (vr "0+")) None None None])])]
    None.

Definition WriteTxnMarkersRequest : Message :=
  mkMessage 27 Request (Some [ZkBroker; Broker]) "WriteTxnMarkersRequest"
    (mkVersion (vr "0-1") None (vr "1+")) [
    mkField "Markers" "[]WritableTxnMarker" (vr "0+") None None None (Some [
      mkField "ProducerId" "int64" (vr "0+") None None None None;
      mkField "ProducerEpoch" "int16" (vr "0+") None None None None;
      mkField "TransactionResult" "bool" (vr "0+") None None None None;
      mkField "Topics" "[]WritableTxnMarkerTopic" (vr "0+") None None None (Some [
        mkField "Name" "string" (vr "0+") None None None None;
        mkField "PartitionIndexes" "[]int32" (vr "0+") None None None None]);
      mkField "CoordinatorEpoch" "int32" (vr "0+") None None None None])]
    None.

Definition WriteTxnMarkersResponse : Message :=
  mkMessage 27 Response None "WriteTxnMarkersResponse"
    (mkVersion (vr "0-1") None (vr "1+")) [
    mkField "Markers" "[]WritableTxnMarkerResult" (vr "0+") None None None (Some [
      mkField "ProducerId" "int64" (vr "0+") None None None None;
      mkField "Topics" "[]WritableTxnMarkerTopicResult" (vr "0+") None None None (Some [
        mkField "Name" "string" (vr "0+") None None None None;
        mkField "Partitions" "[]WritableTxnMarkerPartitionResult" (vr "0+") None None None (Some [
          mkField "PartitionIndex" "int32" (vr "0+") None None None None;
          mkField "ErrorCode" "int16" (vr "0+") None None None None])])])]
    None.

(** Every description the pattern selects, in the order of the directory. *)
Definition all : list Message :=
  [AddOffsetsToTxnRequest; AddOffsetsToTxnResponse; AddPartitionsToTxnRequest;
   AddPartitionsToTxnResponse; AddRaftVoterRequest; AddRaftVoterResponse;
   AllocateProducerIdsRequest; AllocateProducerIdsResponse; AlterClientQuotasRequest;
   AlterClientQuotasResponse; AlterConfigsRequest; AlterConfigsResponse;
   AlterPartitionReassignmentsRequest; AlterPartitionReassignmentsResponse;
   AlterPartitionRequest; AlterPartitionResponse; AlterReplicaLogDirsRequest;
   AlterReplicaLogDirsResponse; AlterUserScramCredentialsRequest;
   AlterUserScramCredentialsResponse; ApiVersionsRequest; ApiVersionsResponse;
   AssignReplicasToDirsRequest; AssignReplicasToDirsResponse; BeginQuorumEpochRequest;
   BeginQuorumEpochResponse; BrokerHeartbeatRequest; BrokerHeartbeatResponse;
   BrokerRegistrationRequest; BrokerRegistrationResponse; ConsumerGroupDescribeRequest;
   ConsumerGroupDescribeResponse; ConsumerGroupHeartbeatRequest;
   ConsumerGroupHeartbeatResponse; ControlledShutdownRequest; ControlledShutdownResponse;
   ControllerRegistrationRequest; ControllerRegistrationResponse; CreateAclsRequest;
   CreateAclsResponse; CreateDelegationTokenRequest; CreateDelegationTokenResponse;
   CreatePartitionsRequest; CreatePartitionsResponse; CreateTopicsRequest;
   CreateTopicsResponse; DeleteAclsRequest; DeleteAclsResponse; DeleteGroupsRequest;
   DeleteGroupsResponse; DeleteRecordsRequest; DeleteRecordsResponse;
   DeleteShareGroupStateRequest; DeleteShareGroupStateResponse; DeleteTopicsRequest;
   DeleteTopicsResponse; DescribeAclsRequest; DescribeAclsResponse;
   DescribeClientQuotasRequest; DescribeClientQuotasResponse; DescribeClusterRequest;
   DescribeClusterResponse; DescribeConfigsRequest; DescribeConfigsResponse;
   DescribeDelegationTokenRequest; DescribeDelegationTokenResponse; DescribeGroupsRequest;
   DescribeGroupsResponse; DescribeLogDirsRequest; DescribeLogDirsResponse;
   DescribeProducersRequest; DescribeProducersResponse; DescribeQuorumRequest;
   DescribeQuorumResponse; DescribeTopicPartitionsRequest;
   DescribeTopicPartitionsResponse; DescribeTransactionsRequest;
   DescribeTransactionsResponse; DescribeUserScramCredentialsRequest;
   DescribeUserScramCredentialsResponse; ElectLeadersRequest; ElectLeadersResponse;
   EndQuorumEpochRequest; EndQuorumEpochResponse; EndTxnRequest; EndTxnResponse;
   EnvelopeRequest; EnvelopeResponse; ExpireDelegationTokenRequest;
   ExpireDelegationTokenResponse; FetchRequest; FetchResponse; FetchSnapshotRequest;
   FetchSnapshotResponse; FindCoordinatorRequest; FindCoordinatorResponse;
   GetTelemetrySubscriptionsRequest; GetTelemetrySubscriptionsResponse; HeartbeatRequest;
   HeartbeatResponse; IncrementalAlterConfigsRequest; IncrementalAlterConfigsResponse;
   InitProducerIdRequest; InitProducerIdResponse; InitializeShareGroupStateRequest;
   InitializeShareGroupStateResponse; JoinGroupRequest; JoinGroupResponse;
   LeaderAndIsrRequest; LeaderAndIsrResponse; LeaveGroupRequest; LeaveGroupResponse;
   ListClientMetricsResourcesRequest; ListClientMetricsResourcesResponse;
   ListGroupsRequest; ListGroupsResponse; ListOffsetsRequest; ListOffsetsResponse;
   ListPartitionReassignmentsRequest; ListPartitionReassignmentsResponse;
   ListTransactionsRequest; ListTransactionsResponse; MetadataRequest; MetadataResponse;
   OffsetCommitRequest; OffsetCommitResponse; OffsetDeleteRequest; OffsetDeleteResponse;
   OffsetFetchRequest; OffsetFetchResponse; OffsetForLeaderEpochRequest;
   OffsetForLeaderEpochResponse; ProduceRequest; ProduceResponse; PushTelemetryRequest;
   PushTelemetryResponse; ReadShareGroupStateRequest; ReadShareGroupStateResponse;
   ReadShareGroupStateSummaryRequest; ReadShareGroupStateSummaryResponse;
   RemoveRaftVoterRequest; RemoveRaftVoterResponse; RenewDelegationTokenRequest;
   RenewDelegationTokenResponse; SaslAuthenticateRequest; SaslAuthenticateResponse;
   SaslHandshakeRequest; SaslHandshakeResponse; ShareAcknowledgeRequest;
   ShareAcknowledgeResponse; ShareFetchRequest; ShareFetchResponse;
   ShareGroupDescribeRequest; ShareGroupDescribeResponse; ShareGroupHeartbeatRequest;
   ShareGroupHeartbeatResponse; StopReplicaRequest; StopReplicaResponse; SyncGroupRequest;
   SyncGroupResponse; TxnOffsetCommitRequest; TxnOffsetCommitResponse;
   UnregisterBrokerRequest; UnregisterBrokerResponse; UpdateFeaturesRequest;
   UpdateFeaturesResponse; UpdateMetadataRequest; UpdateMetadataResponse;
   UpdateRaftVoterRequest; UpdateRaftVoterResponse; VoteRequest; VoteResponse;
   WriteShareGroupStateRequest; WriteShareGroupStateResponse; WriteTxnMarkersRequest;
   WriteTxnMarkersResponse].

End Schemas.
