(* ===== verification/Serde.v ===== *)
(** * Serde: values of the generated types, and tag buffers

    A value of a generated structure as serde's derived [Serialize] presents it,
    with its [Shape]; and the tag buffer that ends every structure of a flexible
    version ([tansu-sans-io/src/primitive/tagged.rs]). *)

From S2P Require Export MessageModel Varint Batch.
Import Model Varint.

(** [Error::custom]: an [Error::Message]. *)
Abbreviation custom := Prelude.Message.

#[export] Instance ity_eq_dec : EqDecision ity.
Proof. solve_decision. Defined.

Module Serde.

(** [TagField(pub u32, pub Vec<u8>)]. *)
Record TagField := mkTag { tag_id : Z; data : bytes }.
Abbreviation TagBuffer := (list TagField).

#[export] Instance TagField_eq_dec : EqDecision TagField.
Proof. solve_decision. Defined.

Inductive Value :=
  | VBool (b : bool)
  | VInt (t : ity) (z : Z)
  | VF64 (bits : Z)
  | VString (s : bytes)
  | VBytes (b : bytes)
  | VUuid (b : bytes)
  | VRecords (batches : list Deflated.Batch)
  | VTagBuffer (tags : TagBuffer)
  | VNone
  | VSome (v : Value)
  | VVec (l : list Value)
  | VStruct (name : string) (fields : list (string * Value)).

(** ** The tag buffer on the wire

    [UnsignedVarInt], [TagField] and [TagBuffer] serialize through
    [serialize_seq(None)] and bytes, which every serializer of the crate writes
    as they are. *)

Definition MAXIMUM_TAGGED_FIELDS : Z := 128.

Definition UnsignedVarInt_try_from (n : Z) : result bytes :=
  if in_u32 n then Ok (UnsignedVarInt_encode n) else Err (custom "length too big").

Definition TagField_serialize (f : TagField) : result bytes :=
  let! length := UnsignedVarInt_try_from (Z.of_nat (length (data f))) in
  Ok (UnsignedVarInt_encode (tag_id f) ++ length ++ data f).

Fixpoint tags_serialize (l : TagBuffer) : result bytes :=
  match l with
  | [] => Ok []
  | f :: l => let! bs := TagField_serialize f in let! rest := tags_serialize l in Ok (bs ++ rest)
  end.

Definition TagBuffer_serialize (l : TagBuffer) : result bytes :=
  let! length := UnsignedVarInt_try_from (Z.of_nat (length l)) in
  let! rest := tags_serialize l in
  Ok (length ++ rest).

(** Their visitors, over a sequence without a length of bytes. *)
Definition TagField_deserialize : reader TagField :=
  read! tag := UnsignedVarInt_deserialize in
  read! length := UnsignedVarInt_deserialize in
  if MAXIMUM_TAGGED_FIELDS <? length then fail (custom "maximum tagged fields exceeded")
  else
  read! data := take_n Io (Z.to_nat length) in
  ret (mkTag tag data).

Definition TagBuffer_deserialize : reader TagBuffer :=
  read! number_of_tagged_fields := UnsignedVarInt_deserialize in
  if MAXIMUM_TAGGED_FIELDS <? number_of_tagged_fields
  then fail (custom "maximum tagged fields exceeded")
  else read_n (Z.to_nat number_of_tagged_fields) TagField_deserialize.

(** [ByteSize for TagBuffer]. *)
Definition TagField_size (f : TagField) : nat :=
  length (data f) + UnsignedVarInt_size (tag_id f)
  + UnsignedVarInt_size (Z.of_nat (length (data f))).

Definition TagBuffer_size (l : TagBuffer) : nat :=
  UnsignedVarInt_size (Z.of_nat (length l)) + list_sum (map TagField_size l).

(** ** Typing

    A value of a Rust type: every integer within its type, every string UTF-8,
    every structure with its fields in order. *)

Definition tag_typed (f : TagField) : bool := in_u32 (tag_id f).

Fixpoint has_shape (s : Shape) (v : Value) {struct s} : bool :=
  match s, v with
  | SBool, VBool _ => true
  | SInt t, VInt t' z => bool_decide (t = t') && in_ty t z
  | SF64, VF64 z => in_u64 z
  | SString, VString b => utf8_valid b
  | SBytes, VBytes _ => true
  | SUuid, VUuid b => bool_decide (length b = 16%nat)
  | SRecords, VRecords l => forallb Deflated.typed l
  | STagBuffer, VTagBuffer l => forallb tag_typed l
  | SOption _, VNone => true
  | SOption s, VSome v => has_shape s v
  | SVec s, VVec l => forallb (has_shape s) l
  | SStruct name fs, VStruct name' vs =>
      bool_decide (name = name') &&
      (fix go (fs : list (string * Shape)) (vs : list (string * Value)) : bool :=
         match fs, vs with
         | [], [] => true
         | (n, s) :: fs, (n', v) :: vs => bool_decide (n = n') && has_shape s v && go fs vs
         | _, _ => false
         end) fs vs
  | _, _ => false
  end.

(** The fields of a structure against their shapes. *)
Fixpoint fields_shape (fs : list (string * Shape)) (vs : list (string * Value)) : bool :=
  match fs, vs with
  | [], [] => true
  | (n, s) :: fs, (n', v) :: vs => bool_decide (n = n') && has_shape s v && fields_shape fs vs
  | _, _ => false
  end.

End Serde.
Import Serde.

(** ** Induction over nested lists *)

Section Value_induction.
Context (P : Value -> Prop).
Context (HBool : forall b, P (VBool b)) (HInt : forall t z, P (VInt t z))
  (HF64 : forall z, P (VF64 z)) (HString : forall s, P (VString s))
  (HBytes : forall b, P (VBytes b)) (HUuid : forall b, P (VUuid b))
  (HRecords : forall l, P (VRecords l)) (HTags : forall l, P (VTagBuffer l))
  (HNone : P VNone) (HSome : forall v, P v -> P (VSome v))
  (HVec : forall l, Forall P l -> P (VVec l))
  (HStruct : forall name fs, Forall (fun kv => P (snd kv)) fs -> P (VStruct name fs)).

Fixpoint Value_nested_ind (v : Value) : P v :=
  match v with
  | VBool b => HBool b
  | VInt t z => HInt t z
  | VF64 z => HF64 z
  | VString s => HString s
  | VBytes b => HBytes b
  | VUuid b => HUuid b
  | VRecords l => HRecords l
  | VTagBuffer l => HTags l
  | VNone => HNone
  | VSome v => HSome v (Value_nested_ind v)
  | VVec l =>
      HVec l ((fix go l : Forall P l :=
                 match l with
                 | [] => Forall_nil_2 P
                 | v :: l => Forall_cons_2 P v l (Value_nested_ind v) (go l)
                 end) l)
  | VStruct name fs =>
      HStruct name fs
        ((fix go fs : Forall (fun kv => P (snd kv)) fs :=
            match fs with
            | [] => Forall_nil_2 _
            | kv :: fs => Forall_cons_2 (fun kv => P (snd kv)) kv fs (Value_nested_ind (snd kv)) (go fs)
            end) fs)
  end.
End Value_induction.

Section Shape_induction.
Context (P : Shape -> Prop).
Context (HBool : P SBool) (HInt : forall t, P (SInt t)) (HF64 : P SF64) (HString : P SString)
  (HBytes : P SBytes) (HUuid : P SUuid) (HRecords : P SRecords) (HTags : P STagBuffer)
  (HOption : forall s, P s -> P (SOption s)) (HVec : forall s, P s -> P (SVec s))
  (HStruct : forall name fs, Forall (fun ns => P (snd ns)) fs -> P (SStruct name fs)).

Fixpoint Shape_nested_ind (s : Shape) : P s :=
  match s with
  | SBool => HBool
  | SInt t => HInt t
  | SF64 => HF64
  | SString => HString
  | SBytes => HBytes
  | SUuid => HUuid
  | SRecords => HRecords
  | STagBuffer => HTags
  | SOption s => HOption s (Shape_nested_ind s)
  | SVec s => HVec s (Shape_nested_ind s)
  | SStruct name fs =>
      HStruct name fs
        ((fix go fs : Forall (fun ns => P (snd ns)) fs :=
            match fs with
            | [] => Forall_nil_2 _
            | ns :: fs => Forall_cons_2 (fun ns => P (snd ns)) ns fs (Shape_nested_ind (snd ns)) (go fs)
            end) fs)
  end.
End Shape_induction.

Lemma has_shape_struct name fs v :
  has_shape (SStruct name fs) v = true ->
  exists vs, v = VStruct name vs /\ fields_shape fs vs = true.
Proof.
  destruct v as [| | | | | | | | | | |name' vs]; try done. cbn [has_shape].
  intros [Hn Hf]%andb_true_iff. bool_prop. subst. exists vs. split; [done|].
  exact Hf.
Qed.
