(* ===== verification/Encoder.v ===== *)
(** * Encoder: a frame to bytes

    [tansu-sans-io/src/ser.rs]: the serializer every request and response is
    written with.  It is told nothing but the api key and version (by its
    constructor for a response, by the header it writes for a request) and finds
    out what it is writing from the names serde gives it: a stack of containers,
    the field being written and its metadata, and a stack of lookups. *)

From S2P Require Export Serde.
Import Model Serde Varint.

Module Encoder.

Inductive Container :=
  | Struct (name : string) (len : nat)
  | StructVariant (name : string) (variant_index : nat) (variant : string) (len : nat).

Definition container_name (c : Container) : string :=
  match c with
  | Struct name _ => name
  | StructVariant name _ variant _ => (name +:+ "::" +:+ variant)%string
  end.

Abbreviation FieldLookup := (list (string * FieldMeta)).

Record Encoder := mk {
  working : bytes;
  containers : list Container;
  field : option string;
  ekind : option MessageKind;
  api_key : option Z;
  api_version : option Z;
  message : option MessageMeta;        (** meta.message *)
  meta_field : option FieldMeta;       (** meta.field *)
  parse : list FieldLookup;            (** meta.parse *)
}.

Definition put_slice (bs : bytes) (e : Encoder) : Encoder :=
  mk (working e ++ bs) (containers e) (field e) (ekind e) (api_key e) (api_version e)
    (message e) (meta_field e) (parse e).
Definition set_containers (c : list Container) (e : Encoder) : Encoder :=
  mk (working e) c (field e) (ekind e) (api_key e) (api_version e)
    (message e) (meta_field e) (parse e).
Definition set_field (f : option string) (e : Encoder) : Encoder :=
  mk (working e) (containers e) f (ekind e) (api_key e) (api_version e)
    (message e) (meta_field e) (parse e).
Definition set_api_key (k : Z) (e : Encoder) : Encoder :=
  mk (working e) (containers e) (field e) (ekind e) (Some k) (api_version e)
    (message e) (meta_field e) (parse e).
Definition set_api_version (v : Z) (e : Encoder) : Encoder :=
  mk (working e) (containers e) (field e) (ekind e) (api_key e) (Some v)
    (message e) (meta_field e) (parse e).
Definition set_message (m : MessageMeta) (e : Encoder) : Encoder :=
  mk (working e) (containers e) (field e) (ekind e) (api_key e) (api_version e)
    (Some m) (meta_field e) (parse e).
Definition set_meta_field (f : option FieldMeta) (e : Encoder) : Encoder :=
  mk (working e) (containers e) (field e) (ekind e) (api_key e) (api_version e)
    (message e) f (parse e).
Definition set_parse (p : list FieldLookup) (e : Encoder) : Encoder :=
  mk (working e) (containers e) (field e) (ekind e) (api_key e) (api_version e)
    (message e) (meta_field e) p.

Definition some_and {A} (o : option A) (p : A -> bool) : bool :=
  match o with Some a => p a | None => false end.

Definition is_field (o : option string) (name : string) : bool :=
  some_and o (fun f => bool_decide (f = name)).

Definition is_kind (o : option MessageKind) (k : MessageKind) : bool :=
  match o, k with
  | Some Request, Request | Some Response, Response => true
  | _, _ => false
  end.

(** ** What the encoder knows of where it is *)

Definition field_meta (e : Encoder) (name : string) : option FieldMeta :=
  match (match parse e with front :: _ => lookup_field front name | [] => None end) with
  | Some fm => Some fm
  | None => match message e with Some mm => lookup_field (mm_fields mm) name | None => None end
  end.

Definition field_name (e : Encoder) : string :=
  fold_left (fun acc c =>
    if bool_decide (acc = EmptyString) then container_name c
    else (container_name c +:+ "." +:+ acc)%string)
    (containers e) (default EmptyString (field e)).

Definition in_header (e : Encoder) : bool :=
  match containers e with
  | StructVariant name _ _ _ :: _ => bool_decide (name = "HeaderMezzanine"%string)
  | _ => false
  end.

Definition at_client_id (e : Encoder) : bool :=
  in_header e && is_kind (ekind e) Request && is_field (field e) "client_id".

Definition is_flexible (e : Encoder) : bool :=
  if in_header e
     && ((is_kind (ekind e) Request && is_field (field e) "client_id")
         || (is_kind (ekind e) Response && some_and (api_key e) (fun k => k =? 18)))
  then false
  else some_and (message e) (fun mm => some_and (api_version e) (Model.is_flexible mm)).

Definition is_nullable (e : Encoder) : bool :=
  some_and (api_version e) (fun v => some_and (meta_field e) (fun fm => Model.is_nullable fm v)).
Definition is_valid (e : Encoder) : bool :=
  some_and (api_version e) (fun v => some_and (meta_field e) (fun fm => within (version fm) v)).
Definition is_sequence (e : Encoder) : bool :=
  some_and (meta_field e) (fun fm => Model.is_sequence (kind fm)).
Definition is_structure (e : Encoder) : bool :=
  some_and (meta_field e) Model.is_structure.
Definition is_string (e : Encoder) : bool :=
  (in_header e && is_field (field e) "client_id")
  || some_and (meta_field e) (fun fm => Model.is_string (kind fm)).
Definition is_records (e : Encoder) : bool :=
  some_and (meta_field e) (fun fm => Model.is_records (kind fm)).

(** ** The serializer

    A serializable value is what it does to the encoder. *)

Definition Ser : Type := Encoder -> result Encoder.

Definition usize_to (t : ity) (n : nat) : result Z :=
  if in_ty t (Z.of_nat n) then Ok (Z.of_nat n) else Err TryFromInt.

Definition unsigned_varint (v : Z) : Encoder -> Encoder := put_slice (UnsignedVarInt_encode v).

Section Serializer.
(** [RootMessageMeta::messages()]. *)
Variable root : RootMessageMeta.

Definition serialize_bool (b : bool) : Encoder -> Encoder :=
  put_slice (put_int U8 (if b then 1 else 0)).

(** [serialize_i8], [serialize_i32] and the others that only write. *)
Definition serialize_int (t : ity) (v : Z) : Encoder -> Encoder := put_slice (put_int t v).

Definition in_request_header (e : Encoder) : bool :=
  match containers e with
  | StructVariant name _ variant _ :: _ =>
      bool_decide (name = "HeaderMezzanine"%string) && bool_decide (variant = "Request"%string)
  | _ => false
  end.

Definition serialize_i16 (v : Z) (e : Encoder) : Encoder :=
  let e :=
    if in_request_header e && is_field (field e) "api_key" then
      let e := set_api_key v e in
      match requests root !! v with
      | Some mm => set_parse (mm_fields mm :: parse e) (set_message mm e)
      | None => e
      end
    else if in_request_header e && is_field (field e) "api_version" then set_api_version v e
    else e in
  put_slice (put_int I16 v) e.

Definition serialize_str (v : bytes) : Ser := fun e =>
  if at_client_id e then
    let! len := usize_to I16 (length v) in
    Ok (put_slice v (serialize_i16 len e))
  else if is_valid e then
    let! e :=
      (if is_flexible e then
         let! len := usize_to U32 (length v + 1) in Ok (unsigned_varint len e)
       else
         let! len := usize_to I16 (length v) in Ok (serialize_i16 len e)) in
    Ok (put_slice v e)
  else Ok e.

Definition serialize_bytes (v : bytes) : Ser := fun e =>
  if is_valid e then
    let! e :=
      (if is_flexible e then
         let! len := usize_to U32 (length v + 1) in Ok (unsigned_varint len e)
       else
         let! len := usize_to U32 (length v) in Ok (serialize_int U32 len e)) in
    Ok (put_slice v e)
  else Ok e.

Definition serialize_none : Ser := fun e =>
  if at_client_id e then Ok (serialize_i16 (-1) e)
  else if is_valid e && is_records e then
    Ok (if is_flexible e then unsigned_varint 1 e else serialize_int I32 0 e)
  else if is_valid e && is_nullable e then
    if is_structure e && negb (is_sequence e) then Ok (serialize_int I8 (-1) e)
    else if is_flexible e then Ok (unsigned_varint 0 e)
    else if is_sequence e then Ok (serialize_int I32 (-1) e)
    else if is_string e then Ok (serialize_i16 (-1) e)
    else Ok e
  else if is_valid e then Err (OmittedNonNullableField (field_name e) (api_version e))
  else Ok e.

(** [records] is what the value writes through a [RecordBatchEncoder]. *)
Definition serialize_some (records : result bytes) (value : Ser) : Ser := fun e =>
  if is_field (field e) "tag_buffer" && negb (is_flexible e) then Ok e
  else if is_records e then
    let! records := records in
    let! length := usize_to U32 (length records) in
    let! e :=
      (if is_flexible e then
         if length + 1 <? 2 ^ 32 then Ok (unsigned_varint (length + 1) e)
         else Panic ArithmeticOverflow
       else Ok (serialize_int U32 length e)) in
    Ok (put_slice records e)
  else
    value (if is_valid e && is_nullable e && is_structure e && negb (is_sequence e)
           then serialize_int I8 1 e else e).

(** The elements of a sequence or a tuple, one after the other. *)
Fixpoint serialize_elements (l : list Ser) : Ser := fun e =>
  match l with
  | [] => Ok e
  | s :: l => let! e := s e in serialize_elements l e
  end.

(** [serialize_seq], of [len] elements when the sequence announces a length. *)
Definition serialize_seq (len : option nat) (l : list Ser) : Ser := fun e =>
  let! e :=
    match len with
    | Some len =>
        if is_valid e then
          if is_flexible e then
            let! l := usize_to U32 (len + 1) in Ok (unsigned_varint l e)
          else
            let! l := usize_to I32 len in Ok (serialize_int I32 l e)
        else Ok e
    | None => Ok e
    end in
  serialize_elements l e.

(** [SerializeStruct::serialize_field]. *)
Definition serialize_field (key : string) (value : Ser) : Ser := fun e =>
  let e := set_field (Some key) e in
  match field_meta e key with
  | Some fm =>
      let e := set_parse (fields fm :: parse e) (set_meta_field (Some fm) e) in
      let! e := (if is_valid e then value e else Ok e) in
      Ok (set_meta_field None (set_parse (tail (parse e)) e))
  | None =>
      let e := set_parse ([] :: parse e) (set_meta_field None e) in
      let! e := value e in
      Ok (set_parse (tail (parse e)) e)
  end.

(** [SerializeStructVariant::serialize_field]. *)
Definition serialize_variant_field (key : string) (value : Ser) : Ser := fun e =>
  let e := set_field (Some key) e in
  match field_meta e key with
  | Some fm =>
      if some_and (api_version e) (within (version fm)) then
        let e := set_parse (fields fm :: parse e) (set_meta_field (Some fm) e) in
        let! e := value e in
        Ok (set_meta_field None (set_parse (tail (parse e)) e))
      else Ok e
  | None =>
      let e := set_parse ([] :: parse e) (set_meta_field None e) in
      let! e := value e in
      Ok (set_parse (tail (parse e)) e)
  end.

Fixpoint serialize_fields (step : string -> Ser -> Ser) (l : list (string * Ser)) : Ser := fun e =>
  match l with
  | [] => Ok e
  | (key, value) :: l => let! e := step key value e in serialize_fields step l e
  end.

Definition pop_container (e : Encoder) : Encoder := set_containers (tail (containers e)) e.

(** [serialize_struct], its fields, and [end]. *)
Definition serialize_struct (name : string) (l : list (string * Ser)) : Ser := fun e =>
  let e := set_containers (Struct name (length l) :: containers e) e in
  let e :=
    match field_meta e name with
    | Some fm => set_parse (fields fm :: parse e) (set_meta_field (Some fm) e)
    | None => e
    end in
  let! e := serialize_fields serialize_field l e in
  Ok (pop_container e).

Definition serialize_struct_variant (name : string) (variant_index : nat) (variant : string)
    (l : list (string * Ser)) : Ser := fun e =>
  let e := set_containers (StructVariant name variant_index variant (length l) :: containers e) e in
  let! e := serialize_fields serialize_variant_field l e in
  Ok (pop_container e).

(** [RecordBatchEncoder]: the batches one after the other, without lengths. *)
Definition record_batch_encode (v : Value) : result bytes :=
  match v with
  | VRecords batches => Ok (flat_map Deflated.to_bytes batches)
  | _ => Err (UnexpectedType EmptyString)
  end.

(** The fields of a batch, in order, as the derived implementation has them. *)
Definition batch_fields (b : Deflated.Batch) : list (string * Ser) :=
  [("base_offset", fun e => Ok (serialize_int I64 (Deflated.base_offset b) e));
   ("batch_length", fun e => Ok (serialize_int I32 (Deflated.batch_length b) e));
   ("partition_leader_epoch", fun e => Ok (serialize_int I32 (Deflated.partition_leader_epoch b) e));
   ("magic", fun e => Ok (serialize_int I8 (Deflated.magic b) e));
   ("crc", fun e => Ok (serialize_int U32 (Deflated.crc b) e));
   ("attributes", fun e => Ok (serialize_i16 (Deflated.attributes b) e));
   ("last_offset_delta", fun e => Ok (serialize_int I32 (Deflated.last_offset_delta b) e));
   ("base_timestamp", fun e => Ok (serialize_int I64 (Deflated.base_timestamp b) e));
   ("max_timestamp", fun e => Ok (serialize_int I64 (Deflated.max_timestamp b) e));
   ("producer_id", fun e => Ok (serialize_int I64 (Deflated.producer_id b) e));
   ("producer_epoch", fun e => Ok (serialize_i16 (Deflated.producer_epoch b) e));
   ("base_sequence", fun e => Ok (serialize_int I32 (Deflated.base_sequence b) e));
   ("record_count", fun e => Ok (serialize_int U32 (Deflated.record_count b) e));
   ("record_data", serialize_bytes (Deflated.record_data b))]%string.

(** The derived [Serialize] of a generated structure, and the implementations
    for the types its fields have. *)
Fixpoint serialize (v : Value) : Ser :=
  match v with
  | VBool b => fun e => Ok (serialize_bool b e)
  | VInt I16 z => fun e => Ok (serialize_i16 z e)
  | VInt t z => fun e => Ok (serialize_int t z e)
  | VF64 bits => fun e => Ok (serialize_int U64 bits e)
  | VString s => serialize_str s
  | VBytes b => serialize_bytes b
  | VUuid b => fun e => Ok (put_slice b e)
  | VRecords batches =>
      serialize_struct "Frame"
        [("batches"%string,
          serialize_seq (Some (length batches))
            (map (fun b => serialize_struct "Batch" (batch_fields b)) batches))]
  | VTagBuffer tags => fun e => let! bs := TagBuffer_serialize tags in Ok (put_slice bs e)
  | VNone => serialize_none
  | VSome v => serialize_some (record_batch_encode v) (serialize v)
  | VVec l => serialize_seq (Some (length l)) (map serialize l)
  | VStruct name l => serialize_struct name (map (fun '(key, v) => (key, serialize v)) l)
  end.

(** ** Frames *)

(** [Header] of lib.rs. *)
Inductive Header :=
  | HRequest (api_key api_version correlation_id : Z) (client_id : option bytes)
  | HResponse (correlation_id : Z).

Definition option_value {A} (f : A -> Value) (o : option A) : Value :=
  match o with Some a => VSome (f a) | None => VNone end.

(** Through [HeaderMezzanine], with an empty tag buffer. *)
Definition serialize_header (h : Header) : Ser :=
  match h with
  | HRequest k v c id =>
      serialize_struct_variant "HeaderMezzanine" 0 "Request"
        [("api_key", serialize (VInt I16 k)); ("api_version", serialize (VInt I16 v));
         ("correlation_id", serialize (VInt I32 c));
         ("client_id", serialize (option_value VString id));
         ("tag_buffer", serialize (VSome (VTagBuffer [])))]%string
  | HResponse c =>
      serialize_struct_variant "HeaderMezzanine" 1 "Response"
        [("correlation_id", serialize (VInt I32 c));
         ("tag_buffer", serialize (VSome (VTagBuffer [])))]%string
  end.

(** [Frame], of a body in its mezzanine form. *)
Definition serialize_frame (h : Header) (body : Value) : Ser :=
  serialize_struct "Frame"
    [("size", serialize (VInt I32 0)); ("header", serialize_header h);
     ("body", serialize body)]%string.

Definition new_request : Encoder := mk [] [] None (Some Request) None None None None [].

Definition new_response (api_key api_version : Z) : Encoder :=
  match responses root !! api_key with
  | Some mm =>
      mk [] [] None (Some Response) (Some api_key) (Some api_version) (Some mm) None [mm_fields mm]
  | None => mk [] [] None (Some Response) (Some api_key) (Some api_version) None None []
  end.

Definition fix_length (encoded : bytes) : result bytes :=
  if (length encoded <? 4)%nat then Panic GetPastEnd
  else
    let encoded := drop 4 encoded in
    let! sz := usize_to I32 (length encoded) in
    Ok (put_int I32 sz ++ encoded).

(** [Frame::request] and [Frame::response]. *)
Definition request (h : Header) (body : Value) : result bytes :=
  let! e := serialize_frame h body new_request in fix_length (working e).

Definition response (h : Header) (body : Value) (api_key api_version : Z) : result bytes :=
  let! e := serialize_frame h body (new_response api_key api_version) in fix_length (working e).

End Serializer.
End Encoder.
