(* ===== verification/Decoder.v ===== *)
(** * Decoder: bytes to a frame

    [tansu-sans-io/src/de.rs]: the deserializer every request and response is
    read with.  Nothing on the wire says what a value is: serde asks for the
    fields of the type being built, and the decoder finds from their names, the
    api key and the version whether a field is there and how its length is
    written. *)

From S2P Require Export Encoder.
Import Model Serde Varint.

Module Decoder.

Definition MESSAGE_MAX_SIZE : Z := 1024 * 1024 * 1024.

Inductive Container :=
  | Struct (name : string)
  | Enum (name : string).

Definition container_name (c : Container) : string :=
  match c with Struct name | Enum name => name end.

Abbreviation FieldLookup := (list (string * FieldMeta)).

Record Decoder := mk {
  input : bytes;                       (** reader *)
  containers : list Container;
  field : option string;
  dkind : option MessageKind;
  api_key : option Z;
  api_version : option Z;
  message : option MessageMeta;        (** meta.message *)
  structures : option FieldLookup;     (** meta.structures *)
  meta_field : option FieldMeta;       (** meta.field *)
  parse : list FieldLookup;            (** meta.parse *)
  dlength : option Z;                  (** length *)
  in_seq_of_primitive : bool;
  in_records : bool;
}.

Definition set_input (i : bytes) (d : Decoder) : Decoder :=
  mk i (containers d) (field d) (dkind d) (api_key d) (api_version d) (message d) (structures d)
    (meta_field d) (parse d) (dlength d) (in_seq_of_primitive d) (in_records d).
Definition set_containers (c : list Container) (d : Decoder) : Decoder :=
  mk (input d) c (field d) (dkind d) (api_key d) (api_version d) (message d) (structures d)
    (meta_field d) (parse d) (dlength d) (in_seq_of_primitive d) (in_records d).
Definition set_field (f : option string) (d : Decoder) : Decoder :=
  mk (input d) (containers d) f (dkind d) (api_key d) (api_version d) (message d) (structures d)
    (meta_field d) (parse d) (dlength d) (in_seq_of_primitive d) (in_records d).
Definition set_api_key (k : Z) (d : Decoder) : Decoder :=
  mk (input d) (containers d) (field d) (dkind d) (Some k) (api_version d) (message d)
    (structures d) (meta_field d) (parse d) (dlength d) (in_seq_of_primitive d) (in_records d).
Definition set_api_version (v : Z) (d : Decoder) : Decoder :=
  mk (input d) (containers d) (field d) (dkind d) (api_key d) (Some v) (message d)
    (structures d) (meta_field d) (parse d) (dlength d) (in_seq_of_primitive d) (in_records d).
Definition set_message (m : MessageMeta) (d : Decoder) : Decoder :=
  mk (input d) (containers d) (field d) (dkind d) (api_key d) (api_version d) (Some m)
    (Some (message_structures m)) (meta_field d) (parse d) (dlength d) (in_seq_of_primitive d)
    (in_records d).
Definition set_meta_field (f : option FieldMeta) (d : Decoder) : Decoder :=
  mk (input d) (containers d) (field d) (dkind d) (api_key d) (api_version d) (message d)
    (structures d) f (parse d) (dlength d) (in_seq_of_primitive d) (in_records d).
Definition set_parse (p : list FieldLookup) (d : Decoder) : Decoder :=
  mk (input d) (containers d) (field d) (dkind d) (api_key d) (api_version d) (message d)
    (structures d) (meta_field d) p (dlength d) (in_seq_of_primitive d) (in_records d).
Definition set_length (l : option Z) (d : Decoder) : Decoder :=
  mk (input d) (containers d) (field d) (dkind d) (api_key d) (api_version d) (message d)
    (structures d) (meta_field d) (parse d) l (in_seq_of_primitive d) (in_records d).
Definition set_in_seq (b : bool) (d : Decoder) : Decoder :=
  mk (input d) (containers d) (field d) (dkind d) (api_key d) (api_version d) (message d)
    (structures d) (meta_field d) (parse d) (dlength d) b (in_records d).
Definition set_in_records (b : bool) (d : Decoder) : Decoder :=
  mk (input d) (containers d) (field d) (dkind d) (api_key d) (api_version d) (message d)
    (structures d) (meta_field d) (parse d) (dlength d) (in_seq_of_primitive d) b.

(** ** What the decoder knows of where it is *)

Abbreviation some_and := Encoder.some_and.
Abbreviation is_field := Encoder.is_field.
Abbreviation is_kind := Encoder.is_kind.

Definition in_header (d : Decoder) : bool :=
  match containers d with
  | c :: _ => bool_decide (container_name c = "HeaderMezzanine"%string)
  | [] => false
  end.

Definition is_flexible (d : Decoder) : bool :=
  if in_header d
     && ((is_kind (dkind d) Request && is_field (field d) "client_id")
         || (is_kind (dkind d) Response && some_and (api_key d) (fun k => k =? 18)))
  then false
  else some_and (message d) (fun mm => some_and (api_version d) (Model.is_flexible mm)).

(** Unlike the encoder's, true of a field without metadata. *)
Definition is_valid (d : Decoder) : bool :=
  match api_version d, meta_field d with
  | Some v, Some fm => within (version fm) v
  | _, _ => true
  end.
Definition is_nullable (d : Decoder) : bool :=
  some_and (api_version d) (fun v => some_and (meta_field d) (fun fm => Model.is_nullable fm v)).
Definition is_sequence (d : Decoder) : bool :=
  some_and (meta_field d) (fun fm => Model.is_sequence (kind fm)).
Definition is_structure (d : Decoder) : bool := some_and (meta_field d) Model.is_structure.
Definition is_records (d : Decoder) : bool :=
  some_and (meta_field d) (fun fm => Model.is_records (kind fm)).
Definition is_string (d : Decoder) : bool :=
  (in_header d && is_field (field d) "client_id")
  || some_and (meta_field d) (fun fm => Model.is_string (kind fm)).

(** The kind of the elements of the field being read. *)
Definition sequence_of (p : string -> bool) (d : Decoder) : bool :=
  some_and (meta_field d) (fun fm => some_and (kind_of_sequence (kind fm)) p).

(** ** Reading *)

Definition De (A : Type) : Type := Decoder -> result (A * Decoder).

Definition dret {A} (a : A) : De A := fun d => Ok (a, d).
Definition dfail {A} (e : error) : De A := fun _ => Err e.
Definition dbind {A B} (m : De A) (f : A -> De B) : De B :=
  fun d => let! (a, d) := m d in f a d.
Definition dset (f : Decoder -> Decoder) : De unit := fun d => Ok (tt, f d).

(** A read from the underlying reader. *)
Definition run {A} (r : reader A) : De A :=
  fun d => let! (a, rest) := r (input d) in Ok (a, set_input rest d).

Definition read_exact (n : Z) : De bytes := run (take_n Io (Z.to_nat n)).

(** [unsigned_varint]. *)
Definition varint : reader Z :=
  fun bs => match decode_loop 32 0 0 bs with Err TryGet => Err Io | r => r end.
Definition unsigned_varint : De Z := run varint.

Definition checked_pred (n : Z) : result Z := if n =? 0 then Err Overflow else Ok (n - 1).

(** [length.try_into::<usize>()] of a signed length. *)
Definition to_usize (n : Z) : result Z := if n <? 0 then Err TryFromInt else Ok n.

Definition lift {A} (r : result A) : De A := fun d => let! a := r in Ok (a, d).

End Decoder.

Notation "'de!' x := m 'in' k" := (Decoder.dbind m (fun x => k))
  (at level 200, x pattern, m at level 100, k at level 200,
   format "'[v' 'de!'  x  :=  m  'in' '/' k ']'") : kodansu_scope.

Module Deserializer.
Import Decoder.

Section Deserializer.
(** [RootMessageMeta::messages()], and the body types generated, by name. *)
Variable root : RootMessageMeta.
Variable bodies : list (string * Shape).

Definition read_mandatory_non_nullable_length : De unit := fun d =>
  let nullable := is_nullable d && negb (in_seq_of_primitive d) in
  if in_header d || nullable || negb (is_valid d) then Ok (tt, d)
  else
    (de! length :=
       (if is_flexible d then de! n := unsigned_varint in lift (checked_pred n)
        else if is_string d || (in_seq_of_primitive d && sequence_of Model.is_string d)
        then de! n := run (get_int Io I16) in lift (to_usize n)
        else de! n := run (get_int Io I32) in lift (to_usize n)) in
     dset (set_length (Some length))) d.

(** [Container::Struct] only. *)
Definition in_header_struct (d : Decoder) : bool :=
  match containers d with
  | Struct name :: _ => bool_decide (name = "HeaderMezzanine"%string)
  | _ => false
  end.

Definition deserialize_i16 : De Z :=
  de! v := run (get_int Io I16) in
  fun d =>
    let d :=
      if in_header_struct d && is_field (field d) "api_key" then
        let d := set_api_key v d in
        match requests root !! v with
        | Some mm => set_parse (mm_fields mm :: parse d) (set_message mm d)
        | None => d
        end
      else if in_header_struct d && is_field (field d) "api_version" then set_api_version v d
      else d in
    Ok (v, d).

Definition deserialize_string : De bytes := fun d =>
  let! (_, d) :=
    match dlength d with
    | None => read_mandatory_non_nullable_length d
    | Some _ => Ok (tt, d)
    end in
  match dlength d with
  | Some length =>
      (if MESSAGE_MAX_SIZE <? length then dfail (MessageMaxSizeExceeded length)
       else
       de! buf := read_exact length in
       if utf8_valid buf then dret buf else dfail Utf8) (set_length None d)
  | None => Err StringWithoutLength
  end.

Definition deserialize_byte_buf : De bytes := fun d =>
  (de! length :=
     (if is_flexible d then de! n := unsigned_varint in lift (checked_pred n)
      else run (get_int Io U32)) in
   if MESSAGE_MAX_SIZE <? length then dfail (MessageMaxSizeExceeded length)
   else read_exact length) d.

Definition visit_none : De Value := dret VNone.
Definition visit_some (value : De Value) : De Value := de! v := value in dret (VSome v).

(** The two ways a sequence or a string announces that it is absent. *)
Definition compact_option (value : De Value) : De Value :=
  de! length := unsigned_varint in
  if length =? 0 then de! _ := dset (set_length None) in visit_none
  else de! _ := dset (set_length (Some (length - 1))) in visit_some value.

Definition fixed_option (t : ity) (value : De Value) : De Value :=
  de! length := run (get_int Io t) in
  if length =? -1 then de! _ := dset (set_length None) in visit_none
  else de! n := lift (to_usize length) in
       de! _ := dset (set_length (Some n)) in visit_some value.

Definition deserialize_option (value : De Value) : De Value := fun d =>
  if is_valid d then
    if is_field (field d) "tag_buffer" then
      if is_flexible d then visit_some value (set_length None d) else visit_none d
    else if is_records d then
      (de! length :=
         (if is_flexible d then de! n := unsigned_varint in lift (checked_pred n)
          else run (get_int Io U32)) in
       if length =? 0 then visit_none
       else de! _ := dset (fun d => set_in_records true (set_length (Some length) d)) in
            visit_some value) d
    else if is_sequence d then
      (if is_flexible d then compact_option value else fixed_option I32 value) d
    else if is_string d then
      (if is_flexible d then compact_option value else fixed_option I16 value) d
    else if is_nullable d && is_structure d then
      (de! presence := run (get_int Io I8) in
       if presence <? 0 then visit_none
       else de! _ := dset (set_length None) in visit_some value) d
    else visit_some value (set_length None d)
  else visit_none (set_length None d).

(** [Seq] with a length, driven by a visitor that reads to the end. *)
Fixpoint read_elements (n : nat) (value : De Value) : De (list Value) :=
  match n with
  | O => dret []
  | S n => de! v := value in de! l := read_elements n value in dret (v :: l)
  end.

(** [Seq] without a length never ends: a visitor that reads to the end gets the
    first element's error.  Elements that take no bytes are read for ever; the
    fuel is one more than the bytes left, so running out of it means that. *)
Fixpoint read_unbounded (fuel : nat) (value : De Value) : De (list Value) :=
  match fuel with
  | O => fun _ => Panic OutOfFuel
  | S fuel => de! _ := value in read_unbounded fuel value
  end.

Definition read_seq (length : option Z) (value : De Value) : De (list Value) := fun d =>
  match length with
  | Some n => read_elements (Z.to_nat n) value d
  | None => read_unbounded (S (List.length (input d))) value d
  end.

(** [deserialize_seq] for a [Vec]; [in_records] is only ever set for the batches
    of a record field, read by [deserialize_batches]. *)
Definition deserialize_seq (value : De Value) : De Value := fun d =>
  let length := dlength d in
  let d := set_length None (set_in_seq (sequence_of is_primitive d) d) in
  if in_records d && match length with Some _ => true | None => false end
  then Err (UnexpectedType EmptyString)
  else (de! l := read_seq length value in
        de! _ := dset (set_in_seq false) in dret (VVec l)) d.

(** [TagBuffer]'s visitor on a sequence without a length; one with a length ends
    after it. *)
Definition deserialize_tag_buffer : De Value := fun d =>
  match dlength d with
  | None =>
      (de! tags := run TagBuffer_deserialize in
       de! _ := dset (set_in_seq false) in dret (VTagBuffer tags)) d
  | Some n =>
      if in_records d || (n =? 0) then Err (custom "tag")
      else
        (de! number := run UnsignedVarInt_deserialize in
         if MAXIMUM_TAGGED_FIELDS <? number then dfail (custom "maximum tagged fields exceeded")
         else
         de! tags := run (read_n (Z.to_nat (Z.min number (n - 1))) TagField_deserialize) in
         if n - 1 <? number then dfail (custom "tagged field")
         else de! _ := dset (set_in_seq false) in dret (VTagBuffer tags)) (set_length None d)
  end.

(** The [SeqAccess] of a record field: [Batch::next_element_seed] until nothing
    remains.  [batch_length as usize] of a negative length is past what a buffer
    can hold. *)
Fixpoint read_batches (fuel : nat) (encoded : bytes) : result (list Deflated.Batch) :=
  match encoded with
  | [] => Ok []
  | _ =>
      match fuel with
      | O => Panic OutOfFuel
      | S fuel =>
          let! (base_offset, encoded) := get_int TryGet I64 encoded in
          let! (batch_length, encoded) := get_int TryGet I32 encoded in
          if batch_length <? 0 then Panic CapacityOverflow
          else if Z.of_nat (length encoded) <? batch_length then Err Overflow
          else
            let batch :=
              put_int I64 base_offset ++ put_int I32 batch_length
              ++ take (Z.to_nat batch_length) encoded in
            match Deflated.try_from batch with
            | Ok b =>
                let! l := read_batches fuel (drop (Z.to_nat batch_length) encoded) in
                Ok (b :: l)
            | Err _ => Err (custom "batch")
            | Panic p => Panic p
            end
      end
  end.

(** A batch outside a record field is read as bytes. *)
Definition deserialize_batch : De Value :=
  de! buf := deserialize_byte_buf in
  match Deflated.try_from buf with
  | Ok b => dret (VRecords [b])
  | Err _ => dfail (custom "batch")
  | Panic p => fun _ => Panic p
  end.

Definition deserialize_batches : De Value := fun d =>
  let length := dlength d in
  let d := set_length None (set_in_seq (sequence_of is_primitive d) d) in
  match length, in_records d with
  | Some size_in_bytes, true =>
      (if MESSAGE_MAX_SIZE <? size_in_bytes then dfail (MessageMaxSizeExceeded size_in_bytes)
       else
       de! buf := read_exact size_in_bytes in
       de! batches := lift (read_batches (S (List.length buf)) buf) in
       de! _ := dset (fun d => set_in_records false (set_in_seq false d)) in
       dret (VRecords batches)) d
  | _, _ =>
      (de! l := read_seq length deserialize_batch in
       de! _ := dset (set_in_seq false) in
       dret (VRecords (flat_map (fun v => match v with VRecords l => l | _ => [] end) l))) d
  end.

(** [Struct::next_element_seed] for each field. *)
Fixpoint read_fields (l : list (string * De Value)) : De (list (string * Value)) :=
  match l with
  | [] => dret []
  | (name, value) :: l =>
      de! v :=
        (fun d =>
           let d := set_field (Some name) d in
           let d := match parse d with
                    | fl :: _ => set_meta_field (lookup_field fl name) d
                    | [] => d
                    end in
           value d) in
      de! vs := read_fields l in
      dret ((name, v) :: vs)
  end.

Definition ends_with (s suffix : string) : bool :=
  (String.length suffix <=? String.length s)%nat
  && bool_decide (String.substring (String.length s - String.length suffix)
                    (String.length suffix) s = suffix).

Definition push_parse (fl : FieldLookup) (d : Decoder) : Decoder := set_parse (fl :: parse d) d.
Definition pop_parse (d : Decoder) : Decoder := set_parse (tail (parse d)) d.
Definition push_container (c : Container) (d : Decoder) : Decoder :=
  set_containers (c :: containers d) d.
Definition pop_container (d : Decoder) : Decoder := set_containers (tail (containers d)) d.

Definition deserialize_struct (name : string) (l : list (string * De Value))
    : De (list (string * Value)) := fun d =>
  let d := push_container (Struct name) d in
  (de! vs :=
     match message d with
     | Some mm =>
         match lookup_field (default [] (structures d)) name with
         | Some fm =>
             de! _ := dset (fun d => push_parse (fields fm) (set_meta_field (Some fm) d)) in
             de! vs := read_fields l in
             de! _ := dset (fun d => set_meta_field None (pop_parse d)) in
             dret vs
         | None =>
             if ends_with name "Request" || ends_with name "Response" then
               de! _ := dset (push_parse (mm_fields mm)) in
               de! vs := read_fields l in
               de! _ := dset pop_parse in
               dret vs
             else
               de! _ := dset (fun d => push_parse [] (set_meta_field None d)) in
               de! vs := read_fields l in
               de! _ := dset pop_parse in
               dret vs
         end
     | None => read_fields l
     end in
   de! _ := dset pop_container in dret vs) d.

(** The derived [Deserialize] of a generated structure, and the implementations
    for the types its fields have. *)
Fixpoint deserialize (s : Shape) : De Value :=
  match s with
  | SBool => de! b := run (get_int Io U8) in dret (VBool (negb (b =? 0)))
  | SInt I16 => de! z := deserialize_i16 in dret (VInt I16 z)
  | SInt t => de! z := run (get_int Io t) in dret (VInt t z)
  | SF64 => de! z := run (get_int Io U64) in dret (VF64 z)
  | SString => de! b := deserialize_string in dret (VString b)
  | SBytes => de! b := deserialize_byte_buf in dret (VBytes b)
  | SUuid => de! b := read_exact 16 in dret (VUuid b)
  | SRecords =>
      de! l := deserialize_struct "Frame" [("batches"%string, deserialize_batches)] in
      dret (match l with [(_, v)] => v | _ => VNone end)
  | STagBuffer => deserialize_tag_buffer
  | SOption s => deserialize_option (deserialize s)
  | SVec s => deserialize_seq (deserialize s)
  | SStruct name l =>
      de! vs := deserialize_struct name (map (fun '(n, s) => (n, deserialize s)) l) in
      dret (VStruct name vs)
  end.

(** ** Frames *)

Definition deserialize_identifier : De string := fun d =>
  match containers d, message d with
  | Enum name :: _, m =>
      if bool_decide (name = "HeaderMezzanine"%string) && is_kind (dkind d) Request
      then Ok ("Request"%string, d)
      else if bool_decide (name = "HeaderMezzanine"%string) && is_kind (dkind d) Response
      then Ok ("Response"%string, d)
      else
        match m with
        | Some mm =>
            if bool_decide (name = "Body"%string) then Ok (mm_name mm, d)
            else Err (UnexpectedType name)
        | None => Err UnknownContainer
        end
  | _, None => Err UnknownContainer
  | _, Some _ => Err (UnexpectedType EmptyString)
  end.

(** The derived enums: the variant's name, then its content. *)
Definition deserialize_enum (name : string) (variant : string -> De Value) : De Value := fun d =>
  (de! id := deserialize_identifier in
   de! v := variant id in
   de! _ := dset pop_container in dret v) (push_container (Enum name) d).

Definition deserialize_header : De Value :=
  deserialize_enum "HeaderMezzanine" (fun id =>
    if bool_decide (id = "Request"%string) then
      de! vs := deserialize_struct "HeaderMezzanine"
        [("api_key", deserialize (SInt I16)); ("api_version", deserialize (SInt I16));
         ("correlation_id", deserialize (SInt I32));
         ("client_id", deserialize (SOption SString));
         ("tag_buffer", deserialize (SOption STagBuffer))]%string in
      dret (VStruct "Request" vs)
    else if bool_decide (id = "Response"%string) then
      de! vs := deserialize_struct "HeaderMezzanine"
        [("correlation_id", deserialize (SInt I32));
         ("tag_buffer", deserialize (SOption STagBuffer))]%string in
      dret (VStruct "Response" vs)
    else dfail (custom "unknown variant")).

Fixpoint body_shape (l : list (string * Shape)) (name : string) : option Shape :=
  match l with
  | [] => None
  | (n, s) :: l => if bool_decide (name = n) then Some s else body_shape l name
  end.

Definition deserialize_body : De Value :=
  deserialize_enum "Body" (fun id =>
    match body_shape bodies id with
    | Some s => deserialize s
    | None => dfail (custom "unknown variant")
    end).

Record Frame := mkFrame { size : Z; header : Encoder.Header; body : Value }.

(** [Header::try_from(HeaderMezzanine)]. *)
Definition Header_try_from (v : Value) : result Encoder.Header :=
  match v with
  | VStruct _ [(_, VInt _ k); (_, VInt _ v); (_, VInt _ c); (_, id); _] =>
      match id with
      | VSome (VString s) => Ok (Encoder.HRequest k v c (Some s))
      | _ => Ok (Encoder.HRequest k v c None)
      end
  | VStruct _ [(_, VInt _ c); _] => Ok (Encoder.HResponse c)
  | _ => Err (custom "header")
  end.

Definition deserialize_frame : De Frame :=
  de! vs := deserialize_struct "Frame"
    [("size", deserialize (SInt I32)); ("header", deserialize_header);
     ("body", deserialize_body)]%string in
  match vs with
  | [(_, VInt _ size); (_, header); (_, body)] =>
      de! header := lift (Header_try_from header) in dret (mkFrame size header body)
  | _ => dfail (custom "frame")
  end.

Definition new_request (reader : bytes) : Decoder :=
  mk reader [] None (Some Request) None None None None None [] None false false.

Definition new_response (reader : bytes) (api_key api_version : Z) : Decoder :=
  match responses root !! api_key with
  | Some mm =>
      mk reader [] None (Some Response) (Some api_key) (Some api_version) (Some mm)
        (Some (message_structures mm)) None [mm_fields mm] None false false
  | None =>
      mk reader [] None (Some Response) (Some api_key) (Some api_version) None None None [] None
        false false
  end.

(** [Frame::request_from_bytes] and [Frame::response_from_bytes], with what they
    leave unread. *)
Definition request_from_bytes (encoded : bytes) : result (Frame * bytes) :=
  let! (frame, d) := deserialize_frame (new_request encoded) in Ok (frame, input d).

Definition response_from_bytes (encoded : bytes) (api_key api_version : Z)
    : result (Frame * bytes) :=
  let! (frame, d) := deserialize_frame (new_response encoded api_key api_version) in
  Ok (frame, input d).

End Deserializer.
End Deserializer.
