(* ===== verification/Grammar.v ===== *)
(** * Grammar: the message format, without the serializer

    What a structure of a message looks like at a version, as a function of its
    metadata alone: which fields are there, how a length is written (compact in a
    flexible version, fixed otherwise), how absence is written, and where the tag
    buffer goes.  The encoder and the decoder are compared with it.

    [fits] are the conditions on a message's metadata and generated type under
    which the two meet in the grammar; [Messages] checks them of the shipped
    descriptions. *)

From S2P Require Export Decoder.
Import Model Serde Varint.

#[export] Instance VersionRange_eq_dec : EqDecision VersionRange.
Proof. solve_decision. Defined.

Module Grammar.

(** ** Equality of metadata *)

Fixpoint FieldMeta_eqb (a b : FieldMeta) : bool :=
  bool_decide (version a = version b) && bool_decide (nullable a = nullable b)
  && bool_decide (kind a = kind b) && bool_decide (tag a = tag b)
  && bool_decide (tagged a = tagged b)
  && (fix go (l m : list (string * FieldMeta)) : bool :=
        match l, m with
        | [], [] => true
        | (n, a) :: l, (o, b) :: m => bool_decide (n = o) && FieldMeta_eqb a b && go l m
        | _, _ => false
        end) (fields a) (fields b).

Fixpoint lookups_eqb (l m : list (string * FieldMeta)) : bool :=
  match l, m with
  | [], [] => true
  | (n, a) :: l, (o, b) :: m => bool_decide (n = o) && FieldMeta_eqb a b && lookups_eqb l m
  | _, _ => false
  end.

(** ** Lengths *)

Definition tag_buffer : string := "tag_buffer".

Definition ok_of {A} (r : result A) : option A := match r with Ok a => Some a | _ => None end.

Definition compact (n : nat) : option bytes :=
  if in_u32 (Z.of_nat (n + 1)) then Some (UnsignedVarInt_encode (Z.of_nat (n + 1))) else None.
Definition fixed (t : ity) (n : nat) : option bytes :=
  if in_ty t (Z.of_nat n) then Some (put_int t (Z.of_nat n)) else None.

Fixpoint concat_opt (l : list (option bytes)) : option bytes :=
  match l with
  | [] => Some []
  | o :: l => a ← o; b ← concat_opt l; Some (a ++ b)
  end.

Definition prefixed (len : option bytes) (bs : bytes) : option bytes := a ← len; Some (a ++ bs).

Section Version.
Context (mm : MessageMeta) (v : Z).

Abbreviation flex := (Model.is_flexible mm v).

Definition length_of (t : ity) (n : nat) : option bytes := if flex then compact n else fixed t n.

(** ** Writing

    [None] is a value the format has no room for: absent where it may not be, or
    too long for its length. *)

Definition absent (fm : FieldMeta) : option bytes :=
  if is_records (kind fm) then
    Some (if flex then UnsignedVarInt_encode 1 else put_int I32 0)
  else if is_nullable fm v then
    if is_structure fm && negb (is_sequence (kind fm)) then Some (put_int I8 (-1))
    else if flex then Some (UnsignedVarInt_encode 0)
    else if is_sequence (kind fm) then Some (put_int I32 (-1))
    else if is_string (kind fm) then Some (put_int I16 (-1))
    else Some []
  else None.

Definition presence (fm : FieldMeta) : bytes :=
  if is_nullable fm v && is_structure fm && negb (is_sequence (kind fm)) then put_int I8 1 else [].

Definition write_records (l : list Deflated.Batch) : option bytes :=
  let bs := flat_map Deflated.to_bytes l in prefixed (length_of U32 (length bs)) bs.

Definition write_tags (v : Value) : option bytes :=
  if flex then
    match v with
    | VSome (VTagBuffer l) => ok_of (TagBuffer_serialize l)
    | _ => Some []
    end
  else Some [].

Fixpoint write (fm : FieldMeta) (val : Value) : option bytes :=
  match val with
  | VBool b => Some (put_int U8 (if b then 1 else 0))
  | VInt t z => Some (put_int t z)
  | VF64 z => Some (put_int U64 z)
  | VString s => prefixed (length_of I16 (length s)) s
  | VBytes b => prefixed (length_of U32 (length b)) b
  | VUuid b => Some b
  | VRecords _ => None
  | VTagBuffer l => ok_of (TagBuffer_serialize l)
  | VNone => absent fm
  | VSome w =>
      if is_records (kind fm) then
        match w with VRecords l => write_records l | _ => None end
      else bs ← write fm w; Some (presence fm ++ bs)
  | VVec l => bs ← concat_opt (map (write fm) l); prefixed (length_of I32 (length l)) bs
  | VStruct _ fs =>
      concat_opt (map (fun '(k, w) =>
        if bool_decide (k = tag_buffer) then write_tags w
        else
          match lookup_field (fields fm) k with
          | Some fm => if within (version fm) v then write fm w else Some []
          | None => None
          end) fs)
  end.

(** One field of a structure. *)
Definition write_field (fm : FieldMeta) (kw : string * Value) : option bytes :=
  let '(k, w) := kw in
  if bool_decide (k = tag_buffer) then write_tags w
  else
    match lookup_field (fields fm) k with
    | Some fm => if within (version fm) v then write fm w else Some []
    | None => None
    end.

(** ** What a reader sees

    Fields of other versions are absent, as is an empty record field; the tag
    buffer is there in flexible versions only. *)

Fixpoint visible (fm : FieldMeta) (val : Value) : Value :=
  match val with
  | VSome w =>
      match w with
      | VRecords [] => VNone
      | _ => VSome (visible fm w)
      end
  | VVec l => VVec (map (visible fm) l)
  | VStruct name fs =>
      VStruct name (map (fun '(k, w) =>
        (k, if bool_decide (k = tag_buffer) then (if flex then w else VNone)
            else
              match lookup_field (fields fm) k with
              | Some fm => if within (version fm) v then visible fm w else VNone
              | None => w
              end)) fs)
  | _ => val
  end.

Definition visible_field (fm : FieldMeta) (kw : string * Value) : string * Value :=
  let '(k, w) := kw in
  (k, if bool_decide (k = tag_buffer) then (if flex then w else VNone)
      else
        match lookup_field (fields fm) k with
        | Some fm => if within (version fm) v then visible fm w else VNone
        | None => w
        end).

(** ** What the decoder accepts of a value

    Nothing over [MESSAGE_MAX_SIZE], tag buffers within the decoder's limits and
    record batches of the current format that declare their own length. *)

Definition tag_sendable (f : TagField) : bool :=
  Z.of_nat (length (data f)) <=? MAXIMUM_TAGGED_FIELDS.

Definition tags_sendable (l : TagBuffer) : bool :=
  (Z.of_nat (length l) <=? MAXIMUM_TAGGED_FIELDS) && forallb tag_sendable l.

Definition batch_sendable (b : Deflated.Batch) : bool :=
  Deflated.typed b && Deflated.is_record_batch_v2 b && Deflated.declares_its_own_length b.

Definition sized (n : nat) : bool := Z.of_nat n <=? Decoder.MESSAGE_MAX_SIZE.

Fixpoint sendable (val : Value) : bool :=
  match val with
  | VString s => sized (length s)
  | VBytes b => sized (length b)
  | VRecords l => forallb batch_sendable l && sized (length (flat_map Deflated.to_bytes l))
  | VTagBuffer l => tags_sendable l
  | VSome w => sendable w
  | VVec l => forallb sendable l
  | VStruct _ fs =>
      forallb (fun '(k, w) =>
        sendable w && implb (bool_decide (k = tag_buffer))
                        match w with VSome _ => true | _ => false end) fs
  | _ => true
  end.

(** ** Types that fit their metadata *)

Definition element (s : Shape) : bool :=
  match s with
  | SBool | SInt _ | SF64 | SBytes | SUuid | SString | SStruct _ _ => true
  | _ => false
  end.

(** Read without metadata the same way as with it. *)
Definition bare (s : Shape) : bool :=
  match s with
  | SBool | SInt _ | SF64 | SBytes | SUuid => true
  | SString => flex
  | _ => false
  end.

Definition is_struct (s : Shape) : bool := match s with SStruct _ _ => true | _ => false end.

(** The elements are of a primitive kind exactly when they are not structures,
    strings of the kind of strings. *)
Definition elements_fit (fm : FieldMeta) (s : Shape) : bool :=
  match kind_of_sequence (kind fm) with
  | Some k =>
      element s && bool_decide (is_primitive k = negb (is_struct s))
      && match s with SString => is_string k | _ => true end
  | None => false
  end.

Definition is_option (s : Shape) : bool := match s with SOption _ => true | _ => false end.
Definition is_tags (s : Shape) : bool := match s with SOption STagBuffer => true | _ => false end.

Definition plain (fm : FieldMeta) : bool :=
  negb (is_sequence (kind fm)) && negb (is_string (kind fm)) && negb (is_records (kind fm))
  && negb (is_nullable fm v).

Definition unknown (l : list (string * FieldMeta)) (name : string) : bool :=
  match lookup_field l name with Some _ => false | None => true end.

Definition reserved : list string := ["HeaderMezzanine"; "Body"; "Frame"]%string.

(** The fields a structure of that name is decoded with agree with [fm]'s. *)
Definition resolves (fm : FieldMeta) (name : string) (fs : list (string * Shape)) : bool :=
  match lookup_field (message_structures mm) name with
  | Some found => lookups_eqb (fields found) (fields fm)
  | None =>
      negb (Deserializer.ends_with name "Request") && negb (Deserializer.ends_with name "Response")
      && forallb (fun '(n, s) => bool_decide (n = tag_buffer) || bare s) fs
  end.

Definition name_fits (fm : FieldMeta) (name : string) : bool :=
  unknown (fields fm) name && unknown (mm_fields mm) name && negb (bool_decide (name ∈ reserved)).

Fixpoint fits (fm : FieldMeta) (s : Shape) : bool :=
  match s with
  | SBool | SInt _ | SF64 | SBytes | SUuid => true
  | SString => is_string (kind fm) && negb (is_nullable fm v)
  | SStruct name fs =>
      name_fits fm name && resolves fm name fs
      && forallb (fun '(n, s) =>
           if bool_decide (n = tag_buffer)
           then is_tags s && unknown (fields fm) n && unknown (mm_fields mm) n
           else
             match lookup_field (fields fm) n with
             | Some fm => if within (version fm) v then fits fm s else is_option s
             | None => false
             end) fs
  | SOption w =>
      match w with
      | SRecords => is_records (kind fm)
      | SVec s => elements_fit fm s && implb (is_struct s) (fits fm s)
      | SString => is_string (kind fm) && negb (is_structure fm)
      | SStruct _ _ =>
          is_structure fm && negb (is_sequence (kind fm)) && negb (is_string (kind fm))
          && negb (is_records (kind fm)) && fits fm w
      | SBool | SInt _ | SF64 | SBytes | SUuid => plain fm
      | _ => false
      end
  | _ => false
  end.

Definition field_fits (fm : FieldMeta) (ns : string * Shape) : bool :=
  let '(n, s) := ns in
  if bool_decide (n = tag_buffer)
  then is_tags s && unknown (fields fm) n && unknown (mm_fields mm) n
  else
    match lookup_field (fields fm) n with
    | Some fm => if within (version fm) v then fits fm s else is_option s
    | None => false
    end.

(** The message itself, as a field that is always there. *)
Definition root_meta : FieldMeta :=
  mkFieldMeta (mkRange v v) None (mm_name mm) None None (mm_fields mm).

(** The names the header and the frame look up while the message is known. *)
Definition frame_names : list string :=
  ["size"; "header"; "body"; "api_key"; "api_version"; "correlation_id"; "client_id";
   "tag_buffer"; "Frame"; "HeaderMezzanine"]%string.

Definition message_fits (s : Shape) : bool :=
  match s with
  | SStruct name fs =>
      bool_decide (name = mm_name mm) && name_fits root_meta name
      && forallb (unknown (mm_fields mm)) frame_names
      && forallb (unknown (message_structures mm)) (name :: reserved)
      && (Deserializer.ends_with name "Request" || Deserializer.ends_with name "Response")
      && forallb (field_fits root_meta) fs
  | _ => false
  end.

(** ** Frames *)

Definition no_tags : bytes := UnsignedVarInt_encode 0.

Definition write_client_id (id : option bytes) : option bytes :=
  match id with
  | Some s => prefixed (fixed I16 (length s)) s
  | None => Some (put_int I16 (-1))
  end.

Definition request_header (k c : Z) (id : option bytes) : option bytes :=
  id ← write_client_id id;
  Some (put_int I16 k ++ put_int I16 v ++ put_int I32 c ++ id ++ (if flex then no_tags else [])).

(** The header of an [ApiVersions] response is not flexible: a client reads it
    before it knows what the broker speaks. *)
Definition response_header (k c : Z) : bytes :=
  put_int I32 c ++ (if flex && negb (k =? 18) then no_tags else []).

Definition sized_frame (bs : bytes) : option bytes := prefixed (fixed I32 (length bs)) bs.

Definition write_request (k c : Z) (id : option bytes) (body : Value) : option bytes :=
  h ← request_header k c id; b ← write root_meta body; sized_frame (h ++ b).

Definition write_response (k c : Z) (body : Value) : option bytes :=
  b ← write root_meta body; sized_frame (response_header k c ++ b).

End Version.
End Grammar.
