(* ===== verification/EncoderSpec.v ===== *)
(** * EncoderSpec: the encoder writes the grammar

    The stateful serializer of [Encoder], at any point of a message's body, adds
    to its buffer exactly what [Grammar.write] says of the value it is given and
    leaves its stacks as they were; where the grammar has no room for the value it
    refuses it. *)

From S2P Require Export Grammar.
Import Model Serde Varint Grammar Encoder.

Lemma lookup_unknown l name : unknown l name = true <-> lookup_field l name = None.
Proof. unfold unknown. by destruct (lookup_field l name). Qed.

Lemma rbind_not_ok {A B} (r : result A) (f : A -> result B) :
  is_ok r = false -> is_ok (rbind r f) = false.
Proof. by destruct r. Qed.

Section EncoderSpec.
Context (root : RootMessageMeta) (mm : MessageMeta) (v : Z).

Abbreviation flex := (Model.is_flexible mm v).

(** Inside a structure of the body of a message at a version. *)
Record in_body (e : Encoder) : Prop := {
  body_version : api_version e = Some v;
  body_message : message e = Some mm;
  body_struct : exists name len cs, containers e = Encoder.Struct name len :: cs;
}.

(** [e'] is [e] after [bs] has been written: only the current field and its
    metadata may differ. *)
Definition after (e : Encoder) (bs : bytes) (e' : Encoder) : Prop :=
  e' = mk (working e ++ bs) (containers e) (field e') (ekind e) (api_key e) (api_version e)
         (message e) (meta_field e') (parse e).

Definition writes (o : option bytes) (r : result Encoder) (e : Encoder) : Prop :=
  match o with
  | Some bs => exists e', r = Ok e' /\ after e bs e'
  | None => is_ok r = false
  end.

(** Without touching the current field. *)
Definition appends (o : option bytes) (r : result Encoder) (e : Encoder) : Prop :=
  match o with
  | Some bs => r = Ok (put_slice bs e)
  | None => is_ok r = false
  end.

Lemma after_put bs e : after e bs (put_slice bs e).
Proof. done. Qed.

Lemma after_nil e : after e [] e.
Proof. unfold after. rewrite app_nil_r. by destruct e. Qed.

Lemma after_trans e bs e' bs' e'' : after e bs e' -> after e' bs' e'' -> after e (bs ++ bs') e''.
Proof.
  unfold after. intros -> E. rewrite E. cbn. by rewrite <- app_assoc.
Qed.

Lemma after_body e bs e' : after e bs e' -> in_body e -> in_body e'.
Proof. intros -> []. by split. Qed.

Lemma after_parse e bs e' : after e bs e' -> parse e' = parse e.
Proof. by intros ->. Qed.

Lemma after_field_meta e bs e' name : after e bs e' -> field_meta e' name = field_meta e name.
Proof. by intros ->. Qed.

Lemma put_slice_app a b e : put_slice b (put_slice a e) = put_slice (a ++ b) e.
Proof. unfold put_slice. cbn. by rewrite app_assoc. Qed.

Lemma put_slice_nil e : put_slice [] e = e.
Proof. unfold put_slice. rewrite app_nil_r. by destruct e. Qed.

Lemma appends_writes o r e : appends o r e -> writes o r e.
Proof. destruct o as [bs|]; cbn; [intros ->; eauto using after_put|done]. Qed.

Lemma in_body_put bs e : in_body e -> in_body (put_slice bs e).
Proof. apply after_body with bs, after_put. Qed.

(** ** What the encoder sees in a body *)

Lemma body_header e : in_body e -> in_header e = false.
Proof. intros [_ _ (n & l & cs & H)]. unfold in_header. by rewrite H. Qed.

Lemma body_request_header e : in_body e -> in_request_header e = false.
Proof. intros [_ _ (n & l & cs & H)]. unfold in_request_header. by rewrite H. Qed.

Lemma body_client_id e : in_body e -> at_client_id e = false.
Proof. intros H. unfold at_client_id. by rewrite (body_header e H). Qed.

Lemma body_flexible e : in_body e -> is_flexible e = flex.
Proof.
  intros H. unfold is_flexible. rewrite (body_header e H), (body_message e H), (body_version e H).
  done.
Qed.

Lemma body_i16 e z : in_body e -> serialize_i16 root z e = put_slice (put_int I16 z) e.
Proof. intros H. unfold serialize_i16. by rewrite (body_request_header e H). Qed.

Section Field.
Context (e : Encoder) (fm : FieldMeta) (He : in_body e) (Hf : meta_field e = Some fm).

Lemma field_valid : is_valid e = within (version fm) v.
Proof. unfold is_valid. by rewrite (body_version e He), Hf. Qed.

Lemma field_nullable : is_nullable e = Model.is_nullable fm v.
Proof. unfold is_nullable. by rewrite (body_version e He), Hf. Qed.

Lemma field_sequence : is_sequence e = Model.is_sequence (kind fm).
Proof. unfold is_sequence. by rewrite Hf. Qed.

Lemma field_structure : is_structure e = Model.is_structure fm.
Proof. unfold is_structure. by rewrite Hf. Qed.

Lemma field_records : is_records e = Model.is_records (kind fm).
Proof. unfold is_records. by rewrite Hf. Qed.

Lemma field_string : is_string e = Model.is_string (kind fm).
Proof. unfold is_string. by rewrite (body_header e He), Hf. Qed.
End Field.

(** ** Lengths *)

Lemma usize_compact {B} n e (k : Encoder -> result B) :
  (let! len := usize_to U32 (n + 1) in k (unsigned_varint len e))
  = match compact n with Some bs => k (put_slice bs e) | None => Err TryFromInt end.
Proof.
  unfold usize_to, compact. change (in_ty U32 (Z.of_nat (n + 1))) with (in_u32 (Z.of_nat (n + 1))).
  by destruct (in_u32 _).
Qed.

Lemma usize_fixed {B} t n e (k : Encoder -> result B) :
  (let! len := usize_to t n in k (put_slice (put_int t len) e))
  = match fixed t n with Some bs => k (put_slice bs e) | None => Err TryFromInt end.
Proof. unfold usize_to, fixed. by destruct (in_ty t _). Qed.

(** A string, bytes or an array's length, in either encoding. *)
Lemma length_written t n bs e :
  appends (prefixed (length_of mm v t n) bs)
    (let! e :=
       (if flex then let! len := usize_to U32 (n + 1) in Ok (unsigned_varint len e)
        else let! len := usize_to t n in Ok (put_slice (put_int t len) e)) in
     Ok (put_slice bs e)) e.
Proof.
  unfold length_of, appends, prefixed. destruct flex.
  - rewrite (usize_compact n e Ok). destruct (compact n); cbn; [by rewrite put_slice_app|done].
  - rewrite (usize_fixed t n e Ok). destruct (fixed t n); cbn; [by rewrite put_slice_app|done].
Qed.

(** ** Scalars *)

Definition scalar (s : Shape) : bool :=
  match s with SBool | SInt _ | SF64 | SBytes | SUuid | SString => true | _ => false end.

Lemma scalar_written s fm val e :
  scalar s = true -> has_shape s val = true -> in_body e -> meta_field e = Some fm ->
  within (version fm) v = true ->
  appends (write mm v fm val) (serialize root val e) e.
Proof.
  intros Hs Hty He Hf Hv.
  assert (Hvalid : is_valid e = true) by (by rewrite (field_valid e fm He Hf)).
  destruct s, val as [| |? |str|b| | | | | | |]; try done; cbn [serialize write appends].
  - destruct t0; cbn [appends]; try done. by rewrite body_i16.
  - unfold serialize_str. rewrite body_client_id, Hvalid, body_flexible by done.
    pose proof (length_written I16 (length str) str e) as H.
    destruct flex eqn:Ef; [exact H|].
    unfold usize_to in *. destruct (in_ty I16 _); cbn in *; [by rewrite body_i16|done].
  - unfold serialize_bytes. rewrite Hvalid, body_flexible by done. apply length_written.
Qed.

(** ** Fields *)

Definition enter (key : string) (fm : option FieldMeta) (e : Encoder) : Encoder :=
  set_parse (from_option fields [] fm :: parse e) (set_meta_field fm (set_field (Some key) e)).

Lemma in_body_enter key fm e : in_body e -> in_body (enter key fm e).
Proof. intros []. by split. Qed.

(** What is written in the state a field is entered with is written by the field. *)
Lemma field_written key fm value o e :
  field_meta e key = fm ->
  writes o (if from_option (fun fm => some_and (api_version e) (within (version fm))) true fm
            then value (enter key fm e) else Ok (enter key fm e)) (enter key fm e) ->
  writes o (serialize_field key value e) e.
Proof.
  intros Hm H. unfold serialize_field.
  change (field_meta (set_field (Some key) e) key) with (field_meta e key).
  rewrite Hm. destruct fm as [fm|]; cbn [from_option] in H.
  - change (is_valid (set_parse _ (set_meta_field (Some fm) _)))
      with (some_and (api_version e) (within (version fm))).
    change (set_parse _ (set_meta_field (Some fm) _)) with (enter key (Some fm) e).
    destruct o as [bs|]; cbn [writes] in *.
    + destruct H as (e' & -> & Ha). cbn [rbind]. eexists. split; [done|].
      rewrite Ha. done.
    + by apply rbind_not_ok.
  - change (set_parse _ (set_meta_field None _)) with (enter key None e).
    destruct o as [bs|]; cbn [writes] in *.
    + destruct H as (e' & -> & Ha). cbn [rbind]. eexists. split; [done|]. rewrite Ha. done.
    + by apply rbind_not_ok.
Qed.

Lemma tags_written w e :
  in_body e -> field_meta e tag_buffer = None ->
  has_shape (SOption STagBuffer) w = true ->
  writes (write_tags mm v w) (serialize_field tag_buffer (serialize root w) e) e.
Proof.
  intros He Hm Hw. apply field_written with None; [done|]. cbn [from_option].
  assert (Hb := in_body_enter tag_buffer None e He). set (e1 := enter _ _ _) in *.
  unfold write_tags. rewrite <- (body_flexible e1 Hb).
  destruct w as [| | | | | | | | |w| |]; try done; cbn [serialize].
  - unfold serialize_none. rewrite body_client_id by done.
    assert (is_valid e1 = false) as -> by (unfold is_valid; by destruct (api_version e1)).
    cbn. destruct (is_flexible e1); exists e1; split; (done || apply after_nil).
  - destruct w as [| | | | | | |l| | | |]; try done. unfold serialize_some.
    change (is_field (field e1) "tag_buffer") with true.
    destruct (is_flexible e1) eqn:Ef; cbn [andb negb].
    + change (is_records e1) with false. cbn [andb].
      assert (is_valid e1 = false) as -> by (unfold is_valid; by destruct (api_version e1)).
      cbn [andb serialize]. apply appends_writes. unfold ok_of, appends.
      by destruct (TagBuffer_serialize l).
    + exists e1. split; [done|apply after_nil].
Qed.

(** ** Structures *)

(** A value of the shape is written as the grammar says, in a field whose
    metadata is [fm]; a structure needs only the lookups. *)
Definition conforms (s : Shape) : Prop := forall fm w e,
  in_body e -> (exists rest, parse e = fields fm :: rest) ->
  (is_struct s = false ->
     meta_field e = Some fm /\ within (version fm) v = true /\ is_field (field e) tag_buffer = false) ->
  fits mm v fm s = true -> has_shape s w = true ->
  writes (write mm v fm w) (serialize root w e) e.

Definition sees (fm : FieldMeta) (n : string) (e : Encoder) : Prop :=
  field_meta e n = lookup_field (fields fm) n.

Lemma fields_written fm fs vs e :
  Forall (fun ns => conforms (snd ns)) fs ->
  Forall (fun ns => sees fm (fst ns) e) fs ->
  in_body e -> forallb (field_fits mm v fm) fs = true -> fields_shape fs vs = true ->
  writes (concat_opt (map (write_field mm v fm) vs))
    (serialize_fields (serialize_field) (map (fun '(key, v) => (key, serialize root v)) vs) e) e.
Proof.
  intros HP. revert vs e. induction HP as [|[n s] fs Hs HP IH]; intros [|[n' w] vs] e Hsees He Hfits Hty;
    try done.
  { exists e. split; [done|apply after_nil]. }
  cbn [fields_shape forallb] in *. bool_prop. subst n'.
  inversion Hsees as [|? ? Hn Hsees']; subst. cbn [fst snd] in *.
  assert (Hhead : writes (write_field mm v fm (n, w)) (serialize_field n (serialize root w) e) e).
  { unfold write_field, field_fits in *. unfold sees in Hn. case_bool_decide as Htb.
    - subst n. bool_prop. apply tags_written; [done| |].
      + rewrite Hn. by apply lookup_unknown.
      + destruct s as [| | | | | | | |[] | |]; done.
    - destruct (lookup_field (fields fm) n) as [fm'|] eqn:El; [|done].
      apply field_written with (Some fm'); [done|]. cbn [from_option].
      rewrite (body_version e He). cbn [some_and].
      destruct (within (version fm') v) eqn:Ev.
      + apply Hs; [by apply in_body_enter|by eexists| |done|done].
        intros _. split_and!; [done|done|]. cbn. by case_bool_decide.
      + exists (enter n (Some fm') e). split; [done|apply after_nil]. }
  cbn [map concat_opt serialize_fields].
  destruct (write_field mm v fm (n, w)) as [bs|]; cbn [writes mbind option_bind] in *.
  - destruct Hhead as (e1 & -> & Ha). cbn [rbind].
    assert (Hrest : writes (concat_opt (map (write_field mm v fm) vs))
      (serialize_fields serialize_field (map (fun '(key, v) => (key, serialize root v)) vs) e1) e1).
    { apply IH; [|by eapply after_body|done|done].
      eapply Forall_impl; [exact Hsees'|]. intros ? E. unfold sees.
      by rewrite (after_field_meta _ _ _ _ Ha). }
    destruct (concat_opt _) as [bs'|]; cbn [writes mbind option_bind] in *; [|done].
    destruct Hrest as (e2 & -> & Ha'). eexists. split; [done|]. by eapply after_trans.
  - by apply rbind_not_ok.
Qed.

Lemma struct_written fm name fs w e :
  Forall (fun ns => conforms (snd ns)) fs ->
  Forall (fun ns => sees fm (fst ns) e) fs -> field_meta e name = None ->
  in_body e -> forallb (field_fits mm v fm) fs = true -> has_shape (SStruct name fs) w = true ->
  writes (write mm v fm w) (serialize root w e) e.
Proof.
  intros HP Hsees Hname He Hfits (vs & -> & Hty)%has_shape_struct.
  change (write mm v fm (VStruct name vs)) with (concat_opt (map (write_field mm v fm) vs)).
  cbn [serialize]. unfold serialize_struct.
  set (e1 := set_containers _ e). change (field_meta e1 name) with (field_meta e name).
  rewrite Hname.
  assert (He1 : in_body e1) by (destruct He; split; [done|done|by repeat eexists]).
  pose proof (fields_written fm fs vs e1 HP Hsees He1 Hfits Hty) as H.
  destruct (concat_opt _) as [bs|]; cbn [writes] in *.
  - destruct H as (e2 & -> & Ha). cbn [rbind]. eexists. split; [done|].
    unfold after in *. rewrite Ha. done.
  - by apply rbind_not_ok.
Qed.

(** ** Sequences *)

Lemma elements_appended (f : Value -> option bytes) l e :
  in_body e ->
  (forall e' w, w ∈ l -> in_body e' -> meta_field e' = meta_field e ->
     appends (f w) (serialize root w e') e') ->
  appends (concat_opt (map f l)) (serialize_elements (map (serialize root) l) e) e.
Proof.
  revert e. induction l as [|w l IH]; intros e He H.
  { cbn. by rewrite put_slice_nil. }
  pose proof (H e w (list_elem_of_here _ _) He eq_refl) as Hw.
  cbn [map concat_opt serialize_elements].
  destruct (f w) as [bs|]; cbn [appends mbind option_bind] in *; [|by apply rbind_not_ok].
  rewrite Hw. cbn [rbind].
  assert (Hl : appends (concat_opt (map f l))
    (serialize_elements (map (serialize root) l) (put_slice bs e)) (put_slice bs e)).
  { apply IH; [by apply in_body_put|]. intros. apply H; [by right|done|done]. }
  destruct (concat_opt _); cbn [appends mbind option_bind] in *; [|done].
  rewrite Hl. by rewrite put_slice_app.
Qed.

Lemma elements_written (f : Value -> option bytes) l e :
  in_body e ->
  (forall e' w, w ∈ l -> in_body e' -> parse e' = parse e -> writes (f w) (serialize root w e') e') ->
  writes (concat_opt (map f l)) (serialize_elements (map (serialize root) l) e) e.
Proof.
  revert e. induction l as [|w l IH]; intros e He H.
  { exists e. split; [done|apply after_nil]. }
  pose proof (H e w (list_elem_of_here _ _) He eq_refl) as Hw.
  cbn [map concat_opt serialize_elements].
  destruct (f w) as [bs|]; cbn [writes mbind option_bind] in *; [|by apply rbind_not_ok].
  destruct Hw as (e1 & -> & Ha). cbn [rbind].
  assert (Hl : writes (concat_opt (map f l)) (serialize_elements (map (serialize root) l) e1) e1).
  { apply IH; [by eapply after_body|]. intros. apply H; [by right|done|].
    by rewrite <- (after_parse _ _ _ Ha). }
  destruct (concat_opt _); cbn [writes mbind option_bind] in *; [|done].
  destruct Hl as (e2 & -> & Ha'). eexists. split; [done|]. by eapply after_trans.
Qed.

Lemma elements_conform s fm l e :
  conforms s -> element s = true -> implb (is_struct s) (fits mm v fm s) = true -> forallb (has_shape s) l = true ->
  in_body e -> (exists rest, parse e = fields fm :: rest) -> meta_field e = Some fm ->
  within (version fm) v = true ->
  writes (concat_opt (map (write mm v fm) l)) (serialize_elements (map (serialize root) l) e) e.
Proof.
  intros Hs Hel Hfits Hty He [rest Hp] Hf Hv.
  assert (Hty' : forall w, w ∈ l -> has_shape s w = true).
  { intros w Hw. rewrite forallb_forall in Hty. by apply Hty, list_elem_of_In. }
  destruct (is_struct s) eqn:Est.
  - apply elements_written; [done|]. intros e' w Hw He' Hp'.
    apply Hs; [done|exists rest; by rewrite Hp'|by rewrite Est|done|by apply Hty'].
  - apply appends_writes, elements_appended; [done|]. intros e' w Hw He' Hf'.
    apply scalar_written with s; [by destruct s|by apply Hty'|done|by rewrite Hf'|done].
Qed.

Lemma vec_written s fm w e :
  conforms s -> element s = true -> implb (is_struct s) (fits mm v fm s) = true -> has_shape (SVec s) w = true ->
  in_body e -> (exists rest, parse e = fields fm :: rest) -> meta_field e = Some fm ->
  within (version fm) v = true ->
  writes (write mm v fm w) (serialize root w e) e.
Proof.
  intros Hs Hel Hfits Hty He Hp Hf Hv. destruct w as [| | | | | | | | | |l|]; try done.
  cbn [write serialize]. unfold serialize_seq.
  assert (is_valid e = true) as -> by (by rewrite (field_valid e fm He Hf)).
  rewrite body_flexible by done.
  set (r := if flex then _ else _).
  assert (Hr : match length_of mm v I32 (length l) with
               | Some bs => r = Ok (put_slice bs e) | None => r = Err TryFromInt end).
  { unfold r, length_of. destruct flex.
    - rewrite (usize_compact (length l) e Ok). by destruct (compact _).
    - change (serialize_int I32) with (fun z => put_slice (put_int I32 z)). cbn beta.
      rewrite (usize_fixed I32 (length l) e Ok). by destruct (fixed _ _). }
  destruct (length_of mm v I32 (length l)) as [n|]; rewrite Hr; cbn [rbind].
  - assert (Hl := elements_conform s fm l (put_slice n e) Hs Hel Hfits Hty
                    (in_body_put _ _ He) Hp Hf Hv).
    destruct (concat_opt _) as [bs|]; cbn [writes mbind option_bind prefixed] in *; [|done].
    destruct Hl as (e2 & -> & Ha). exists e2. split; [done|].
    eapply after_trans; [apply after_put|done].
  - by destruct (concat_opt _).
Qed.

(** ** Options *)

Lemma none_written fm e :
  in_body e -> meta_field e = Some fm -> within (version fm) v = true ->
  appends (absent mm v fm) (serialize_none root e) e.
Proof.
  intros He Hf Hv. unfold serialize_none, absent.
  rewrite body_client_id, (field_valid e fm), Hv, (field_records e fm), (field_nullable e fm),
    (field_structure e fm), (field_sequence e fm), (field_string e fm), body_flexible by done.
  cbn [andb]. repeat case_match; cbn; try done.
  - by rewrite body_i16.
  - by rewrite put_slice_nil.
Qed.

Lemma records_written l e :
  in_body e ->
  appends (write_records mm v l)
    (let! records := record_batch_encode (VRecords l) in
     let! length := usize_to U32 (length records) in
     let! e :=
       (if flex then
          if length + 1 <? 2 ^ 32 then Ok (unsigned_varint (length + 1) e)
          else Panic ArithmeticOverflow
        else Ok (serialize_int U32 length e)) in
     Ok (put_slice records e)) e.
Proof.
  intros He. cbn [record_batch_encode rbind]. unfold write_records.
  set (bs := flat_map _ l). unfold length_of, compact, fixed, usize_to, prefixed.
  change (in_ty U32) with (in_u32). unfold u_range. destruct flex.
  - destruct (Z.ltb_spec (Z.of_nat (length bs)) (2 ^ 32)); cbn [rbind andb].
    + rewrite (proj2 (Z.leb_le 0 (Z.of_nat (length bs)))) by lia. cbn [rbind andb].
      replace (Z.of_nat (length bs + 1)) with (Z.of_nat (length bs) + 1) by lia.
      rewrite (proj2 (Z.leb_le 0 (Z.of_nat (length bs) + 1))) by lia. cbn [andb].
      destruct (_ <? _); cbn [appends rbind mbind option_bind]; [|done].
      unfold unsigned_varint. by rewrite put_slice_app.
    + rewrite andb_false_r. rewrite (proj2 (Z.ltb_ge (Z.of_nat (length bs + 1)) (2 ^ 32))) by lia.
      by rewrite andb_false_r.
  - destruct (_ && _); cbn [appends rbind mbind option_bind]; [|done].
    unfold serialize_int. by rewrite put_slice_app.
Qed.

Lemma some_written fm w e :
  in_body e -> meta_field e = Some fm -> within (version fm) v = true ->
  is_field (field e) tag_buffer = false -> Model.is_records (kind fm) = false ->
  writes (write mm v fm w)
    (serialize root w (put_slice (presence v fm) e)) (put_slice (presence v fm) e) ->
  writes (write mm v fm (VSome w)) (serialize root (VSome w) e) e.
Proof.
  intros He Hf Hv Hfield Hrec H. cbn [write serialize]. unfold serialize_some.
  change "tag_buffer"%string with tag_buffer.
  rewrite Hfield, (field_records e fm), Hrec, (field_valid e fm), Hv, (field_nullable e fm),
    (field_structure e fm), (field_sequence e fm) by done. cbn [andb].
  assert ((if Model.is_nullable fm v && Model.is_structure fm && negb (Model.is_sequence (kind fm))
           then serialize_int I8 1 e else e) = put_slice (presence v fm) e) as ->.
  { unfold presence. destruct (_ && _); [done|]. by rewrite put_slice_nil. }
  destruct (write mm v fm w) as [bs|]; cbn [writes mbind option_bind] in *; [|done].
  destruct H as (e' & -> & Ha). exists e'. split; [done|].
  eapply after_trans; [apply after_put|done].
Qed.

(** ** Every shape *)

Lemma element_sees fm name fs e :
  (exists rest, parse e = fields fm :: rest) -> in_body e -> name_fits mm fm name = true ->
  forallb (field_fits mm v fm) fs = true ->
  field_meta e name = None /\ Forall (fun ns => sees fm (fst ns) e) fs.
Proof.
  intros [rest Hp] He Hname Hfits. unfold name_fits in Hname.
  apply andb_true_iff in Hname as [[Hl Hm]%andb_true_iff _].
  assert (Hmeta : forall n, field_meta e n =
    match lookup_field (fields fm) n with
    | Some x => Some x | None => lookup_field (mm_fields mm) n end).
  { intros n. unfold field_meta. by rewrite Hp, (body_message e He). }
  split.
  - rewrite Hmeta. apply lookup_unknown in Hl, Hm. by rewrite Hl, Hm.
  - apply Forall_forall. intros [n s] Hn. rewrite forallb_forall in Hfits.
    apply list_elem_of_In in Hn. specialize (Hfits _ Hn). unfold sees, field_fits in *. cbn [fst].
    rewrite Hmeta. case_bool_decide.
    + apply andb_true_iff in Hfits as [[_ Hl']%andb_true_iff Hm'].
      apply lookup_unknown in Hl', Hm'. by rewrite Hl', Hm'.
    + by destruct (lookup_field (fields fm) n).
Qed.

Lemma struct_conforms name fs :
  Forall (fun ns => conforms (snd ns)) fs -> conforms (SStruct name fs).
Proof.
  intros HP fm w e He Hp _ Hfits Hty. cbn [fits] in Hfits.
  apply andb_true_iff in Hfits as [[Hname _]%andb_true_iff Hfs].
  destruct (element_sees fm name fs e Hp He Hname Hfs) as [Hn Hsees].
  by apply struct_written with name fs.
Qed.

Lemma elements_fit_spec fm s :
  elements_fit fm s = true -> Model.is_sequence (kind fm) = true /\ element s = true.
Proof.
  unfold elements_fit, Model.is_sequence. destruct (kind_of_sequence (kind fm)); [|done].
  intros [[? _]%andb_true_iff _]%andb_true_iff. done.
Qed.

Lemma plain_spec fm :
  plain v fm = true ->
  Model.is_sequence (kind fm) = false /\ Model.is_string (kind fm) = false /\
  Model.is_records (kind fm) = false /\ Model.is_nullable fm v = false.
Proof. unfold plain. rewrite !andb_true_iff, !negb_true_iff. tauto. Qed.

Lemma option_conforms w :
  conforms w -> (forall s, w = SVec s -> conforms s) -> conforms (SOption w).
Proof.
  intros Hw Hvec fm val e He Hp Hctx Hfits Hty.
  destruct (Hctx eq_refl) as (Hf & Hv & Hfield).
  destruct val as [| | | | | | | | |x| |]; try done.
  { by apply appends_writes, none_written. }
  cbn [has_shape] in Hty.
  set (p := presence v fm).
  assert (Hscalar : scalar w = true -> Model.is_records (kind fm) = false ->
    writes (write mm v fm (VSome x)) (serialize root (VSome x) e) e).
  { intros Hs Hr. apply some_written; [done..|]. apply appends_writes.
    by apply scalar_written with w; [| |apply in_body_put| |]. }
  destruct w as [|t| | | | | | |?|s|name fs]; try done; cbn [fits] in Hfits;
    try (apply Hscalar; [done|]; by destruct (plain_spec fm Hfits) as (_ & _ & ? & _)).
  - apply Hscalar; [done|]. unfold Model.is_string, Model.is_records in *.
    apply andb_true_iff in Hfits as [Hfits%bool_decide_eq_true _]. rewrite Hfits. done.
  - destruct x as [| | | | | |l| | | | |]; try done. cbn [write]. rewrite Hfits.
    apply appends_writes. cbn [serialize]. unfold serialize_some.
    change "tag_buffer"%string with tag_buffer.
    rewrite Hfield, (field_records e fm), Hfits, body_flexible by done. cbn [andb].
    by apply records_written.
  - apply andb_true_iff in Hfits as [[Hseq Hel]%elements_fit_spec Hfits].
    assert (Model.is_records (kind fm) = false).
    { unfold Model.is_records. case_bool_decide as E; [|done]. by rewrite E in Hseq. }
    apply some_written; [done..|]. apply vec_written with s; try done.
    + by apply Hvec.
    + by apply in_body_put.
  - apply andb_true_iff in Hfits as [[_ Hrec%negb_true_iff]%andb_true_iff Hfits].
    apply some_written; [done..|]. apply Hw; [by apply in_body_put|done|done|done|done].
Qed.

Lemma all_conform s : conforms s /\ (forall s', s = SVec s' -> conforms s').
Proof.
  induction s as [| | | | | | | |w [IHw IHv]|s [IHs IHv]|name fs IH] using Shape_nested_ind.
  all: try (split; [|by intros]; intros fm x e He Hp Hctx Hfits Hty;
    destruct (Hctx eq_refl) as (Hf & Hv & _);
    by first [done | apply appends_writes; eapply scalar_written; eauto]).
  - split; [by apply option_conforms|by intros].
  - split; [by intros fm x e He Hp Hctx Hfits|]. intros s' [= <-]. done.
  - split; [|by intros]. apply struct_conforms. eapply Forall_impl; [exact IH|]. by intros ? [].
Qed.

(** ** Frames *)

(** The body, once the header has been written. *)
Lemma body_written s body e :
  message_fits mm v s = true -> has_shape s body = true ->
  in_body e -> (forall n, field_meta e n = lookup_field (mm_fields mm) n) ->
  writes (write mm v (root_meta mm v) body) (serialize_field "body" (serialize root body) e) e.
Proof.
  intros Hfits Hty He Hmeta. destruct s as [| | | | | | | | | |name fs]; try done.
  cbn [message_fits] in Hfits. rewrite !andb_true_iff in Hfits.
  destruct Hfits as [[[[[_ Hname] Hnames] _] _] Hfs].
  apply field_written with None.
  { rewrite Hmeta. rewrite forallb_forall in Hnames. apply lookup_unknown, Hnames. cbn. tauto. }
  cbn [from_option]. unfold name_fits in Hname.
  apply andb_true_iff in Hname as [[Hn _]%andb_true_iff _].
  assert (Hb := in_body_enter "body" None e He).
  assert (Hmeta' : forall n, field_meta (enter "body" None e) n = lookup_field (mm_fields mm) n).
  { intros n. unfold field_meta. by rewrite (body_message _ Hb). }
  apply struct_written with name fs; try done.
  - apply Forall_forall. intros. apply all_conform.
  - apply Forall_forall. intros [n s] _. apply Hmeta'.
  - rewrite Hmeta'. by apply lookup_unknown.
Qed.

Lemma sized_frame_fixed bs w e :
  working e = put_int I32 0 ++ bs ++ w -> ok_of (fix_length (working e)) = sized_frame (bs ++ w).
Proof.
  intros ->. unfold fix_length, sized_frame, prefixed, fixed, usize_to.
  rewrite length_app, length_put_int. cbn [width Nat.add Nat.ltb Nat.leb].
  rewrite drop_app_exact by (by rewrite length_put_int). by destruct (in_ty I32 _).
Qed.

Definition header_names : list string :=
  ["size"; "header"; "body"; "api_version"; "correlation_id"; "client_id"; "tag_buffer"; "Frame"]%string.

Lemma header_unknown s n :
  message_fits mm v s = true -> n ∈ header_names -> lookup_field (mm_fields mm) n = None.
Proof.
  intros Hfits Hn. destruct s as [| | | | | | | | | |name fs]; try done.
  cbn [message_fits] in Hfits. rewrite !andb_true_iff in Hfits.
  destruct Hfits as [[[[_ Hnames] _] _] _].
  apply lookup_unknown. rewrite forallb_forall in Hnames. apply Hnames.
  unfold header_names in Hn. rewrite !elem_of_cons, elem_of_nil in Hn. cbn. naive_solver.
Qed.

Lemma variant_field_unknown key value e :
  field_meta e key = None ->
  serialize_variant_field key value e
  = (let! e := value (enter key None e) in Ok (set_parse (tail (parse e)) e)).
Proof.
  intros H. unfold serialize_variant_field.
  change (field_meta (set_field (Some key) e) key) with (field_meta e key). by rewrite H.
Qed.

(** The state in which a header is being written. *)
Definition header_state (w : bytes) (variant : string) (f : string) (kd : MessageKind)
    (k ver : option Z) (m : option MessageMeta) (p : list FieldLookup) : Encoder :=
  mk w [StructVariant "HeaderMezzanine" (match kd with Request => 0%nat | Response => 1%nat end) variant
          (match kd with Request => 5%nat | Response => 2%nat end);
        Struct "Frame" 3] (Some f) (Some kd) k ver m None p.

Lemma client_id_written k id w p f :
  lookup_field (mm_fields mm) "client_id" = None ->
  match write_client_id id with
  | Some bs =>
      serialize_variant_field "client_id" (serialize root (option_value VString id))
        (header_state w "Request" f Request (Some k) (Some v) (Some mm) ([] :: p))
      = Ok (header_state (w ++ bs) "Request" "client_id" Request (Some k) (Some v) (Some mm) ([] :: p))
  | None =>
      is_ok (serialize_variant_field "client_id" (serialize root (option_value VString id))
        (header_state w "Request" f Request (Some k) (Some v) (Some mm) ([] :: p))) = false
  end.
Proof.
  intros Hu. rewrite variant_field_unknown by done.
  destruct id as [bs|]; cbn [write_client_id option_value serialize].
  - set (e := enter _ _ _). unfold serialize_some, serialize_str.
    change (is_field (field e) "tag_buffer" && negb (is_flexible e)) with false.
    change (is_records e) with false. change (is_valid e) with false. cbn [andb].
    change (at_client_id e) with true. unfold prefixed, usize_to, fixed.
    destruct (in_ty I16 _); cbn [rbind mbind option_bind is_ok]; [|done].
    by rewrite (app_assoc w).
  - done.
Qed.

Lemma header_tags_written variant f kd k w p :
  lookup_field (mm_fields mm) "tag_buffer" = None ->
  serialize_variant_field "tag_buffer" (serialize root (VSome (VTagBuffer [])))
    (header_state w variant f kd (Some k) (Some v) (Some mm) ([] :: p))
  = Ok (header_state (w ++ if flex && negb (match kd with Request => false | Response => k =? 18 end)
                           then no_tags else [])
          variant "tag_buffer" kd (Some k) (Some v) (Some mm) ([] :: p)).
Proof.
  intros Hu. rewrite variant_field_unknown by done.
  set (e := enter _ _ _). cbn [serialize]. unfold serialize_some.
  change (is_field (field e) "tag_buffer") with true. change (is_records e) with false.
  change (is_valid e) with false. cbn [andb].
  assert (is_flexible e = flex && negb (match kd with Request => false | Response => k =? 18 end)) as ->.
  { unfold is_flexible, e. destruct kd; cbn -[Model.is_flexible]; [by rewrite andb_true_r|].
    destruct (k =? 18); cbn -[Model.is_flexible]; [by rewrite andb_false_r|by rewrite andb_true_r]. }
  destruct (_ && _); [done|]. cbn [negb rbind]. by rewrite app_nil_r.
Qed.

Lemma api_key_written k w :
  requests root !! k = Some mm ->
  serialize_variant_field "api_key" (serialize root (VInt I16 k))
    (header_state w "Request" "header" Request None None None [[]])
  = Ok (header_state (w ++ put_int I16 k) "Request" "api_key" Request (Some k) None (Some mm)
          [[]; []]).
Proof.
  intros Hreq. rewrite variant_field_unknown by done. cbn [serialize]. unfold serialize_i16.
  change (in_request_header _ && is_field _ "api_key") with true. cbn iota. by rewrite Hreq.
Qed.

Lemma request_header_written k c id w s :
  requests root !! k = Some mm -> message_fits mm v s = true ->
  match write_client_id id with
  | Some bs =>
      serialize_header root (HRequest k v c id)
        (mk w [Struct "Frame" 3] (Some "header"%string) (Some Request) None None None None [[]])
      = Ok (mk (w ++ put_int I16 k ++ put_int I16 v ++ put_int I32 c ++ bs
                  ++ if flex then no_tags else [])
              [Struct "Frame" 3] (Some "tag_buffer"%string) (Some Request) (Some k) (Some v)
              (Some mm) None [[]; []])
  | None =>
      is_ok (serialize_header root (HRequest k v c id)
        (mk w [Struct "Frame" 3] (Some "header"%string) (Some Request) None None None None [[]]))
      = false
  end.
Proof.
  intros Hreq Hfits. pose proof (header_unknown s) as Hu.
  cbn [serialize_header]. unfold serialize_struct_variant. cbn [serialize_fields set_containers working containers field ekind api_key
    api_version message meta_field parse length].
  change (set_containers _ (mk w _ _ _ _ _ _ _ _))
    with (header_state w "Request" "header" Request None None None [[]]).
  rewrite api_key_written by done. cbn [rbind].
  rewrite variant_field_unknown by (apply Hu; [done|set_solver]). cbn [serialize rbind].
  change (set_parse _ (serialize_i16 _ v _))
    with (header_state ((w ++ put_int I16 k) ++ put_int I16 v) "Request" "api_version" Request
            (Some k) (Some v) (Some mm) [[]; []]).
  rewrite variant_field_unknown by (apply Hu; [done|set_solver]). cbn [serialize rbind].
  change (set_parse _ (serialize_int _ c _))
    with (header_state (((w ++ put_int I16 k) ++ put_int I16 v) ++ put_int I32 c) "Request"
            "correlation_id" Request (Some k) (Some v) (Some mm) [[]; []]).
  pose proof (client_id_written k id (((w ++ put_int I16 k) ++ put_int I16 v) ++ put_int I32 c)
    [[]] "correlation_id" ltac:(apply Hu; [done|set_solver])) as Hid.
  destruct (write_client_id id) as [bs|]; [|by apply rbind_not_ok, rbind_not_ok].
  rewrite Hid. cbn [rbind].
  rewrite header_tags_written by (apply Hu; [done|set_solver]). cbn [rbind].
  rewrite andb_true_r, <- !app_assoc. done.
Qed.

Lemma response_header_written k c w s :
  message_fits mm v s = true ->
  serialize_header root (HResponse c)
    (mk w [Struct "Frame" 3] (Some "header"%string) (Some Response) (Some k) (Some v) (Some mm)
       None [[]; mm_fields mm])
  = Ok (mk (w ++ response_header mm v k c) [Struct "Frame" 3] (Some "tag_buffer"%string)
          (Some Response) (Some k) (Some v) (Some mm) None [[]; mm_fields mm]).
Proof.
  intros Hfits. pose proof (header_unknown s) as Hu.
  cbn [serialize_header]. unfold serialize_struct_variant. cbn [serialize_fields set_containers working containers field ekind api_key
    api_version message meta_field parse length].
  change (set_containers _ (mk w _ _ _ _ _ _ _ _))
    with (header_state w "Response" "header" Response (Some k) (Some v) (Some mm) [[]; mm_fields mm]).
  rewrite variant_field_unknown by (apply Hu; [done|set_solver]). cbn [serialize rbind].
  change (set_parse _ (serialize_int _ c _))
    with (header_state (w ++ put_int I32 c) "Response" "correlation_id" Response
            (Some k) (Some v) (Some mm) [[]; mm_fields mm]).
  rewrite header_tags_written by (apply Hu; [done|set_solver]). cbn [rbind].
  unfold response_header. by rewrite <- app_assoc.
Qed.

Lemma field_unknown key value e :
  field_meta e key = None ->
  serialize_field key value e
  = (let! e := value (enter key None e) in Ok (set_parse (tail (parse e)) e)).
Proof.
  intros H. unfold serialize_field.
  change (field_meta (set_field (Some key) e) key) with (field_meta e key). by rewrite H.
Qed.

(** The two steps of a frame before its body, and its end. *)
Lemma frame_written h body e0 e1 e2 o :
  field_meta (set_containers (Struct "Frame" 3 :: containers e0) e0) "Frame" = None ->
  serialize_field "size" (serialize root (VInt I32 0))
    (set_containers (Struct "Frame" 3 :: containers e0) e0) = Ok e1 ->
  serialize_field "header" (serialize_header root h) e1 = Ok e2 ->
  writes o (serialize_field "body" (serialize root body) e2) e2 ->
  match o with
  | Some bs => exists e, serialize_frame root h body e0 = Ok e /\ working e = working e2 ++ bs
  | None => is_ok (serialize_frame root h body e0) = false
  end.
Proof.
  intros Hm H1 H2 H3. unfold serialize_frame, serialize_struct.
  cbn [length]. rewrite Hm. cbn [serialize_fields]. rewrite H1. cbn [rbind]. rewrite H2. cbn [rbind].
  destruct o as [bs|]; cbn [writes] in H3.
  - destruct H3 as (e & -> & Ha). cbn [rbind]. eexists. split; [done|]. by rewrite Ha.
  - by apply rbind_not_ok, rbind_not_ok.
Qed.

(** [Frame::request] writes the grammar's frame, and refuses the rest. *)
Lemma request_written k c id s body :
  requests root !! k = Some mm -> message_fits mm v s = true -> has_shape s body = true ->
  ok_of (request root (HRequest k v c id) body) = write_request mm v k c id body.
Proof.
  intros Hreq Hfits Hty. unfold write_request, request_header, request.
  pose proof (request_header_written k c id (put_int I32 0) s Hreq Hfits) as Hh.
  set (e1 := mk (put_int I32 0) [Struct "Frame" 3] (Some "size"%string) (Some Request) None None
               None None []).
  assert (Hsize : serialize_field "size" (serialize root (VInt I32 0))
    (set_containers [Struct "Frame" 3] new_request) = Ok e1) by done.
  destruct (write_client_id id) as [bs|]; cbn [mbind option_bind].
  2:{ assert (is_ok (serialize_frame root (HRequest k v c id) body new_request) = false) as E.
      { unfold serialize_frame, serialize_struct. cbn [serialize_fields length].
        change (field_meta _ "Frame") with (@None FieldMeta). cbn iota.
        change (containers new_request) with (@nil Container).
        rewrite Hsize. cbn [rbind]. apply rbind_not_ok, rbind_not_ok.
        unfold serialize_field. change (field_meta _ "header") with (@None FieldMeta).
        by apply rbind_not_ok. }
      by destruct (serialize_frame _ _ _ _). }
  set (h := put_int I16 k ++ _). set (e2 := mk (put_int I32 0 ++ h) [Struct "Frame" 3]
    (Some "tag_buffer"%string) (Some Request) (Some k) (Some v) (Some mm) None [[]]).
  assert (Hheader : serialize_field "header" (serialize_header root (HRequest k v c id)) e1 = Ok e2).
  { unfold serialize_field. change (field_meta _ "header") with (@None FieldMeta). cbn iota.
    change (set_parse _ (set_meta_field None _)) with
      (mk (put_int I32 0) [Struct "Frame" 3] (Some "header"%string) (Some Request) None None None
         None [[]]). by rewrite Hh. }
  assert (Hbody : in_body e2) by (split; [done|done|by repeat eexists]).
  pose proof (frame_written (HRequest k v c id) body new_request e1 e2 _ eq_refl Hsize Hheader
    (body_written s body e2 Hfits Hty Hbody (fun _ => eq_refl))) as H.
  destruct (write mm v (root_meta mm v) body) as [b|]; cbn [mbind option_bind].
  - destruct H as (e & -> & Hw). cbn [rbind]. apply sized_frame_fixed.
    rewrite Hw. cbn [working e2]. by rewrite <- app_assoc.
  - by destruct (serialize_frame _ _ _ _).
Qed.

(** [Frame::response], likewise. *)
Lemma response_written k c s body :
  responses root !! k = Some mm -> message_fits mm v s = true -> has_shape s body = true ->
  ok_of (response root (HResponse c) body k v) = write_response mm v k c body.
Proof.
  intros Hresp Hfits Hty. unfold write_response, response. pose proof (header_unknown s) as Hu.
  unfold new_response. rewrite Hresp.
  set (e0 := mk [] [] None _ _ _ _ _ _).
  set (e1 := mk (put_int I32 0) [Struct "Frame" 3] (Some "size"%string) (Some Response) (Some k)
               (Some v) (Some mm) None [mm_fields mm]).
  assert (Hmeta : forall n cs f, n ∈ header_names ->
    field_meta (mk cs [Struct "Frame" 3] f (Some Response) (Some k) (Some v) (Some mm) None
                  [mm_fields mm]) n = None).
  { intros n cs f Hn. unfold field_meta. cbn [parse message]. by rewrite (Hu n Hfits Hn). }
  assert (Hsize : serialize_field "size" (serialize root (VInt I32 0))
    (set_containers [Struct "Frame" 3] e0) = Ok e1).
  { rewrite field_unknown; [done|]. apply (Hmeta "size"%string). set_solver. }
  set (e2 := mk (put_int I32 0 ++ response_header mm v k c) [Struct "Frame" 3]
    (Some "tag_buffer"%string) (Some Response) (Some k) (Some v) (Some mm) None [mm_fields mm]).
  assert (Hheader : serialize_field "header" (serialize_header root (HResponse c)) e1 = Ok e2).
  { rewrite field_unknown by (apply (Hmeta "header"%string); set_solver).
    change (enter "header" None e1) with
      (mk (put_int I32 0) [Struct "Frame" 3] (Some "header"%string) (Some Response) (Some k)
         (Some v) (Some mm) None [[]; mm_fields mm]).
    by rewrite (response_header_written k c _ s Hfits). }
  assert (Hbody : in_body e2) by (split; [done|done|by repeat eexists]).
  assert (Hm2 : forall n, field_meta e2 n = lookup_field (mm_fields mm) n).
  { intros n. unfold field_meta. cbn. by destruct (lookup_field _ n). }
  assert (Hf : field_meta (set_containers [Struct "Frame" 3] e0) "Frame" = None).
  { apply (Hmeta "Frame"%string). set_solver. }
  pose proof (frame_written (HResponse c) body e0 e1 e2 _ Hf Hsize Hheader
    (body_written s body e2 Hfits Hty Hbody Hm2)) as H.
  destruct (write mm v (root_meta mm v) body) as [b|]; cbn [mbind option_bind].
  - destruct H as (e & -> & Hw). cbn [rbind]. apply sized_frame_fixed.
    rewrite Hw. cbn [working e2]. by rewrite <- app_assoc.
  - by destruct (serialize_frame _ _ _ _).
Qed.
End EncoderSpec.
