(* ===== verification/DecoderSpec.v ===== *)
(** * DecoderSpec: the decoder reads the grammar

    On the bytes [Grammar.write] gives a value, the stateful deserializer of
    [Decoder] returns what [Grammar.visible] says a reader sees of it, leaves what
    follows unread and its stacks as they were. *)

From S2P Require Export EncoderSpec.
Import Model Serde Varint Grammar Decoder Deserializer.

(** ** Varints, tags and batches *)

Lemma decode_unsigned n rest :
  in_u32 n = true -> decode_loop 32 0 0 (UnsignedVarInt_encode n ++ rest) = Ok (n, rest).
Proof.
  intros H%u_range_spec. unfold UnsignedVarInt_encode.
  rewrite (decode_encode_loop 32 32 n 0 0 rest) by (change (2 ^ Z.of_nat 32) with (2 ^ 32); lia).
  do 2 f_equal. lia.
Qed.

Lemma varint_encoded n rest :
  in_u32 n = true -> varint (UnsignedVarInt_encode n ++ rest) = Ok (n, rest).
Proof. intros H. unfold varint. by rewrite decode_unsigned. Qed.

Lemma uvi_encoded n rest :
  in_u32 n = true -> UnsignedVarInt_deserialize (UnsignedVarInt_encode n ++ rest) = Ok (n, rest).
Proof. intros H. unfold UnsignedVarInt_deserialize. by rewrite decode_unsigned. Qed.

Lemma uvi_try_from n bs :
  UnsignedVarInt_try_from n = Ok bs -> in_u32 n = true /\ bs = UnsignedVarInt_encode n.
Proof. unfold UnsignedVarInt_try_from. destruct (in_u32 n); [|done]. by intros [= <-]. Qed.

Lemma tag_field_roundtrip f bs rest :
  TagField_serialize f = Ok bs -> tag_typed f = true -> tag_sendable f = true ->
  TagField_deserialize (bs ++ rest) = Ok (f, rest).
Proof.
  unfold TagField_serialize. intros (n & [Hn ->]%uvi_try_from & H)%rbind_Ok Ht Hs.
  injection H as <-. unfold TagField_deserialize. rewrite <- !app_assoc.
  erewrite bind_Ok by (by apply uvi_encoded). erewrite bind_Ok by (by apply uvi_encoded).
  unfold tag_sendable in Hs. apply Z.leb_le in Hs.
  rewrite (proj2 (Z.ltb_ge _ _) Hs). rewrite bind_take_n by lia. by destruct f.
Qed.

Lemma tags_roundtrip l bs rest :
  tags_serialize l = Ok bs -> forallb tag_typed l = true -> forallb tag_sendable l = true ->
  read_n (length l) TagField_deserialize (bs ++ rest) = Ok (l, rest).
Proof.
  revert bs. induction l as [|f l IH]; intros bs.
  { by intros [= <-]. }
  cbn [tags_serialize forallb]. intros (b1 & H1 & (b2 & H2 & H)%rbind_Ok)%rbind_Ok.
  injection H as <-. rewrite !andb_true_iff. intros [Ht Hts] [Hs Hss].
  cbn [length read_n]. rewrite <- app_assoc.
  erewrite bind_Ok by (by apply tag_field_roundtrip). by erewrite bind_Ok by (by apply IH).
Qed.

Lemma tag_buffer_read l bs rest :
  TagBuffer_serialize l = Ok bs -> forallb tag_typed l = true -> tags_sendable l = true ->
  TagBuffer_deserialize (bs ++ rest) = Ok (l, rest).
Proof.
  unfold TagBuffer_serialize, tags_sendable.
  intros (n & [Hn ->]%uvi_try_from & (b & Hb & H)%rbind_Ok)%rbind_Ok Ht [Hl%Z.leb_le Hs]%andb_true_iff.
  injection H as <-. unfold TagBuffer_deserialize. rewrite <- app_assoc.
  erewrite bind_Ok by (by apply uvi_encoded).
  rewrite (proj2 (Z.ltb_ge _ _) Hl), Nat2Z.id. by apply tags_roundtrip.
Qed.

Lemma batch_bytes b :
  batch_sendable b = true ->
  exists body, Deflated.to_bytes b
    = put_int I64 (Deflated.base_offset b) ++ put_int I32 (Deflated.batch_length b) ++ body /\
    Z.of_nat (length body) = Deflated.batch_length b.
Proof.
  unfold batch_sendable. rewrite !andb_true_iff. intros [_ [Hlen _]%declares_spec].
  eexists. split; [apply to_bytes_split|].
  autorewrite with wire. cbn [width]. rewrite length_CrcData. cbn. unfold FIXED_BATCH_LENGTH in Hlen. lia.
Qed.

Lemma read_batches_written l fuel :
  forallb batch_sendable l = true -> (length (flat_map Deflated.to_bytes l) < fuel)%nat ->
  read_batches fuel (flat_map Deflated.to_bytes l) = Ok l.
Proof.
  revert fuel. induction l as [|b l IH]; intros fuel; [by destruct fuel|].
  cbn [forallb flat_map]. rewrite andb_true_iff. intros [Hb Hl] Hf.
  destruct (batch_bytes b Hb) as (body & Hbytes & Hlen).
  assert (Htyped : Deflated.typed b = true /\ Deflated.is_record_batch_v2 b = true /\
                   Deflated.declares_its_own_length b = true).
  { unfold batch_sendable in Hb. rewrite !andb_true_iff in Hb. tauto. }
  destruct Htyped as (Ht & Hm & Hd).
  assert (Htry : Deflated.try_from (Deflated.to_bytes b) = Ok b).
  { apply try_from_Ok. exists []. rewrite <- (app_nil_r (Deflated.to_bytes b)).
    by apply read_batch_to_bytes. }
  unfold Deflated.typed in Ht. rewrite !andb_true_iff in Ht.
  rewrite length_app in Hf. rewrite Hbytes in Hf |- *. rewrite <- !app_assoc.
  destruct fuel as [|fuel]; [lia|]. set (w := flat_map Deflated.to_bytes l) in *.
  remember (put_int I64 (Deflated.base_offset b) ++ put_int I32 (Deflated.batch_length b) ++ body ++ w)
    as encoded eqn:E. cbn [read_batches]. destruct encoded as [|x xs].
  { apply (f_equal length) in E. rewrite length_app, length_put_int in E. cbn in E. lia. }
  rewrite E. clear E x xs.
  rewrite (get_put_int TryGet I64). cbn [rbind]. rewrite (get_put_int TryGet I32). cbn [rbind].
  rewrite !cast_small by (unfold in_ty; cbn; tauto).
  rewrite (proj2 (Z.ltb_ge (Deflated.batch_length b) 0)) by lia.
  rewrite (proj2 (Z.ltb_ge _ _)) by (rewrite length_app; lia).
  rewrite <- Hlen, Nat2Z.id, take_app_length, drop_app_length, Hlen, <- Hbytes, Htry.
  rewrite IH; [done|done|]. rewrite !length_app, !length_put_int in Hf. cbn in Hf. lia.
Qed.

Lemma batches_empty l : flat_map Deflated.to_bytes l = [] -> l = [].
Proof.
  destruct l as [|b l]; [done|]. cbn [flat_map]. intros H. apply (f_equal length) in H.
  rewrite length_app, to_bytes_split, !length_app, !length_put_int in H. cbn in H. lia.
Qed.

(** ** Reading *)

Lemma dbind_Ok {A B} (m : De A) (f : A -> De B) d a d' :
  m d = Ok (a, d') -> dbind m f d = f a d'.
Proof. unfold dbind. by intros ->. Qed.

Lemma dbind_run {A B} (r : reader A) (f : A -> De B) d a rest :
  r (input d) = Ok (a, rest) -> dbind (run r) f d = f a (set_input rest d).
Proof. intros H. unfold dbind, run. by rewrite H. Qed.

Lemma run_int {B} t z rest (f : Z -> De B) d :
  in_ty t z = true -> input d = put_int t z ++ rest ->
  dbind (run (get_int Io t)) f d = f z (set_input rest d).
Proof.
  intros Hz Hi. apply dbind_run. rewrite Hi, get_put_int. by rewrite cast_small.
Qed.

Lemma run_varint {B} n rest (f : Z -> De B) d :
  in_u32 n = true -> input d = UnsignedVarInt_encode n ++ rest ->
  dbind unsigned_varint f d = f n (set_input rest d).
Proof. intros Hn Hi. apply dbind_run. rewrite Hi. by apply varint_encoded. Qed.

Lemma run_exact {B} n bs rest (f : bytes -> De B) d :
  n = Z.of_nat (length bs) -> input d = bs ++ rest ->
  dbind (read_exact n) f d = f bs (set_input rest d).
Proof. intros -> Hi. apply dbind_run. rewrite Hi. apply take_n_app. lia. Qed.

Lemma set_input_input d a b : set_input a (set_input b d) = set_input a d.
Proof. done. Qed.

Lemma set_input_same d a : input d = a -> set_input a d = d.
Proof. intros <-. by destruct d. Qed.

Section DecoderSpec.
Context (root : RootMessageMeta) (mm : MessageMeta) (v : Z).
Context (Hframe : lookup_field (message_structures mm) "Frame" = None).

Abbreviation flex := (Model.is_flexible mm v).

(** Inside the body of a message at a version, between values. *)
Record in_body (d : Decoder) : Prop := {
  body_version : api_version d = Some v;
  body_message : message d = Some mm;
  body_structures : structures d = Some (message_structures mm);
  body_container : exists c cs, containers d = c :: cs /\ container_name c <> "HeaderMezzanine"%string;
  body_length : dlength d = None;
  body_records : in_records d = false;
}.

(** [d'] is [d] with [rest] left to read: only the current field and its metadata
    may differ. *)
Definition after (d : Decoder) (rest : bytes) (d' : Decoder) : Prop :=
  d' = mk rest (containers d) (field d') (dkind d) (api_key d) (api_version d) (message d)
         (structures d) (meta_field d') (parse d) (dlength d) (in_seq_of_primitive d) (in_records d).

Lemma after_input d rest : after d rest (set_input rest d).
Proof. done. Qed.

Lemma de_after_trans d r d' r' d'' : after d r d' -> after d' r' d'' -> after d r' d''.
Proof. unfold after. intros -> E. by rewrite E. Qed.

Lemma de_after_body d rest d' : after d rest d' -> in_body d -> in_body d'.
Proof. intros -> []. by split. Qed.

Lemma de_body_header d : in_body d -> in_header d = false.
Proof.
  intros [_ _ _ (n & cs & H & Hn) _ _]. unfold in_header. rewrite H. cbn. by case_bool_decide.
Qed.

Lemma body_header_struct d : in_body d -> in_header_struct d = false.
Proof.
  intros [_ _ _ (c & cs & H & Hn) _ _]. unfold in_header_struct. rewrite H.
  destruct c; [|done]. by case_bool_decide.
Qed.

Lemma de_body_flexible d : in_body d -> is_flexible d = flex.
Proof.
  intros H. unfold is_flexible. rewrite (de_body_header d H), (body_message d H), (body_version d H).
  done.
Qed.

Lemma body_input d i : in_body d -> in_body (set_input i d).
Proof. intros []. by split. Qed.

Section Field.
Context (d : Decoder) (fm : FieldMeta) (Hd : in_body d) (Hf : meta_field d = Some fm).

Lemma de_field_valid : is_valid d = within (version fm) v.
Proof. unfold is_valid. by rewrite (body_version d Hd), Hf. Qed.
Lemma de_field_nullable : is_nullable d = Model.is_nullable fm v.
Proof. unfold is_nullable. by rewrite (body_version d Hd), Hf. Qed.
Lemma de_field_sequence : is_sequence d = Model.is_sequence (kind fm).
Proof. unfold is_sequence. by rewrite Hf. Qed.
Lemma de_field_structure : is_structure d = Model.is_structure fm.
Proof. unfold is_structure. by rewrite Hf. Qed.
Lemma de_field_records : is_records d = Model.is_records (kind fm).
Proof. unfold is_records. by rewrite Hf. Qed.
Lemma de_field_string : is_string d = Model.is_string (kind fm).
Proof. unfold is_string. by rewrite (de_body_header d Hd), Hf. Qed.
End Field.

(** ** Lengths *)

Lemma prefixed_inv o bs out : prefixed o bs = Some out -> exists n, o = Some n /\ out = n ++ bs.
Proof. unfold prefixed. destruct o; [|done]. intros [= <-]. eauto. Qed.

Lemma compact_inv n out :
  compact n = Some out ->
  in_u32 (Z.of_nat n + 1) = true /\ out = UnsignedVarInt_encode (Z.of_nat n + 1).
Proof.
  unfold compact. replace (Z.of_nat (n + 1)) with (Z.of_nat n + 1) by lia.
  destruct (in_u32 _); [|done]. by intros [= <-].
Qed.

Lemma fixed_inv t n out :
  fixed t n = Some out -> in_ty t (Z.of_nat n) = true /\ out = put_int t (Z.of_nat n).
Proof. unfold fixed. destruct (in_ty t _); [|done]. by intros [= <-]. Qed.

(** A length, in either encoding, as the mandatory reads have it. *)
Lemma length_read {B} t n out rest d (k : Z -> De B) (conv : Z -> De Z) :
  length_of mm v t n = Some out -> input d = out ++ rest ->
  (forall z d, 0 <= z -> conv z d = Ok (z, d)) ->
  dbind (if flex then de! n := unsigned_varint in lift (checked_pred n)
         else de! n := run (get_int Io t) in conv n) k d
  = k (Z.of_nat n) (set_input rest d).
Proof.
  intros Hn Hi Hconv. unfold length_of in Hn. destruct flex.
  - apply compact_inv in Hn as [Hn ->]. apply dbind_Ok. rewrite (run_varint _ rest) by done.
    unfold lift, checked_pred. rewrite (proj2 (Z.eqb_neq _ 0)) by lia. cbn.
    do 2 f_equal. lia.
  - apply fixed_inv in Hn as [Hn ->]. apply dbind_Ok. rewrite (run_int _ _ rest) by done.
    apply Hconv. lia.
Qed.

Lemma to_usize_conv (z : Z) (d : Decoder) : 0 <= z -> lift (to_usize z) d = Ok (z, d).
Proof. intros. unfold lift, to_usize. by rewrite (proj2 (Z.ltb_ge z 0)) by lia. Qed.

Lemma sized_spec n : sized n = true -> (MESSAGE_MAX_SIZE <? Z.of_nat n) = false.
Proof. unfold sized. intros H%Z.leb_le. by apply Z.ltb_ge. Qed.

(** ** Scalars *)

(** Where the length of a string is read by the string itself. *)
Definition string_ready (d : Decoder) : Prop :=
  is_nullable d && negb (in_seq_of_primitive d) = false /\ is_valid d = true /\
  (flex = true \/ is_string d || (in_seq_of_primitive d && sequence_of Model.is_string d) = true).

Lemma de_take_string n s rest d :
  n = Z.of_nat (length s) -> sized (length s) = true -> utf8_valid s = true ->
  input d = s ++ rest -> dlength d = None ->
  deserialize_string (set_length (Some n) d) = Ok (s, set_input rest d).
Proof.
  intros -> Hs Hu Hi Hl. unfold deserialize_string. cbn [dlength set_length rbind].
  rewrite (sized_spec _ Hs). rewrite (run_exact _ s rest) by done. rewrite Hu. unfold dret.
  destruct d. cbn in *. by subst.
Qed.

Lemma string_read s bs rest d :
  in_body d -> string_ready d -> prefixed (length_of mm v I16 (length s)) s = Some bs ->
  utf8_valid s = true -> sized (length s) = true -> input d = bs ++ rest ->
  deserialize_string d = Ok (s, set_input rest d).
Proof.
  intros Hd (Hnull & Hvalid & Hstr) (n & Hn & ->)%prefixed_inv Hu Hs Hi.
  rewrite <- app_assoc in Hi.
  assert (Hlen : read_mandatory_non_nullable_length d
    = Ok (tt, set_length (Some (Z.of_nat (length s))) (set_input (s ++ rest) d))).
  { unfold read_mandatory_non_nullable_length.
    rewrite (de_body_header d Hd), Hnull, Hvalid, de_body_flexible by done. cbn [orb negb].
    assert (Hif : forall A (a b c : A), (if flex then a
      else if is_string d || (in_seq_of_primitive d && sequence_of Model.is_string d) then b else c)
      = if flex then a else b).
    { intros. destruct flex; [done|]. destruct Hstr as [|Hstr]; [done|]. by rewrite Hstr. }
    rewrite Hif. rewrite (length_read I16 _ _ (s ++ rest) d _ (fun z => lift (to_usize z)) Hn Hi);
      [done|apply to_usize_conv]. }
  unfold deserialize_string at 1. rewrite (body_length d Hd), Hlen. cbn [rbind].
  pose proof (de_take_string (Z.of_nat (length s)) s rest (set_input (s ++ rest) d) eq_refl Hs Hu
    eq_refl (body_length d Hd)) as H.
  unfold deserialize_string in H. cbn [dlength set_length rbind] in *. exact H.
Qed.

Lemma bytes_read b bs rest d :
  in_body d -> prefixed (length_of mm v U32 (length b)) b = Some bs ->
  sized (length b) = true -> input d = bs ++ rest ->
  deserialize_byte_buf d = Ok (b, set_input rest d).
Proof.
  intros Hd (n & Hn & ->)%prefixed_inv Hs Hi. rewrite <- app_assoc in Hi.
  unfold deserialize_byte_buf. rewrite de_body_flexible by done.
  assert (Hret : (if flex then de! n := unsigned_varint in lift (checked_pred n)
     else run (get_int Io U32)) d
     = Ok (Z.of_nat (length b), set_input (b ++ rest) d)).
  { pose proof (length_read U32 (length b) n (b ++ rest) d dret dret Hn Hi
      (fun z d' _ => eq_refl)) as H.
    destruct flex; unfold dbind, dret in *.
    - destruct (let! (a, d0) := unsigned_varint d in _) as [[]| |]; by cbn in H.
    - destruct (run _ d) as [[]| |]; by cbn in H. }
  rewrite (dbind_Ok _ _ _ _ _ Hret). rewrite (sized_spec _ Hs).
  pose proof (run_exact (Z.of_nat (length b)) b rest dret (set_input (b ++ rest) d)
    eq_refl eq_refl) as H.
  unfold dbind, dret in H. destruct (read_exact _ _) as [[]| |]; by cbn in H.
Qed.

Lemma i16_read z rest d :
  in_body d -> in_ty I16 z = true -> input d = put_int I16 z ++ rest ->
  deserialize_i16 root d = Ok (z, set_input rest d).
Proof.
  intros Hd Hz Hi. unfold deserialize_i16. rewrite (run_int _ _ rest) by done.
  by rewrite (body_header_struct _ (body_input _ rest Hd)).
Qed.

(** A scalar is read as it is, strings where their length is expected. *)
Lemma scalar_read s fm w bs rest d :
  scalar s = true -> has_shape s w = true -> sendable w = true -> write mm v fm w = Some bs ->
  in_body d -> (s = SString -> string_ready d) -> input d = bs ++ rest ->
  deserialize root s d = Ok (w, set_input rest d).
Proof.
  intros Hs Hty Hsend Hw Hd Hready Hi.
  destruct s, w as [b|t' z|z|str|b|b| | | | | |]; try done; cbn [write has_shape sendable] in *;
    try injection Hw as <-; cbn [deserialize].
  - rewrite (run_int _ (if b then 1 else 0) rest) by (by destruct b). by destruct b.
  - bool_prop. subst t'. destruct t; try (by rewrite (run_int _ z rest)).
    by rewrite (dbind_Ok _ _ _ _ _ (i16_read z rest d Hd H0 Hi)).
  - by rewrite (run_int _ z rest).
  - by rewrite (dbind_Ok _ _ _ _ _ (string_read str bs rest d Hd (Hready eq_refl) Hw Hty Hsend Hi)).
  - by rewrite (dbind_Ok _ _ _ _ _ (bytes_read b bs rest d Hd Hw Hsend Hi)).
  - bool_prop. by rewrite (run_exact _ b rest) by (by rewrite ?Hty).
Qed.

(** ** Fields *)

Definition conforms (s : Shape) : Prop := forall fm w bs rest d,
  in_body d -> in_seq_of_primitive d = false ->
  (is_struct s = false ->
     meta_field d = Some fm /\ within (version fm) v = true /\ is_field (field d) tag_buffer = false) ->
  fits mm v fm s = true -> has_shape s w = true -> sendable w = true ->
  write mm v fm w = Some bs -> input d = bs ++ rest ->
  exists d', deserialize root s d = Ok (visible mm v fm w, d') /\ after d rest d'.

Lemma de_visible_scalar s fm w : scalar s = true -> has_shape s w = true -> visible mm v fm w = w.
Proof. by destruct s, w. Qed.

(** The state a field is read in, given the lookups in force. *)
Definition enter (n : string) (fl : FieldLookup) (d : Decoder) : Decoder :=
  set_meta_field (lookup_field fl n) (set_field (Some n) d).

Lemma enter_body n fl d : in_body d -> in_body (enter n fl d).
Proof. intros []. by split. Qed.

Lemma enter_after n fl d rest d' : after (enter n fl d) rest d' -> after d rest d'.
Proof. done. Qed.

Lemma tags_read w bs rest d fl :
  in_body d -> in_seq_of_primitive d = false -> lookup_field fl tag_buffer = None ->
  has_shape (SOption STagBuffer) w = true -> sendable w = true ->
  match w with VSome _ => true | _ => false end = true ->
  write_tags mm v w = Some bs -> input d = bs ++ rest ->
  exists d', deserialize root (SOption STagBuffer) (enter tag_buffer fl d)
             = Ok (if flex then w else VNone, d') /\ after d rest d'.
Proof.
  intros Hd Hseq Hl Hty Hs Hsome Hw Hi.
  destruct w as [| | | | | | | | |w| |]; try done. destruct w as [| | | | | | |l| | | |]; try done.
  cbn [deserialize]. unfold deserialize_option. set (d1 := enter tag_buffer fl d).
  assert (Hd1 : in_body d1) by (by apply enter_body).
  assert (is_valid d1 = true) as ->.
  { unfold is_valid, d1, enter. cbn. rewrite Hl. by destruct (api_version d). }
  change (is_field (field d1) "tag_buffer") with true. rewrite de_body_flexible by done.
  unfold write_tags in Hw. destruct flex.
  - unfold ok_of in Hw. destruct (TagBuffer_serialize l) as [b| |] eqn:E; try done.
    injection Hw as <-. cbn [has_shape sendable] in *.
    unfold visit_some, deserialize_tag_buffer, dbind, run. cbn [dlength set_length input].
    change (input d1) with (input d). rewrite Hi, (tag_buffer_read l b rest) by done.
    eexists. split; [done|]. pose proof (body_length d Hd). destruct d; cbn in *; subst. done.
  - injection Hw as <-. eexists. split; [done|]. destruct d; cbn in *. by subst.
Qed.

Lemma absent_read s fm n bs rest d fl :
  in_body d -> is_option s = true -> lookup_field fl n = Some fm ->
  within (version fm) v = false -> bs = [] -> input d = bs ++ rest ->
  exists d', deserialize root s (enter n fl d) = Ok (VNone, d') /\ after d rest d'.
Proof.
  intros Hd Hs Hl Hv -> Hi. destruct s; try done. cbn [deserialize]. unfold deserialize_option.
  assert (is_valid (enter n fl d) = false) as ->.
  { unfold is_valid, enter. cbn. by rewrite (body_version d Hd), Hl, Hv. }
  eexists. split; [done|]. pose proof (body_length d Hd). destruct d; cbn in *; by subst.
Qed.

(** How the lookups a structure is read with relate to its metadata: they are
    its metadata's, or there are none and the field does not need them. *)
Definition looks (fl : FieldLookup) (fm : FieldMeta) (ns : string * Shape) : Prop :=
  lookup_field fl (fst ns) = lookup_field (fields fm) (fst ns) \/
  (lookup_field fl (fst ns) = None /\ (fst ns <> tag_buffer -> bare mm v (snd ns) = true)).

Lemma bare_read s fm w bs rest d :
  in_body d -> meta_field d = None -> bare mm v s = true -> has_shape s w = true ->
  sendable w = true -> write mm v fm w = Some bs -> input d = bs ++ rest ->
  deserialize root s d = Ok (w, set_input rest d).
Proof.
  intros Hd Hm Hb Hty Hs Hw Hi. apply scalar_read with fm bs; try done; [by destruct s|].
  intros ->. split_and!.
  - unfold is_nullable. rewrite Hm. by destruct (api_version d).
  - unfold is_valid. rewrite Hm. by destruct (api_version d).
  - left. exact Hb.
Qed.

Lemma field_read fm fl n s w bs rest d :
  conforms s -> in_body d -> in_seq_of_primitive d = false -> looks fl fm (n, s) ->
  field_fits mm v fm (n, s) = true -> has_shape s w = true -> sendable w = true ->
  (n = tag_buffer -> match w with VSome _ => true | _ => false end = true) ->
  write_field mm v fm (n, w) = Some bs -> input d = bs ++ rest ->
  exists d', deserialize root s (enter n fl d) = Ok (snd (visible_field mm v fm (n, w)), d') /\
             after d rest d'.
Proof.
  intros Hs Hd Hseq Hlooks Hfits Hty Hsend Htag Hw Hi.
  unfold field_fits, write_field, visible_field in *. cbn [snd]. unfold looks in Hlooks.
  cbn [fst snd] in Hlooks. case_bool_decide as Hn.
  - subst n. apply andb_true_iff in Hfits as [[His Hu%lookup_unknown]%andb_true_iff _].
    assert (s = SOption STagBuffer) as -> by (by destruct s as [| | | | | | | |[]| |]).
    apply tags_read with bs; try done; [|by apply Htag].
    destruct Hlooks as [Hl|[Hl _]]; [by rewrite Hl|done].
  - destruct (lookup_field (fields fm) n) as [fm'|] eqn:El; [|done].
    destruct (within (version fm') v) eqn:Ev.
    + destruct Hlooks as [Hl|[Hl Hb]].
      * destruct (Hs fm' w bs rest (enter n fl d)) as (d' & E & Ha); try done.
        -- by apply enter_body.
        -- intros _. split_and!; [done|done|]. cbn. by case_bool_decide.
        -- eauto.
      * specialize (Hb Hn). rewrite (de_visible_scalar s) by (by destruct s).
        eexists. split; [by apply bare_read with fm' bs; [apply enter_body|..]|].
        by apply enter_after with n fl.
    + injection Hw as <-. destruct Hlooks as [Hl|[Hl Hb]].
      * by apply absent_read with fm' [].
      * specialize (Hb Hn). by destruct s.
Qed.

Lemma fields_read fm fl p fs vs bs rest d :
  Forall (fun ns => conforms (snd ns)) fs -> Forall (looks fl fm) fs ->
  in_body d -> in_seq_of_primitive d = false -> parse d = fl :: p ->
  forallb (field_fits mm v fm) fs = true -> fields_shape fs vs = true ->
  sendable (VStruct EmptyString vs) = true ->
  concat_opt (map (write_field mm v fm) vs) = Some bs -> input d = bs ++ rest ->
  exists d', read_fields (map (fun '(n, s) => (n, deserialize root s)) fs) d
             = Ok (map (visible_field mm v fm) vs, d') /\ after d rest d'.
Proof.
  intros HP. revert vs bs d.
  induction HP as [|[n s] fs Hs HP IH]; intros [|[n' w] vs] bs d Hlooks Hd Hseq Hp Hfits Hty Hsend Hw Hi;
    try done.
  { injection Hw as <-. exists d. split; [done|]. destruct d. cbn in *. by subst. }
  cbn [fields_shape forallb map concat_opt sendable] in *.
  apply andb_true_iff in Hfits as [Hf Hfits].
  apply andb_true_iff in Hty as [[Hnn Hty1]%andb_true_iff Hty]. apply bool_decide_eq_true in Hnn.
  subst n'. apply andb_true_iff in Hsend as [[Hsw Htag]%andb_true_iff Hsend].
  inversion Hlooks as [|? ? Hl Hlooks']; subst.
  destruct (write_field mm v fm (n, w)) as [b1|] eqn:Ew; [|done].
  destruct (concat_opt _) as [b2|] eqn:Ec; [|done]. cbn in Hw. injection Hw as <-.
  rewrite <- app_assoc in Hi.
  destruct (field_read fm fl n s w b1 (b2 ++ rest) d) as (d1 & E1 & Ha1); try done.
  { intros ->. rewrite bool_decide_true in Htag by done. exact Htag. }
  destruct (IH vs b2 d1) as (d2 & E2 & Ha2); try done.
  { by eapply de_after_body. }
  { by rewrite Ha1. }
  { by rewrite Ha1. }
  { by rewrite Ha1. }
  exists d2. split; [|by eapply de_after_trans].
  cbn [map read_fields]. unfold dbind at 1. cbn [set_field parse]. rewrite Hp.
  change (set_meta_field (lookup_field fl n) (set_field (Some n) d)) with (enter n fl d).
  rewrite E1. cbn [rbind]. rewrite (dbind_Ok _ _ _ _ _ E2). done.
Qed.

(** ** Structures *)

Section FieldMeta_induction.
Context (P : FieldMeta -> Prop).
Context (H : forall vr nl k t tg fs, Forall (fun nf => P (snd nf)) fs -> P (mkFieldMeta vr nl k t tg fs)).

Fixpoint FieldMeta_nested_ind (fm : FieldMeta) : P fm :=
  match fm with
  | mkFieldMeta vr nl k t tg fs =>
      H vr nl k t tg fs
        ((fix go fs : Forall (fun nf => P (snd nf)) fs :=
            match fs with
            | [] => Forall_nil_2 _
            | nf :: fs => Forall_cons_2 (fun nf => P (snd nf)) nf fs (FieldMeta_nested_ind (snd nf)) (go fs)
            end) fs)
  end.
End FieldMeta_induction.

Lemma lookups_sound fs fs' :
  Forall (fun nf => forall b, FieldMeta_eqb (snd nf) b = true -> snd nf = b) fs ->
  lookups_eqb fs fs' = true -> fs = fs'.
Proof.
  intros HP. revert fs'. induction HP as [|[n a] fs Ha HP IH]; intros [|[o b] fs']; try done.
  cbn [lookups_eqb]. rewrite !andb_true_iff. intros [[Hn%bool_decide_eq_true Hab] Hl]. subst.
  cbn in Ha. by rewrite (Ha b Hab), (IH fs' Hl).
Qed.

Lemma FieldMeta_eqb_sound a b : FieldMeta_eqb a b = true -> a = b.
Proof.
  revert b. induction a as [vr nl k t tg fs IH] using FieldMeta_nested_ind. intros [].
  cbn -[bool_decide]. rewrite !andb_true_iff, !bool_decide_eq_true.
  intros [[[[[-> ->] ->] ->] ->] Hl]. f_equal. by apply lookups_sound.
Qed.

Lemma lookups_eqb_sound fs fs' : lookups_eqb fs fs' = true -> fs = fs'.
Proof.
  apply lookups_sound, Forall_forall. intros. by apply FieldMeta_eqb_sound.
Qed.

(** The lookups a structure of that name is read with. *)
Definition struct_lookup (name : string) : FieldLookup :=
  match lookup_field (message_structures mm) name with
  | Some found => fields found
  | None =>
      if ends_with name "Request" || ends_with name "Response" then mm_fields mm else []
  end.

Lemma struct_read fm name fs w bs rest d :
  Forall (fun ns => conforms (snd ns)) fs -> Forall (looks (struct_lookup name) fm) fs ->
  name <> "HeaderMezzanine"%string -> in_body d -> in_seq_of_primitive d = false ->
  forallb (field_fits mm v fm) fs = true -> has_shape (SStruct name fs) w = true ->
  sendable w = true -> write mm v fm w = Some bs -> input d = bs ++ rest ->
  exists d', deserialize root (SStruct name fs) d = Ok (visible mm v fm w, d') /\ after d rest d'.
Proof.
  intros HP Hlooks Hname Hd Hseq Hfits (vs & -> & Hty)%has_shape_struct Hsend Hw Hi.
  change (write mm v fm (VStruct name vs)) with (concat_opt (map (write_field mm v fm) vs)) in Hw.
  change (visible mm v fm (VStruct name vs)) with (VStruct name (map (visible_field mm v fm) vs)).
  assert (H : exists d', deserialize_struct name (map (fun '(n, s) => (n, deserialize root s)) fs) d
    = Ok (map (visible_field mm v fm) vs, d') /\ after d rest d').
  2:{ destruct H as (d' & E & Ha). exists d'. split; [|done]. cbn [deserialize].
      by rewrite (dbind_Ok _ _ _ _ _ E). }
  unfold deserialize_struct. set (d0 := push_container (Struct name) d).
  assert (Hread : forall mf, exists d', read_fields (map (fun '(n, s) => (n, deserialize root s)) fs)
      (push_parse (struct_lookup name) (set_meta_field mf d0))
      = Ok (map (visible_field mm v fm) vs, d') /\
      after (push_parse (struct_lookup name) (set_meta_field mf d0)) rest d').
  { intros mf. apply fields_read with (struct_lookup name) (parse d) bs; try done.
    destruct Hd. split; try done. exists (Struct name), (containers d). done. }
  change (message d0) with (message d). change (structures d0) with (structures d).
  rewrite (body_message d Hd), (body_structures d Hd).
  change (default [] (Some (message_structures mm))) with (message_structures mm).
  unfold struct_lookup in Hread.
  destruct (lookup_field (message_structures mm) name) as [found|].
  - destruct (Hread (Some found)) as (d' & E & Ha).
    unfold dbind, dset. cbn [rbind]. rewrite E. cbn [rbind]. eexists. split; [done|].
    rewrite Ha. done.
  - destruct (ends_with name "Request" || ends_with name "Response").
    + destruct (Hread (meta_field d0)) as (d' & E & Ha).
      change (set_meta_field (meta_field d0) d0) with d0 in *.
      unfold dbind, dset. cbn [rbind]. rewrite E. cbn [rbind]. eexists. split; [done|].
      rewrite Ha. done.
    + destruct (Hread None) as (d' & E & Ha).
      unfold dbind, dset. cbn [rbind]. rewrite E. cbn [rbind]. eexists. split; [done|].
      rewrite Ha. done.
Qed.

Lemma de_struct_conforms name fs :
  Forall (fun ns => conforms (snd ns)) fs -> conforms (SStruct name fs).
Proof.
  intros HP fm w bs rest d Hd Hseq _ Hfits Hty Hsend Hw Hi. cbn [fits] in Hfits.
  apply andb_true_iff in Hfits as [[Hname Hres]%andb_true_iff Hfs].
  assert (Hlooks : Forall (looks (struct_lookup name) fm) fs).
  { unfold resolves, struct_lookup in *. apply Forall_forall. intros [n s] Hn.
    destruct (lookup_field (message_structures mm) name) as [found|].
    - left. by rewrite (lookups_eqb_sound _ _ Hres).
    - apply andb_true_iff in Hres as [[Hr Hr']%andb_true_iff Hb].
      apply negb_true_iff in Hr, Hr'. rewrite Hr, Hr'. right. split; [done|].
      rewrite forallb_forall in Hb. apply list_elem_of_In in Hn. specialize (Hb _ Hn).
      cbn in *. intros Hne. by rewrite bool_decide_false in Hb. }
  apply struct_read with bs; try done.
  unfold name_fits in Hname. apply andb_true_iff in Hname as [_ Hr%negb_true_iff].
  apply bool_decide_eq_false in Hr. intros ->. apply Hr. set_solver.
Qed.

(** ** Sequences *)

Lemma elements_read (f : Value -> option bytes) (g : Value -> Value) value l bs rest d :
  concat_opt (map f l) = Some bs -> input d = bs ++ rest ->
  (forall w b r d', w ∈ l -> after d (b ++ r) d' -> f w = Some b ->
     meta_field d' = meta_field d \/ in_seq_of_primitive d = false ->
     exists d'', value d' = Ok (g w, d'') /\ after d' r d'' /\
                 (meta_field d'' = meta_field d' \/ in_seq_of_primitive d = false)) ->
  exists d', read_elements (length l) value d = Ok (map g l, d') /\ after d rest d'.
Proof.
  intros Hw Hi H.
  assert (Hgen : forall l' bs d0, concat_opt (map f l') = Some bs -> l' ⊆ l -> after d (bs ++ rest) d0 ->
    (meta_field d0 = meta_field d \/ in_seq_of_primitive d = false) ->
    exists d', read_elements (length l') value d0 = Ok (map g l', d') /\ after d rest d').
  { clear Hw Hi bs. induction l' as [|w l' IH]; intros bs d0 Hw Hsub Ha Hm.
    { injection Hw as <-. by exists d0. }
    cbn [map concat_opt] in Hw. destruct (f w) as [b1|] eqn:E1; [|done].
    destruct (concat_opt (map f l')) as [b2|] eqn:E2; [|done]. cbn in Hw. injection Hw as <-.
    rewrite <- app_assoc in Ha.
    destruct (H w b1 (b2 ++ rest) d0) as (d1 & Ev & Ha1 & Hm1); try done; [set_solver|].
    destruct (IH b2 d1 eq_refl) as (d2 & Er & Ha2); [set_solver|by eapply de_after_trans| |].
    { destruct Hm1 as [Hm1|?]; [|by right]. destruct Hm as [Hm|?]; [|by right].
      left. by rewrite Hm1. }
    exists d2. split; [|done]. cbn [length read_elements map].
    rewrite (dbind_Ok _ _ _ _ _ Ev), (dbind_Ok _ _ _ _ _ Er). done. }
  apply (Hgen l bs d); [done|done| |by left]. destruct d. cbn in *. by subst.
Qed.

Lemma vec_read s fm l out rest d :
  conforms s -> elements_fit fm s = true -> implb (is_struct s) (fits mm v fm s) = true ->
  forallb (has_shape s) l = true -> forallb sendable l = true ->
  in_body d -> meta_field d = Some fm -> within (version fm) v = true ->
  in_seq_of_primitive d = false ->
  concat_opt (map (write mm v fm) l) = Some out -> input d = out ++ rest ->
  exists d', deserialize root (SVec s) (set_length (Some (Z.of_nat (length l))) d)
             = Ok (VVec (map (visible mm v fm) l), d') /\ after d rest d'.
Proof.
  intros Hs Hel Hfits Hty Hsend Hd Hf Hv Hseq Hw Hi.
  cbn [deserialize]. unfold deserialize_seq. cbn [dlength set_length].
  set (prim := sequence_of is_primitive (set_length (Some (Z.of_nat (length l))) d)).
  set (d1 := set_length None (set_in_seq prim (set_length (Some (Z.of_nat (length l))) d))).
  change (in_records d1) with (in_records d). rewrite (body_records d Hd). cbn [andb].
  unfold read_seq. rewrite Nat2Z.id.
  assert (Hprim : prim = negb (is_struct s) /\ sequence_of Model.is_string d1 = true \/
                  prim = negb (is_struct s) /\ s <> SString).
  { unfold prim, sequence_of. cbn [meta_field set_length set_in_seq d1]. rewrite Hf. cbn [some_and].
    unfold elements_fit in Hel. destruct (kind_of_sequence (kind fm)) as [k|] eqn:Ek; [|done].
    apply andb_true_iff in Hel as [[Hel Hp%bool_decide_eq_true]%andb_true_iff Hstr].
    cbn [some_and]. rewrite Hp. destruct s; try (by right). by left. }
  assert (Hd1 : in_body d1) by (destruct Hd; by split).
  destruct (elements_read (write mm v fm) (visible mm v fm) (deserialize root s) l out rest d1 Hw Hi)
    as (d2 & E & Ha).
  2:{ unfold dbind at 1. rewrite E. cbn [rbind]. eexists. split; [done|].
      rewrite Ha. pose proof (body_length d Hd). destruct d; cbn in *; by subst. }
  intros w b r d' Hin Had Hwb Hm.
  assert (Hty' : has_shape s w = true).
  { rewrite forallb_forall in Hty. by apply Hty, list_elem_of_In. }
  assert (Hsw : sendable w = true).
  { rewrite forallb_forall in Hsend. by apply Hsend, list_elem_of_In. }
  assert (Hd' : in_body d') by (by eapply de_after_body).
  assert (Hi' : input d' = b ++ r) by (by rewrite Had).
  assert (Hp' : in_seq_of_primitive d' = prim) by (by rewrite Had).
  destruct (is_struct s) eqn:Est.
  - assert (prim = false) as Hpf by (destruct Hprim as [[-> _]|[-> _]]; done).
    destruct (Hs fm w b r d') as (d'' & E & Ha); try done;
      [by rewrite Hp'|by rewrite Est|].
    exists d''. split_and!; [done|done|]. right. exact Hpf.
  - assert (prim = true) as Hpt by (destruct Hprim as [[-> _]|[-> _]]; done).
    assert (Hmf : meta_field d' = Some fm).
    { destruct Hm as [->|Hm]; [done|]. change (prim = false) in Hm. congruence. }
    assert (Hsc : scalar s = true).
    { apply elements_fit_spec in Hel as [_ Hel]. by destruct s. }
    rewrite (de_visible_scalar s) by done.
    exists (set_input r d'). split_and!; [|done|by left].
    apply scalar_read with fm b; try done. intros ->.
    split_and!; [by rewrite Hp', Hpt, andb_false_r|by rewrite (de_field_valid d' fm)|].
    right. destruct Hprim as [[_ Hstr]|[_ ?]]; [|done].
    rewrite Hp', Hpt. unfold sequence_of in *. rewrite Hmf. cbn [meta_field set_length set_in_seq d1] in Hstr.
    rewrite Hf in Hstr. rewrite Hstr. by rewrite orb_true_r.
Qed.

(** ** Options *)

Lemma visit_some_Ok value d w d' : value d = Ok (w, d') -> visit_some value d = Ok (VSome w, d').
Proof. intros H. unfold visit_some. by rewrite (dbind_Ok _ _ _ _ _ H). Qed.

Lemma set_length_same d : dlength d = None -> set_length None d = d.
Proof. destruct d; cbn. by intros ->. Qed.

(** A sequence or a string that is there. *)
Lemma present_length t n out value rest d :
  in_body d -> length_of mm v t n = Some out -> input d = out ++ rest ->
  (if flex then compact_option value else fixed_option t value) d
  = visit_some value (set_length (Some (Z.of_nat n)) (set_input rest d)).
Proof.
  intros Hd Hn Hi. unfold length_of in Hn. destruct flex.
  - apply compact_inv in Hn as [Hn ->]. unfold compact_option. rewrite (run_varint _ rest) by done.
    rewrite (proj2 (Z.eqb_neq _ 0)) by lia. unfold dbind, dset. cbn [rbind].
    by replace (Z.of_nat n + 1 - 1) with (Z.of_nat n) by lia.
  - apply fixed_inv in Hn as [Hn ->]. unfold fixed_option. rewrite (run_int _ _ rest) by done.
    rewrite (proj2 (Z.eqb_neq _ (-1))) by lia.
    rewrite (dbind_Ok _ _ _ _ _ (to_usize_conv _ _ (Nat2Z.is_nonneg n))). done.
Qed.

(** And one that is not. *)
Lemma absent_length t value rest d :
  in_body d -> t = I16 \/ t = I32 ->
  input d = (if flex then UnsignedVarInt_encode 0 else put_int t (-1)) ++ rest ->
  (if flex then compact_option value else fixed_option t value) d = Ok (VNone, set_input rest d).
Proof.
  intros Hd Ht Hi. destruct flex.
  - unfold compact_option. rewrite (run_varint 0 rest) by done.
    change (0 =? 0) with true. unfold dbind, dset. cbn [rbind].
    rewrite set_length_same by (apply Hd). done.
  - unfold fixed_option. rewrite (run_int t (-1) rest) by (done || by destruct Ht as [->| ->]).
    change (-1 =? -1) with true. unfold dbind, dset. cbn [rbind]. rewrite set_length_same by (apply Hd). done.
Qed.

(** The option of a record field. *)
Lemma records_length {B} (l : bytes) out (value : Z -> De B) rest d :
  in_body d -> length_of mm v U32 (length l) = Some out -> input d = out ++ rest ->
  dbind (if flex then de! n := unsigned_varint in lift (checked_pred n)
         else run (get_int Io U32)) value d
  = value (Z.of_nat (length l)) (set_input rest d).
Proof.
  intros Hd Hn Hi.
  pose proof (length_read U32 (length l) out rest d value dret Hn Hi (fun z d' _ => eq_refl)) as H.
  destruct flex; [exact H|]. rewrite <- H. unfold dbind, dret.
  by destruct (run (get_int Io U32) d) as [[]| |].
Qed.

Lemma frame_read l rest d :
  in_body d -> in_seq_of_primitive d = false -> l <> [] -> forallb batch_sendable l = true ->
  sized (length (flat_map Deflated.to_bytes l)) = true ->
  input d = flat_map Deflated.to_bytes l ++ rest ->
  exists d', deserialize root SRecords
    (set_in_records true (set_length (Some (Z.of_nat (length (flat_map Deflated.to_bytes l)))) d))
    = Ok (VRecords l, d') /\ after d rest d'.
Proof.
  intros Hd Hseq Hne Hb Hs Hi. cbn [deserialize]. set (bs := flat_map Deflated.to_bytes l) in *.
  set (d0 := set_in_records true _).
  assert (H : exists d', deserialize_struct "Frame" [("batches"%string, deserialize_batches)] d0
    = Ok ([("batches"%string, VRecords l)], d') /\ after d rest d').
  2:{ destruct H as (d' & E & Ha). exists d'. split; [|done]. by rewrite (dbind_Ok _ _ _ _ _ E). }
  unfold deserialize_struct. change (message _) with (message d). change (structures _) with (structures d).
  rewrite (body_message d Hd), (body_structures d Hd).
  change (default [] (Some (message_structures mm))) with (message_structures mm).
  rewrite Hframe. change (ends_with "Frame" "Request" || ends_with "Frame" "Response") with false.
  unfold dbind, dset. cbn [rbind read_fields]. unfold dbind at 1.
  change (parse (set_field _ (push_parse [] _))) with ([] :: parse d). cbn iota.
  unfold deserialize_batches. set (d1 := set_meta_field _ (set_field _ _)).
  change (dlength d1) with (Some (Z.of_nat (length bs))). cbn zeta.
  change (in_records (set_length None _)) with true. cbn iota.
  rewrite (sized_spec _ Hs). rewrite (run_exact _ bs rest) by done.
  unfold lift, dbind, dset. rewrite (read_batches_written l) by (done || (fold bs; lia)). cbn [rbind].
  eexists. split; [done|]. pose proof (body_length d Hd). pose proof (body_records d Hd).
  destruct d; cbn in *; by subst.
Qed.

Section Option.
Context (d : Decoder) (fm : FieldMeta) (Hd : in_body d) (Hseq : in_seq_of_primitive d = false)
  (Hf : meta_field d = Some fm) (Hv : within (version fm) v = true)
  (Hfield : is_field (field d) tag_buffer = false).

Lemma option_cases value :
  deserialize_option value d =
  if Model.is_records (kind fm) then
    (de! length :=
       (if flex then de! n := unsigned_varint in lift (checked_pred n)
        else run (get_int Io U32)) in
     if length =? 0 then visit_none
     else de! _ := dset (fun d => set_in_records true (set_length (Some length) d)) in
          visit_some value) d
  else if Model.is_sequence (kind fm) then
    (if flex then compact_option value else fixed_option I32 value) d
  else if Model.is_string (kind fm) then
    (if flex then compact_option value else fixed_option I16 value) d
  else if Model.is_nullable fm v && Model.is_structure fm then
    (de! presence := run (get_int Io I8) in
     if presence <? 0 then visit_none
     else de! _ := dset (set_length None) in visit_some value) d
  else visit_some value d.
Proof.
  unfold deserialize_option. change "tag_buffer"%string with tag_buffer.
  rewrite Hfield, (de_field_valid d fm), Hv, (de_field_records d fm), (de_field_sequence d fm),
    (de_field_string d fm), (de_field_nullable d fm), (de_field_structure d fm), de_body_flexible by done.
  by rewrite set_length_same by (apply Hd).
Qed.

(** What the type of an option says of the field's kind. *)
Lemma option_kind s :
  fits mm v fm (SOption s) = true ->
  match s with
  | SRecords => Model.is_records (kind fm) = true
  | SVec s => Model.is_records (kind fm) = false /\ Model.is_sequence (kind fm) = true /\
              elements_fit fm s = true /\ implb (is_struct s) (fits mm v fm s) = true
  | SString => Model.is_records (kind fm) = false /\ Model.is_sequence (kind fm) = false /\
               Model.is_string (kind fm) = true /\ Model.is_structure fm = false
  | SStruct _ _ => Model.is_records (kind fm) = false /\ Model.is_sequence (kind fm) = false /\
               Model.is_string (kind fm) = false /\ Model.is_structure fm = true /\
               fits mm v fm s = true
  | _ => scalar s = true /\ Model.is_records (kind fm) = false /\
         Model.is_sequence (kind fm) = false /\ Model.is_string (kind fm) = false /\
         Model.is_nullable fm v = false
  end.
Proof.
  cbn [fits]. destruct s as [| | | | | | | | |s|]; try done;
    try (intros (? & ? & ? & ?)%plain_spec; by split_and!).
  - intros [Hs Hst%negb_true_iff]%andb_true_iff. unfold Model.is_string in Hs.
    apply bool_decide_eq_true in Hs. rewrite Hs. done.
  - intros [Hel Hfits]%andb_true_iff.
    destruct (elements_fit_spec _ _ Hel) as [Hs _]. split_and!; try done.
    unfold Model.is_records. case_bool_decide as E; [|done]. by rewrite E in Hs.
  - rewrite !andb_true_iff, !negb_true_iff. tauto.
Qed.

Lemma none_read s bs rest :
  fits mm v fm (SOption s) = true -> absent mm v fm = Some bs -> input d = bs ++ rest ->
  deserialize root (SOption s) d = Ok (VNone, set_input rest d).
Proof.
  intros Hfits Hw Hi. cbn [deserialize]. rewrite option_cases. unfold absent in Hw.
  pose proof (option_kind s Hfits) as Hk.
  destruct (Model.is_records (kind fm)).
  { destruct flex; injection Hw as <-.
    - unfold dbind at 1. rewrite (run_varint 1 rest) by done. done.
    - rewrite (run_int U32 0 rest) by done. done. }
  destruct (Model.is_nullable fm v) eqn:En; [|done].
  destruct (Model.is_sequence (kind fm)) eqn:Es.
  { rewrite andb_false_r in Hw. apply absent_length; [done|by right|].
    destruct flex; injection Hw as <-; done. }
  rewrite andb_true_r in Hw.
  destruct s; try (by destruct Hk as (_ & _ & _ & _ & ?)); try done.
  - destruct Hk as (_ & _ & Hstr & Hst). rewrite Hst, Hstr in *. apply absent_length; [done|by left|].
    destruct flex; injection Hw as <-; done.
  - by destruct Hk as (_ & ? & _).
  - destruct Hk as (_ & _ & Hstr & Hst & _). rewrite Hst, Hstr in *. injection Hw as <-.
    cbn [andb]. rewrite (run_int I8 (-1) rest) by done. done.
Qed.

Lemma presence_structure :
  Model.is_structure fm = false \/ Model.is_sequence (kind fm) = true -> presence v fm = [].
Proof.
  unfold presence. intros [->| ->]; [by rewrite andb_false_r|]. by rewrite !andb_false_r.
Qed.

Lemma some_write x bs :
  write mm v fm (VSome x) = Some bs -> Model.is_records (kind fm) = false ->
  exists b, write mm v fm x = Some b /\ bs = presence v fm ++ b.
Proof.
  cbn [write]. intros Hw Hr. rewrite Hr in Hw. destruct (write mm v fm x); [|done].
  injection Hw as <-. eauto.
Qed.

Lemma some_string_read b bs rest :
  fits mm v fm (SOption SString) = true -> utf8_valid b = true -> sized (length b) = true ->
  write mm v fm (VSome (VString b)) = Some bs -> input d = bs ++ rest ->
  deserialize root (SOption SString) d = Ok (VSome (VString b), set_input rest d).
Proof.
  intros (Hr & Hq & Hs & Hst)%option_kind Hu Hsz Hw Hi.
  apply some_write in Hw as (w & Hw & ->); [|done].
  rewrite presence_structure in Hi by (by left). cbn [write] in Hw.
  apply prefixed_inv in Hw as (n & Hn & ->). rewrite <- !app_assoc in Hi. cbn [app] in Hi.
  cbn [deserialize]. rewrite option_cases, Hr, Hq, Hs.
  rewrite (present_length I16 (length b) n _ (b ++ rest)) by done.
  apply visit_some_Ok.
  by rewrite (dbind_Ok _ _ _ _ _ (de_take_string _ b rest (set_input (b ++ rest) d) eq_refl Hsz Hu
    eq_refl (body_length d Hd))).
Qed.

Lemma some_records_read l bs rest :
  fits mm v fm (SOption SRecords) = true -> forallb batch_sendable l = true ->
  sized (length (flat_map Deflated.to_bytes l)) = true ->
  write mm v fm (VSome (VRecords l)) = Some bs -> input d = bs ++ rest ->
  exists d', deserialize root (SOption SRecords) d
    = Ok (visible mm v fm (VSome (VRecords l)), d') /\ after d rest d'.
Proof.
  intros Hr%option_kind Hb Hsz Hw Hi. cbn [write] in Hw. rewrite Hr in Hw. unfold write_records in Hw.
  apply prefixed_inv in Hw as (n & Hn & ->). rewrite <- app_assoc in Hi.
  assert (Hcases : deserialize root (SOption SRecords) d =
    (if Z.of_nat (length (flat_map Deflated.to_bytes l)) =? 0 then visit_none
     else de! _ := dset (fun d => set_in_records true (set_length
            (Some (Z.of_nat (length (flat_map Deflated.to_bytes l)))) d)) in
          visit_some (deserialize root SRecords))
      (set_input (flat_map Deflated.to_bytes l ++ rest) d)).
  { change (deserialize root (SOption SRecords)) with (deserialize_option (deserialize root SRecords)).
    rewrite option_cases, Hr. by rewrite (records_length (flat_map Deflated.to_bytes l) n _ _ d Hd Hn Hi). }
  rewrite Hcases. destruct l as [|b0 l]; [by eexists|].
  destruct (Z.eqb_spec (Z.of_nat (length (flat_map Deflated.to_bytes (b0 :: l)))) 0) as [E|_].
  { assert (flat_map Deflated.to_bytes (b0 :: l) = []) as E' by (apply length_zero_iff_nil; lia).
    by apply batches_empty in E'. }
  destruct (frame_read (b0 :: l) rest (set_input (flat_map Deflated.to_bytes (b0 :: l) ++ rest) d))
    as (d' & E & Ha); try done.
  { by apply body_input. }
  exists d'. split; [|done]. unfold dbind at 1. cbn [dset rbind]. by apply visit_some_Ok.
Qed.

Lemma some_vec_read s l bs rest :
  conforms s -> fits mm v fm (SOption (SVec s)) = true ->
  forallb (has_shape s) l = true -> forallb sendable l = true ->
  write mm v fm (VSome (VVec l)) = Some bs -> input d = bs ++ rest ->
  exists d', deserialize root (SOption (SVec s)) d
    = Ok (visible mm v fm (VSome (VVec l)), d') /\ after d rest d'.
Proof.
  intros Hs (Hr & Hq & Hel & Hfits)%option_kind Hty Hsend Hw Hi.
  apply some_write in Hw as (w & Hw & ->); [|done].
  rewrite presence_structure in Hi by (by right). cbn [write] in Hw.
  destruct (concat_opt (map (write mm v fm) l)) as [out|] eqn:Eout; [|done].
  cbn [mbind option_bind] in Hw. apply prefixed_inv in Hw as (n & Hn & ->).
  rewrite <- !app_assoc in Hi. cbn [app] in Hi.
  change (deserialize root (SOption (SVec s))) with (deserialize_option (deserialize root (SVec s))).
  rewrite option_cases, Hr, Hq.
  rewrite (present_length I32 (length l) n _ (out ++ rest)) by done.
  destruct (vec_read s fm l out rest (set_input (out ++ rest) d)) as (d' & E & Ha); try done.
  { by apply body_input. }
  exists d'. split; [|done]. by apply visit_some_Ok.
Qed.

Lemma some_struct_read name fs x bs rest :
  conforms (SStruct name fs) -> fits mm v fm (SOption (SStruct name fs)) = true ->
  has_shape (SStruct name fs) x = true -> sendable x = true ->
  write mm v fm (VSome x) = Some bs -> input d = bs ++ rest ->
  exists d', deserialize root (SOption (SStruct name fs)) d
    = Ok (visible mm v fm (VSome x), d') /\ after d rest d'.
Proof.
  intros Hs (Hr & Hq & Hst & Hstr & Hfits)%option_kind Hty Hsend Hw Hi.
  apply some_write in Hw as (w & Hw & ->); [|done].
  change (deserialize root (SOption (SStruct name fs)))
    with (deserialize_option (deserialize root (SStruct name fs))).
  assert (visible mm v fm (VSome x) = VSome (visible mm v fm x)) as -> by (by destruct x).
  rewrite option_cases, Hr, Hq, Hst, Hstr, andb_true_r. unfold presence in Hi.
  rewrite Hq, Hstr, !andb_true_r in Hi. rewrite <- app_assoc in Hi.
  destruct (Model.is_nullable fm v).
  - rewrite (run_int I8 1 (w ++ rest)) by done. change (1 <? 0) with false. cbn iota.
    unfold dbind at 1. cbn [dset rbind]. rewrite set_length_same by (apply Hd).
    destruct (Hs fm x w rest (set_input (w ++ rest) d)) as (d' & E & Ha); try done.
    { by apply body_input. }
    exists d'. split; [by apply visit_some_Ok|done].
  - destruct (Hs fm x w rest d) as (d' & E & Ha); try done.
    exists d'. split; [by apply visit_some_Ok|done].
Qed.

Lemma some_read s x bs rest :
  conforms s -> (forall s', s = SVec s' -> conforms s') ->
  fits mm v fm (SOption s) = true -> has_shape s x = true -> sendable x = true ->
  write mm v fm (VSome x) = Some bs -> input d = bs ++ rest ->
  exists d', deserialize root (SOption s) d = Ok (visible mm v fm (VSome x), d') /\ after d rest d'.
Proof.
  intros Hs Hvec Hfits Hty Hsend Hw Hi. pose proof (option_kind s Hfits) as Hk.
  assert (Hscalar : scalar s = true -> Model.is_records (kind fm) = false ->
    Model.is_sequence (kind fm) = false -> Model.is_string (kind fm) = false ->
    Model.is_nullable fm v = false -> s <> SString ->
    exists d', deserialize root (SOption s) d = Ok (visible mm v fm (VSome x), d') /\ after d rest d').
  { intros Hsc Hr Hq Hst Hn Hns. cbn [write] in Hw. rewrite Hr in Hw.
    destruct (write mm v fm x) as [b|] eqn:Ew; [|done]. cbn in Hw. unfold presence in Hw.
    rewrite Hn in Hw. injection Hw as <-.
    assert (visible mm v fm (VSome x) = VSome x) as -> by (by destruct s, x).
    cbn [deserialize]. rewrite option_cases, Hr, Hq, Hst, Hn. cbn [andb].
    eexists. split; [apply visit_some_Ok; by eapply scalar_read|done]. }
  destruct s as [| | | | | | | |?|s|name fs]; try (destruct Hk as (? & ? & ? & ? & ?); by apply Hscalar); try done.
  - destruct x as [| | |b| | | | | | | |]; try done. eexists. split; [by eapply some_string_read|done].
  - destruct x as [| | | | | |l| | | | |]; try done. cbn [sendable] in Hsend.
    apply andb_true_iff in Hsend as [? ?]. by eapply some_records_read.
  - destruct x as [| | | | | | | | | |l|]; try done. eapply some_vec_read; try done. by apply Hvec.
  - by eapply some_struct_read.
Qed.
End Option.

(** ** Every shape *)

Lemma de_all_conform s : conforms s /\ (forall s', s = SVec s' -> conforms s').
Proof.
  induction s as [| | | | | | | |w [IHw IHv]|s [IHs IHv]|name fs IH] using Shape_nested_ind.
  all: try (split; [|by intros]; intros fm x bs rest d Hd Hseq Hctx Hfits Hty Hsend Hw Hi;
    destruct (Hctx eq_refl) as (Hf & Hv & _); cbn [fits] in Hfits;
    first [done|
      match goal with H : has_shape ?s x = true |- _ => rewrite (de_visible_scalar s fm x) by done end;
      eexists; split; [by eapply scalar_read|done]]).
  - split; [|by intros]. intros fm x bs rest d Hd Hseq Hctx Hfits Hty Hsend Hw Hi.
    destruct (Hctx eq_refl) as (Hf & Hv & _). rewrite (de_visible_scalar SString fm x) by done.
    exists (set_input rest d). split; [|done]. eapply scalar_read; try done. intros _.
    cbn [fits] in Hfits.
    unfold string_ready.
    rewrite (de_field_nullable d fm), (de_field_valid d fm), Hv, (de_field_string d fm), Hseq by done.
    apply andb_true_iff in Hfits as [Hs Hn%negb_true_iff]. rewrite Hs, Hn. split_and!; [done|done|by right].
  - split; [|by intros]. intros fm x bs rest d Hd Hseq Hctx Hfits Hty Hsend Hw Hi.
    destruct (Hctx eq_refl) as (Hf & Hv & Hfield).
    destruct x as [| | | | | | | | |x| |]; try done.
    + eexists. split; [by eapply none_read|done].
    + by apply some_read with bs.
  - split; [by intros fm x bs rest d Hd Hseq Hctx Hfits|]. intros s' [= <-]. done.
  - split; [|by intros]. apply de_struct_conforms. eapply Forall_impl; [exact IH|]. by intros ? [].
Qed.

(** ** Frames *)

Lemma body_read s body bs rest d :
  message_fits mm v s = true -> has_shape s body = true -> sendable body = true ->
  write mm v (root_meta mm v) body = Some bs -> in_body d -> in_seq_of_primitive d = false ->
  input d = bs ++ rest ->
  exists d', deserialize root s d = Ok (visible mm v (root_meta mm v) body, d') /\ after d rest d'.
Proof.
  intros Hfits Hty Hsend Hw Hd Hseq Hi. destruct s as [| | | | | | | | | |name fs]; try done.
  cbn [message_fits] in Hfits. rewrite !andb_true_iff in Hfits.
  destruct Hfits as [[[[[_ Hname] _] Hstr] Hends] Hfs].
  unfold name_fits in Hname. apply andb_true_iff in Hname as [_ Hr%negb_true_iff].
  apply bool_decide_eq_false in Hr.
  apply struct_read with bs; try done.
  - apply Forall_forall. intros. apply de_all_conform.
  - apply Forall_forall. intros [n s] _. left. unfold struct_lookup.
    rewrite forallb_forall in Hstr. specialize (Hstr name (or_introl eq_refl)).
    apply lookup_unknown in Hstr. rewrite Hstr, Hends. done.
  - intros ->. apply Hr. set_solver.
Qed.

Definition at_field (n : string) (d : Decoder) : Decoder :=
  let d := set_field (Some n) d in
  match parse d with fl :: _ => set_meta_field (lookup_field fl n) d | [] => d end.

Lemma read_fields_cons n value l d w d1 vs d2 :
  value (at_field n d) = Ok (w, d1) -> read_fields l d1 = Ok (vs, d2) ->
  read_fields ((n, value) :: l) d = Ok ((n, w) :: vs, d2).
Proof.
  intros H1 H2. cbn [read_fields]. unfold dbind at 1.
  change (let d := set_field (Some n) d in _) with (at_field n d) in *.
  fold (at_field n d). rewrite H1. cbn [rbind]. by rewrite (dbind_Ok _ _ _ _ _ H2).
Qed.

(** The state in which a header is being read. *)
Definition header_state (i : bytes) (f : string) (kd : MessageKind) (k ver : option Z)
    (m : option MessageMeta) (p : list FieldLookup) : Decoder :=
  mk i [Struct "HeaderMezzanine"; Enum "HeaderMezzanine"; Struct "Frame"] (Some f) (Some kd) k ver m
    (message_structures <$> m) None p None false false.

Definition unknown_names : Prop :=
  forall n, n ∈ header_names -> lookup_field (mm_fields mm) n = None.

Lemma int_field t z rest d :
  t <> I16 -> in_ty t z = true -> input d = put_int t z ++ rest ->
  deserialize root (SInt t) d = Ok (VInt t z, set_input rest d).
Proof. intros Ht Hz Hi. cbn [deserialize]. destruct t; try done; by rewrite (run_int _ z rest). Qed.

Lemma i16_field z rest d d' :
  in_ty I16 z = true -> input d = put_int I16 z ++ rest ->
  (let d := set_input rest d in
   if in_header_struct d && is_field (field d) "api_key" then
     let d := set_api_key z d in
     match requests root !! z with
     | Some mm => set_parse (mm_fields mm :: parse d) (set_message mm d)
     | None => d
     end
   else if in_header_struct d && is_field (field d) "api_version" then set_api_version z d
   else d) = d' ->
  deserialize root (SInt I16) d = Ok (VInt I16 z, d').
Proof.
  intros Hz Hi <-. cbn [deserialize]. apply dbind_Ok with (f := fun z => dret (VInt I16 z)).
  unfold deserialize_i16. by rewrite (run_int _ z rest).
Qed.

Lemma api_key_read k i f :
  requests root !! k = Some mm -> in_ty I16 k = true ->
  deserialize root (SInt I16)
    (at_field "api_key" (header_state (put_int I16 k ++ i) f Request None None None []))
  = Ok (VInt I16 k, header_state i "api_key" Request (Some k) None (Some mm) [mm_fields mm]).
Proof.
  intros Hreq Hk. apply i16_field with i; [done|done|].
  change (in_header_struct _ && is_field _ "api_key") with true. cbn iota zeta. by rewrite Hreq.
Qed.

Lemma at_header_field n i f kd k ver p :
  lookup_field (hd [] p) n = None ->
  at_field n (header_state i f kd k ver (Some mm) p) = header_state i n kd k ver (Some mm) p.
Proof. intros H. unfold at_field, header_state. destruct p; cbn in *; [done|]. by rewrite H. Qed.

Lemma client_id_read k id bs i f :
  lookup_field (mm_fields mm) "client_id" = None ->
  from_option utf8_valid true id = true -> write_client_id id = Some bs ->
  deserialize root (SOption SString)
    (at_field "client_id" (header_state (bs ++ i) f Request (Some k) (Some v) (Some mm) [mm_fields mm]))
  = Ok (Encoder.option_value VString id,
        header_state i "client_id" Request (Some k) (Some v) (Some mm) [mm_fields mm]).
Proof.
  intros Hu Hutf Hw. rewrite at_header_field by done. cbn [deserialize]. unfold deserialize_option.
  set (d := header_state _ _ _ _ _ _ _). change (is_valid d) with true.
  change (is_field (field d) "tag_buffer") with false. change (is_records d) with false.
  change (is_sequence d) with false. change (is_string d) with true.
  change (is_flexible d) with false. cbn iota. unfold fixed_option.
  destruct id as [b|]; cbn [write_client_id] in Hw.
  - apply prefixed_inv in Hw as (n & [Hn ->]%fixed_inv & ->).
    rewrite (run_int I16 (Z.of_nat (length b)) (b ++ i)) by (done || (cbn; by rewrite <- app_assoc)).
    rewrite (proj2 (Z.eqb_neq _ (-1))) by lia.
    rewrite (dbind_Ok _ _ _ _ _ (to_usize_conv _ _ (Nat2Z.is_nonneg (length b)))).
    unfold dbind at 1. cbn [dset rbind]. apply visit_some_Ok.
    assert (Hsz : sized (length b) = true).
    { unfold sized, MESSAGE_MAX_SIZE. apply Z.leb_le. change (in_i16 (Z.of_nat (length b)) = true) in Hn.
      apply s_range_spec in Hn. lia. }
    by rewrite (dbind_Ok _ _ _ _ _ (de_take_string _ b i (set_input (b ++ i) d) eq_refl Hsz Hutf
      eq_refl eq_refl)).
  - injection Hw as <-. by rewrite (run_int I16 (-1) i) by done.
Qed.

Lemma header_tags_read i f kd k p :
  lookup_field (hd [] p) "tag_buffer" = None ->
  deserialize root (SOption STagBuffer)
    (at_field "tag_buffer" (header_state
       ((if flex && negb (match kd with Request => false | Response => k =? 18 end)
         then no_tags else []) ++ i) f kd (Some k) (Some v) (Some mm) p))
  = Ok (if flex && negb (match kd with Request => false | Response => k =? 18 end)
        then VSome (VTagBuffer []) else VNone,
        header_state i "tag_buffer" kd (Some k) (Some v) (Some mm) p).
Proof.
  intros Hu. rewrite at_header_field by done. cbn [deserialize]. unfold deserialize_option.
  set (d := header_state _ _ _ _ _ _ _). change (is_valid d) with true.
  change (is_field (field d) "tag_buffer") with true. cbn iota.
  assert (is_flexible d = flex && negb (match kd with Request => false | Response => k =? 18 end)) as ->.
  { unfold is_flexible, d. destruct kd; cbn -[Model.is_flexible]; [by rewrite andb_true_r|].
    destruct (k =? 18); cbn -[Model.is_flexible]; [by rewrite andb_false_r|by rewrite andb_true_r]. }
  destruct (flex && _); [|done]. apply visit_some_Ok.
  unfold deserialize_tag_buffer. cbn [dlength set_length].
  by rewrite (dbind_run TagBuffer_deserialize _ _ [] i) by done.
Qed.

(** The tag buffer of a header, as it is read back. *)
Definition header_tags (b : bool) : Value := if b then VSome (VTagBuffer []) else VNone.

Lemma request_header_read k c id h i f :
  requests root !! k = Some mm -> unknown_names ->
  in_ty I16 k = true -> in_ty I16 v = true -> in_ty I32 c = true ->
  from_option utf8_valid true id = true -> request_header mm v k c id = Some h ->
  deserialize_header root
    (mk (h ++ i) [Struct "Frame"] f (Some Request) None None None None None [] None false false)
  = Ok (VStruct "Request" [("api_key", VInt I16 k); ("api_version", VInt I16 v);
          ("correlation_id", VInt I32 c); ("client_id", Encoder.option_value VString id);
          ("tag_buffer", header_tags flex)]%string,
        mk i [Struct "Frame"] (Some "tag_buffer"%string) (Some Request) (Some k) (Some v) (Some mm)
          (Some (message_structures mm)) None [mm_fields mm] None false false).
Proof.
  intros Hreq Hu Hk Hv Hc Hid Hh. unfold request_header in Hh.
  destruct (write_client_id id) as [bs|] eqn:Ebs; [|done].
  cbn [mbind option_bind] in Hh. injection Hh as <-.
  set (tags := if flex then no_tags else []).
  set (i0 := put_int I16 v ++ put_int I32 c ++ bs ++ tags ++ i).
  assert (Hfields : read_fields
    [("api_key", deserialize root (SInt I16)); ("api_version", deserialize root (SInt I16));
     ("correlation_id", deserialize root (SInt I32));
     ("client_id", deserialize root (SOption SString));
     ("tag_buffer", deserialize root (SOption STagBuffer))]%string
    (mk (put_int I16 k ++ i0) [Struct "HeaderMezzanine"; Enum "HeaderMezzanine"; Struct "Frame"] f
       (Some Request) None None None None None [] None false false)
    = Ok ([("api_key", VInt I16 k); ("api_version", VInt I16 v);
          ("correlation_id", VInt I32 c); ("client_id", Encoder.option_value VString id);
          ("tag_buffer", header_tags flex)]%string,
        header_state i "tag_buffer" Request (Some k) (Some v) (Some mm) [mm_fields mm])).
  { assert (Hn : forall n, n ∈ header_names -> lookup_field (hd [] [mm_fields mm]) n = None) by done.
    eapply read_fields_cons; [exact (api_key_read k i0 "" Hreq Hk)|].
    eapply read_fields_cons.
    { rewrite at_header_field by (apply Hn; set_solver). by eapply i16_field. }
    eapply read_fields_cons.
    { match goal with |- deserialize _ _ (at_field _ ?d) = _ =>
        change d with (header_state (put_int I32 c ++ bs ++ tags ++ i) "api_version" Request
                         (Some k) (Some v) (Some mm) [mm_fields mm]) end.
      rewrite at_header_field by (apply Hn; set_solver). by eapply int_field. }
    eapply read_fields_cons.
    { change (set_input ?r (header_state _ ?f ?kd ?a ?b ?m ?p)) with (header_state r f kd a b m p).
      apply client_id_read; [apply Hn; set_solver|done|done]. }
    eapply read_fields_cons; [|done].
    pose proof (header_tags_read i "client_id" Request k [mm_fields mm]) as Ht.
    rewrite andb_true_r in Ht. apply Ht, Hn. set_solver. }
  unfold deserialize_header, deserialize_enum, dbind at 1.
  change (deserialize_identifier _) with
    (Ok ("Request"%string, push_container (Enum "HeaderMezzanine")
      (mk ((put_int I16 k ++ put_int I16 v ++ put_int I32 c ++ bs ++ tags) ++ i) [Struct "Frame"] f
         (Some Request) None None None None None [] None false false))).
  cbn [rbind]. rewrite bool_decide_true by done. rewrite <- !app_assoc. fold i0.
  unfold deserialize_struct, dbind. cbn iota.
  change (message _) with (@None MessageMeta). cbn iota.
  change (push_container _ (push_container _ _)) with
    (mk (put_int I16 k ++ i0) [Struct "HeaderMezzanine"; Enum "HeaderMezzanine"; Struct "Frame"] f
       (Some Request) None None None None None [] None false false).
  rewrite Hfields. done.
Qed.

Lemma response_header_read k c i f :
  lookup_field (message_structures mm) "HeaderMezzanine" = None ->
  in_ty I32 c = true ->
  deserialize_header root
    (mk (response_header mm v k c ++ i) [Struct "Frame"] f (Some Response) (Some k) (Some v)
       (Some mm) (Some (message_structures mm)) None [[]; mm_fields mm] None false false)
  = Ok (VStruct "Response" [("correlation_id", VInt I32 c);
          ("tag_buffer", header_tags (flex && negb (k =? 18)%Z))]%string,
        mk i [Struct "Frame"] (Some "tag_buffer"%string) (Some Response) (Some k) (Some v) (Some mm)
          (Some (message_structures mm)) None [[]; mm_fields mm] None false false).
Proof.
  intros Hs Hc. unfold response_header.
  set (tags := if flex && negb (k =? 18) then no_tags else []).
  assert (Hfields : read_fields
    [("correlation_id", deserialize root (SInt I32));
     ("tag_buffer", deserialize root (SOption STagBuffer))]%string
    (mk (put_int I32 c ++ tags ++ i)
       [Struct "HeaderMezzanine"; Enum "HeaderMezzanine"; Struct "Frame"] f (Some Response) (Some k)
       (Some v) (Some mm) (Some (message_structures mm)) None [[]; []; mm_fields mm] None false false)
    = Ok ([("correlation_id", VInt I32 c);
           ("tag_buffer", header_tags (flex && negb (k =? 18)%Z))]%string,
        header_state i "tag_buffer" Response (Some k) (Some v) (Some mm) [[]; []; mm_fields mm])).
  { eapply read_fields_cons; [by eapply int_field|]. eapply read_fields_cons; [|done].
    exact (header_tags_read i "correlation_id" Response k [[]; []; mm_fields mm] eq_refl). }
  unfold deserialize_header, deserialize_enum, dbind at 1.
  change (deserialize_identifier _) with
    (Ok ("Response"%string, push_container (Enum "HeaderMezzanine")
      (mk ((put_int I32 c ++ tags) ++ i) [Struct "Frame"] f (Some Response) (Some k) (Some v)
         (Some mm) (Some (message_structures mm)) None [[]; mm_fields mm] None false false))).
  cbn [rbind]. rewrite <- !app_assoc.
  rewrite bool_decide_false by done. rewrite bool_decide_true by done.
  unfold deserialize_struct, dbind. cbn iota.
  change (message _) with (Some mm). change (structures _) with (Some (message_structures mm)).
  change (default [] (Some (message_structures mm))) with (message_structures mm).
  cbn iota. rewrite Hs.
  change (ends_with "HeaderMezzanine" "Request" || ends_with "HeaderMezzanine" "Response") with false.
  cbn [dset rbind].
  change (push_parse [] _) with
    (mk (put_int I32 c ++ tags ++ i)
       [Struct "HeaderMezzanine"; Enum "HeaderMezzanine"; Struct "Frame"] f (Some Response) (Some k)
       (Some v) (Some mm) (Some (message_structures mm)) None [[]; []; mm_fields mm] None false false).
  rewrite Hfields. done.
Qed.

(** The body, at its place in a frame. *)
Lemma body_field_read bodies s body b rest d :
  message_fits mm v s = true -> has_shape s body = true -> sendable body = true ->
  body_shape bodies (mm_name mm) = Some s ->
  write mm v (root_meta mm v) body = Some b -> input d = b ++ rest ->
  api_version d = Some v -> message d = Some mm -> structures d = Some (message_structures mm) ->
  dlength d = None -> in_records d = false -> in_seq_of_primitive d = false ->
  exists d', deserialize_body root bodies d = Ok (visible mm v (root_meta mm v) body, d') /\
             input d' = rest /\ parse d' = parse d.
Proof.
  intros Hfits Hty Hsend Hbody Hw Hi Hver Hmsg Hstr Hlen Hrec Hseq.
  set (d0 := push_container (Enum "Body") d).
  assert (Hd : in_body d0) by (split; try done; by exists (Enum "Body"), (containers d)).
  destruct (body_read s body b rest d0) as (d1 & E & Ha); try done.
  exists (pop_container d1). split_and!; [|by rewrite Ha|by rewrite Ha].
  unfold deserialize_body, deserialize_enum, dbind.
  assert (deserialize_identifier d0 = Ok (mm_name mm, d0)) as E0.
  { unfold deserialize_identifier. change (containers d0) with (Enum "Body" :: containers d).
    change (message d0) with (message d). by rewrite Hmsg. }
  fold d0. rewrite E0. cbn [rbind]. rewrite Hbody, E. done.
Qed.

Lemma frame_fields_read bodies s d d1 hv rest0 body b rest size :
  message_fits mm v s = true -> has_shape s body = true -> sendable body = true ->
  body_shape bodies (mm_name mm) = Some s ->
  write mm v (root_meta mm v) body = Some b -> in_ty I32 size = true ->
  input d = put_int I32 size ++ rest0 -> 
  deserialize_header root (at_field "header" (set_input rest0 (at_field "size" d))) = Ok (hv, d1) ->
  input d1 = b ++ rest -> api_version d1 = Some v -> message d1 = Some mm ->
  structures d1 = Some (message_structures mm) -> dlength d1 = None -> in_records d1 = false ->
  in_seq_of_primitive d1 = false ->
  exists d', read_fields
    [("size", deserialize root (SInt I32)); ("header", deserialize_header root);
     ("body", deserialize_body root bodies)]%string d
    = Ok ([("size", VInt I32 size); ("header", hv);
           ("body", visible mm v (root_meta mm v) body)]%string, d') /\ input d' = rest.
Proof.
  intros Hfits Hty Hsend Hbody Hw Hsz Hi Hh Hi1 Hver Hmsg Hstr Hlen Hrec Hseq.
  assert (Hat : forall n x, input (at_field n x) = input x /\ api_version (at_field n x) = api_version x /\
    message (at_field n x) = message x /\ structures (at_field n x) = structures x /\
    dlength (at_field n x) = dlength x /\ in_records (at_field n x) = in_records x /\
    in_seq_of_primitive (at_field n x) = in_seq_of_primitive x).
  { intros n x. unfold at_field. cbn. by destruct (parse x). }
  destruct (Hat "body"%string d1) as (A1 & A2 & A3 & A4 & A5 & A6 & A7).
  destruct (body_field_read bodies s body b rest (at_field "body" d1)) as (d2 & E2 & Hr & _);
    try done; try congruence.
  exists d2. split; [|done].
  eapply read_fields_cons.
  { eapply int_field; [done|done|]. by rewrite (proj1 (Hat _ _)). }
  eapply read_fields_cons; [exact Hh|]. by eapply read_fields_cons.
Qed.

Lemma sized_frame_inv bs out :
  sized_frame bs = Some out ->
  in_ty I32 (Z.of_nat (length bs)) = true /\ out = put_int I32 (Z.of_nat (length bs)) ++ bs.
Proof. unfold sized_frame. by intros (n & [? ->]%fixed_inv & ->)%prefixed_inv. Qed.
End DecoderSpec.

Section Frames.
Context (root : RootMessageMeta) (mm : MessageMeta) (v : Z) (bodies : list (string * Shape)).
Context (s : Shape) (Hfits : message_fits mm v s = true)
  (Hbody : body_shape bodies (mm_name mm) = Some s).

Lemma fits_names n : n ∈ header_names -> lookup_field (mm_fields mm) n = None.
Proof. by apply header_unknown with v s. Qed.

Lemma fits_structures n :
  n ∈ reserved -> lookup_field (message_structures mm) n = None.
Proof.
  intros Hn. destruct s as [| | | | | | | | | |name fs]; try done.
  cbn [message_fits] in Hfits. rewrite !andb_true_iff in Hfits.
  destruct Hfits as [[[_ Hr] _] _]. rewrite forallb_forall in Hr.
  apply lookup_unknown, Hr. right. by apply list_elem_of_In.
Qed.

(** [Frame::request_from_bytes] reads back what the grammar writes. *)
Lemma request_read k c id body bs rest :
  requests root !! k = Some mm -> has_shape s body = true -> sendable body = true ->
  in_ty I16 k = true -> in_ty I16 v = true -> in_ty I32 c = true ->
  from_option utf8_valid true id = true -> write_request mm v k c id body = Some bs ->
  request_from_bytes root bodies (bs ++ rest)
  = Ok (mkFrame (Z.of_nat (length bs) - 4) (Encoder.HRequest k v c id)
          (visible mm v (root_meta mm v) body), rest).
Proof.
  intros Hreq Hty Hsend Hk Hv Hc Hid Hw. unfold write_request in Hw.
  destruct (request_header mm v k c id) as [h|] eqn:Eh; [|done].
  destruct (write mm v (root_meta mm v) body) as [b|] eqn:Eb; [|done].
  cbn [mbind option_bind] in Hw. apply sized_frame_inv in Hw as [Hsz ->].
  set (size := Z.of_nat (length (h ++ b))) in *. rewrite <- !app_assoc.
  set (d0 := push_container (Struct "Frame") (new_request (put_int I32 size ++ h ++ b ++ rest))).
  assert (Hh : deserialize_header root (at_field "header" (set_input (h ++ b ++ rest) (at_field "size" d0)))
    = Ok (VStruct "Request" [("api_key", VInt I16 k); ("api_version", VInt I16 v);
            ("correlation_id", VInt I32 c); ("client_id", Encoder.option_value VString id);
            ("tag_buffer", header_tags (Model.is_flexible mm v))]%string,
          mk (b ++ rest) [Struct "Frame"] (Some "tag_buffer"%string) (Some Request) (Some k) (Some v)
            (Some mm) (Some (message_structures mm)) None [mm_fields mm] None false false)).
  { apply (request_header_read root mm v (fits_structures "Frame" ltac:(set_solver)) k c id h (b ++ rest)
      (Some "header"%string)); try done. exact fits_names. }
  destruct (frame_fields_read root mm v (fits_structures "Frame" ltac:(set_solver)) bodies s d0 _ _
    (h ++ b ++ rest) body b rest size Hfits Hty Hsend Hbody Eb Hsz eq_refl Hh) as (d' & E & Hr); try done.
  assert (Ef : deserialize_frame root bodies (new_request (put_int I32 size ++ h ++ b ++ rest))
    = Ok (mkFrame size (Encoder.HRequest k v c id) (visible mm v (root_meta mm v) body),
          pop_container d')).
  { unfold deserialize_frame. erewrite dbind_Ok.
    2:{ unfold deserialize_struct. change (message _) with (@None MessageMeta). cbn iota.
        fold d0. by rewrite (dbind_Ok _ _ _ _ _ E). }
    cbn iota. unfold lift, dbind. by destruct id. }
  unfold request_from_bytes. rewrite Ef. cbn [rbind]. rewrite <- Hr. do 3 f_equal.
  unfold size. rewrite !length_app, length_put_int. cbn [width]. lia.
Qed.

(** [Frame::response_from_bytes], likewise. *)
Lemma response_read k c body bs rest :
  responses root !! k = Some mm -> has_shape s body = true -> sendable body = true ->
  in_ty I32 c = true -> write_response mm v k c body = Some bs ->
  response_from_bytes root bodies (bs ++ rest) k v
  = Ok (mkFrame (Z.of_nat (length bs) - 4) (Encoder.HResponse c)
          (visible mm v (root_meta mm v) body), rest).
Proof.
  intros Hresp Hty Hsend Hc Hw. unfold write_response in Hw.
  destruct (write mm v (root_meta mm v) body) as [b|] eqn:Eb; [|done].
  cbn [mbind option_bind] in Hw. apply sized_frame_inv in Hw as [Hsz ->].
  set (h := response_header mm v k c) in *. set (size := Z.of_nat (length (h ++ b))) in *.
  rewrite <- !app_assoc.
  pose proof (fits_structures "Frame" ltac:(set_solver)) as Hfr.
  set (d0 := mk (put_int I32 size ++ h ++ b ++ rest) [Struct "Frame"] None (Some Response) (Some k)
    (Some v) (Some mm) (Some (message_structures mm)) None [[]; mm_fields mm] None false false).
  assert (Hh : deserialize_header root (at_field "header" (set_input (h ++ b ++ rest) (at_field "size" d0)))
    = Ok (VStruct "Response" [("correlation_id", VInt I32 c);
            ("tag_buffer", header_tags (Model.is_flexible mm v && negb (k =? 18)%Z))]%string,
          mk (b ++ rest) [Struct "Frame"] (Some "tag_buffer"%string) (Some Response) (Some k) (Some v)
            (Some mm) (Some (message_structures mm)) None [[]; mm_fields mm] None false false)).
  { apply (response_header_read root mm v); try done. apply fits_structures. set_solver. }
  destruct (frame_fields_read root mm v Hfr bodies s d0 _ _
    (h ++ b ++ rest) body b rest size Hfits Hty Hsend Hbody Eb Hsz eq_refl Hh) as (d' & E & Hr); try done.
  set (dn := mk (put_int I32 size ++ h ++ b ++ rest) [] None (Some Response) (Some k) (Some v) (Some mm)
    (Some (message_structures mm)) None [mm_fields mm] None false false).
  assert (Ef : deserialize_frame root bodies dn
    = Ok (mkFrame size (Encoder.HResponse c) (visible mm v (root_meta mm v) body),
          pop_container (pop_parse d'))).
  { unfold deserialize_frame. erewrite dbind_Ok.
    2:{ unfold deserialize_struct. change (message (push_container _ dn)) with (Some mm).
        change (default [] (structures (push_container _ dn))) with (message_structures mm).
        cbn iota. rewrite Hfr.
        change (ends_with "Frame" "Request" || ends_with "Frame" "Response") with false. cbn iota.
        unfold dbind at 1. unfold dbind at 1. cbn [dset rbind].
        change (push_parse [] _) with d0. by rewrite (dbind_Ok _ _ _ _ _ E). }
    cbn iota. unfold lift, dbind. by destruct (Model.is_flexible mm v && negb (k =? 18)). }
  unfold response_from_bytes, new_response. rewrite Hresp. fold dn. rewrite Ef. cbn [rbind].
  rewrite <- Hr. do 3 f_equal. unfold size. rewrite !length_app, length_put_int. cbn [width]. lia.
Qed.
End Frames.
