(* ===== verification/Tagged.v ===== *)
(** * Tagged: the values inside tag buffers

    A field with a tag is not part of the structure the codec of [Encoder] and
    [Decoder] sees: [build.rs] moves it, encoded by a codec of its own
    ([tansu-sans-io/src/primitive/tagged/ser.rs] and [tagged/de.rs]), into the
    structure's tag buffer, and back.  This codec has no metadata: every length is
    compact, and an option is its length or a zero. *)

From S2P Require Export DecoderSpec.
Import Model Serde Varint Grammar.

Module Tagged.

(** ** [tagged/ser.rs] *)

Definition unsigned_length (n : nat) : result bytes :=
  if in_u32 (Z.of_nat (n + 1)) then Ok (UnsignedVarInt_encode (Z.of_nat (n + 1)))
  else Err TryFromInt.

Fixpoint concat_result (l : list (result bytes)) : result bytes :=
  match l with
  | [] => Ok []
  | r :: l => let! a := r in let! b := concat_result l in Ok (a ++ b)
  end.

(** The fields of a batch before its data. *)
Definition batch_head (b : Deflated.Batch) : bytes :=
  take (length (Deflated.to_bytes b) - length (Deflated.record_data b)) (Deflated.to_bytes b).

(** [Encoder::encode]. *)
Fixpoint encode (v : Value) : result bytes :=
  match v with
  | VBool b => Ok (put_int U8 (if b then 1 else 0))
  | VInt t z => Ok (put_int t z)
  | VF64 bits => Ok (put_int U64 bits)
  | VString s => let! n := unsigned_length (length s) in Ok (n ++ s)
  | VBytes b => let! n := unsigned_length (length b) in Ok (n ++ b)
  | VUuid b => Ok b
  | VRecords batches =>
      let! n := unsigned_length (length batches) in
      let! bs := concat_result (map (fun b =>
        let! n := unsigned_length (length (Deflated.record_data b)) in
        Ok (batch_head b ++ n ++ Deflated.record_data b)) batches) in
      Ok (n ++ bs)
  | VTagBuffer tags => TagBuffer_serialize tags
  | VNone => Ok (UnsignedVarInt_encode 0)
  | VSome v => encode v
  | VVec l =>
      let! n := unsigned_length (length l) in
      let! bs := concat_result (map encode l) in Ok (n ++ bs)
  | VStruct _ fs => concat_result (map (fun '(_, v) => encode v) fs)
  end.

(** ** [tagged/de.rs]

    The decoder's state: the length an option has read for the value after it,
    and the reader. *)

Definition State : Type := option Z * bytes.
Definition De (A : Type) : Type := State -> result (A * State).

Definition dret {A} (a : A) : De A := fun s => Ok (a, s).
Definition dbind {A B} (m : De A) (f : A -> De B) : De B :=
  fun s => let! (a, s) := m s in f a s.
Definition run {A} (r : reader A) : De A :=
  fun s => let! (a, rest) := r (snd s) in Ok (a, (fst s, rest)).

Notation "'tag!' x := m 'in' k" := (dbind m (fun x => k))
  (at level 200, x pattern, m at level 100, k at level 200,
   format "'[v' 'tag!'  x  :=  m  'in' '/' k ']'") : kodansu_scope.

(** A compact length. *)
Definition compact_length : reader Z :=
  read! n := Decoder.varint in
  if n =? 0 then fail Overflow else ret (n - 1).

Definition deserialize_string : De bytes := fun s =>
  let (length, input) := s in
  (tag! length := match length with Some n => dret n | None => run compact_length end in
   if Decoder.MESSAGE_MAX_SIZE <? length then fun _ => Err (MessageMaxSizeExceeded length)
   else
   tag! buf := run (take_n Io (Z.to_nat length)) in
   if utf8_valid buf then dret buf else fun _ => Err Utf8) (None, input).

(** Elements of a sequence with a length, which ends after it. *)
Fixpoint read_elements (n : nat) (value : De Value) : De (list Value) :=
  match n with
  | O => dret []
  | S n => tag! v := value in tag! l := read_elements n value in dret (v :: l)
  end.

(** [UnsignedVarInt]'s visitor over at most [n] bytes. *)
Definition bounded_varint (n : Z) : reader Z := fun bs =>
  match decode_loop 32 0 0 (take (Z.to_nat n) bs) with
  | Ok (a, rest) => Ok (a, rest ++ drop (Z.to_nat n) bs)
  | Err TryGet => if Z.of_nat (length bs) <? n then Err Io else Err (custom "byte")
  | Err Overflow => Err (custom "overflow")
  | r => r
  end.

Definition varint_value : reader Z := read! n := compact_length in bounded_varint n.

Definition tag_field_value : reader TagField :=
  read! n := compact_length in
  if n =? 0 then fail (custom "tag")
  else
  read! tag := varint_value in
  if n =? 1 then fail (custom "length")
  else
  read! length := varint_value in
  if MAXIMUM_TAGGED_FIELDS <? length then fail (custom "maximum tagged fields exceeded")
  else
  read! data := take_n Io (Z.to_nat (Z.min length (n - 2))) in
  if n - 2 <? length then fail (custom "byte") else ret (mkTag tag data).

Definition tag_buffer_value : reader TagBuffer :=
  read! n := compact_length in
  if n =? 0 then fail (custom "tag")
  else
  read! number := varint_value in
  if MAXIMUM_TAGGED_FIELDS <? number then fail (custom "maximum tagged fields exceeded")
  else
  read! tags := read_n (Z.to_nat (Z.min number (n - 1))) tag_field_value in
  if n - 1 <? number then fail (custom "tagged field") else ret tags.

Definition deserialize_option (value : De Value) : De Value :=
  tag! n := run Decoder.varint in
  if n =? 0 then dret VNone
  else fun s => (tag! v := value in dret (VSome v)) (Some (n - 1), snd s).

(** [deserialize_bytes], [deserialize_byte_buf] and [deserialize_tuple] refuse. *)
Definition unexpected {A} : De A := fun _ => Err (UnexpectedType EmptyString).

Fixpoint deserialize (s : Shape) : De Value :=
  match s with
  | SBool => tag! b := run (get_int Io U8) in dret (VBool (negb (b =? 0)))
  | SInt t => tag! z := run (get_int Io t) in dret (VInt t z)
  | SF64 => tag! z := run (get_int Io U64) in dret (VF64 z)
  | SString => tag! b := deserialize_string in dret (VString b)
  | SBytes => unexpected
  | SUuid => unexpected
  | SRecords =>
      tag! n := run compact_length in
      if n =? 0 then dret (VRecords []) else unexpected
  | STagBuffer => tag! tags := run tag_buffer_value in dret (VTagBuffer tags)
  | SOption s => deserialize_option (deserialize s)
  | SVec s =>
      tag! n := run compact_length in
      tag! l := read_elements (Z.to_nat n) (deserialize s) in
      dret (VVec l)
  | SStruct name l =>
      tag! vs := (fix go (l : list (string * Shape)) : De (list (string * Value)) :=
        match l with
        | [] => dret []
        | (n, s) :: l => tag! v := deserialize s in tag! vs := go l in dret ((n, v) :: vs)
        end) l in
      dret (VStruct name vs)
  end.

(** [TagBuffer::decode] of a type: the first field of that tag. *)
Definition find_tag (tag : Z) (l : TagBuffer) : option TagField :=
  List.find (fun f => tag_id f =? tag) l.

Definition decode (s : Shape) (tag : Z) (l : TagBuffer) : result (option Value) :=
  match find_tag tag l with
  | None => Ok None
  | Some f => let! (v, _) := deserialize s (None, data f) in Ok (Some v)
  end.

(** ** The types that survive *)

(** Numbers, strings, nullable strings, structures of them and arrays of those. *)
Fixpoint tag_simple (s : Shape) : bool :=
  match s with
  | SBool | SInt _ | SF64 | SString => true
  | SOption SString => true
  | SVec s => tag_simple s
  | SStruct _ fs =>
      forallb (fun '(n, s) => if bool_decide (n = tag_buffer) then is_tags s else tag_simple s) fs
  | _ => false
  end.

Definition tag_field_simple (ns : string * Shape) : bool :=
  let '(n, s) := ns in if bool_decide (n = tag_buffer) then is_tags s else tag_simple s.

(** Nested tag buffers are there and empty. *)
Fixpoint untagged (v : Value) : bool :=
  match v with
  | VTagBuffer l => bool_decide (length l = 0%nat)
  | VSome w => untagged w
  | VVec l => forallb untagged l
  | VStruct _ fs =>
      forallb (fun '(k, w) =>
        untagged w && implb (bool_decide (k = tag_buffer))
                        match w with VSome _ => true | _ => false end) fs
  | _ => true
  end.

(** What comes back: an empty tag buffer is its own absence. *)
Fixpoint tag_seen (v : Value) : Value :=
  match v with
  | VSome w => match w with VTagBuffer _ => VNone | _ => VSome (tag_seen w) end
  | VVec l => VVec (map tag_seen l)
  | VStruct name fs => VStruct name (map (fun '(k, w) => (k, tag_seen w)) fs)
  | _ => v
  end.

End Tagged.
Import Tagged.

(** ** Round trip *)

Lemma tbind_Ok {A B} (m : De A) (f : A -> De B) s a s' :
  m s = Ok (a, s') -> dbind m f s = f a s'.
Proof. unfold dbind. by intros ->. Qed.

Lemma trun {A B} (r : reader A) (f : A -> De B) o i a rest :
  r i = Ok (a, rest) -> dbind (run r) f (o, i) = f a (o, rest).
Proof. intros H. unfold dbind, run. cbn [fst snd]. by rewrite H. Qed.

Lemma trun_int {B} t z rest (f : Z -> De B) o :
  in_ty t z = true -> dbind (run (get_int Io t)) f (o, put_int t z ++ rest) = f z (o, rest).
Proof. intros Hz. apply trun. rewrite get_put_int. by rewrite cast_small. Qed.

Lemma unsigned_length_inv n bs :
  unsigned_length n = Ok bs ->
  in_u32 (Z.of_nat n + 1) = true /\ bs = UnsignedVarInt_encode (Z.of_nat n + 1).
Proof.
  unfold unsigned_length. replace (Z.of_nat (n + 1)) with (Z.of_nat n + 1) by lia.
  destruct (in_u32 _); [|done]. by intros [= <-].
Qed.

Lemma compact_length_read n bs rest :
  unsigned_length n = Ok bs -> compact_length (bs ++ rest) = Ok (Z.of_nat n, rest).
Proof.
  intros [Hn ->]%unsigned_length_inv. unfold compact_length.
  erewrite bind_Ok by (by apply varint_encoded).
  rewrite (proj2 (Z.eqb_neq _ 0)) by lia. unfold ret. do 2 f_equal. lia.
Qed.

Definition tag_reads (s : Shape) : Prop := forall v bs rest,
  tag_simple s = true -> has_shape s v = true -> sendable v = true -> untagged v = true ->
  encode v = Ok bs -> deserialize s (None, bs ++ rest) = Ok (tag_seen v, (None, rest)).

Lemma tag_string_taken s rest o n :
  match o with Some m => m = Z.of_nat (length s) | None => True end ->
  match o with Some _ => n = [] | None => unsigned_length (length s) = Ok n end ->
  sized (length s) = true -> utf8_valid s = true ->
  deserialize_string (o, n ++ s ++ rest) = Ok (s, (None, rest)).
Proof.
  intros Ho Hn Hs Hu. unfold deserialize_string.
  assert (H : match o with Some n => dret n | None => run compact_length end (None, n ++ s ++ rest)
              = Ok (Z.of_nat (length s), (None, s ++ rest))).
  { destruct o as [m|]; [by subst|]. unfold run. cbn [fst snd].
    by rewrite (compact_length_read _ _ _ Hn). }
  rewrite (tbind_Ok _ _ _ _ _ H), (sized_spec _ Hs).
  rewrite (trun _ _ _ _ s rest) by (apply take_n_app; lia). by rewrite Hu.
Qed.

Lemma tag_elements_read s l bs rest :
  tag_reads s -> tag_simple s = true -> forallb (has_shape s) l = true ->
  forallb sendable l = true -> forallb untagged l = true ->
  concat_result (map encode l) = Ok bs ->
  read_elements (length l) (deserialize s) (None, bs ++ rest) = Ok (map tag_seen l, (None, rest)).
Proof.
  intros Hs Hsimple. revert bs. induction l as [|v l IH]; intros bs Hty Hsend Hun Henc.
  { by injection Henc as <-. }
  cbn [forallb map concat_result] in *. apply andb_true_iff in Hty, Hsend, Hun.
  apply rbind_Ok in Henc as (a & Ha & (b & Hb & H)%rbind_Ok). injection H as <-.
  rewrite <- app_assoc. cbn [length read_elements].
  erewrite tbind_Ok by (apply Hs; [done|apply Hty|apply Hsend|apply Hun|done]).
  erewrite tbind_Ok by (apply IH; [apply Hty|apply Hsend|apply Hun|done]). done.
Qed.

(** The fields of a structure. *)
Fixpoint tag_fields (l : list (string * Shape)) : De (list (string * Value)) :=
  match l with
  | [] => dret []
  | (n, s) :: l =>
      dbind (deserialize s) (fun v => dbind (tag_fields l) (fun vs => dret ((n, v) :: vs)))
  end.

Lemma tag_fields_read fs vs bs rest :
  Forall (fun ns => tag_reads (snd ns)) fs -> forallb tag_field_simple fs = true ->
  fields_shape fs vs = true -> sendable (VStruct "" vs) = true -> untagged (VStruct "" vs) = true ->
  concat_result (map (fun '(_, v) => encode v) vs) = Ok bs ->
  tag_fields fs (None, bs ++ rest) = Ok (map (fun '(k, w) => (k, tag_seen w)) vs, (None, rest)).
Proof.
  intros HP. revert vs bs. induction HP as [|[n s] fs Hs HP IH];
    intros [|[n' v] vs] bs Hsimple Hty Hsend Hun Henc; try done.
  { by injection Henc as <-. }
  cbn [fields_shape forallb map concat_result sendable untagged] in *.
  apply andb_true_iff in Hsimple as [Hsimple Hrest].
  apply andb_true_iff in Hty as [[Hn%bool_decide_eq_true Hty]%andb_true_iff Htys]. subst n'.
  apply andb_true_iff in Hsend as [[Hsend Htag]%andb_true_iff Hsends].
  apply andb_true_iff in Hun as [[Hun _]%andb_true_iff Huns].
  apply rbind_Ok in Henc as (a & Ha & (b & Hb & H)%rbind_Ok). injection H as <-.
  rewrite <- app_assoc. cbn [tag_fields].
  assert (Hhead : deserialize s (None, a ++ b ++ rest) = Ok (tag_seen v, (None, b ++ rest))).
  { unfold tag_field_simple in Hsimple. case_bool_decide as Hk.
    - assert (s = SOption STagBuffer) as -> by (by destruct s as [| | | | | | | |[]| |]).
      destruct v as [| | | | | | | | |w| |]; try done.
      destruct w as [| | | | | | |l| | | |]; try done. cbn [untagged] in Hun.
      apply bool_decide_eq_true, length_zero_iff_nil in Hun as ->. injection Ha as <-. done.
    - by apply Hs. }
  rewrite (tbind_Ok _ _ _ _ _ Hhead).
  by rewrite (tbind_Ok _ _ _ _ _ (IH vs b Hrest Htys Hsends Huns Hb)).
Qed.

Lemma tag_value_read s : tag_reads s.
Proof.
  induction s as [|t| | | | | | |s IH|s IH|name fs IH] using Shape_nested_ind;
    intros v bs rest Hsimple Hty Hsend Hun Henc; try done.
  - destruct v as [b| | | | | | | | | | |]; try done. injection Henc as <-. cbn [deserialize].
    rewrite (trun_int U8 (if b then 1 else 0) rest) by (by destruct b). by destruct b.
  - destruct v as [|t' z| | | | | | | | | |]; try done. cbn [has_shape] in Hty.
    apply andb_true_iff in Hty as [->%bool_decide_eq_true Hz]. injection Henc as <-.
    cbn [deserialize]. by rewrite (trun_int _ z rest).
  - destruct v as [| |z| | | | | | | | |]; try done. injection Henc as <-. cbn [deserialize].
    by rewrite (trun_int U64 z rest).
  - destruct v as [| | |b| | | | | | | |]; try done. cbn [encode] in Henc.
    apply rbind_Ok in Henc as (n & Hn & H). injection H as <-. rewrite <- app_assoc. cbn [deserialize].
    by rewrite (tbind_Ok _ _ _ _ _ (tag_string_taken b rest None n I Hn Hsend Hty)).
  - destruct s as [| | | | | | | | | |]; try done.
    destruct v as [| | | | | | | | |w| |]; try done.
    { injection Henc as <-. cbn [deserialize]. unfold deserialize_option.
      by rewrite (trun Decoder.varint _ None _ 0 rest) by (by apply varint_encoded). }
    destruct w as [| | |b| | | | | | | |]; try done. cbn [encode] in Henc.
    apply rbind_Ok in Henc as (n & Hn & H). injection H as <-. rewrite <- app_assoc.
    cbn [deserialize]. unfold deserialize_option. apply unsigned_length_inv in Hn as [Hn ->].
    rewrite (trun Decoder.varint _ None _ _ (b ++ rest)) by (by apply varint_encoded).
    rewrite (proj2 (Z.eqb_neq _ 0)) by lia. cbn [snd].
    pose proof (tag_string_taken b rest (Some (Z.of_nat (length b) + 1 - 1)) []
      ltac:(cbn; lia) eq_refl Hsend Hty) as Hs. cbn [app] in Hs.
    unfold dbind at 1. unfold dbind at 1. rewrite Hs. done.
  - destruct v as [| | | | | | | | | |l|]; try done. cbn [encode] in Henc.
    apply rbind_Ok in Henc as (n & Hn & (b & Hb & H)%rbind_Ok). injection H as <-.
    rewrite <- app_assoc. cbn [deserialize].
    rewrite (trun _ _ _ _ _ (b ++ rest) (compact_length_read _ _ _ Hn)), Nat2Z.id.
    by rewrite (tbind_Ok _ _ _ _ _ (tag_elements_read s l b rest IH Hsimple Hty Hsend Hun Hb)).
  - apply has_shape_struct in Hty as (vs & -> & Hty).
    change (deserialize (SStruct name fs)) with (dbind (tag_fields fs) (fun vs => dret (VStruct name vs))).
    by rewrite (tbind_Ok _ _ _ _ _ (tag_fields_read fs vs bs rest IH Hsimple Hty Hsend Hun Henc)).
Qed.
