(* ===== verification/Mezzanine.v ===== *)
(** * Mezzanine: the public types, and the types on the wire

    [tansu-sans-io/build.rs] generates every structure twice: the public one, with
    all the fields of its description, and the one the codec sees, in which the
    fields with a tag have become entries of a tag buffer; and the two
    conversions between them ([message_struct], [common_struct]). *)

From S2P Require Export Tagged.
Import Model Serde Varint Grammar.

Module Mezzanine.

(** The fields of the structure a field holds, and the versions its members are
    mandatory against: the field's own, or none for a common structure. *)
Definition children (common : option (list CommonStruct)) (f : Field) : list Field :=
  match f_fields f with
  | Some l => l
  | None =>
      match type_mapping (f_kind f) with
      | TNamed name => default [] (common_fields common name)
      | _ => []
      end
  end.

Definition child_parent (f : Field) : option VersionRange :=
  match f_fields f with Some _ => Some (f_versions f) | None => None end.

(** The base type of a field that is not a structure. *)
Definition primitive_shape (t : RustType) : option Shape :=
  match t with
  | TBytes => Some SBytes
  | TF64 => Some SF64
  | TI16 => Some (SInt I16)
  | TI32 => Some (SInt I32)
  | TI64 => Some (SInt I64)
  | TI8 => Some (SInt I8)
  | TString => Some SString
  | TU16 => Some (SInt U16)
  | TUuid => Some SUuid
  | TRecordBatch => Some SRecords
  | TBool => Some SBool
  | TNamed _ => None
  end.

(** Under the options and arrays of a field, its structures. *)
Fixpoint over (g : Value -> Value) (v : Value) : Value :=
  match v with
  | VSome w => VSome (over g w)
  | VVec l => VVec (map (over g) l)
  | VStruct _ _ => g v
  | _ => v
  end.

Fixpoint over_all (p : Value -> bool) (v : Value) : bool :=
  match v with
  | VSome w => over_all p w
  | VVec l => forallb (over_all p) l
  | VStruct _ _ => p v
  | _ => true
  end.

Fixpoint get (n : string) (fs : list (string * Value)) : Value :=
  match fs with
  | [] => VNone
  | (m, w) :: fs => if bool_decide (n = m) then w else get n fs
  end.

Section Conversions.
Variable snake : string -> string.
Variable common : option (list CommonStruct).

(** The public type of a field: [kind] over the public structure. *)
Fixpoint public_type (fuel : nat) (parent : option VersionRange) (f : Field) : Shape :=
  field_shape parent f
    match type_mapping (f_kind f), fuel with
    | TNamed name, S fuel =>
        SStruct name (map (fun g => (snake (f_name g), public_type fuel (child_parent f) g))
                        (children common f))
    | TNamed name, O => SStruct name []
    | t, _ => default SBool (primitive_shape t)
    end.

(** The type a tag is decoded at: [tag_kind]. *)
Definition tag_kind (fuel : nat) (f : Field) : Shape :=
  match field_type snake fuel common None f with SOption s => s | s => s end.

(** [From<Public> for Mezzanine]: each tagged field that is there is encoded into
    the tag buffer, dropped if that fails; the others are converted. *)
Fixpoint to_mezzanine (fuel : nat) (l : list Field) (v : Value) : Value :=
  match fuel, v with
  | S fuel, VStruct name fs =>
      let into (gw : Field * (string * Value)) :=
        over (to_mezzanine fuel (children common (fst gw))) (snd (snd gw)) in
      let fields := omap (fun gw =>
        match f_tag (fst gw) with
        | None => Some (fst (snd gw), into gw)
        | Some _ => None
        end) (zip l fs) in
      let tags := omap (fun gw =>
        match f_tag (fst gw), into gw with
        | Some tag, VSome x => mkTag tag <$> ok_of (Tagged.encode x)
        | _, _ => None
        end) (zip l fs) in
      VStruct name (fields ++ [(tag_buffer, VSome (VTagBuffer tags))])
  | _, _ => v
  end.

(** [From<Mezzanine> for Public]: a tag that does not decode is absent. *)
Fixpoint from_mezzanine (fuel : nat) (l : list Field) (v : Value) : Value :=
  match fuel, v with
  | S fuel, VStruct name fs =>
      VStruct name (map (fun g =>
        let from := over (from_mezzanine fuel (children common g)) in
        (snake (f_name g),
         match f_tag g with
         | None => from (get (snake (f_name g)) fs)
         | Some tag =>
             match get tag_buffer fs with
             | VSome (VTagBuffer tags) =>
                 match Tagged.decode (tag_kind fuel g) tag tags with
                 | Ok (Some x) => VSome (from x)
                 | _ => VNone
                 end
             | _ => VNone
             end
         end)) l)
  | _, _ => v
  end.

(** A tag of this type is written and never read back: [deserialize_tuple]
    refuses it. *)
Definition is_uuid (s : Shape) : bool := match s with SUuid => true | _ => false end.

(** What the peer sees of a public value: the untagged fields of the version, and
    the tagged fields in a flexible one, whatever their versions, unless they are
    uuids. *)
Fixpoint seen (flex : bool) (ver : Z) (fuel : nat) (l : list Field) (v : Value) : Value :=
  match fuel, v with
  | S fuel, VStruct name fs =>
      VStruct name (map (fun gw : Field * (string * Value) =>
        let '(g, (n, w)) := gw in
        (n,
         match f_tag g with
         | Some _ => if flex && negb (is_uuid (tag_kind fuel g)) then w else VNone
         | None =>
             if within (f_versions g) ver then
               match w with
               | VSome (VRecords []) => VNone
               | _ => over (seen flex ver fuel (children common g)) w
               end
             else VNone
         end)) (zip l fs))
  | _, _ => v
  end.

(** ** What the conversions rely on *)

(** The structure a named type stands for is described. *)
Definition described (f : Field) : bool :=
  match type_mapping (f_kind f) with
  | TNamed name =>
      match f_fields f, common_fields common name with None, None => false | _, _ => true end
  | _ => true
  end.

(** Below [fuel] levels, names are distinct and none is the tag buffer's; tags are
    distinct and their types survive the tag codec, or are uuids; structures
    within tags have no tags. *)
Fixpoint convertible (fuel : nat) (tags : bool) (l : list Field) : bool :=
  match fuel with
  | O => bool_decide (length l = 0%nat)
  | S fuel =>
      bool_decide (NoDup (map (fun g => snake (f_name g)) l))
      && bool_decide (NoDup (omap f_tag l))
      && forallb (fun g =>
           negb (bool_decide (snake (f_name g) = tag_buffer)) && described g
           && match f_tag g with
              | Some t => tags && in_u32 t
                          && (Tagged.tag_simple (tag_kind fuel g) || is_uuid (tag_kind fuel g))
                          && convertible fuel false (children common g)
              | None => convertible fuel tags (children common g)
              end) l
  end.

(** Every tag of a value encodes. *)
Fixpoint tags_encode (fuel : nat) (l : list Field) (v : Value) : bool :=
  match fuel, v with
  | S fuel, VStruct _ fs =>
      forallb (fun gw : Field * (string * Value) =>
        let '(g, (n, w)) := gw in
        match f_tag g with
        | Some _ =>
            match over (to_mezzanine fuel (children common g)) w with
            | VSome x => sendable x && is_ok (Tagged.encode x)
            | _ => true
            end
        | None => over_all (tags_encode fuel (children common g)) w
        end) (zip l fs)
  | _, _ => true
  end.

End Conversions.
End Mezzanine.
Import Mezzanine.

(** ** Through options and arrays *)

Lemma get_elem n w fs : NoDup (map fst fs) -> (n, w) ∈ fs -> get n fs = w.
Proof.
  induction fs as [|[m x] fs IH]; intros Hnd Hin; [by apply elem_of_nil in Hin|].
  cbn in *. apply NoDup_cons in Hnd as [Hm Hnd]. apply elem_of_cons in Hin as [[= -> ->]|Hin].
  - by rewrite bool_decide_true.
  - rewrite bool_decide_false; [by apply IH|]. intros ->. apply Hm.
    apply list_elem_of_fmap. by exists (m, w).
Qed.

(** No structure and no tag buffer inside. *)
Fixpoint flat (s : Shape) : bool :=
  match s with
  | SOption s | SVec s => flat s
  | SStruct _ _ | STagBuffer => false
  | _ => true
  end.

Lemma over_flat g s v : flat s = true -> has_shape s v = true -> over g v = v.
Proof.
  revert v. induction s as [| | | | | | | |s IH|s IH|] using Shape_nested_ind; intros v Hs Hty;
    try done; destruct v as [| | | | | | | | |w|l|]; try done; cbn [over].
  - by rewrite (IH w).
  - f_equal. cbn [has_shape] in Hty. induction l as [|w l IHl]; [done|].
    cbn in *. apply andb_true_iff in Hty as [Hw Hl]. by rewrite (IH w), IHl.
Qed.

(** Nothing but the scalar. *)
Definition scalar (s : Shape) : bool :=
  match s with SOption _ | SVec _ | SStruct _ _ | STagBuffer => false | _ => true end.

Lemma scalar_flat s : scalar s = true -> flat s = true.
Proof. by destruct s. Qed.

(** What an option can hold without being mistaken for an absent value. *)
Definition container (v : Value) : bool :=
  match v with VVec _ | VStruct _ _ => true | _ => false end.

Definition lifts (F : Value -> Value) : Prop :=
  F VNone = VNone /\ (forall l, F (VVec l) = VVec (map F l)) /\
  forall w, container w = true -> F (VSome w) = VSome (F w).

(** A property of the structures of a field, under its options and arrays. *)
Section Over.
Context (b b' : Shape) (Hb : forall v, has_shape b v = true -> exists n fs, v = VStruct n fs).

Lemma over_struct g v : has_shape b v = true -> over g v = g v.
Proof. by intros (n & fs & ->)%Hb. Qed.

Lemma over_vec g l : forallb (has_shape b) l = true -> over g (VVec l) = VVec (map g l).
Proof.
  intros H. cbn [over]. f_equal. induction l as [|v l IH]; [done|]. cbn in *.
  apply andb_true_iff in H as [Hv Hl]. by rewrite over_struct, IH.
Qed.

Lemma over_shape g parent f v :
  (forall x, has_shape b x = true -> has_shape b' (g x) = true) ->
  has_shape (field_shape parent f b) v = true ->
  has_shape (field_shape parent f b') (over g v) = true.
Proof.
  intros Hg. unfold field_shape.
  assert (Hvec : forall w, has_shape (SVec b) w = true -> has_shape (SVec b') (over g w) = true).
  { intros w Hw. destruct w as [| | | | | | | | | |l|]; try done. rewrite over_vec by done.
    cbn [has_shape] in *. induction l as [|x l IH]; [done|]. cbn in *.
    apply andb_true_iff in Hw as [Hx Hl]. by rewrite Hg, IH. }
  assert (Hopt : forall s s', (forall w, has_shape s w = true -> has_shape s' (over g w) = true) ->
    has_shape (SOption s) v = true -> has_shape (SOption s') (over g v) = true).
  { intros s s' Hs Hv. destruct v as [| | | | | | | | |w| |]; try done. by apply Hs. }
  assert (Hbase : forall w, has_shape b w = true -> has_shape b' (over g w) = true).
  { intros w Hw. rewrite over_struct by done. by apply Hg. }
  destruct (f_tag f); [destruct (is_sequence _); by apply Hopt|].
  destruct (is_sequence _); [by apply Hopt|]. destruct (_ && _); [by apply Hbase|by apply Hopt].
Qed.

(** Two conversions that go through options and arrays agree on a field if they
    agree on its structures. *)
Lemma lifts_ext (F H : Value -> Value) q parent f v :
  lifts F -> lifts H -> (forall x, has_shape b x = true -> q x = true -> F x = H x) ->
  has_shape (field_shape parent f b) v = true -> over_all q v = true -> F v = H v.
Proof.
  intros (FN & FV & FS) (HN & HV & HS) Hbase. unfold field_shape.
  assert (Cbase : forall w, has_shape b w = true -> over_all q w = true ->
    container w = true /\ F w = H w).
  { intros w Hw Hq. destruct (Hb w Hw) as (n & fs & ->). split; [done|by apply Hbase]. }
  assert (Cvec : forall w, has_shape (SVec b) w = true -> over_all q w = true ->
    container w = true /\ F w = H w).
  { intros w Hw Hq. destruct w as [| | | | | | | | | |l|]; try done. split; [done|].
    rewrite FV, HV. f_equal. cbn [has_shape over_all] in Hw, Hq.
    induction l as [|x l IH]; [done|]. cbn in *. apply andb_true_iff in Hw as [Hx Hl], Hq as [Qx Ql].
    rewrite IH by done. by rewrite (proj2 (Cbase x Hx Qx)). }
  assert (Hopt : forall s, (forall w, has_shape s w = true -> over_all q w = true ->
    container w = true /\ F w = H w) -> has_shape (SOption s) v = true -> over_all q v = true -> F v = H v).
  { intros s Hs Hv Hq. destruct v as [| | | | | | | | |w| |]; try done; [by rewrite FN, HN|].
    destruct (Hs w Hv Hq) as [Hw E]. by rewrite FS, HS, E. }
  destruct (f_tag f); [destruct (is_sequence _); by eapply Hopt|].
  destruct (is_sequence _); [by eapply Hopt|].
  destruct (_ && _); [intros Hv Hq; by apply Cbase|by eapply Hopt].
Qed.

Lemma lifts_pred (p : Value -> bool) parent f v :
  p VNone = true -> (forall l, p (VVec l) = forallb p l) -> (forall w, p (VSome w) = p w) ->
  (forall x, has_shape b x = true -> p x = true) ->
  has_shape (field_shape parent f b) v = true -> p v = true.
Proof.
  intros PN PV PS Hbase. unfold field_shape.
  assert (Hvec : forall w, has_shape (SVec b) w = true -> p w = true).
  { intros w Hw. destruct w as [| | | | | | | | | |l|]; try done. rewrite PV.
    cbn [has_shape] in Hw. induction l as [|x l IH]; [done|]. cbn in *.
    apply andb_true_iff in Hw as [Hx Hl]. by rewrite Hbase, IH. }
  assert (Hopt : forall s, (forall w, has_shape s w = true -> p w = true) ->
    has_shape (SOption s) v = true -> p v = true).
  { intros s Hs Hv. destruct v as [| | | | | | | | |w| |]; try done. rewrite PS. by apply Hs. }
  destruct (f_tag f); [destruct (is_sequence _); by eapply Hopt|].
  destruct (is_sequence _); [by eapply Hopt|]. destruct (_ && _); [by apply Hbase|by eapply Hopt].
Qed.
End Over.

(** ** The types of a field *)

Section Generated.
Context (snake : string -> string) (common : option (list CommonStruct)).
#[local] Notation public_type := (public_type snake common).
#[local] Notation field_type fuel := (field_type snake fuel common).
#[local] Notation to_mezzanine := (to_mezzanine common).
#[local] Notation from_mezzanine := (from_mezzanine snake common).
#[local] Notation convertible := (convertible snake common).
#[local] Notation children := (children common).

Definition public_struct (fuel : nat) (name : string) (parent : option VersionRange)
    (l : list Field) : Shape :=
  SStruct name (map (fun g => (snake (f_name g), public_type fuel parent g)) l).

Definition wire_struct (fuel : nat) (name : string) (parent : option VersionRange)
    (l : list Field) : Shape :=
  SStruct name
    (map (fun g => (snake (f_name g), field_type fuel parent g))
       (List.filter (fun g => bool_decide (f_tag g = None)) l)
     ++ [(tag_buffer, SOption STagBuffer)]).

(** A field holds no structure, or one of which no field is left, or one a level
    down. *)
Lemma field_types fuel parent f :
  described common f = true ->
  (exists b, scalar b = true /\ public_type fuel parent f = field_shape parent f b /\
     field_type fuel parent f = field_shape parent f b) \/
  (exists name, fuel = O /\ public_type fuel parent f = field_shape parent f (SStruct name []) /\
     field_type fuel parent f = field_shape parent f (SStruct name [])) \/
  (exists name fuel', fuel = S fuel' /\
     public_type fuel parent f
       = field_shape parent f (public_struct fuel' name (child_parent f) (children f)) /\
     field_type fuel parent f
       = field_shape parent f (wire_struct fuel' name (child_parent f) (children f))).
Proof.
  unfold described, Mezzanine.children, child_parent. intros Hd.
  destruct (primitive_shape (type_mapping (f_kind f))) as [b|] eqn:Eb.
  { left. exists b. destruct (type_mapping (f_kind f)) eqn:E; cbn in Eb; try discriminate Eb;
      injection Eb as <-; destruct fuel; cbn; rewrite E; done. }
  destruct (type_mapping (f_kind f)) as [| | | | | | | | | | |name] eqn:E; try discriminate Eb.
  right. destruct fuel as [|fuel]; [left|right]; exists name.
  { cbn. by rewrite E. }
  exists fuel. split; [done|]. unfold public_struct, wire_struct. cbn. rewrite E.
  unfold Mezzanine.children, child_parent. rewrite E.
  destruct (f_fields f); [done|]. by destruct (common_fields common name).
Qed.

Lemma public_fields ty (l : list Field) fs :
  fields_shape (map (fun g => (snake (f_name g), ty g)) l) fs = true <->
  Forall2 (fun g kw => kw.1 = snake (f_name g) /\ has_shape (ty g) kw.2 = true) l fs.
Proof.
  revert fs. induction l as [|g l IH]; intros [|[k w] fs]; cbn.
  1: done. 1-2: split; [done|inversion 1].
  rewrite !andb_true_iff, IH, bool_decide_eq_true. split.
  - intros [[<- Hw] H]. by constructor.
  - inversion 1 as [|???? [? ?]]; subst. cbn in *. by subst.
Qed.

Lemma struct_value name fs v :
  has_shape (SStruct name fs) v = true -> exists n vs, v = VStruct n vs.
Proof. intros (vs & -> & _)%has_shape_struct. by eauto. Qed.

Lemma fields_shape_app l1 l2 f1 f2 :
  fields_shape l1 f1 = true -> fields_shape l2 f2 = true -> fields_shape (l1 ++ l2) (f1 ++ f2) = true.
Proof.
  revert f1. induction l1 as [|[n s] l1 IH]; intros [|[k w] f1] H1 H2; cbn in *; try done.
  apply andb_true_iff in H1 as [-> H1]. by apply IH.
Qed.

Definition field_converts (fuel : nat) (tags : bool) (g : Field) : Prop :=
  snake (f_name g) <> tag_buffer /\ described common g = true /\
  match f_tag g with
  | Some t =>
      tags = true /\ in_u32 t = true /\
      (Tagged.tag_simple (tag_kind snake common fuel g) = true \/ tag_kind snake common fuel g = SUuid) /\
      convertible fuel false (children g) = true
  | None => convertible fuel tags (children g) = true
  end.

Lemma convertible_S fuel tags l :
  convertible (S fuel) tags l = true ->
  NoDup (map (fun g => snake (f_name g)) l) /\ NoDup (omap f_tag l) /\
  Forall (field_converts fuel tags) l.
Proof.
  cbn [Mezzanine.convertible]. intros [[Hn Ht]%andb_true_iff Hl]%andb_true_iff.
  apply bool_decide_eq_true in Hn, Ht. split; [done|]. split; [done|].
  apply Forall_forall. intros g Hg. rewrite forallb_forall in Hl.
  specialize (Hl g (proj1 (list_elem_of_In _ _) Hg)).
  apply andb_true_iff in Hl as [[Hb Hd]%andb_true_iff Hl].
  split; [by apply negb_true_iff, bool_decide_eq_false in Hb|]. split; [done|].
  destruct (f_tag g); [|done].
  apply andb_true_iff in Hl as [[[-> ->]%andb_true_iff Hs]%andb_true_iff Hl].
  repeat split; [|done]. apply orb_true_iff in Hs as [Hs|Hs]; [by left|right].
  by destruct (tag_kind _ _ _ _).
Qed.

Lemma field_shape_flat parent g b : scalar b = true -> flat (field_shape parent g b) = true.
Proof. unfold field_shape. intros Hb%scalar_flat. by repeat case_match. Qed.

(** ** The conversion to the wire keeps types *)

Definition into_typed (fuel : nat) : Prop :=
  forall tags l parent name v,
    convertible (S fuel) tags l = true -> has_shape (public_struct fuel name parent l) v = true ->
    has_shape (wire_struct fuel name parent l) (to_mezzanine (S fuel) l v) = true.

Lemma into_shape fuel tags parent g w :
  match fuel with O => True | S fuel => into_typed fuel end ->
  described common g = true -> convertible fuel tags (children g) = true ->
  has_shape (public_type fuel parent g) w = true ->
  has_shape (field_type fuel parent g) (over (to_mezzanine fuel (children g)) w) = true.
Proof.
  intros IH Hd Hc Hw.
  destruct (field_types fuel parent g Hd)
    as [(b & Hb & E1 & E2)|[(name & -> & E1 & E2)|(name & fuel' & -> & E1 & E2)]];
    rewrite E1 in Hw; rewrite E2.
  - rewrite (over_flat _ (field_shape parent g b)); [done| |done].
    by apply field_shape_flat.
  - eapply (over_shape (SStruct name [])); [by apply struct_value|done|done].
  - eapply (over_shape (public_struct fuel' name (child_parent g) (children g)));
      [by apply struct_value| |done].
    intros x Hx. by apply (IH tags).
Qed.

Lemma has_shape_fields name l fs :
  fields_shape l fs = true -> has_shape (SStruct name l) (VStruct name fs) = true.
Proof. intros H. cbn [has_shape]. rewrite bool_decide_true by done. exact H. Qed.

Lemma to_mezzanine_struct fuel :
  match fuel with O => True | S fuel => into_typed fuel end -> into_typed fuel.
Proof.
  intros IH tags l parent name v Hc (fs & -> & Hfs%public_fields)%has_shape_struct.
  apply convertible_S in Hc as (_ & _ & Hl). cbn [Mezzanine.to_mezzanine].
  apply has_shape_fields, fields_shape_app.
  - induction Hfs as [|g [k w] l fs [Hk Hw] Hfs IHl]; [done|].
    cbn [fst snd] in Hk, Hw. subst k.
    apply Forall_cons in Hl as [(_ & Hd & Hg) Hl]. cbn [zip zip_with omap list_omap List.filter fst snd].
    destruct (f_tag g) as [t|] eqn:Et; cbn; [by apply IHl|].
    rewrite bool_decide_true by done. cbn. rewrite (into_shape fuel tags) by done. by apply IHl.
  - cbn [fields_shape]. rewrite bool_decide_true, andb_true_r, andb_true_l by done.
    cbn [has_shape]. rewrite forallb_forall. intros tf Htf%list_elem_of_In.
    apply list_elem_of_omap in Htf as ([g kw] & Hin & Htf).
    apply elem_of_zip_l in Hin. rewrite Forall_forall in Hl. destruct (Hl g Hin) as (_ & _ & Hg).
    cbn in Htf. destruct (f_tag g) as [t|]; [|done]. destruct (over _ _); try done.
    destruct (ok_of _); [|done]. injection Htf as <-. apply Hg.
Qed.

(** The converted value of a message has the type the codec writes. *)
Lemma to_mezzanine_shape fuel : into_typed fuel.
Proof. induction fuel as [|fuel IH]; by apply to_mezzanine_struct. Qed.

(** ** Finding the fields again *)

Definition untagged_fields (into : Field * (string * Value) -> Value)
    (l : list Field) (fs : list (string * Value)) : list (string * Value) :=
  omap (fun gw => match f_tag gw.1 with None => Some (gw.2.1, into gw) | Some _ => None end)
    (zip l fs).

Lemma zip_related {A B} (R : A -> B -> Prop) l fs g x :
  Forall2 R l fs -> (g, x) ∈ zip l fs -> R g x.
Proof.
  induction 1 as [|g' x' l fs Hr Hfs IH]; intros Hin; [by apply elem_of_nil in Hin|].
  apply elem_of_cons in Hin as [[= -> ->]|Hin]; [done|by apply IH].
Qed.

Lemma omap_none {A B} (F : A -> option B) l : (forall x, x ∈ l -> F x = None) -> omap F l = [].
Proof.
  induction l as [|x l IH]; intros HF; [done|]. cbn. rewrite HF by (apply elem_of_cons; by left).
  apply IH. intros y Hy. apply HF, elem_of_cons. by right.
Qed.

Lemma untagged_key into l fs k :
  Forall2 (fun g kw => kw.1 = snake (f_name g)) l fs ->
  k ∈ map fst (untagged_fields into l fs) -> k ∈ map (fun g => snake (f_name g)) l.
Proof.
  intros Hfs (x & -> & Hx)%list_elem_of_fmap.
  apply list_elem_of_omap in Hx as ([g kw] & Hin & Hx). cbn in Hx.
  destruct (f_tag g); [done|]. injection Hx as <-. cbn.
  apply list_elem_of_fmap. exists g. split; [|by eapply elem_of_zip_l].
  by apply (zip_related _ _ _ _ _ Hfs) in Hin.
Qed.

Lemma wire_keys into l fs tb :
  Forall2 (fun g kw => kw.1 = snake (f_name g)) l fs ->
  NoDup (map (fun g => snake (f_name g)) l) -> Forall (fun g => snake (f_name g) <> tag_buffer) l ->
  NoDup (map fst (untagged_fields into l fs ++ [(tag_buffer, tb)])).
Proof.
  intros Hfs Hnd Hne. rewrite map_app. apply NoDup_app. split; [|split].
  - clear Hne. induction Hfs as [|g [k w] l fs Hk Hfs IH]; [constructor|].
    cbn in Hnd, Hk. subst k. apply NoDup_cons in Hnd as [Hg Hnd].
    unfold untagged_fields. cbn. destruct (f_tag g); cbn; [by apply IH|].
    apply NoDup_cons. split; [|by apply IH]. intros Hin. by apply Hg, (untagged_key into l fs).
  - intros k Hk Htb%list_elem_of_singleton. subst k. apply (untagged_key into l fs) in Hk; [|done].
    apply list_elem_of_fmap in Hk as (g & E & Hg). rewrite Forall_forall in Hne. by eapply Hne.
  - cbn. apply NoDup_singleton.
Qed.

(** The value of a field of the wire structure, after a change that keeps names. *)
Lemma get_untagged into h l fs tb g k w :
  Forall2 (fun g kw => kw.1 = snake (f_name g)) l fs ->
  NoDup (map (fun g => snake (f_name g)) l) -> Forall (fun g => snake (f_name g) <> tag_buffer) l ->
  (forall kw, (h kw).1 = kw.1) -> (g, (k, w)) ∈ zip l fs -> f_tag g = None ->
  get k (map h (untagged_fields into l fs ++ [(tag_buffer, tb)])) = (h (k, into (g, (k, w)))).2.
Proof.
  intros Hfs Hnd Hne Hh Hin Hg. apply get_elem.
  - rewrite map_map. rewrite (map_ext _ fst) by done. by apply wire_keys.
  - apply list_elem_of_fmap. exists (k, into (g, (k, w))). split.
    { pose proof (Hh (k, into (g, (k, w)))) as E. destruct (h _) as [k' w']. cbn in E. by subst k'. }
    apply elem_of_app. left. apply list_elem_of_omap. exists (g, (k, w)). cbn. by rewrite Hg.
Qed.

Lemma get_tag_buffer into h l fs tb :
  Forall2 (fun g kw => kw.1 = snake (f_name g)) l fs ->
  NoDup (map (fun g => snake (f_name g)) l) -> Forall (fun g => snake (f_name g) <> tag_buffer) l ->
  (forall kw, (h kw).1 = kw.1) ->
  get tag_buffer (map h (untagged_fields into l fs ++ [(tag_buffer, tb)])) = (h (tag_buffer, tb)).2.
Proof.
  intros Hfs Hnd Hne Hh. apply get_elem.
  - rewrite map_map. rewrite (map_ext _ fst) by done. by apply wire_keys.
  - apply list_elem_of_fmap. exists (tag_buffer, tb). split.
    { pose proof (Hh (tag_buffer, tb)) as E. destruct (h _) as [k' w']. cbn in E. by subst k'. }
    apply elem_of_app. right. by apply list_elem_of_singleton.
Qed.

(** One entry per field, read from the fields or from the values. *)
Lemma map_zip {A B C} (R : A -> B -> Prop) (F : A -> C) (G : A * B -> C) l fs :
  Forall2 R l fs -> (forall g x, (g, x) ∈ zip l fs -> R g x -> F g = G (g, x)) ->
  map F l = map G (zip l fs).
Proof.
  induction 1 as [|g x l fs Hr Hfs IH]; intros HF; [done|]. cbn. f_equal.
  - apply HF; [|done]. cbn. apply elem_of_cons. by left.
  - apply IH. intros g' x' Hin. apply HF. cbn. apply elem_of_cons. by right.
Qed.

(** ** Back from a tag *)

Lemma over_all_true v : over_all (fun _ => true) v = true.
Proof.
  induction v as [| | | | | | | | |w IH|l IH|] using Value_nested_ind; try done. cbn.
  induction IH as [|w l Hw _ IHl]; [done|]. cbn. by rewrite Hw.
Qed.

Lemma tag_seen_flat s v : flat s = true -> has_shape s v = true -> Tagged.tag_seen v = v.
Proof.
  revert v. induction s as [| | | | | | | |s IH|s IH|] using Shape_nested_ind; intros v Hs Hty;
    try done; destruct v as [| | | | | | | | |w|l|]; try done; cbn [Tagged.tag_seen].
  - rewrite (IH w) by done. by destruct w; destruct s.
  - f_equal. cbn [has_shape] in Hty. induction l as [|w l IHl]; [done|].
    cbn in *. apply andb_true_iff in Hty as [Hw Hl]. by rewrite (IH w), IHl.
Qed.

Lemma untagged_flat s v : flat s = true -> has_shape s v = true -> Tagged.untagged v = true.
Proof.
  revert v. induction s as [| | | | | | | |s IH|s IH|] using Shape_nested_ind; intros v Hs Hty;
    try done; destruct v as [| | | | | | | | |w|l|]; try done; cbn [Tagged.untagged].
  - by apply IH.
  - cbn [has_shape] in Hty. induction l as [|w l IHl]; [done|].
    cbn in *. apply andb_true_iff in Hty as [Hw Hl]. by rewrite (IH w), IHl.
Qed.


(** A structure without tags that travels inside a tag. *)
Definition returns (fuel : nat) : Prop :=
  forall l parent name v,
    convertible (S fuel) false l = true -> has_shape (public_struct fuel name parent l) v = true ->
    from_mezzanine (S fuel) l (Tagged.tag_seen (to_mezzanine (S fuel) l v)) = v /\
    Tagged.untagged (to_mezzanine (S fuel) l v) = true.

Lemma to_mezzanine_container fuel l n fs :
  exists fs', to_mezzanine fuel l (VStruct n fs) = VStruct n fs'.
Proof. destruct fuel; by eexists. Qed.

Lemma lifts_back fuel l (k : Value -> Value) :
  lifts k -> lifts (fun w => over (from_mezzanine fuel l) (k (over (to_mezzanine fuel l) w))).
Proof.
  intros (KN & KV & KS). split; [|split].
  - cbn [over]. by rewrite KN.
  - intros vs. cbn [over]. rewrite KV. cbn [over]. by rewrite !map_map.
  - intros w Hw. cbn [over]. rewrite KS; [done|]. destruct w as [| | | | | | | | | | |n fs]; try done.
    cbn [over]. by destruct (to_mezzanine_container fuel l n fs) as [? ->].
Qed.

Lemma lifts_id : lifts (fun w => w).
Proof. split; [done|]. split; [|done]. intros l. by rewrite map_id. Qed.

Lemma lifts_tag_seen : lifts Tagged.tag_seen.
Proof. split; [done|]. split; [done|]. by intros []. Qed.

(** A field returns when its structures do. *)
Lemma lift_returns fuel l b parent g w :
  (forall v, has_shape b v = true -> exists n fs, v = VStruct n fs) ->
  (forall x, has_shape b x = true ->
     from_mezzanine fuel l (Tagged.tag_seen (to_mezzanine fuel l x)) = x /\
     Tagged.untagged (to_mezzanine fuel l x) = true) ->
  has_shape (field_shape parent g b) w = true ->
  over (from_mezzanine fuel l) (Tagged.tag_seen (over (to_mezzanine fuel l) w)) = w /\
  Tagged.untagged (over (to_mezzanine fuel l) w) = true.
Proof.
  intros Hb Hx Hty. split.
  - refine (lifts_ext b Hb
      (fun w => over (from_mezzanine fuel l) (Tagged.tag_seen (over (to_mezzanine fuel l) w)))
      (fun w => w) (fun _ => true) parent g w _ lifts_id _ Hty (over_all_true _)).
    { apply lifts_back, lifts_tag_seen. }
    intros x Hx' _. destruct (Hb x Hx') as (n & fs & ->). destruct (Hx _ Hx') as [E _].
    cbn [over]. revert E. by destruct (to_mezzanine_container fuel l n fs) as [? ->].
  - refine (lifts_pred b (fun w => Tagged.untagged (over (to_mezzanine fuel l) w))
      parent g w eq_refl _ (fun _ => eq_refl) _ Hty).
    { intros vs. cbn [over Tagged.untagged]. induction vs as [|x vs IH]; [done|]. cbn. by rewrite IH. }
    intros x Hx'. destruct (Hb x Hx') as (n & fs & ->). by apply (Hx _ Hx').
Qed.

Lemma field_returns fuel parent g w :
  match fuel with O => True | S fuel => returns fuel end ->
  described common g = true -> convertible fuel false (children g) = true ->
  has_shape (public_type fuel parent g) w = true ->
  over (from_mezzanine fuel (children g))
    (Tagged.tag_seen (over (to_mezzanine fuel (children g)) w)) = w /\
  Tagged.untagged (over (to_mezzanine fuel (children g)) w) = true.
Proof.
  intros IH Hd Hc Hw.
  destruct (field_types fuel parent g Hd)
    as [(b & Hb & E1 & _)|[(name & -> & E1 & _)|(name & fuel' & -> & E1 & _)]]; rewrite E1 in Hw.
  - apply (field_shape_flat parent g) in Hb. rewrite (over_flat _ _ _ Hb Hw).
    by rewrite (tag_seen_flat _ _ Hb Hw), (over_flat _ _ _ Hb Hw), (untagged_flat _ _ Hb Hw).
  - eapply (lift_returns _ _ (SStruct name [])); [by apply struct_value| |done].
    intros x (fs & -> & Hfs)%has_shape_struct. by destruct fs.
  - eapply (lift_returns _ _ (public_struct fuel' name (child_parent g) (children g)));
      [by apply struct_value| |done].
    intros x Hx. by eapply IH.
Qed.

Lemma returns_struct fuel :
  match fuel with O => True | S fuel => returns fuel end -> returns fuel.
Proof.
  intros IH l parent name v Hc (fs & -> & Hfs%public_fields)%has_shape_struct.
  apply convertible_S in Hc as (Hnd & _ & Hl).
  assert (Hnames : Forall2 (fun g kw => kw.1 = snake (f_name g)) l fs).
  { eapply Forall2_impl; [done|]. by intros ?? [? _]. }
  assert (Hne : Forall (fun g => snake (f_name g) <> tag_buffer) l).
  { eapply Forall_impl; [done|]. by intros ? [? _]. }
  rewrite Forall_forall in Hl. cbn [Mezzanine.to_mezzanine].
  change (omap _ (zip l fs)) with (untagged_fields
    (fun gw => over (to_mezzanine fuel (children gw.1)) gw.2.2) l fs) at 1 3.
  set (tb := VSome _). split.
  - cbn [Tagged.tag_seen Mezzanine.from_mezzanine]. f_equal.
    trans (map snd (zip l fs)); [|apply snd_zip; by rewrite (Forall2_length _ _ _ Hfs)].
    apply (map_zip _ _ _ _ _ Hfs). intros g [k w] Hin [Hk Hw]. cbn [fst snd] in Hk, Hw |- *.
    destruct (Hl g (elem_of_zip_l _ _ _ _ Hin)) as (_ & Hd & Hg).
    destruct (f_tag g) eqn:Et; [by destruct Hg|]. rewrite <- Hk. f_equal.
    erewrite get_untagged by (try done; by intros []).
    by apply field_returns with (parent := parent).
  - cbn [Tagged.untagged]. rewrite forallb_app. apply andb_true_iff. split.
    + rewrite forallb_forall. intros [k w'] Hin%list_elem_of_In.
      apply list_elem_of_omap in Hin as ([g [k' w]] & Hin & E).
      destruct (zip_related _ _ _ _ _ Hfs Hin) as [Hk Hw]. cbn [fst snd] in E, Hk, Hw.
      destruct (Hl g (elem_of_zip_l _ _ _ _ Hin)) as (Htb & Hd & Hg).
      destruct (f_tag g); [done|]. injection E as <- <-.
      rewrite bool_decide_false by congruence.
      by rewrite (proj2 (field_returns fuel parent g w IH Hd Hg Hw)).
    + subst tb. cbn. rewrite !andb_true_r. rewrite bool_decide_true; [done|].
      rewrite omap_none; [done|]. intros [g [k w]] Hin. cbn [fst].
      destruct (Hl g (elem_of_zip_l _ _ _ _ Hin)) as (_ & _ & Hg).
      destruct (f_tag g); [by destruct Hg|done].
Qed.

Lemma tag_free_returns fuel : returns fuel.
Proof. induction fuel as [|fuel IH]; by apply returns_struct. Qed.

(** ** The tags *)

Lemma find_tag_absent t (F : Field * (string * Value) -> option TagField) l fs :
  (forall gx tf, F gx = Some tf -> f_tag gx.1 = Some (tag_id tf)) ->
  t ∉ omap f_tag l -> Tagged.find_tag t (omap F (zip l fs)) = None.
Proof.
  intros HF. revert fs. induction l as [|g l IH]; intros [|x fs] Ht; try done.
  cbn in *. destruct (F (g, x)) as [tf|] eqn:E.
  - pose proof (HF _ _ E) as E'. cbn in E'. rewrite E' in Ht. apply not_elem_of_cons in Ht as [Hne Ht].
    cbn. rewrite (proj2 (Z.eqb_neq _ _)) by done. by apply IH.
  - apply IH. destruct (f_tag g); [by apply not_elem_of_cons in Ht as [_ Ht]|done].
Qed.

(** Tags being distinct, a tag is found where its field is. *)
Lemma find_tag_zip t (F : Field * (string * Value) -> option TagField) l fs g x :
  (forall gx tf, F gx = Some tf -> f_tag gx.1 = Some (tag_id tf)) ->
  NoDup (omap f_tag l) -> (g, x) ∈ zip l fs -> f_tag g = Some t ->
  Tagged.find_tag t (omap F (zip l fs)) = F (g, x).
Proof.
  intros HF. revert fs. induction l as [|g0 l IH]; intros [|x0 fs] Hnd Hin Hg;
    try by apply elem_of_nil in Hin.
  cbn in *. apply elem_of_cons in Hin as [[= <- <-]|Hin].
  - rewrite Hg in Hnd. apply NoDup_cons in Hnd as [Ht _].
    destruct (F (g, x)) as [tf|] eqn:E; [|by apply find_tag_absent].
    pose proof (HF _ _ E) as E'. cbn in E'. rewrite Hg in E'. injection E' as ->.
    cbn. by rewrite Z.eqb_refl.
  - assert (Ht : t ∈ omap f_tag l).
    { apply list_elem_of_omap. exists g. split; [by eapply elem_of_zip_l|done]. }
    destruct (F (g0, x0)) as [tf|] eqn:E.
    + pose proof (HF _ _ E) as E'. cbn in E'. rewrite E' in Hnd. apply NoDup_cons in Hnd as [Hne Hnd].
      cbn. rewrite (proj2 (Z.eqb_neq _ _)) by congruence. by apply IH.
    + apply IH; [|done|done]. destruct (f_tag g0); [by apply NoDup_cons in Hnd as [_ Hnd]|done].
Qed.

Lemma tag_type fuel parent g t :
  f_tag g = Some t -> field_type fuel parent g = SOption (tag_kind snake common fuel g).
Proof.
  intros Hg. unfold tag_kind.
  destruct fuel; cbn [Model.field_type]; unfold field_shape; rewrite Hg;
    destruct (is_sequence _); done.
Qed.

(** A tag that encodes comes back, unless it is a uuid. *)
Lemma tag_arrives fuel parent g t w tags :
  f_tag g = Some t -> field_converts fuel true g ->
  has_shape (public_type fuel parent g) w = true ->
  match over (to_mezzanine fuel (children g)) w with
  | VSome x => sendable x && is_ok (Tagged.encode x)
  | _ => true
  end = true ->
  Tagged.find_tag t tags =
    match over (to_mezzanine fuel (children g)) w with
    | VSome x => mkTag t <$> ok_of (Tagged.encode x)
    | _ => None
    end ->
  match Tagged.decode (tag_kind snake common fuel g) t tags with
  | Ok (Some x) => VSome (over (from_mezzanine fuel (children g)) x)
  | _ => VNone
  end = if negb (is_uuid (tag_kind snake common fuel g)) then w else VNone.
Proof.
  intros Hg (_ & Hd & Hconv) Hw Henc Hfind. rewrite Hg in Hconv.
  destruct Hconv as (_ & _ & Hs & Hc).
  pose proof (into_shape fuel false parent g w ltac:(destruct fuel; [done|apply to_mezzanine_shape])
    Hd Hc Hw) as Hty. rewrite (tag_type fuel parent g t Hg) in Hty.
  pose proof (field_returns fuel parent g w ltac:(destruct fuel; [done|apply tag_free_returns])
    Hd Hc Hw) as [Hback Hun].
  unfold Tagged.decode. rewrite Hfind. clear Hfind.
  destruct (over (to_mezzanine fuel (children g)) w) as [| | | | | | | | |x| |] eqn:Ew;
    cbn [has_shape] in Hty; try done.
  { cbn in Hback. subst w. by destruct (negb _). }
  apply andb_true_iff in Henc as [Hsend Hok]. destruct (Tagged.encode x) as [bs| |] eqn:Ebs; try done.
  cbn [ok_of fmap option_fmap option_map data]. destruct Hs as [Hs|Hs]; [|by rewrite Hs].
  pose proof (tag_value_read _ x bs [] Hs Hty Hsend Hun Ebs) as Hread. rewrite app_nil_r in Hread.
  rewrite Hread. cbn [rbind].
  destruct (tag_kind snake common fuel g) eqn:Ek; try done; destruct x; try done; cbn; by rewrite <- Hback.
Qed.

(** ** Back from the wire *)

Context (mm : MessageMeta) (ver : Z).
#[local] Notation visible := (visible mm ver).
#[local] Notation seen := (seen snake common (Model.is_flexible mm ver) ver).
#[local] Notation tags_encode := (tags_encode common).
#[local] Notation each_field_meta fuel := (each_field_meta snake fuel common).

(** An array without batches is no array. *)
Definition nonempty_records (h : Value -> Value) (w : Value) : Value :=
  match w with VSome (VRecords []) => VNone | _ => h w end.

Lemma visible_scalar fm parent g b w :
  scalar b = true -> has_shape (field_shape parent g b) w = true ->
  visible fm w = nonempty_records (fun w => w) w.
Proof.
  intros Hb.
  assert (Hs : forall x, has_shape b x = true -> visible fm x = x) by (by destruct b, x).
  assert (Hv : forall x, has_shape (SVec b) x = true -> visible fm x = x).
  { intros x Hx. destruct x as [| | | | | | | | | |l|]; try done. cbn in *. f_equal.
    induction l as [|x l IH]; [done|]. cbn in *. apply andb_true_iff in Hx as [Hx Hl]. by rewrite Hs, IH. }
  assert (Ho : forall s, (forall x, has_shape s x = true -> visible fm x = x) ->
    has_shape (SOption s) w = true -> visible fm w = nonempty_records (fun w => w) w).
  { intros s Hx Hw. destruct w as [| | | | | | | | |x| |]; try done. cbn.
    rewrite Hx by done. by destruct x as [| | | | | |[]| | | | |]. }
  unfold field_shape. destruct (f_tag g); [destruct (is_sequence _); by apply Ho|].
  destruct (is_sequence _); [by apply Ho|]. destruct (_ && _); [|by apply Ho].
  intros Hw. rewrite Hs by done. by destruct b, w.
Qed.

Lemma lifts_visible fm : lifts (visible fm).
Proof. split; [done|]. split; [done|]. by intros []. Qed.

Lemma lifts_over h : lifts (over h).
Proof. split; [done|]. split; [done|]. done. Qed.

Lemma records_struct h parent g name l w :
  has_shape (field_shape parent g (SStruct name l)) w = true -> nonempty_records h w = h w.
Proof.
  unfold field_shape. intros Hw. destruct w as [| | | | | | | | |[]| |]; try done.
  by repeat case_match.
Qed.

Definition arrives (fuel : nat) : Prop :=
  forall tags l parent name v fm,
    fields fm = map (each_field_meta fuel) l -> convertible (S fuel) tags l = true ->
    has_shape (public_struct fuel name parent l) v = true -> tags_encode (S fuel) l v = true ->
    from_mezzanine (S fuel) l (visible fm (to_mezzanine (S fuel) l v)) = seen (S fuel) l v.

Lemma meta_children fuel g :
  fields (each_field_meta fuel g).2
  = match fuel with O => [] | S fuel => map (each_field_meta fuel) (children g) end.
Proof.
  destruct fuel as [|fuel]; [done|]. cbn. unfold Mezzanine.children.
  destruct (f_fields g); [done|]. destruct (type_mapping _); try done. by destruct (common_fields _ _).
Qed.

Lemma field_arrives fuel tags parent g w :
  match fuel with O => True | S fuel => arrives fuel end ->
  described common g = true -> convertible fuel tags (children g) = true ->
  has_shape (public_type fuel parent g) w = true ->
  over_all (tags_encode fuel (children g)) w = true ->
  over (from_mezzanine fuel (children g))
    (visible (each_field_meta fuel g).2 (over (to_mezzanine fuel (children g)) w))
  = nonempty_records (over (seen fuel (children g))) w.
Proof.
  intros IH Hd Hc Hw Hq.
  destruct (field_types fuel parent g Hd)
    as [(b & Hb & E1 & _)|[(name & Ef & E1 & _)|(name & fuel' & Ef & E1 & _)]]; rewrite E1 in Hw.
  - pose proof (field_shape_flat parent g b Hb) as Hf. rewrite (over_flat _ _ _ Hf Hw).
    rewrite (visible_scalar _ parent g b) by done.
    assert (E : forall h, over h (nonempty_records (fun w => w) w) = nonempty_records (over h) w).
    { intros h. by destruct w as [| | | | | | | | |[| | | | | |[]| | | | |]| |]. }
    rewrite E. unfold nonempty_records. by rewrite !(over_flat _ _ _ Hf Hw).
  - rewrite (records_struct _ parent g name []) by done.
    refine (lifts_ext (SStruct name []) (struct_value name []) _ _ _ parent g w
      (lifts_back _ _ _ (lifts_visible _)) (lifts_over _) _ Hw Hq).
    subst fuel. intros x (fs & -> & Hfs)%has_shape_struct _. by destruct fs.
  - rewrite (records_struct _ _ _ _ _ _ Hw).
    refine (lifts_ext (public_struct fuel' name (child_parent g) (children g)) (struct_value name _)
      _ _ _ parent g w (lifts_back _ _ _ (lifts_visible _)) (lifts_over _) _ Hw Hq).
    intros x Hx Qx. subst fuel. pose proof (struct_value _ _ _ Hx) as (n & fs & ->).
    specialize (IH tags _ _ _ _ (each_field_meta (S fuel') g).2 (meta_children (S fuel') g) Hc Hx Qx).
    cbn [over]. revert IH.
    by destruct (to_mezzanine_container (S fuel') (children g) n fs) as [? ->].
Qed.

Lemma lookup_meta fuel l g :
  NoDup (map (fun g => snake (f_name g)) l) -> g ∈ l ->
  lookup_field (map (each_field_meta fuel) l) (snake (f_name g)) = Some (each_field_meta fuel g).2.
Proof.
  assert (Hkey : forall g, each_field_meta fuel g = (snake (f_name g), (each_field_meta fuel g).2))
    by (by destruct fuel).
  induction l as [|g' l IH]; intros Hnd Hin; [by apply elem_of_nil in Hin|].
  cbn [map] in *. rewrite (Hkey g'). cbn [lookup_field].
  apply NoDup_cons in Hnd as [Hg Hnd]. apply elem_of_cons in Hin as [->|Hin].
  - by rewrite bool_decide_true.
  - rewrite bool_decide_false; [by apply IH|]. intros E. apply Hg, list_elem_of_fmap. by exists g.
Qed.

Lemma visible_key fm kw : (visible_field mm ver fm kw).1 = kw.1.
Proof. by destruct kw. Qed.

Section Struct.
Context (fuel : nat) (tags : bool) (l : list Field) (parent : option VersionRange)
  (fs : list (string * Value)) (fm : FieldMeta)
  (Hfm : fields fm = map (each_field_meta fuel) l)
  (Hfs : Forall2 (fun g kw => kw.1 = snake (f_name g) /\
           has_shape (public_type fuel parent g) kw.2 = true) l fs)
  (Hc : convertible (S fuel) tags l = true) (Hq : tags_encode (S fuel) l (VStruct "" fs) = true)
  (IH : match fuel with O => True | S fuel => arrives fuel end).

#[local] Notation into :=
  (fun gw : Field * (string * Value) => over (to_mezzanine fuel (children gw.1)) gw.2.2).
#[local] Notation entry := (fun gw : Field * (string * Value) =>
  match f_tag gw.1, over (to_mezzanine fuel (children gw.1)) gw.2.2 with
  | Some tag, VSome x => mkTag tag <$> ok_of (Tagged.encode x)
  | _, _ => None
  end).
#[local] Notation sent :=
  (untagged_fields into l fs ++ [(tag_buffer, VSome (VTagBuffer (omap entry (zip l fs))))]).

Lemma struct_names :
  Forall2 (fun g kw => kw.1 = snake (f_name g)) l fs /\
  NoDup (map (fun g => snake (f_name g)) l) /\ Forall (fun g => snake (f_name g) <> tag_buffer) l.
Proof.
  apply convertible_S in Hc as (Hnd & _ & Hl). split; [|split; [done|]].
  - eapply Forall2_impl; [done|]. by intros ?? [? _].
  - eapply Forall_impl; [done|]. by intros ? [? _].
Qed.

Lemma struct_tag g k w t :
  (g, (k, w)) ∈ zip l fs -> f_tag g = Some t ->
  match get tag_buffer (map (visible_field mm ver fm) sent) with
  | VSome (VTagBuffer ts) =>
      match Tagged.decode (tag_kind snake common fuel g) t ts with
      | Ok (Some x) => VSome (over (from_mezzanine fuel (children g)) x)
      | _ => VNone
      end
  | _ => VNone
  end = if Model.is_flexible mm ver && negb (is_uuid (tag_kind snake common fuel g)) then w else VNone.
Proof.
  intros Hin Et. destruct struct_names as (Hnames & Hnd & Hne).
  rewrite (get_tag_buffer _ _ l fs _ Hnames Hnd Hne (visible_key fm)).
  cbn [visible_field snd]. rewrite bool_decide_true by done.
  destruct (Model.is_flexible mm ver); [cbn [andb]|done].
  destruct (zip_related _ _ _ _ _ Hfs Hin) as [_ Hw].
  apply convertible_S in Hc as (_ & Htags & Hl). rewrite Forall_forall in Hl.
  pose proof (Hl g (elem_of_zip_l _ _ _ _ Hin)) as Hg.
  cbn [Mezzanine.tags_encode] in Hq. rewrite forallb_forall in Hq.
  specialize (Hq _ (proj1 (list_elem_of_In _ _) Hin)). cbn in Hq. rewrite Et in Hq.
  apply (tag_arrives fuel parent); [done| |done|done|].
  { destruct Hg as (? & ? & Hg). unfold field_converts. rewrite Et in *. by destruct Hg as [-> Hg]. }
  rewrite (find_tag_zip t entry l fs g (k, w)); [cbn; by rewrite Et| |done|done|done].
  intros gx tf E. cbn in E. destruct (f_tag gx.1); [|done].
  destruct (over (to_mezzanine fuel (children gx.1)) gx.2.2) as [| | | | | | | | |x| |]; try done.
  destruct (ok_of (Tagged.encode x)); [|done]. by injection E as <-.
Qed.

Lemma struct_field g k w :
  (g, (k, w)) ∈ zip l fs -> f_tag g = None ->
  over (from_mezzanine fuel (children g)) (get k (map (visible_field mm ver fm) sent))
  = if within (f_versions g) ver then nonempty_records (over (seen fuel (children g))) w else VNone.
Proof.
  intros Hin Et. destruct struct_names as (Hnames & Hnd & Hne).
  rewrite (get_untagged _ _ l fs _ g k w Hnames Hnd Hne (visible_key fm) Hin Et).
  destruct (zip_related _ _ _ _ _ Hfs Hin) as [Hk Hw]. cbn [fst snd] in Hk, Hw.
  pose proof (elem_of_zip_l _ _ _ _ Hin) as Hg.
  rewrite Forall_forall in Hne. pose proof (Hne g Hg) as Htb.
  cbn [visible_field snd]. rewrite bool_decide_false by congruence.
  rewrite Hfm, Hk, lookup_meta by done.
  apply convertible_S in Hc as (_ & _ & Hl). rewrite Forall_forall in Hl.
  destruct (Hl g Hg) as (_ & Hd & Hconv). rewrite Et in Hconv.
  cbn [Mezzanine.tags_encode] in Hq. rewrite forallb_forall in Hq.
  specialize (Hq _ (proj1 (list_elem_of_In _ _) Hin)). cbn in Hq. rewrite Et in Hq.
  replace (version (each_field_meta fuel g).2) with (f_versions g) by (by destruct fuel).
  destruct (within (f_versions g) ver); [|done].
  by apply (field_arrives fuel tags parent).
Qed.
End Struct.

Lemma arrives_struct fuel :
  match fuel with O => True | S fuel => arrives fuel end -> arrives fuel.
Proof.
  intros IH tags l parent name v fm Hfm Hc (fs & -> & Hfs%public_fields)%has_shape_struct Hq.
  cbn [Mezzanine.to_mezzanine].
  change (visible fm (VStruct name ?x)) with (VStruct name (map (visible_field mm ver fm) x)).
  cbn [Mezzanine.from_mezzanine Mezzanine.seen]. f_equal.
  apply (map_zip _ _ _ _ _ Hfs). intros g [k w] Hin [Hk Hw]. cbn [fst snd] in Hk, Hw. rewrite <- Hk.
  f_equal. destruct (f_tag g) as [t|] eqn:Et.
  - exact (struct_tag fuel tags l parent fs fm Hfs Hc Hq g k w t Hin Et).
  - exact (struct_field fuel tags l parent fs fm Hfm Hfs Hc Hq IH g k w Hin Et).
Qed.

(** What is read back of a value that was converted, written and read. *)
Lemma from_mezzanine_seen fuel : arrives fuel.
Proof. induction fuel as [|fuel IH]; by apply arrives_struct. Qed.

(** ** A field that may not be left out *)

Lemma concat_opt_none l : None ∈ l -> concat_opt l = None.
Proof.
  induction l as [|o l IH]; intros Hin; [by apply elem_of_nil in Hin|]. cbn.
  apply elem_of_cons in Hin as [<-|Hin]; [done|]. destruct o; [|done]. cbn. by rewrite IH.
Qed.

Lemma zip_named l (fs : list (string * Value)) g w :
  Forall2 (fun g kw => kw.1 = snake (f_name g)) l fs -> NoDup (map (fun g => snake (f_name g)) l) ->
  g ∈ l -> (snake (f_name g), w) ∈ fs -> (g, (snake (f_name g), w)) ∈ zip l fs.
Proof.
  induction 1 as [|g' [k w'] l fs Hk Hfs IH]; intros Hnd Hg Hw; [by apply elem_of_nil in Hg|].
  cbn in *. subst k. apply NoDup_cons in Hnd as [Hg' Hnd]. apply elem_of_cons in Hg as [->|Hg].
  - apply elem_of_cons. left. apply elem_of_cons in Hw as [->|Hw]; [done|]. exfalso. apply Hg'.
    clear -Hfs Hw. induction Hfs as [|g'' [k w''] l fs Hk Hfs IH]; [by apply elem_of_nil in Hw|].
    cbn in *. subst k. apply elem_of_cons in Hw as [[= E _]|Hw]; apply elem_of_cons; [by left|right].
    by apply IH.
  - apply elem_of_cons. right. apply elem_of_cons in Hw as [[= E _]|Hw]; [|by apply IH].
    exfalso. apply Hg'. rewrite <- E. apply list_elem_of_fmap. by exists g.
Qed.

Lemma write_struct fm name fs :
  write mm ver fm (VStruct name fs) = concat_opt (map (write_field mm ver fm) fs).
Proof. done. Qed.

Lemma omitted_unwritten fuel tags l parent name fs fm g :
  fields fm = map (each_field_meta fuel) l -> convertible (S fuel) tags l = true ->
  has_shape (public_struct fuel name parent l) (VStruct name fs) = true ->
  g ∈ l -> f_tag g = None -> within (f_versions g) ver = true -> is_records (f_kind g) = false ->
  from_option (fun r => within r ver) false (f_nullable g) = false ->
  (snake (f_name g), VNone) ∈ fs ->
  write mm ver fm (to_mezzanine (S fuel) l (VStruct name fs)) = None.
Proof.
  intros Hfm Hc (fs' & [= <-] & Hfs%public_fields)%has_shape_struct Hg Ht Hver Hrec Hnull Hin.
  destruct (struct_names fuel tags l parent fs Hfs Hc) as (Hnames & Hnd & Hne).
  rewrite Forall_forall in Hne. cbn [Mezzanine.to_mezzanine]. rewrite write_struct.
  apply concat_opt_none, list_elem_of_fmap. exists (snake (f_name g), VNone). split.
  - unfold write_field. rewrite bool_decide_false by (by apply Hne).
    rewrite Hfm, lookup_meta by done.
    replace (version (each_field_meta fuel g).2) with (f_versions g) by (by destruct fuel). rewrite Hver.
    cbn [write]. unfold absent, is_nullable.
    replace (kind (each_field_meta fuel g).2) with (f_kind g) by (by destruct fuel). rewrite Hrec.
    replace (nullable (each_field_meta fuel g).2) with (f_nullable g) by (by destruct fuel).
    destruct (f_nullable g) as [r|]; [cbn in Hnull; by rewrite Hnull|done].
  - apply elem_of_app. left. apply list_elem_of_omap. exists (g, (snake (f_name g), VNone)).
    cbn [fst snd over]. rewrite Ht. split; [by apply zip_named|done].
Qed.
End Generated.
