(* ===== verification/Messages.v ===== *)
(** * Messages: the codec over the shipped descriptions

    [tansu-sans-io]: the metadata and the types [build.rs] generates for the
    descriptions of [message/] ([MESSAGE_META], [RootMessageMeta], [Body]), the
    frames of the public types ([Frame::request], [Frame::request_from_bytes],
    [Frame::response], [Frame::response_from_bytes]), and what the theorems on
    the encoder, the decoder and the conversions say of them. *)

From Stdlib Require Import Ascii.
From S2P Require Export Mezzanine Schemas.
Import Model Serde Varint Grammar Mezzanine.

(** ** Snake case

    [convert_case] is not part of the sources: its conversion is a parameter
    below, and this is what it does to the names of the descriptions: a word ends
    between a lower-case and an upper-case letter, around digits, and before the
    last capital of several. *)
Module Snake.

Inductive CharClass := Lower | Upper | Digit | Other.

Definition class (c : ascii) : CharClass :=
  let n := Z.of_nat (nat_of_ascii c) in
  if (97 <=? n) && (n <=? 122) then Lower
  else if (65 <=? n) && (n <=? 90) then Upper
  else if (48 <=? n) && (n <=? 57) then Digit else Other.

Definition lower (c : ascii) : ascii :=
  match class c with Upper => ascii_of_nat (nat_of_ascii c + 32) | _ => c end.

(** Whether a word ends between [a] and [b], [next] following. *)
Definition boundary (a b : ascii) (next : option ascii) : bool :=
  match class a, class b with
  | Lower, Upper | Upper, Digit | Digit, Upper | Digit, Lower | Lower, Digit => true
  | Upper, Upper =>
      match next with
      | Some c => match class c with Lower => true | _ => false end
      | None => false
      end
  | _, _ => false
  end.

Fixpoint snake_from (prev : ascii) (s : string) : string :=
  match s with
  | EmptyString => EmptyString
  | String c rest =>
      let tail := snake_from c rest in
      if boundary prev c (match rest with String d _ => Some d | EmptyString => None end)
      then String "_"%char (String (lower c) tail) else String (lower c) tail
  end.

Definition snake_case (s : string) : string :=
  match s with
  | EmptyString => EmptyString
  | String c rest => String (lower c) (snake_from c rest)
  end.

End Snake.

Module Messages.

(** The messages the codec is generated for. *)
Definition shipped : list Message := broker_messages Schemas.all.

(** The descriptions nest at most this deep, common structures included. *)
Definition depth : nat := 8.

Section Codec.
Variable snake : string -> string.

(** [MESSAGE_META], [RootMessageMeta::messages()] and the variants of [Body]. *)
Definition meta : Message -> MessageMeta := each_message_meta snake depth.

Definition root_of (messages : list Message) : RootMessageMeta :=
  RootMessageMeta_new (map meta messages).

Definition wire : Message -> Shape := message_struct snake depth.

Definition bodies_of (messages : list Message) : list (string * Shape) :=
  map (fun m => (m_name m, wire m)) messages.

(** The public type of a message. *)
Definition public (m : Message) : Shape :=
  public_struct snake (m_common_structs m) depth (m_name m) None (m_fields m).

(** [#[serde(into)]] and [#[serde(try_from)]] of the public types. *)
Definition into (m : Message) : Value -> Value :=
  to_mezzanine (m_common_structs m) (S depth) (m_fields m).

Definition try_from (m : Message) : Value -> Value :=
  from_mezzanine snake (m_common_structs m) (S depth) (m_fields m).

Definition try_from_body (messages : list Message) (v : Value) : Value :=
  match v with
  | VStruct name _ =>
      match List.find (fun m => bool_decide (m_name m = name)) messages with
      | Some m => try_from m v
      | None => v
      end
  | _ => v
  end.

Definition public_frame (messages : list Message) (r : result (Deserializer.Frame * bytes))
    : result (Deserializer.Frame * bytes) :=
  let! (f, rest) := r in
  Ok (Deserializer.mkFrame (Deserializer.size f) (Deserializer.header f)
        (try_from_body messages (Deserializer.body f)), rest).

(** [Frame::request], [Frame::response] with a body of the message [m]. *)
Definition request (messages : list Message) (m : Message) (header : Encoder.Header) (body : Value)
    : result bytes :=
  Encoder.request (root_of messages) header (into m body).

Definition response (messages : list Message) (m : Message) (header : Encoder.Header) (body : Value)
    (api_key api_version : Z) : result bytes :=
  Encoder.response (root_of messages) header (into m body) api_key api_version.

(** [Frame::request_from_bytes], [Frame::response_from_bytes]. *)
Definition request_from_bytes (messages : list Message) (bs : bytes)
    : result (Deserializer.Frame * bytes) :=
  public_frame messages
    (Deserializer.request_from_bytes (root_of messages) (bodies_of messages) bs).

Definition response_from_bytes (messages : list Message) (bs : bytes) (api_key api_version : Z)
    : result (Deserializer.Frame * bytes) :=
  public_frame messages
    (Deserializer.response_from_bytes (root_of messages) (bodies_of messages) bs api_key api_version).

(** What arrives of a body. *)
Definition received (m : Message) (v : Z) : Value -> Value :=
  seen snake (m_common_structs m) (Model.is_flexible (meta m) v) v (S depth) (m_fields m).

(** A body of the message's type, which no limit of the decoder refuses. *)
Definition transmissible (m : Message) (body : Value) : bool :=
  has_shape (public m) body
  && tags_encode (m_common_structs m) (S depth) (m_fields m) body
  && sendable (into m body).

(** The generated types agree with the generated metadata. *)
Definition consistent (m : Message) (v : Z) : bool :=
  message_fits (meta m) v (wire m)
  && convertible snake (m_common_structs m) (S depth) true (m_fields m).

(** The names of the fields below [l]. *)
Fixpoint names (fuel : nat) (common : option (list CommonStruct)) (l : list Field) : list string :=
  map f_name l
  ++ match fuel with
     | O => []
     | S fuel => flat_map (fun g => names fuel common (children common g)) l
     end.

Definition message_names (m : Message) : list string :=
  names depth (m_common_structs m) (m_fields m).

End Codec.

Definition versions (m : Message) : list Z :=
  let r := valid (m_versions m) in
  map (fun n => start r + Z.of_nat n) (seq 0 (Z.to_nat (end_ r - start r + 1))).

(** The messages whose metadata does not know a structure of their type. *)
Definition undescribed : list (string * Z) :=
  [("ConsumerGroupDescribeResponse", 0); ("ConsumerGroupDescribeResponse", 1);
   ("ShareGroupDescribeResponse", 0)]%string%Z.

End Messages.
Import Messages.

(** ** The lookups *)

Definition keyed (m : Message) : bool * Z :=
  (match m_kind m with Request => true | Response => false end, m_api_key m).

Section Lookups.
Context (snake : string -> string).

Definition entry (root : RootMessageMeta) (k : bool * Z) : option MessageMeta :=
  if k.1 then requests root !! k.2 else responses root !! k.2.

Definition add (root : RootMessageMeta) (mm : MessageMeta) : RootMessageMeta :=
  match mm_kind mm with
  | Request => mkRoot (<[mm_api_key mm := mm]> (requests root)) (responses root)
  | Response => mkRoot (requests root) (<[mm_api_key mm := mm]> (responses root))
  end.

Lemma entry_added root m k :
  entry (add root (meta snake m)) k
  = if bool_decide (keyed m = k) then Some (meta snake m) else entry root k.
Proof.
  destruct k as [b k]. unfold add, entry, keyed. cbn [fst snd meta each_message_meta mm_kind mm_api_key].
  destruct (m_kind m), b; cbn; case_bool_decide as H.
  all: try (injection H as <-). all: try done. all: try apply lookup_insert_eq.
  all: apply lookup_insert_ne; congruence.
Qed.

Lemma entries_kept l root k :
  k ∉ map keyed l -> entry (fold_left add (map (meta snake) l) root) k = entry root k.
Proof.
  revert root. induction l as [|m l IH]; intros root Hk; [done|].
  cbn in *. apply not_elem_of_cons in Hk as [Hm Hk]. rewrite IH by done.
  by rewrite entry_added, bool_decide_false by done.
Qed.

Lemma entries_found l root m :
  NoDup (map keyed l) -> m ∈ l ->
  entry (fold_left add (map (meta snake) l) root) (keyed m) = Some (meta snake m).
Proof.
  revert root. induction l as [|m' l IH]; intros root Hnd Hm; [by apply elem_of_nil in Hm|].
  cbn in *. apply NoDup_cons in Hnd as [Hm' Hnd]. apply elem_of_cons in Hm as [->|Hm]; [|by apply IH].
  rewrite entries_kept by done. by rewrite entry_added, bool_decide_true.
Qed.

Lemma request_meta l m :
  NoDup (map keyed l) -> m ∈ l -> m_kind m = Request ->
  requests (root_of snake l) !! m_api_key m = Some (meta snake m).
Proof.
  intros Hnd Hm Hk. pose proof (entries_found l (mkRoot ∅ ∅) m Hnd Hm) as H.
  unfold keyed in H. by rewrite Hk in H.
Qed.

Lemma response_meta l m :
  NoDup (map keyed l) -> m ∈ l -> m_kind m = Response ->
  responses (root_of snake l) !! m_api_key m = Some (meta snake m).
Proof.
  intros Hnd Hm Hk. pose proof (entries_found l (mkRoot ∅ ∅) m Hnd Hm) as H.
  unfold keyed in H. by rewrite Hk in H.
Qed.

Lemma body_found l m :
  NoDup (map m_name l) -> m ∈ l ->
  Deserializer.body_shape (bodies_of snake l) (m_name m) = Some (wire snake m).
Proof.
  induction l as [|m' l IH]; intros Hnd Hm; [by apply elem_of_nil in Hm|].
  cbn in *. apply NoDup_cons in Hnd as [Hm' Hnd]. apply elem_of_cons in Hm as [->|Hm].
  - by rewrite bool_decide_true.
  - rewrite bool_decide_false; [by apply IH|]. intros E. apply Hm', list_elem_of_fmap. by exists m.
Qed.

Lemma message_found l m :
  NoDup (map m_name l) -> m ∈ l ->
  List.find (fun m' => bool_decide (m_name m' = m_name m)) l = Some m.
Proof.
  induction l as [|m' l IH]; intros Hnd Hm; [by apply elem_of_nil in Hm|].
  cbn in *. apply NoDup_cons in Hnd as [Hm' Hnd]. apply elem_of_cons in Hm as [->|Hm].
  - by rewrite bool_decide_true.
  - rewrite bool_decide_false; [by apply IH|]. intros E. apply Hm', list_elem_of_fmap. by exists m.
Qed.

(** ** A body there and back *)

Lemma consistent_fits m v :
  consistent snake m v = true -> message_fits (meta snake m) v (wire snake m) = true.
Proof. unfold consistent. intros H. by apply andb_true_iff in H as [H _]. Qed.

Lemma into_wire m v body :
  consistent snake m v = true -> has_shape (public snake m) body = true ->
  has_shape (wire snake m) (into m body) = true.
Proof.
  intros [_ Hc]%andb_true_iff Hty.
  by apply (to_mezzanine_shape snake (m_common_structs m) depth true (m_fields m) None (m_name m)).
Qed.

Lemma transmissible_inv m body :
  transmissible snake m body = true ->
  has_shape (public snake m) body = true /\
  tags_encode (m_common_structs m) (S depth) (m_fields m) body = true /\ sendable (into m body) = true.
Proof. intros H. unfold transmissible in H. rewrite !andb_true_iff in H. tauto. Qed.

Lemma try_from_received l m v body :
  NoDup (map m_name l) -> m ∈ l ->
  consistent snake m v = true -> transmissible snake m body = true ->
  try_from_body snake l (visible (meta snake m) v (root_meta (meta snake m) v) (into m body))
  = received snake m v body.
Proof.
  intros Hnd Hm [_ Hc]%andb_true_iff (Hty & Htags & _)%transmissible_inv.
  unfold received. rewrite <- (from_mezzanine_seen snake (m_common_structs m) (meta snake m) v depth true
    (m_fields m) None (m_name m) body (root_meta (meta snake m) v) eq_refl Hc Hty Htags).
  apply has_shape_struct in Hty as (fs & -> & _). unfold into.
  destruct (to_mezzanine_container (m_common_structs m) (S depth) (m_fields m) (m_name m) fs) as [fs' ->].
  cbn [visible try_from_body]. by rewrite message_found.
Qed.

Lemma request_eq l m h body :
  request snake l m h body = Encoder.request (root_of snake l) h (into m body).
Proof. reflexivity. Qed.

Lemma response_eq l m h body k v :
  response snake l m h body k v = Encoder.response (root_of snake l) h (into m body) k v.
Proof. reflexivity. Qed.

Section Frames.
Context (l : list Message) (Hkeys : NoDup (map keyed l)) (Hnames : NoDup (map m_name l)).
Context (m : Message) (v : Z) (Hm : m ∈ l) (Hcons : consistent snake m v = true).

Lemma request_grammar c id body :
  m_kind m = Request -> has_shape (public snake m) body = true ->
  ok_of (request snake l m (Encoder.HRequest (m_api_key m) v c id) body)
  = write_request (meta snake m) v (m_api_key m) c id (into m body).
Proof.
  intros Hk Hbody. pose proof (into_wire m v body Hcons Hbody) as Hty. rewrite request_eq.
  exact (request_written (root_of snake l) (meta snake m) v (m_api_key m) c id (wire snake m)
    (into m body) (request_meta l m Hkeys Hm Hk) (consistent_fits m v Hcons) Hty).
Qed.

Lemma response_grammar c body :
  m_kind m = Response -> has_shape (public snake m) body = true ->
  ok_of (response snake l m (Encoder.HResponse c) body (m_api_key m) v)
  = write_response (meta snake m) v (m_api_key m) c (into m body).
Proof.
  intros Hk Hbody. pose proof (into_wire m v body Hcons Hbody) as Hty. rewrite response_eq.
  exact (response_written (root_of snake l) (meta snake m) v (m_api_key m) c (wire snake m)
    (into m body) (response_meta l m Hkeys Hm Hk) (consistent_fits m v Hcons) Hty).
Qed.

Lemma public_frame_Ok r f rest :
  r = Ok (f, rest) ->
  public_frame snake l r
  = Ok (Deserializer.mkFrame (Deserializer.size f) (Deserializer.header f)
          (try_from_body snake l (Deserializer.body f)), rest).
Proof. by intros ->. Qed.

Lemma request_roundtrips c id body bs rest :
  m_kind m = Request -> transmissible snake m body = true ->
  in_ty I16 (m_api_key m) = true -> in_ty I16 v = true -> in_ty I32 c = true ->
  from_option utf8_valid true id = true ->
  request snake l m (Encoder.HRequest (m_api_key m) v c id) body = Ok bs ->
  request_from_bytes snake l (bs ++ rest)
  = Ok (Deserializer.mkFrame (Z.of_nat (length bs) - 4) (Encoder.HRequest (m_api_key m) v c id)
          (received snake m v body), rest).
Proof.
  intros Hk Hbody Hkey Hv Hc Hid Hreq. destruct (transmissible_inv m body Hbody) as (Hty & _ & Hsend).
  pose proof (request_grammar c id body Hk Hty) as Hw. rewrite Hreq in Hw. symmetry in Hw.
  apply (into_wire m v body Hcons) in Hty.
  rewrite <- (try_from_received l m v body Hnames Hm Hcons Hbody).
  apply (public_frame_Ok _ (Deserializer.mkFrame _ _ _)).
  exact (request_read (root_of snake l) (meta snake m) v (bodies_of snake l) (wire snake m)
    (consistent_fits m v Hcons) (body_found l m Hnames Hm) (m_api_key m) c id (into m body) bs rest
    (request_meta l m Hkeys Hm Hk) Hty Hsend Hkey Hv Hc Hid Hw).
Qed.

Lemma response_roundtrips c body bs rest :
  m_kind m = Response -> transmissible snake m body = true -> in_ty I32 c = true ->
  response snake l m (Encoder.HResponse c) body (m_api_key m) v = Ok bs ->
  response_from_bytes snake l (bs ++ rest) (m_api_key m) v
  = Ok (Deserializer.mkFrame (Z.of_nat (length bs) - 4) (Encoder.HResponse c)
          (received snake m v body), rest).
Proof.
  intros Hk Hbody Hc Hreq. destruct (transmissible_inv m body Hbody) as (Hty & _ & Hsend).
  pose proof (response_grammar c body Hk Hty) as Hw. rewrite Hreq in Hw. symmetry in Hw.
  apply (into_wire m v body Hcons) in Hty.
  rewrite <- (try_from_received l m v body Hnames Hm Hcons Hbody).
  apply (public_frame_Ok _ (Deserializer.mkFrame _ _ _)).
  exact (response_read (root_of snake l) (meta snake m) v (bodies_of snake l) (wire snake m)
    (consistent_fits m v Hcons) (body_found l m Hnames Hm) (m_api_key m) c (into m body) bs rest
    (response_meta l m Hkeys Hm Hk) Hty Hsend Hc Hw).
Qed.
End Frames.
End Lookups.

(** ** Only the names matter *)

Section Names.
Context (s1 s2 : string -> string) (common : option (list CommonStruct)).

Definition agree (l : list string) : Prop := forall n, n ∈ l -> s1 n = s2 n.

Lemma agree_name fuel l g : agree (names fuel common l) -> g ∈ l -> s1 (f_name g) = s2 (f_name g).
Proof.
  intros H Hg. apply H. destruct fuel; apply elem_of_app; left; apply list_elem_of_fmap; by exists g.
Qed.

Lemma agree_children fuel l g :
  agree (names (S fuel) common l) -> g ∈ l -> agree (names fuel common (children common g)).
Proof.
  intros H Hg n Hn. apply H. cbn [names]. apply elem_of_app. right. apply list_elem_of_In, in_flat_map.
  exists g. by rewrite <- !list_elem_of_In.
Qed.

Lemma same_metas fuel l :
  agree (names fuel common l) ->
  map (each_field_meta s1 fuel common) l = map (each_field_meta s2 fuel common) l.
Proof.
  revert l. induction fuel as [|fuel IH]; intros l H; apply map_ext_in;
    intros g Hg%list_elem_of_In; pose proof (agree_name _ _ _ H Hg) as E; cbn; rewrite E; [done|].
  pose proof (IH _ (agree_children _ _ _ H Hg)) as Hc. unfold children in Hc.
  destruct (f_fields g); [by rewrite Hc|]. destruct (type_mapping _); try done.
  destruct (common_fields _ _); cbn in Hc; [by rewrite Hc|done].
Qed.

Lemma same_types fuel l :
  agree (names fuel common l) ->
  forall g parent, g ∈ l -> field_type s1 fuel common parent g = field_type s2 fuel common parent g.
Proof.
  revert l. induction fuel as [|fuel IH]; intros l H g parent Hg; [done|].
  assert (Hfields : forall l' p, agree (names fuel common l') ->
    map (fun g => (s1 (f_name g), field_type s1 fuel common p g))
      (List.filter (fun g => bool_decide (f_tag g = None)) l')
    = map (fun g => (s2 (f_name g), field_type s2 fuel common p g))
      (List.filter (fun g => bool_decide (f_tag g = None)) l')).
  { intros l' p Hl'. apply map_ext_in. intros g' [Hg'%list_elem_of_In _]%List.filter_In.
    by rewrite (agree_name _ _ _ Hl' Hg'), (IH _ Hl' _ _ Hg'). }
  pose proof (agree_children _ _ _ H Hg) as Hc. unfold children in Hc. cbn [field_type].
  destruct (type_mapping _); try done.
  destruct (f_fields g); [by rewrite (Hfields _ _ Hc)|].
  destruct (common_fields _ _); [by rewrite (Hfields _ _ Hc)|done].
Qed.

Lemma forallb_same {A} (p q : A -> bool) l :
  (forall x, x ∈ l -> p x = q x) -> forallb p l = forallb q l.
Proof.
  induction l as [|x l IH]; intros H; [done|]. cbn.
  rewrite H by (apply elem_of_cons; by left). f_equal. apply IH. intros y Hy.
  apply H, elem_of_cons. by right.
Qed.

Lemma same_convertible fuel tags l :
  agree (names fuel common l) ->
  convertible s1 common (S fuel) tags l = convertible s2 common (S fuel) tags l.
Proof.
  revert tags l. induction fuel as [|fuel IH]; intros tags l H.
  all: assert (E : map (fun g => s1 (f_name g)) l = map (fun g => s2 (f_name g)) l)
    by (apply map_ext_in; intros g Hg%list_elem_of_In; by rewrite (agree_name _ _ _ H Hg)).
  all: cbn [convertible]; rewrite E; f_equal; apply forallb_same; intros g Hg.
  all: unfold tag_kind; rewrite (agree_name _ _ _ H Hg), (same_types _ _ H g None Hg).
  { done. }
  destruct (f_tag g); [do 2 f_equal|f_equal]; exact (IH _ _ (agree_children _ _ _ H Hg)).
Qed.
End Names.

Lemma same_fields s1 s2 common fuel parent l :
  agree s1 s2 (names fuel common l) ->
  map (fun g => (s1 (f_name g), field_type s1 fuel common parent g))
    (List.filter (fun g => bool_decide (f_tag g = None)) l)
  = map (fun g => (s2 (f_name g), field_type s2 fuel common parent g))
      (List.filter (fun g => bool_decide (f_tag g = None)) l).
Proof.
  intros H. apply map_ext_in. intros g [Hg%list_elem_of_In _]%List.filter_In.
  by rewrite (agree_name _ _ _ _ _ _ H Hg), (same_types _ _ _ _ _ H g parent Hg).
Qed.

Lemma same_consistent s1 s2 m v :
  agree s1 s2 (message_names m) -> consistent s1 m v = consistent s2 m v.
Proof.
  intros H. unfold consistent, meta, wire, each_message_meta, message_struct.
  rewrite (same_metas _ _ _ _ _ H), (same_convertible _ _ _ _ _ _ H).
  by rewrite (same_fields _ _ _ _ _ _ H).
Qed.

(** ** The shipped messages *)

Lemma shipped_keys : NoDup (map keyed shipped).
Proof. apply (bool_decide_unpack _). vm_compute. exact I. Qed.

Lemma shipped_names : NoDup (map m_name shipped).
Proof. apply (bool_decide_unpack _). vm_compute. exact I. Qed.

Lemma shipped_api_keys : forallb (fun m => in_ty I16 (m_api_key m)) shipped = true.
Proof. vm_compute. reflexivity. Qed.

Lemma shipped_versions : forallb (fun m => forallb (in_ty I16) (versions m)) shipped = true.
Proof. vm_compute. reflexivity. Qed.

Lemma version_listed m v : within (valid (m_versions m)) v = true -> v ∈ versions m.
Proof.
  unfold within, versions. intros [H1%Z.leb_le H2%Z.leb_le]%andb_true_iff.
  apply list_elem_of_fmap. exists (Z.to_nat (v - start (valid (m_versions m)))). split; [lia|].
  apply elem_of_seq. lia.
Qed.

Definition checked (m : Message) : bool :=
  convertible Snake.snake_case (m_common_structs m) (S depth) true (m_fields m)
  && let mm := meta Snake.snake_case m in let s := wire Snake.snake_case m in
     forallb (fun v => bool_decide ((m_name m, v) ∈ undescribed) || message_fits mm v s) (versions m).

Lemma shipped_checked : forallb checked shipped = true.
Proof. vm_compute. reflexivity. Qed.

(** The three are answers: every request is described. *)
Lemma request_described m v : m ∈ shipped -> m_kind m = Request -> (m_name m, v) ∉ undescribed.
Proof.
  intros Hm Hk Hin. assert (H : forallb (fun m => match m_kind m with
    | Request => negb (bool_decide (m_name m ∈ undescribed.*1)) | Response => true end) shipped = true)
    by (vm_compute; reflexivity).
  rewrite forallb_forall in H. specialize (H m (proj1 (list_elem_of_In _ _) Hm)). rewrite Hk in H.
  apply negb_true_iff, bool_decide_eq_false in H. apply H, list_elem_of_fmap. by exists (m_name m, v).
Qed.

(** The tagged fields that are never read back. *)
Fixpoint uuid_tags (common : option (list CommonStruct)) (fuel : nat) (l : list Field) : list string :=
  match fuel with
  | O => []
  | S fuel =>
      flat_map (fun g =>
        (if bool_decide (is_Some (f_tag g)) && is_uuid (tag_kind Snake.snake_case common fuel g) then [f_name g] else [])
        ++ uuid_tags common fuel (children common g)) l
  end.

Lemma uuid_tags_of_requests :
  omap (fun m => match m_kind m, uuid_tags (m_common_structs m) (S depth) (m_fields m) with
                 | Request, (_ :: _) as l => Some (m_name m, l) | _, _ => None end) shipped
  = [("FetchRequest", ["ReplicaDirectoryId"])]%string.
Proof. vm_compute. reflexivity. Qed.

Section Shipped.
Context (snake : string -> string)
  (Hsnake : forall n, n ∈ flat_map message_names shipped -> snake n = Snake.snake_case n).

Lemma shipped_consistent m v :
  m ∈ shipped -> within (valid (m_versions m)) v = true -> (m_name m, v) ∉ undescribed ->
  consistent snake m v = true.
Proof.
  intros Hm Hv Hd. rewrite (same_consistent snake Snake.snake_case).
  - pose proof (proj1 (forallb_forall _ _) shipped_checked m (proj1 (list_elem_of_In _ _) Hm)) as Hc.
    unfold checked in Hc. apply andb_true_iff in Hc as [Hc Hf]. unfold consistent. rewrite Hc, andb_true_r.
    apply version_listed, list_elem_of_In in Hv. rewrite forallb_forall in Hf. specialize (Hf v Hv).
    by rewrite bool_decide_false in Hf.
  - intros n Hn. apply Hsnake, list_elem_of_In, in_flat_map. exists m. by rewrite <- !list_elem_of_In.
Qed.

Lemma shipped_key m v :
  m ∈ shipped -> within (valid (m_versions m)) v = true ->
  in_ty I16 (m_api_key m) = true /\ in_ty I16 v = true.
Proof.
  intros Hm%list_elem_of_In Hv%version_listed%list_elem_of_In.
  pose proof (proj1 (forallb_forall _ _) shipped_api_keys m Hm) as Hk.
  pose proof (proj1 (forallb_forall _ _) shipped_versions m Hm) as Hl.
  split; [done|]. cbv beta in Hl. rewrite forallb_forall in Hl. by apply Hl.
Qed.

(** C5 For every request the codec is generated for and every version it declares, a
    frame that [Frame::request] writes for a body within the decoder's limits
    ([transmissible]) is read back by [Frame::request_from_bytes]: the size it was
    written with, the same header, what follows the frame left, and of the body
    what [received] keeps.  That is: an untagged field if the version has it, and
    nothing if not (an empty batch of records reads as none); a tagged field if
    the version is flexible, whether or not the field's own versions include it,
    unless it is a uuid, which the tag decoder cannot read (among the requests, only
    [ReplicaDirectoryId] of [FetchRequest]: [uuid_tags_of_requests]). *)
Theorem request_frame_roundtrip m v c id body bs rest :
  m ∈ shipped -> m_kind m = Request -> within (valid (m_versions m)) v = true ->
  transmissible snake m body = true -> in_ty I32 c = true -> from_option utf8_valid true id = true ->
  request snake shipped m (Encoder.HRequest (m_api_key m) v c id) body = Ok bs ->
  request_from_bytes snake shipped (bs ++ rest)
  = Ok (Deserializer.mkFrame (Z.of_nat (length bs) - 4) (Encoder.HRequest (m_api_key m) v c id)
          (received snake m v body), rest).
Proof.
  intros Hm Hk Hv Hbody Hc Hid Hreq. destruct (shipped_key m v Hm Hv) as [H1 H2].
  pose proof (request_described m v Hm Hk) as Hd. by apply (request_roundtrips snake shipped shipped_keys shipped_names m v Hm
              (shipped_consistent m v Hm Hv Hd) c id body bs rest).
Qed.

(** The same of responses, which the reader decodes knowing the api key and
    the version it asked with. *)
Theorem response_frame_roundtrip m v c body bs rest :
  m ∈ shipped -> m_kind m = Response -> within (valid (m_versions m)) v = true ->
  (m_name m, v) ∉ undescribed -> transmissible snake m body = true -> in_ty I32 c = true ->
  response snake shipped m (Encoder.HResponse c) body (m_api_key m) v = Ok bs ->
  response_from_bytes snake shipped (bs ++ rest) (m_api_key m) v
  = Ok (Deserializer.mkFrame (Z.of_nat (length bs) - 4) (Encoder.HResponse c)
          (received snake m v body), rest).
Proof.
  intros Hm Hk Hv Hd Hbody Hc Hreq.
  by apply (response_roundtrips snake shipped shipped_keys shipped_names m v Hm
              (shipped_consistent m v Hm Hv Hd) c body bs rest).
Qed.

(** C17 The encoder, which finds each value's representation from the names of
    the containers around it, the metadata and the version, writes what the
    grammar, a function of the description and the value alone, defines; and it
    refuses what the grammar has no bytes for. *)
Theorem request_refines_grammar m v c id body :
  m ∈ shipped -> m_kind m = Request -> within (valid (m_versions m)) v = true ->
  (m_name m, v) ∉ undescribed -> has_shape (public snake m) body = true ->
  ok_of (request snake shipped m (Encoder.HRequest (m_api_key m) v c id) body)
  = write_request (meta snake m) v (m_api_key m) c id (into m body).
Proof.
  intros Hm Hk Hv Hd Hbody.
  by apply (request_grammar snake shipped shipped_keys m v Hm (shipped_consistent m v Hm Hv Hd)).
Qed.

(** A field the version has and may not omit: a request without it is not
    written. *)
Theorem omitted_field_refused m v c id g fs :
  m ∈ shipped -> m_kind m = Request -> within (valid (m_versions m)) v = true ->
  (m_name m, v) ∉ undescribed -> has_shape (public snake m) (VStruct (m_name m) fs) = true ->
  g ∈ m_fields m -> f_tag g = None -> within (f_versions g) v = true ->
  is_records (f_kind g) = false -> from_option (fun r => within r v) false (f_nullable g) = false ->
  (snake (f_name g), VNone) ∈ fs ->
  ok_of (request snake shipped m (Encoder.HRequest (m_api_key m) v c id) (VStruct (m_name m) fs)) = None.
Proof.
  intros Hm Hk Hv Hd Hbody Hg Ht Hver Hrec Hnull Hin.
  pose proof (shipped_consistent m v Hm Hv Hd) as Hcons.
  rewrite (request_grammar snake shipped shipped_keys m v Hm Hcons) by done.
  unfold write_request. destruct (request_header _ _ _ _ _); [|done]. cbn [mbind option_bind].
  apply andb_true_iff in Hcons as [_ Hc]. unfold into.
  by rewrite (omitted_unwritten snake (m_common_structs m) (meta snake m) v depth true (m_fields m) None
                (m_name m) fs (root_meta (meta snake m) v) g).
Qed.
End Shipped.

(** ** Samples *)

Module Samples.
#[local] Open Scope string_scope.

Definition text (s : string) : Value :=
  VString (map (fun a => byte_of_Z (Z.of_nat (nat_of_ascii a))) (String.list_ascii_of_string s)).

(** A [FindCoordinatorRequest] of version 4. *)
Definition find_coordinator : Value :=
  VStruct "FindCoordinatorRequest"
    [("key", VNone); ("key_type", VSome (VInt I8 0));
     ("coordinator_keys", VSome (VVec [text "group"; text "other"]))].

(** A [FetchResponse] of version 16 with a tag. *)
Definition fetched : Value :=
  VStruct "FetchResponse"
    [("throttle_time_ms", VSome (VInt I32 0)); ("error_code", VSome (VInt I16 0));
     ("session_id", VSome (VInt I32 0));
     ("responses", VSome (VVec [
       VStruct "FetchableTopicResponse"
         [("topic", VNone); ("topic_id", VSome (VUuid (repeat "001"%byte 16)));
          ("partitions", VSome (VVec [
            VStruct "PartitionData"
              [("partition_index", VInt I32 0); ("error_code", VInt I16 6);
               ("high_watermark", VInt I64 (-1)); ("last_stable_offset", VSome (VInt I64 (-1)));
               ("log_start_offset", VSome (VInt I64 (-1))); ("diverging_epoch", VNone);
               ("current_leader", VSome (VStruct "LeaderIdAndEpoch"
                  [("leader_id", VInt I32 2); ("leader_epoch", VInt I32 5)]));
               ("snapshot_id", VNone); ("aborted_transactions", VNone);
               ("preferred_read_replica", VSome (VInt I32 (-1))); ("records", VSome (VRecords []))]]))]]));
     ("node_endpoints", VSome (VVec [
       VStruct "NodeEndpoint"
         [("node_id", VInt I32 2); ("host", text "broker-2"); ("port", VInt I32 9092);
          ("rack", VNone)]]))].

(** A group of one member, as [ConsumerGroupDescribe] answers it. *)
Definition assignment : Value := VStruct "Assignment" [("topic_partitions", VSome (VVec []))].

Definition described_group : Value :=
  VStruct "ConsumerGroupDescribeResponse"
    [("throttle_time_ms", VInt I32 0);
     ("groups", VSome (VVec [
       VStruct "DescribedGroup"
         [("error_code", VInt I16 0); ("error_message", VNone); ("group_id", text "g");
          ("group_state", text "Stable"); ("group_epoch", VInt I32 1);
          ("assignment_epoch", VInt I32 1); ("assignor_name", text "uniform");
          ("members", VSome (VVec [
            VStruct "Member"
              [("member_id", text "m"); ("instance_id", VNone); ("rack_id", VNone);
               ("member_epoch", VInt I32 1); ("client_id", text "c"); ("client_host", text "h");
               ("subscribed_topic_names", VSome (VVec [text "t"]));
               ("subscribed_topic_regex", VNone); ("assignment", assignment);
               ("target_assignment", assignment); ("member_type", VNone)]]));
          ("authorized_operations", VInt I32 0)]]))].

(** A [ProduceRequest] of version 3: one topic, one partition, and records whose
    batch declares the length -1. *)
Definition negative_length : bytes :=
  map byte_of_Z
    [0; 0; 0; 49; 0; 0; 0; 3; 0; 0; 0; 1; 255; 255; 255; 255; 0; 1; 0; 0; 0; 0; 0; 0; 0; 1; 0; 1; 116;
     0; 0; 0; 1; 0; 0; 0; 0; 0; 0; 0; 12; 0; 0; 0; 0; 0; 0; 0; 0; 255; 255; 255; 255].

End Samples.

Lemma shipped_members :
  Schemas.FindCoordinatorRequest ∈ shipped /\ Schemas.FetchResponse ∈ shipped.
Proof.
  assert (H : forall m, List.find (fun m' => bool_decide (m_name m' = m_name m)) shipped = Some m -> m ∈ shipped).
  { intros m Hm. apply list_elem_of_In. by apply List.find_some in Hm as [Hm _]. }
  split; apply H; vm_compute; reflexivity.
Qed.

Definition find_coordinator_frame : bytes :=
  Eval vm_compute in
    default [] (ok_of (request Snake.snake_case shipped Schemas.FindCoordinatorRequest
                         (Encoder.HRequest 10 4 7 None) Samples.find_coordinator)).

Definition fetched_frame : bytes :=
  Eval vm_compute in
    default [] (ok_of (response Snake.snake_case shipped Schemas.FetchResponse
                         (Encoder.HResponse 9) Samples.fetched 1 16)).

Lemma request_frame_roundtrip_witness :
  request_from_bytes Snake.snake_case shipped (find_coordinator_frame ++ [])
  = Ok (Deserializer.mkFrame (Z.of_nat (length find_coordinator_frame) - 4)
          (Encoder.HRequest (m_api_key Schemas.FindCoordinatorRequest) 4 7 None)
          (received Snake.snake_case Schemas.FindCoordinatorRequest 4 Samples.find_coordinator), []).
Proof.
  apply (request_frame_roundtrip Snake.snake_case (fun n _ => eq_refl) Schemas.FindCoordinatorRequest
    4 7 None Samples.find_coordinator find_coordinator_frame []);
    [apply shipped_members|done|done|vm_compute; reflexivity|done|done|vm_compute; reflexivity].
Defined.

Lemma response_frame_roundtrip_witness :
  response_from_bytes Snake.snake_case shipped (fetched_frame ++ []) (m_api_key Schemas.FetchResponse) 16
  = Ok (Deserializer.mkFrame (Z.of_nat (length fetched_frame) - 4) (Encoder.HResponse 9)
          (received Snake.snake_case Schemas.FetchResponse 16 Samples.fetched), []).
Proof.
  apply (response_frame_roundtrip Snake.snake_case (fun n _ => eq_refl) Schemas.FetchResponse
    16 9 Samples.fetched fetched_frame []);
    [apply shipped_members|done|done| |vm_compute; reflexivity|done|vm_compute; reflexivity].
  apply (bool_decide_unpack _). vm_compute. exact I.
Defined.

Lemma request_refines_grammar_witness :
  ok_of (request Snake.snake_case shipped Schemas.FindCoordinatorRequest
           (Encoder.HRequest (m_api_key Schemas.FindCoordinatorRequest) 4 7 None)
           Samples.find_coordinator)
  = write_request (meta Snake.snake_case Schemas.FindCoordinatorRequest) 4
      (m_api_key Schemas.FindCoordinatorRequest) 7 None
      (into Schemas.FindCoordinatorRequest Samples.find_coordinator).
Proof.
  apply (request_refines_grammar Snake.snake_case (fun n _ => eq_refl) Schemas.FindCoordinatorRequest
    4 7 None Samples.find_coordinator);
    [apply shipped_members|done|done| |vm_compute; reflexivity].
  apply (bool_decide_unpack _). vm_compute. exact I.
Defined.

(** Version 4 has no [key] and may not omit [coordinator_keys]. *)
Lemma omitted_field_refused_witness :
  ok_of (request Snake.snake_case shipped Schemas.FindCoordinatorRequest
           (Encoder.HRequest (m_api_key Schemas.FindCoordinatorRequest) 4 7 None)
           (VStruct (m_name Schemas.FindCoordinatorRequest)
              [("key", VNone); ("key_type", VSome (VInt I8 0)); ("coordinator_keys", VNone)]%string)) = None.
Proof.
  apply (omitted_field_refused Snake.snake_case (fun n _ => eq_refl) Schemas.FindCoordinatorRequest
    4 7 None (mkField "CoordinatorKeys" "[]string" (vr "4+") None None None None));
    [apply shipped_members|done|done| |vm_compute; reflexivity| |done|done|done|done| ].
  - apply (bool_decide_unpack _). vm_compute. exact I.
  - apply list_elem_of_In. vm_compute. tauto.
  - apply list_elem_of_In. vm_compute. tauto.
Defined.

(** [ConsumerGroupDescribe] answers a group that has a member with a frame
    the decoder cannot read: [FieldMeta::structures] leaves out structures that
    are not in an array, so the member's [Assignment] is unknown to it. *)
Theorem described_group_unreadable :
  transmissible Snake.snake_case Schemas.ConsumerGroupDescribeResponse Samples.described_group = true /\
  exists bs,
    response Snake.snake_case shipped Schemas.ConsumerGroupDescribeResponse (Encoder.HResponse 7)
      Samples.described_group 69 0 = Ok bs /\
    response_from_bytes Snake.snake_case shipped bs 69 0 = Err Io.
Proof.
  split; [vm_compute; reflexivity|]. eexists. split; [vm_compute; reflexivity|].
  vm_compute. reflexivity.
Qed.

(** A record batch that declares a negative length, in a [Produce] request of
    no other fault, does not make the decoder answer an error: it panics, on the
    buffer it allocates before it compares the length with what is there. *)
Theorem negative_batch_length_panics :
  request_from_bytes Snake.snake_case shipped Samples.negative_length = Panic CapacityOverflow.
Proof. vm_compute. reflexivity. Qed.
